(* ===== verification/_CoqProject ===== *)
-Q . S2P
Prelude.v
Codec.v
Crypto.v
BlockCommitment.v
NativeTransaction.v
NativeTransfer.v
NativeBlock.v
BlockAuthentication.v
LeaderSelection.v
LegacyBlock.v
LegacyState.v
LegacySlot.v
LegacyPeer.v
LegacyLedger.v
LegacyChain.v
LegacyCorrection.v
LegacyProgress.v
LegacyExample.v
PoashBase.v
PoashState.v
PoashSelection.v
PoashGenesis.v
PoashClaim.v
PoashHistory.v
PoashAdmission.v
PoashApplication.v
PoashCompound.v
PoashChain.v
PoashPeer.v
PoashSnapshot.v
PoashOwner.v
PoashReplay.v
PoashSql.v
PoashCommit.v
PoashFile.v
PoashSchema.v
PoashLive.v
PoashJournal.v
PoashSigning.v
PoashNode.v
PoashProcess.v
PoashDurable.v
PoashWorld.v
PoashRun.v
