(* ===== verification/Prelude.v ===== *)
(** * Verification of the Eternix test network: the C1 PoAsh experiment, the
      native ledger and the V1 node

    The repository holds two generations of a blockchain node.  The V1 node
    (src/src/app, p2p, consensus_hash) runs the test network on one machine's
    memory; the native modules and the C1 experiment (native_*, native_poash)
    are its successor, with authenticated transactions and blocks and durable
    storage.  This library models both and proves what they promise.  Definitions follow the Rust functions of the same name;
    [PROJECT.json] beside this directory maps each one to its lines.

    ** The program's parts and the files that model them

    - Native transactions (src/src/native_transaction.rs): [NativeTransaction].
      The 134/199-byte encodings, profile checks, signing with retry, and
      [authenticate], which recovers the signer.
    - Native transfers (native_transfer.rs): [NativeTransfer].  Account state as
      a [gmap], [apply_transfer], [stage_body] (authenticate all, then execute
      all), and the store interface of [apply_body] as the class
      [AtomicBodyStore].
    - Block commitments (block_commitment.rs), native blocks (native_block.rs) and
      block authentication (block_authentication.rs): [BlockCommitment],
      [NativeBlock], [BlockAuthentication].  Headers, protocol data, wire codecs,
      producer signatures.
    - Leader selection (leader_selection.rs): [LeaderSelection].  The historical
      ticket lottery with rejection sampling.
    - The C1 experiment (native_poash.rs and native_poash/): [PoashBase] (constants,
      errors, decoders), [PoashState] (the closed snapshot and its validator),
      [PoashSelection] (the C1 lottery), [PoashGenesis] (run descriptors),
      [PoashClaim] and [PoashAdmission] (attributed headers and admission plans),
      [PoashHistory] (trusted prefixes and slot views), [PoashApplication] (blocks,
      envelopes, [stage_native], [compound]), [PoashPeer] (the peer-3 protocol),
      [PoashSnapshot] and [PoashOwner] (the schema-4 owner's memory and its
      staging operations), [PoashReplay] and [PoashSql] (stored rows, audit,
      writes), [PoashCommit] (commit, abort, recovery, creation, reopening),
      [PoashSchema] (the constraints and triggers of the tables),
      [PoashJournal] and [PoashSigning] (native_poash/signing.rs and
      signing/journal.rs: the signing journal and the signing authority),
      [PoashNode] (native_poash/trial.rs: one process with its commands, peer
      messages, publication, catch-up, recovery and start) and [PoashRun] (its
      event loop: reader, main and writer threads over bounded channels).
    - The V1 node: [LegacyBlock] (consensus_hash.rs: transactions, blocks, their
      commitments and wire format), [LegacyState] (models.rs and
      app/accounts.rs: the state and the ledger), [LegacySlot]
      (app/consensus.rs: block production, the linear tip, the epoch
      boundaries) and [LegacyPeer] (app/network.rs, p2p.rs and the texts of
      app/utils.rs: slot timing, gossip, snapshots, one datagram).
      [LegacyCorrection] holds the helpers of app/consensus.rs for late blocks,
      which no input reaches, and shows that they only touch the tip.
      [LegacyLedger] proves what transactions and boundaries do to the supply,
      [LegacyChain] and [LegacyProgress] what slots do over time, and
      [LegacyExample] runs small nodes.
    - [PoashCompound] and [PoashChain] hold no new operations: they prove what one
      block does to the state and to the prefix, and study runs of blocks.
      [PoashLive] proves that the owner's operations succeed on a working engine;
      [PoashFile] and [PoashDurable] follow the canonical file through the
      owner's operations and the process's handlers, [PoashProcess] the
      invariant of a process, and [PoashWorld] a machine through starts,
      commands, messages, stops and restarts, and two processes that talk.
    - [Prelude], [Codec] and [Crypto] are shared: Rust results and checked
      arithmetic, big-endian bytes, sorting, a parser monad with its two
      directions of lemmas, and the interfaces of the cryptographic crates.

    The parts interact as the calls do: an owner ([PoashOwner]) derives a slot
    view from its snapshot ([PoashHistory]), selects ([PoashSelection]), admits
    an attributed header ([PoashClaim], [PoashAdmission]), stages the body
    ([NativeTransfer]) and compounds ([PoashApplication]); [PoashCommit] writes
    the record through [PoashSql] and recovery replays it ([PoashReplay]).
    A signing authority ([PoashSigning]) reads the owner's verified base,
    reserves the block in its journal ([PoashJournal]), signs and retains.
    A process ([PoashNode]) advances by preparing, signing, sealing, committing
    and publishing over [PoashPeer], receives by staging and committing, and its
    loop ([PoashRun]) serves one request after the other.  The V1 node shares
    [BlockCommitment] and [LeaderSelection]: a slot executes pending
    transactions on its ledger ([LegacyState]) into a block ([LegacyBlock]),
    checks it through its own wire decoder, records it and installs the new
    state at once ([LegacySlot]).

    ** How the code is represented

    [Result] is [result] with the component's error enum, and every early
    return is a [bind]; [u64] and [u128] are [Z] with explicit widths
    ([in_width]) and checked operations; byte arrays are lists of [byte]; BTree
    maps are [gmap]; private constructors appear as well-formedness predicates
    ([wf_*], [c1_valid]).  A mutating method returns the new object.  Errors are
    kept exactly, except the texts produced by formatting another error, which
    go through a parameter [describe].  The V1 node panics where an [expect]
    fails or, in a build with overflow checks, an unchecked operator overflows;
    there a panic is [None].

    Code outside the repository is a parameter: Keccak-256 and secp256k1 are the
    classes [Keccak] and [K256] (laws in [K256Laws], used only where signing must
    invert recovery), SQLite is [Sqlite] with [SqliteLaws] for the owner's file
    and [Journal] with [JournalLaws] for the signer's (whose lock excludes other
    writers); the lock of the archive is [Fenced], used only where the contents
    of the canonical file are followed across transactions, and an engine
    without faults is [Faultless] ([faultless] for the journal), used only where
    an operation must succeed: it refuses what the schema refuses and a BEGIN
    inside a transaction, nothing else;
    serde_json and hex are the classes [Json], [OperatorJson], [V1Json], [Hex]
    and [HexEncode]; Unicode case and white space, the random generator and
    socket addresses of the V1 node are [Unicode], [Rng] and [PeerAddr]; sockets,
    file creation, locks and syncing are the values their calls return.
    Hash functions are never assumed injective: a theorem that needs it names the
    two preimages that would collide.  Concrete instances ([toy_keccak], [toy_k256],
    [mem_sqlite], [strict_sqlite], [mem_journal]) satisfy the laws and run the
    examples; the last two evaluate every statement against the schema.

    ** What the theorems show

    - The run as a whole: in every prefix reachable from genesis the snapshot is
      valid, supported and conserves ETX ([reachable_invariant]); the run never
      gets stuck before slot 200: a producer is selected in every slot and can
      extend the prefix ([chain_progress]); [compound] accepts exactly
      the fitting blocks of the selected producer and changes the state in
      exactly one way ([compound_iff]).
    - The owner: reachable owners hold audited snapshots whatever I/O does
      ([owner_invariant]); commits are atomic ([commit_atomic]); recovery is
      exact ([recover_exact]); stored rows have one reading ([replay_exact]);
      the schema keeps history append-only whatever statements succeed
      ([schema_append_only]) and never refuses the owner, so on a working engine commits, recoveries, creation
      and reopening succeed ([commit_succeeds], [recovery_succeeds],
      [reopen_exact]) and a prepared block reaches producer and receivers
      alike ([block_replicated]);
      producers and receivers agree ([producer_receiver_agree]); only
      equivocation halts an owner ([conflict_halt_iff]).
    - The signer: over the whole life of a protection store the key signs at
      most one block per slot ([never_double_signs]); journal entries never
      change ([journal_permanent]); returned originals are authentic and durable
      ([original_durable]); an incomplete reservation fences the authority
      ([incomplete_fence]); recovery and reconciliation are exact
      ([signer_recovery], [reconcile_sound]); without faults signing succeeds,
      and the schema of its store never stands in the way ([signing_progress]).
    - The process and the machine: in every reachable world the node's own
      canonical blocks are blocks its key signed, at most one per slot
      ([own_history_signed]); no record of a history is ever lost or changed,
      across uncertain commits and restarts ([history_durable]); every peer
      message is answered truthfully ([peer_answered]); a publication that
      succeeds reached every peer ([published_everywhere]); catching up ends,
      and succeeds only at the pinned target ([catchup_exact]).  The threaded
      loop refines a sequential server on its two streams ([run_refines_server]),
      never refuses an answer ([operator_never_refused]) and answers requests in
      order ([operator_answers]).
    - The V1 node: the stored chain stays valid, linear and append-only whatever
      slots and peers do ([linear_chain], [peer_message_safe]); a slot is all or
      nothing ([finish_slot_atomic]) and accounts for every quark it creates or
      destroys ([slot_conserved]); with well-formed inputs it always ends in a
      block ([slot_progress]), and the inputs that stop it instead are
      exhibited ([poisoned_pool_stalls], [foreign_bootstrap_panics],
      [unnamed_leader_panics]); its encodings are exact and its hashes bind
      ([v1_tx_codec], [v1_wire_codec], [v1_block_binds], [gossip_roundtrip]).
    - The native ledger: conservation, fixed gas and fees, no replay, widths, the
      reported error, atomicity against any store.
    - Validation: what the snapshot, prefix, genesis, claim, block and envelope
      validators accept, as equivalences, and that ids and hashes bind their
      content up to an explicit collision.
    - Selection: the lottery is uniform, answers for every slot, does not depend
      on row order, and both implementations agree.
    - Codecs: decoders accept exactly the encodings; framing is independent of
      how a transport splits bytes.

    ** Bounds and fuel

    Rejection sampling counts a [u64] and stops at its end; [iter_until] runs
    the 2^64 rounds by doubling, so no fuel is chosen, and
    [uniform_below_uniform] shows the loop returns at the first accepted draw.
    The signer retries until a candidate is not x-reduced and has no bound in
    the code; [retry_loop] takes fuel and an entropy stream, and
    [sign_terminates] shows that any fuel beyond the first acceptable candidate
    gives the result.  UTF-8 validation uses the input's length as fuel, proved
    enough ([utf8_valid_fuel_enough]).  Socket loops recurse on what the socket
    delivers.  The catch-up loop takes the target slot as fuel, and
    [catchup_exact] shows that it never runs out.  All other recursion is
    structural.

    ** Not modelled

    Of the V1 node: wallet and Ethereum requests (app/rpc_eth.rs, most of
    app/core.rs), start-up, the genesis file, display and glue (rpc, ui,
    config, main); the requests leave the chain alone and are the step [step_other] of
    [LegacyChain].  The three fixture modules (canonical, authenticated,
    durable) except the error and generation counter the C1 owner uses, and the
    examples.  In the modelled files: the comparison of the schema text and the
    connection pragmas (the engine's [sq_schema] and [j_schema] stand for the
    checks), JSON texts, wall-clock deadlines (an event of the socket), timings
    and test-only fault hooks. *)

From Stdlib Require Export ZArith Lia Strings.Byte.
From stdpp Require Export base gmap strings numbers countable.
From stdpp Require Export list.

#[export] Set Default Goal Selector "!".

(** ** Rust results, early returns and checked arithmetic *)

(** [Result<A, E>].  [Option<A>] is Rocq's [option]; an error carries a value
    of the component's error enum. *)
Inductive result (E A : Type) : Type :=
| Ok (a : A)
| Err (e : E).

Arguments Ok {E A} a.
Arguments Err {E A} e.

#[export] Instance result_eq_dec E A `{EqDecision E, EqDecision A} :
  EqDecision (result E A).
Proof. solve_decision. Defined.

#[export] Instance result_ret E : MRet (result E) := fun A a => Ok a.
(** The [?] operator: an [Err] is returned at once. *)
#[export] Instance result_bind E : MBind (result E) :=
  fun A B f m => match m with Ok a => f a | Err e => Err e end.
#[export] Instance result_fmap E : FMap (result E) :=
  fun A B f m => match m with Ok a => Ok (f a) | Err e => Err e end.

(** [if b { return Err(e); }] *)
Definition fail_if {E} (b : bool) (e : E) : result E () :=
  if b then Err e else Ok ().

(** [Option::ok_or] *)
Definition ok_or {E A} (o : option A) (e : E) : result E A :=
  match o with Some a => Ok a | None => Err e end.

(** [Result::map_err] *)
Definition map_err {E F A} (f : E -> F) (r : result E A) : result F A :=
  match r with Ok a => Ok a | Err e => Err (f e) end.

(** [Result::ok] *)
Definition ok {E A} (r : result E A) : option A :=
  match r with Ok a => Some a | Err _ => None end.

Notation "a ==? b" := (bool_decide (a = b)) (at level 70, no associativity).
Notation "a !=? b" := (bool_decide (a <> b)) (at level 70, no associativity).

(** Widths of the unsigned machine integers; an integer of the source is a
    [Z] below its width. [usize] is 64 bits wide on the supported targets. *)
Abbreviation U8 := 256%Z.
Abbreviation U16 := 65536%Z.
Abbreviation U32 := 4294967296%Z.
Abbreviation U64 := 18446744073709551616%Z.
Abbreviation U128 := 340282366920938463463374607431768211456%Z.

Definition in_width (w z : Z) : Prop := (0 <= z < w)%Z.

#[export] Instance in_width_dec w z : Decision (in_width w z).
Proof. unfold in_width. apply _. Defined.

(** [checked_add] and [checked_sub] at the width [w]. *)
Definition checked_add (w a b : Z) : option Z :=
  if (a + b <? w)%Z then Some (a + b)%Z else None.
Definition checked_sub (a b : Z) : option Z :=
  if (b <=? a)%Z then Some (a - b)%Z else None.
Definition checked_mul (w a b : Z) : option Z :=
  if (a * b <? w)%Z then Some (a * b)%Z else None.
(** [saturating_sub], [saturating_add] and [wrapping_neg]. *)
Definition saturating_sub (a b : Z) : Z := Z.max 0 (a - b).
Definition saturating_add (w a b : Z) : Z := Z.min (w - 1) (a + b).
Definition wrapping_neg (w a : Z) : Z := ((- a) mod w)%Z.

(** ** Bytes, byte strings and big-endian integers *)

Abbreviation bytes := (list byte).

#[export] Instance byte_eq_dec_inst : EqDecision byte := Byte.byte_eq_dec.

#[export] Program Instance byte_countable : Countable byte :=
  inj_countable Byte.to_N Byte.of_N _.
Next Obligation. intros b. apply Byte.of_to_N. Qed.

Definition byte_val (b : byte) : Z := Z.of_N (Byte.to_N b).

(** [z as u8] *)
Definition byte_of (z : Z) : byte :=
  default Byte.x00 (Byte.of_N (Z.to_N (z mod 256))).

(** [uN::to_be_bytes] and [uN::from_be_bytes] for an [n]-byte integer. *)
Fixpoint be_bytes (n : nat) (z : Z) : bytes :=
  match n with
  | O => []
  | S m => byte_of (z / 256 ^ Z.of_nat m) :: be_bytes m z
  end.

Definition be_val (bs : bytes) : Z :=
  fold_left (fun acc b => acc * 256 + byte_val b)%Z bs 0%Z.

(** ASCII literals of the source. *)
Definition str (s : string) : bytes := String.list_byte_of_string s.

(** [[0; n]] *)
Definition zeros (n : nat) : bytes := replicate n Byte.x00.

(** [&bytes[off..off + n]] where the bounds hold. *)
Definition slice (n off : nat) (bs : bytes) : bytes := take n (drop off bs).

(** [buf[off..off + src.len()].copy_from_slice(src)] where the bounds hold. *)
Definition copy_at (off : nat) (src buf : bytes) : bytes :=
  take off buf ++ src ++ drop (off + length src) buf.

(** Lexicographic order, as [Ord] for [[u8; N]] and [str]. *)
Fixpoint bytes_compare (a b : bytes) : comparison :=
  match a, b with
  | [], [] => Eq
  | [], _ => Lt
  | _, [] => Gt
  | x :: a', y :: b' =>
      match Z.compare (byte_val x) (byte_val y) with
      | Eq => bytes_compare a' b'
      | c => c
      end
  end.

Definition bytes_leb (a b : bytes) : bool :=
  match bytes_compare a b with Gt => false | _ => true end.

(** [str::from_utf8] accepts exactly the well-formed UTF-8 byte sequences
    (no overlong forms, no surrogates, nothing above U+10FFFF). *)
Definition byte_in (lo hi : Z) (b : byte) : bool :=
  ((lo <=? byte_val b) && (byte_val b <=? hi))%Z.

Fixpoint utf8_valid_fuel (fuel : nat) (bs : bytes) : bool :=
  match fuel, bs with
  | _, [] => true
  | O, _ => false
  | S n, b0 :: r0 =>
      if byte_in 0 127 b0 then utf8_valid_fuel n r0 else
      match r0 with
      | [] => false
      | b1 :: r1 =>
          if byte_in 194 223 b0 then
            byte_in 128 191 b1 && utf8_valid_fuel n r1
          else
          match r1 with
          | [] => false
          | b2 :: r2 =>
              if byte_in 224 239 b0 then
                (if byte_in 224 224 b0 then byte_in 160 191 b1
                 else if byte_in 237 237 b0 then byte_in 128 159 b1
                 else byte_in 128 191 b1)
                && byte_in 128 191 b2 && utf8_valid_fuel n r2
              else
              match r2 with
              | [] => false
              | b3 :: r3 =>
                  byte_in 240 244 b0
                  && (if byte_in 240 240 b0 then byte_in 144 191 b1
                      else if byte_in 244 244 b0 then byte_in 128 143 b1
                      else byte_in 128 191 b1)
                  && byte_in 128 191 b2 && byte_in 128 191 b3
                  && utf8_valid_fuel n r3
              end
          end
      end
  end.

(** One byte of fuel per input byte suffices: every step consumes one. *)
Definition utf8_valid (bs : bytes) : bool := utf8_valid_fuel (length bs) bs.

(** ** Sorting, as [sort_by]/[sort_by_key]: a stable insertion sort *)

Section Sorting.
  Context {A : Type} (leb : A -> A -> bool).

Fixpoint insert_sorted (x : A) (l : list A) : list A :=
  match l with
  | [] => [x]
  | y :: r => if leb x y then x :: y :: r else y :: insert_sorted x r
  end.

Definition sort_by (l : list A) : list A := foldr insert_sorted [] l.

Inductive sorted : list A -> Prop :=
| sorted_nil : sorted []
| sorted_cons x l : (forall y, y ∈ l -> leb x y = true) -> sorted l -> sorted (x :: l).

Lemma insert_sorted_perm x l : insert_sorted x l ≡ₚ x :: l.
Proof.
  induction l as [|y r IH]; simpl; [done|].
  destruct (leb x y); [done|]. rewrite IH. apply Permutation_swap.
Qed.

Lemma sort_by_perm l : sort_by l ≡ₚ l.
Proof.
  induction l as [|x l IH]; simpl; [done|]. by rewrite insert_sorted_perm, IH.
Qed.

Context (leb_total : forall x y, leb x y = true \/ leb y x = true).
Context (leb_trans : forall x y z, leb x y = true -> leb y z = true -> leb x z = true).

Lemma insert_sorted_sorted x l : sorted l -> sorted (insert_sorted x l).
Proof.
  induction 1 as [|y r Hle Hr IH]; simpl.
  { constructor; [|constructor]. intros y Hy. by apply not_elem_of_nil in Hy. }
  destruct (leb x y) eqn:E.
  - constructor; [|by constructor].
    intros z [->|Hz]%elem_of_cons; [done|]. eauto.
  - constructor; [|done]. intros z Hz.
    rewrite insert_sorted_perm in Hz. apply elem_of_cons in Hz as [->|Hz]; [|eauto].
    destruct (leb_total x y); congruence.
Qed.

Lemma sort_by_sorted l : sorted (sort_by l).
Proof.
  induction l as [|x l IH]; simpl; [constructor|]. by apply insert_sorted_sorted.
Qed.

Lemma sort_by_id l : sorted l -> sort_by l = l.
Proof.
  induction 1 as [|x l Hle Hl IH]; simpl; [done|]. rewrite IH.
  destruct l as [|y r]; simpl; [done|]. rewrite Hle; [done|]. by left.
Qed.

(** Two sorted arrangements of the same rows agree when rows that compare
    equal both ways are equal: sorting forgets the caller's row order. *)
Lemma sorted_perm_eq l k :
  sorted l -> sorted k -> l ≡ₚ k ->
  (forall x y, x ∈ l -> y ∈ l -> leb x y = true -> leb y x = true -> x = y) ->
  l = k.
Proof.
  intros Hl. revert k. induction Hl as [|x l Hle Hl IH]; intros k Hk Hp Hanti.
  { by apply Permutation_nil_l in Hp. }
  destruct Hk as [|y k Hle' Hk]; [by apply Permutation_nil_r in Hp|].
  assert (x = y) as <-.
  { assert (x ∈ y :: k) as Hx by (rewrite <- Hp; left).
    assert (y ∈ x :: l) as Hy by (rewrite Hp; left).
    apply elem_of_cons in Hx as [->|Hx]; [done|].
    apply elem_of_cons in Hy as [->|Hy]; [done|].
    apply Hanti; [by left|by right| |]; auto. }
  apply Permutation_cons_inv in Hp. f_equal. apply IH; [done..|].
  intros a b Ha Hb. apply Hanti; by right.
Qed.

Lemma sort_by_perm_invariant l k :
  l ≡ₚ k ->
  (forall x y, x ∈ l -> y ∈ l -> leb x y = true -> leb y x = true -> x = y) ->
  sort_by l = sort_by k.
Proof.
  intros Hp Hanti. apply sorted_perm_eq; [apply sort_by_sorted..| |].
  - by rewrite !sort_by_perm.
  - intros x y. rewrite !sort_by_perm. apply Hanti.
Qed.
End Sorting.

Lemma filter_all {A} (P : A -> Prop) `{!forall x, Decision (P x)} l :
  Forall P l -> filter P l = l.
Proof. induction 1; [done|]. rewrite filter_cons_True by done. by f_equal. Qed.

Lemma NoDup_key_inj {A K} (key : A -> K) l x y :
  NoDup (map key l) -> x ∈ l -> y ∈ l -> key x = key y -> x = y.
Proof.
  induction l as [|a l IH]; intros Hnd Hx Hy E; [by apply not_elem_of_nil in Hx|].
  cbn [map] in Hnd. apply NoDup_cons in Hnd as [Ha Hnd].
  apply elem_of_cons in Hx as [->|Hx]; apply elem_of_cons in Hy as [->|Hy]; auto; exfalso; apply Ha.
  - rewrite E. apply list_elem_of_fmap. eauto.
  - rewrite <- E. apply list_elem_of_fmap. eauto.
Qed.

(** Sorting rows by distinct keys is insensitive to the input order. *)
Lemma sort_by_key_perm {A K} (leb : K -> K -> bool) (key : A -> K) l k :
  (forall x y, leb x y = true \/ leb y x = true) ->
  (forall x y z, leb x y = true -> leb y z = true -> leb x z = true) ->
  (forall x y, leb x y = true -> leb y x = true -> x = y) ->
  NoDup (map key l) -> l ≡ₚ k ->
  sort_by (fun a b => leb (key a) (key b)) l = sort_by (fun a b => leb (key a) (key b)) k.
Proof.
  intros Htot Htr Hanti Hnd Hp. apply sort_by_perm_invariant; [..|done|].
  - intros. apply Htot.
  - intros. by eapply Htr.
  - intros x y Hx Hy Hxy Hyx. eapply NoDup_key_inj; [exact Hnd|done..|]. auto.
Qed.

(** ** Lemmas: results *)

Ltac destruct_ex_step :=
  match goal with H : exists _, _ |- _ => destruct H end.
Tactic Notation "destruct_ex" "?" := repeat destruct_ex_step.


Lemma bind_Ok {E A B} (m : result E A) (f : A -> result E B) b :
  m ≫= f = Ok b <-> exists a, m = Ok a /\ f a = Ok b.
Proof.
  destruct m; unfold mbind, result_bind; split; intros H;
    repeat (destruct_or? || destruct_and? || destruct_ex?); simplify_eq; eauto.
Qed.

Lemma bind_of_Ok {E A B} (x : A) (k : A -> result E B) : (y ← Ok x; k y) = k x.
Proof. done. Qed.

Lemma ok_or_of_Some {E A} (x : A) (e : E) : ok_or (Some x) e = Ok x.
Proof. done. Qed.

Lemma bind_Err {E A B} (m : result E A) (f : A -> result E B) e :
  m ≫= f = Err e <-> m = Err e \/ exists a, m = Ok a /\ f a = Err e.
Proof.
  destruct m; unfold mbind, result_bind; split; intros H;
    repeat (destruct_or? || destruct_and? || destruct_ex?); simplify_eq; eauto.
Qed.

Lemma fmap_Ok {E A B} (m : result E A) (f : A -> B) b :
  f <$> m = Ok b <-> exists a, m = Ok a /\ f a = b.
Proof.
  destruct m; unfold fmap, result_fmap; split; intros H;
    repeat (destruct_and? || destruct_ex?); simplify_eq; eauto.
Qed.

#[export] Instance Ok_inj_inst E A : Inj (=) (=) (@Ok E A).
Proof. by intros a b [= ->]. Qed.

Lemma mret_Ok {E A} (a b : A) : (mret a : result E A) = Ok b <-> a = b.
Proof. unfold mret, result_ret. split; congruence. Qed.

Lemma fail_if_Ok {E} b (e : E) u : fail_if b e = Ok u <-> b = false.
Proof. destruct b, u; unfold fail_if; split; congruence. Qed.

Lemma fail_if_Err {E} b (e e' : E) : fail_if b e = Err e' <-> b = true /\ e = e'.
Proof. destruct b; unfold fail_if; split; intros H; destruct_and?; split_and?; congruence. Qed.

Lemma ok_or_Ok {E A} (o : option A) (e : E) a : ok_or o e = Ok a <-> o = Some a.
Proof. destruct o; simpl; split; congruence. Qed.

Lemma map_err_Ok {E F A} (f : E -> F) (r : result E A) a :
  map_err f r = Ok a <-> r = Ok a.
Proof. destruct r; simpl; split; congruence. Qed.

Lemma ok_Some {E A} (r : result E A) a : ok r = Some a <-> r = Ok a.
Proof. destruct r; simpl; split; congruence. Qed.

Lemma checked_add_Some w a b c :
  checked_add w a b = Some c <-> (a + b < w)%Z /\ c = (a + b)%Z.
Proof. unfold checked_add. case_match; split; intros; destruct_and?; simplify_eq; try split; try lia; f_equal; lia. Qed.

Lemma checked_sub_Some a b c :
  checked_sub a b = Some c <-> (b <= a)%Z /\ c = (a - b)%Z.
Proof. unfold checked_sub. case_match; split; intros; destruct_and?; simplify_eq; try split; try lia; f_equal; lia. Qed.

Lemma checked_mul_Some w a b c :
  checked_mul w a b = Some c <-> (a * b < w)%Z /\ c = (a * b)%Z.
Proof. unfold checked_mul. case_match; split; intros; destruct_and?; simplify_eq; try split; try lia; f_equal; lia. Qed.

(** [inv_ok] splits a successful computation into the facts each of its
    steps established, in the order of the source. *)
Ltac inv_ok_step :=
  match goal with
  | H : (_ ≫= _) = Ok _ |- _ =>
      apply bind_Ok in H; let a := fresh "v" in let H' := fresh "H" in
      destruct H as (a & H' & H)
  | H : (_ <$> _) = Ok _ |- _ =>
      apply fmap_Ok in H; let a := fresh "v" in destruct H as (a & H & <-)
  | H : fail_if _ _ = Ok _ |- _ => apply fail_if_Ok in H
  | H : ok_or _ _ = Ok _ |- _ => apply ok_or_Ok in H
  | H : map_err _ _ = Ok _ |- _ => apply map_err_Ok in H
  | H : ok _ = Some _ |- _ => apply ok_Some in H
  | H : checked_add _ _ _ = Some _ |- _ => apply checked_add_Some in H as [? H]
  | H : checked_mul _ _ _ = Some _ |- _ => apply checked_mul_Some in H as [? H]
  | H : checked_sub _ _ = Some _ |- _ => apply checked_sub_Some in H as [? H]
  | H : mret _ = Ok _ |- _ => apply mret_Ok in H
  | H : Ok _ = Ok _ |- _ => injection H as H
  | H : Some _ = Some _ |- _ => injection H as H
  | H : Ok _ = Err _ |- _ => discriminate H
  | H : Err _ = Ok _ |- _ => discriminate H
  | u : unit |- _ => destruct u
  end.

(** [inv_bool] turns the boolean tests the source branches on into
    propositions. *)
Ltac inv_bool_step :=
  match goal with
  | H : (_ || _)%bool = false |- _ => apply orb_false_iff in H as [? ?]
  | H : (_ && _)%bool = true |- _ => apply andb_true_iff in H as [? ?]
  | H : negb _ = true |- _ => apply negb_true_iff in H
  | H : negb _ = false |- _ => apply negb_false_iff in H
  | H : bool_decide (_ <> _) = false |- _ =>
      apply bool_decide_eq_false in H; apply dec_stable in H
  | H : bool_decide _ = false |- _ => apply bool_decide_eq_false in H
  | H : bool_decide _ = true |- _ => apply bool_decide_eq_true in H
  | H : (_ <? _)%Z = false |- _ => apply Z.ltb_ge in H
  | H : (_ <? _)%Z = true |- _ => apply Z.ltb_lt in H
  | H : (_ <=? _)%Z = false |- _ => apply Z.leb_gt in H
  | H : (_ <=? _)%Z = true |- _ => apply Z.leb_le in H
  | H : (_ =? _)%Z = false |- _ => apply Z.eqb_neq in H
  | H : (_ =? _)%Z = true |- _ => apply Z.eqb_eq in H
  end.

Ltac inv_ok := repeat inv_ok_step; repeat inv_bool_step.

(** [run_ok] discharges the steps of a computation from the facts in the
    context: every guard is decided, every sub-result rewritten. *)
Lemma bind_Ok_intro {E A B} (m : result E A) (f : A -> result E B) a r :
  m = Ok a -> f a = r -> m ≫= f = r.
Proof. intros ->; done. Qed.

Lemma fail_if_false {E} b (e : E) : b = false -> fail_if b e = Ok ().
Proof. intros ->; done. Qed.

Lemma neq_dec_false {A} (a b : A) `{Decision (a <> b)} : a = b -> (a !=? b) = false.
Proof. intros ->. apply bool_decide_eq_false_2. tauto. Qed.

Lemma orb_false_intro' a b : a = false -> b = false -> (a || b)%bool = false.
Proof. by intros -> ->. Qed.

(** [by_computation] proves a decidable fact about closed data. *)
Ltac by_computation := apply (bool_decide_unpack _); vm_compute; exact I.

(** ** Lemmas: bytes *)

Lemma byte_val_range b : (0 <= byte_val b < 256)%Z.
Proof.
  unfold byte_val. pose proof (Byte.to_N_bounded b). lia.
Qed.

Lemma byte_val_of z : byte_val (byte_of z) = (z mod 256)%Z.
Proof.
  unfold byte_val, byte_of. pose proof (Z.mod_pos_bound z 256).
  destruct (Byte.of_N (Z.to_N (z mod 256))) as [b|] eqn:E; simpl.
  - apply Byte.to_of_N in E. lia.
  - apply Byte.of_N_None_iff in E. lia.
Qed.

Lemma byte_val_inj a b : byte_val a = byte_val b -> a = b.
Proof.
  unfold byte_val. intros H%N2Z.inj.
  pose proof (Byte.of_to_N a) as Ha. pose proof (Byte.of_to_N b) as Hb. congruence.
Qed.

Lemma byte_of_val b : byte_of (byte_val b) = b.
Proof.
  apply byte_val_inj. rewrite byte_val_of. apply Z.mod_small, byte_val_range.
Qed.

Lemma length_be_bytes n z : length (be_bytes n z) = n.
Proof. induction n; simpl; lia. Qed.

Lemma be_val_app a b : be_val (a ++ b) = (be_val a * 256 ^ Z.of_nat (length b) + be_val b)%Z.
Proof.
  unfold be_val. rewrite fold_left_app.
  generalize (fold_left (fun acc b => acc * 256 + byte_val b)%Z a 0%Z) as acc.
  induction b as [|x b IH] using rev_ind; intros acc; simpl; [lia|].
  rewrite !fold_left_app, length_app, IH. simpl.
  replace (Z.of_nat (length b + 1)) with (Z.succ (Z.of_nat (length b))) by lia.
  rewrite Z.pow_succ_r by lia. ring.
Qed.

Lemma be_val_cons x b : be_val (x :: b) = (byte_val x * 256 ^ Z.of_nat (length b) + be_val b)%Z.
Proof. change (x :: b) with ([x] ++ b). by rewrite be_val_app. Qed.

Lemma be_val_range bs : (0 <= be_val bs < 256 ^ Z.of_nat (length bs))%Z.
Proof.
  induction bs as [|x bs IH]; [by unfold be_val|].
  rewrite be_val_cons. simpl length. rewrite Nat2Z.inj_succ, Z.pow_succ_r by lia.
  pose proof (byte_val_range x). nia.
Qed.

Lemma be_val_bytes n z : be_val (be_bytes n z) = (z mod 256 ^ Z.of_nat n)%Z.
Proof.
  induction n as [|n IH]; [by rewrite Z.mod_1_r|].
  simpl be_bytes. rewrite be_val_cons, length_be_bytes, IH, byte_val_of.
  rewrite Nat2Z.inj_succ, Z.pow_succ_r by lia.
  set (p := (256 ^ Z.of_nat n)%Z). assert (0 < p)%Z by (apply Z.pow_pos_nonneg; lia).
  rewrite (Z.mul_comm 256 p), Z.rem_mul_r by lia. lia.
Qed.

Lemma be_val_inj a b : length a = length b -> be_val a = be_val b -> a = b.
Proof.
  revert b. induction a as [|x a IH]; intros [|y b] Hlen Hval; simplify_eq/=; [done|].
  rewrite !be_val_cons, Hlen in Hval.
  pose proof (be_val_range a) as Ha. pose proof (be_val_range b) as Hb.
  rewrite Hlen in Ha. set (p := (256 ^ Z.of_nat (length b))%Z) in *.
  assert (byte_val x = byte_val y) as Hxy by nia.
  f_equal; [by apply byte_val_inj|]. apply IH; [done|]. rewrite Hxy in Hval. lia.
Qed.

Lemma be_bytes_val n bs : length bs = n -> be_bytes n (be_val bs) = bs.
Proof.
  intros <-. apply be_val_inj; [apply length_be_bytes|].
  rewrite be_val_bytes. apply Z.mod_small, be_val_range.
Qed.

Lemma be_val_bytes_width n w z :
  w = (256 ^ Z.of_nat n)%Z -> in_width w z -> be_val (be_bytes n z) = z.
Proof. intros -> Hz. rewrite be_val_bytes. by apply Z.mod_small. Qed.

Lemma be_bytes_inj n w a b :
  w = (256 ^ Z.of_nat n)%Z -> in_width w a -> in_width w b ->
  be_bytes n a = be_bytes n b -> a = b.
Proof.
  intros Hw Ha Hb H. rewrite <- (be_val_bytes_width n w a), H by done.
  by apply be_val_bytes_width with w.
Qed.

Lemma be_val_width n w bs :
  w = (256 ^ Z.of_nat n)%Z -> length bs = n -> in_width w (be_val bs).
Proof. intros -> <-. apply be_val_range. Qed.

Lemma length_zeros n : length (zeros n) = n.
Proof. apply length_replicate. Qed.

Lemma length_slice n off bs : (off + n <= length bs)%nat -> length (slice n off bs) = n.
Proof. intros. unfold slice. rewrite length_take, length_drop. lia. Qed.

(** Consecutive slices glue back together. *)
Lemma slice_drop n off bs : slice n off bs ++ drop (off + n) bs = drop off bs.
Proof. unfold slice. rewrite <- drop_drop. apply take_drop. Qed.

Fixpoint slices (ns : list nat) (off : nat) (bs : bytes) : list bytes :=
  match ns with
  | [] => []
  | n :: r => slice n off bs :: slices r (off + n) bs
  end.

Lemma concat_slices ns off bs :
  concat (slices ns off bs) ++ drop (off + sum_list ns) bs = drop off bs.
Proof.
  revert off. induction ns as [|n ns IH]; intros off; simpl.
  - by rewrite Nat.add_0_r.
  - rewrite <- app_assoc, Nat.add_assoc, IH. apply slice_drop.
Qed.

Lemma concat_slices_all ns bs :
  length bs = sum_list ns -> concat (slices ns 0 bs) = bs.
Proof.
  intros Hl. rewrite <- (drop_0 bs) at 2. rewrite <- (concat_slices ns 0 bs).
  by rewrite Nat.add_0_l, <- Hl, drop_all, app_nil_r.
Qed.

Lemma slice_app_skip n off a b :
  (length a <= off)%nat -> slice n off (a ++ b) = slice n (off - length a) b.
Proof. intros. unfold slice. by rewrite drop_app_ge. Qed.

Lemma slice_app_here n a b : length a = n -> slice n 0 (a ++ b) = a.
Proof. intros <-. unfold slice. rewrite drop_0. apply take_app_length. Qed.

Lemma slice_all n a : length a = n -> slice n 0 a = a.
Proof. intros <-. unfold slice. rewrite drop_0. by apply take_ge. Qed.

Lemma length_copy_at off src buf :
  (off + length src <= length buf)%nat -> length (copy_at off src buf) = length buf.
Proof.
  intros. unfold copy_at. rewrite !length_app, length_take, length_drop. lia.
Qed.

(** Filling a zeroed buffer left to right appends to the filled prefix. *)
Lemma copy_at_fill off src done k :
  length done = off -> (length src <= k)%nat ->
  copy_at off src (done ++ zeros k) = (done ++ src) ++ zeros (k - length src).
Proof.
  intros <- Hk. unfold copy_at, zeros.
  rewrite take_app_length, <- app_assoc. f_equal. f_equal.
  rewrite drop_app_add, drop_replicate. done.
Qed.

Lemma bytes_compare_refl a : bytes_compare a a = Eq.
Proof. induction a as [|x a IH]; simpl; [done|]. by rewrite Z.compare_refl. Qed.

Lemma bytes_compare_Eq a b : bytes_compare a b = Eq -> a = b.
Proof.
  revert b. induction a as [|x a IH]; intros [|y b]; simpl; try done.
  destruct (Z.compare_spec (byte_val x) (byte_val y)) as [H|H|H]; try done.
  intros ?%IH. f_equal; [by apply byte_val_inj|done].
Qed.

Lemma bytes_compare_antisym a b : bytes_compare b a = CompOpp (bytes_compare a b).
Proof.
  revert b. induction a as [|x a IH]; intros [|y b]; simpl; try done.
  rewrite Z.compare_antisym.
  destruct (Z.compare (byte_val x) (byte_val y)); simpl; auto.
Qed.

Lemma bytes_leb_total a b : bytes_leb a b = true \/ bytes_leb b a = true.
Proof.
  unfold bytes_leb. rewrite (bytes_compare_antisym a b).
  destruct (bytes_compare a b); simpl; auto.
Qed.

Lemma bytes_leb_antisym a b : bytes_leb a b = true -> bytes_leb b a = true -> a = b.
Proof.
  unfold bytes_leb. rewrite (bytes_compare_antisym a b).
  destruct (bytes_compare a b) eqn:E; simpl; try done. by intros; apply bytes_compare_Eq.
Qed.

Lemma bytes_leb_trans a b c :
  bytes_leb a b = true -> bytes_leb b c = true -> bytes_leb a c = true.
Proof.
  unfold bytes_leb. revert b c.
  induction a as [|x a IH]; intros [|y b] [|z c]; simpl; try done.
  destruct (Z.compare_spec (byte_val x) (byte_val y)) as [H|H|H];
  destruct (Z.compare_spec (byte_val y) (byte_val z)) as [H'|H'|H'];
  destruct (Z.compare_spec (byte_val x) (byte_val z)) as [H''|H''|H''];
    try done; try lia. apply IH.
Qed.

(** More fuel than bytes changes nothing. *)
Lemma utf8_valid_fuel_enough n bs :
  (length bs <= n)%nat -> utf8_valid_fuel n bs = utf8_valid bs.
Proof.
  unfold utf8_valid.
  enough (forall m k, (length bs <= m)%nat -> (length bs <= k)%nat ->
    utf8_valid_fuel m bs = utf8_valid_fuel k bs) as H by (intros; apply H; lia).
  intros m. revert bs. induction m as [|m IH]; intros bs k Hm Hk.
  { destruct bs; [by destruct k|simpl in Hm; lia]. }
  destruct bs as [|b0 r0]; [by destruct k|]. destruct k as [|k]; [simpl in Hk; lia|].
  simpl in *. destruct r0 as [|b1 [|b2 [|b3 r3]]]; simpl in *;
    repeat case_match; try done; repeat (rewrite (IH _ k) by (simpl; lia)); done.
Qed.

#[global] Arguments be_bytes : simpl never.
#[global] Arguments be_val : simpl never.
#[global] Arguments zeros : simpl never.
#[global] Arguments slice : simpl never.
#[global] Arguments copy_at : simpl never.
#[global] Arguments utf8_valid : simpl never.
#[global] Arguments byte_of : simpl never.
#[global] Arguments str : simpl never.
#[global] Opaque be_bytes be_val byte_of.
