(* ===== verification/Codec.v ===== *)
(** * Byte decoders

    Every binary format of the repository is read by a small [Decoder]
    struct: a borrowed slice and an offset, with [take], [field::<N>] and the
    big-endian integer readers built on it (src/src/block_commitment.rs,
    src/src/native_block.rs, src/src/native_poash.rs and
    src/src/consensus_hash.rs each have their own copy, differing only in the
    error values).  This file models that struct once, as a state-and-error
    monad, and proves the two directions all the format theorems use:

    - [parses p bs a]: started at [bs], the reader [p] returns [a] and stops
      right behind [bs]  (what encoding followed by decoding needs);
    - [consumes d bs d']: between two decoder states exactly [bs] was read
      (what uniqueness of the encoding needs). *)

From S2P Require Import Prelude.

Record Decoder : Type := mk_decoder { d_bytes : bytes; d_offset : nat }.

Definition parser (E A : Type) : Type := Decoder -> result E (A * Decoder).

#[export] Instance parser_ret E : MRet (parser E) := fun A a d => Ok (a, d).
#[export] Instance parser_bind E : MBind (parser E) :=
  fun A B f p d => match p d with Ok (a, d') => f a d' | Err e => Err e end.

(** A step that does not touch the decoder ([?] on an ordinary result). *)
Definition p_lift {E A} (r : result E A) : parser E A :=
  fun d => match r with Ok a => Ok (a, d) | Err e => Err e end.

Section Readers.
  Context {E : Type} (overflow truncation : E).

(** [take]: [checked_add] on the offset, then [slice::get]. *)
Definition p_take (len : Z) : parser E bytes := fun d =>
  match checked_add U64 (Z.of_nat (d_offset d)) len with
  | None => Err overflow
  | Some stop =>
      if (stop <=? Z.of_nat (length (d_bytes d)))%Z
      then Ok (slice (Z.to_nat len) (d_offset d) (d_bytes d),
               mk_decoder (d_bytes d) (d_offset d + Z.to_nat len))
      else Err truncation
  end.

(** [field::<N>]: the conversion of an [N]-byte slice to [[u8; N]] cannot
    fail. *)
Definition p_field (n : nat) : parser E bytes := p_take (Z.of_nat n).

(** [u8], [u16], [u32], [u64] and [u128] for [n] = 1, 2, 4, 8 and 16. *)
Definition p_uint (n : nat) : parser E Z :=
  b ← p_field n; mret (be_val b).
End Readers.

(** A check on the number of bytes left: [bytes.len().saturating_sub(offset)]. *)
Definition p_guard {E} (f : Z -> result E ()) : parser E () := fun d =>
  p_lift (f (saturating_sub (Z.of_nat (length (d_bytes d))) (Z.of_nat (d_offset d)))) d.

(** [for i in 0..count] collecting one item per round. *)
Fixpoint p_repeat {E A} (count : nat) (i : nat) (p : nat -> parser E A) :
    parser E (list A) :=
  match count with
  | O => mret []
  | S c => a ← p i; l ← p_repeat c (S i) p; mret (a :: l)
  end.

(** [offset == bytes.len()] *)
Definition finished (d : Decoder) : bool := d_offset d ==? length (d_bytes d).

Definition decoder (bs : bytes) : Decoder := mk_decoder bs 0.

(** ** Reading what was written *)

Definition rest (d : Decoder) : bytes := drop (d_offset d) (d_bytes d).
Definition advance (d : Decoder) (n : nat) : Decoder :=
  mk_decoder (d_bytes d) (d_offset d + n).

(** A Rust slice holds fewer than [usize::MAX] bytes and the offset never
    leaves it. *)
Definition dec_ok (d : Decoder) : Prop :=
  (d_offset d <= length (d_bytes d))%nat /\ (Z.of_nat (length (d_bytes d)) < U64)%Z.

Definition parses {E A} (p : parser E A) (bs : bytes) (a : A) : Prop :=
  forall d y, dec_ok d -> rest d = bs ++ y -> p d = Ok (a, advance d (length bs)).

Lemma rest_advance d bs y : rest d = bs ++ y -> rest (advance d (length bs)) = y.
Proof.
  unfold rest, advance; simpl. intros H. rewrite <- drop_drop, H. apply drop_app_length.
Qed.

Lemma dec_ok_advance d bs y : dec_ok d -> rest d = bs ++ y -> dec_ok (advance d (length bs)).
Proof.
  unfold dec_ok, rest, advance; simpl. intros [Ho Hl] H. split; [|done].
  apply (f_equal length) in H. rewrite length_drop, length_app in H. lia.
Qed.

Lemma dec_ok_decoder bs : (Z.of_nat (length bs) < U64)%Z -> dec_ok (decoder bs).
Proof. unfold dec_ok, decoder; simpl. lia. Qed.

Lemma advance_advance d m n : advance (advance d m) n = advance d (m + n).
Proof. unfold advance; simpl. f_equal. lia. Qed.

Lemma parses_ret {E A} (a : A) : parses (mret a : parser E A) [] a.
Proof.
  intros [bs o] y _ _. unfold mret, parser_ret, advance; simpl. by rewrite Nat.add_0_r.
Qed.

Lemma parses_bind {E A B} (p : parser E A) (f : A -> parser E B) b1 b2 a b :
  parses p b1 a -> parses (f a) b2 b -> parses (p ≫= f) (b1 ++ b2) b.
Proof.
  intros Hp Hf d y Hok Hr. rewrite <- app_assoc in Hr.
  unfold mbind, parser_bind. rewrite (Hp d _ Hok Hr).
  rewrite (Hf _ y); [|by eapply dec_ok_advance|by apply rest_advance].
  by rewrite advance_advance, length_app.
Qed.

Lemma parses_lift {E A} (r : result E A) a : r = Ok a -> parses (p_lift r) [] a.
Proof.
  intros -> [bs o] y _ _. unfold p_lift, advance; simpl. by rewrite Nat.add_0_r.
Qed.

Lemma parses_take {E} (o t : E) n bs :
  Z.of_nat (length bs) = n -> parses (p_take o t n) bs bs.
Proof.
  intros <- d y Hok Hr. pose proof (dec_ok_advance _ _ _ Hok Hr) as [Hle Hlt].
  simpl in Hle, Hlt. unfold p_take, checked_add.
  destruct (Z.ltb_spec (Z.of_nat (d_offset d) + Z.of_nat (length bs)) U64); [|lia].
  destruct (Z.leb_spec (Z.of_nat (d_offset d) + Z.of_nat (length bs))
    (Z.of_nat (length (d_bytes d)))); [|lia].
  rewrite Nat2Z.id. unfold slice, advance. unfold rest in Hr. rewrite Hr.
  by rewrite take_app_length.
Qed.

Lemma parses_field {E} (o t : E) n bs : length bs = n -> parses (p_field o t n) bs bs.
Proof. intros <-. by apply parses_take. Qed.

Lemma parses_uint {E} (o t : E) n w z :
  w = (256 ^ Z.of_nat n)%Z -> in_width w z -> parses (p_uint o t n) (be_bytes n z) z.
Proof.
  intros Hw Hz. unfold p_uint. rewrite <- (app_nil_r (be_bytes n z)).
  eapply parses_bind; [apply parses_field, length_be_bytes|].
  rewrite (be_val_bytes_width n w z) by done. apply parses_ret.
Qed.

Lemma parses_u8 {E} (o t : E) z : in_width U8 z -> parses (p_uint o t 1) (be_bytes 1 z) z.
Proof. by apply parses_uint. Qed.
Lemma parses_u16 {E} (o t : E) z : in_width U16 z -> parses (p_uint o t 2) (be_bytes 2 z) z.
Proof. by apply parses_uint. Qed.
Lemma parses_u32 {E} (o t : E) z : in_width U32 z -> parses (p_uint o t 4) (be_bytes 4 z) z.
Proof. by apply parses_uint. Qed.
Lemma parses_u64 {E} (o t : E) z : in_width U64 z -> parses (p_uint o t 8) (be_bytes 8 z) z.
Proof. by apply parses_uint. Qed.
Lemma parses_u128 {E} (o t : E) z : in_width U128 z -> parses (p_uint o t 16) (be_bytes 16 z) z.
Proof. by apply parses_uint. Qed.

Lemma parses_bind_lift {E A B} (r : result E A) (f : A -> parser E B) bs a b :
  r = Ok a -> parses (f a) bs b -> parses (p_lift r ≫= f) bs b.
Proof. intros Hr Hf. apply (parses_bind _ _ [] bs a b); [by apply parses_lift|done]. Qed.

Lemma parses_guard {E A} (f : Z -> result E ()) (p : parser E A) bs a :
  (forall n, (Z.of_nat (length bs) <= n)%Z -> f n = Ok ()) ->
  parses p bs a -> parses (p_guard f ≫= fun _ => p) bs a.
Proof.
  intros Hf Hp d y Hok Hr. unfold mbind, parser_bind, p_guard.
  rewrite Hf; [by apply (Hp d y)|]. destruct Hok as [Hle _].
  apply (f_equal length) in Hr. unfold rest in Hr. rewrite length_drop, length_app in Hr.
  unfold saturating_sub. lia.
Qed.

Lemma parses_bind_last {E A B} (p : parser E A) (g : A -> B) bs a :
  parses p bs a -> parses (p ≫= fun x => mret (g x)) bs (g a).
Proof.
  intros Hp. rewrite <- (app_nil_r bs).
  eapply parses_bind; [done|]. apply parses_ret.
Qed.

Lemma parses_repeat {E A} (enc : A -> bytes) (p : nat -> parser E A) l i :
  (forall j a, a ∈ l -> parses (p j) (enc a) a) ->
  parses (p_repeat (length l) i p) (concat (map enc l)) l.
Proof.
  revert i. induction l as [|a l IH]; intros i H; simpl; [apply parses_ret|].
  eapply parses_bind; [apply H; by left|].
  rewrite <- (app_nil_r (concat _)).
  eapply parses_bind; [apply IH; intros; apply H; by right|]. apply parses_ret.
Qed.

(** A whole input: the reader returns the value and the decoder is finished. *)
Lemma parses_all {E A} (p : parser E A) bs a :
  (Z.of_nat (length bs) < U64)%Z -> parses p bs a ->
  p (decoder bs) = Ok (a, mk_decoder bs (length bs)).
Proof.
  intros Hl Hp. rewrite (Hp (decoder bs) []); [done|by apply dec_ok_decoder|].
  unfold rest, decoder; simpl. by rewrite drop_0, app_nil_r.
Qed.

(** Reading the last bytes of an input: nothing may follow. *)
Definition parses_end {E A} (p : parser E A) (bs : bytes) (a : A) : Prop :=
  forall d, dec_ok d -> rest d = bs -> p d = Ok (a, advance d (length bs)).

Lemma parses_end_of {E A} (p : parser E A) bs a : parses p bs a -> parses_end p bs a.
Proof. intros H d Hok Hr. apply (H d []); [done|]. by rewrite app_nil_r. Qed.

Lemma parses_end_bind {E A B} (p : parser E A) (f : A -> parser E B) b1 b2 a b :
  parses p b1 a -> parses_end (f a) b2 b -> parses_end (p ≫= f) (b1 ++ b2) b.
Proof.
  intros Hp Hf d Hok Hr. unfold mbind, parser_bind. rewrite (Hp d _ Hok Hr).
  rewrite (Hf _); [|by eapply dec_ok_advance|by apply rest_advance].
  by rewrite advance_advance, length_app.
Qed.

Lemma parses_end_bind_lift {E A B} (r : result E A) (f : A -> parser E B) bs a b :
  r = Ok a -> parses_end (f a) bs b -> parses_end (p_lift r ≫= f) bs b.
Proof. intros Hr Hf. apply (parses_end_bind _ _ [] bs a b); [by apply parses_lift|done]. Qed.

Lemma parses_end_guard {E A} (f : Z -> result E ()) (p : parser E A) bs a :
  f (Z.of_nat (length bs)) = Ok () -> parses_end p bs a ->
  parses_end (p_guard f ≫= fun _ => p) bs a.
Proof.
  intros Hf Hp d Hok Hr. unfold mbind, parser_bind, p_guard.
  assert (saturating_sub (Z.of_nat (length (d_bytes d))) (Z.of_nat (d_offset d)) =
    Z.of_nat (length bs)) as ->.
  { destruct Hok as [Hle _]. rewrite <- Hr. unfold rest, saturating_sub. rewrite length_drop. lia. }
  rewrite Hf. by apply Hp.
Qed.

Lemma parses_end_all {E A} (p : parser E A) bs a :
  (Z.of_nat (length bs) < U64)%Z -> parses_end p bs a ->
  p (decoder bs) = Ok (a, mk_decoder bs (length bs)).
Proof.
  intros Hl Hp. rewrite (Hp (decoder bs)); [done|by apply dec_ok_decoder|].
  unfold rest, decoder; simpl. by rewrite drop_0.
Qed.

Lemma finished_end bs : finished (mk_decoder bs (length bs)) = true.
Proof. unfold finished; simpl. by apply bool_decide_eq_true_2. Qed.

(** ** What a successful read consumed *)

Definition consumes (d : Decoder) (bs : bytes) (d' : Decoder) : Prop :=
  d' = advance d (length bs) /\ rest d = bs ++ rest d'.

Lemma consumes_nil d : consumes d [] d.
Proof. destruct d as [bs o]. unfold consumes, advance; simpl. by rewrite Nat.add_0_r. Qed.

Lemma consumes_trans d1 d2 d3 a b :
  consumes d1 a d2 -> consumes d2 b d3 -> consumes d1 (a ++ b) d3.
Proof.
  intros [-> Ha] [-> Hb]. split; [by rewrite advance_advance, length_app|].
  by rewrite Ha, Hb, app_assoc.
Qed.

Lemma p_bind_Ok {E A B} (p : parser E A) (f : A -> parser E B) d b d2 :
  (p ≫= f) d = Ok (b, d2) <-> exists a d1, p d = Ok (a, d1) /\ f a d1 = Ok (b, d2).
Proof.
  unfold mbind, parser_bind. destruct (p d) as [[a d1]|e]; split.
  - eauto.
  - intros (? & ? & ? & ?). by simplify_eq.
  - done.
  - intros (? & ? & ? & ?). by simplify_eq.
Qed.

Lemma p_ret_Ok {E A} (a b : A) d d' :
  (mret a : parser E A) d = Ok (b, d') <-> a = b /\ d = d'.
Proof. unfold mret, parser_ret. split; [by intros [= -> ->]|by intros [-> ->]]. Qed.

Lemma p_lift_Ok {E A} (r : result E A) a d d' :
  p_lift r d = Ok (a, d') <-> r = Ok a /\ d = d'.
Proof.
  unfold p_lift. destruct r; split; [by intros [= -> ->]|by intros [[= ->] ->]|done|].
  by intros [? _].
Qed.

Lemma p_guard_Ok {E} (f : Z -> result E ()) u d d' : p_guard f d = Ok (u, d') -> d = d'.
Proof. unfold p_guard. by intros [_ ?]%p_lift_Ok. Qed.

(** A successful guard held of the bytes that were left. *)
Lemma p_guard_inv {E} (f : Z -> result E ()) u d d' :
  dec_ok d -> p_guard f d = Ok (u, d') -> d = d' /\ f (Z.of_nat (length (rest d))) = Ok ().
Proof.
  unfold p_guard. intros [Hle _] [Hf ->]%p_lift_Ok. split; [done|]. destruct u. rewrite <- Hf.
  f_equal. unfold rest, saturating_sub. rewrite length_drop. lia.
Qed.

Lemma consumes_ok d bs d' : dec_ok d -> consumes d bs d' -> dec_ok d'.
Proof. intros Hok [-> Hr]. by eapply dec_ok_advance. Qed.

Lemma p_take_inv {E} (o t : E) n d x d' :
  (0 <= n)%Z -> p_take o t n d = Ok (x, d') ->
  Z.of_nat (length x) = n /\ consumes d x d'.
Proof.
  intros Hn. unfold p_take, checked_add.
  destruct (Z.ltb_spec (Z.of_nat (d_offset d) + n) U64); [|done].
  destruct (Z.leb_spec (Z.of_nat (d_offset d) + n) (Z.of_nat (length (d_bytes d)))); [|done].
  intros [= <- <-].
  assert (length (slice (Z.to_nat n) (d_offset d) (d_bytes d)) = Z.to_nat n) as Hlen
    by (apply length_slice; lia).
  split; [lia|]. split; unfold advance, rest; simpl.
  - by rewrite Hlen.
  - symmetry. apply slice_drop.
Qed.

Lemma p_field_inv {E} (o t : E) n d x d' :
  p_field o t n d = Ok (x, d') -> length x = n /\ consumes d x d'.
Proof. intros [? ?]%p_take_inv; [|lia]. split; [lia|done]. Qed.

Lemma p_uint_inv {E} (o t : E) n d v d' :
  p_uint o t n d = Ok (v, d') ->
  in_width (256 ^ Z.of_nat n) v /\ consumes d (be_bytes n v) d'.
Proof.
  intros (x & d1 & Hx & Hr)%p_bind_Ok. apply p_ret_Ok in Hr as [<- <-].
  apply p_field_inv in Hx as [Hl Hc]. split.
  - rewrite <- Hl. apply be_val_range.
  - by rewrite be_bytes_val.
Qed.

Lemma p_u8_inv {E} (o t : E) d v d' :
  p_uint o t 1 d = Ok (v, d') -> in_width U8 v /\ consumes d (be_bytes 1 v) d'.
Proof. apply p_uint_inv. Qed.
Lemma p_u16_inv {E} (o t : E) d v d' :
  p_uint o t 2 d = Ok (v, d') -> in_width U16 v /\ consumes d (be_bytes 2 v) d'.
Proof. apply p_uint_inv. Qed.
Lemma p_u32_inv {E} (o t : E) d v d' :
  p_uint o t 4 d = Ok (v, d') -> in_width U32 v /\ consumes d (be_bytes 4 v) d'.
Proof. apply p_uint_inv. Qed.
Lemma p_u64_inv {E} (o t : E) d v d' :
  p_uint o t 8 d = Ok (v, d') -> in_width U64 v /\ consumes d (be_bytes 8 v) d'.
Proof. apply p_uint_inv. Qed.
Lemma p_u128_inv {E} (o t : E) d v d' :
  p_uint o t 16 d = Ok (v, d') -> in_width U128 v /\ consumes d (be_bytes 16 v) d'.
Proof. apply p_uint_inv. Qed.

Lemma p_repeat_inv {E A} (enc : A -> bytes) (Q : A -> Prop) (p : nat -> parser E A) c i d l d' :
  (forall j d a d', p j d = Ok (a, d') -> Q a /\ consumes d (enc a) d') ->
  p_repeat c i p d = Ok (l, d') ->
  length l = c /\ Forall Q l /\ consumes d (concat (map enc l)) d'.
Proof.
  intros Hp. revert i d l d'. induction c as [|c IH]; intros i d l d'; simpl.
  { intros [<- <-]%p_ret_Ok. repeat split; [constructor|by destruct (consumes_nil d)..]. }
  intros (a & d1 & Ha & H)%p_bind_Ok. apply p_bind_Ok in H as (l' & d2 & Hl & H).
  apply p_ret_Ok in H as [<- <-]. apply Hp in Ha as [HQ Hc].
  apply IH in Hl as (Hlen & HF & Hc'). simpl. repeat split; [by rewrite Hlen|by constructor| |].
  all: by apply (consumes_trans _ _ _ _ _ Hc Hc').
Qed.

(** A decoder that consumed [x] and is finished has read its whole input. *)
Lemma consumes_finished bs x d :
  consumes (decoder bs) x d -> finished d = true -> bs = x.
Proof.
  intros [-> Hr] Hf%bool_decide_eq_true. unfold rest, advance in *; simpl in *.
  rewrite drop_0, Hf, drop_all, app_nil_r in Hr. done.
Qed.

Lemma consumes_length bs x d :
  consumes (decoder bs) x d -> length bs = (length x + length (rest d))%nat.
Proof.
  intros [_ H]. unfold rest, decoder in H; simpl in H. rewrite drop_0 in H.
  by rewrite H, length_app.
Qed.

(** [inv_parse] peels a successful decoding run into one fact per field:
    the field's width and the bytes it consumed. *)
Ltac inv_parse_step :=
  match goal with
  | H : (_ ≫= _) _ = Ok _ |- _ =>
      apply p_bind_Ok in H; let a := fresh "v" in let d := fresh "d" in
      let H' := fresh "H" in destruct H as (a & d & H' & H)
  | H : mret _ _ = Ok _ |- _ => apply p_ret_Ok in H as [? ?]
  | H : p_lift _ _ = Ok _ |- _ => apply p_lift_Ok in H as [? ?]
  | H : p_guard _ _ = Ok _ |- _ => apply p_guard_Ok in H
  | H : p_field _ _ _ _ = Ok _ |- _ => apply p_field_inv in H as [? ?]
  | W : in_width _ ?n, H : p_take _ _ ?n _ = Ok _ |- _ =>
      apply p_take_inv in H as [? ?]; [|exact (proj1 W)]
  | H : p_take _ _ _ _ = Ok _ |- _ => apply p_take_inv in H as [? ?]; [|done]
  | H : p_uint _ _ 1 _ = Ok _ |- _ => apply p_u8_inv in H as [? ?]
  | H : p_uint _ _ 2 _ = Ok _ |- _ => apply p_u16_inv in H as [? ?]
  | H : p_uint _ _ 4 _ = Ok _ |- _ => apply p_u32_inv in H as [? ?]
  | H : p_uint _ _ 8 _ = Ok _ |- _ => apply p_u64_inv in H as [? ?]
  | H : p_uint _ _ 16 _ = Ok _ |- _ => apply p_u128_inv in H as [? ?]
  end.
Ltac inv_parse := repeat inv_parse_step; subst.

(** [glue] joins consecutive [consumes] facts. *)
Ltac glue_step :=
  match goal with
  | H1 : consumes ?a _ ?b, H2 : consumes ?b _ ?c |- _ =>
      let H := fresh "C" in
      pose proof (consumes_trans _ _ _ _ _ H1 H2) as H; clear H1 H2
  end.
Ltac glue :=
  repeat glue_step;
  match goal with
  | C : consumes ?d _ ?d' |- consumes ?d _ ?d' =>
      rewrite <- ?app_assoc in C; rewrite <- ?app_assoc; exact C
  end.

(** [parse_fields] proves [parses] for a straight-line reader against the
    concatenation its encoder writes, field by field. *)
Create HintDb codec.
#[export] Hint Resolve parses_ret parses_field parses_take : codec.
#[export] Hint Resolve parses_u8 parses_u16 parses_u32 parses_u64 parses_u128 : codec.
#[export] Hint Resolve length_be_bytes : codec.

Ltac parse_step :=
  lazymatch goal with
  | |- parses (p_lift _ ≫= _) _ _ => eapply parses_bind_lift; [|lazy beta iota]
  | |- parses (_ ≫= _) (_ ++ _) _ => eapply parses_bind; [by auto with codec|lazy beta iota]
  | |- parses (_ ≫= _) _ _ => apply parses_bind_last; by auto with codec
  end.
Ltac parse_fields := repeat parse_step.

#[global] Arguments p_take : simpl never.
#[global] Arguments p_field : simpl never.
#[global] Arguments p_uint : simpl never.
#[global] Arguments finished : simpl never.
