(* ===== verification/Crypto.v ===== *)
(** * Interfaces of the cryptographic crates

    The repository calls two third-party crates for cryptography: [sha3] for
    Keccak-256 and [k256] for ECDSA over secp256k1.  Neither is part of the
    repository, so both are parameters of the model: the classes [Keccak] and
    [K256] list the operations the sources call, and [K256Laws] the documented
    behaviour of the signer that the sign-then-authenticate theorems rely on.

    [toy_keccak] and [toy_k256] are concrete instances: they show that the
    interfaces can be met and let the examples of the library compute. *)

From S2P Require Import Prelude.

(** ** [sha3::Keccak256]: [digest], and the same value when the input is
    given to [update] piece by piece. *)
Class Keccak : Type := {
  keccak256 : bytes -> bytes;
  keccak256_length : forall b, length (keccak256 b) = 32%nat
}.

(** Two concrete preimages that would have to collide. *)
Definition collides `{Keccak} (a b : bytes) : Prop :=
  a <> b /\ keccak256 a = keccak256 b.

(** ** [k256::ecdsa] *)
Class K256 : Type := {
  Signature : Type;
  VerifyingKey : Type;
  SigningKey : Type;
  RecoveryId : Type;
  (** one draw of operating-system entropy *)
  Entropy : Type;
  signature_from_slice : bytes -> option Signature;
  signature_to_bytes : Signature -> bytes;
  (** [Some] of the low-s form exactly when the signature is high-s *)
  normalize_s : Signature -> option Signature;
  recovery_from_byte : byte -> option RecoveryId;
  recovery_to_byte : RecoveryId -> byte;
  is_x_reduced : RecoveryId -> bool;
  recover_from_prehash : bytes -> Signature -> RecoveryId -> option VerifyingKey;
  (** [to_encoded_point(compress)] *)
  encoded_point : bool -> VerifyingKey -> bytes;
  from_sec1_bytes : bytes -> option VerifyingKey;
  verifying_key : SigningKey -> VerifyingKey;
  sign_prehash_recoverable : SigningKey -> bytes -> option (Signature * RecoveryId);
  sign_prehash_with_rng : SigningKey -> Entropy -> bytes -> option Signature;
  trial_recovery_from_prehash : VerifyingKey -> bytes -> Signature -> option RecoveryId
}.

(** Documented behaviour: fixed-width encodings, signing produces low-s
    signatures, and recovery inverts signing. *)
Class K256Laws (K : K256) : Prop := {
  signature_to_bytes_length : forall s, length (signature_to_bytes s) = 64%nat;
  signature_from_to : forall s, signature_from_slice (signature_to_bytes s) = Some s;
  recovery_from_to : forall i, recovery_from_byte (recovery_to_byte i) = Some i;
  (** an identifier without the x-overflow bit is a plain y parity *)
  not_x_reduced_parity : forall i,
    is_x_reduced i = false -> (byte_val (recovery_to_byte i) <= 1)%Z;
  sign_recoverable_low_s : forall k d s i,
    sign_prehash_recoverable k d = Some (s, i) -> normalize_s s = None;
  sign_recoverable_recovers : forall k d s i,
    sign_prehash_recoverable k d = Some (s, i) ->
    recover_from_prehash d s i = Some (verifying_key k);
  sign_rng_low_s : forall k r d s,
    sign_prehash_with_rng k r d = Some s -> normalize_s s = None;
  trial_recovery_recovers : forall v d s i,
    trial_recovery_from_prehash v d s = Some i -> recover_from_prehash d s i = Some v
}.

(** The hex crate: [hex::decode] and [hex::encode]. *)
Class Hex : Type := hex_decode : bytes -> option bytes.
Class HexEncode : Type := hex_encode : bytes -> bytes.

(** Encoding gives ASCII text that decodes to the same bytes. *)
Class HexLaws (D : Hex) (E : HexEncode) : Prop := {
  hex_roundtrip : forall b, hex_decode (hex_encode b) = Some b;
  hex_text : forall b, utf8_valid (hex_encode b) = true;
  (** only the digits [0-9a-f] *)
  hex_lower : forall b, Forall (fun x => byte_in 48 57 x || byte_in 97 102 x = true) (hex_encode b)
}.

(** ** Concrete instances *)

(** A polynomial hash modulo [2^32]. *)
Definition toy_digest (b : bytes) : bytes :=
  let h := be_bytes 4 (fold_left (fun acc x => (acc * 1003 + byte_val x + 1) mod U32)%Z b 7%Z) in
  h ++ h ++ h ++ h ++ h ++ h ++ h ++ h.

Lemma length_toy_digest b : length (toy_digest b) = 32%nat.
Proof. unfold toy_digest. cbv zeta. by rewrite !length_app, !length_be_bytes. Qed.

Definition toy_keccak : Keccak :=
  {| keccak256 := toy_digest; keccak256_length := length_toy_digest |}.

(** A toy signature carries the signer's 32-byte public key in its first
    half; signing is defined for 32-byte keys. *)
Definition toy_point (compress : bool) (v : bytes) : bytes :=
  if compress then x02 :: v else x04 :: v ++ v.

(** Signatures and keys of the toy backend are pairs of 32-byte strings. *)
Record b32 := mk_b32 { b32_bytes : bytes; b32_ok : Nat.eqb (length b32_bytes) 32 = true }.

Lemma b32_eq a b : b32_bytes a = b32_bytes b -> a = b.
Proof.
  destruct a as [a Ha], b as [b Hb]; simpl. intros ->. f_equal.
  apply Eqdep_dec.UIP_dec, Bool.bool_dec.
Qed.

Lemma b32_length a : length (b32_bytes a) = 32%nat.
Proof. apply Nat.eqb_eq, b32_ok. Qed.

Definition to_b32 (b : bytes) : option b32 :=
  match Bool.bool_dec (Nat.eqb (length b) 32) true with
  | left H => Some (mk_b32 b H)
  | right _ => None
  end.

Lemma to_b32_bytes a : to_b32 (b32_bytes a) = Some a.
Proof.
  unfold to_b32. destruct (Bool.bool_dec _ true) as [H|H].
  - f_equal. by apply b32_eq.
  - destruct a as [b Hb]; simpl in *. congruence.
Qed.

Definition toy_k256 : K256 := {|
  Signature := b32 * b32;
  VerifyingKey := b32;
  SigningKey := b32;
  RecoveryId := bool;
  Entropy := unit;
  signature_from_slice b :=
    match to_b32 (take 32 b), to_b32 (drop 32 b) with
    | Some r, Some s => Some (r, s)
    | _, _ => None
    end;
  signature_to_bytes s := b32_bytes s.1 ++ b32_bytes s.2;
  normalize_s s := None;
  recovery_from_byte b :=
    if (byte_val b =? 0)%Z then Some false
    else if (byte_val b =? 1)%Z then Some true else None;
  recovery_to_byte i := if i then x01 else x00;
  is_x_reduced i := false;
  recover_from_prehash d s i := Some s.1;
  encoded_point c v := toy_point c (b32_bytes v);
  from_sec1_bytes b := to_b32 (drop 1 b);
  verifying_key k := k;
  sign_prehash_recoverable k d := Some ((k, k), false);
  sign_prehash_with_rng k r d := Some (k, k);
  trial_recovery_from_prehash v d s := if decide (b32_bytes s.1 = b32_bytes v) then Some false else None
|}.

Lemma toy_k256_laws : K256Laws toy_k256.
Proof.
  constructor; simpl.
  - intros s. rewrite length_app, !b32_length. done.
  - intros [r s]; simpl. pose proof (b32_length r) as Hr.
    rewrite take_app_length', drop_app_length', !to_b32_bytes by done. done.
  - by intros [].
  - by intros [] _.
  - done.
  - by intros k d s i [= <- <-].
  - done.
  - intros v d s i. case_decide as H; [|done]. intros _. f_equal. by apply b32_eq.
Qed.

(** Lower-case hexadecimal digits; both cases are read. *)
Definition toy_hex_digit (n : Z) : byte := byte_of (if (n <? 10)%Z then 48 + n else 87 + n)%Z.
Definition toy_hex_value (b : byte) : option Z :=
  let v := byte_val b in
  if ((48 <=? v) && (v <=? 57))%Z then Some (v - 48)%Z
  else if ((97 <=? v) && (v <=? 102))%Z then Some (v - 87)%Z
  else if ((65 <=? v) && (v <=? 70))%Z then Some (v - 55)%Z
  else None.

Definition toy_hex_encode : HexEncode := fix go b :=
  match b with
  | [] => []
  | x :: r => toy_hex_digit (byte_val x / 16) :: toy_hex_digit (byte_val x mod 16) :: go r
  end.
Definition toy_hex_decode : Hex := fix go b :=
  match b with
  | [] => Some []
  | x :: y :: r =>
      h ← toy_hex_value x; l ← toy_hex_value y; t ← go r; Some (byte_of (16 * h + l) :: t)
  | _ => None
  end.

Lemma hex_digit_ascii x :
  byte_in 0 127 (toy_hex_digit (byte_val x / 16)) = true /\ byte_in 0 127 (toy_hex_digit (byte_val x mod 16)) = true /\
  toy_hex_value (toy_hex_digit (byte_val x / 16)) = Some (byte_val x / 16)%Z /\
  toy_hex_value (toy_hex_digit (byte_val x mod 16)) = Some (byte_val x mod 16)%Z.
Proof. destruct x; split_and!; vm_compute; reflexivity. Qed.

Lemma toy_hex_laws : HexLaws toy_hex_decode toy_hex_encode.
Proof.
  constructor.
  - induction b as [|x r IH]; [done|]. destruct (hex_digit_ascii x) as (_ & _ & E1 & E2).
    unfold hex_decode, hex_encode in *. cbn [toy_hex_encode toy_hex_decode] in *.
    rewrite E1, E2. simpl. rewrite IH. simpl. f_equal. f_equal.
    rewrite <- Z.div_mod by done. apply byte_of_val.
  - induction b as [|x r IH]; [done|]. destruct (hex_digit_ascii x) as (E1 & E2 & _).
    unfold hex_encode in *. cbn [toy_hex_encode]. unfold utf8_valid in *.
    cbn [length utf8_valid_fuel]. by rewrite E1, E2.
  - induction b as [|x r IH]; [constructor|]. unfold hex_encode in *. cbn [toy_hex_encode].
    constructor; [by destruct x|]. constructor; [by destruct x|done].
Qed.
