(* ===== verification/BlockCommitment.v ===== *)
(** * Block commitments (src/src/block_commitment.rs)

    The pure commitment primitives shared by the historical node and the
    isolated profiles: domain-separated hashing, the ordered transaction
    root, the 229-byte block header and the encoding-1 protocol data.

    The theorems show that both codecs are bijections between the values of
    the right widths and the byte strings their decoders accept, and that
    equal header hashes, proposer commitments or transaction roots force
    equal committed values unless two explicit preimages collide under
    Keccak-256. *)

From S2P Require Import Prelude Codec Crypto.

Definition BLOCK_HEADER_LEN : nat := 229.
Definition BLOCK_HEADER_DOMAIN : bytes := str "ETERNIX_BLOCK_HEADER_V1".
Definition TX_LIST_DOMAIN : bytes := str "ETERNIX_TX_LIST_V1".
Definition PROTOCOL_DATA_DOMAIN : bytes := str "ETERNIX_PROTOCOL_DATA_V1".
Definition RECEIPT_LIST_DOMAIN : bytes := str "ETERNIX_RECEIPT_LIST_V1".
Definition PROPOSER_ID_DOMAIN : bytes := str "ETERNIX_PROPOSER_ID_V1".
Definition PLACEHOLDER_STATE_ROOT : bytes := zeros 32.

(** ** Block kinds *)

Inductive BlockKind : Type :=
| Validator
| ProtocolMiss
| ProtocolCollision
| ProtocolNoTickets.

#[export] Instance BlockKind_eq_dec : EqDecision BlockKind.
Proof. solve_decision. Defined.

Definition BlockKind_consensus_code (k : BlockKind) : Z :=
  match k with
  | Validator => 0
  | ProtocolMiss => 1
  | ProtocolNoTickets => 2
  | ProtocolCollision => 3
  end.

Definition BlockKind_from_consensus_code (code : Z) : option BlockKind :=
  match code with
  | 0%Z => Some Validator
  | 1%Z => Some ProtocolMiss
  | 2%Z => Some ProtocolNoTickets
  | 3%Z => Some ProtocolCollision
  | _ => None
  end.

(** ** Headers and protocol data *)

Record BlockHeader : Type := mk_header {
  protocol_version : Z;
  chain_id : Z;
  slot : Z;
  block_kind : BlockKind;
  parent_hash : bytes;
  proposer_id_field : bytes;
  ticket_id : Z;
  transaction_root : bytes;
  state_root : bytes;
  receipts_root : bytes;
  gas_used : Z;
  protocol_data_root : bytes
}.

#[export] Instance BlockHeader_eq_dec : EqDecision BlockHeader.
Proof. solve_decision. Defined.

(** The field widths of the Rust struct. *)
Definition wf_header (h : BlockHeader) : Prop :=
  in_width U32 (protocol_version h) /\ in_width U64 (chain_id h) /\
  in_width U64 (slot h) /\ length (parent_hash h) = 32%nat /\
  length (proposer_id_field h) = 32%nat /\ in_width U64 (ticket_id h) /\
  length (transaction_root h) = 32%nat /\ length (state_root h) = 32%nat /\
  length (receipts_root h) = 32%nat /\ in_width U64 (gas_used h) /\
  length (protocol_data_root h) = 32%nat.

Definition BlockHeader_canonical_bytes (h : BlockHeader) : bytes :=
  be_bytes 4 (protocol_version h) ++ be_bytes 8 (chain_id h) ++
  be_bytes 8 (slot h) ++ be_bytes 1 (BlockKind_consensus_code (block_kind h)) ++
  parent_hash h ++ proposer_id_field h ++ be_bytes 8 (ticket_id h) ++
  transaction_root h ++ state_root h ++ receipts_root h ++
  be_bytes 8 (gas_used h) ++ protocol_data_root h.

(** The [Option]-returning decoder of this file: every failure is [None]. *)
Abbreviation rd_field := (p_field tt tt).
Abbreviation rd_uint := (p_uint tt tt).
Abbreviation rd_take := (p_take tt tt).

Definition header_fields : parser () BlockHeader :=
  protocol_version ← rd_uint 4;
  chain_id ← rd_uint 8;
  slot ← rd_uint 8;
  code ← rd_uint 1;
  block_kind ← p_lift (ok_or (BlockKind_from_consensus_code code) ());
  parent_hash ← rd_field 32;
  proposer_id ← rd_field 32;
  ticket_id ← rd_uint 8;
  transaction_root ← rd_field 32;
  state_root ← rd_field 32;
  receipts_root ← rd_field 32;
  gas_used ← rd_uint 8;
  protocol_data_root ← rd_field 32;
  mret (mk_header protocol_version chain_id slot block_kind parent_hash proposer_id
          ticket_id transaction_root state_root receipts_root gas_used protocol_data_root).

Definition BlockHeader_from_canonical_bytes (bs : bytes) : option BlockHeader :=
  if negb (length bs =? BLOCK_HEADER_LEN)%nat then None else
  match header_fields (decoder bs) with
  | Ok (h, d) => if finished d then Some h else None
  | Err _ => None
  end.

Record ProtocolData : Type := mk_protocol_data {
  missed_proposer : option bytes;
  fees_burned : Z
}.

#[export] Instance ProtocolData_eq_dec : EqDecision ProtocolData.
Proof. solve_decision. Defined.

(** A [String] holds valid UTF-8; the encoder panics on four gibibytes. *)
Definition wf_protocol_data (p : ProtocolData) : Prop :=
  in_width U64 (fees_burned p) /\
  match missed_proposer p with
  | Some s => (Z.of_nat (length s) < U32)%Z /\ utf8_valid s = true
  | None => True
  end.

Definition ProtocolData_empty : ProtocolData := mk_protocol_data None 0.

Definition ProtocolData_canonical_bytes (p : ProtocolData) : bytes :=
  be_bytes 1 1 ++ be_bytes 8 (fees_burned p) ++
  match missed_proposer p with
  | Some s => be_bytes 1 1 ++ be_bytes 4 (Z.of_nat (length s)) ++ s
  | None => be_bytes 1 0
  end.

Definition protocol_data_fields : parser () ProtocolData :=
  version ← rd_uint 1;
  p_lift (fail_if (version !=? 1)%Z ());;
  fees ← rd_uint 8;
  flag ← rd_uint 1;
  match flag with
  | 0%Z => mret (mk_protocol_data None fees)
  | 1%Z =>
      len ← rd_uint 4;
      s ← rd_take len;
      p_lift (fail_if (negb (utf8_valid s)) ());;
      mret (mk_protocol_data (Some s) fees)
  | _ => p_lift (Err ())
  end.

Definition ProtocolData_from_canonical_bytes (bs : bytes) : option ProtocolData :=
  match protocol_data_fields (decoder bs) with
  | Ok (p, d) => if finished d then Some p else None
  | Err _ => None
  end.

(** ** Commitments *)

Section Commitments.
  Context `{Keccak}.

(** [update] twice and [finalize]. *)
Definition hash_with_domain (domain bs : bytes) : bytes := keccak256 (domain ++ bs).

(** [u64::try_from(ids.len())] cannot fail for a list in memory. *)
Definition ordered_transaction_root (ids : list bytes) : option bytes :=
  if (Z.of_nat (length ids) <? U64)%Z
  then Some (keccak256 (TX_LIST_DOMAIN ++ be_bytes 8 (Z.of_nat (length ids)) ++ concat ids))
  else None.

Definition proposer_id (id : bytes) : bytes :=
  hash_with_domain PROPOSER_ID_DOMAIN (be_bytes 8 (Z.of_nat (length id)) ++ id).

Definition BlockHeader_hash (h : BlockHeader) : bytes :=
  hash_with_domain BLOCK_HEADER_DOMAIN (BlockHeader_canonical_bytes h).

Definition ProtocolData_root (p : ProtocolData) : bytes :=
  hash_with_domain PROTOCOL_DATA_DOMAIN (ProtocolData_canonical_bytes p).

Definition EMPTY_TX_ROOT : bytes := keccak256 (TX_LIST_DOMAIN ++ be_bytes 8 0).
Definition EMPTY_RECEIPTS_ROOT : bytes := keccak256 (RECEIPT_LIST_DOMAIN ++ be_bytes 8 0).
Definition EMPTY_PROTOCOL_DATA_ROOT : bytes :=
  hash_with_domain PROTOCOL_DATA_DOMAIN (ProtocolData_canonical_bytes ProtocolData_empty).
End Commitments.

(** ** Block kind tags *)

Lemma kind_code_width k : in_width U8 (BlockKind_consensus_code k).
Proof. unfold in_width. destruct k; simpl; lia. Qed.

Lemma kind_from_code k : BlockKind_from_consensus_code (BlockKind_consensus_code k) = Some k.
Proof. by destruct k. Qed.

Lemma kind_code_from c k :
  BlockKind_from_consensus_code c = Some k -> BlockKind_consensus_code k = c.
Proof.
  unfold BlockKind_from_consensus_code. intros H.
  repeat case_match; simplify_eq; done.
Qed.
#[export] Hint Resolve kind_code_width : codec.

(** ** Header codec *)

Lemma length_header_bytes h : wf_header h -> length (BlockHeader_canonical_bytes h) = 229%nat.
Proof.
  unfold wf_header, BlockHeader_canonical_bytes. intros. destruct_and!.
  rewrite !length_app, !length_be_bytes. lia.
Qed.

Lemma header_fields_parses h :
  wf_header h -> parses header_fields (BlockHeader_canonical_bytes h) h.
Proof.
  unfold wf_header, header_fields, BlockHeader_canonical_bytes. intros. destruct_and!.
  parse_fields. { by rewrite kind_from_code. }
  destruct h. parse_fields.
Qed.

Lemma header_fields_consumes d h d' :
  header_fields d = Ok (h, d') ->
  wf_header h /\ consumes d (BlockHeader_canonical_bytes h) d'.
Proof.
  unfold header_fields. intros Hrun. inv_parse.
  match goal with H : ok_or _ _ = Ok _ |- _ =>
    apply ok_or_Ok, kind_code_from in H; subst end.
  unfold wf_header, BlockHeader_canonical_bytes; simpl.
  split; [by split_and!|]. glue.
Qed.

Lemma header_codec_iff bs h :
  BlockHeader_from_canonical_bytes bs = Some h <->
  wf_header h /\ BlockHeader_canonical_bytes h = bs.
Proof.
  unfold BlockHeader_from_canonical_bytes. split.
  - case_match; [done|]. destruct (header_fields _) as [[h' d]|] eqn:Hrun; [|done].
    destruct (finished d) eqn:Hf; [|done]. intros [= ->].
    apply header_fields_consumes in Hrun as [? Hc]. split; [done|].
    symmetry. by eapply consumes_finished.
  - intros [Hwf <-]. pose proof (length_header_bytes h Hwf) as Hl. rewrite Hl, Nat.eqb_refl.
    cbv beta iota delta [negb]. rewrite (parses_all _ _ h); [|rewrite Hl; lia|by apply header_fields_parses].
    by rewrite finished_end.
Qed.

Lemma header_bytes_inj h1 h2 :
  wf_header h1 -> wf_header h2 ->
  BlockHeader_canonical_bytes h1 = BlockHeader_canonical_bytes h2 -> h1 = h2.
Proof.
  intros H1 H2 E. apply (inj Some).
  rewrite <- (proj2 (header_codec_iff _ h1) (conj H1 eq_refl)), E.
  by apply header_codec_iff.
Qed.

(** ** Protocol data codec *)

Lemma protocol_data_parses p :
  wf_protocol_data p -> parses protocol_data_fields (ProtocolData_canonical_bytes p) p.
Proof.
  assert (in_width U8 0 /\ in_width U8 1) as [? ?] by (unfold in_width; lia).
  unfold wf_protocol_data, protocol_data_fields, ProtocolData_canonical_bytes.
  destruct p as [[s|] fees]; simpl; intros; destruct_and!.
  - assert (in_width U32 (Z.of_nat (length s))) by (unfold in_width; lia).
    parse_step. parse_step; [done|]. do 3 parse_step.
    rewrite <- (app_nil_r s) at 2. eapply parses_bind; [by apply parses_take|].
    parse_step; [|apply parses_ret]. apply fail_if_false. by rewrite negb_false_iff.
  - parse_step. parse_step; [done|]. parse_step.
    rewrite <- (app_nil_r (be_bytes 1 0)). parse_step. apply parses_ret.
Qed.

Lemma protocol_data_consumes d p d' :
  protocol_data_fields d = Ok (p, d') ->
  wf_protocol_data p /\ consumes d (ProtocolData_canonical_bytes p) d'.
Proof.
  unfold protocol_data_fields. intros Hrun. inv_parse. inv_ok. subst.
  unfold wf_protocol_data, ProtocolData_canonical_bytes.
  match type of Hrun with (match ?flag with _ => _ end) _ = _ =>
    destruct flag as [|[]|] end; inv_parse; try done; simpl.
  - split; [done|]. glue.
  - inv_ok. split; [unfold in_width in *; split_and!; done || lia|]. glue.
Qed.

Lemma protocol_data_codec_iff bs p :
  (Z.of_nat (length bs) < U64)%Z ->
  ProtocolData_from_canonical_bytes bs = Some p <->
  wf_protocol_data p /\ ProtocolData_canonical_bytes p = bs.
Proof.
  intros Hlen. unfold ProtocolData_from_canonical_bytes. split.
  - destruct (protocol_data_fields _) as [[p' d]|] eqn:Hrun; [|done].
    destruct (finished d) eqn:Hf; [|done]. intros [= ->].
    apply protocol_data_consumes in Hrun as [? Hc]. split; [done|].
    symmetry. by eapply consumes_finished.
  - intros [Hwf <-].
    rewrite (parses_all _ _ p); [|done|by apply protocol_data_parses].
    by rewrite finished_end.
Qed.

Lemma protocol_data_bytes_inj p1 p2 :
  wf_protocol_data p1 -> wf_protocol_data p2 ->
  ProtocolData_canonical_bytes p1 = ProtocolData_canonical_bytes p2 -> p1 = p2.
Proof.
  intros H1 H2 E. apply (inj Some).
  assert (Z.of_nat (length (ProtocolData_canonical_bytes p1)) < U64)%Z.
  { unfold ProtocolData_canonical_bytes, wf_protocol_data in *.
    destruct (missed_proposer p1); rewrite !length_app, !length_be_bytes; lia. }
  rewrite <- (proj2 (protocol_data_codec_iff _ p1 H) (conj H1 eq_refl)), E.
  apply protocol_data_codec_iff; [by rewrite <- E|done].
Qed.

(** The fixed ten-byte form without a missed proposer. *)
Lemma length_protocol_data_none fees :
  length (ProtocolData_canonical_bytes (mk_protocol_data None fees)) = 10%nat.
Proof. unfold ProtocolData_canonical_bytes; simpl. by rewrite !length_app, !length_be_bytes. Qed.

(** A decoded ten-byte string has no missed proposer: the shortest form
    with one would need fourteen bytes. *)
Lemma protocol_data_ten bs p :
  length bs = 10%nat -> ProtocolData_from_canonical_bytes bs = Some p ->
  missed_proposer p = None.
Proof.
  intros Hl Hp. apply protocol_data_codec_iff in Hp as [_ <-]; [|lia].
  unfold ProtocolData_canonical_bytes in Hl. destruct (missed_proposer p); [|done].
  rewrite !length_app, !length_be_bytes in Hl. lia.
Qed.

(** ** What the commitments bind *)

Lemma concat_fixed_inj n (l k : list bytes) :
  Forall (fun b => length b = S n) l -> Forall (fun b => length b = S n) k ->
  concat l = concat k -> l = k.
Proof.
  intros Hl. revert k. induction Hl as [|x l Hx Hl IH]; intros k Hk E.
  { destruct Hk as [|y k Hy]; [done|]. simpl in E. by destruct y. }
  destruct Hk as [|y k Hy Hk]; simpl in E; [by destruct x|].
  apply app_inj_1 in E as [-> E]; [|by rewrite Hx, Hy]. f_equal. by apply IH.
Qed.

Section Binding.
  Context {KH : Keccak}.

Lemma hash_with_domain_inj dom a b :
  hash_with_domain dom a = hash_with_domain dom b ->
  a = b \/ collides (dom ++ a) (dom ++ b).
Proof.
  intros E. destruct (decide (a = b)) as [|Hne]; [by left|]. right.
  split; [|done]. intros ?%app_inv_head. congruence.
Qed.

Lemma transaction_root_inj ids1 ids2 r :
  Forall (fun b => length b = 32%nat) ids1 -> Forall (fun b => length b = 32%nat) ids2 ->
  ordered_transaction_root ids1 = Some r -> ordered_transaction_root ids2 = Some r ->
  ids1 = ids2 \/
  collides (TX_LIST_DOMAIN ++ be_bytes 8 (Z.of_nat (length ids1)) ++ concat ids1)
           (TX_LIST_DOMAIN ++ be_bytes 8 (Z.of_nat (length ids2)) ++ concat ids2).
Proof.
  unfold ordered_transaction_root. intros H1 H2 E1 E2.
  destruct (Z.ltb_spec (Z.of_nat (length ids1)) U64); [|done].
  destruct (Z.ltb_spec (Z.of_nat (length ids2)) U64); [|done].
  simplify_eq. destruct (decide (ids1 = ids2)) as [|Hne]; [by left|]. right.
  split; [|done]. intros E. apply Hne.
  apply app_inj_1 in E as [_ E]; [|done].
  apply app_inj_1 in E as [_ E]; [|by rewrite !length_be_bytes].
  by apply (concat_fixed_inj 31).
Qed.

Lemma header_hash_length h : length (BlockHeader_hash h) = 32%nat.
Proof. apply keccak256_length. Qed.

Lemma empty_root : ordered_transaction_root [] = Some EMPTY_TX_ROOT.
Proof. done. Qed.
End Binding.

(** ** Properties *)

(** The header codec is a bijection between headers of the struct's
    widths and the 229-byte strings the decoder accepts: decoding inverts
    encoding and every accepted string is re-encoded unchanged. *)
Theorem header_codec bs h :
  BlockHeader_from_canonical_bytes bs = Some h <->
  wf_header h /\ BlockHeader_canonical_bytes h = bs.
Proof. apply header_codec_iff. Qed.

(** The protocol-data codec is a bijection onto the accepted byte
    strings, missed-proposer text (valid UTF-8 below four gibibytes)
    included; in particular no second encoding of a value is accepted. *)
Theorem protocol_data_codec bs p :
  (Z.of_nat (length bs) < U64)%Z ->
  ProtocolData_from_canonical_bytes bs = Some p <->
  wf_protocol_data p /\ ProtocolData_canonical_bytes p = bs.
Proof. apply protocol_data_codec_iff. Qed.

Section CommitmentProperties.
  Context {KH : Keccak}.

(** A block hash commits to the whole header and, through its roots, to
    the protocol data and the ordered transaction ids: equal block hashes
    give equal headers, equal protocol data and equal id lists, unless one of
    three explicit pairs of preimages collides under Keccak-256. *)
Theorem block_hash_binds h1 h2 p1 p2 ids1 ids2 :
  wf_header h1 -> wf_header h2 -> wf_protocol_data p1 -> wf_protocol_data p2 ->
  Forall (fun b => length b = 32%nat) ids1 -> Forall (fun b => length b = 32%nat) ids2 ->
  protocol_data_root h1 = ProtocolData_root p1 ->
  protocol_data_root h2 = ProtocolData_root p2 ->
  ordered_transaction_root ids1 = Some (transaction_root h1) ->
  ordered_transaction_root ids2 = Some (transaction_root h2) ->
  BlockHeader_hash h1 = BlockHeader_hash h2 ->
  (h1 = h2 /\ p1 = p2 /\ ids1 = ids2) \/
  collides (BLOCK_HEADER_DOMAIN ++ BlockHeader_canonical_bytes h1)
           (BLOCK_HEADER_DOMAIN ++ BlockHeader_canonical_bytes h2) \/
  collides (PROTOCOL_DATA_DOMAIN ++ ProtocolData_canonical_bytes p1)
           (PROTOCOL_DATA_DOMAIN ++ ProtocolData_canonical_bytes p2) \/
  collides (TX_LIST_DOMAIN ++ be_bytes 8 (Z.of_nat (length ids1)) ++ concat ids1)
           (TX_LIST_DOMAIN ++ be_bytes 8 (Z.of_nat (length ids2)) ++ concat ids2).
Proof.
  intros Hh1 Hh2 Hp1 Hp2 Hi1 Hi2 Hd1 Hd2 Hr1 Hr2 Hash.
  apply hash_with_domain_inj in Hash as [Heq|]; [|by right; left].
  apply header_bytes_inj in Heq as <-; [|done..].
  assert (ProtocolData_root p1 = ProtocolData_root p2) as Hroot by congruence.
  apply hash_with_domain_inj in Hroot as [Heq|]; [|by do 2 right; left].
  apply protocol_data_bytes_inj in Heq as <-; [|done..].
  destruct (transaction_root_inj _ _ _ Hi1 Hi2 Hr1 Hr2) as [<-|]; [by left|by do 3 right].
Qed.
End CommitmentProperties.

#[export] Instance wf_header_dec h : Decision (wf_header h).
Proof. unfold wf_header. apply _. Defined.

Definition toy_header : BlockHeader :=
  mk_header 2 9 4 Validator (zeros 32) (zeros 32) 1
    (@EMPTY_TX_ROOT toy_keccak) (zeros 32) (zeros 32) 0 (@EMPTY_PROTOCOL_DATA_ROOT toy_keccak).

Lemma protocol_data_codec_witness :
  let p := mk_protocol_data (Some (str "node")) 7 in
  ProtocolData_from_canonical_bytes (ProtocolData_canonical_bytes p) = Some p.
Proof.
  apply (protocol_data_codec (ProtocolData_canonical_bytes
    (mk_protocol_data (Some (str "node")) 7))).
  - vm_compute. reflexivity.
  - split; [|reflexivity]. split; [by_computation|]. split; [|]; vm_compute; reflexivity.
Defined.

Lemma block_hash_binds_witness :
  (toy_header = toy_header /\ ProtocolData_empty = ProtocolData_empty /\ @nil bytes = []) \/
  @collides toy_keccak (BLOCK_HEADER_DOMAIN ++ BlockHeader_canonical_bytes toy_header)
           (BLOCK_HEADER_DOMAIN ++ BlockHeader_canonical_bytes toy_header) \/
  @collides toy_keccak (PROTOCOL_DATA_DOMAIN ++ ProtocolData_canonical_bytes ProtocolData_empty)
           (PROTOCOL_DATA_DOMAIN ++ ProtocolData_canonical_bytes ProtocolData_empty) \/
  @collides toy_keccak (TX_LIST_DOMAIN ++ be_bytes 8 (Z.of_nat 0) ++ [])
           (TX_LIST_DOMAIN ++ be_bytes 8 (Z.of_nat 0) ++ []).
Proof.
  apply (@block_hash_binds toy_keccak toy_header toy_header ProtocolData_empty ProtocolData_empty
    [] []); try reflexivity; try constructor; by_computation.
Defined.
