(* ===== verification/NativeTransaction.v ===== *)
(** * Native V2 transactions (src/src/native_transaction.rs)

    The fixed-width 134-byte unsigned payload, the 65-byte compact signature,
    the 199-byte signed object, its two Keccak identities and the stateless
    authentication and signing entry points.

    The theorems show that the signed codec is a bijection (so a transaction
    has exactly one byte form), that [authenticate] accepts exactly the byte
    strings satisfying the rules-1 profile whose recovered key hashes to the
    signed sender, and that whatever [sign] returns authenticates under the
    same context. *)

From S2P Require Import Prelude Codec Crypto.

(** ** Constants *)

Definition ENCODING_VERSION : Z := 2.
Definition NATIVE_RULES_VERSION : Z := 1.
Definition TRANSFER_KIND : Z := 0.
Definition ETX_TOKEN_ID : Z := 0.
Definition INTRINSIC_GAS : Z := 1000.
Definition GAS_PRICE_QUARKS : Z := 10.
Definition TRANSFER_FEE_QUARKS : Z := 10000.
Definition UNSIGNED_LEN : nat := 134.
Definition SIGNATURE_LEN : nat := 65.
Definition SIGNED_LEN : nat := UNSIGNED_LEN + SIGNATURE_LEN.
(** [b"\x19ETERNIX\x00NATIVE_TX_SIGN\x00"] and [b"\x19ETERNIX\x00NATIVE_TX_ID\x00"] *)
Definition TX_SIGNING_DOMAIN : bytes :=
  [x19] ++ str "ETERNIX" ++ [x00] ++ str "NATIVE_TX_SIGN" ++ [x00].
Definition ID_DOMAIN : bytes :=
  [x19] ++ str "ETERNIX" ++ [x00] ++ str "NATIVE_TX_ID" ++ [x00].
Definition TX_SIGNING_PREIMAGE_LEN : nat := length TX_SIGNING_DOMAIN + UNSIGNED_LEN.

Module NativeError.
Inductive native_error : Type :=
| InvalidLength (expected actual : Z)
| UnsupportedEncoding (v : Z)
| UnsupportedKind (k : Z)
| UnsupportedRules (v : Z)
| RulesMismatch
| ChainMismatch
| NetworkMismatch
| GasBelowIntrinsic (g : Z)
| NonceExhausted
| UnsupportedToken (t : Z)
| InvalidParity (p : Z)
| InvalidScalar
| HighS
| RecoveryFailed
| SenderMismatch
| ClaimedIdMismatch
| SigningFailed.
End NativeError.
Abbreviation native_error := NativeError.native_error.

#[export] Instance native_error_eq_dec : EqDecision native_error.
Proof. solve_decision. Defined.

(** ** Context and payload *)

Record AuthenticationContext : Type := mk_context {
  ctx_chain_id : Z;
  ctx_network_id : bytes;
  ctx_native_rules_version : Z
}.

#[export] Instance AuthenticationContext_eq_dec : EqDecision AuthenticationContext.
Proof. solve_decision. Defined.

Definition AuthenticationContext_new (chain_id : Z) (network_id : bytes) (rules : Z) :
    result native_error AuthenticationContext :=
  fail_if (rules !=? NATIVE_RULES_VERSION) (NativeError.UnsupportedRules rules);;
  Ok (mk_context chain_id network_id rules).

Record UnsignedTransaction : Type := mk_unsigned {
  encoding_version : Z;
  native_rules_version : Z;
  tx_chain_id : Z;
  network_id : bytes;
  kind : Z;
  sender : bytes;
  nonce : Z;
  recipient : bytes;
  token_id : Z;
  value : Z;
  gas_limit : Z;
  valid_after_slot : Z
}.

#[export] Instance UnsignedTransaction_eq_dec : EqDecision UnsignedTransaction.
Proof. solve_decision. Defined.

(** The field widths of the Rust struct. *)
Definition wf_unsigned (t : UnsignedTransaction) : Prop :=
  in_width U8 (encoding_version t) /\ in_width U32 (native_rules_version t) /\
  in_width U64 (tx_chain_id t) /\ length (network_id t) = 32%nat /\
  in_width U8 (kind t) /\ length (sender t) = 20%nat /\ in_width U64 (nonce t) /\
  length (recipient t) = 20%nat /\ in_width U64 (token_id t) /\
  in_width U128 (value t) /\ in_width U64 (gas_limit t) /\
  in_width U64 (valid_after_slot t).

Definition validate_layout (t : UnsignedTransaction) : result native_error () :=
  fail_if (encoding_version t !=? ENCODING_VERSION)
    (NativeError.UnsupportedEncoding (encoding_version t));;
  fail_if (kind t !=? TRANSFER_KIND) (NativeError.UnsupportedKind (kind t)).

Definition validate_profile (t : UnsignedTransaction) (c : AuthenticationContext) :
    result native_error () :=
  validate_layout t;;
  fail_if (native_rules_version t !=? ctx_native_rules_version c) NativeError.RulesMismatch;;
  fail_if (tx_chain_id t !=? ctx_chain_id c) NativeError.ChainMismatch;;
  fail_if (network_id t !=? ctx_network_id c) NativeError.NetworkMismatch;;
  fail_if (gas_limit t <? INTRINSIC_GAS)%Z (NativeError.GasBelowIntrinsic (gas_limit t));;
  fail_if (nonce t ==? U64 - 1)%Z NativeError.NonceExhausted;;
  fail_if (token_id t !=? ETX_TOKEN_ID) (NativeError.UnsupportedToken (token_id t)).

Definition require_length (bs : bytes) (expected : nat) : result native_error () :=
  fail_if (length bs !=? expected)
    (NativeError.InvalidLength (Z.of_nat expected) (Z.of_nat (length bs))).

(** The fixed buffer is filled slice by slice. *)
Definition unsigned_canonical_bytes (t : UnsignedTransaction) : result native_error bytes :=
  validate_layout t;;
  let bs := zeros UNSIGNED_LEN in
  let bs := copy_at 0 (be_bytes 1 (encoding_version t)) bs in
  let bs := copy_at 1 (be_bytes 4 (native_rules_version t)) bs in
  let bs := copy_at 5 (be_bytes 8 (tx_chain_id t)) bs in
  let bs := copy_at 13 (network_id t) bs in
  let bs := copy_at 45 (be_bytes 1 (kind t)) bs in
  let bs := copy_at 46 (sender t) bs in
  let bs := copy_at 66 (be_bytes 8 (nonce t)) bs in
  let bs := copy_at 74 (recipient t) bs in
  let bs := copy_at 94 (be_bytes 8 (token_id t)) bs in
  let bs := copy_at 102 (be_bytes 16 (value t)) bs in
  let bs := copy_at 118 (be_bytes 8 (gas_limit t)) bs in
  let bs := copy_at 126 (be_bytes 8 (valid_after_slot t)) bs in
  Ok bs.

Definition unsigned_from_canonical_bytes (bs : bytes) :
    result native_error UnsignedTransaction :=
  require_length bs UNSIGNED_LEN;;
  let t := {|
    encoding_version := be_val (slice 1 0 bs);
    native_rules_version := be_val (slice 4 1 bs);
    tx_chain_id := be_val (slice 8 5 bs);
    network_id := slice 32 13 bs;
    kind := be_val (slice 1 45 bs);
    sender := slice 20 46 bs;
    nonce := be_val (slice 8 66 bs);
    recipient := slice 20 74 bs;
    token_id := be_val (slice 8 94 bs);
    value := be_val (slice 16 102 bs);
    gas_limit := be_val (slice 8 118 bs);
    valid_after_slot := be_val (slice 8 126 bs)
  |} in
  validate_layout t;;
  Ok t.

Definition signing_preimage (t : UnsignedTransaction) : result native_error bytes :=
  u ← unsigned_canonical_bytes t;
  Ok (copy_at (length TX_SIGNING_DOMAIN) u
       (copy_at 0 TX_SIGNING_DOMAIN (zeros TX_SIGNING_PREIMAGE_LEN))).

(** ** Signatures, signed objects, proofs *)

Record NativeSignature : Type := mk_native_signature { native_signature_bytes : bytes }.

#[export] Instance NativeSignature_eq_dec : EqDecision NativeSignature.
Proof. solve_decision. Defined.

Record SignedTransaction : Type := mk_signed {
  unsigned : UnsignedTransaction;
  signature : NativeSignature
}.

#[export] Instance SignedTransaction_eq_dec : EqDecision SignedTransaction.
Proof. solve_decision. Defined.

Record AuthenticatedTransaction : Type := mk_authenticated {
  transaction : SignedTransaction;
  transaction_id : bytes;
  signing_digest_field : bytes;
  public_key : bytes
}.

#[export] Instance AuthenticatedTransaction_eq_dec : EqDecision AuthenticatedTransaction.
Proof. solve_decision. Defined.

Definition signed_from_parts (u : UnsignedTransaction) (s : NativeSignature) :
    result native_error SignedTransaction :=
  validate_layout u;; Ok (mk_signed u s).

Definition signed_canonical_bytes (s : SignedTransaction) : result native_error bytes :=
  u ← unsigned_canonical_bytes (unsigned s);
  Ok (copy_at UNSIGNED_LEN (native_signature_bytes (signature s))
       (copy_at 0 u (zeros SIGNED_LEN))).

Section Native.
  Context `{KE : Keccak} `{KC : K256}.

Definition network_id_from_genesis_bytes (canonical_genesis_bytes : bytes) : bytes :=
  keccak256 canonical_genesis_bytes.

Definition signing_digest (t : UnsignedTransaction) : result native_error bytes :=
  p ← signing_preimage t; Ok (keccak256 p).

Definition NativeSignature_from_bytes (bs : bytes) : result native_error NativeSignature :=
  require_length bs SIGNATURE_LEN;;
  fail_if (1 <? be_val (slice 1 64 bs))%Z
    (NativeError.InvalidParity (be_val (slice 1 64 bs)));;
  s ← ok_or (signature_from_slice (slice 64 0 bs)) NativeError.InvalidScalar;
  fail_if (if normalize_s s is Some _ then true else false) NativeError.HighS;;
  Ok (mk_native_signature (slice 65 0 bs)).

Definition recover_public_key (s : NativeSignature) (digest : bytes) :
    result native_error VerifyingKey :=
  sg ← ok_or (signature_from_slice (slice 64 0 (native_signature_bytes s)))
         NativeError.InvalidScalar;
  let parity := slice 1 64 (native_signature_bytes s) in
  id ← ok_or (recovery_from_byte (byte_of (be_val parity)))
         (NativeError.InvalidParity (be_val parity));
  ok_or (recover_from_prehash digest sg id) NativeError.RecoveryFailed.

Definition signed_from_canonical_bytes (bs : bytes) : result native_error SignedTransaction :=
  require_length bs SIGNED_LEN;;
  u ← unsigned_from_canonical_bytes (slice UNSIGNED_LEN 0 bs);
  s ← NativeSignature_from_bytes (drop UNSIGNED_LEN bs);
  signed_from_parts u s.

(** [update(ID_DOMAIN)], [update(bytes)], [finalize]. *)
Definition signed_transaction_id (s : SignedTransaction) : result native_error bytes :=
  bs ← signed_canonical_bytes s; Ok (keccak256 (ID_DOMAIN ++ bs)).

Definition address_from_public_key (key : VerifyingKey) : bytes :=
  slice 20 12 (keccak256 (drop 1 (encoded_point false key))).

Definition authenticate (bs : bytes) (c : AuthenticationContext) (claimed_id : option bytes) :
    result native_error AuthenticatedTransaction :=
  tx ← signed_from_canonical_bytes bs;
  validate_profile (unsigned tx) c;;
  tid ← signed_transaction_id tx;
  fail_if (if claimed_id is Some claimed then claimed !=? tid else false)
    NativeError.ClaimedIdMismatch;;
  digest ← signing_digest (unsigned tx);
  key ← recover_public_key (signature tx) digest;
  fail_if (address_from_public_key key !=? sender (unsigned tx)) NativeError.SenderMismatch;;
  Ok (mk_authenticated tx tid digest (slice 65 0 (encoded_point false key))).

(** The retry loop of [sign_with_retry].  [candidate n retry] is the [n]-th
    call of the closure (later calls see fresh entropy); [None] means the
    given fuel ran out with every candidate x-reduced. *)
Fixpoint retry_loop {E Sg} (parse : bytes -> result E Sg)
    (candidate : nat -> bool -> result E (Signature * RecoveryId))
    (fuel call : nat) (retry : bool) : option (result E Sg) :=
  match fuel with
  | O => None
  | S fuel' =>
      match candidate call retry with
      | Err e => Some (Err e)
      | Ok (s, id) =>
          if is_x_reduced id then retry_loop parse candidate fuel' (S call) true
          else Some (parse (copy_at 64 [recovery_to_byte id]
                 (copy_at 0 (signature_to_bytes s) (zeros SIGNATURE_LEN))))
      end
  end.

Definition sign_with_retry (candidate : nat -> bool -> result native_error (Signature * RecoveryId))
    (fuel : nat) : option (result native_error NativeSignature) :=
  retry_loop NativeSignature_from_bytes candidate fuel 0 false.

(** The closure [sign] passes: deterministic first, then fresh entropy. *)
Definition sign_candidate (key : SigningKey) (entropy : nat -> Entropy) (digest : bytes)
    (call : nat) (retry : bool) : result native_error (Signature * RecoveryId) :=
  if negb retry then ok_or (sign_prehash_recoverable key digest) NativeError.SigningFailed
  else
    s ← ok_or (sign_prehash_with_rng key (entropy call) digest) NativeError.SigningFailed;
    id ← ok_or (trial_recovery_from_prehash (verifying_key key) digest s)
           NativeError.SigningFailed;
    Ok (s, id).

Definition sign (u : UnsignedTransaction) (key : SigningKey) (c : AuthenticationContext)
    (entropy : nat -> Entropy) (fuel : nat) : option (result native_error SignedTransaction) :=
  match validate_profile u c with
  | Err e => Some (Err e)
  | Ok _ =>
      if address_from_public_key (verifying_key key) !=? sender u
      then Some (Err NativeError.SenderMismatch)
      else match signing_digest u with
      | Err e => Some (Err e)
      | Ok digest =>
          match sign_with_retry (sign_candidate key entropy digest) fuel with
          | None => None
          | Some (Err e) => Some (Err e)
          | Some (Ok s) => Some (signed_from_parts u s)
          end
      end
  end.
End Native.

(** ** Layout of the payload *)

(** The field order of the fixed buffer, as a concatenation. *)
Definition unsigned_layout (t : UnsignedTransaction) : bytes :=
  be_bytes 1 (encoding_version t) ++ be_bytes 4 (native_rules_version t) ++
  be_bytes 8 (tx_chain_id t) ++ network_id t ++ be_bytes 1 (kind t) ++ sender t ++
  be_bytes 8 (nonce t) ++ recipient t ++ be_bytes 8 (token_id t) ++
  be_bytes 16 (value t) ++ be_bytes 8 (gas_limit t) ++ be_bytes 8 (valid_after_slot t).

(** Fills one slice of a zeroed buffer. *)
Ltac fill_step :=
  rewrite copy_at_fill by (rewrite ?length_app, ?length_be_bytes; simpl; lia).

Lemma length_unsigned_layout t : wf_unsigned t -> length (unsigned_layout t) = UNSIGNED_LEN.
Proof.
  unfold wf_unsigned, unsigned_layout, UNSIGNED_LEN. intros. destruct_and!.
  rewrite !length_app, !length_be_bytes. lia.
Qed.

Lemma validate_layout_Ok t u :
  validate_layout t = Ok u <-> encoding_version t = ENCODING_VERSION /\ kind t = TRANSFER_KIND.
Proof.
  unfold validate_layout. split.
  - intros. by inv_ok.
  - intros [-> ->]. by destruct u.
Qed.

Lemma unsigned_canonical_bytes_Ok t bs :
  wf_unsigned t ->
  unsigned_canonical_bytes t = Ok bs <->
  validate_layout t = Ok () /\ bs = unsigned_layout t.
Proof.
  unfold wf_unsigned. intros. destruct_and!. unfold unsigned_canonical_bytes.
  rewrite bind_Ok. cbv zeta. change (zeros UNSIGNED_LEN) with ([] ++ zeros 134).
  do 12 fill_step. rewrite !length_be_bytes.
  match goal with |- context [_ ++ zeros ?n] => replace n with 0%nat by lia end.
  change (zeros 0) with (@nil byte). rewrite app_nil_r. unfold unsigned_layout.
  rewrite <- !app_assoc. split.
  - intros ([] & ? & [= <-]). done.
  - intros [? ->]. by exists ().
Qed.

(** The twelve slices of a 134-byte string glue back together. *)
Lemma unsigned_slices bs :
  length bs = UNSIGNED_LEN ->
  slice 1 0 bs ++ slice 4 1 bs ++ slice 8 5 bs ++ slice 32 13 bs ++ slice 1 45 bs ++
  slice 20 46 bs ++ slice 8 66 bs ++ slice 20 74 bs ++ slice 8 94 bs ++
  slice 16 102 bs ++ slice 8 118 bs ++ slice 8 126 bs = bs.
Proof.
  intros Hl. rewrite <- (concat_slices_all [1; 4; 8; 32; 1; 20; 8; 20; 8; 16; 8; 8] bs Hl) at 13.
  simpl. by rewrite app_nil_r.
Qed.

Lemma unsigned_decoded_layout bs :
  length bs = UNSIGNED_LEN ->
  forall t, t = {|
    encoding_version := be_val (slice 1 0 bs);
    native_rules_version := be_val (slice 4 1 bs);
    tx_chain_id := be_val (slice 8 5 bs);
    network_id := slice 32 13 bs;
    kind := be_val (slice 1 45 bs);
    sender := slice 20 46 bs;
    nonce := be_val (slice 8 66 bs);
    recipient := slice 20 74 bs;
    token_id := be_val (slice 8 94 bs);
    value := be_val (slice 16 102 bs);
    gas_limit := be_val (slice 8 118 bs);
    valid_after_slot := be_val (slice 8 126 bs) |} ->
  wf_unsigned t /\ unsigned_layout t = bs.
Proof.
  intros Hl t ->. unfold UNSIGNED_LEN in Hl. unfold wf_unsigned, unsigned_layout; simpl. split.
  - split_and!; first [by apply length_slice; lia | eapply be_val_width; [|by apply length_slice; lia]; done].
  - rewrite !be_bytes_val by (apply length_slice; lia). by apply unsigned_slices.
Qed.

Lemma unsigned_encoded_slices t :
  wf_unsigned t ->
  t = {|
    encoding_version := be_val (slice 1 0 (unsigned_layout t));
    native_rules_version := be_val (slice 4 1 (unsigned_layout t));
    tx_chain_id := be_val (slice 8 5 (unsigned_layout t));
    network_id := slice 32 13 (unsigned_layout t);
    kind := be_val (slice 1 45 (unsigned_layout t));
    sender := slice 20 46 (unsigned_layout t);
    nonce := be_val (slice 8 66 (unsigned_layout t));
    recipient := slice 20 74 (unsigned_layout t);
    token_id := be_val (slice 8 94 (unsigned_layout t));
    value := be_val (slice 16 102 (unsigned_layout t));
    gas_limit := be_val (slice 8 118 (unsigned_layout t));
    valid_after_slot := be_val (slice 8 126 (unsigned_layout t)) |}.
Proof.
  unfold wf_unsigned. intros. destruct_and!. destruct t; simpl in *.
  unfold unsigned_layout; simpl. f_equal; symmetry.
  all: repeat (rewrite slice_app_skip by (rewrite ?length_be_bytes; lia); rewrite ?length_be_bytes).
  all: repeat match goal with H : length _ = _ |- _ => rewrite H end; simpl Nat.sub.
  all: rewrite ?slice_app_here, ?slice_all by (rewrite ?length_be_bytes; done).
  all: try done; eapply be_val_bytes_width; done.
Qed.

Lemma unsigned_codec_iff bs t :
  unsigned_from_canonical_bytes bs = Ok t <->
  wf_unsigned t /\ validate_layout t = Ok () /\ bs = unsigned_layout t.
Proof.
  unfold unsigned_from_canonical_bytes, require_length. split.
  - intros. inv_ok. subst. split_and!; [..|symmetry]; try done.
    all: by eapply unsigned_decoded_layout.
  - intros (Hwf & Hlay & ->).
    rewrite (neq_dec_false (length _)) by (by apply length_unsigned_layout).
    cbv zeta. rewrite <- unsigned_encoded_slices by done.
    simpl. rewrite Hlay. done.
Qed.

(** ** Signed objects *)

Lemma signing_preimage_Ok t p :
  wf_unsigned t ->
  signing_preimage t = Ok p <->
  validate_layout t = Ok () /\ p = TX_SIGNING_DOMAIN ++ unsigned_layout t.
Proof.
  intros Hwf. unfold signing_preimage. rewrite bind_Ok.
  setoid_rewrite (unsigned_canonical_bytes_Ok t _ Hwf).
  pose proof (length_unsigned_layout t Hwf) as Hl. unfold UNSIGNED_LEN in Hl.
  assert (copy_at (length TX_SIGNING_DOMAIN) (unsigned_layout t)
    (copy_at 0 TX_SIGNING_DOMAIN (zeros TX_SIGNING_PREIMAGE_LEN)) =
    TX_SIGNING_DOMAIN ++ unsigned_layout t) as Hfill.
  { change (zeros TX_SIGNING_PREIMAGE_LEN) with ([] ++ zeros (24 + 134)).
    rewrite copy_at_fill by (simpl; done || lia).
    rewrite copy_at_fill by (simpl; done || (change (length TX_SIGNING_DOMAIN) with 24%nat; lia)).
    change (length TX_SIGNING_DOMAIN) with 24%nat. rewrite Hl.
    change (zeros (24 + 134 - 24 - 134)) with (@nil byte). by rewrite app_nil_r. }
  split.
  - intros (u & [? ->] & [= <-]). done.
  - intros [? ->]. exists (unsigned_layout t). by rewrite Hfill.
Qed.

Lemma length_signing_domain : length TX_SIGNING_DOMAIN = 24%nat.
Proof. done. Qed.
Lemma length_id_domain : length ID_DOMAIN = 22%nat.
Proof. done. Qed.
#[global] Opaque TX_SIGNING_DOMAIN ID_DOMAIN.

Definition wf_signed `{K256} (s : SignedTransaction) : Prop :=
  wf_unsigned (unsigned s) /\ validate_layout (unsigned s) = Ok () /\
  NativeSignature_from_bytes (native_signature_bytes (signature s)) = Ok (signature s).

Definition signed_layout (s : SignedTransaction) : bytes :=
  unsigned_layout (unsigned s) ++ native_signature_bytes (signature s).

Section Authentication.
  Context {KE : Keccak} {KC : K256}.

Lemma signature_from_bytes_id bs s :
  NativeSignature_from_bytes bs = Ok s ->
  length bs = SIGNATURE_LEN /\ s = mk_native_signature bs.
Proof.
  unfold NativeSignature_from_bytes, require_length. intros. inv_ok. subst.
  split; [done|]. by rewrite slice_all.
Qed.

Lemma wf_signed_length s : wf_signed s -> length (native_signature_bytes (signature s)) = 65%nat.
Proof. intros (_ & _ & H). by apply signature_from_bytes_id in H as [? _]. Qed.

Lemma signed_canonical_bytes_Ok s bs :
  wf_signed s -> signed_canonical_bytes s = Ok bs <-> bs = signed_layout s.
Proof.
  intros Hs. pose proof (wf_signed_length s Hs) as Hsig. destruct Hs as (Hwf & Hlay & _).
  pose proof (length_unsigned_layout _ Hwf) as Hl. unfold UNSIGNED_LEN in Hl.
  unfold signed_canonical_bytes. rewrite bind_Ok.
  setoid_rewrite (unsigned_canonical_bytes_Ok _ _ Hwf).
  assert (copy_at UNSIGNED_LEN (native_signature_bytes (signature s))
    (copy_at 0 (unsigned_layout (unsigned s)) (zeros SIGNED_LEN)) = signed_layout s) as Hfill.
  { change (zeros SIGNED_LEN) with ([] ++ zeros (134 + 65)).
    rewrite copy_at_fill by (simpl; done || lia).
    rewrite copy_at_fill by (simpl; unfold UNSIGNED_LEN; lia).
    rewrite Hl, Hsig. change (zeros (134 + 65 - 134 - 65)) with (@nil byte).
    by rewrite app_nil_r. }
  split.
  - intros (u & [? ->] & [= <-]). done.
  - intros ->. eexists. split; [done|]. by rewrite Hfill.
Qed.

Lemma signed_decode_iff bs s :
  signed_from_canonical_bytes bs = Ok s <-> wf_signed s /\ bs = signed_layout s.
Proof.
  unfold signed_from_canonical_bytes, signed_from_parts, require_length. split.
  - intros. inv_ok. subst.
    match goal with H : unsigned_from_canonical_bytes _ = _ |- _ =>
      apply unsigned_codec_iff in H as (? & ? & Hu) end.
    match goal with H : NativeSignature_from_bytes _ = _ |- _ =>
      pose proof (signature_from_bytes_id _ _ H) as [? ->] end.
    unfold wf_signed, signed_layout; simpl. split; [done|]. rewrite <- Hu.
    symmetry. apply take_drop.
  - intros [Hs ->]. pose proof (wf_signed_length s Hs) as Hsig.
    destruct Hs as (Hwf & Hlay & Hok). pose proof (length_unsigned_layout _ Hwf) as Hl.
    unfold signed_layout. rewrite length_app, Hl, Hsig.
    rewrite slice_app_here by done. rewrite drop_app_length' by done.
    rewrite (proj2 (unsigned_codec_iff _ (unsigned s))) by done.
    simpl. rewrite Hok. simpl. rewrite Hlay. by destruct s.
Qed.

Lemma signed_codec_iff bs s :
  signed_from_canonical_bytes bs = Ok s <-> wf_signed s /\ signed_canonical_bytes s = Ok bs.
Proof.
  rewrite signed_decode_iff. split; intros [Hs H]; split; try done;
    [rewrite signed_canonical_bytes_Ok|rewrite signed_canonical_bytes_Ok in H]; done.
Qed.

Lemma signed_length s : wf_signed s -> length (signed_layout s) = SIGNED_LEN.
Proof.
  intros Hs. unfold signed_layout. rewrite length_app, (wf_signed_length s Hs).
  by rewrite (length_unsigned_layout _ (proj1 Hs)).
Qed.

Lemma validate_profile_Ok t c u :
  validate_profile t c = Ok u <->
  encoding_version t = ENCODING_VERSION /\ kind t = TRANSFER_KIND /\
  native_rules_version t = ctx_native_rules_version c /\ tx_chain_id t = ctx_chain_id c /\
  network_id t = ctx_network_id c /\ (INTRINSIC_GAS <= gas_limit t)%Z /\
  nonce t <> (U64 - 1)%Z /\ token_id t = ETX_TOKEN_ID.
Proof.
  unfold validate_profile. split.
  - intros. inv_ok. by rewrite validate_layout_Ok in *; destruct_and!.
  - intros. destruct_and!.
    rewrite (proj2 (validate_layout_Ok t ())) by done. simpl.
    rewrite !neq_dec_false, (proj2 (Z.ltb_ge _ _)), bool_decide_eq_false_2 by done.
    by destruct u.
Qed.

Lemma signing_digest_Ok t d :
  wf_unsigned t -> validate_layout t = Ok () ->
  signing_digest t = Ok d <-> d = keccak256 (TX_SIGNING_DOMAIN ++ unsigned_layout t).
Proof.
  intros Hwf Hlay. unfold signing_digest. rewrite bind_Ok.
  setoid_rewrite (signing_preimage_Ok _ _ Hwf). split.
  - intros (p & [_ ->] & [= <-]). done.
  - intros ->. by eexists.
Qed.

Lemma transaction_id_Ok s i :
  wf_signed s -> signed_transaction_id s = Ok i <-> i = keccak256 (ID_DOMAIN ++ signed_layout s).
Proof.
  intros Hs. unfold signed_transaction_id. rewrite bind_Ok.
  setoid_rewrite (signed_canonical_bytes_Ok _ _ Hs). split.
  - intros (p & -> & [= <-]). done.
  - intros ->. by eexists.
Qed.

(** The checks of [authenticate] on the decoded object. *)
Record accepted_transaction (bs : bytes) (c : AuthenticationContext) (claimed : option bytes)
    (p : AuthenticatedTransaction) : Prop := {
  au_signed : wf_signed (transaction p);
  au_bytes : bs = signed_layout (transaction p);
  au_profile : validate_profile (unsigned (transaction p)) c = Ok ();
  au_id : transaction_id p = keccak256 (ID_DOMAIN ++ bs);
  au_claim : forall i, claimed = Some i -> i = transaction_id p;
  au_digest : signing_digest_field p =
    keccak256 (TX_SIGNING_DOMAIN ++ unsigned_layout (unsigned (transaction p)));
  au_key : exists key,
    recover_public_key (signature (transaction p)) (signing_digest_field p) = Ok key /\
    address_from_public_key key = sender (unsigned (transaction p)) /\
    public_key p = slice 65 0 (encoded_point false key)
}.

Lemma authenticate_spec bs c claimed p :
  authenticate bs c claimed = Ok p <-> accepted_transaction bs c claimed p.
Proof.
  unfold authenticate. split.
  - intros. inv_ok.
    match goal with H : signed_from_canonical_bytes _ = _ |- _ =>
      apply signed_decode_iff in H as [Hs ->] end.
    match goal with H : signed_transaction_id _ = _ |- _ =>
      apply transaction_id_Ok in H as ->; [|done] end.
    match goal with H : signing_digest _ = _ |- _ =>
      apply signing_digest_Ok in H as ->; [|apply Hs..] end.
    subst p. constructor; simpl; eauto.
    intros i ->. by inv_ok.
  - intros [Hs -> Hprof Hid Hclaim Hdig (key & Hrec & Haddr & Hpub)].
    rewrite (proj2 (signed_decode_iff _ _) (conj Hs eq_refl)). simpl. rewrite Hprof. simpl.
    rewrite (proj2 (transaction_id_Ok _ _ Hs) eq_refl). simpl.
    rewrite fail_if_false.
    2:{ destruct claimed as [i|]; [|done]. apply neq_dec_false. rewrite <- Hid. auto. }
    simpl. rewrite (proj2 (signing_digest_Ok _ _ (proj1 Hs) (proj1 (proj2 Hs))) eq_refl). simpl.
    rewrite <- Hdig, Hrec. simpl. rewrite neq_dec_false by done. simpl.
    rewrite <- Hpub, <- Hid. by destruct p.
Qed.
End Authentication.

(** ** The V2 transfer format, without the decoder

    What a rules-1 transfer is, written from the documented byte layout: the
    fields a signer chooses, the bytes they occupy and the conditions on them. *)

Record V2Transfer : Type := mk_v2 {
  v2_from : bytes;
  v2_nonce : Z;
  v2_to : bytes;
  v2_amount : Z;
  v2_gas : Z;
  v2_after : Z;
  v2_rs : bytes;
  v2_parity : byte
}.

(** Version 2, the context's rules, chain and network, kind 0, token 0. *)
Definition v2_payload (c : AuthenticationContext) (x : V2Transfer) : bytes :=
  [x02] ++ be_bytes 4 (ctx_native_rules_version c) ++ be_bytes 8 (ctx_chain_id c) ++ ctx_network_id c ++
  [x00] ++ v2_from x ++ be_bytes 8 (v2_nonce x) ++ v2_to x ++ zeros 8 ++ be_bytes 16 (v2_amount x) ++
  be_bytes 8 (v2_gas x) ++ be_bytes 8 (v2_after x).

Definition v2_bytes (c : AuthenticationContext) (x : V2Transfer) : bytes :=
  v2_payload c x ++ v2_rs x ++ [v2_parity x].

Section V2Format.
  Context {KE : Keccak} {KC : K256}.

Definition v2_digest (c : AuthenticationContext) (x : V2Transfer) : bytes :=
  keccak256 (([x19] ++ str "ETERNIX" ++ [x00] ++ str "NATIVE_TX_SIGN" ++ [x00]) ++ v2_payload c x).
Definition v2_id (bs : bytes) : bytes :=
  keccak256 (([x19] ++ str "ETERNIX" ++ [x00] ++ str "NATIVE_TX_ID" ++ [x00]) ++ bs).

(** A transfer of this context that [key] signed. *)
Record v2_transfer (c : AuthenticationContext) (x : V2Transfer) (key : VerifyingKey) : Prop := {
  vt_rules : (0 <= ctx_native_rules_version c < 2 ^ 32)%Z;
  vt_chain : (0 <= ctx_chain_id c < 2 ^ 64)%Z;
  vt_network : length (ctx_network_id c) = 32%nat;
  vt_from : length (v2_from x) = 20%nat;
  vt_to : length (v2_to x) = 20%nat;
  (** the nonce can still be incremented *)
  vt_nonce : (0 <= v2_nonce x < 2 ^ 64 - 1)%Z;
  vt_amount : (0 <= v2_amount x < 2 ^ 128)%Z;
  vt_gas : (1000 <= v2_gas x < 2 ^ 64)%Z;
  vt_after : (0 <= v2_after x < 2 ^ 64)%Z;
  (** compact [r || s] in range and low-s, and a plain y parity *)
  vt_rs : length (v2_rs x) = 64%nat;
  vt_parity : (byte_val (v2_parity x) <= 1)%Z;
  vt_recovers : exists sg id, signature_from_slice (v2_rs x) = Some sg /\ normalize_s sg = None /\
    recovery_from_byte (v2_parity x) = Some id /\ recover_from_prehash (v2_digest c x) sg id = Some key;
  (** the sender is the low 20 bytes of the hash of the key's 64-byte point *)
  vt_sender : v2_from x = drop 12 (keccak256 (drop 1 (encoded_point false key)))
}.

Definition v2_proof (c : AuthenticationContext) (x : V2Transfer) (key : VerifyingKey) :
    AuthenticatedTransaction :=
  mk_authenticated
    (mk_signed
       (mk_unsigned 2 (ctx_native_rules_version c) (ctx_chain_id c) (ctx_network_id c) 0 (v2_from x) (v2_nonce x)
          (v2_to x) 0 (v2_amount x) (v2_gas x) (v2_after x))
       (mk_native_signature (v2_rs x ++ [v2_parity x])))
    (v2_id (v2_bytes c x)) (v2_digest c x) (take 65 (encoded_point false key)).

Lemma drop_slice (n k : nat) (l : bytes) : length l = (k + n)%nat -> slice n k l = drop k l.
Proof. intros Hl. unfold slice. apply take_ge. rewrite length_drop. lia. Qed.

(** A compact signature and the parser's view of it. *)
Lemma signature_compact rs (b : byte) :
  length rs = 64%nat ->
  NativeSignature_from_bytes (rs ++ [b]) = Ok (mk_native_signature (rs ++ [b])) <->
  (byte_val b <= 1)%Z /\ exists sg, signature_from_slice rs = Some sg /\ normalize_s sg = None.
Proof.
  intros Hl. unfold NativeSignature_from_bytes, require_length.
  rewrite (neq_dec_false (length _)) by (rewrite length_app, Hl; done). simpl fail_if. rewrite bind_of_Ok.
  rewrite (slice_app_skip 1 64) by lia. rewrite Hl. change (64 - 64)%nat with 0%nat.
  rewrite (slice_all 1) by done. rewrite be_val_cons. change (be_val []) with 0%Z. simpl (_ ^ _)%Z.
  rewrite Z.mul_1_r, Z.add_0_r, (slice_app_here 64) by done.
  rewrite (slice_all 65) by (rewrite length_app, Hl; done). split.
  - intros H. apply bind_Ok in H as ([] & Hb & H). apply fail_if_Ok, Z.ltb_ge in Hb.
    apply bind_Ok in H as (sg & Hsg%ok_or_Ok & H). apply bind_Ok in H as ([] & Hn & _).
    apply fail_if_Ok in Hn. split; [lia|]. exists sg. split; [done|]. by destruct (normalize_s sg).
  - intros (Hb & sg & -> & Hn). rewrite (proj2 (Z.ltb_ge _ _)) by lia. simpl. by rewrite Hn.
Qed.

Lemma recover_compact rs (b : byte) digest key :
  length rs = 64%nat ->
  recover_public_key (mk_native_signature (rs ++ [b])) digest = Ok key <->
  exists sg id, signature_from_slice rs = Some sg /\ recovery_from_byte b = Some id /\
    recover_from_prehash digest sg id = Some key.
Proof.
  intros Hl. unfold recover_public_key. cbn [native_signature_bytes]. cbv zeta.
  rewrite (slice_app_here 64) by done. rewrite (slice_app_skip 1 64) by lia. rewrite Hl.
  change (64 - 64)%nat with 0%nat. rewrite (slice_all 1) by done. rewrite be_val_cons.
  change (be_val []) with 0%Z. simpl (_ ^ _)%Z. rewrite Z.mul_1_r, Z.add_0_r, byte_of_val. split.
  - intros H. inv_ok. eauto.
  - intros (sg & id & -> & -> & Hk). simpl. by rewrite Hk.
Qed.

Lemma split_signature (bs : bytes) :
  length bs = 65%nat -> exists rs b, bs = rs ++ [b] /\ length rs = 64%nat.
Proof.
  intros Hl. destruct bs as [|b rs _] using rev_ind; [done|]. exists rs, b. split; [done|].
  rewrite length_app in Hl. simpl in Hl. lia.
Qed.

Lemma accepted_v2 bs c claimed p :
  accepted_transaction bs c claimed p ->
  exists x key, v2_transfer c x key /\ bs = v2_bytes c x /\ p = v2_proof c x key.
Proof.
  intros [(Hw & _ & Hsig) Hb Hp Hid _ Hdig (key & Hrec & Ha & Hk)].
  apply validate_profile_Ok in Hp as (E1 & E2 & E3 & E4 & E5 & E6 & E7 & E8).
  pose proof (signature_from_bytes_id _ _ Hsig) as [Hl _].
  destruct p as [[u [sb]] tid dig pub], u as [ev rv ch net k from n to tok amount gas aft].
  unfold signed_layout, unsigned_layout, wf_unsigned, in_width in *. simpl in *. subst ev rv ch net k tok tid dig pub.
  destruct (split_signature _ Hl) as (rs & par & -> & Hrs). destruct_and!.
  apply signature_compact in Hsig as (Hpar & sg & Hsg & Hns); [|done].
  apply recover_compact in Hrec as (sg' & id & Hsg' & Hi & Hr); [|done]. rewrite Hsg in Hsg'. injection Hsg' as <-.
  pose proof (keccak256_length (drop 1 (encoded_point false key))).
  exists (mk_v2 from n to amount gas aft rs par), key. split_and!; [|exact Hb|by subst bs].
  constructor; simpl; try done; unfold INTRINSIC_GAS in *; try lia; [by eauto 10|].
  subst from. unfold address_from_public_key. by apply drop_slice.
Qed.

Lemma v2_accepted c claimed x key :
  v2_transfer c x key -> (claimed = None \/ claimed = Some (v2_id (v2_bytes c x))) ->
  accepted_transaction (v2_bytes c x) c claimed (v2_proof c x key).
Proof.
  intros V Hc. assert (wf_unsigned (unsigned (transaction (v2_proof c x key)))) as Hw.
  { unfold wf_unsigned, in_width. destruct V. simpl. split_and!; done || lia. }
  destruct (vt_recovers _ _ _ V) as (sg & id & Hsg & Hns & Hi & Hr).
  pose proof (keccak256_length (drop 1 (encoded_point false key))).
  constructor; simpl.
  - split_and!; [done|done|]. apply signature_compact; [apply V|]. split; [apply V|eauto].
  - reflexivity.
  - apply validate_profile_Ok. unfold INTRINSIC_GAS. destruct V. simpl. split_and!; done || lia.
  - done.
  - intros i ->. by destruct Hc as [|[= ->]].
  - done.
  - exists key. split_and!; [|by rewrite (vt_sender _ _ _ V); apply drop_slice|done].
    apply recover_compact; [apply V|]. eauto.
Qed.
End V2Format.

(** ** Signing *)

Section Signing.
  Context {KE : Keccak} {KC : K256} {KL : K256Laws KC}.

(** [r || s || parity] as the retry loop assembles it. *)
Lemma compact_fill s (b : byte) :
  copy_at 64 [b] (copy_at 0 (signature_to_bytes s) (zeros SIGNATURE_LEN)) =
  signature_to_bytes s ++ [b].
Proof.
  pose proof (signature_to_bytes_length s) as Hl.
  change (zeros SIGNATURE_LEN) with ([] ++ zeros 65).
  rewrite copy_at_fill by (simpl; lia). rewrite copy_at_fill by (simpl; lia).
  rewrite Hl. change (zeros (65 - 64 - length [b])) with (@nil byte).
  by rewrite app_nil_r.
Qed.

(** The loop stops at the first candidate that is not x-reduced. *)
Definition candidate_stops {E} (candidate : nat -> bool -> result E (Signature * RecoveryId))
    (call : nat) (retry : bool) : bool :=
  match candidate call retry with
  | Err _ => true
  | Ok (_, id) => negb (is_x_reduced id)
  end.

Lemma retry_loop_Ok {E Sg} (parse : bytes -> result E Sg) candidate fuel call retry s :
  retry_loop parse candidate fuel call retry = Some (Ok s) ->
  exists n r sg id, candidate n r = Ok (sg, id) /\ is_x_reduced id = false /\
    parse (signature_to_bytes sg ++ [recovery_to_byte id]) = Ok s.
Proof.
  revert call retry. induction fuel as [|fuel IH]; intros call retry; [done|].
  simpl. destruct (candidate call retry) as [[sg id]|e] eqn:Hc; [|done].
  destruct (is_x_reduced id) eqn:Hx; [apply IH|]. rewrite compact_fill.
  intros [= Hp]. eauto 10.
Qed.

Lemma retry_loop_total {E Sg} (parse : bytes -> result E Sg) candidate fuel call retry n :
  (n < fuel)%nat ->
  candidate_stops candidate (call + n) (if n is O then retry else true) = true ->
  exists r, retry_loop parse candidate fuel call retry = Some r.
Proof.
  revert call retry n. induction fuel as [|fuel IH]; intros call retry n Hn Hs; [lia|].
  simpl. destruct (candidate call retry) as [[sg id]|e] eqn:Hc; [|eauto].
  destruct (is_x_reduced id) eqn:Hx; [|eauto].
  destruct n as [|n].
  - rewrite Nat.add_0_r in Hs. unfold candidate_stops in Hs. by rewrite Hc, Hx in Hs.
  - apply (IH (S call) true n); [lia|]. replace (S call + n)%nat with (call + S n)%nat by lia.
    by destruct n.
Qed.

Lemma compact_recovers (s : NativeSignature) sg id digest v :
  native_signature_bytes s = signature_to_bytes sg ++ [recovery_to_byte id] ->
  recover_from_prehash digest sg id = Some v ->
  recover_public_key s digest = Ok v.
Proof.
  intros Hb Hr. pose proof (signature_to_bytes_length sg) as Hl.
  unfold recover_public_key. rewrite Hb.
  rewrite slice_app_here by done. rewrite signature_from_to. simpl.
  rewrite slice_app_skip by lia. rewrite Hl. change (64 - 64)%nat with 0%nat.
  rewrite slice_all by done. rewrite be_val_cons. simpl.
  rewrite Z.mul_1_r. change (be_val []) with 0%Z. rewrite Z.add_0_r, byte_of_val.
  rewrite recovery_from_to. simpl. by rewrite Hr.
Qed.

Lemma sign_candidate_recovers key ent digest n r sg id :
  sign_candidate key ent digest n r = Ok (sg, id) ->
  recover_from_prehash digest sg id = Some (verifying_key key).
Proof.
  unfold sign_candidate. destruct r; simpl; intros; inv_ok.
  - simplify_eq. by apply trial_recovery_recovers.
  - by apply sign_recoverable_recovers.
Qed.

Lemma sign_authenticates_lemma u key c ent fuel s :
  wf_unsigned u -> sign u key c ent fuel = Some (Ok s) ->
  unsigned s = u /\ wf_signed s /\
  exists p, authenticate (signed_layout s) c None = Ok p /\ transaction p = s.
Proof.
  intros Hwf. unfold sign.
  destruct (validate_profile u c) as [[]|] eqn:Hprof; [|done].
  destruct (address_from_public_key (verifying_key key) !=? sender u) eqn:Haddr; [done|].
  destruct (signing_digest u) as [digest|] eqn:Hdig; [|done].
  destruct (sign_with_retry _ fuel) as [[ns|]|] eqn:Hsig; [|done..].
  unfold signed_from_parts. intros [= Hs]. inv_ok. subst s; simpl.
  apply retry_loop_Ok in Hsig as (n & r & sg & id & Hcand & Hx & Hparse).
  pose proof (signature_from_bytes_id _ _ Hparse) as [_ ->].
  assert (wf_signed (mk_signed u (mk_native_signature
    (signature_to_bytes sg ++ [recovery_to_byte id])))) as Hws by done.
  split; [done|]. split; [done|].
  apply signing_digest_Ok in Hdig as ->; [|done..].
  eexists (mk_authenticated _ _ _ _). split; [|done].
  apply authenticate_spec. constructor; simpl; [done..|].
  eexists. split_and!; [|done..].
  eapply compact_recovers; [done|]. by eapply sign_candidate_recovers.
Qed.
End Signing.

(** A backend candidate is always canonical, so the first one that is not
    x-reduced ends the loop with a signature. *)
Section SigningTotal.
  Context {KE : Keccak} {KC : K256} {KL : K256Laws KC}.

Lemma compact_canonical sg id :
  is_x_reduced id = false -> normalize_s sg = None ->
  NativeSignature_from_bytes (signature_to_bytes sg ++ [recovery_to_byte id]) =
  Ok (mk_native_signature (signature_to_bytes sg ++ [recovery_to_byte id])).
Proof.
  intros Hx Hs. pose proof (signature_to_bytes_length sg) as Hl.
  unfold NativeSignature_from_bytes, require_length.
  rewrite (neq_dec_false (length _)) by (rewrite length_app, Hl; done). simpl.
  rewrite (slice_app_skip 1 64) by lia. rewrite Hl. change (64 - 64)%nat with 0%nat.
  rewrite (slice_all 1) by done. rewrite be_val_cons. simpl. change (be_val []) with 0%Z.
  rewrite Z.mul_1_r, Z.add_0_r. pose proof (not_x_reduced_parity id Hx).
  rewrite (proj2 (Z.ltb_ge _ _)) by lia. simpl.
  rewrite (slice_app_here 64) by done. rewrite signature_from_to. simpl. rewrite Hs. simpl.
  by rewrite slice_all by (rewrite length_app, Hl; done).
Qed.

Lemma sign_candidate_low_s key ent digest n r sg id :
  sign_candidate key ent digest n r = Ok (sg, id) -> normalize_s sg = None.
Proof.
  unfold sign_candidate. destruct r; simpl; intros; inv_ok.
  - simplify_eq. by eapply sign_rng_low_s.
  - by eapply sign_recoverable_low_s.
Qed.

Lemma sign_loop_result key ent digest fuel call retry r :
  retry_loop NativeSignature_from_bytes (sign_candidate key ent digest) fuel call retry = Some r ->
  (exists s, r = Ok s) \/ r = Err NativeError.SigningFailed.
Proof.
  revert call retry. induction fuel as [|fuel IH]; intros call retry; [done|]. simpl.
  destruct (sign_candidate key ent digest call retry) as [[sg id]|e] eqn:Hc.
  - destruct (is_x_reduced id) eqn:Hx; [apply IH|]. rewrite compact_fill.
    rewrite compact_canonical; [|done|by eapply sign_candidate_low_s]. intros [= <-]. eauto.
  - intros [= <-]. right. f_equal. unfold sign_candidate in Hc.
    destruct retry; simpl in Hc; repeat (apply bind_Err in Hc as [Hc|(? & ? & Hc)]);
      unfold ok_or in Hc; repeat case_match; congruence.
Qed.
End SigningTotal.

(** ** A concrete transaction of the toy backend *)

#[export] Instance wf_unsigned_dec t : Decision (wf_unsigned t).
Proof. unfold wf_unsigned. apply _. Defined.

Definition toy_key : b32 := mk_b32 (replicate 32 x05) eq_refl.
Definition toy_address : bytes := @address_from_public_key toy_keccak toy_k256 toy_key.
Definition toy_network : bytes := replicate 32 x07.
Definition toy_context : AuthenticationContext := mk_context 9 toy_network 1.
Definition toy_unsigned (n v : Z) : UnsignedTransaction :=
  mk_unsigned 2 1 9 toy_network 0 toy_address n (replicate 20 x09) 0 v 1000 0.
Definition toy_sign (n v : Z) : option (result native_error SignedTransaction) :=
  @sign toy_keccak toy_k256 (toy_unsigned n v) toy_key toy_context (fun _ => tt) 1.
Definition toy_signed (n v : Z) : SignedTransaction :=
  mk_signed (toy_unsigned n v) (mk_native_signature (replicate 64 x05 ++ [x00])).
Definition toy_bytes (n v : Z) : bytes := signed_layout (toy_signed n v).

(** ** Properties *)

Section TransactionProperties.
  Context {KE : Keccak} {KC : K256}.

(** The signed-transaction codec is a bijection: a byte string decodes to
    [s] exactly when [s] has the struct's widths, the supported version and
    kind, a canonical low-s signature, and that string is its encoding.  So
    every transaction has one byte form and every accepted byte string is
    re-encoded unchanged. *)
Theorem signed_transaction_codec bs s :
  signed_from_canonical_bytes bs = Ok s <-> wf_signed s /\ signed_canonical_bytes s = Ok bs.
Proof. apply signed_codec_iff. Qed.

(** C32: [authenticate] accepts exactly the V2 transfers of its context: the
    199 bytes are version 2, the context's rules, chain and network, kind 0,
    a 20-byte sender, a nonce below [2^64 - 1], a 20-byte recipient, token 0, a
    128-bit amount, a gas limit of at least 1000, an earliest slot, a low-s
    [r || s] and a parity of 0 or 1; the key recovered from the
    domain-separated digest hashes to the sender; and a claimed id is the
    domain-separated hash of the bytes.  The proof it returns carries exactly
    these fields, that id, digest and key. *)
Theorem authenticate_iff bs c claimed p :
  authenticate bs c claimed = Ok p <->
  exists x key, v2_transfer c x key /\ bs = v2_bytes c x /\
    (claimed = None \/ claimed = Some (v2_id bs)) /\ p = v2_proof c x key.
Proof.
  rewrite authenticate_spec. split.
  - intros H. destruct (accepted_v2 _ _ _ _ H) as (x & key & V & -> & ->). exists x, key.
    split_and!; [done..| |done]. destruct claimed as [i|]; [right|by left].
    by rewrite (au_claim _ _ _ _ H i eq_refl).
  - intros (x & key & V & -> & Hc & ->). by apply v2_accepted.
Qed.

(** A transaction id determines the signed bytes: two authenticated
    objects with one id are the same bytes and the same transaction, unless
    the two id preimages collide under Keccak-256. *)
Theorem transaction_id_binds bs1 bs2 c1 c2 k1 k2 p1 p2 :
  authenticate bs1 c1 k1 = Ok p1 -> authenticate bs2 c2 k2 = Ok p2 ->
  transaction_id p1 = transaction_id p2 ->
  (bs1 = bs2 /\ transaction p1 = transaction p2) \/
  collides (ID_DOMAIN ++ bs1) (ID_DOMAIN ++ bs2).
Proof.
  intros H1%authenticate_spec H2%authenticate_spec Hid.
  destruct (decide (bs1 = bs2)) as [He|Hne].
  - left. split; [done|]. apply (inj (Ok (E := native_error))).
    rewrite <- (proj2 (signed_decode_iff bs1 _) (conj (au_signed _ _ _ _ H1) (au_bytes _ _ _ _ H1))), He.
    apply signed_decode_iff. split; [apply H2|apply (au_bytes _ _ _ _ H2)].
  - right. split; [by intros ?%app_inv_head|].
    by rewrite <- (au_id _ _ _ _ H1), <- (au_id _ _ _ _ H2).
Qed.

Context {KL : K256Laws KC}.

(** Whatever [sign] returns authenticates: its canonical bytes exist,
    pass [authenticate] under the same context, and the authenticated object
    is the signed one, whose payload is the requested payload. *)
Theorem sign_authenticates u key c ent fuel s :
  wf_unsigned u -> sign u key c ent fuel = Some (Ok s) ->
  unsigned s = u /\
  exists bs p, signed_canonical_bytes s = Ok bs /\ authenticate bs c None = Ok p /\
    transaction p = s.
Proof.
  intros Hwf Hs. destruct (sign_authenticates_lemma _ _ _ _ _ _ Hwf Hs) as (? & ? & p & ? & ?).
  split; [done|]. exists (signed_layout s), p. split; [|done]. by apply signed_canonical_bytes_Ok.
Qed.

(** The signing loop ends at the first candidate that is not x-reduced:
    for a payload of the context's profile whose sender is the key's address,
    with fuel for that candidate [sign] returns, and what it returns is a
    signed transaction or a backend signing failure, never a rejected
    signature encoding. *)
Theorem sign_terminates u key c ent fuel n digest :
  validate_profile u c = Ok () -> address_from_public_key (verifying_key key) = sender u ->
  signing_digest u = Ok digest -> (n < fuel)%nat ->
  candidate_stops (sign_candidate key ent digest) n (if n is O then false else true) = true ->
  (exists s, sign u key c ent fuel = Some (Ok s)) \/
  sign u key c ent fuel = Some (Err NativeError.SigningFailed).
Proof.
  intros Hp Ha Hd Hn Hstop. unfold sign. rewrite Hp, (neq_dec_false _ _ Ha), Hd.
  destruct (retry_loop_total NativeSignature_from_bytes _ _ 0 false n Hn Hstop) as [r Hr].
  unfold sign_with_retry. rewrite Hr.
  apply sign_loop_result in Hr as [[s ->]| ->]; [|by right]. left.
  unfold signed_from_parts. unfold validate_profile in Hp. inv_ok.
  exists (mk_signed u s). by match goal with H : validate_layout _ = _ |- _ => rewrite H end.
Qed.
End TransactionProperties.

(** The example transfer is accepted, and is the transfer the bytes spell out. *)
Lemma authenticate_iff_witness :
  exists p x key, @authenticate toy_keccak toy_k256 (toy_bytes 0 5) toy_context None = Ok p /\
    @v2_transfer toy_keccak toy_k256 toy_context x key /\ toy_bytes 0 5 = v2_bytes toy_context x /\
    v2_amount x = value (unsigned (transaction p)).
Proof.
  assert (exists p, @authenticate toy_keccak toy_k256 (toy_bytes 0 5) toy_context None = Ok p) as [p Hp]
    by (eexists; vm_compute; reflexivity).
  destruct (proj1 (@authenticate_iff toy_keccak toy_k256 _ _ _ _) Hp) as (x & key & V & Hb & _ & E).
  exists p, x, key. split; [exact Hp|]. split; [exact V|]. split; [exact Hb|]. rewrite E. reflexivity.
Defined.

Lemma transaction_id_binds_witness :
  exists p, @authenticate toy_keccak toy_k256 (toy_bytes 0 5) toy_context None = Ok p /\
    ((toy_bytes 0 5 = toy_bytes 0 5 /\ transaction p = transaction p) \/
     @collides toy_keccak (ID_DOMAIN ++ toy_bytes 0 5) (ID_DOMAIN ++ toy_bytes 0 5)).
Proof.
  eexists (mk_authenticated _ _ _ _). split.
  - vm_compute; reflexivity.
  - eapply (@transaction_id_binds toy_keccak toy_k256 _ _ toy_context toy_context None None);
      [vm_compute; reflexivity..|reflexivity].
Defined.

Lemma sign_authenticates_witness :
  exists bs p, @signed_canonical_bytes (toy_signed 0 5) = Ok bs /\
    @authenticate toy_keccak toy_k256 bs toy_context None = Ok p.
Proof.
  destruct (@sign_authenticates toy_keccak toy_k256 toy_k256_laws (toy_unsigned 0 5) toy_key
    toy_context (fun _ => tt) 1 (toy_signed 0 5)) as (_ & bs & p & H1 & H2 & _).
  - by_computation.
  - vm_compute; reflexivity.
  - exists bs, p. split; [exact H1|exact H2].
Defined.

Lemma sign_terminates_witness :
  (exists s, toy_sign 0 5 = Some (Ok s)) \/ toy_sign 0 5 = Some (Err NativeError.SigningFailed).
Proof.
  eapply (@sign_terminates toy_keccak toy_k256 toy_k256_laws (toy_unsigned 0 5) toy_key
    toy_context (fun _ => tt) 1 0); [vm_compute; reflexivity..| |].
  - vm_compute. constructor.
  - vm_compute. reflexivity.
Defined.
