(* ===== verification/NativeTransfer.v ===== *)
(** * Native transfer application (src/src/native_transfer.rs)

    The ETX account projection, the primitive transfer, whole-body staging
    and the stage / persist / install path.

    [apply_transfer] is shown to be an ordered list of checks followed by one
    effect; from that follow the width invariant, conservation of ETX (the
    fee of every entry is burned and nothing else leaves the accounts),
    exact gas and burn totals, nonce accounting, replay rejection and the
    atomicity of [apply_body] against an abstract store. *)

From S2P Require Import Prelude Crypto NativeTransaction.

(** ** State *)

Record TransferAccount : Type := mk_account {
  balance_quarks : Z;
  account_nonce : Z
}.

#[export] Instance TransferAccount_eq_dec : EqDecision TransferAccount.
Proof. solve_decision. Defined.

Definition default_account : TransferAccount := mk_account 0 0.

(** The [BTreeMap] of accounts is a finite map; its iteration order is used
    only where a caller lists the accounts. *)
Record TransferState : Type := mk_transfer_state {
  accounts : gmap bytes TransferAccount;
  gas_used_total : Z;
  fees_burned_total : Z
}.

#[export] Instance TransferState_eq_dec : EqDecision TransferState.
Proof. solve_decision. Defined.

Definition account (st : TransferState) (address : bytes) : TransferAccount :=
  default default_account (accounts st !! address).

Record BodyOutcome : Type := mk_outcome {
  transaction_ids : list bytes;
  outcome_gas_used : Z;
  outcome_fees_burned : Z
}.

#[export] Instance BodyOutcome_eq_dec : EqDecision BodyOutcome.
Proof. solve_decision. Defined.

Definition BodyOutcome_default : BodyOutcome := mk_outcome [] 0 0.

Inductive ArithmeticField : Type :=
| CombinedDebit | RecipientBalance | NonceField | TotalGas | TotalBurn | BodyGas | BodyBurn.

#[export] Instance ArithmeticField_eq_dec : EqDecision ArithmeticField.
Proof. solve_decision. Defined.

Module TransferError.
Inductive transfer_error : Type :=
| Authentication (e : native_error)
| UnsupportedKind (k : Z)
| UnsupportedAsset (a : Z)
| UnsupportedRules (r : Z)
| GasBelowIntrinsic (g : Z)
| NonceMismatch (expected actual : Z)
| NotMature (slot valid_after_slot : Z)
| InsufficientCombinedFunds (available required : Z)
| Overflow (f : ArithmeticField).
End TransferError.
Abbreviation transfer_error := TransferError.transfer_error.

#[export] Instance transfer_error_eq_dec : EqDecision transfer_error.
Proof. solve_decision. Defined.

Record BodyError : Type := mk_body_error {
  transaction_index : nat;
  cause : transfer_error
}.

#[export] Instance BodyError_eq_dec : EqDecision BodyError.
Proof. solve_decision. Defined.

Record AppliedBody : Type := mk_applied {
  applied_context : AuthenticationContext;
  applied_slot : Z;
  applied_transactions : list bytes;
  applied_outcome : BodyOutcome
}.

#[export] Instance AppliedBody_eq_dec : EqDecision AppliedBody.
Proof. solve_decision. Defined.

Record StagedBody : Type := mk_staged {
  staged_base : TransferState;
  staged_candidate : TransferState;
  staged_record : AppliedBody
}.

(** ** The primitive transfer *)

Definition overflow (f : ArithmeticField) : transfer_error := TransferError.Overflow f.

(** State and outcome are mutated only after every check has passed, so the
    model returns the new pair or the error. *)
Definition apply_transfer (st : TransferState) (out : BodyOutcome)
    (proof : AuthenticatedTransaction) (slot : Z) :
    result transfer_error (TransferState * BodyOutcome) :=
  let t := unsigned (transaction proof) in
  fail_if (native_rules_version t !=? 1)%Z
    (TransferError.UnsupportedRules (native_rules_version t));;
  fail_if (kind t !=? TRANSFER_KIND) (TransferError.UnsupportedKind (kind t));;
  fail_if (token_id t !=? ETX_TOKEN_ID) (TransferError.UnsupportedAsset (token_id t));;
  fail_if (gas_limit t <? INTRINSIC_GAS)%Z (TransferError.GasBelowIntrinsic (gas_limit t));;
  let s := account st (sender t) in
  fail_if (nonce t !=? account_nonce s)
    (TransferError.NonceMismatch (account_nonce s) (nonce t));;
  fail_if (slot <? valid_after_slot t)%Z (TransferError.NotMature slot (valid_after_slot t));;
  debit ← ok_or (checked_add U128 (value t) TRANSFER_FEE_QUARKS) (overflow CombinedDebit);
  debited ← ok_or (checked_sub (balance_quarks s) debit)
    (TransferError.InsufficientCombinedFunds (balance_quarks s) debit);
  next_nonce ← ok_or (checked_add U64 (account_nonce s) 1) (overflow NonceField);
  '(next_sender, next_recipient) ←
    (if sender t ==? recipient t then
       b ← ok_or (checked_add U128 debited (value t)) (overflow RecipientBalance);
       Ok (mk_account b next_nonce, None)
     else if (value t !=? 0)%Z then
       let r := account st (recipient t) in
       b ← ok_or (checked_add U128 (balance_quarks r) (value t)) (overflow RecipientBalance);
       Ok (mk_account debited next_nonce, Some (mk_account b (account_nonce r)))
     else Ok (mk_account debited next_nonce, None));
  total_gas ← ok_or (checked_add U64 (gas_used_total st) INTRINSIC_GAS) (overflow TotalGas);
  total_burn ← ok_or (checked_add U128 (fees_burned_total st) TRANSFER_FEE_QUARKS)
    (overflow TotalBurn);
  body_gas ← ok_or (checked_add U64 (outcome_gas_used out) INTRINSIC_GAS) (overflow BodyGas);
  body_burn ← ok_or (checked_add U64 (outcome_fees_burned out) TRANSFER_FEE_QUARKS)
    (overflow BodyBurn);
  let m := <[sender t := next_sender]> (accounts st) in
  let m := match next_recipient with Some r => <[recipient t := r]> m | None => m end in
  Ok (mk_transfer_state m total_gas total_burn,
      mk_outcome (transaction_ids out ++ [transaction_id proof]) body_gas body_burn).

(** ** Bodies *)

Section Bodies.
  Context `{KE : Keccak} `{KC : K256}.

(** Every entry is authenticated before any is executed. *)
Fixpoint authenticate_body (context : AuthenticationContext) (index : nat) (body : list bytes) :
    result BodyError (list AuthenticatedTransaction) :=
  match body with
  | [] => Ok []
  | bs :: rest =>
      p ← map_err (fun e => mk_body_error index (TransferError.Authentication e))
            (authenticate bs context None);
      ps ← authenticate_body context (S index) rest;
      Ok (p :: ps)
  end.

Fixpoint execute_body (slot : Z) (index : nat) (proofs : list AuthenticatedTransaction)
    (st : TransferState) (out : BodyOutcome) : result BodyError (TransferState * BodyOutcome) :=
  match proofs with
  | [] => Ok (st, out)
  | p :: rest =>
      '(st', out') ← map_err (mk_body_error index) (apply_transfer st out p slot);
      execute_body slot (S index) rest st' out'
  end.

Definition stage_body (base : TransferState) (context : AuthenticationContext) (slot : Z)
    (body : list bytes) : result BodyError StagedBody :=
  proofs ← authenticate_body context 0 body;
  '(candidate, outcome) ← execute_body slot 0 proofs base BodyOutcome_default;
  Ok (mk_staged base candidate (mk_applied context slot body outcome)).

(** ** Stage, persist, install *)

(** [AtomicBodyStore]: [persist] may change the store and report an error. *)
Class AtomicBodyStore (S E : Type) : Type := {
  persist : S -> TransferState -> TransferState -> AppliedBody -> S * result E ()
}.

(** Its contract: an error leaves the store unchanged. *)
Class AtomicBodyStoreLaws (S E : Type) `{AtomicBodyStore S E} : Prop := {
  persist_err : forall s b c r s' e, persist s b c r = (s', Err e) -> s' = s
}.

Inductive ApplyError (E : Type) : Type :=
| BodyFailed (e : BodyError)
| StaleBase
| Persistence (e : E).
Arguments BodyFailed {E} e.
Arguments StaleBase {E}.
Arguments Persistence {E} e.

Definition commit {S E} `{AtomicBodyStore S E} (sb : StagedBody) (live : TransferState) (store : S) :
    TransferState * S * result (ApplyError E) BodyOutcome :=
  if live !=? staged_base sb then (live, store, Err StaleBase) else
  match persist store (staged_base sb) (staged_candidate sb) (staged_record sb) with
  | (store', Err e) => (live, store', Err (Persistence e))
  | (store', Ok _) => (staged_candidate sb, store', Ok (applied_outcome (staged_record sb)))
  end.

Definition apply_body {S E} `{AtomicBodyStore S E} (live : TransferState)
    (context : AuthenticationContext) (slot : Z) (body : list bytes) (store : S) :
    TransferState * S * result (ApplyError E) BodyOutcome :=
  match stage_body live context slot body with
  | Err e => (live, store, Err (BodyFailed e))
  | Ok sb => commit sb live store
  end.
End Bodies.

(** ** The transfer as an ordered list of checks and one effect *)

Fixpoint first_failure {E} (checks : list (bool * E)) : option E :=
  match checks with
  | [] => None
  | (failed, e) :: rest => if failed then Some e else first_failure rest
  end.

Definition transfer_checks (st : TransferState) (out : BodyOutcome)
    (t : UnsignedTransaction) (slot : Z) : list (bool * transfer_error) :=
  let s := account st (sender t) in
  let r := account st (recipient t) in
  let debit := (value t + TRANSFER_FEE_QUARKS)%Z in
  [ (negb (native_rules_version t =? 1)%Z,
       TransferError.UnsupportedRules (native_rules_version t));
    (negb (kind t =? 0)%Z, TransferError.UnsupportedKind (kind t));
    (negb (token_id t =? 0)%Z, TransferError.UnsupportedAsset (token_id t));
    ((gas_limit t <? 1000)%Z, TransferError.GasBelowIntrinsic (gas_limit t));
    (negb (nonce t =? account_nonce s)%Z,
       TransferError.NonceMismatch (account_nonce s) (nonce t));
    ((slot <? valid_after_slot t)%Z, TransferError.NotMature slot (valid_after_slot t));
    ((U128 <=? debit)%Z, TransferError.Overflow CombinedDebit);
    ((balance_quarks s <? debit)%Z,
       TransferError.InsufficientCombinedFunds (balance_quarks s) debit);
    ((U64 <=? account_nonce s + 1)%Z, TransferError.Overflow NonceField);
    ((if decide (sender t = recipient t)
      then U128 <=? balance_quarks s - debit + value t
      else negb (value t =? 0) && (U128 <=? balance_quarks r + value t))%Z,
       TransferError.Overflow RecipientBalance);
    ((U64 <=? gas_used_total st + 1000)%Z, TransferError.Overflow TotalGas);
    ((U128 <=? fees_burned_total st + 10000)%Z, TransferError.Overflow TotalBurn);
    ((U64 <=? outcome_gas_used out + 1000)%Z, TransferError.Overflow BodyGas);
    ((U64 <=? outcome_fees_burned out + 10000)%Z, TransferError.Overflow BodyBurn) ].

(** What one successful transfer does to the account of any address. *)
Definition account_after (st : TransferState) (t : UnsignedTransaction) (a : bytes) :
    TransferAccount :=
  let old := account st a in
  if decide (a = sender t) then
    mk_account (balance_quarks old - TRANSFER_FEE_QUARKS -
                if decide (sender t = recipient t) then 0 else value t)%Z
      (account_nonce old + 1)
  else if decide (a = recipient t) then
    mk_account (balance_quarks old + value t) (account_nonce old)
  else old.

Record transferred (st : TransferState) (out : BodyOutcome) (p : AuthenticatedTransaction)
    (st' : TransferState) (out' : BodyOutcome) : Prop := {
  tr_accounts : forall a, account st' a = account_after st (unsigned (transaction p)) a;
  tr_gas : gas_used_total st' = (gas_used_total st + 1000)%Z;
  tr_burn : fees_burned_total st' = (fees_burned_total st + 10000)%Z;
  tr_out : out' = mk_outcome (transaction_ids out ++ [transaction_id p])
                    (outcome_gas_used out + 1000) (outcome_fees_burned out + 10000);
  (** only the sender's and the recipient's rows can appear *)
  tr_dom : forall a, accounts st !! a = None -> a <> sender (unsigned (transaction p)) ->
             a <> recipient (unsigned (transaction p)) -> accounts st' !! a = None
}.

Lemma account_insert m g f k v a :
  account (mk_transfer_state (<[k := v]> m) g f) a =
  if decide (a = k) then v else account (mk_transfer_state m g f) a.
Proof.
  unfold account; simpl. case_decide as Hk.
  - subst. by rewrite lookup_insert_eq.
  - by rewrite lookup_insert_ne.
Qed.

Lemma account_accounts m g f g' f' a :
  account (mk_transfer_state m g f) a = account (mk_transfer_state m g' f') a.
Proof. done. Qed.


Lemma neq_dec_eqb (a b : Z) : (a !=? b) = negb (a =? b)%Z.
Proof. case_bool_decide; destruct (Z.eqb_spec a b); done. Qed.

Lemma checked_add_leb w a b : checked_add w a b = if (w <=? a + b)%Z then None else Some (a + b)%Z.
Proof. unfold checked_add. destruct (Z.ltb_spec (a + b) w), (Z.leb_spec w (a + b)); done || lia. Qed.

Lemma checked_sub_ltb a b : checked_sub a b = if (a <? b)%Z then None else Some (a - b)%Z.
Proof. unfold checked_sub. destruct (Z.leb_spec b a), (Z.ltb_spec a b); done || lia. Qed.

Lemma bind_fail_if {E A} (b : bool) (e : E) (k : result E A) :
  (fail_if b e;; k) = if b then Err e else k.
Proof. by destruct b. Qed.

Lemma bind_ok_or_if {E A B} (b : bool) (x : A) (e : E) (k : A -> result E B) :
  (y ← ok_or (if b then None else Some x) e; k y) = if b then Err e else k x.
Proof. by destruct b. Qed.

(** Decides the next guard on both sides of an equation. *)
Ltac guard_step :=
  repeat (progress rewrite ?bind_of_Ok, ?bind_fail_if, ?neq_dec_eqb, ?checked_add_leb,
    ?checked_sub_ltb, ?bind_ok_or_if; lazy beta iota);
  match goal with
  | |- (if ?b then Err _ else _) = _ => destruct b; [reflexivity|]
  | |- (if ?b then Err _ else _) ≫= _ = _ => destruct b; [reflexivity|]
  end; lazy beta iota.

(** The state the last lines of [apply_transfer] build. *)
Definition transfer_state (st : TransferState) (t : UnsignedTransaction) : TransferState :=
  let s := account st (sender t) in
  let r := account st (recipient t) in
  let debited := (balance_quarks s - (value t + TRANSFER_FEE_QUARKS))%Z in
  let nn := (account_nonce s + 1)%Z in
  mk_transfer_state
    (if decide (sender t = recipient t) then
       <[sender t := mk_account (debited + value t) nn]> (accounts st)
     else
       let m := <[sender t := mk_account debited nn]> (accounts st) in
       if (value t =? 0)%Z then m
       else <[recipient t := mk_account (balance_quarks r + value t) (account_nonce r)]> m)
    (gas_used_total st + INTRINSIC_GAS) (fees_burned_total st + TRANSFER_FEE_QUARKS).

Lemma apply_transfer_eq st out p slot :
  let t := unsigned (transaction p) in
  apply_transfer st out p slot =
  match first_failure (transfer_checks st out t slot) with
  | Some e => Err e
  | None => Ok (transfer_state st t,
      mk_outcome (transaction_ids out ++ [transaction_id p])
        (outcome_gas_used out + INTRINSIC_GAS) (outcome_fees_burned out + TRANSFER_FEE_QUARKS))
  end.
Proof.
  intros t. unfold apply_transfer. fold t. cbv zeta.
  unfold transfer_checks, first_failure, transfer_state. cbv zeta.
  unfold INTRINSIC_GAS, TRANSFER_FEE_QUARKS, TRANSFER_KIND, ETX_TOKEN_ID, overflow.
  repeat guard_step.
  case_bool_decide; case_decide; try done; [by repeat guard_step|].
  rewrite ?neq_dec_eqb. destruct (value t =? 0)%Z; simpl; by repeat guard_step.
Qed.

Lemma transfer_state_account st t a :
  account (transfer_state st t) a = account_after st t a.
Proof.
  unfold transfer_state, account_after. cbv zeta.
  destruct (decide (sender t = recipient t)) as [He|Hne].
  - rewrite account_insert. case_decide as Ha.
    + subst. f_equal. lia.
    + by rewrite decide_False by congruence.
  - destruct (Z.eqb_spec (value t) 0) as [Hv|Hv]; rewrite !account_insert;
      repeat case_decide; subst; try done.
    + f_equal. lia.
    + rewrite Hv, Z.add_0_r. unfold account; simpl.
      by destruct (default default_account (accounts st !! recipient t)).
    + f_equal; lia.
Qed.

Lemma apply_transfer_Ok st out p slot st' out' :
  apply_transfer st out p slot = Ok (st', out') ->
  let t := unsigned (transaction p) in
  first_failure (transfer_checks st out t slot) = None /\ st' = transfer_state st t /\
  transferred st out p st' out'.
Proof.
  intros H t. rewrite apply_transfer_eq in H. fold t in H.
  destruct (first_failure _); [done|]. injection H as <- <-.
  split_and!; [done..|]. constructor; try done.
  - intros a. apply transfer_state_account.
  - subst t. intros a Ha Hs Hr. unfold transfer_state; simpl.
    repeat case_match; rewrite ?lookup_insert_ne; congruence.
Qed.

(** ** Total supply *)

Definition balances (m : gmap bytes TransferAccount) : Z :=
  map_fold (fun _ a acc => balance_quarks a + acc)%Z 0%Z m.

(** ETX in accounts plus ETX burned so far. *)
Definition supply (st : TransferState) : Z :=
  (balances (accounts st) + fees_burned_total st)%Z.

Lemma balances_insert_new m k v :
  m !! k = None -> balances (<[k := v]> m) = (balance_quarks v + balances m)%Z.
Proof. intros. unfold balances. rewrite map_fold_insert_L; [done| |done]. intros; lia. Qed.

Lemma balances_insert m k v :
  balances (<[k := v]> m) =
  (balances m - balance_quarks (default default_account (m !! k)) + balance_quarks v)%Z.
Proof.
  destruct (m !! k) as [old|] eqn:Hk; simpl.
  - rewrite <- (insert_delete_id m k old Hk) at 2.
    rewrite <- insert_delete_eq, !balances_insert_new by apply lookup_delete_eq. lia.
  - rewrite balances_insert_new by done. simpl. lia.
Qed.

Lemma transfer_state_balances st t :
  balances (accounts (transfer_state st t)) = (balances (accounts st) - TRANSFER_FEE_QUARKS)%Z.
Proof.
  unfold transfer_state, account. cbv zeta. simpl.
  destruct (decide (sender t = recipient t)) as [He|Hne]; simpl.
  - rewrite balances_insert. simpl. lia.
  - destruct (Z.eqb_spec (value t) 0) as [Hv|Hv]; rewrite !balances_insert;
      rewrite ?lookup_insert_ne by done; simpl; lia.
Qed.

(** ** Width invariant *)

Definition wf_account (a : TransferAccount) : Prop :=
  in_width U128 (balance_quarks a) /\ in_width U64 (account_nonce a).

Definition wf_state (st : TransferState) : Prop :=
  (forall a, wf_account (account st a)) /\
  in_width U64 (gas_used_total st) /\ in_width U128 (fees_burned_total st).

(** The outcome of a body staged so far: every successful entry accounts for
    one id, 1000 gas and 10000 quarks. *)
Definition wf_outcome (out : BodyOutcome) : Prop :=
  outcome_gas_used out = (1000 * Z.of_nat (length (transaction_ids out)))%Z /\
  outcome_fees_burned out = (10000 * Z.of_nat (length (transaction_ids out)))%Z /\
  in_width U64 (outcome_gas_used out) /\ in_width U64 (outcome_fees_burned out).

(** Turns [first_failure _ = None] into one fact per check. *)
Ltac inv_checks :=
  repeat match goal with
  | H : first_failure [] = None |- _ => clear H
  | H : first_failure ((?b, _) :: _) = None |- _ =>
      simpl in H; destruct b eqn:?; [discriminate H|]
  | H : (if ?b then Some _ else _) = None |- _ => destruct b eqn:?; [discriminate H|]
  end.

Lemma checks_None st out t slot :
  first_failure (transfer_checks st out t slot) = None ->
  let s := account st (sender t) in
  nonce t = account_nonce s /\ (valid_after_slot t <= slot)%Z /\
  (value t + 10000 <= balance_quarks s)%Z /\ (account_nonce s + 1 < U64)%Z /\
  (sender t <> recipient t -> value t <> 0%Z ->
     (balance_quarks (account st (recipient t)) + value t < U128)%Z) /\
  (gas_used_total st + 1000 < U64)%Z /\ (fees_burned_total st + 10000 < U128)%Z /\
  (outcome_gas_used out + 1000 < U64)%Z /\ (outcome_fees_burned out + 10000 < U64)%Z.
Proof.
  unfold transfer_checks. cbv zeta. intros H. inv_checks.
  unfold TRANSFER_FEE_QUARKS in *.
  repeat match goal with
  | H : negb _ = false |- _ => apply negb_false_iff, Z.eqb_eq in H
  | H : (_ <=? _)%Z = false |- _ => apply Z.leb_gt in H
  | H : (_ <? _)%Z = false |- _ => apply Z.ltb_ge in H
  end.
  split_and!; try lia. intros Hne Hv. case_decide; [done|].
  match goal with H : (_ && _)%bool = false |- _ =>
    apply andb_false_iff in H as [H%negb_false_iff|H%Z.leb_gt] end; [lia|done].
Qed.

Lemma account_after_wf st out t slot a :
  wf_unsigned t -> wf_state st ->
  first_failure (transfer_checks st out t slot) = None -> wf_account (account_after st t a).
Proof.
  intros Ht [Hacc _] (? & ? & ? & ? & Hcredit & _)%checks_None.
  pose proof (Hacc a) as [Hb Hn]. unfold wf_unsigned in Ht. destruct_and!.
  unfold account_after, wf_account, in_width, TRANSFER_FEE_QUARKS in *. cbv zeta.
  repeat case_decide; subst; simpl; try lia.
  destruct (decide (value t = 0%Z)); [lia|].
  pose proof (Hcredit ltac:(congruence) ltac:(done)). lia.
Qed.

Lemma apply_transfer_wf st out p slot st' out' :
  wf_unsigned (unsigned (transaction p)) -> wf_state st -> wf_outcome out ->
  apply_transfer st out p slot = Ok (st', out') -> wf_state st' /\ wf_outcome out'.
Proof.
  intros Ht Hst Hout (Hc & _ & [Ha Hg Hb -> _])%apply_transfer_Ok.
  pose proof (checks_None _ _ _ _ Hc) as (_ & _ & _ & _ & _ & ? & ? & ? & ?).
  split; [split|].
  - intros a. rewrite Ha. by eapply account_after_wf.
  - rewrite Hg, Hb. destruct Hst as (_ & ? & ?). unfold in_width in *. lia.
  - unfold wf_outcome, in_width in *; simpl. rewrite length_app; simpl. lia.
Qed.

(** ** Bodies *)

Section BodyFacts.
  Context {KE : Keccak} {KC : K256}.

Lemma authenticate_body_Forall2 c i body ps :
  authenticate_body c i body = Ok ps ->
  Forall2 (fun bs p => authenticate bs c None = Ok p) body ps.
Proof.
  revert i ps. induction body as [|bs body IH]; intros i ps H; simpl in H.
  - injection H as <-. constructor.
  - inv_ok. subst. constructor; [done|]. eauto.
Qed.

(** The steps of a body, as a relation: each proof is applied to the state
    its predecessors produced. *)
Inductive runs (slot : Z) : list AuthenticatedTransaction -> TransferState -> BodyOutcome ->
    TransferState -> BodyOutcome -> Prop :=
| runs_nil st out : runs slot [] st out st out
| runs_cons p ps st out st1 out1 st' out' :
    apply_transfer st out p slot = Ok (st1, out1) ->
    runs slot ps st1 out1 st' out' -> runs slot (p :: ps) st out st' out'.

Lemma execute_body_runs slot i ps st out st' out' :
  execute_body slot i ps st out = Ok (st', out') <-> runs slot ps st out st' out'.
Proof.
  split.
  - revert i st out. induction ps as [|p ps IH]; intros i st out H; simpl in H.
    + injection H as <- <-. constructor.
    + apply bind_Ok in H as ([st1 out1] & H1 & H). inv_ok. econstructor; eauto.
  - intros H. revert i. induction H as [|p ps st out st1 out1 st' out' H1 _ IH]; intros i; [done|].
    simpl. rewrite H1. apply IH.
Qed.

(** Rule induction for invariants of a body run. *)
Lemma runs_invariant slot (I : TransferState -> BodyOutcome -> Prop) ps st out st' out' :
  (forall p st out st' out', p ∈ ps -> I st out ->
     apply_transfer st out p slot = Ok (st', out') -> I st' out') ->
  I st out -> runs slot ps st out st' out' -> I st' out'.
Proof.
  intros Hstep H0 H. induction H as [|p ps st out st1 out1 st' out' H1 _ IH]; [done|].
  apply IH.
  - intros q ? ? ? ? Hq. apply Hstep. by right.
  - eapply Hstep; [|done..]. by left.
Qed.

Lemma runs_outcome slot ps st out st' out' :
  runs slot ps st out st' out' ->
  transaction_ids out' = transaction_ids out ++ map transaction_id ps /\
  gas_used_total st' = (gas_used_total st + 1000 * Z.of_nat (length ps))%Z /\
  fees_burned_total st' = (fees_burned_total st + 10000 * Z.of_nat (length ps))%Z /\
  balances (accounts st') = (balances (accounts st) - 10000 * Z.of_nat (length ps))%Z /\
  outcome_gas_used out' = (outcome_gas_used out + 1000 * Z.of_nat (length ps))%Z /\
  outcome_fees_burned out' = (outcome_fees_burned out + 10000 * Z.of_nat (length ps))%Z.
Proof.
  induction 1 as [|p ps st out st1 out1 st' out' H1 _ IH]; cbn [map length].
  - rewrite app_nil_r. split; [done|lia].
  - apply apply_transfer_Ok in H1 as (_ & -> & [_ Hg Hb -> _]).
    destruct IH as (-> & -> & -> & -> & -> & ->). rewrite Hg, Hb, transfer_state_balances.
    unfold TRANSFER_FEE_QUARKS. cbn [transaction_ids outcome_gas_used outcome_fees_burned].
    rewrite <- app_assoc. split; [done|lia].
Qed.

(** Every account's nonce advances by the number of entries it sent. *)
Definition sent_by (a : bytes) (ps : list AuthenticatedTransaction) : nat :=
  length (filter (fun p => sender (unsigned (transaction p)) = a) ps).

Lemma runs_nonces slot ps st out st' out' a :
  runs slot ps st out st' out' ->
  account_nonce (account st' a) = (account_nonce (account st a) + Z.of_nat (sent_by a ps))%Z.
Proof.
  unfold sent_by. induction 1 as [|p ps st out st1 out1 st' out' H1 _ IH]; [simpl; lia|].
  apply apply_transfer_Ok in H1 as (_ & _ & [Ha _ _ _ _]).
  rewrite IH, Ha, filter_cons. unfold account_after. cbv zeta.
  repeat case_decide; subst; simpl; try congruence; lia.
Qed.

Record staged (base : TransferState) (c : AuthenticationContext) (slot : Z) (body : list bytes)
    (sb : StagedBody) (ps : list AuthenticatedTransaction) : Prop := {
  st_auth : Forall2 (fun bs p => authenticate bs c None = Ok p) body ps;
  st_runs : runs slot ps base BodyOutcome_default (staged_candidate sb)
              (applied_outcome (staged_record sb));
  st_base : staged_base sb = base;
  st_record : staged_record sb = mk_applied c slot body (applied_outcome (staged_record sb))
}.

Lemma stage_body_Ok base c slot body sb :
  stage_body base c slot body = Ok sb -> exists ps, staged base c slot body sb ps.
Proof.
  unfold stage_body. intros H. apply bind_Ok in H as (ps & Hps & H).
  apply bind_Ok in H as ([cand out] & Hex & H). injection H as <-.
  exists ps. constructor; simpl; [by eapply authenticate_body_Forall2| |done..].
  by eapply execute_body_runs.
Qed.

Lemma authenticate_wf bs c claimed p :
  authenticate bs c claimed = Ok p -> wf_unsigned (unsigned (transaction p)).
Proof. intros [Hs _ _ _ _ _]%authenticate_spec. apply Hs. Qed.

Lemma wf_outcome_default : wf_outcome BodyOutcome_default.
Proof. unfold wf_outcome, in_width; simpl. lia. Qed.

Lemma staged_wf base c slot body sb ps :
  wf_state base -> staged base c slot body sb ps ->
  wf_state (staged_candidate sb) /\ wf_outcome (applied_outcome (staged_record sb)).
Proof.
  intros Hwf [Hauth Hruns _ _].
  eapply (runs_invariant slot (fun st out => wf_state st /\ wf_outcome out)); [| |exact Hruns].
  - intros p st out st' out' Hp [Hst Hout]. apply apply_transfer_wf; [|done..].
    apply list_elem_of_lookup in Hp as [i Hi].
    destruct (Forall2_lookup_r _ _ _ _ _ Hauth Hi) as (bs & _ & Hb).
    by eapply authenticate_wf.
  - split; [done|apply wf_outcome_default].
Qed.

Lemma authenticate_body_ok c i body ps :
  Forall2 (fun bs p => authenticate bs c None = Ok p) body ps ->
  authenticate_body c i body = Ok ps.
Proof.
  intros H. revert i. induction H as [|bs p body ps Hb _ IH]; intros i; [done|].
  simpl. rewrite Hb. simpl. by rewrite IH.
Qed.
End BodyFacts.

(** ** Reachable states and replays *)

Section Replay.
  Context {KE : Keccak} {KC : K256}.

(** States reached from [st] by staging and installing bodies, under any
    contexts and slots. *)
Inductive reachable (st : TransferState) : TransferState -> Prop :=
| reach_refl : reachable st st
| reach_step st1 c slot body sb :
    reachable st st1 -> stage_body st1 c slot body = Ok sb -> reachable st (staged_candidate sb).

Lemma runs_nonce_mono slot ps st out st' out' a :
  runs slot ps st out st' out' ->
  (account_nonce (account st a) <= account_nonce (account st' a))%Z.
Proof. intros H. rewrite (runs_nonces _ _ _ _ _ _ a H). lia. Qed.

Lemma reachable_nonce_mono st st' a :
  reachable st st' -> (account_nonce (account st a) <= account_nonce (account st' a))%Z.
Proof.
  induction 1 as [|st1 c slot body sb _ IH Hs]; [lia|].
  apply stage_body_Ok in Hs as (ps & [_ Hr _ _]).
  pose proof (runs_nonce_mono _ _ _ _ _ _ a Hr). lia.
Qed.

(** An executed entry found the account at its nonce and left it past it. *)
Lemma runs_split slot ps st out st' out' p :
  p ∈ ps -> runs slot ps st out st' out' ->
  let t := unsigned (transaction p) in
  (account_nonce (account st (sender t)) <= nonce t
     < account_nonce (account st' (sender t)))%Z.
Proof.
  intros Hp H. induction H as [|q ps st out st1 out1 st' out' H1 Hr IH];
    [by apply not_elem_of_nil in Hp|]. cbv zeta.
  pose proof (runs_nonce_mono slot [q] _ _ _ _ (sender (unsigned (transaction p)))
    (runs_cons _ _ _ _ _ _ _ _ _ H1 (runs_nil _ _ _))) as Hm.
  apply elem_of_cons in Hp as [->|Hp]; [|specialize (IH Hp); cbv zeta in IH; lia].
  apply apply_transfer_Ok in H1 as (Hc & _ & [Ha _ _ _ _]).
  pose proof (checks_None _ _ _ _ Hc) as (Hn & _). cbv zeta in Hn.
  pose proof (runs_nonce_mono _ _ _ _ _ _ (sender (unsigned (transaction q))) Hr) as Hm'.
  rewrite Ha in Hm'. unfold account_after in Hm'. rewrite decide_True in Hm' by done.
  simpl in Hm'. lia.
Qed.

Lemma authenticate_same_payload bs c c' k k' p p' :
  authenticate bs c k = Ok p -> authenticate bs c' k' = Ok p' -> transaction p = transaction p'.
Proof.
  intros [H1 E1 _ _ _ _]%authenticate_spec [H2 E2 _ _ _ _]%authenticate_spec.
  apply (inj (Ok (E := native_error))).
  rewrite <- (proj2 (signed_decode_iff bs _) (conj H1 E1)). by apply signed_decode_iff.
Qed.

Lemma staged_nonce base c slot body sb ps bs :
  staged base c slot body sb ps -> bs ∈ body ->
  exists p, p ∈ ps /\ authenticate bs c None = Ok p /\
    let t := unsigned (transaction p) in
    (account_nonce (account base (sender t)) <= nonce t
       < account_nonce (account (staged_candidate sb) (sender t)))%Z.
Proof.
  intros [Ha Hr _ _] [i Hi]%list_elem_of_lookup.
  destruct (Forall2_lookup_l _ _ _ _ _ Ha Hi) as (p & Hp & Hauth).
  apply list_elem_of_lookup_2 in Hp. exists p. split_and!; [done..|]. by eapply runs_split.
Qed.

Lemma replay_lemma base c slot body sb st c' slot' body' bs :
  stage_body base c slot body = Ok sb -> bs ∈ body ->
  reachable (staged_candidate sb) st -> bs ∈ body' ->
  exists e, stage_body st c' slot' body' = Err e.
Proof.
  intros Hs Hb Hreach Hb'. destruct (stage_body st c' slot' body') as [sb'|e] eqn:Hs'; [|eauto].
  apply stage_body_Ok in Hs as (ps & Hs), Hs' as (ps' & Hs').
  destruct (staged_nonce _ _ _ _ _ _ _ Hs Hb) as (p & _ & Hp & Hn).
  destruct (staged_nonce _ _ _ _ _ _ _ Hs' Hb') as (p' & _ & Hp' & Hn').
  rewrite (authenticate_same_payload _ _ _ _ _ _ _ Hp Hp') in Hn. cbv zeta in *.
  pose proof (reachable_nonce_mono _ _ (sender (unsigned (transaction p'))) Hreach). lia.
Qed.

Lemma runs_app slot ps qs st out st' out' :
  runs slot (ps ++ qs) st out st' out' <->
  exists st1 out1, runs slot ps st out st1 out1 /\ runs slot qs st1 out1 st' out'.
Proof.
  split.
  - revert st out. induction ps as [|p ps IH]; intros st out H; simpl in H.
    + exists st, out. split; [constructor|done].
    + inversion H as [|? ? ? ? st1 out1 ? ? H1 Hr]; subst.
      destruct (IH _ _ Hr) as (st2 & out2 & Ha & Hb). exists st2, out2. split; [|done].
      by econstructor.
  - intros (st1 & out1 & Ha & Hb). induction Ha as [|p ps st out st2 out2 st1 out1 H1 _ IH]; [done|].
    simpl. econstructor; [done|]. auto.
Qed.

Lemma body_nodup base c slot body sb : stage_body base c slot body = Ok sb -> NoDup body.
Proof.
  intros (ps & Hs)%stage_body_Ok. apply NoDup_alt. intros i j bs Hi Hj.
  destruct (decide (i = j)) as [|Hij]; [done|exfalso].
  assert (exists i j, (i < j)%nat /\ body !! i = Some bs /\ body !! j = Some bs)
    as (a & b & Hab & Ha & Hb)
    by (destruct (Nat.lt_total i j) as [?|[?|?]]; [exists i, j|done|exists j, i]; done).
  clear i j Hi Hj Hij. destruct Hs as [Hauth Hr _ _].
  destruct (Forall2_lookup_l _ _ _ _ _ Hauth Ha) as (p & Hp & Ap).
  destruct (Forall2_lookup_l _ _ _ _ _ Hauth Hb) as (q & Hq & Aq).
  assert (p = q) as <- by congruence.
  rewrite <- (take_drop b ps) in Hr. apply runs_app in Hr as (st1 & out1 & H1 & H2).
  assert (p ∈ take b ps) as Hin1.
  { apply (list_elem_of_lookup_2 _ a). by rewrite lookup_take_lt. }
  assert (p ∈ drop b ps) as Hin2.
  { apply (list_elem_of_lookup_2 _ 0). by rewrite lookup_drop, Nat.add_0_r. }
  pose proof (runs_split _ _ _ _ _ _ _ Hin1 H1). pose proof (runs_split _ _ _ _ _ _ _ Hin2 H2).
  cbv zeta in *. lia.
Qed.
End Replay.

(** ** Which entry is reported *)

Section Errors.
  Context {KE : Keccak} {KC : K256}.

(** Entry [i] is the first whose bytes do not authenticate. *)
Definition auth_fails (c : AuthenticationContext) (body : list bytes) (i : nat) (e : native_error) :
    Prop :=
  exists bs ps, body !! i = Some bs /\ authenticate bs c None = Err e /\
    Forall2 (fun bs p => authenticate bs c None = Ok p) (take i body) ps.

(** Every entry authenticates, the first [i] apply, entry [i] does not. *)
Definition execution_fails (base : TransferState) (c : AuthenticationContext) (slot : Z)
    (body : list bytes) (i : nat) (e : transfer_error) : Prop :=
  exists ps p st out,
    Forall2 (fun bs p => authenticate bs c None = Ok p) body ps /\ ps !! i = Some p /\
    runs slot (take i ps) base BodyOutcome_default st out /\
    apply_transfer st out p slot = Err e.

Lemma authenticate_body_Err c k body e :
  authenticate_body c k body = Err e ->
  exists i err, auth_fails c body i err /\
    e = mk_body_error (k + i) (TransferError.Authentication err).
Proof.
  revert k. induction body as [|bs body IH]; intros k H; simpl in H; [done|].
  destruct (authenticate bs c None) as [p|err] eqn:Hb; simpl in H.
  - apply bind_Err in H as [H|(? & ? & ?)]; [|done].
    apply IH in H as (i & err & (bs' & ps & Hi & Ha & Hall) & ->).
    exists (S i), err. split; [|f_equal; lia]. exists bs', (p :: ps). simpl. auto using Forall2_cons_2.
  - injection H as <-. exists 0%nat, err. split; [|f_equal; lia].
    exists bs, []. simpl. auto using Forall2_nil_2.
Qed.

Lemma execute_body_Err slot k ps st out e :
  execute_body slot k ps st out = Err e ->
  exists i p st' out' cause, ps !! i = Some p /\ runs slot (take i ps) st out st' out' /\
    apply_transfer st' out' p slot = Err cause /\ e = mk_body_error (k + i) cause.
Proof.
  revert k st out. induction ps as [|p ps IH]; intros k st out H; simpl in H; [done|].
  destruct (apply_transfer st out p slot) as [[st1 out1]|cause] eqn:Hp; simpl in H.
  - apply IH in H as (i & q & st' & out' & cause & Hi & Hr & Hq & ->).
    exists (S i), q, st', out', cause. simpl. split_and!; [done| |done|f_equal; lia].
    by econstructor.
  - injection H as <-. exists 0%nat, p, st, out, cause. simpl. split_and!; [done| |done|f_equal; lia].
    constructor.
Qed.

Lemma stage_body_Err base c slot body e :
  stage_body base c slot body = Err e ->
  (exists err, auth_fails c body (transaction_index e) err /\
     cause e = TransferError.Authentication err) \/
  execution_fails base c slot body (transaction_index e) (cause e).
Proof.
  unfold stage_body. intros [H|(ps & Hps & H)]%bind_Err.
  - left. apply authenticate_body_Err in H as (i & err & ? & ->). simpl. eauto.
  - right. apply bind_Err in H as [H|([] & ? & ?)]; [|done].
    apply execute_body_Err in H as (i & p & st & out & cause & ? & ? & ? & ->). simpl.
    exists ps, p, st, out. split_and!; try done. by eapply authenticate_body_Forall2.
Qed.
End Errors.

(** ** A concrete state and body *)

Definition toy_state : TransferState :=
  mk_transfer_state {[ toy_address := mk_account 100000 0 ]} 0 0.
Definition toy_body : list bytes := [toy_bytes 0 5; toy_bytes 1 0].
Definition toy_stage (st : TransferState) (body : list bytes) : result BodyError StagedBody :=
  @stage_body toy_keccak toy_k256 st toy_context 3 body.
Definition toy_staged : StagedBody :=
  match toy_stage toy_state toy_body with
  | Ok sb => sb
  | Err _ => mk_staged toy_state toy_state (mk_applied toy_context 3 [] BodyOutcome_default)
  end.

Lemma toy_stage_ok : toy_stage toy_state toy_body = Ok toy_staged.
Proof. vm_compute. reflexivity. Qed.

Lemma toy_state_wf : wf_state toy_state.
Proof.
  split; [|split; by_computation]. intros a. unfold account, toy_state; simpl.
  destruct (decide (a = toy_address)) as [->|Hne].
  - rewrite lookup_singleton_eq. split; by_computation.
  - rewrite lookup_singleton_ne by done. split; by_computation.
Qed.

(** A store that keeps every record it is given, and its law. *)
Definition toy_store : AtomicBodyStore (list AppliedBody) False :=
  {| persist s _ _ r := (r :: s, Ok ()) |}.

Lemma toy_store_laws : @AtomicBodyStoreLaws _ _ toy_store.
Proof. constructor. by intros ? ? ? ? ? []. Qed.

(** ** Properties *)

Section TransferProperties.
  Context {KE : Keccak} {KC : K256}.

(** C28: [apply_transfer] reports the first failing check of the ordered list
    (profile, nonce, maturity, funds, overflows) and otherwise has exactly
    one effect: every address ends with the account [account_after] gives,
    the totals grow by the fixed gas and fee, the outcome gains the id, and
    no row appears for any other address. *)
Theorem apply_transfer_correct st out p slot :
  let checks := transfer_checks st out (unsigned (transaction p)) slot in
  match apply_transfer st out p slot with
  | Err e => first_failure checks = Some e
  | Ok (st', out') => first_failure checks = None /\ transferred st out p st' out'
  end.
Proof.
  intros checks. destruct (apply_transfer st out p slot) as [[st' out']|e] eqn:H.
  - apply apply_transfer_Ok in H as (? & _ & ?). done.
  - rewrite apply_transfer_eq in H. fold checks in H.
    destruct (first_failure checks); congruence.
Qed.

(** C26: a staged body conserves ETX: account balances lose exactly the fees,
    burned totals gain exactly them, so balances plus burns never change; gas
    and burn outcomes are 1,000 and 10,000 per entry, the record is the exact
    body, and the ids are the authenticated ids in body order. *)
Theorem stage_body_conserves base c slot body sb :
  stage_body base c slot body = Ok sb ->
  let n := Z.of_nat (length body) in
  let st := staged_candidate sb in
  let out := applied_outcome (staged_record sb) in
  supply st = supply base /\
  balances (accounts st) = (balances (accounts base) - 10000 * n)%Z /\
  gas_used_total st = (gas_used_total base + 1000 * n)%Z /\
  outcome_gas_used out = (1000 * n)%Z /\ outcome_fees_burned out = (10000 * n)%Z /\
  applied_transactions (staged_record sb) = body /\
  Forall2 (fun bs i => exists p, authenticate bs c None = Ok p /\ i = transaction_id p)
    body (transaction_ids out).
Proof.
  intros (ps & [Ha Hr _ Hrec])%stage_body_Ok. cbv zeta.
  pose proof (runs_outcome _ _ _ _ _ _ Hr) as (Hids & Hg & Hb & Hbal & Hog & Hob).
  rewrite (Forall2_length _ _ _ Ha), Hog, Hob.
  unfold supply. rewrite Hg, Hb, Hbal, Hids, Hrec. simpl. split_and!; try done; try lia.
  apply Forall2_fmap_r. eapply Forall2_impl; [exact Ha|]. simpl. eauto.
Qed.

(** C33: the machine widths are an invariant: from a state whose balances,
    nonces and totals fit their Rust types every staged candidate fits them
    too, and the body outcome fits [u64]; nothing wraps. *)
Theorem stage_body_widths base c slot body sb :
  wf_state base -> stage_body base c slot body = Ok sb ->
  wf_state (staged_candidate sb) /\ wf_outcome (applied_outcome (staged_record sb)).
Proof. intros Hwf (ps & Hs)%stage_body_Ok. by eapply staged_wf. Qed.

(** C27: no replay: once a body containing the signed bytes [bs] has been
    staged, no state reached from its candidate accepts a body that contains
    [bs] again, under any context and slot; and a staged body never contains
    the same bytes twice. *)
Theorem no_replay base c slot body sb st c' slot' body' bs :
  stage_body base c slot body = Ok sb -> bs ∈ body ->
  reachable (staged_candidate sb) st -> bs ∈ body' ->
  NoDup body /\ exists e, stage_body st c' slot' body' = Err e.
Proof. intros Hs ? ? ?. split; [by eapply body_nodup|]. by eapply replay_lemma. Qed.

(** The reported error: a body is rejected either at the first entry
    that does not authenticate (before anything is executed) or, when all
    authenticate, at the first entry whose transfer fails on the state its
    predecessors produced; the index and cause are that entry's. *)
Theorem stage_body_error base c slot body e :
  stage_body base c slot body = Err e ->
  (exists err, auth_fails c body (transaction_index e) err /\
     cause e = TransferError.Authentication err) \/
  execution_fails base c slot body (transaction_index e) (cause e).
Proof. apply stage_body_Err. Qed.

(** [apply_body] is atomic against any store that keeps its contract: an
    error leaves both the live state and the store as they were, and success
    installs exactly the staged candidate after the store accepted that
    candidate with its base and record. *)
Theorem apply_body_atomic {S E} `{SL : AtomicBodyStoreLaws S E} live c slot body (store : S) :
  match apply_body live c slot body store with
  | (live', store', Err _) => live' = live /\ store' = store
  | (live', store', Ok out) =>
      exists sb, stage_body live c slot body = Ok sb /\ live' = staged_candidate sb /\
        out = applied_outcome (staged_record sb) /\
        persist store live live' (staged_record sb) = (store', Ok ())
  end.
Proof.
  unfold apply_body, commit. destruct (stage_body live c slot body) as [sb|e] eqn:Hs; [|done].
  pose proof (stage_body_Ok _ _ _ _ _ Hs) as (ps & [_ _ Hb _]).
  rewrite (neq_dec_false live) by done. rewrite Hb.
  destruct (persist store live _ _) as [store' [[]|e]] eqn:Hp.
  - exists sb. done.
  - split; [done|]. by eapply persist_err.
Qed.
End TransferProperties.

Lemma stage_body_conserves_witness :
  supply (staged_candidate toy_staged) = supply toy_state.
Proof.
  exact (proj1 (@stage_body_conserves toy_keccak toy_k256 toy_state toy_context 3 toy_body
    toy_staged toy_stage_ok)).
Defined.

Lemma stage_body_widths_witness :
  wf_state (staged_candidate toy_staged) /\ wf_outcome (applied_outcome (staged_record toy_staged)).
Proof.
  exact (@stage_body_widths toy_keccak toy_k256 toy_state toy_context 3 toy_body
    toy_staged toy_state_wf toy_stage_ok).
Defined.

Lemma no_replay_witness :
  NoDup toy_body /\ exists e, toy_stage (staged_candidate toy_staged) toy_body = Err e.
Proof.
  apply (@no_replay toy_keccak toy_k256 toy_state toy_context 3 toy_body toy_staged
    (staged_candidate toy_staged) toy_context 3 toy_body (toy_bytes 0 5) toy_stage_ok).
  - left.
  - apply reach_refl.
  - left.
Defined.

Lemma stage_body_error_witness :
  let e := mk_body_error 0 (TransferError.NonceMismatch 2 0) in
  (exists err, @auth_fails toy_keccak toy_k256 toy_context toy_body (transaction_index e) err /\
     cause e = TransferError.Authentication err) \/
  @execution_fails toy_keccak toy_k256 (staged_candidate toy_staged) toy_context 3 toy_body
    (transaction_index e) (cause e).
Proof.
  apply (@stage_body_error toy_keccak toy_k256). vm_compute. reflexivity.
Defined.

Lemma apply_body_atomic_witness :
  match @apply_body toy_keccak toy_k256 _ _ toy_store toy_state toy_context 3 toy_body [] with
  | (live', store', Err _) => live' = toy_state /\ store' = []
  | (live', store', Ok out) =>
      exists sb, @stage_body toy_keccak toy_k256 toy_state toy_context 3 toy_body = Ok sb /\ live' = staged_candidate sb /\
        out = applied_outcome (staged_record sb) /\
        @persist _ _ toy_store [] toy_state live' (staged_record sb) = (store', Ok ())
  end.
Proof.
  exact (@apply_body_atomic toy_keccak toy_k256 _ _ toy_store toy_store_laws toy_state toy_context
    3%Z toy_body []).
Defined.
