(* ===== verification/NativeBlock.v ===== *)
(** * Experimental native blocks (src/src/native_block.rs)

    The wire-2 envelope of an unsigned block: a claimed hash, the 229-byte
    header, the proposer text, ten bytes of protocol data and up to 3000
    signed transactions; its bounded decoder, the structural preflight and
    the producer-side constructor.

    The theorems show that the wire codec is a bijection onto the bounded
    blocks, that preflight is exactly its list of structural conditions, and
    that a block built from a staged body is accepted and matches its
    outcome. *)

From S2P Require Import Prelude Codec Crypto BlockCommitment NativeTransaction NativeTransfer.

Definition EXPERIMENTAL_WIRE_VERSION : Z := 2.
Definition EXPERIMENTAL_HEADER_PROFILE : Z := 2.
Definition MAX_TRANSACTIONS : Z := 3000.
Definition MAX_GAS : Z := 16000000.
Definition MAX_PROPOSER_BYTES : Z := 256.
Definition MAX_WIRE_BYTES : Z :=
  288 + MAX_PROPOSER_BYTES + (4 + Z.of_nat SIGNED_LEN) * MAX_TRANSACTIONS.

Module BlockError.
Inductive block_error : Type :=
| Frame (reason : string) (position : option Z)
| Profile
| Chain
| Kind
| Proposer
| Ticket
| StateRoot
| ReceiptRoot
| GasCap
| ProtocolData
| ClaimedHash
| ProtocolRoot
| TransactionRoot
| StagedIdentity
| ActualGas
| ActualBurn.
End BlockError.
Abbreviation block_error := BlockError.block_error.

#[export] Instance block_error_eq_dec : EqDecision block_error.
Proof. solve_decision. Defined.

Definition frame (reason : string) (position : option Z) : block_error :=
  BlockError.Frame reason position.

Record NativeBlock : Type := mk_native_block {
  nb_header : BlockHeader;
  nb_claimed_hash : bytes;
  nb_proposer : bytes;
  nb_protocol_data : ProtocolData;
  nb_transactions : list bytes
}.

#[export] Instance NativeBlock_eq_dec : EqDecision NativeBlock.
Proof. solve_decision. Defined.

(** ** Wire form *)

Definition entry_bytes (tx : bytes) : bytes := be_bytes 4 (Z.of_nat SIGNED_LEN) ++ tx.

Definition NativeBlock_wire_bytes (b : NativeBlock) : bytes :=
  let pd := ProtocolData_canonical_bytes (nb_protocol_data b) in
  be_bytes 1 EXPERIMENTAL_WIRE_VERSION ++ nb_claimed_hash b ++
  BlockHeader_canonical_bytes (nb_header b) ++
  be_bytes 4 (Z.of_nat (length (nb_proposer b))) ++ nb_proposer b ++
  be_bytes 4 (Z.of_nat (length pd)) ++ pd ++
  be_bytes 8 (Z.of_nat (length (nb_transactions b))) ++
  concat (map entry_bytes (nb_transactions b)).

(** [Decoder::take] and [Decoder::field] with their error position. *)
Definition b_take (pos : option Z) (len : Z) : parser block_error bytes :=
  p_take (frame "offset overflow" pos) (frame "truncation" pos) len.
Definition b_field (pos : option Z) (n : nat) : parser block_error bytes :=
  p_field (frame "offset overflow" pos) (frame "truncation" pos) n.
Definition b_uint (pos : option Z) (n : nat) : parser block_error Z :=
  p_uint (frame "offset overflow" pos) (frame "truncation" pos) n.

(** One round of the body loop at position [i]. *)
Definition block_entry (i : nat) : parser block_error bytes :=
  len ← b_uint (Some (Z.of_nat i)) 4;
  p_lift (fail_if (len !=? Z.of_nat SIGNED_LEN) (frame "signed length" (Some (Z.of_nat i))));;
  b_field (Some (Z.of_nat i)) SIGNED_LEN.

(** The declared body must fit in the remaining bytes before it is read. *)
Definition body_fits (body_size remaining : Z) : result block_error () :=
  fail_if (remaining <? body_size)%Z
    (frame "truncated body" (Some (remaining / (4 + Z.of_nat SIGNED_LEN))%Z)).

Definition block_fields : parser block_error NativeBlock :=
  version ← b_uint None 1;
  p_lift (fail_if (version !=? EXPERIMENTAL_WIRE_VERSION) (frame "wire version" None));;
  claimed_hash ← b_field None 32;
  header_bytes ← b_take None (Z.of_nat BLOCK_HEADER_LEN);
  header ← p_lift (ok_or (BlockHeader_from_canonical_bytes header_bytes) (frame "header" None));
  len ← b_uint None 4;
  p_lift (fail_if (MAX_PROPOSER_BYTES <? len)%Z (frame "proposer length" None));;
  proposer ← b_take None len;
  p_lift (fail_if (negb (utf8_valid proposer)) (frame "proposer UTF-8" None));;
  data_len ← b_uint None 4;
  p_lift (fail_if (data_len !=? 10)%Z (frame "protocol data length" None));;
  data_bytes ← b_take None 10;
  protocol_data ← p_lift (ok_or (ProtocolData_from_canonical_bytes data_bytes)
    (frame "protocol data" None));
  count ← b_uint None 8;
  p_lift (fail_if (MAX_TRANSACTIONS <? count)%Z (frame "transaction count" None));;
  body_size ← p_lift (ok_or (checked_mul U64 count (4 + Z.of_nat SIGNED_LEN))
    (frame "body size overflow" None));
  p_guard (body_fits body_size);;
  transactions ← p_repeat (Z.to_nat count) 0 block_entry;
  mret (mk_native_block header claimed_hash proposer protocol_data transactions).

Definition NativeBlock_from_wire_bytes (bs : bytes) : result block_error NativeBlock :=
  if (MAX_WIRE_BYTES <? Z.of_nat (length bs))%Z then Err (frame "envelope size" None) else
  match block_fields (decoder bs) with
  | Ok (b, d) => if finished d then Ok b else Err (frame "trailing bytes" None)
  | Err e => Err e
  end.

(** ** Construction and checks *)

Section Blocks.
  Context `{KE : Keccak}.

Definition NativeBlock_from_parts (header : BlockHeader) (proposer : bytes)
    (protocol_data : ProtocolData) (transactions : list bytes) :
    result block_error NativeBlock :=
  fail_if (MAX_PROPOSER_BYTES <? Z.of_nat (length proposer))%Z (frame "proposer length" None);;
  fail_if (if missed_proposer protocol_data is Some _ then true else false)
    (frame "protocol data length" None);;
  fail_if (MAX_TRANSACTIONS <? Z.of_nat (length transactions))%Z
    (frame "transaction count" None);;
  Ok (mk_native_block header (BlockHeader_hash header) proposer protocol_data transactions).

Definition NativeBlock_hash (b : NativeBlock) : bytes := BlockHeader_hash (nb_header b).

Definition NativeBlock_preflight (b : NativeBlock) (c : AuthenticationContext) :
    result block_error (list bytes) :=
  let h := nb_header b in
  fail_if (protocol_version h !=? EXPERIMENTAL_HEADER_PROFILE) BlockError.Profile;;
  fail_if (chain_id h !=? ctx_chain_id c) BlockError.Chain;;
  fail_if (block_kind h !=? Validator) BlockError.Kind;;
  fail_if ((nb_proposer b ==? []) || (nb_proposer b ==? str "protocol") ||
           (proposer_id_field h ==? zeros 32) ||
           (proposer_id_field h !=? proposer_id (nb_proposer b))) BlockError.Proposer;;
  fail_if (ticket_id h ==? 0)%Z BlockError.Ticket;;
  fail_if (state_root h !=? PLACEHOLDER_STATE_ROOT) BlockError.StateRoot;;
  fail_if (receipts_root h !=? EMPTY_RECEIPTS_ROOT) BlockError.ReceiptRoot;;
  fail_if (MAX_GAS <? gas_used h)%Z BlockError.GasCap;;
  fail_if (if missed_proposer (nb_protocol_data b) is Some _ then true else false)
    BlockError.ProtocolData;;
  fail_if (nb_claimed_hash b !=? NativeBlock_hash b) BlockError.ClaimedHash;;
  fail_if (protocol_data_root h !=? ProtocolData_root (nb_protocol_data b))
    BlockError.ProtocolRoot;;
  let ids := map (hash_with_domain ID_DOMAIN) (nb_transactions b) in
  fail_if (Some (transaction_root h) !=? ordered_transaction_root ids)
    BlockError.TransactionRoot;;
  Ok ids.

Definition NativeBlock_build (c : AuthenticationContext) (slot : Z) (parent proposer : bytes)
    (ticket : Z) (transactions : list bytes) (outcome : BodyOutcome) :
    result block_error NativeBlock :=
  let protocol_data := mk_protocol_data None (outcome_fees_burned outcome) in
  root ← ok_or (ordered_transaction_root (transaction_ids outcome)) (frame "count width" None);
  let header := mk_header EXPERIMENTAL_HEADER_PROFILE (ctx_chain_id c) slot Validator parent
    (proposer_id proposer) ticket root PLACEHOLDER_STATE_ROOT EMPTY_RECEIPTS_ROOT
    (outcome_gas_used outcome) (ProtocolData_root protocol_data) in
  block ← NativeBlock_from_parts header proposer protocol_data transactions;
  NativeBlock_preflight block c;;
  Ok block.

Definition NativeBlock_empty_fixture_anchor (c : AuthenticationContext) (slot : Z)
    (parent proposer : bytes) (ticket : Z) : result block_error NativeBlock :=
  NativeBlock_build c slot parent proposer ticket [] BodyOutcome_default.

Definition NativeBlock_match_outcome (b : NativeBlock) (bs : list bytes) (ids : list bytes)
    (outcome : BodyOutcome) : result block_error () :=
  fail_if ((bs !=? nb_transactions b) || (ids !=? transaction_ids outcome))
    BlockError.StagedIdentity;;
  fail_if (gas_used (nb_header b) !=? outcome_gas_used outcome) BlockError.ActualGas;;
  fail_if (fees_burned (nb_protocol_data b) !=? outcome_fees_burned outcome)
    BlockError.ActualBurn.
End Blocks.

(** ** Wire codec *)

(** The widths of the struct and the bounds of the envelope. *)
Definition wf_block (b : NativeBlock) : Prop :=
  wf_header (nb_header b) /\ length (nb_claimed_hash b) = 32%nat /\
  (Z.of_nat (length (nb_proposer b)) <= MAX_PROPOSER_BYTES)%Z /\
  utf8_valid (nb_proposer b) = true /\
  missed_proposer (nb_protocol_data b) = None /\
  in_width U64 (fees_burned (nb_protocol_data b)) /\
  (Z.of_nat (length (nb_transactions b)) <= MAX_TRANSACTIONS)%Z /\
  Forall (fun tx => length tx = SIGNED_LEN) (nb_transactions b).

Lemma length_entries txs :
  Forall (fun tx => length tx = SIGNED_LEN) txs ->
  Z.of_nat (length (concat (map entry_bytes txs))) = (203 * Z.of_nat (length txs))%Z.
Proof.
  induction 1 as [|tx txs Hx _ IH]; [done|]. cbn [map concat].
  rewrite length_app. unfold entry_bytes at 1. rewrite length_app, length_be_bytes, Hx.
  change SIGNED_LEN with 199%nat. simpl length. lia.
Qed.

Lemma protocol_data_none p :
  missed_proposer p = None -> p = mk_protocol_data None (fees_burned p).
Proof. destruct p; simpl. by intros ->. Qed.

Lemma length_block_wire b :
  wf_block b ->
  Z.of_nat (length (NativeBlock_wire_bytes b)) =
  (288 + Z.of_nat (length (nb_proposer b)) + 203 * Z.of_nat (length (nb_transactions b)))%Z.
Proof.
  intros (Hh & Hc & _ & _ & Hm & _ & _ & Htx). unfold NativeBlock_wire_bytes.
  rewrite (protocol_data_none _ Hm).
  rewrite !length_app, !length_be_bytes, length_header_bytes, length_protocol_data_none by done.
  pose proof (length_entries _ Htx). lia.
Qed.

Lemma block_entry_parses i tx :
  length tx = SIGNED_LEN -> parses (block_entry i) (entry_bytes tx) tx.
Proof.
  intros Hl. unfold block_entry, entry_bytes, b_uint, b_field.
  eapply parses_bind; [by apply parses_u32|]. parse_step; [done|]. by apply parses_field.
Qed.

Lemma block_entry_consumes i d tx d' :
  block_entry i d = Ok (tx, d') -> length tx = SIGNED_LEN /\ consumes d (entry_bytes tx) d'.
Proof.
  unfold block_entry, b_uint, b_field. intros H. inv_parse. inv_ok. subst.
  split; [done|]. unfold entry_bytes. glue.
Qed.

Lemma block_fields_parses b :
  wf_block b -> parses block_fields (NativeBlock_wire_bytes b) b.
Proof.
  intros (Hh & Hc & Hp & Hu & Hm & Hf & Hn & Htx).
  assert (wf_protocol_data (nb_protocol_data b)) as Hpd by (split; [done|]; by rewrite Hm).
  assert (length (ProtocolData_canonical_bytes (nb_protocol_data b)) = 10%nat) as Hl10
    by (rewrite (protocol_data_none _ Hm); apply length_protocol_data_none).
  pose proof (length_header_bytes _ Hh) as Hlh.
  unfold MAX_PROPOSER_BYTES, MAX_TRANSACTIONS in *.
  assert (in_width U32 (Z.of_nat (length (nb_proposer b)))) by (unfold in_width; lia).
  assert (in_width U64 (Z.of_nat (length (nb_transactions b)))) by (unfold in_width; lia).
  unfold block_fields, NativeBlock_wire_bytes, b_uint, b_field, b_take. cbv zeta.
  rewrite Hl10.
  eapply parses_bind; [by apply parses_u8|]. parse_step; [done|].
  eapply parses_bind; [by apply parses_field|].
  eapply parses_bind; [apply parses_take; by rewrite Hlh|].
  parse_step; [by apply ok_or_Ok, header_codec_iff|].
  eapply parses_bind; [by apply parses_u32|].
  parse_step; [apply fail_if_false, Z.ltb_ge; done|].
  eapply parses_bind; [by apply parses_take|].
  parse_step; [apply fail_if_false; by rewrite Hu|].
  eapply parses_bind; [by apply parses_u32|]. parse_step; [done|].
  eapply parses_bind; [apply parses_take; by rewrite Hl10|].
  parse_step; [apply ok_or_Ok, protocol_data_codec_iff; [rewrite Hl10; done|done]|].
  eapply parses_bind; [by apply parses_u64|].
  parse_step; [apply fail_if_false, Z.ltb_ge; done|].
  parse_step; [apply ok_or_Ok, checked_mul_Some; change SIGNED_LEN with 199%nat; split; [lia|done]|].
  apply parses_guard.
  { intros n Hrem. rewrite length_entries in Hrem by done. apply fail_if_false, Z.ltb_ge.
    change SIGNED_LEN with 199%nat. lia. }
  rewrite Nat2Z.id. destruct b as [h ch pr pd txs]; simpl in *.
  apply (parses_bind_last _ (fun l => mk_native_block h ch pr pd l)).
  apply parses_repeat. intros j tx Htx'. apply block_entry_parses.
  rewrite Forall_forall in Htx. by apply Htx.
Qed.

Lemma block_fields_consumes d b d' :
  block_fields d = Ok (b, d') -> wf_block b /\ consumes d (NativeBlock_wire_bytes b) d'.
Proof.
  unfold block_fields, b_uint, b_field, b_take. intros Hrun. inv_parse. inv_ok. subst.
  match goal with H : p_repeat _ _ _ _ = Ok _ |- _ =>
    apply (p_repeat_inv entry_bytes _ _ _ _ _ _ _ block_entry_consumes) in H as (? & ? & ?) end.
  match goal with H : BlockHeader_from_canonical_bytes _ = _ |- _ =>
    apply header_codec_iff in H as [? <-] end.
  match goal with H : ProtocolData_from_canonical_bytes ?x = _, Hl : Z.of_nat (length ?x) = _ |- _ =>
    assert (length x = 10%nat) as Hl10 by lia;
    pose proof (protocol_data_ten _ _ Hl10 H);
    apply protocol_data_codec_iff in H as [[? _] <-]; [|lia] end.
  unfold wf_block, NativeBlock_wire_bytes, in_width in *; cbn [nb_header nb_claimed_hash
    nb_proposer nb_protocol_data nb_transactions] in *.
  split; [split_and!; try done; lia|].
  rewrite Hl10. change (Z.of_nat 10) with 10%Z.
  match goal with H : length ?l = Z.to_nat ?c |- context [be_bytes 8 (Z.of_nat (length ?l))] =>
    rewrite H, Z2Nat.id by lia end.
  glue.
Qed.

Lemma block_codec_iff bs b :
  NativeBlock_from_wire_bytes bs = Ok b <-> wf_block b /\ NativeBlock_wire_bytes b = bs.
Proof.
  unfold NativeBlock_from_wire_bytes. split.
  - destruct (_ <? _)%Z; [done|]. destruct (block_fields _) as [[b' d]|] eqn:Hrun; [|done].
    destruct (finished d) eqn:Hf; [|done]. intros [= ->].
    apply block_fields_consumes in Hrun as [? Hc]. split; [done|].
    symmetry. by eapply consumes_finished.
  - intros [Hwf <-]. pose proof (length_block_wire b Hwf) as Hl.
    pose proof Hwf as (_ & _ & Hp & _ & _ & _ & Hn & _).
    unfold MAX_WIRE_BYTES, MAX_PROPOSER_BYTES, MAX_TRANSACTIONS in *.
    rewrite (proj2 (Z.ltb_ge _ _)) by (change (Z.of_nat SIGNED_LEN) with 199%Z; lia).
    rewrite (parses_all _ _ b); [|lia|by apply block_fields_parses].
    by rewrite finished_end.
Qed.

(** ** Preflight *)

Section Preflight.
  Context {KE : Keccak} {KC : K256}.

(** The structural conditions, in the approved order. *)
Record preflighted (b : NativeBlock) (c : AuthenticationContext) (ids : list bytes) : Prop := {
  pf_profile : protocol_version (nb_header b) = EXPERIMENTAL_HEADER_PROFILE;
  pf_chain : chain_id (nb_header b) = ctx_chain_id c;
  pf_kind : block_kind (nb_header b) = Validator;
  pf_proposer : nb_proposer b <> [] /\ nb_proposer b <> str "protocol" /\
    proposer_id_field (nb_header b) <> zeros 32 /\
    proposer_id_field (nb_header b) = proposer_id (nb_proposer b);
  pf_ticket : ticket_id (nb_header b) <> 0%Z;
  pf_state : state_root (nb_header b) = PLACEHOLDER_STATE_ROOT;
  pf_receipts : receipts_root (nb_header b) = EMPTY_RECEIPTS_ROOT;
  pf_gas : (gas_used (nb_header b) <= MAX_GAS)%Z;
  pf_missed : missed_proposer (nb_protocol_data b) = None;
  pf_hash : nb_claimed_hash b = NativeBlock_hash b;
  pf_data : protocol_data_root (nb_header b) = ProtocolData_root (nb_protocol_data b);
  pf_ids : ids = map (hash_with_domain ID_DOMAIN) (nb_transactions b);
  pf_root : ordered_transaction_root ids = Some (transaction_root (nb_header b))
}.

Lemma some_false {A} (o : option A) : (if o is Some _ then true else false) = false <-> o = None.
Proof. by destruct o. Qed.

Lemma preflight_iff b c ids :
  NativeBlock_preflight b c = Ok ids <-> preflighted b c ids.
Proof.
  unfold NativeBlock_preflight. cbv zeta. split.
  - intros. inv_ok. subst. constructor; try done. by apply some_false.
  - intros [? ? ? (? & ? & ? & ?) ? ? ? ? Hm ? ? -> Hr].
    rewrite !neq_dec_false by done. rewrite !bool_decide_eq_false_2 by done.
    rewrite (proj2 (Z.ltb_ge _ _)) by done. rewrite Hm. done.
Qed.
End Preflight.

(** ** Blocks built from a staged body *)

Section Building.
  Context {KE : Keccak} {KC : K256}.

(** What a producer must supply beside the staged body. *)
Record producible (c : AuthenticationContext) (slot : Z) (parent proposer : bytes) (ticket : Z)
    (body : list bytes) : Prop := {
  pr_chain : in_width U64 (ctx_chain_id c);
  pr_slot : in_width U64 slot;
  pr_parent : length parent = 32%nat;
  pr_text : proposer <> [] /\ proposer <> str "protocol" /\ utf8_valid proposer = true /\
    (Z.of_nat (length proposer) <= MAX_PROPOSER_BYTES)%Z;
  pr_id : proposer_id proposer <> zeros 32;
  pr_ticket : in_width U64 ticket /\ ticket <> 0%Z;
  pr_count : (Z.of_nat (length body) <= MAX_TRANSACTIONS)%Z
}.

Lemma staged_ids base c slot body sb :
  stage_body base c slot body = Ok sb ->
  let out := applied_outcome (staged_record sb) in
  transaction_ids out = map (hash_with_domain ID_DOMAIN) body /\
  outcome_gas_used out = (1000 * Z.of_nat (length body))%Z /\
  outcome_fees_burned out = (10000 * Z.of_nat (length body))%Z /\
  Forall (fun tx => length tx = SIGNED_LEN) body.
Proof.
  intros (ps & [Ha Hr _ _])%stage_body_Ok. cbv zeta.
  pose proof (runs_outcome _ _ _ _ _ _ Hr) as (-> & _ & _ & _ & -> & ->).
  rewrite (Forall2_length _ _ _ Ha). split_and!; [|done..|].
  - simpl. clear Hr. induction Ha as [|bs p body ps Hp _ IH]; [done|]. cbn [map].
    f_equal; [|done]. apply authenticate_spec in Hp as [_ _ _ Hid _ _]. exact Hid.
  - clear Hr. induction Ha as [|bs p body ps Hp _ IH]; constructor; [|done].
    apply authenticate_spec in Hp as [Hs -> _ _ _ _]. by apply signed_length.
Qed.

Lemma build_accepted_lemma base c slot body sb parent proposer ticket :
  stage_body base c slot body = Ok sb -> producible c slot parent proposer ticket body ->
  let out := applied_outcome (staged_record sb) in
  exists b, NativeBlock_build c slot parent proposer ticket body out = Ok b /\ wf_block b /\
    preflighted b c (transaction_ids out) /\
    NativeBlock_match_outcome b body (transaction_ids out) out = Ok ().
Proof.
  intros (Hids & Hg & Hf & Hlen)%staged_ids [? ? ? (? & ? & ? & Hp) ? [? ?] Hn]. cbv zeta.
  set (out := applied_outcome (staged_record sb)) in *.
  unfold MAX_PROPOSER_BYTES, MAX_TRANSACTIONS in *.
  assert (exists r, ordered_transaction_root (transaction_ids out) = Some r /\
    length r = 32%nat) as (root & Hroot & Hrl).
  { unfold ordered_transaction_root. rewrite Hids, length_map.
    rewrite (proj2 (Z.ltb_lt _ _)) by lia. eexists. split; [done|]. apply keccak256_length. }
  unfold NativeBlock_build. rewrite Hroot. cbv zeta. rewrite bind_of_Ok || simpl.
  set (h := mk_header _ _ _ _ _ _ _ _ _ _ _ _).
  set (b := mk_native_block h (BlockHeader_hash h) proposer
    (mk_protocol_data None (outcome_fees_burned out)) body).
  assert (NativeBlock_from_parts h proposer (mk_protocol_data None (outcome_fees_burned out)) body
    = Ok b) as ->.
  { unfold NativeBlock_from_parts, MAX_PROPOSER_BYTES, MAX_TRANSACTIONS.
    rewrite !(proj2 (Z.ltb_ge _ _)) by done. done. }
  assert (preflighted b c (transaction_ids out)) as Hpf.
  { constructor; try done. simpl. unfold MAX_GAS. lia. }
  exists b. split_and!; [| |done|].
  - simpl. by rewrite (proj2 (preflight_iff _ _ _) Hpf).
  - unfold wf_block, wf_header, in_width in *; simpl. unfold EXPERIMENTAL_HEADER_PROFILE.
    split_and!; try done; try lia; apply keccak256_length.
  - unfold NativeBlock_match_outcome. by rewrite !neq_dec_false.
Qed.
End Building.

(** ** Properties *)

(** The wire-2 block codec is a bijection: a byte string decodes to [b]
    exactly when [b] respects every width and limit (header, 256 proposer
    bytes of UTF-8, ten-byte protocol data, 3000 signed entries) and the
    string is its wire form; truncated, padded or over-long envelopes are
    never accepted. *)
Theorem block_wire_codec bs b :
  NativeBlock_from_wire_bytes bs = Ok b <-> wf_block b /\ NativeBlock_wire_bytes b = bs.
Proof. apply block_codec_iff. Qed.

Section BlockProperties.
  Context {KE : Keccak} {KC : K256}.

(** Preflight accepts exactly the blocks satisfying the thirteen
    structural conditions and returns the content-derived transaction ids. *)
Theorem preflight_correct b c ids :
  NativeBlock_preflight b c = Ok ids <-> preflighted b c ids.
Proof. apply preflight_iff. Qed.

(** A producer that staged a body of at most 3000 entries under a valid
    proposer name, parent and ticket always obtains a block; the block
    survives a wire round trip, passes preflight with the staged ids and
    matches the staged outcome (so the 16,000,000 gas cap is never the reason
    an honest block is refused). *)
Theorem built_block_accepted base c slot body sb parent proposer ticket :
  stage_body base c slot body = Ok sb -> producible c slot parent proposer ticket body ->
  let out := applied_outcome (staged_record sb) in
  exists b, NativeBlock_build c slot parent proposer ticket body out = Ok b /\
    NativeBlock_from_wire_bytes (NativeBlock_wire_bytes b) = Ok b /\
    NativeBlock_preflight b c = Ok (transaction_ids out) /\
    NativeBlock_match_outcome b body (transaction_ids out) out = Ok ().
Proof.
  intros Hs Hp. destruct (build_accepted_lemma _ _ _ _ _ _ _ _ Hs Hp) as (b & ? & ? & ? & ?).
  exists b. split_and!; [done|by apply block_codec_iff|by apply preflight_iff|done].
Qed.
End BlockProperties.

Definition toy_proposer : bytes := str "node-1".

Lemma toy_producible : @producible toy_keccak toy_context 3 (zeros 32) toy_proposer 1 toy_body.
Proof.
  constructor; by_computation.
Qed.

Lemma built_block_accepted_witness :
  let out := applied_outcome (staged_record toy_staged) in
  exists b, @NativeBlock_build toy_keccak toy_context 3 (zeros 32) toy_proposer 1 toy_body out = Ok b /\
    NativeBlock_from_wire_bytes (NativeBlock_wire_bytes b) = Ok b /\
    @NativeBlock_preflight toy_keccak b toy_context = Ok (transaction_ids out) /\
    @NativeBlock_match_outcome b toy_body (transaction_ids out) out = Ok ().
Proof.
  exact (@built_block_accepted toy_keccak toy_k256 toy_state toy_context 3 toy_body toy_staged
    (zeros 32) toy_proposer 1 toy_stage_ok toy_producible).
Defined.
