(* ===== verification/BlockAuthentication.v ===== *)
(** * Offline producer attribution (src/src/block_authentication.rs)

    A signed wire-3 envelope wraps one wire-2 block: outer version, encoding
    and rules, the network id, the inner length, the block and one compact
    signature over an 82-byte statement.

    The theorems show that the envelope codec is a bijection, that
    [authenticate_block] accepts exactly the envelopes whose recovered key is
    the bound key (its reconstruction check can never fire), that what
    [sign_block] returns authenticates, and that the signed statement
    determines chain, network, profile and header hash. *)

From S2P Require Import Prelude Codec Crypto BlockCommitment NativeTransaction NativeTransfer.
From S2P Require Import NativeBlock.

Definition OUTER_WIRE_VERSION : Z := 3.
Definition AUTH_ENCODING_VERSION : Z := 1.
Definition AUTH_RULES_VERSION : Z := 1.
(** [b"\x19ETERNIX\x00BLOCK_SIGN\x00"] and [b"\x19ETERNIX\x00BLOCK_ENVELOPE_ID\x00"] *)
Definition SIGNING_DOMAIN : bytes :=
  [x19] ++ str "ETERNIX" ++ [x00] ++ str "BLOCK_SIGN" ++ [x00].
Definition ENVELOPE_ID_DOMAIN : bytes :=
  [x19] ++ str "ETERNIX" ++ [x00] ++ str "BLOCK_ENVELOPE_ID" ++ [x00].
Definition PAYLOAD_LEN : nat := 82.
Definition SIGNING_PREIMAGE_LEN : nat := 102.
Definition ENVELOPE_OVERHEAD : Z := 107.
Definition MAX_ENVELOPE_BYTES : Z := MAX_WIRE_BYTES + ENVELOPE_OVERHEAD.

Module AuthError.
Inductive auth_error : Type :=
| Frame (reason : string)
| UnsupportedWire (v : Z)
| UnsupportedEncoding (v : Z)
| UnsupportedRules (v : Z)
| UnsupportedProfile (v : Z)
| InvalidProducerId
| InvalidPublicKey
| ProducerMismatch
| KeyMismatch
| NetworkMismatch
| Block (e : block_error)
| Signature (e : native_error)
| RecoveryFailed
| ClaimedEnvelopeIdMismatch
| SigningFailed.
End AuthError.
Abbreviation auth_error := AuthError.auth_error.

#[export] Instance auth_error_eq_dec : EqDecision auth_error.
Proof. solve_decision. Defined.

(** ** Trusted context and producer binding *)

Record BlockAuthenticationContext : Type := mk_auth_context {
  bac_native : AuthenticationContext;
  bac_header_profile : Z;
  bac_auth_rules : Z
}.

#[export] Instance BlockAuthenticationContext_eq_dec : EqDecision BlockAuthenticationContext.
Proof. solve_decision. Defined.

Definition BlockAuthenticationContext_new (native : AuthenticationContext)
    (header_profile auth_rules : Z) : result auth_error BlockAuthenticationContext :=
  fail_if (header_profile !=? EXPERIMENTAL_HEADER_PROFILE)
    (AuthError.UnsupportedProfile header_profile);;
  fail_if (auth_rules !=? AUTH_RULES_VERSION) (AuthError.UnsupportedRules auth_rules);;
  Ok (mk_auth_context native header_profile auth_rules).

Record ProducerBinding : Type := mk_binding {
  pb_producer_id : bytes;
  pb_public_key : bytes
}.

#[export] Instance ProducerBinding_eq_dec : EqDecision ProducerBinding.
Proof. solve_decision. Defined.

Record BlockSignature : Type := mk_block_signature { block_signature : NativeSignature }.

Record SignedBlockEnvelope : Type := mk_envelope {
  en_network : bytes;
  en_block : NativeBlock;
  en_signature : bytes
}.

#[export] Instance SignedBlockEnvelope_eq_dec : EqDecision SignedBlockEnvelope.
Proof. solve_decision. Defined.

Record AuthenticatedProducerBlock : Type := mk_producer_block {
  apb_envelope : SignedBlockEnvelope;
  apb_context : BlockAuthenticationContext;
  apb_binding : ProducerBinding;
  apb_signature : BlockSignature;
  apb_digest : bytes;
  apb_envelope_id : bytes
}.

(** ** Framing *)

Definition auth_field (n : nat) (bs : bytes) (offset : Z) : result auth_error bytes :=
  stop ← ok_or (checked_add U64 offset (Z.of_nat n)) (AuthError.Frame "offset overflow");
  if (stop <=? Z.of_nat (length bs))%Z
  then Ok (slice n (Z.to_nat offset) bs) else Err (AuthError.Frame "truncation").

Definition inner_length_ok (len : Z) : bool := ((289 <=? len) && (len <=? MAX_WIRE_BYTES))%Z.

Definition SignedBlockEnvelope_from_parts (block : NativeBlock) (network signature : bytes) :
    result auth_error SignedBlockEnvelope :=
  fail_if (negb (inner_length_ok (Z.of_nat (length (NativeBlock_wire_bytes block)))))
    (AuthError.Frame "inner length");;
  Ok (mk_envelope network block signature).

Definition SignedBlockEnvelope_from_wire_bytes (bs : bytes) :
    result auth_error SignedBlockEnvelope :=
  fail_if (MAX_ENVELOPE_BYTES <? Z.of_nat (length bs))%Z (AuthError.Frame "envelope size");;
  wire ← be_val <$> auth_field 1 bs 0;
  fail_if (wire !=? OUTER_WIRE_VERSION) (AuthError.UnsupportedWire wire);;
  encoding ← be_val <$> auth_field 1 bs 1;
  fail_if (encoding !=? AUTH_ENCODING_VERSION) (AuthError.UnsupportedEncoding encoding);;
  rules ← be_val <$> auth_field 4 bs 2;
  fail_if (rules !=? AUTH_RULES_VERSION) (AuthError.UnsupportedRules rules);;
  network ← auth_field 32 bs 6;
  len ← be_val <$> auth_field 4 bs 38;
  fail_if (negb (inner_length_ok len)) (AuthError.Frame "inner length");;
  total ← ok_or (checked_add U64 len ENVELOPE_OVERHEAD) (AuthError.Frame "total overflow");
  fail_if (total !=? Z.of_nat (length bs)) (AuthError.Frame "exact envelope length");;
  block ← map_err AuthError.Block (NativeBlock_from_wire_bytes (slice (Z.to_nat len) 42 bs));
  signature ← auth_field SIGNATURE_LEN bs (42 + len);
  Ok (mk_envelope network block signature).

Definition SignedBlockEnvelope_wire_bytes (e : SignedBlockEnvelope) : bytes :=
  let inner := NativeBlock_wire_bytes (en_block e) in
  be_bytes 1 OUTER_WIRE_VERSION ++ be_bytes 1 AUTH_ENCODING_VERSION ++
  be_bytes 4 AUTH_RULES_VERSION ++ en_network e ++
  be_bytes 4 (Z.of_nat (length inner)) ++ inner ++ en_signature e.

(** ** Statement, identity, authentication and signing *)

Section BlockAuth.
  Context `{KE : Keccak} `{KC : K256}.

Definition ProducerBinding_new (producer_id compressed : bytes) :
    result auth_error ProducerBinding :=
  fail_if ((producer_id ==? []) || (producer_id ==? str "protocol") ||
           (MAX_PROPOSER_BYTES <? Z.of_nat (length producer_id))%Z) AuthError.InvalidProducerId;;
  fail_if ((length compressed !=? 33%nat) ||
           negb ((byte_val (default x00 (head compressed)) =? 2) ||
                 (byte_val (default x00 (head compressed)) =? 3))%Z) AuthError.InvalidPublicKey;;
  key ← ok_or (from_sec1_bytes compressed) AuthError.InvalidPublicKey;
  fail_if (encoded_point true key !=? compressed) AuthError.InvalidPublicKey;;
  Ok (mk_binding producer_id compressed).

Definition ProducerBinding_matches (pb : ProducerBinding) (b : NativeBlock) :
    result auth_error () :=
  fail_if ((nb_proposer b !=? pb_producer_id pb) ||
           (proposer_id_field (nb_header b) !=? proposer_id (pb_producer_id pb)))
    AuthError.ProducerMismatch.

Definition BlockSignature_from_bytes (bs : bytes) : result auth_error BlockSignature :=
  map_err AuthError.Signature (mk_block_signature <$> NativeSignature_from_bytes bs).

Definition BlockSignature_recover (s : BlockSignature) (digest : bytes) :
    result auth_error VerifyingKey :=
  map_err (fun _ => AuthError.RecoveryFailed) (recover_public_key (block_signature s) digest).

Definition signing_payload (e : SignedBlockEnvelope) : bytes :=
  let out := zeros PAYLOAD_LEN in
  let out := copy_at 0 (be_bytes 1 OUTER_WIRE_VERSION) out in
  let out := copy_at 1 (be_bytes 1 AUTH_ENCODING_VERSION) out in
  let out := copy_at 2 (be_bytes 4 AUTH_RULES_VERSION) out in
  let out := copy_at 6 (be_bytes 8 (chain_id (nb_header (en_block e)))) out in
  let out := copy_at 14 (en_network e) out in
  let out := copy_at 46 (be_bytes 4 (protocol_version (nb_header (en_block e)))) out in
  copy_at 50 (NativeBlock_hash (en_block e)) out.

Definition block_signing_preimage (e : SignedBlockEnvelope) : bytes :=
  copy_at 20 (signing_payload e) (copy_at 0 SIGNING_DOMAIN (zeros SIGNING_PREIMAGE_LEN)).

Definition block_signing_digest (e : SignedBlockEnvelope) : bytes :=
  keccak256 (block_signing_preimage e).

Definition envelope_id (e : SignedBlockEnvelope) : bytes :=
  hash_with_domain ENVELOPE_ID_DOMAIN (SignedBlockEnvelope_wire_bytes e).

Definition SignedBlockEnvelope_preflight (e : SignedBlockEnvelope)
    (c : BlockAuthenticationContext) : result auth_error () :=
  fail_if (en_network e !=? ctx_network_id (bac_native c)) AuthError.NetworkMismatch;;
  map_err AuthError.Block (NativeBlock_preflight (en_block e) (bac_native c));;
  Ok ().

Definition authenticate_block (bs : bytes) (c : BlockAuthenticationContext)
    (pb : ProducerBinding) (claimed_id : option bytes) :
    result auth_error AuthenticatedProducerBlock :=
  envelope ← SignedBlockEnvelope_from_wire_bytes bs;
  SignedBlockEnvelope_preflight envelope c;;
  fail_if (SignedBlockEnvelope_wire_bytes envelope !=? bs)
    (AuthError.Frame "noncanonical reconstruction");;
  ProducerBinding_matches pb (en_block envelope);;
  signature ← BlockSignature_from_bytes (en_signature envelope);
  let digest := block_signing_digest envelope in
  let eid := hash_with_domain ENVELOPE_ID_DOMAIN bs in
  fail_if (if claimed_id is Some i then i !=? eid else false)
    AuthError.ClaimedEnvelopeIdMismatch;;
  key ← BlockSignature_recover signature digest;
  fail_if (encoded_point true key !=? pb_public_key pb) AuthError.KeyMismatch;;
  Ok (mk_producer_block envelope c pb signature digest eid).

(** One fresh candidate: seeding the generator from the operating system can
    fail, which is a signing failure. *)
Definition fresh_candidate (key : SigningKey) (digest : bytes) (entropy : option Entropy) :
    result auth_error (Signature * RecoveryId) :=
  rng ← ok_or entropy AuthError.SigningFailed;
  s ← ok_or (sign_prehash_with_rng key rng digest) AuthError.SigningFailed;
  id ← ok_or (trial_recovery_from_prehash (verifying_key key) digest s) AuthError.SigningFailed;
  Ok (s, id).

Definition block_candidate (key : SigningKey) (digest : bytes) (entropy : nat -> option Entropy)
    (call : nat) (retry : bool) : result auth_error (Signature * RecoveryId) :=
  if negb retry then ok_or (sign_prehash_recoverable key digest) AuthError.SigningFailed
  else fresh_candidate key digest (entropy call).

(** The loop is [retry_loop] with the block signature's parser. *)
Definition sign_digest (key : SigningKey) (digest : bytes) (entropy : nat -> option Entropy)
    (fuel : nat) : option (result auth_error bytes) :=
  match retry_loop BlockSignature_from_bytes (block_candidate key digest entropy) fuel 0 false with
  | None => None
  | Some r => Some (native_signature_bytes ∘ block_signature <$> r)
  end.

Definition sign_block (b : NativeBlock) (key : SigningKey) (c : BlockAuthenticationContext)
    (pb : ProducerBinding) (entropy : nat -> option Entropy) (fuel : nat) :
    option (result auth_error SignedBlockEnvelope) :=
  match
    (envelope ← SignedBlockEnvelope_from_parts b (ctx_network_id (bac_native c))
                 (zeros SIGNATURE_LEN);
     SignedBlockEnvelope_preflight envelope c;;
     ProducerBinding_matches pb b;;
     fail_if (encoded_point true (verifying_key key) !=? pb_public_key pb)
       AuthError.KeyMismatch;;
     Ok envelope)
  with
  | Err e => Some (Err e)
  | Ok envelope =>
      match sign_digest key (block_signing_digest envelope) entropy fuel with
      | None => None
      | Some (Err e) => Some (Err e)
      | Some (Ok s) => Some (Ok (mk_envelope (en_network envelope) (en_block envelope) s))
      end
  end.
End BlockAuth.

(** ** Envelope codec *)

Definition wf_envelope (e : SignedBlockEnvelope) : Prop :=
  length (en_network e) = 32%nat /\ wf_block (en_block e) /\
  length (en_signature e) = SIGNATURE_LEN /\
  inner_length_ok (Z.of_nat (length (NativeBlock_wire_bytes (en_block e)))) = true.

Lemma auth_field_Ok n bs off x :
  auth_field n bs off = Ok x <->
  (off + Z.of_nat n < U64)%Z /\ (off + Z.of_nat n <= Z.of_nat (length bs))%Z /\
  x = slice n (Z.to_nat off) bs.
Proof.
  unfold auth_field. rewrite bind_Ok. split.
  - intros (stop & Hs & H). inv_ok. subst.
    destruct (Z.leb_spec (off + Z.of_nat n) (Z.of_nat (length bs))); [|done].
    by injection H as <-.
  - intros (H1 & H2 & ->). eexists. split; [by apply ok_or_Ok, checked_add_Some|].
    simpl. by rewrite (proj2 (Z.leb_le _ _)).
Qed.

Lemma inner_length_bounds len :
  inner_length_ok len = true -> (289 <= len <= 609544)%Z.
Proof.
  unfold inner_length_ok. change MAX_WIRE_BYTES with 609544%Z.
  intros [?%Z.leb_le ?%Z.leb_le]%andb_true_iff. lia.
Qed.

Lemma length_envelope_wire e :
  wf_envelope e ->
  Z.of_nat (length (SignedBlockEnvelope_wire_bytes e)) =
  (Z.of_nat (length (NativeBlock_wire_bytes (en_block e))) + 107)%Z.
Proof.
  intros (Hn & _ & Hs & _). unfold SignedBlockEnvelope_wire_bytes. cbv zeta.
  rewrite !length_app, !length_be_bytes, Hn, Hs. change SIGNATURE_LEN with 65%nat. lia.
Qed.

(** The fields of a wire envelope, where the decoder looks for them. *)
Lemma envelope_slices e :
  wf_envelope e ->
  let bs := SignedBlockEnvelope_wire_bytes e in
  let inner := NativeBlock_wire_bytes (en_block e) in
  slice 1 0 bs = be_bytes 1 OUTER_WIRE_VERSION /\ slice 1 1 bs = be_bytes 1 AUTH_ENCODING_VERSION /\
  slice 4 2 bs = be_bytes 4 AUTH_RULES_VERSION /\ slice 32 6 bs = en_network e /\
  slice 4 38 bs = be_bytes 4 (Z.of_nat (length inner)) /\
  slice (length inner) 42 bs = inner /\ slice 65 (42 + length inner) bs = en_signature e.
Proof.
  intros (Hn & _ & Hs & _). cbv zeta. unfold SignedBlockEnvelope_wire_bytes. cbv zeta.
  change SIGNATURE_LEN with 65%nat in Hs.
  set (inner := NativeBlock_wire_bytes (en_block e)). clearbody inner.
  split_and!.
  all: repeat (rewrite slice_app_skip by (rewrite ?length_be_bytes; lia); rewrite ?length_be_bytes, ?Hn).
  all: cbn [Nat.sub]; rewrite ?Nat.sub_0_r, ?Nat.sub_diag.
  all: try (apply slice_app_here; rewrite ?length_be_bytes; done).
  replace (42 + length inner - 1 - 1 - 4 - 32 - 4 - length inner)%nat with 0%nat by lia.
  by apply slice_all.
Qed.

Lemma envelope_decode e :
  wf_envelope e ->
  SignedBlockEnvelope_from_wire_bytes (SignedBlockEnvelope_wire_bytes e) = Ok e.
Proof.
  intros Hwf. pose proof (length_envelope_wire e Hwf) as Hl.
  pose proof (envelope_slices e Hwf) as (S1 & S2 & S3 & S4 & S5 & S6 & S7). cbv zeta in *.
  pose proof Hwf as (Hn & Hb & Hs & Hin). pose proof (inner_length_bounds _ Hin) as Hr.
  set (inner := NativeBlock_wire_bytes (en_block e)) in *.
  set (bs := SignedBlockEnvelope_wire_bytes e) in *.
  assert (forall n off x, (off + Z.of_nat n <= Z.of_nat (length bs))%Z -> slice n (Z.to_nat off) bs = x ->
    auth_field n bs off = Ok x) as Hf.
  { intros n off x Hle <-. apply auth_field_Ok. split_and!; [lia|done|done]. }
  unfold SignedBlockEnvelope_from_wire_bytes.
  change MAX_ENVELOPE_BYTES with 609651%Z. rewrite (proj2 (Z.ltb_ge _ _)) by lia.
  rewrite (Hf 1%nat 0%Z _ ltac:(lia) S1), (Hf 1%nat 1%Z _ ltac:(lia) S2).
  rewrite (Hf 4%nat 2%Z _ ltac:(lia) S3), (Hf 32%nat 6%Z _ ltac:(lia) S4).
  rewrite (Hf 4%nat 38%Z _ ltac:(lia) S5). unfold fmap, result_fmap.
  rewrite (be_val_bytes_width 1 U8 OUTER_WIRE_VERSION) by done.
  rewrite (be_val_bytes_width 1 U8 AUTH_ENCODING_VERSION) by done.
  rewrite (be_val_bytes_width 4 U32 AUTH_RULES_VERSION) by done.
  rewrite (be_val_bytes_width 4 U32) by (done || (unfold in_width; lia)).
  cbv beta iota delta [mbind result_bind].
  rewrite !neq_dec_false by done. rewrite Hin. cbv beta iota delta [fail_if negb].
  assert (checked_add U64 (Z.of_nat (length inner)) ENVELOPE_OVERHEAD =
    Some (Z.of_nat (length inner) + 107)%Z) as ->
    by (apply checked_add_Some; unfold ENVELOPE_OVERHEAD; lia). unfold ok_or.
  rewrite neq_dec_false by (rewrite Hl; done).
  rewrite Nat2Z.id, S6. unfold inner. rewrite (proj2 (block_codec_iff _ _) (conj Hb eq_refl)).
  cbv beta iota delta [map_err]. fold inner.
  rewrite (Hf SIGNATURE_LEN _ (en_signature e)).
  - by destruct e.
  - change SIGNATURE_LEN with 65%nat. lia.
  - replace (Z.to_nat (42 + Z.of_nat (length inner))) with (42 + length inner)%nat by lia. done.
Qed.

Lemma envelope_encode bs e :
  SignedBlockEnvelope_from_wire_bytes bs = Ok e ->
  wf_envelope e /\ SignedBlockEnvelope_wire_bytes e = bs.
Proof.
  unfold SignedBlockEnvelope_from_wire_bytes. intros H. inv_ok.
  repeat match goal with H : auth_field _ _ _ = Ok _ |- _ =>
    apply auth_field_Ok in H as (_ & ? & ?) end.
  match goal with H : inner_length_ok ?l = true |- _ =>
    pose proof (inner_length_bounds _ H); set (len := l) in * end.
  match goal with H : NativeBlock_from_wire_bytes _ = Ok _ |- _ =>
    apply block_codec_iff in H as [? Hinner] end.
  assert (length bs = 107 + Z.to_nat len)%nat as Hl by (unfold ENVELOPE_OVERHEAD in *; lia).
  assert (length (slice (Z.to_nat len) 42 bs) = Z.to_nat len) as Hli by (apply length_slice; lia).
  subst. unfold wf_envelope, SignedBlockEnvelope_wire_bytes.
  cbn [en_network en_block en_signature]. rewrite Hinner, Hli, Z2Nat.id by lia.
  change SIGNATURE_LEN with 65%nat in *. split.
  - split_and!; try done; apply length_slice; lia.
  - repeat match goal with H : be_val (slice ?n ?o bs) = ?v |- context [be_bytes ?n ?v] =>
      rewrite <- H at 1; rewrite (be_bytes_val n (slice n o bs)) by (apply length_slice; lia) end.
    transitivity (concat (slices [1; 1; 4; 32; 4; Z.to_nat len; 65]%nat 0 bs));
      [|apply concat_slices_all; simpl; lia].
    cbn [concat slices]. rewrite app_nil_r.
    assert (be_bytes 4 len = slice 4 38 bs) as -> by (apply be_bytes_val, length_slice; lia).
    replace (Z.to_nat (42 + len)) with (42 + Z.to_nat len)%nat by lia. done.
Qed.

Lemma envelope_codec_iff bs e :
  SignedBlockEnvelope_from_wire_bytes bs = Ok e <->
  wf_envelope e /\ SignedBlockEnvelope_wire_bytes e = bs.
Proof. split; [apply envelope_encode|]. intros [? <-]. by apply envelope_decode. Qed.

(** ** The signed statement *)

Lemma length_block_domain : length SIGNING_DOMAIN = 20%nat.
Proof. done. Qed.

Section Statement.
  Context {KE : Keccak} {KC : K256}.

Definition payload_layout (e : SignedBlockEnvelope) : bytes :=
  be_bytes 1 OUTER_WIRE_VERSION ++ be_bytes 1 AUTH_ENCODING_VERSION ++
  be_bytes 4 AUTH_RULES_VERSION ++ be_bytes 8 (chain_id (nb_header (en_block e))) ++
  en_network e ++ be_bytes 4 (protocol_version (nb_header (en_block e))) ++
  NativeBlock_hash (en_block e).

Lemma length_payload e : length (en_network e) = 32%nat -> length (payload_layout e) = 82%nat.
Proof.
  intros Hn. unfold payload_layout.
  rewrite !length_app, !length_be_bytes, Hn. unfold NativeBlock_hash. by rewrite header_hash_length.
Qed.

Lemma signing_preimage_layout e :
  length (en_network e) = 32%nat ->
  block_signing_preimage e = SIGNING_DOMAIN ++ payload_layout e.
Proof.
  intros Hn. pose proof (length_payload e Hn) as Hp.
  assert (length (NativeBlock_hash (en_block e)) = 32%nat) as Hh by apply header_hash_length.
  assert (signing_payload e = payload_layout e) as Hpay.
  { unfold signing_payload. cbv zeta. change (zeros PAYLOAD_LEN) with ([] ++ zeros 82).
    do 7 fill_step. rewrite !length_be_bytes, Hn, Hh.
    change (zeros _) with (@nil byte). rewrite app_nil_r. unfold payload_layout.
    by rewrite <- !app_assoc. }
  unfold block_signing_preimage. rewrite Hpay.
  change (zeros SIGNING_PREIMAGE_LEN) with ([] ++ zeros 102).
  rewrite copy_at_fill by (rewrite ?length_block_domain; simpl; lia).
  rewrite copy_at_fill by (rewrite ?length_app, ?length_block_domain; simpl; lia).
  rewrite length_block_domain, Hp. change (zeros _) with (@nil byte). by rewrite app_nil_r.
Qed.

Lemma payload_inj e1 e2 :
  wf_envelope e1 -> wf_envelope e2 -> payload_layout e1 = payload_layout e2 ->
  chain_id (nb_header (en_block e1)) = chain_id (nb_header (en_block e2)) /\
  en_network e1 = en_network e2 /\
  protocol_version (nb_header (en_block e1)) = protocol_version (nb_header (en_block e2)) /\
  NativeBlock_hash (en_block e1) = NativeBlock_hash (en_block e2).
Proof.
  intros (Hn1 & (Hh1 & _) & _) (Hn2 & (Hh2 & _) & _) E. unfold payload_layout in E.
  unfold wf_header in *. destruct_and!.
  do 3 (apply app_inj_1 in E as [_ E]; [|by rewrite !length_be_bytes]).
  apply app_inj_1 in E as [Ec E]; [|by rewrite !length_be_bytes].
  apply app_inj_1 in E as [En E]; [|by rewrite Hn1, Hn2].
  apply app_inj_1 in E as [Ep E]; [|by rewrite !length_be_bytes].
  split_and!; [by eapply (be_bytes_inj 8 U64)|done|by eapply (be_bytes_inj 4 U32)|done].
Qed.

(** ** Authentication *)

Record producer_authenticated (bs : bytes) (c : BlockAuthenticationContext)
    (pb : ProducerBinding) (claimed : option bytes) (p : AuthenticatedProducerBlock) : Prop := {
  pa_wf : wf_envelope (apb_envelope p);
  pa_bytes : bs = SignedBlockEnvelope_wire_bytes (apb_envelope p);
  pa_network : en_network (apb_envelope p) = ctx_network_id (bac_native c);
  pa_preflight : exists ids, preflighted (en_block (apb_envelope p)) (bac_native c) ids;
  pa_producer : nb_proposer (en_block (apb_envelope p)) = pb_producer_id pb;
  pa_signature :
    NativeSignature_from_bytes (en_signature (apb_envelope p)) = Ok (block_signature (apb_signature p));
  pa_digest : apb_digest p = keccak256 (SIGNING_DOMAIN ++ payload_layout (apb_envelope p));
  pa_id : apb_envelope_id p = hash_with_domain ENVELOPE_ID_DOMAIN bs;
  pa_claim : forall i, claimed = Some i -> i = apb_envelope_id p;
  pa_key : exists key, recover_public_key (block_signature (apb_signature p)) (apb_digest p) = Ok key /\
    encoded_point true key = pb_public_key pb;
  pa_policy : apb_context p = c /\ apb_binding p = pb
}.

Lemma authenticate_block_spec bs c pb claimed p :
  authenticate_block bs c pb claimed = Ok p <-> producer_authenticated bs c pb claimed p.
Proof.
  unfold authenticate_block, SignedBlockEnvelope_preflight, ProducerBinding_matches,
    BlockSignature_from_bytes, BlockSignature_recover. split.
  - intros. inv_ok. subst.
    match goal with H : SignedBlockEnvelope_from_wire_bytes _ = _ |- _ =>
      apply envelope_codec_iff in H as [Hwf _] end.
    constructor; cbn [apb_envelope apb_signature apb_digest apb_envelope_id apb_context apb_binding
      block_signature]; try done; try (symmetry; done).
    + eexists. by apply preflight_iff.
    + unfold block_signing_digest. rewrite signing_preimage_layout; [done|]. apply Hwf.
    + intros i ->. by inv_ok.
    + eauto.
  - intros [Hwf -> Hnet [ids Hpf] Hprod Hsig Hdig Hid Hclaim (key & Hkey & Hpk) [Hc Hb]].
    rewrite envelope_decode by done. rewrite bind_of_Ok.
    rewrite (proj2 (preflight_iff _ _ _) Hpf), Hnet, Hprod, Hsig. simpl map_err.
    destruct Hpf as [_ _ _ (_ & _ & _ & Hpid) _ _ _ _ _ _ _ _ _]. rewrite Hprod in Hpid.
    rewrite Hpid, !neq_dec_false by done. simpl.
    rewrite fail_if_false.
    2:{ destruct claimed as [i|]; [|done]. apply neq_dec_false. rewrite <- Hid. auto. }
    simpl. unfold block_signing_digest. rewrite signing_preimage_layout by apply Hwf.
    rewrite <- Hdig, Hkey. simpl. rewrite neq_dec_false by done. simpl.
    destruct p as [pe pc ppb [ps] pd pid]; simpl in *. by subst.
Qed.
End Statement.

(** ** Signing *)

Section BlockSigning.
  Context {KE : Keccak} {KC : K256} {KL : K256Laws KC}.

Lemma block_candidate_recovers key ent digest n r sg id :
  block_candidate key digest ent n r = Ok (sg, id) ->
  recover_from_prehash digest sg id = Some (verifying_key key).
Proof.
  unfold block_candidate, fresh_candidate. destruct r; simpl; intros; inv_ok.
  - simplify_eq. by apply trial_recovery_recovers.
  - by apply sign_recoverable_recovers.
Qed.

Lemma sign_digest_Ok key digest ent fuel s :
  sign_digest key digest ent fuel = Some (Ok s) ->
  NativeSignature_from_bytes s = Ok (mk_native_signature s) /\
  recover_public_key (mk_native_signature s) digest = Ok (verifying_key key).
Proof.
  unfold sign_digest. destruct (retry_loop _ _ _ _ _) as [[b|e]|] eqn:Hl; [|done..].
  simpl. intros [= <-]. apply retry_loop_Ok in Hl as (n & r & sg & id & Hc & _ & Hp).
  unfold BlockSignature_from_bytes in Hp. inv_ok. subst.
  match goal with H : NativeSignature_from_bytes _ = Ok _ |- _ =>
    pose proof (signature_from_bytes_id _ _ H) as [_ ->]; rename H into Hs end. simpl.
  split; [done|]. eapply compact_recovers; [done|]. by eapply block_candidate_recovers.
Qed.

Lemma sign_block_authenticates_lemma b key c pb ent fuel e :
  wf_block b -> length (ctx_network_id (bac_native c)) = 32%nat ->
  sign_block b key c pb ent fuel = Some (Ok e) ->
  en_block e = b /\
  exists p, authenticate_block (SignedBlockEnvelope_wire_bytes e) c pb None = Ok p /\
    apb_envelope p = e.
Proof.
  intros Hwf Hnet. unfold sign_block.
  destruct (_ ≫= _) as [e0|] eqn:Hpre; [|done].
  destruct (sign_digest _ _ _ _) as [[s|]|] eqn:Hs; [|done..]. intros [= <-].
  unfold SignedBlockEnvelope_from_parts, SignedBlockEnvelope_preflight,
    ProducerBinding_matches in Hpre.
  inv_ok. subst. simpl in *. split; [done|].
  apply sign_digest_Ok in Hs as [Hsig Hrec].
  unfold block_signing_digest in Hrec. rewrite signing_preimage_layout in Hrec by done.
  match goal with H : NativeBlock_preflight _ _ = Ok ?ids |- _ => apply preflight_iff in H end.
  eexists (mk_producer_block _ _ _ (mk_block_signature (mk_native_signature s)) _ _).
  split; [|reflexivity]. apply authenticate_block_spec. constructor; simpl; eauto; [|done].
  split_and!; try done. by apply signature_from_bytes_id in Hsig as [? _].
Qed.
End BlockSigning.

(** ** Properties *)

(** The signed-envelope codec is a bijection between envelopes (network
    and signature of their widths, a bounded block whose wire form has 289 to
    609,544 bytes) and the byte strings the decoder accepts. *)
Theorem envelope_wire_codec bs e :
  SignedBlockEnvelope_from_wire_bytes bs = Ok e <->
  wf_envelope e /\ SignedBlockEnvelope_wire_bytes e = bs.
Proof. apply envelope_codec_iff. Qed.

Section BlockAuthProperties.
  Context {KE : Keccak} {KC : K256}.

(** [authenticate_block] accepts exactly the canonical envelopes of the
    trusted network that preflight, name the bound producer, match the
    claimed id, carry a canonical signature and whose key recovered from the
    domain-separated statement is the bound key; its reconstruction check is
    redundant and never the reason of a rejection. *)
Theorem authenticate_block_correct bs c pb claimed :
  (forall p, authenticate_block bs c pb claimed = Ok p <-> producer_authenticated bs c pb claimed p) /\
  authenticate_block bs c pb claimed <> Err (AuthError.Frame "noncanonical reconstruction").
Proof.
  split; [intros p; apply authenticate_block_spec|]. unfold authenticate_block.
  destruct (SignedBlockEnvelope_from_wire_bytes bs) as [e|err] eqn:He.
  - rewrite bind_of_Ok. apply envelope_codec_iff in He as [_ <-].
    rewrite (neq_dec_false (SignedBlockEnvelope_wire_bytes e)) by done.
    unfold SignedBlockEnvelope_preflight, ProducerBinding_matches, BlockSignature_from_bytes,
      BlockSignature_recover, mbind, result_bind, fmap, result_fmap, map_err, fail_if.
    cbv zeta. intros H. repeat (case_match; simplify_eq).
  - simpl. intros [= ->]. clear - He. unfold SignedBlockEnvelope_from_wire_bytes in He.
    revert He. unfold auth_field, mbind, result_bind, fmap, result_fmap, map_err, fail_if, ok_or.
    intros H. repeat (case_match; simplify_eq).
Qed.

(** A producer signature speaks for one statement only: if the digests of
    two authenticated envelopes agree, chain, network, profile and block hash
    agree, and no authenticated native transaction has the same digest,
    unless two explicit preimages collide under Keccak-256. *)
Theorem block_statement_binds bs1 bs2 c1 c2 pb1 pb2 k1 k2 p1 p2 tx ct kt pt :
  authenticate_block bs1 c1 pb1 k1 = Ok p1 -> authenticate_block bs2 c2 pb2 k2 = Ok p2 ->
  authenticate tx ct kt = Ok pt ->
  let statement e := SIGNING_DOMAIN ++ payload_layout e in
  let e1 := apb_envelope p1 in let e2 := apb_envelope p2 in
  (apb_digest p1 = apb_digest p2 ->
   (chain_id (nb_header (en_block e1)) = chain_id (nb_header (en_block e2)) /\
    en_network e1 = en_network e2 /\
    protocol_version (nb_header (en_block e1)) = protocol_version (nb_header (en_block e2)) /\
    NativeBlock_hash (en_block e1) = NativeBlock_hash (en_block e2)) \/
   collides (statement e1) (statement e2)) /\
  (apb_digest p1 = signing_digest_field pt ->
   collides (statement e1) (TX_SIGNING_DOMAIN ++ unsigned_layout (unsigned (transaction pt)))).
Proof.
  intros H1%authenticate_block_spec H2%authenticate_block_spec Ht%authenticate_spec. cbv zeta.
  rewrite (pa_digest _ _ _ _ _ H1), (pa_digest _ _ _ _ _ H2), (au_digest _ _ _ _ Ht). split.
  - intros E. destruct (decide (payload_layout (apb_envelope p1) = payload_layout (apb_envelope p2)))
      as [Hp|Hne].
    + left. apply payload_inj; [apply H1|apply H2|done].
    + right. split; [by intros ?%app_inv_head|done].
  - intros E. split; [|done]. intros F%(f_equal length).
    rewrite !length_app, length_signing_domain, length_block_domain, length_payload in F
      by apply H1.
    rewrite length_unsigned_layout in F by apply (au_signed _ _ _ _ Ht).
    unfold UNSIGNED_LEN in F. lia.
Qed.

Context {KL : K256Laws KC}.

(** What [sign_block] returns carries the given block and authenticates
    under the same context and binding. *)
Theorem sign_block_authenticates b key c pb ent fuel e :
  wf_block b -> length (ctx_network_id (bac_native c)) = 32%nat ->
  sign_block b key c pb ent fuel = Some (Ok e) ->
  en_block e = b /\
  exists p, authenticate_block (SignedBlockEnvelope_wire_bytes e) c pb None = Ok p /\
    apb_envelope p = e.
Proof. apply sign_block_authenticates_lemma. Qed.
End BlockAuthProperties.

(** ** A concrete signed block *)

Definition toy_auth_context : BlockAuthenticationContext := mk_auth_context toy_context 2 1.
Definition toy_binding : ProducerBinding := mk_binding toy_proposer (x02 :: replicate 32 x05).
Definition toy_block : NativeBlock :=
  default (mk_native_block toy_header [] [] ProtocolData_empty [])
    (ok (@NativeBlock_empty_fixture_anchor toy_keccak toy_context 3 (zeros 32) toy_proposer 1)).
Definition toy_sign_block : option (result auth_error SignedBlockEnvelope) :=
  @sign_block toy_keccak toy_k256 toy_block toy_key toy_auth_context toy_binding (fun _ => None) 1.
Definition toy_envelope : SignedBlockEnvelope :=
  mk_envelope toy_network toy_block (replicate 64 x05 ++ [x00]).

#[export] Instance wf_block_dec b : Decision (wf_block b).
Proof. unfold wf_block. apply _. Defined.

Lemma toy_sign_block_ok : toy_sign_block = Some (Ok toy_envelope).
Proof. vm_compute. reflexivity. Qed.

Lemma sign_block_authenticates_witness :
  en_block toy_envelope = toy_block /\
  exists p, @authenticate_block toy_keccak toy_k256 (SignedBlockEnvelope_wire_bytes toy_envelope)
    toy_auth_context toy_binding None = Ok p /\ apb_envelope p = toy_envelope.
Proof.
  apply (@sign_block_authenticates toy_keccak toy_k256 toy_k256_laws toy_block toy_key
    toy_auth_context toy_binding (fun _ => None) 1 toy_envelope).
  - by_computation.
  - reflexivity.
  - exact toy_sign_block_ok.
Defined.

Definition toy_producer_block : AuthenticatedProducerBlock :=
  mk_producer_block toy_envelope toy_auth_context toy_binding
    (mk_block_signature (mk_native_signature (replicate 64 x05 ++ [x00])))
    (@block_signing_digest toy_keccak toy_envelope)
    (@envelope_id toy_keccak toy_envelope).

Lemma block_statement_binds_witness :
  exists pt,
  @block_signing_digest toy_keccak toy_envelope = signing_digest_field pt ->
  @collides toy_keccak (SIGNING_DOMAIN ++ @payload_layout toy_keccak toy_envelope)
    (TX_SIGNING_DOMAIN ++ unsigned_layout (unsigned (transaction pt))).
Proof.
  eexists (mk_authenticated (toy_signed 0 5) _ _ _).
  eapply (@block_statement_binds toy_keccak toy_k256
    (SignedBlockEnvelope_wire_bytes toy_envelope) (SignedBlockEnvelope_wire_bytes toy_envelope)
    toy_auth_context toy_auth_context toy_binding toy_binding None None
    toy_producer_block toy_producer_block (toy_bytes 0 5) toy_context None);
    vm_compute; reflexivity.
Defined.
