(* ===== verification/LeaderSelection.v ===== *)
(** * Leader selection (src/src/leader_selection.rs)

    The two-stage ticket lottery of the historical node: a slot seed from a
    block hash 32 slots back, a bucket drawn by rejection sampling over the
    active tickets, and the lowest ticket score inside that bucket.

    The theorems show that the sampling loop always ends and is exactly
    uniform, that the cumulative scan picks the bucket of the offset-th
    active ticket, that the scan over scores returns the least (score, id)
    pair whatever the order of the rows, and that a leader exists exactly
    when some active ticket does. *)

From S2P Require Import Prelude Crypto.

(** ** A retry loop over a [u64] counter *)

(** At most [n] rounds, left as soon as one returns [inr]. *)
Fixpoint iter_until {S R} (n : positive) (f : S -> S + R) (s : S) : S + R :=
  match n with
  | xH => f s
  | xO m => match iter_until m f s with inl s' => iter_until m f s' | inr r => inr r end
  | xI m =>
      match f s with
      | inl s1 =>
          match iter_until m f s1 with inl s' => iter_until m f s' | inr r => inr r end
      | inr r => inr r
      end
  end.

Section RetryLoop.
  Context {R : Type} (accept : Z -> option R) (exhausted : R).

(** One round: leave with the accepted value, or [retry.checked_add(1)]. *)
Definition retry_step (retry : Z) : Z + R :=
  match accept retry with
  | Some r => inr r
  | None => match checked_add U64 retry 1 with Some r => inl r | None => inr exhausted end
  end.

(** The [loop] of the source; [2^64] rounds always suffice since the counter
    cannot be incremented more often (see [retry_until_spec]). *)
Definition retry_until : R :=
  match iter_until (2 ^ 64) retry_step 0%Z with inr r => r | inl _ => exhausted end.

(** What [k] rounds from counter [r] established. *)
Definition advanced (r k : Z) (res : Z + R) : Prop :=
  match res with
  | inl r' => r' = (r + k)%Z /\ (r' < U64)%Z /\ (forall m, (r <= m < r')%Z -> accept m = None)
  | inr x =>
      (exists m, (r <= m < r + k)%Z /\ accept m = Some x /\
         forall j, (r <= j < m)%Z -> accept j = None) \/
      (x = exhausted /\ (r + k = U64)%Z /\ forall m, (r <= m < U64)%Z -> accept m = None)
  end.

Lemma advanced_step r : (0 <= r < U64)%Z -> advanced r 1 (retry_step r).
Proof.
  intros Hr. unfold retry_step, checked_add. destruct (accept r) eqn:Ha; simpl.
  { left. exists r. split; [lia|]. split; [done|intros; lia]. }
  destruct (Z.ltb_spec (r + 1) U64).
  - split_and!; [done|done|]. intros m Hm. by replace m with r by lia.
  - right. split_and!; [done|lia|]. intros m Hm. by replace m with r by lia.
Qed.

Lemma advanced_compose r a b r1 res :
  (0 < a)%Z -> (0 < b)%Z -> advanced r a (inl r1) -> advanced r1 b res -> advanced r (a + b) res.
Proof.
  intros Ha Hb (-> & _ & Hn) H. destruct res as [r'|x]; simpl in *.
  - destruct H as (-> & ? & Hn'). split_and!; [lia|lia|]. intros m Hm.
    destruct (Z.lt_ge_cases m (r + a)); [apply Hn|apply Hn']; lia.
  - destruct H as [(j & Hj & Hacc & Hn')|(-> & He & Hn')].
    + left. exists j. split_and!; [lia|lia|done|]. intros m Hm.
      destruct (Z.lt_ge_cases m (r + a)); [apply Hn|apply Hn']; lia.
    + right. split_and!; [done|lia|]. intros m Hm.
      destruct (Z.lt_ge_cases m (r + a)); [apply Hn|apply Hn']; lia.
Qed.

Lemma advanced_stop r a b x :
  (0 < b)%Z -> (r + a + b <= U64)%Z -> advanced r a (inr x) -> advanced r (a + b) (inr x).
Proof.
  intros Hb Hle [(j & Hj & ? & ?)|(_ & ? & _)]; [|lia]. left. exists j. split_and!; [lia|lia|done..].
Qed.

Lemma advanced_twice r (k : positive) (f : Z -> Z + R) :
  (0 <= r)%Z -> (r + 2 * Zpos k <= U64)%Z ->
  (forall q, (0 <= q)%Z -> (q + Zpos k <= U64)%Z -> advanced q (Zpos k) (f q)) ->
  advanced r (2 * Zpos k) (match f r with inl s => f s | inr x => inr x end).
Proof.
  intros Hr Hle Hf. pose proof (Hf r Hr ltac:(lia)) as H1.
  replace (2 * Zpos k)%Z with (Zpos k + Zpos k)%Z by lia.
  destruct (f r) as [s|x]; [|apply advanced_stop; [lia..|done]].
  pose proof H1 as (-> & _). eapply advanced_compose; [lia..|done|]. apply Hf; lia.
Qed.

Lemma iter_retry_spec n r :
  (0 <= r)%Z -> (r + Zpos n <= U64)%Z -> advanced r (Zpos n) (iter_until n retry_step r).
Proof.
  revert r. induction n as [m IH|m IH|]; intros r Hr Hle; cbn [iter_until].
  - rewrite Pos2Z.inj_xI in *. replace (2 * Zpos m + 1)%Z with (1 + 2 * Zpos m)%Z by lia.
    pose proof (advanced_step r ltac:(lia)) as H0.
    destruct (retry_step r) as [s|x]; [|apply advanced_stop; [lia..|done]].
    pose proof H0 as (-> & _). eapply advanced_compose; [lia..|done|].
    apply advanced_twice; [lia..|done].
  - rewrite Pos2Z.inj_xO in *. by apply advanced_twice.
  - apply advanced_step. lia.
Qed.

(** The loop returns: the value of the first accepted retry, or [exhausted]
    when none of the [2^64] retries is accepted. *)
Lemma retry_until_spec :
  (exists n, (0 <= n < U64)%Z /\ accept n = Some retry_until /\
     forall m, (0 <= m < n)%Z -> accept m = None) \/
  (retry_until = exhausted /\ forall m, (0 <= m < U64)%Z -> accept m = None).
Proof.
  pose proof (iter_retry_spec (2 ^ 64) 0 ltac:(done) ltac:(done)) as H. unfold retry_until.
  destruct (iter_until _ _ _) as [r|x]; simpl in H; [lia|].
  destruct H as [(n & ? & ? & ?)|(-> & _ & ?)]; [left; eauto|by right].
Qed.
End RetryLoop.

(** ** Seeds, sampling and buckets *)

Definition LEADER_SELECTION_DOMAIN : bytes := str "eternix:leader-selection:v1".
Definition BUCKET_SELECTION_DOMAIN : bytes := str "eternix:bucket-selection:v1".
Definition TICKET_SELECTION_DOMAIN : bytes := str "eternix:ticket-selection:v1".
Definition BLOCK_HASH_LOOKBACK_SLOTS : Z := 32.

Definition historical_block_slot (slot_index : Z) : Z :=
  saturating_sub slot_index BLOCK_HASH_LOOKBACK_SLOTS.

(** A ticket of src/src/models.rs. *)
Record ModelTicket : Type := mk_model_ticket {
  mt_id : Z;
  mt_owner : bytes;
  mt_bucket : Z;
  mt_muted : bool;
  mt_dead : bool;
  mt_retiring : bool;
  mt_retire_requested_epoch : option Z;
  mt_retire_effective_epoch : option Z
}.

(** The [[u64; 256]] of counts is a list of 256 integers. *)
Definition count_at (counts : list Z) (b : nat) : Z := nth b counts 0%Z.

(** [2..=255] *)
Definition active_buckets : list nat := seq 2 254.

(** [for bucket_id in 2..=255], on a list of bucket ids. *)
Fixpoint bucket_scan (counts : list Z) (ids : list nat) (offset : Z) : option nat :=
  match ids with
  | [] => None
  | b :: rest =>
      if (offset <? count_at counts b)%Z then Some b else
      match checked_sub offset (count_at counts b) with
      | Some offset' => bucket_scan counts rest offset'
      | None => None
      end
  end.

Definition bucket_for_offset (counts : list Z) (offset : Z) : option nat :=
  bucket_scan counts active_buckets offset.

(** [try_fold(0, |total, b| total.checked_add(counts[b]))] *)
Fixpoint checked_total (counts : list Z) (ids : list nat) (total : Z) : option Z :=
  match ids with
  | [] => Some total
  | b :: rest =>
      match checked_add U64 total (count_at counts b) with
      | Some total' => checked_total counts rest total'
      | None => None
      end
  end.

(** [counts[bucket] += 1], checked. *)
Definition increment (counts : list Z) (b : nat) : option (list Z) :=
  match checked_add U64 (count_at counts b) 1 with
  | Some c => Some (<[b := c]> counts)
  | None => None
  end.

Fixpoint count_buckets (bs : list Z) (counts : list Z) : option (list Z) :=
  match bs with
  | [] => Some counts
  | b :: rest =>
      if (b <? 2)%Z then count_buckets rest counts else
      match increment counts (Z.to_nat b) with
      | Some counts' => count_buckets rest counts'
      | None => None
      end
  end.

(** [(hash, id) < (current, best)] on tuples. *)
Definition key_ltb (a b : bytes * Z) : bool :=
  match bytes_compare a.1 b.1 with
  | Lt => true
  | Eq => (a.2 <? b.2)%Z
  | Gt => false
  end.

Section Selection.
  Context `{KE : Keccak}.

Definition slot_randomness (historical_block_hash : bytes) (slot_index : Z) : bytes :=
  keccak256 (LEADER_SELECTION_DOMAIN ++ historical_block_hash ++ be_bytes 8 slot_index).

(** The first eight digest bytes of one retry. *)
Definition bucket_raw (seed : bytes) (retry : Z) : Z :=
  be_val (slice 8 0 (keccak256 (BUCKET_SELECTION_DOMAIN ++ seed ++ be_bytes 8 retry))).

Definition uniform_below (seed : bytes) (upper_bound : Z) : option Z :=
  if (upper_bound =? 0)%Z then None else
  let threshold := (wrapping_neg U64 upper_bound mod upper_bound)%Z in
  retry_until (fun retry =>
    let raw := bucket_raw seed retry in
    if (threshold <=? raw)%Z then Some (Some (raw mod upper_bound)%Z) else None) None.

Definition select_bucket (seed : bytes) (counts : list Z) : option nat :=
  total ← checked_total counts active_buckets 0;
  offset ← uniform_below seed total;
  bucket_for_offset counts offset.

Definition ticket_score (seed : bytes) (ticket_id : Z) : bytes :=
  keccak256 (TICKET_SELECTION_DOMAIN ++ seed ++ be_bytes 8 ticket_id).

(** [best_ticket] and [best_score] of the scan. *)
Definition select_ticket_step (seed : bytes) (best : option Z * option bytes) (ticket_id : Z) :
    option Z * option bytes :=
  let hash := ticket_score seed ticket_id in
  match best.2 with
  | None => (Some ticket_id, Some hash)
  | Some current =>
      if key_ltb (hash, ticket_id) (current, default ticket_id best.1)
      then (Some ticket_id, Some hash) else best
  end.

Definition select_ticket (seed : bytes) (ticket_ids : list Z) : option Z :=
  (fold_left (select_ticket_step seed) ticket_ids (None, None)).1.

Definition select_leader_ticket (historical_block_hash : bytes) (slot_index : Z)
    (eligible_tickets : list ModelTicket) : option (bytes * Z) :=
  if eligible_tickets ==? [] then None else
  let seed := slot_randomness historical_block_hash slot_index in
  counts ← count_buckets (map mt_bucket eligible_tickets) (replicate 256 0%Z);
  chosen_bucket ← select_bucket seed counts;
  let ids := map mt_id (filter (fun t => mt_bucket t = Z.of_nat chosen_bucket) eligible_tickets) in
  winner ← select_ticket seed ids;
  t ← head (filter (fun t => mt_id t = winner) eligible_tickets);
  Some (mt_owner t, mt_id t).
End Selection.

(** ** Rejection sampling is exactly uniform *)

Definition rejection_threshold (n : Z) : Z := (wrapping_neg U64 n mod n)%Z.

Lemma rejection_threshold_eq n :
  (0 < n < U64)%Z ->
  rejection_threshold n = (U64 mod n)%Z /\
  (U64 - rejection_threshold n = n * (U64 / n))%Z.
Proof.
  intros Hn. unfold rejection_threshold, wrapping_neg.
  assert ((- n) mod U64 = U64 - n)%Z as ->.
  { rewrite Z.mod_opp_l_nz; rewrite ?(Z.mod_small n U64) by lia; lia. }
  assert ((U64 - n) mod n = U64 mod n)%Z as ->.
  { replace (U64 - n)%Z with (U64 + (-1) * n)%Z by lia. apply Z.mod_add. lia. }
  split; [done|]. pose proof (Z.div_mod U64 n). lia.
Qed.

(** The [k]-th accepted raw value that yields [off]. *)
Definition accepted_raw (n off k : Z) : Z :=
  (rejection_threshold n + k * n + (off - rejection_threshold n) mod n)%Z.

Lemma accepted_raw_ok n off k :
  (0 < n < U64)%Z -> (0 <= off < n)%Z -> (0 <= k < U64 / n)%Z ->
  (rejection_threshold n <= accepted_raw n off k < U64)%Z /\ (accepted_raw n off k mod n = off)%Z.
Proof.
  intros Hn Hoff Hk. pose proof (rejection_threshold_eq n Hn) as [_ Ht].
  unfold accepted_raw. set (t := rejection_threshold n) in *.
  pose proof (Z.mod_pos_bound (off - t) n ltac:(lia)). split; [nia|].
  replace (t + k * n + (off - t) mod n)%Z with ((off - t) mod n + t + k * n)%Z by lia.
  rewrite Z.mod_add by lia. rewrite Z.add_mod_idemp_l by lia.
  replace (off - t + t)%Z with off by lia. by apply Z.mod_small.
Qed.

Lemma accepted_raw_complete n raw :
  (0 < n < U64)%Z -> (rejection_threshold n <= raw < U64)%Z ->
  exists k, (0 <= k < U64 / n)%Z /\ raw = accepted_raw n (raw mod n) k.
Proof.
  intros Hn Hraw. pose proof (rejection_threshold_eq n Hn) as [_ Ht].
  unfold accepted_raw. set (t := rejection_threshold n) in *.
  exists ((raw - t) / n)%Z. split.
  - split; [apply Z.div_pos; lia|]. apply Z.div_lt_upper_bound; lia.
  - rewrite <- Zminus_mod_idemp_l, Z.mod_mod, Zminus_mod_idemp_l by lia.
    pose proof (Z.div_mod (raw - t) n). lia.
Qed.

Lemma accepted_raw_inj n off k k' :
  (0 < n)%Z -> accepted_raw n off k = accepted_raw n off k' -> k = k'.
Proof. unfold accepted_raw. intros. nia. Qed.

(** ** The cumulative scan *)

Definition expand (counts : list Z) (ids : list nat) : list nat :=
  concat (map (fun b => replicate (Z.to_nat (count_at counts b)) b) ids).

Definition counts_ok (counts : list Z) : Prop := forall b, (0 <= count_at counts b)%Z.

Lemma bucket_scan_expand counts ids offset :
  counts_ok counts -> (0 <= offset)%Z ->
  bucket_scan counts ids offset = expand counts ids !! Z.to_nat offset.
Proof.
  intros Hc. revert offset. induction ids as [|b ids IH]; intros offset Ho; [done|].
  cbn [bucket_scan]. unfold expand. cbn [map concat]. fold (expand counts ids).
  pose proof (Hc b). unfold checked_sub.
  destruct (Z.ltb_spec offset (count_at counts b)).
  - rewrite lookup_app_l by (rewrite length_replicate; lia).
    symmetry. apply lookup_replicate. split; [done|lia].
  - destruct (Z.leb_spec (count_at counts b) offset); [|lia].
    rewrite lookup_app_r by (rewrite length_replicate; lia).
    rewrite length_replicate, IH by lia. f_equal. lia.
Qed.

Lemma checked_total_expand counts ids total :
  counts_ok counts -> (0 <= total)%Z ->
  checked_total counts ids total =
  if (total + Z.of_nat (length (expand counts ids)) <? U64)%Z || (ids ==? [])
  then Some (total + Z.of_nat (length (expand counts ids)))%Z else None.
Proof.
  intros Hc. revert total. induction ids as [|b ids IH]; intros total Ht.
  { simpl. rewrite orb_true_r. f_equal. lia. }
  cbn [checked_total]. unfold expand. cbn [map concat]. fold (expand counts ids).
  rewrite length_app, length_replicate. pose proof (Hc b). unfold checked_add.
  rewrite (bool_decide_eq_false_2 (b :: ids = [])) by done. rewrite orb_false_r.
  destruct (Z.ltb_spec (total + count_at counts b) U64) as [Hlt|Hge].
  - rewrite IH by lia.
    replace (total + count_at counts b + Z.of_nat (length (expand counts ids)))%Z
      with (total + Z.of_nat (Z.to_nat (count_at counts b) + length (expand counts ids)))%Z by lia.
    destruct ids as [|i ids];
      [|by rewrite (bool_decide_eq_false_2 (i :: ids = [])), orb_false_r by done].
    rewrite orb_true_r. unfold expand; simpl.
    by rewrite (proj2 (Z.ltb_lt _ _)) by lia.
  - by rewrite (proj2 (Z.ltb_ge _ _)) by lia.
Qed.

(** ** Counting *)

Lemma count_at_insert counts b c b' :
  (b < length counts)%nat ->
  count_at (<[b := c]> counts) b' = if decide (b' = b) then c else count_at counts b'.
Proof.
  intros Hb. unfold count_at. rewrite !nth_lookup. case_decide as E.
  - subst. by rewrite list_lookup_insert_eq.
  - by rewrite list_lookup_insert_ne.
Qed.

Definition occurrences (b : nat) (bs : list Z) : nat :=
  length (filter (fun x => x = Z.of_nat b) bs).

Lemma count_buckets_spec bs counts :
  length counts = 256%nat -> Forall (in_width U8) bs ->
  (forall b, (0 <= count_at counts b)%Z /\ (count_at counts b + Z.of_nat (length bs) < U64)%Z) ->
  exists counts', count_buckets bs counts = Some counts' /\ length counts' = 256%nat /\
    forall b, count_at counts' b =
      (count_at counts b + if decide (2 <= b)%nat then Z.of_nat (occurrences b bs) else 0)%Z.
Proof.
  revert counts. induction bs as [|x bs IH]; intros counts Hl Hw Hb.
  { exists counts. split_and!; [done..|]. intros b. case_decide; unfold occurrences; simpl; lia. }
  apply Forall_cons_1 in Hw as [Hx Hw]. unfold in_width in Hx. cbn [count_buckets length] in *.
  destruct (Z.ltb_spec x 2).
  - destruct (IH counts Hl Hw) as (counts' & Hr & Hl' & Hc); [intros b; specialize (Hb b); lia|].
    exists counts'. split_and!; [done..|]. intros b. rewrite Hc. case_decide; [|done].
    unfold occurrences. rewrite filter_cons_False by lia. done.
  - unfold increment, checked_add. pose proof (Hb (Z.to_nat x)).
    rewrite (proj2 (Z.ltb_lt _ _)) by lia.
    destruct (IH (<[Z.to_nat x := (count_at counts (Z.to_nat x) + 1)%Z]> counts))
      as (counts' & Hr & Hl' & Hc).
    { by rewrite length_insert. }
    { done. }
    { intros b. pose proof (Hb b). rewrite count_at_insert by lia. case_decide; subst; lia. }
    exists counts'. split_and!; [done..|]. intros b. rewrite Hc, count_at_insert by lia.
    unfold occurrences. rewrite filter_cons. repeat case_decide; subst; simpl length; lia.
Qed.

(** ** Least keys *)

Definition key_leb (a b : bytes * Z) : bool := negb (key_ltb b a).

Lemma key_leb_iff a b :
  key_leb a b = true <-> bytes_leb a.1 b.1 = true /\ (a.1 = b.1 -> (a.2 <= b.2)%Z).
Proof.
  unfold key_leb, key_ltb, bytes_leb. rewrite (bytes_compare_antisym a.1 b.1).
  destruct (bytes_compare a.1 b.1) eqn:E; simpl.
  - apply bytes_compare_Eq in E. rewrite negb_true_iff, Z.ltb_ge. naive_solver.
  - split; [|done]. intros _. split; [done|]. intros H. rewrite H, bytes_compare_refl in E. done.
  - naive_solver.
Qed.

Lemma key_leb_total a b : key_leb a b = true \/ key_leb b a = true.
Proof.
  rewrite !key_leb_iff.
  destruct (decide (a.1 = b.1)) as [E|Hne].
  - rewrite E. destruct (bytes_leb_total b.1 b.1) as [H|H]; rewrite H;
      destruct (Z.le_ge_cases a.2 b.2); [left|right|left|right]; (split; [done|lia]).
  - destruct (bytes_leb_total a.1 b.1); [left|right]; (split; [done|congruence]).
Qed.

Lemma key_leb_trans a b c : key_leb a b = true -> key_leb b c = true -> key_leb a c = true.
Proof.
  rewrite !key_leb_iff. intros [H1 H1'] [H2 H2']. split; [by eapply bytes_leb_trans|].
  intros E. assert (a.1 = b.1) as E1.
  { apply bytes_leb_antisym; [done|]. by rewrite E. }
  assert (b.1 = c.1) by congruence. specialize (H1' E1). specialize (H2' ltac:(done)). lia.
Qed.

Lemma key_leb_antisym a b : key_leb a b = true -> key_leb b a = true -> a = b.
Proof.
  rewrite !key_leb_iff. intros [H1 H1'] [H2 H2']. pose proof (bytes_leb_antisym _ _ H1 H2) as E.
  specialize (H1' E). specialize (H2' (eq_sym E)). destruct a, b; simpl in *. f_equal; [done|lia].
Qed.

Lemma key_ltb_leb a b : key_ltb a b = negb (key_leb b a).
Proof. unfold key_leb. by rewrite negb_involutive. Qed.

(** [w] is the element of [l] with the least key. *)
Definition least {A} (key : A -> bytes * Z) (l : list A) (w : A) : Prop :=
  w ∈ l /\ forall x, x ∈ l -> key_leb (key w) (key x) = true.

Lemma least_unique {A} (key : A -> bytes * Z) l w w' :
  (forall x y, x ∈ l -> y ∈ l -> key x = key y -> x = y) ->
  least key l w -> least key l w' -> w = w'.
Proof. intros Hinj [H1 H2] [H1' H2']. apply Hinj; [done..|]. apply key_leb_antisym; auto. Qed.

Lemma least_perm {A} (key : A -> bytes * Z) l k w : l ≡ₚ k -> least key l w -> least key k w.
Proof. intros Hp [H1 H2]. split; [by rewrite <- Hp|]. intros x Hx. apply H2. by rewrite Hp. Qed.

Lemma least_app_keep {A} (key : A -> bytes * Z) l w x :
  least key l w -> key_ltb (key x) (key w) = false -> least key (l ++ [x]) w.
Proof.
  intros [H1 H2] Hk. split; [apply elem_of_app; by left|].
  intros y [Hy|Hy]%elem_of_app; [auto|]. apply list_elem_of_singleton in Hy as ->.
  rewrite key_ltb_leb, negb_false_iff in Hk. done.
Qed.

Lemma least_app_replace {A} (key : A -> bytes * Z) l w x :
  least key l w -> key_ltb (key x) (key w) = true -> least key (l ++ [x]) x.
Proof.
  intros [H1 H2] Hk. rewrite key_ltb_leb, negb_true_iff in Hk.
  assert (key_leb (key x) (key w) = true) as Hx.
  { destruct (key_leb_total (key x) (key w)); congruence. }
  split; [apply elem_of_app; right; by left|].
  intros y [Hy|Hy]%elem_of_app.
  - eapply key_leb_trans; [done|]. auto.
  - apply list_elem_of_singleton in Hy as ->. destruct (key_leb_total (key x) (key x)); done.
Qed.

Section Winners.
  Context {KE : Keccak}.

Definition score_key (seed : bytes) (i : Z) : bytes * Z := (ticket_score seed i, i).

Lemma select_ticket_fold seed ids :
  match fold_left (select_ticket_step seed) ids (None, None) with
  | (None, None) => ids = []
  | (Some w, Some h) => h = ticket_score seed w /\ least (score_key seed) ids w
  | _ => False
  end.
Proof.
  induction ids as [|i ids IH] using rev_ind; [done|]. rewrite fold_left_app. simpl.
  destruct (fold_left _ ids _) as [[w|] [h|]]; try done.
  - destruct IH as [-> Hw]. unfold select_ticket_step; simpl.
    destruct (key_ltb _ _) eqn:Hk.
    + split; [done|]. by eapply least_app_replace.
    + split; [done|]. by apply least_app_keep.
  - subst. unfold select_ticket_step; simpl. split; [done|]. split; [by left|].
    intros x ->%list_elem_of_singleton. destruct (key_leb_total (score_key seed i) (score_key seed i)); done.
Qed.

Lemma select_ticket_least seed ids w :
  select_ticket seed ids = Some w <-> least (score_key seed) ids w.
Proof.
  unfold select_ticket. pose proof (select_ticket_fold seed ids) as H.
  destruct (fold_left _ ids _) as [[v|] [h|]]; try done; simpl; split.
  - intros [= <-]. apply H.
  - intros Hw. f_equal. eapply least_unique; [|apply H|done].
    intros x y _ _ E. exact (f_equal snd E).
  - done.
  - subst. by intros [?%not_elem_of_nil _].
Qed.

Lemma select_ticket_None seed ids : select_ticket seed ids = None <-> ids = [].
Proof.
  unfold select_ticket. pose proof (select_ticket_fold seed ids) as H.
  destruct (fold_left _ ids _) as [[v|] [h|]]; try done; simpl; split; try done.
  intros ->. destruct H as [_ [?%not_elem_of_nil _]]. done.
Qed.

Lemma bucket_raw_width seed retry : in_width U64 (bucket_raw seed retry).
Proof.
  unfold bucket_raw. eapply (be_val_width 8); [done|]. apply length_slice. rewrite keccak256_length. lia.
Qed.

(** The sampler's answer: from the first retry whose raw value is not
    rejected; [None] only for the bound zero or when all 2^64 retries are
    rejected. *)
Lemma uniform_below_spec seed n :
  (0 < n < U64)%Z ->
  (exists retry, (0 <= retry < U64)%Z /\
     (rejection_threshold n <= bucket_raw seed retry)%Z /\
     (forall r, (0 <= r < retry)%Z -> (bucket_raw seed r < rejection_threshold n)%Z) /\
     uniform_below seed n = Some (bucket_raw seed retry mod n)%Z) \/
  (uniform_below seed n = None /\
   forall r, (0 <= r < U64)%Z -> (bucket_raw seed r < rejection_threshold n)%Z).
Proof.
  intros Hn. unfold uniform_below. destruct (Z.eqb_spec n 0); [lia|]. cbv zeta.
  fold (rejection_threshold n).
  match goal with |- context [retry_until ?a ?e] =>
    destruct (retry_until_spec a e) as [(r & Hr & Ha & Hall)|[He Hall]] end.
  - left. exists r. cbv beta zeta in *.
    destruct (Z.leb_spec (rejection_threshold n) (bucket_raw seed r)); [|done].
    split_and!; [lia..|done| |by injection Ha].
    intros m Hm. specialize (Hall m Hm). cbv beta zeta in Hall.
    by destruct (Z.leb_spec (rejection_threshold n) (bucket_raw seed m)).
  - right. split; [done|]. intros m Hm. specialize (Hall m Hm). cbv beta zeta in Hall.
    by destruct (Z.leb_spec (rejection_threshold n) (bucket_raw seed m)).
Qed.

Lemma uniform_below_range seed n off :
  (0 < n < U64)%Z -> uniform_below seed n = Some off -> (0 <= off < n)%Z.
Proof.
  intros Hn H. destruct (uniform_below_spec seed n Hn) as [(r & _ & _ & _ & E)|[E _]];
    rewrite E in H; [|done]. injection H as <-. apply Z.mod_pos_bound. lia.
Qed.
End Winners.

(** ** The whole selection *)

(** The buckets of the active tickets, in increasing order with
    multiplicity: position [off] is the bucket of the [off]-th ticket. *)
Definition active_sequence (bs : list Z) : list nat :=
  concat (map (fun b => replicate (occurrences b bs) b) active_buckets).

Definition active (b : Z) : Prop := (2 <= b)%Z.
#[export] Instance active_dec b : Decision (active b).
Proof. unfold active. apply _. Defined.

Lemma length_expand_cons x bs ids :
  NoDup ids ->
  length (concat (map (fun b => replicate (occurrences b (x :: bs)) b) ids)) =
  (length (concat (map (fun b => replicate (occurrences b bs) b) ids)) +
   if decide (x ∈ map Z.of_nat ids) then 1 else 0)%nat.
Proof.
  induction 1 as [|b ids Hb _ IH]; cbn [map concat].
  { by rewrite decide_False by apply not_elem_of_nil. }
  rewrite !length_app, IH, !length_replicate. unfold occurrences at 1. rewrite filter_cons.
  destruct (decide (x = Z.of_nat b)) as [->|Hne]; simpl length.
  - rewrite (decide_True (P := Z.of_nat b ∈ Z.of_nat b :: _)) by left.
    rewrite decide_False; [unfold occurrences; lia|].
    intros (b' & ->%Nat2Z.inj & ?)%list_elem_of_fmap. done.
  - unfold occurrences. destruct (decide (x ∈ map Z.of_nat ids)) as [E|E].
    + rewrite decide_True by (by right). lia.
    + rewrite decide_False by (by intros [?|?]%elem_of_cons). lia.
Qed.

Lemma length_active_sequence bs :
  Forall (in_width U8) bs -> length (active_sequence bs) = length (filter active bs).
Proof.
  induction 1 as [|x bs Hx _ IH].
  { unfold active_sequence. vm_compute. reflexivity. }
  unfold active_sequence in *. rewrite length_expand_cons by apply NoDup_seq.
  rewrite IH, filter_cons. unfold active_buckets, in_width in *.
  destruct (decide (active x)) as [Ha|Ha]; unfold active in Ha; simpl length.
  - rewrite decide_True; [lia|]. apply list_elem_of_fmap. exists (Z.to_nat x).
    rewrite elem_of_seq. lia.
  - rewrite decide_False; [lia|]. intros (b & -> & Hb)%list_elem_of_fmap.
    rewrite elem_of_seq in Hb. lia.
Qed.

Section Leader.
  Context {KE : Keccak}.

Lemma count_initial bs :
  Forall (in_width U8) bs -> (Z.of_nat (length bs) < U64)%Z ->
  exists counts, count_buckets bs (replicate 256 0%Z) = Some counts /\ counts_ok counts /\
    expand counts active_buckets = active_sequence bs.
Proof.
  intros Hw Hl. assert (forall b, count_at (replicate 256 0%Z) b = 0%Z) as H0.
  { intros b. unfold count_at. rewrite nth_lookup.
    destruct (replicate 256 0%Z !! b) as [z|] eqn:E; [|done].
    by apply lookup_replicate in E as [-> _]. }
  destruct (count_buckets_spec bs (replicate 256 0%Z)) as (counts & Hc & _ & Hat);
    [by rewrite length_replicate|done|intros b; rewrite H0; lia|].
  exists counts. split_and!; [done| |].
  - intros b. rewrite Hat, H0. case_decide; lia.
  - unfold expand, active_sequence. f_equal. apply map_ext_in. intros b Hb.
    rewrite Hat, H0. apply list_elem_of_In in Hb. unfold active_buckets in Hb.
    rewrite elem_of_seq in Hb. rewrite decide_True by lia. f_equal. lia.
Qed.

(** The ticket the lottery designates for a seed and an offset. *)
Definition designated (seed : bytes) (ts : list ModelTicket) (off : Z) (t : ModelTicket) : Prop :=
  exists b, active_sequence (map mt_bucket ts) !! Z.to_nat off = Some b /\
    t ∈ ts /\ mt_bucket t = Z.of_nat b /\
    least (score_key seed)
      (map mt_id (filter (fun u => mt_bucket u = Z.of_nat b) ts)) (mt_id t).

Definition eligible_input (ts : list ModelTicket) : Prop :=
  NoDup (map mt_id ts) /\ Forall (fun t => in_width U8 (mt_bucket t)) ts /\
  (Z.of_nat (length ts) < U64)%Z.

Definition active_count (ts : list ModelTicket) : Z :=
  Z.of_nat (length (filter active (map mt_bucket ts))).

Lemma find_unique ts i t :
  NoDup (map mt_id ts) -> t ∈ ts -> mt_id t = i ->
  head (filter (fun u => mt_id u = i) ts) = Some t.
Proof.
  intros Hnd Ht <-. induction ts as [|u ts IH]; [by apply not_elem_of_nil in Ht|].
  cbn [map] in Hnd. apply NoDup_cons in Hnd as [Hu Hnd]. rewrite filter_cons.
  apply elem_of_cons in Ht as [->|Ht]; [by rewrite decide_True|].
  rewrite decide_False; [by apply IH|]. intros E. apply Hu. rewrite E.
  apply list_elem_of_fmap. by exists t.
Qed.

Lemma active_sequence_occurs bs off b :
  active_sequence bs !! off = Some b -> Z.of_nat b ∈ bs.
Proof.
  intros Hb%list_elem_of_lookup_2. unfold active_sequence in Hb.
  apply list_elem_of_In, in_concat in Hb as (l & Hl & Hb).
  apply in_map_iff in Hl as (b' & <- & _). apply list_elem_of_In, elem_of_replicate in Hb as [-> Hn].
  unfold occurrences in Hn. destruct (filter _ bs) as [|x l] eqn:E; [done|].
  assert (x ∈ filter (fun y => y = Z.of_nat b') bs) as Hx by (rewrite E; left).
  apply list_elem_of_filter in Hx as [-> ?]. done.
Qed.

Lemma select_leader_designated h slot ts :
  eligible_input ts -> ts <> [] ->
  let seed := slot_randomness h slot in
  match uniform_below seed (active_count ts) with
  | None => select_leader_ticket h slot ts = None
  | Some off => exists t, designated seed ts off t /\
      select_leader_ticket h slot ts = Some (mt_owner t, mt_id t)
  end.
Proof.
  intros (Hnd & Hw & Hl) Hne seed. unfold select_leader_ticket.
  rewrite bool_decide_eq_false_2 by done. cbv zeta. fold seed.
  assert (Forall (in_width U8) (map mt_bucket ts)) as Hw' by by apply Forall_fmap.
  destruct (count_initial (map mt_bucket ts)) as (counts & -> & Hok & Hexp);
    [done|by rewrite length_map|].
  pose proof (length_active_sequence _ Hw') as Hlen.
  assert (Z.of_nat (length (active_sequence (map mt_bucket ts))) = active_count ts) as Hcount
    by (unfold active_count; lia).
  assert (active_count ts < U64)%Z as Hlt.
  { unfold active_count. pose proof (length_filter active (map mt_bucket ts)).
    rewrite length_map in *. lia. }
  simpl. unfold select_bucket.
  rewrite checked_total_expand by (done || lia). rewrite Hexp, Hcount, Z.add_0_l.
  rewrite (proj2 (Z.ltb_lt _ _)) by done. simpl.
  destruct (uniform_below seed (active_count ts)) as [off|] eqn:Hu; [|done].
  assert (0 < active_count ts)%Z.
  { destruct (Z.eq_dec (active_count ts) 0%Z) as [E|]; [|unfold active_count in *; lia].
    unfold uniform_below in Hu. by rewrite E in Hu. }
  pose proof (uniform_below_range _ _ _ (conj ltac:(done) Hlt) Hu) as Hoff.
  simpl. unfold bucket_for_offset. rewrite bucket_scan_expand by (done || lia). rewrite Hexp.
  destruct (lookup_lt_is_Some_2 (active_sequence (map mt_bucket ts)) (Z.to_nat off)) as [b Hb];
    [lia|]. rewrite Hb. simpl.
  destruct (select_ticket seed _) as [w|] eqn:Hw''.
  - apply select_ticket_least in Hw'' as Hleast. simpl.
    destruct Hleast as [Hin Hmin]. apply list_elem_of_fmap in Hin as (t & -> & Ht).
    apply list_elem_of_filter in Ht as [Hbt Ht]. exists t.
    rewrite (find_unique ts (mt_id t) t) by done. split; [|done].
    exists b. split_and!; [done..|]. split; [|done]. apply list_elem_of_fmap. exists t.
    split; [done|]. by apply list_elem_of_filter.
  - apply select_ticket_None in Hw''. exfalso.
    apply active_sequence_occurs, list_elem_of_fmap in Hb as (t & Hbt & Ht).
    assert (mt_id t ∈ map mt_id (filter (fun u => mt_bucket u = Z.of_nat b) ts)) as Hin.
    { apply list_elem_of_fmap. exists t. split; [done|]. by apply list_elem_of_filter. }
    rewrite Hw'' in Hin. by apply not_elem_of_nil in Hin.
Qed.
End Leader.

Lemma active_sequence_perm bs bs' : bs ≡ₚ bs' -> active_sequence bs = active_sequence bs'.
Proof.
  intros Hp. unfold active_sequence, occurrences. f_equal. apply map_ext. intros b.
  f_equal. by rewrite Hp.
Qed.

Lemma eligible_input_perm ts ts' : ts ≡ₚ ts' -> eligible_input ts -> eligible_input ts'.
Proof.
  intros Hp (? & ? & ?). unfold eligible_input. split_and!.
  - by rewrite <- Hp.
  - by rewrite <- Hp.
  - by rewrite <- Hp.
Qed.

Lemma designated_perm `{Keccak} seed ts ts' off t :
  ts ≡ₚ ts' -> designated seed ts off t -> designated seed ts' off t.
Proof.
  intros Hp (b & Hb & Ht & Hbt & Hl). exists b. split_and!.
  - by rewrite <- (active_sequence_perm (map mt_bucket ts)) by (by apply Permutation_map).
  - by rewrite <- Hp.
  - done.
  - eapply least_perm; [|done]. apply Permutation_map. by rewrite Hp.
Qed.

Lemma designated_unique `{Keccak} seed ts off t t' :
  NoDup (map mt_id ts) -> designated seed ts off t -> designated seed ts off t' -> t = t'.
Proof.
  intros Hnd (b & Hb & Ht & _ & Hl) (b' & Hb' & Ht' & _ & Hl'). simplify_eq.
  assert (mt_id t = mt_id t') as E.
  { eapply least_unique; [|done..]. intros x y _ _ E. exact (f_equal snd E). }
  pose proof (find_unique ts _ t Hnd Ht E). pose proof (find_unique ts _ t' Hnd Ht' eq_refl).
  congruence.
Qed.

Lemma select_leader_perm `{Keccak} h slot ts ts' :
  eligible_input ts -> ts ≡ₚ ts' ->
  select_leader_ticket h slot ts = select_leader_ticket h slot ts'.
Proof.
  intros Hin Hp. destruct (decide (ts = [])) as [->|Hne].
  { by apply Permutation_nil_l in Hp as ->. }
  assert (ts' <> []) as Hne'.
  { intros ->. by apply Permutation_nil_r in Hp. }
  pose proof (eligible_input_perm _ _ Hp Hin) as Hin'.
  pose proof (select_leader_designated h slot ts Hin Hne) as H1.
  pose proof (select_leader_designated h slot ts' Hin' Hne') as H2. cbv zeta in *.
  assert (active_count ts = active_count ts') as E.
  { unfold active_count. by rewrite (Permutation_map mt_bucket Hp). }
  rewrite E in H1. destruct (uniform_below _ _) as [off|]; [|congruence].
  destruct H1 as (t & Hd & ->), H2 as (t' & Hd' & ->).
  eapply designated_perm in Hd; [|exact Hp].
  by rewrite (designated_unique _ _ _ _ _ (proj1 Hin') Hd Hd').
Qed.

(** ** Properties *)

Section SelectionProperties.
  Context {KE : Keccak}.

(** Rejection sampling is exactly uniform and its loop returns: for a
    bound [0 < n < 2^64] every offset below [n] has exactly [2^64 / n]
    accepted raw values (numbered without repetition by [accepted_raw]), and
    [uniform_below] answers with the first accepted retry's raw value modulo
    [n]; [None] means every one of the [2^64] retries was rejected. *)
Theorem uniform_below_uniform seed n off :
  (0 < n < U64)%Z -> (0 <= off < n)%Z ->
  (forall k, (0 <= k < U64 / n)%Z ->
     (rejection_threshold n <= accepted_raw n off k < U64)%Z /\
     (accepted_raw n off k mod n = off)%Z) /\
  (forall raw, (rejection_threshold n <= raw < U64)%Z -> (raw mod n = off)%Z ->
     exists! k, (0 <= k < U64 / n)%Z /\ raw = accepted_raw n off k) /\
  ((exists retry, (0 <= retry < U64)%Z /\
      (rejection_threshold n <= bucket_raw seed retry)%Z /\
      (forall r, (0 <= r < retry)%Z -> (bucket_raw seed r < rejection_threshold n)%Z) /\
      uniform_below seed n = Some (bucket_raw seed retry mod n)%Z) \/
   (uniform_below seed n = None /\
    forall r, (0 <= r < U64)%Z -> (bucket_raw seed r < rejection_threshold n)%Z)).
Proof.
  intros Hn Hoff. split_and!; [by intros; apply accepted_raw_ok| |by apply uniform_below_spec].
  intros raw Hraw <-. destruct (accepted_raw_complete n raw Hn Hraw) as (k & Hk & E).
  exists k. split; [done|]. intros k' [_ E']. apply (accepted_raw_inj n (raw mod n)); [lia|congruence].
Qed.

(** With unique ids the lottery designates exactly one ticket: the
    uniform offset picks the bucket of the offset-th active ticket in bucket
    order, and the winner has the least (score, id) pair of that bucket; no
    leader is returned only when no ticket is in an active bucket or every
    retry of the sampler is rejected. *)
Theorem leader_designated h slot ts :
  eligible_input ts ->
  let seed := slot_randomness h slot in
  let n := active_count ts in
  match select_leader_ticket h slot ts with
  | Some (o, i) => exists t off, uniform_below seed n = Some off /\ designated seed ts off t /\
      o = mt_owner t /\ i = mt_id t
  | None => n = 0%Z \/ forall r, (0 <= r < U64)%Z -> (bucket_raw seed r < rejection_threshold n)%Z
  end.
Proof.
  intros Hin. cbv zeta. destruct (decide (ts = [])) as [->|Hne]; [by left|].
  pose proof (select_leader_designated h slot ts Hin Hne) as H. cbv zeta in H.
  destruct (uniform_below _ _) as [off|] eqn:Hu.
  - destruct H as (t & Hd & ->). eauto 10.
  - rewrite H. destruct (Z.eq_dec (active_count ts) 0%Z) as [E|Hz]; [by left|]. right.
    destruct (uniform_below_spec (slot_randomness h slot) (active_count ts)) as
      [(? & _ & _ & _ & E)|[_ Hall]]; [|congruence|done].
    destruct Hin as (_ & _ & Hl). unfold active_count in *.
    pose proof (length_filter active (map mt_bucket ts)). rewrite length_map in *. lia.
Qed.

(** The leader does not depend on the order in which a node lists its
    eligible tickets. *)
Theorem leader_order_independent h slot ts ts' :
  eligible_input ts -> ts ≡ₚ ts' ->
  select_leader_ticket h slot ts = select_leader_ticket h slot ts'.
Proof. apply select_leader_perm. Qed.
End SelectionProperties.

Definition toy_ticket (i b : Z) : ModelTicket :=
  mk_model_ticket i (str "node") b false false false None None.
Definition toy_tickets : list ModelTicket := [toy_ticket 4 2; toy_ticket 9 7; toy_ticket 11 7].

Lemma toy_tickets_ok : eligible_input toy_tickets.
Proof.
  split_and!; [|by repeat constructor|done].
  apply (bool_decide_unpack _). vm_compute. exact I.
Qed.

Lemma uniform_below_uniform_witness :
  uniform_below (KE := toy_keccak) (zeros 32) 3 = None \/
  exists retry, uniform_below (KE := toy_keccak) (zeros 32) 3 =
    Some (bucket_raw (KE := toy_keccak) (zeros 32) retry mod 3)%Z.
Proof.
  destruct (@uniform_below_uniform toy_keccak (zeros 32) 3 1) as (_ & _ & [(r & _ & _ & _ & H)|[H _]]).
  - split; reflexivity.
  - split; [discriminate|reflexivity].
  - right. exists r. exact H.
  - left. exact H.
Defined.

Lemma leader_designated_witness :
  match @select_leader_ticket toy_keccak (zeros 32) 40 toy_tickets with
  | Some (o, i) => exists t off,
      @uniform_below toy_keccak (@slot_randomness toy_keccak (zeros 32) 40) (active_count toy_tickets) = Some off /\
      @designated toy_keccak (@slot_randomness toy_keccak (zeros 32) 40) toy_tickets off t /\
      o = mt_owner t /\ i = mt_id t
  | None => active_count toy_tickets = 0%Z \/ forall r, (0 <= r < U64)%Z ->
      (@bucket_raw toy_keccak (@slot_randomness toy_keccak (zeros 32) 40) r <
       rejection_threshold (active_count toy_tickets))%Z
  end.
Proof. exact (@leader_designated toy_keccak (zeros 32) 40 toy_tickets toy_tickets_ok). Defined.

Lemma leader_order_independent_witness :
  @select_leader_ticket toy_keccak (zeros 32) 40 toy_tickets =
  @select_leader_ticket toy_keccak (zeros 32) 40 (rev toy_tickets).
Proof.
  apply (@leader_order_independent toy_keccak (zeros 32) 40 toy_tickets _ toy_tickets_ok).
  apply Permutation_rev.
Defined.

(** The toy lottery has a winner. *)
Example toy_leader :
  exists w, @select_leader_ticket toy_keccak (zeros 32) 40 toy_tickets = Some w.
Proof. eexists. vm_compute. reflexivity. Qed.
