(* ===== verification/LegacyBlock.v ===== *)
(** * V1 transactions and blocks (src/src/consensus_hash.rs, src/src/models.rs)

    The consensus encoding of the running test network: the canonical
    transaction bytes and ids, the block with its commitment checks, the wire
    form the node broadcasts and the historical hash the lottery uses.
    serde_json is the class [V1Json]; the hex crate is [Hex] and [HexEncode].

    A transaction keeps its registration data and its signature as text, and
    several texts have the same canonical bytes; [tx_normal] describes the one
    the decoder produces.  The theorems show that the transaction and block
    decoders accept exactly the canonical bytes of normal values, that every
    encodable transaction has exactly one normal form with its id, and that a
    block hash binds header, proposer, protocol data and transaction bytes up
    to an explicit collision. *)

From S2P Require Import Prelude Codec Crypto BlockCommitment LeaderSelection.

Definition V1_PROTOCOL_VERSION : Z := 1.
Definition V1_CHAIN_ID : Z := 1162.
Definition ZERO_HASH : bytes := zeros 32.
Definition ZERO_PROPOSER_ID : bytes := zeros 32.
Definition ZERO_TICKET_ID : Z := 0.
Definition MAX_BLOCK_TRANSACTIONS : Z := 3000.
Definition MAX_BLOCK_GAS : Z := 16000000.

Definition TX_DOMAIN : bytes := str "ETERNIX_TX_V1".
Definition GENESIS_DOMAIN : bytes := str "ETERNIX_GENESIS_V1".
Definition LEGACY_TICKET_ID_DOMAIN : bytes := str "ETERNIX_LEGACY_TICKET_ID_V1".
Definition EPOCH_SEED_DOMAIN : bytes := str "ETERNIX_EPOCH_SEED_V1".
Definition TX_ENCODING_VERSION : Z := 1.
Definition BLOCK_WIRE_VERSION : Z := 1.

(** ** Data *)

Inductive TxKind : Type :=
| Transfer
| Contract
| System
| Pbm
| RegisterValidator
| BuyTicket
| WalletToVault
| VaultToWallet
| BurnTicket.

#[export] Instance TxKind_eq_dec : EqDecision TxKind.
Proof. solve_decision. Defined.

Definition TxKind_consensus_code (k : TxKind) : Z :=
  match k with
  | Transfer => 0
  | Contract => 1
  | System => 2
  | Pbm => 3
  | RegisterValidator => 16
  | BuyTicket => 17
  | WalletToVault => 18
  | VaultToWallet => 19
  | BurnTicket => 20
  end.

Definition TxKind_from_consensus_code (code : Z) : option TxKind :=
  match code with
  | 0%Z => Some Transfer
  | 1%Z => Some Contract
  | 2%Z => Some System
  | 3%Z => Some Pbm
  | 16%Z => Some RegisterValidator
  | 17%Z => Some BuyTicket
  | 18%Z => Some WalletToVault
  | 19%Z => Some VaultToWallet
  | 20%Z => Some BurnTicket
  | _ => None
  end.

Record Tx : Type := mk_tx {
  t_chain_id : Z;
  t_from : bytes;
  t_nonce : Z;
  t_to : bytes;
  t_token_id : Z;
  t_value : Z;
  t_gas : Z;
  t_fee_quarks : Z;
  t_max_fee_per_gas : Z;
  t_kind : TxKind;
  t_valid_after_slot : Z;
  t_fee_token_id : Z;
  t_data : bytes;
  t_signature_hex : bytes
}.

#[export] Instance Tx_eq_dec : EqDecision Tx.
Proof. solve_decision. Defined.

Record Block : Type := mk_block {
  bk_header : BlockHeader;
  bk_proposer : option bytes;
  bk_transactions : list Tx;
  bk_protocol_data : ProtocolData
}.

#[export] Instance Block_eq_dec : EqDecision Block.
Proof. solve_decision. Defined.

(** serde_json: [from_str], the text of a string member, and the text of the
    object with the two registration members. *)
Class V1Json : Type := {
  json_value : Type;
  json_from_str : bytes -> option json_value;
  json_member : json_value -> bytes -> option bytes;
  json_registration : bytes -> bytes -> bytes
}.

(** An object written by [json!] reads back member by member. *)
Class V1JsonLaws (J : V1Json) : Prop := {
  json_registration_reads : forall key reward,
    utf8_valid key = true -> utf8_valid reward = true ->
    utf8_valid (json_registration key reward) = true /\
    exists v, json_from_str (json_registration key reward) = Some v /\
      json_member v (str "validator_pubkey") = Some key /\ json_member v (str "reward_address") = Some reward;
  json_member_text : forall s v m b,
    json_from_str s = Some v -> json_member v m = Some b -> utf8_valid b = true
}.

(** [strip_prefix("0x").or_else(strip_prefix("0X")).unwrap_or(value)] *)
Definition strip_0x (value : bytes) : bytes :=
  if take 2 value ==? str "0x" then drop 2 value
  else if take 2 value ==? str "0X" then drop 2 value else value.

(** What [append_bytes] adds to the output. *)
Definition append_bytes (bs : bytes) : option bytes :=
  if (Z.of_nat (length bs) <? U32)%Z then Some (be_bytes 4 (Z.of_nat (length bs)) ++ bs) else None.

(** [Decoder::bytes] and [Decoder::string] *)
Definition rd_bytes : parser () bytes := len ← rd_uint 4; rd_take len.
Definition rd_string : parser () bytes :=
  s ← rd_bytes; p_lift (fail_if (negb (utf8_valid s)) ());; mret s.

Section Hexadecimal.
  Context `{HX : Hex} `{HE : HexEncode}.

Definition format_hash (hash : bytes) : bytes := str "0x" ++ hex_encode hash.

Definition parse_hash (value : bytes) : option bytes :=
  b ← hex_decode (strip_0x value);
  if (length b =? 32)%nat then Some b else None.

Definition decode_hex_bytes (value : bytes) : option bytes :=
  match value with
  | [] => Some []
  | _ => hex_decode (strip_0x value)
  end.

(** The text the decoder gives a signature. *)
Definition signature_text (signature : bytes) : bytes :=
  match signature with
  | [] => []
  | _ => str "0x" ++ hex_encode signature
  end.
End Hexadecimal.

Section Transactions.
  Context `{KE : Keccak} `{HX : Hex} `{HE : HexEncode} `{VJ : V1Json}.

Definition registration_fields (data : bytes) : option (bytes * bytes) :=
  value ← json_from_str data;
  key ← json_member value (str "validator_pubkey");
  reward ← json_member value (str "reward_address");
  Some (key, reward).

(** The data encoding tag and its fields. *)
Definition data_bytes (kind : TxKind) (data : bytes) : option bytes :=
  if kind ==? RegisterValidator then
    '(key, reward) ← registration_fields data;
    k ← append_bytes key; r ← append_bytes reward; Some (be_bytes 1 1 ++ k ++ r)
  else d ← append_bytes data; Some (be_bytes 1 0 ++ d).

Definition Tx_canonical_bytes (t : Tx) : option bytes :=
  from ← append_bytes (t_from t);
  to ← append_bytes (t_to t);
  data ← data_bytes (t_kind t) (t_data t);
  signature ← decode_hex_bytes (t_signature_hex t);
  sig ← append_bytes signature;
  Some (be_bytes 1 TX_ENCODING_VERSION ++ be_bytes 1 (TxKind_consensus_code (t_kind t)) ++
    be_bytes 8 (t_chain_id t) ++ from ++ be_bytes 8 (t_nonce t) ++ to ++ be_bytes 8 (t_token_id t) ++
    be_bytes 16 (t_value t) ++ be_bytes 8 (t_gas t) ++ be_bytes 8 (t_fee_quarks t) ++
    be_bytes 8 (t_max_fee_per_gas t) ++ be_bytes 8 (t_valid_after_slot t) ++
    be_bytes 8 (t_fee_token_id t) ++ data ++ sig).

(** [match (kind, data_encoding)] *)
Definition tx_data_field (kind : TxKind) : parser () bytes :=
  encoding ← rd_uint 1;
  if kind ==? RegisterValidator then
    if (encoding =? 1)%Z then
      key ← rd_string; reward ← rd_string; mret (json_registration key reward)
    else p_lift (Err ())
  else if (encoding =? 0)%Z then rd_string else p_lift (Err ()).

Definition tx_fields : parser () Tx :=
  version ← rd_uint 1;
  p_lift (fail_if (version !=? TX_ENCODING_VERSION) ());;
  code ← rd_uint 1;
  kind ← p_lift (ok_or (TxKind_from_consensus_code code) ());
  chain_id ← rd_uint 8;
  from ← rd_string;
  nonce ← rd_uint 8;
  to ← rd_string;
  token_id ← rd_uint 8;
  value ← rd_uint 16;
  gas ← rd_uint 8;
  fee_quarks ← rd_uint 8;
  max_fee_per_gas ← rd_uint 8;
  valid_after_slot ← rd_uint 8;
  fee_token_id ← rd_uint 8;
  data ← tx_data_field kind;
  signature ← rd_bytes;
  mret (mk_tx chain_id from nonce to token_id value gas fee_quarks max_fee_per_gas kind
          valid_after_slot fee_token_id data (signature_text signature)).

Definition Tx_from_canonical_bytes (bs : bytes) : option Tx :=
  match tx_fields (decoder bs) with
  | Ok (t, d) => if finished d then Some t else None
  | Err _ => None
  end.

Definition Tx_hash (t : Tx) : option bytes := hash_with_domain TX_DOMAIN <$> Tx_canonical_bytes t.

Definition v1_transaction_root (txs : list Tx) : option bytes :=
  ids ← mapM Tx_hash txs; ordered_transaction_root ids.

(** ** Blocks *)

Definition Block_hash (b : Block) : bytes := BlockHeader_hash (bk_header b).
Definition Block_slot (b : Block) : Z := slot (bk_header b).
Definition Block_kind (b : Block) : BlockKind := block_kind (bk_header b).

Definition Block_leader (b : Block) : bytes :=
  match bk_proposer b with
  | Some p => p
  | None => default (str "protocol") (missed_proposer (bk_protocol_data b))
  end.

Definition Block_transaction_hashes (b : Block) : option (list bytes) := mapM Tx_hash (bk_transactions b).

Definition validate_parent (b : Block) (expected_parent : bytes) : bool :=
  parent_hash (bk_header b) ==? expected_parent.

(** [try_fold(0, |total, tx| total.checked_add(f(tx)))] *)
Fixpoint checked_sum (f : Tx -> Z) (txs : list Tx) (total : Z) : option Z :=
  match txs with
  | [] => Some total
  | t :: rest => total' ← checked_add U64 total (f t); checked_sum f rest total'
  end.

(** The [match] on the block kind. *)
Definition kind_ok (b : Block) : bool :=
  let h := bk_header b in
  let protocol := (bk_proposer b ==? None) && (proposer_id_field h ==? ZERO_PROPOSER_ID) &&
    (ticket_id h ==? ZERO_TICKET_ID) in
  match block_kind h with
  | Validator =>
      match bk_proposer b with
      | None => false
      | Some p => (proposer_id_field h ==? proposer_id p) && (proposer_id_field h !=? ZERO_PROPOSER_ID) &&
          (ticket_id h !=? ZERO_TICKET_ID) && (missed_proposer (bk_protocol_data b) ==? None)
      end
  | ProtocolMiss =>
      protocol &&
      match missed_proposer (bk_protocol_data b) with
      | Some id => negb (id ==? []) && (id !=? str "protocol")
      | None => false
      end && (bk_transactions b ==? [])
  | ProtocolNoTickets =>
      protocol && (missed_proposer (bk_protocol_data b) ==? None) &&
      (length (bk_transactions b) <=? 1)%nat
  | ProtocolCollision =>
      protocol && (missed_proposer (bk_protocol_data b) ==? None) && (bk_transactions b ==? [])
  end.

Definition validate_commitments (b : Block) : bool :=
  let h := bk_header b in
  match v1_transaction_root (bk_transactions b) with
  | None => false
  | Some root =>
      if (protocol_version h !=? V1_PROTOCOL_VERSION) || (chain_id h !=? V1_CHAIN_ID) ||
         (state_root h !=? PLACEHOLDER_STATE_ROOT) || (receipts_root h !=? EMPTY_RECEIPTS_ROOT) ||
         (transaction_root h !=? root) || (protocol_data_root h !=? ProtocolData_root (bk_protocol_data b))
      then false else
      match checked_sum t_gas (bk_transactions b) 0, checked_sum t_fee_quarks (bk_transactions b) 0 with
      | Some gas, Some fees =>
          if (gas !=? gas_used h) || (fees !=? fees_burned (bk_protocol_data b)) then false else
          if (MAX_BLOCK_TRANSACTIONS <? Z.of_nat (length (bk_transactions b)))%Z || (MAX_BLOCK_GAS <? gas)%Z
          then false else
          if existsb (fun t => (t_chain_id t !=? V1_CHAIN_ID) || (slot h <? t_valid_after_slot t)%Z)
               (bk_transactions b)
          then false else kind_ok b
      | _, _ => false
      end
  end.

Definition Block_new (slot : Z) (kind : BlockKind) (parent_hash : bytes) (proposer : option bytes)
    (ticket_id : Z) (transactions : list Tx) (gas_used : Z) (protocol_data : ProtocolData) : option Block :=
  root ← v1_transaction_root transactions;
  let header := mk_header V1_PROTOCOL_VERSION V1_CHAIN_ID slot kind parent_hash
    (default ZERO_PROPOSER_ID (proposer_id <$> proposer)) ticket_id root PLACEHOLDER_STATE_ROOT
    EMPTY_RECEIPTS_ROOT gas_used (ProtocolData_root protocol_data) in
  let block := mk_block header proposer transactions protocol_data in
  if validate_commitments block then Some block else None.

(** One transaction with its length. *)
Definition wire_entry (t : Tx) : option bytes := bs ← Tx_canonical_bytes t; append_bytes bs.

(** The bytes written after the checks. *)
Definition wire_layout (hash : bytes) (b : Block) : option bytes :=
  proposer ← append_bytes (default [] (bk_proposer b));
  protocol_data ← append_bytes (ProtocolData_canonical_bytes (bk_protocol_data b));
  entries ← mapM wire_entry (bk_transactions b);
  Some (be_bytes 1 BLOCK_WIRE_VERSION ++ hash ++ BlockHeader_canonical_bytes (bk_header b) ++
    proposer ++ protocol_data ++ be_bytes 8 (Z.of_nat (length (bk_transactions b))) ++ concat entries).

Definition Block_wire_bytes (b : Block) : option bytes :=
  if negb (validate_commitments b) then None else wire_layout (Block_hash b) b.

Definition wire_fields : parser () (bytes * Block) :=
  version ← rd_uint 1;
  p_lift (fail_if (version !=? BLOCK_WIRE_VERSION) ());;
  claimed_hash ← rd_field 32;
  header_bytes ← rd_take (Z.of_nat BLOCK_HEADER_LEN);
  header ← p_lift (ok_or (BlockHeader_from_canonical_bytes header_bytes) ());
  proposer ← rd_string;
  data ← rd_bytes;
  protocol_data ← p_lift (ok_or (ProtocolData_from_canonical_bytes data) ());
  count ← rd_uint 8;
  p_lift (fail_if (MAX_BLOCK_TRANSACTIONS <? count)%Z ());;
  transactions ← p_repeat (Z.to_nat count) 0
    (fun _ => bs ← rd_bytes; p_lift (ok_or (Tx_from_canonical_bytes bs) ()));
  mret (claimed_hash,
        mk_block header (if proposer ==? [] then None else Some proposer) transactions protocol_data).

Definition Block_from_wire_bytes (bs : bytes) : option Block :=
  match wire_fields (decoder bs) with
  | Ok ((claimed_hash, b), d) =>
      if negb (finished d) then None else
      if (Block_hash b ==? claimed_hash) && validate_commitments b then Some b else None
  | Err _ => None
  end.

Definition GENESIS_HASH : bytes :=
  keccak256 (GENESIS_DOMAIN ++ be_bytes 4 V1_PROTOCOL_VERSION ++ be_bytes 8 V1_CHAIN_ID).

Definition historical_block_hash (blocks : gmap Z Block) (slot : Z) : option bytes :=
  if (slot <? BLOCK_HASH_LOOKBACK_SLOTS)%Z then Some GENESIS_HASH
  else Block_hash <$> blocks !! historical_block_slot slot.
End Transactions.

(** ** Transaction codec *)

Lemma tx_kind_code_width k : in_width U8 (TxKind_consensus_code k).
Proof. unfold in_width. destruct k; simpl; lia. Qed.

Lemma tx_kind_from_code k : TxKind_from_consensus_code (TxKind_consensus_code k) = Some k.
Proof. by destruct k. Qed.

Lemma tx_kind_code_from c k : TxKind_from_consensus_code c = Some k -> TxKind_consensus_code k = c.
Proof. unfold TxKind_from_consensus_code. intros H. repeat case_match; simplify_eq; done. Qed.
#[export] Hint Resolve tx_kind_code_width : codec.

Lemma append_bytes_Some bs out :
  append_bytes bs = Some out <->
  (Z.of_nat (length bs) < U32)%Z /\ out = be_bytes 4 (Z.of_nat (length bs)) ++ bs.
Proof. unfold append_bytes. destruct (Z.ltb_spec (Z.of_nat (length bs)) U32); naive_solver lia. Qed.

Lemma append_bytes_length bs out : append_bytes bs = Some out -> (Z.of_nat (length out) < U32 + 4)%Z.
Proof. intros [? ->]%append_bytes_Some. rewrite length_app, length_be_bytes. lia. Qed.

Lemma rd_bytes_parses bs out : append_bytes bs = Some out -> parses rd_bytes out bs.
Proof.
  intros [Hl ->]%append_bytes_Some. unfold rd_bytes.
  eapply parses_bind; [apply parses_u32; unfold in_width; lia|]. by apply parses_take.
Qed.

Lemma rd_string_parses bs out : append_bytes bs = Some out -> utf8_valid bs = true -> parses rd_string out bs.
Proof.
  intros Hl Hu. unfold rd_string. rewrite <- (app_nil_r out).
  eapply parses_bind; [by apply rd_bytes_parses|].
  eapply parses_bind_lift; [apply fail_if_false; by rewrite Hu|apply parses_ret].
Qed.

Ltac text_step :=
  first [parse_step | eapply parses_bind; [eapply rd_string_parses; eassumption|lazy beta iota]].

Lemma rd_bytes_inv d bs d' :
  rd_bytes d = Ok (bs, d') -> exists out, append_bytes bs = Some out /\ consumes d out d'.
Proof.
  unfold rd_bytes. intros H. inv_parse. eexists. split; [apply append_bytes_Some; split; [|done]|].
  - unfold in_width in *. lia.
  - glue.
Qed.

Lemma rd_string_inv d bs d' :
  rd_string d = Ok (bs, d') ->
  utf8_valid bs = true /\ exists out, append_bytes bs = Some out /\ consumes d out d'.
Proof.
  unfold rd_string. intros (s & d1 & H & H1)%p_bind_Ok. inv_parse. inv_ok. split; [done|]. by apply rd_bytes_inv.
Qed.

(** The strings of the struct are UTF-8 and its integers have their widths. *)
Record wf_tx (t : Tx) : Prop := {
  wt_chain : in_width U64 (t_chain_id t);
  wt_nonce : in_width U64 (t_nonce t);
  wt_token : in_width U64 (t_token_id t);
  wt_value : in_width U128 (t_value t);
  wt_gas : in_width U64 (t_gas t);
  wt_fee : in_width U64 (t_fee_quarks t);
  wt_max_fee : in_width U64 (t_max_fee_per_gas t);
  wt_valid : in_width U64 (t_valid_after_slot t);
  wt_fee_token : in_width U64 (t_fee_token_id t);
  wt_from : utf8_valid (t_from t) = true;
  wt_to : utf8_valid (t_to t) = true;
  wt_data : utf8_valid (t_data t) = true;
  wt_signature : utf8_valid (t_signature_hex t) = true
}.

(** Everything but the two texts. *)
Definition untext (t : Tx) : Tx :=
  mk_tx (t_chain_id t) (t_from t) (t_nonce t) (t_to t) (t_token_id t) (t_value t) (t_gas t) (t_fee_quarks t)
    (t_max_fee_per_gas t) (t_kind t) (t_valid_after_slot t) (t_fee_token_id t)
    (if t_kind t ==? RegisterValidator then [] else t_data t) [].

Section TxCodec.
  Context {KE : Keccak} {HX : Hex} {HE : HexEncode} {HL : HexLaws HX HE} {VJ : V1Json} {JL : V1JsonLaws VJ}.

(** The texts the decoder writes. *)
Record tx_normal (t : Tx) : Prop := {
  tn_data : t_kind t = RegisterValidator -> exists key reward,
    utf8_valid key = true /\ utf8_valid reward = true /\ t_data t = json_registration key reward;
  tn_signature : exists b, t_signature_hex t = signature_text b
}.

Lemma strip_written s : strip_0x (str "0x" ++ s) = s.
Proof. reflexivity. Qed.

Lemma signature_text_decodes b : decode_hex_bytes (signature_text b) = Some b.
Proof. destruct b as [|x b]; [done|]. exact (@hex_roundtrip HX HE HL (x :: b)). Qed.

Lemma signature_text_utf8 b : utf8_valid (signature_text b) = true.
Proof. destruct b as [|x b]; [done|]. exact (@hex_text HX HE HL (x :: b)). Qed.

Lemma registration_written key reward :
  utf8_valid key = true -> utf8_valid reward = true ->
  registration_fields (json_registration key reward) = Some (key, reward).
Proof.
  intros Hk Hr. destruct (json_registration_reads key reward Hk Hr) as (_ & v & Hv & H1 & H2).
  unfold registration_fields. rewrite Hv. simpl. rewrite H1. simpl. by rewrite H2.
Qed.

Lemma registration_text data key reward :
  registration_fields data = Some (key, reward) -> utf8_valid key = true /\ utf8_valid reward = true.
Proof.
  unfold registration_fields. destruct (json_from_str data) as [v|] eqn:Ev; [|done]. simpl.
  destruct (json_member v (str "validator_pubkey")) as [k|] eqn:E1; [|done]. simpl.
  destruct (json_member v (str "reward_address")) as [r|] eqn:E2; [|done]. intros [= <- <-].
  split; by eapply json_member_text.
Qed.

Lemma data_field_parses kind data out :
  data_bytes kind data = Some out -> utf8_valid data = true ->
  (kind = RegisterValidator -> exists key reward,
     utf8_valid key = true /\ utf8_valid reward = true /\ data = json_registration key reward) ->
  parses (tx_data_field kind) out data.
Proof.
  assert (in_width U8 0 /\ in_width U8 1) as [? ?] by (unfold in_width; lia).
  unfold data_bytes, tx_data_field. intros E Hu Hn. case_bool_decide as Hk.
  - destruct (Hn Hk) as (key & reward & U1 & U2 & ->). rewrite registration_written in E by done. simpl in E.
    destruct (append_bytes key) as [k|] eqn:E1; [|done]. simpl in E.
    destruct (append_bytes reward) as [r|] eqn:E2; [|done]. injection E as <-.
    eapply parses_bind; [by apply parses_u8|]. cbv beta. rewrite Z.eqb_refl.
    eapply parses_bind; [by apply rd_string_parses|]. rewrite <- (app_nil_r r).
    eapply parses_bind; [by apply rd_string_parses|apply parses_ret].
  - destruct (append_bytes data) as [k|] eqn:E1; [|done]. injection E as <-.
    eapply parses_bind; [by apply parses_u8|]. by apply rd_string_parses.
Qed.

Lemma data_field_inv kind d data d' :
  tx_data_field kind d = Ok (data, d') ->
  utf8_valid data = true /\
  (kind = RegisterValidator -> exists key reward,
     utf8_valid key = true /\ utf8_valid reward = true /\ data = json_registration key reward) /\
  exists out, data_bytes kind data = Some out /\ consumes d out d'.
Proof.
  unfold tx_data_field. intros (e & d1 & He & H)%p_bind_Ok. apply p_u8_inv in He as [_ C1]. revert H.
  case_bool_decide as Hk; destruct (e =? _)%Z eqn:E; try (intros [? _]%p_lift_Ok; done);
    apply Z.eqb_eq in E as ->.
  - intros (key & d2 & H1 & H)%p_bind_Ok. apply p_bind_Ok in H as (reward & d3 & H2 & H).
    apply p_ret_Ok in H as [<- <-]. apply rd_string_inv in H1 as (U1 & o1 & A1 & C2).
    apply rd_string_inv in H2 as (U2 & o2 & A2 & C3). destruct (json_registration_reads key reward U1 U2) as [Hu _].
    split; [done|]. split; [by exists key, reward|]. unfold data_bytes. rewrite bool_decide_eq_true_2 by done.
    rewrite registration_written by done. simpl. rewrite A1, A2. simpl. eexists. split; [done|]. glue.
  - intros (U & o & A & C2)%rd_string_inv. split; [done|]. split; [done|].
    unfold data_bytes. rewrite bool_decide_eq_false_2, A by done. simpl. eexists. split; [done|]. glue.
Qed.

Lemma tx_bytes_inv t bs :
  Tx_canonical_bytes t = Some bs -> exists from to data signature sig,
    append_bytes (t_from t) = Some from /\ append_bytes (t_to t) = Some to /\
    data_bytes (t_kind t) (t_data t) = Some data /\ decode_hex_bytes (t_signature_hex t) = Some signature /\
    append_bytes signature = Some sig.
Proof.
  unfold Tx_canonical_bytes. intros H. repeat match goal with
    | H : (_ ≫= _) = Some _ |- _ => apply bind_Some in H as (? & ? & H) end. eauto 10.
Qed.

Lemma tx_fields_parses t bs :
  wf_tx t -> tx_normal t -> Tx_canonical_bytes t = Some bs -> parses tx_fields bs t.
Proof.
  intros W [Nd [b Ns]] E. destruct (tx_bytes_inv _ _ E) as (from & to & data & signature & sig & E1 & E2 & E3 & E4 & E5).
  unfold Tx_canonical_bytes in E. rewrite E1, E2, E3, E4 in E. simpl in E. rewrite E5 in E. injection E as <-.
  rewrite Ns, signature_text_decodes in E4. injection E4 as <-. destruct W.
  assert (in_width U8 TX_ENCODING_VERSION) by (unfold in_width, TX_ENCODING_VERSION; lia).
  unfold tx_fields. parse_step. parse_step; [done|]. parse_step.
  parse_step; [by rewrite tx_kind_from_code|]. do 11 text_step.
  eapply parses_bind; [by apply data_field_parses|]. rewrite <- (app_nil_r sig).
  eapply parses_bind; [by apply rd_bytes_parses|]. rewrite <- Ns. destruct t. apply parses_ret.
Qed.

Lemma tx_fields_inv d t d' :
  tx_fields d = Ok (t, d') ->
  wf_tx t /\ tx_normal t /\ exists bs, Tx_canonical_bytes t = Some bs /\ consumes d bs d'.
Proof.
  unfold tx_fields. intros Hrun. inv_parse. inv_ok. subst.
  repeat match goal with
  | H : rd_string _ = Ok _ |- _ => apply rd_string_inv in H as (? & ? & ? & ?)
  | H : rd_bytes _ = Ok _ |- _ => apply rd_bytes_inv in H as (? & ? & ?)
  | H : tx_data_field _ _ = Ok _ |- _ => apply data_field_inv in H as (? & ? & ? & ? & ?)
  | H : TxKind_from_consensus_code _ = Some _ |- _ => apply tx_kind_code_from in H as <-
  end.
  split; [constructor; try done; apply signature_text_utf8|].
  split; [constructor; [done|by eexists]|].
  unfold Tx_canonical_bytes. cbn [t_chain_id t_from t_nonce t_to t_token_id t_value t_gas t_fee_quarks
    t_max_fee_per_gas t_kind t_valid_after_slot t_fee_token_id t_data t_signature_hex].
  repeat match goal with H : _ = Some _ |- _ => rewrite H; clear H; simpl end.
  rewrite signature_text_decodes. simpl. repeat match goal with H : _ = Some _ |- _ => rewrite H; clear H; simpl end.
  eexists. split; [done|]. glue.
Qed.
Lemma data_bytes_length kind data out :
  data_bytes kind data = Some out -> (Z.of_nat (length out) < 2 * U32 + 9)%Z.
Proof.
  unfold data_bytes. case_bool_decide.
  - intros ([key reward] & _ & H')%bind_Some. apply bind_Some in H' as (k & Hk & H').
    apply bind_Some in H' as (r & Hr & [= <-]). apply append_bytes_length in Hk, Hr.
    rewrite !length_app, length_be_bytes. lia.
  - intros (d & Hd & [= <-])%bind_Some. apply append_bytes_length in Hd.
    rewrite !length_app, length_be_bytes. lia.
Qed.

Lemma tx_bytes_length t bs : Tx_canonical_bytes t = Some bs -> (Z.of_nat (length bs) < 8 * U32)%Z.
Proof.
  intros E. destruct (tx_bytes_inv _ _ E) as (from & to & data & signature & sig & E1 & E2 & E3 & E4 & E5).
  unfold Tx_canonical_bytes in E. rewrite E1, E2, E3, E4 in E. simpl in E. rewrite E5 in E. injection E as <-.
  apply append_bytes_length in E1, E2, E5. apply data_bytes_length in E3.
  rewrite !length_app, !length_be_bytes. lia.
Qed.

Lemma tx_codec_iff bs t :
  Tx_from_canonical_bytes bs = Some t <-> wf_tx t /\ tx_normal t /\ Tx_canonical_bytes t = Some bs.
Proof.
  unfold Tx_from_canonical_bytes. split.
  - destruct (tx_fields _) as [[t' d]|] eqn:Hrun; [|done]. destruct (finished d) eqn:Hf; [|done]. intros [= ->].
    apply tx_fields_inv in Hrun as (? & ? & x & Hx & Hc). split_and!; [done..|].
    rewrite Hx. f_equal. symmetry. by eapply consumes_finished.
  - intros (Hw & Hn & E). pose proof (tx_bytes_length _ _ E).
    rewrite (parses_all _ _ t); [|lia|by apply tx_fields_parses]. by rewrite finished_end.
Qed.

(** The normal transaction with the same canonical bytes. *)
Definition tx_normalize (t : Tx) : option Tx :=
  signature ← decode_hex_bytes (t_signature_hex t);
  data ← (if t_kind t ==? RegisterValidator then
    '(key, reward) ← registration_fields (t_data t); Some (json_registration key reward)
    else Some (t_data t));
  Some (mk_tx (t_chain_id t) (t_from t) (t_nonce t) (t_to t) (t_token_id t) (t_value t) (t_gas t) (t_fee_quarks t)
    (t_max_fee_per_gas t) (t_kind t) (t_valid_after_slot t) (t_fee_token_id t) data (signature_text signature)).

Lemma data_bytes_same kind data data' :
  (if kind ==? RegisterValidator then registration_fields data' = registration_fields data else data' = data) ->
  data_bytes kind data' = data_bytes kind data.
Proof. unfold data_bytes. case_bool_decide; by intros ->. Qed.

Lemma tx_normalize_spec t bs :
  wf_tx t -> Tx_canonical_bytes t = Some bs -> exists t', tx_normalize t = Some t' /\
    wf_tx t' /\ tx_normal t' /\ Tx_canonical_bytes t' = Some bs /\ untext t' = untext t /\ (tx_normal t -> t' = t).
Proof.
  intros W E. destruct (tx_bytes_inv _ _ E) as (from & to & db & signature & sig & E1 & E2 & E3 & E4 & E5).
  set (data := if t_kind t ==? RegisterValidator then
    '(key, reward) ← registration_fields (t_data t); Some (json_registration key reward) else Some (t_data t)).
  assert (exists d, data = Some d /\ utf8_valid d = true /\ (tx_normal t -> d = t_data t) /\
    (if t_kind t ==? RegisterValidator then registration_fields d = registration_fields (t_data t) else d = t_data t) /\
    (t_kind t = RegisterValidator -> exists key reward,
       utf8_valid key = true /\ utf8_valid reward = true /\ d = json_registration key reward))
    as (d & Ed & Hu & Hn & Hsame & Hnorm).
  { subst data. unfold data_bytes in E3. case_bool_decide as Hk.
    - destruct (registration_fields (t_data t)) as [[key reward]|] eqn:Er; [|done]. simpl.
      destruct (registration_text _ _ _ Er) as [U1 U2]. eexists. split; [done|].
      split; [by apply json_registration_reads|]. split; [|split; [by apply registration_written|eauto]].
      intros [Hd _]. destruct (Hd Hk) as (k & r & ? & ? & Hdata). rewrite Hdata in *.
      rewrite registration_written in Er by done. by injection Er as <- <-.
    - eexists. split; [done|]. split; [apply W|]. split; [done|]. split; [done|]. intros ?. done. }
  eexists. split; [unfold tx_normalize; rewrite E4; simpl; fold data; rewrite Ed; reflexivity|].
  split; [destruct W; constructor; cbn; try done; apply signature_text_utf8|].
  split; [constructor; cbn; [done|by eexists]|].
  split; [|split].
  - rewrite <- E. unfold Tx_canonical_bytes. cbn [t_chain_id t_from t_nonce t_to t_token_id t_value t_gas t_fee_quarks
      t_max_fee_per_gas t_kind t_valid_after_slot t_fee_token_id t_data t_signature_hex].
    by rewrite (data_bytes_same _ _ _ Hsame), E1, E2, E3, E4, signature_text_decodes.
  - unfold untext. cbn. case_bool_decide; [done|]. by rewrite Hsame.
  - intros N. rewrite (Hn N). destruct N as [_ [b Hb]]. rewrite Hb, signature_text_decodes in E4. injection E4 as <-.
    rewrite <- Hb. by destruct t.
Qed.
End TxCodec.

(** ** Block codec *)

(** The widths and texts of the struct. *)
Record wf_v1_block (b : Block) : Prop := {
  wv_header : wf_header (bk_header b);
  wv_proposer : forall p, bk_proposer b = Some p -> utf8_valid p = true;
  wv_data : wf_protocol_data (bk_protocol_data b);
  wv_transactions : Forall wf_tx (bk_transactions b)
}.

Section BlockCodec.
  Context {KE : Keccak} {HX : Hex} {HE : HexEncode} {HL : HexLaws HX HE} {VJ : V1Json} {JL : V1JsonLaws VJ}.

Definition entry_enc (t : Tx) : bytes := default [] (wire_entry t).
Definition entry_ok (t : Tx) : Prop := wf_tx t /\ tx_normal t /\ is_Some (wire_entry t).

Lemma entries_of txs : Forall (fun t => is_Some (wire_entry t)) txs <-> mapM wire_entry txs = Some (map entry_enc txs).
Proof.
  induction txs as [|t txs IH]; [done|]. rewrite Forall_cons, IH. unfold entry_enc. simpl. split.
  - intros [[x Hx] Hm]. by rewrite Hx, Hm.
  - destruct (wire_entry t) as [x|]; [|done]. simpl. destruct (mapM wire_entry txs) as [l|]; [|done].
    intros [= ->]. eauto.
Qed.

Lemma entries_Some txs l : mapM wire_entry txs = Some l -> l = map entry_enc txs.
Proof.
  intros H'. assert (Forall (fun t => is_Some (wire_entry t)) txs) as F%entries_of; [|congruence].
  apply mapM_Some in H'. induction H'; constructor; eauto.
Qed.

Lemma wire_entry_length t bs : wire_entry t = Some bs -> (Z.of_nat (length bs) < U32 + 4)%Z.
Proof. unfold wire_entry. intros (x & _ & Hx)%bind_Some. by apply append_bytes_length in Hx. Qed.

Lemma entries_length txs :
  (Z.of_nat (length (concat (map entry_enc txs))) <= Z.of_nat (length txs) * (U32 + 4))%Z.
Proof.
  induction txs as [|t txs IH]; [done|]. cbn [map concat length]. rewrite length_app. unfold entry_enc at 1.
  destruct (wire_entry t) as [x|] eqn:E; simpl; [apply wire_entry_length in E|]; lia.
Qed.

Lemma wire_entry_parses i t :
  entry_ok t -> parses ((fun _ : nat => bs ← rd_bytes; p_lift (ok_or (Tx_from_canonical_bytes bs) ())) i) (entry_enc t) t.
Proof.
  intros (W & N & [x Hx]). unfold entry_enc. rewrite Hx. simpl. unfold wire_entry in Hx.
  apply bind_Some in Hx as (bs & E & Ha). rewrite <- (app_nil_r x).
  eapply parses_bind; [by apply rd_bytes_parses|]. apply parses_lift, ok_or_Ok, tx_codec_iff. done.
Qed.

Lemma wire_entry_inv (i : nat) d t d' :
  (bs ← rd_bytes; p_lift (ok_or (Tx_from_canonical_bytes bs) ())) d = Ok (t, d') ->
  entry_ok t /\ consumes d (entry_enc t) d'.
Proof.
  intros (bs & d1 & Hb & H')%p_bind_Ok. apply p_lift_Ok in H' as [Ht <-]. apply ok_or_Ok, tx_codec_iff in Ht as (W & N & E).
  apply rd_bytes_inv in Hb as (x & Hx & Hc). assert (wire_entry t = Some x) as Ex by (unfold wire_entry; by rewrite E).
  unfold entry_ok, entry_enc. rewrite Ex. eauto.
Qed.

Lemma wire_layout_inv hash b bs :
  wire_layout hash b = Some bs -> exists proposer data,
    append_bytes (default [] (bk_proposer b)) = Some proposer /\
    append_bytes (ProtocolData_canonical_bytes (bk_protocol_data b)) = Some data /\
    Forall (fun t => is_Some (wire_entry t)) (bk_transactions b) /\
    bs = be_bytes 1 BLOCK_WIRE_VERSION ++ hash ++ BlockHeader_canonical_bytes (bk_header b) ++ proposer ++ data ++
      be_bytes 8 (Z.of_nat (length (bk_transactions b))) ++ concat (map entry_enc (bk_transactions b)).
Proof.
  unfold wire_layout. intros (p & Hp & H')%bind_Some. apply bind_Some in H' as (d & Hd & H').
  apply bind_Some in H' as (l & Hl & [= <-]). pose proof (entries_Some _ _ Hl) as ->.
  apply entries_of in Hl. eauto 10.
Qed.

Lemma wire_fields_parses hash b bs :
  wf_v1_block b -> Forall tx_normal (bk_transactions b) -> bk_proposer b <> Some [] -> length hash = 32%nat ->
  (Z.of_nat (length (bk_transactions b)) <= MAX_BLOCK_TRANSACTIONS)%Z ->
  wire_layout hash b = Some bs -> parses wire_fields bs (hash, b).
Proof.
  intros [Hh Hp Hd Ht] Hn Hne Hl Hc (pr & da & E1 & E2 & F & ->)%wire_layout_inv.
  unfold MAX_BLOCK_TRANSACTIONS in *. pose proof (length_header_bytes _ Hh) as Hlh.
  assert (in_width U64 (Z.of_nat (length (bk_transactions b)))) by (unfold in_width; lia).
  assert (utf8_valid (default [] (bk_proposer b)) = true) as Hu
    by (destruct (bk_proposer b); [by apply Hp|done]).
  unfold wire_fields.
  eapply parses_bind; [apply parses_u8; unfold in_width, BLOCK_WIRE_VERSION; lia|]. parse_step; [done|].
  eapply parses_bind; [by apply parses_field|].
  eapply parses_bind; [apply parses_take; by rewrite Hlh|].
  parse_step; [by apply ok_or_Ok, header_codec_iff|].
  eapply parses_bind; [by apply rd_string_parses|]. eapply parses_bind; [by apply rd_bytes_parses|].
  parse_step; [apply ok_or_Ok, protocol_data_codec_iff; [apply append_bytes_Some in E2; lia|done]|].
  eapply parses_bind; [by apply parses_u64|]. parse_step; [apply fail_if_false, Z.ltb_ge; done|].
  rewrite Nat2Z.id. rewrite <- (app_nil_r (concat _)). eapply parses_bind.
  { apply (parses_repeat entry_enc). intros j t Hj. apply (wire_entry_parses j). unfold entry_ok.
    rewrite Forall_forall in Ht. rewrite Forall_forall in Hn. rewrite Forall_forall in F. split_and!; [by apply Ht|by apply Hn|by apply F]. }
  destruct b as [h p txs pd]; cbn in *.
  assert ((if default [] p ==? [] then None else Some (default [] p)) = p) as ->; [|apply parses_ret].
  destruct p as [p|]; [|done]. cbn. rewrite bool_decide_eq_false_2; [done|]. by intros ->.
Qed.

Lemma wire_fields_inv d hash b d' :
  wire_fields d = Ok ((hash, b), d') ->
  wf_v1_block b /\ Forall tx_normal (bk_transactions b) /\ bk_proposer b <> Some [] /\
  exists bs, wire_layout hash b = Some bs /\ consumes d bs d'.
Proof.
  unfold wire_fields. intros Hrun. inv_parse. inv_ok.
  match goal with H : (_, _) = (_, _) |- _ => injection H as <- <- end.
  match goal with H : p_repeat _ _ _ _ = Ok _ |- _ =>
    apply (p_repeat_inv entry_enc entry_ok _ _ _ _ _ _ wire_entry_inv) in H as (Hlen & F & ?) end.
  repeat match goal with
  | H : rd_string _ = Ok _ |- _ => apply rd_string_inv in H as (? & ? & ? & ?)
  | H : rd_bytes _ = Ok _ |- _ => apply rd_bytes_inv in H as (? & ? & ?)
  | H : BlockHeader_from_canonical_bytes _ = _ |- _ => apply header_codec_iff in H as [? <-]
  | H : ProtocolData_from_canonical_bytes _ = _, A : append_bytes ?x = Some _ |- _ =>
      apply protocol_data_codec_iff in H as [? <-]; [|apply append_bytes_Some in A as [A _]; lia]
  end.
  split; [constructor; cbn; try done|split; [|split]]; cbn.
  - intros p. case_bool_decide; [done|]. by intros [= <-].
  - eapply Forall_impl; [exact F|]. by intros ? [].
  - eapply Forall_impl; [exact F|]. by intros ? (_ & ? & _).
  - case_bool_decide; [done|]. by intros [= ->].
  - match type of F with Forall _ ?txs =>
      assert (Forall (fun t => is_Some (wire_entry t)) txs) as E%entries_of
        by (eapply Forall_impl; [exact F|]; by intros ? (_ & _ & ?)) end.
    unfold wire_layout. cbn [bk_header bk_proposer bk_transactions bk_protocol_data].
    match goal with |- context [if ?p ==? [] then _ else _] =>
      replace (default [] (if p ==? [] then None else Some p)) with p by (case_bool_decide; by subst) end.
    repeat match goal with A : append_bytes _ = Some _ |- _ => rewrite A; clear A; simpl end.
    rewrite E. simpl. eexists. split; [done|]. unfold in_width in *. rewrite Hlen, Z2Nat.id by lia. subst. glue.
Qed.

Lemma wire_bytes_length b bs :
  wf_header (bk_header b) ->
  (Z.of_nat (length (bk_transactions b)) <= MAX_BLOCK_TRANSACTIONS)%Z ->
  wire_layout (Block_hash b) b = Some bs -> (Z.of_nat (length bs) < U64)%Z.
Proof.
  intros Hh Hc (pr & da & E1 & E2 & _ & ->)%wire_layout_inv. apply append_bytes_length in E1, E2.
  unfold MAX_BLOCK_TRANSACTIONS in *. pose proof (entries_length (bk_transactions b)).
  unfold Block_hash, BlockHeader_hash, hash_with_domain.
  rewrite !length_app, !length_be_bytes, length_header_bytes, keccak256_length by done. lia.
Qed.
(** ** What a valid block satisfies *)

(** The condition on each kind of block. *)
Definition kind_rule (b : Block) : Prop :=
  let h := bk_header b in
  match block_kind h with
  | Validator => exists p, bk_proposer b = Some p /\ proposer_id_field h = proposer_id p /\
      proposer_id_field h <> ZERO_PROPOSER_ID /\ ticket_id h <> ZERO_TICKET_ID /\
      missed_proposer (bk_protocol_data b) = None
  | kind =>
      bk_proposer b = None /\ proposer_id_field h = ZERO_PROPOSER_ID /\ ticket_id h = ZERO_TICKET_ID /\
      match kind with
      | ProtocolMiss => bk_transactions b = [] /\ exists id, missed_proposer (bk_protocol_data b) = Some id /\
          id <> [] /\ id <> str "protocol"
      | ProtocolNoTickets => missed_proposer (bk_protocol_data b) = None /\ (length (bk_transactions b) <= 1)%nat
      | _ => missed_proposer (bk_protocol_data b) = None /\ bk_transactions b = []
      end
  end.

Lemma kind_ok_iff b : kind_ok b = true <-> kind_rule b.
Proof.
  unfold kind_ok, kind_rule. cbv zeta. destruct (block_kind (bk_header b)).
  - destruct (bk_proposer b) as [p|]; [|naive_solver]. rewrite !andb_true_iff, !bool_decide_eq_true. naive_solver.
  - destruct (missed_proposer _) as [id|]; rewrite ?andb_false_r, ?andb_true_iff, ?negb_true_iff, ?bool_decide_eq_true,
      ?bool_decide_eq_false; naive_solver.
  - rewrite !andb_true_iff, !bool_decide_eq_true. naive_solver.
  - rewrite !andb_true_iff, !bool_decide_eq_true, Nat.leb_le. naive_solver.
Qed.

Fixpoint tx_sum (f : Tx -> Z) (txs : list Tx) : Z :=
  match txs with [] => 0 | t :: rest => f t + tx_sum f rest end.

Lemma tx_sum_nonneg f txs : Forall (fun t => (0 <= f t)%Z) txs -> (0 <= tx_sum f txs)%Z.
Proof. induction 1; simpl; lia. Qed.

Lemma checked_sum_Some f txs total s :
  Forall (fun t => (0 <= f t)%Z) txs -> (total < U64)%Z ->
  checked_sum f txs total = Some s <-> (total + tx_sum f txs < U64)%Z /\ s = (total + tx_sum f txs)%Z.
Proof.
  intros F. revert total. induction F as [|t txs Ht F IH]; intros total Hb; simpl.
  { split; [intros [= <-]; lia|]. intros [_ ->]. f_equal. lia. }
  pose proof (tx_sum_nonneg f txs F). unfold checked_add. destruct (Z.ltb_spec (total + f t) U64); simpl.
  - rewrite IH by done. split; intros [? ->]; split; lia.
  - split; [done|]. lia.
Qed.

Record v1_committed (b : Block) : Prop := {
  vc_root : v1_transaction_root (bk_transactions b) = Some (transaction_root (bk_header b));
  vc_version : protocol_version (bk_header b) = V1_PROTOCOL_VERSION;
  vc_chain : chain_id (bk_header b) = V1_CHAIN_ID;
  vc_state : state_root (bk_header b) = PLACEHOLDER_STATE_ROOT;
  vc_receipts : receipts_root (bk_header b) = EMPTY_RECEIPTS_ROOT;
  vc_data : protocol_data_root (bk_header b) = ProtocolData_root (bk_protocol_data b);
  vc_gas : gas_used (bk_header b) = tx_sum t_gas (bk_transactions b) /\ (gas_used (bk_header b) <= MAX_BLOCK_GAS)%Z;
  vc_fees : fees_burned (bk_protocol_data b) = tx_sum t_fee_quarks (bk_transactions b) /\
    (fees_burned (bk_protocol_data b) < U64)%Z;
  vc_count : (Z.of_nat (length (bk_transactions b)) <= MAX_BLOCK_TRANSACTIONS)%Z;
  vc_transactions : Forall (fun t => t_chain_id t = V1_CHAIN_ID /\ (t_valid_after_slot t <= slot (bk_header b))%Z)
    (bk_transactions b);
  vc_kind : kind_rule b
}.

Lemma commitments_iff b :
  Forall wf_tx (bk_transactions b) -> validate_commitments b = true <-> v1_committed b.
Proof.
  intros F. unfold validate_commitments. cbv zeta.
  assert (Forall (fun t => (0 <= t_gas t)%Z) (bk_transactions b) /\ Forall (fun t => (0 <= t_fee_quarks t)%Z) (bk_transactions b))
    as [F1 F2] by (split; (eapply Forall_impl; [exact F|]); intros t []; unfold in_width in *; lia).
  pose proof (fun s => checked_sum_Some t_gas (bk_transactions b) 0 s F1 eq_refl) as G.
  pose proof (fun s => checked_sum_Some t_fee_quarks (bk_transactions b) 0 s F2 eq_refl) as Q.
  split.
  - destruct (v1_transaction_root _) as [root|] eqn:Hr; [|done].
    destruct (_ || _ || _ || _ || _ || _) eqn:E; [done|].
    repeat (apply orb_false_iff in E as [E ?]). repeat match goal with
      H : bool_decide (_ <> _) = false |- _ => apply bool_decide_eq_false, dec_stable in H end.
    destruct (checked_sum t_gas _ 0) as [gas|] eqn:Eg; [|done]. destruct (checked_sum t_fee_quarks _ 0) as [fees|] eqn:Ef; [|done].
    destruct (proj1 (G gas) eq_refl) as [? ->]. destruct (proj1 (Q fees) eq_refl) as [? ->].
    destruct (_ || _) eqn:E'; [done|]. apply orb_false_iff in E' as [E1 E2].
    apply bool_decide_eq_false, dec_stable in E1. apply bool_decide_eq_false, dec_stable in E2.
    destruct (_ || _) eqn:E'; [done|]. apply orb_false_iff in E' as [E3%Z.ltb_ge E4%Z.ltb_ge].
    destruct (existsb _ _) eqn:E5; [done|]. intros Hk%kind_ok_iff.
    constructor; try done; try congruence; try (split; lia).
    apply Forall_forall. intros t Ht. rewrite <- not_true_iff_false, existsb_exists in E5.
    destruct (decide (t_chain_id t = V1_CHAIN_ID)) as [?|Hc], (Z.leb_spec (t_valid_after_slot t) (slot (bk_header b))) as [?|Hv];
      [done|exfalso; apply E5..]; exists t; (split; [by apply list_elem_of_In|]); apply orb_true_iff;
      rewrite bool_decide_eq_true, Z.ltb_lt; auto.
  - intros []. rewrite vc_root0. rewrite !neq_dec_false by done. cbn [orb].
    destruct vc_gas0 as [Hg ?], vc_fees0 as [Hf ?]. unfold MAX_BLOCK_GAS, MAX_BLOCK_TRANSACTIONS in *.
    assert (checked_sum t_gas (bk_transactions b) 0 = Some (gas_used (bk_header b))) as -> by (apply G; lia).
    assert (checked_sum t_fee_quarks (bk_transactions b) 0 = Some (fees_burned (bk_protocol_data b))) as -> by (apply Q; lia).
    rewrite !neq_dec_false by done. cbn [orb]. rewrite !(proj2 (Z.ltb_ge _ _)) by lia. cbn [orb].
    destruct (existsb _ _) eqn:E5; [|by apply kind_ok_iff]. exfalso.
    apply existsb_exists in E5 as (t & Ht%list_elem_of_In & E). rewrite Forall_forall in vc_transactions0.
    destruct (vc_transactions0 t Ht) as [Hc Hv]. rewrite neq_dec_false in E by done. apply Z.ltb_lt in E. lia.
Qed.

Lemma v1_wire_iff bs b :
  Block_from_wire_bytes bs = Some b <->
  wf_v1_block b /\ Forall tx_normal (bk_transactions b) /\ bk_proposer b <> Some [] /\ Block_wire_bytes b = Some bs.
Proof.
  unfold Block_from_wire_bytes, Block_wire_bytes. split.
  - destruct (wire_fields _) as [[[hash b'] d]|] eqn:Hrun; [|done]. destruct (finished d) eqn:Hf; [|done]. cbn [negb].
    destruct (_ && _) eqn:E; [|done]. intros [= ->]. apply andb_true_iff in E as [E%bool_decide_eq_true ->].
    apply wire_fields_inv in Hrun as (W & N & Hne & x & Hx & Hc). split_and!; [done..|].
    cbn [negb]. rewrite E, Hx. f_equal. symmetry. by eapply consumes_finished.
  - intros (W & N & Hne & E). destruct (validate_commitments b) eqn:Hv; [|done]. cbn [negb] in E.
    pose proof (proj1 (commitments_iff b (wv_transactions _ W)) Hv) as C.
    pose proof (wire_bytes_length b bs (wv_header _ W) (vc_count _ C) E).
    rewrite (parses_all _ _ (Block_hash b, b)); [|done|].
    + rewrite finished_end. cbn [negb]. by rewrite bool_decide_eq_true_2, Hv by done.
    + apply wire_fields_parses; try done; [apply keccak256_length|apply C].
Qed.
End BlockCodec.

(** ** What a block hash binds *)

Section Binding.
  Context {KE : Keccak} {HX : Hex} {HE : HexEncode} {HL : HexLaws HX HE} {VJ : V1Json} {JL : V1JsonLaws VJ}.

(** The preimages of the two blocks that would have to collide. *)
Inductive block_clash (b1 b2 : Block) : Prop :=
| clash_header :
    collides (BLOCK_HEADER_DOMAIN ++ BlockHeader_canonical_bytes (bk_header b1))
      (BLOCK_HEADER_DOMAIN ++ BlockHeader_canonical_bytes (bk_header b2)) -> block_clash b1 b2
| clash_data :
    collides (PROTOCOL_DATA_DOMAIN ++ ProtocolData_canonical_bytes (bk_protocol_data b1))
      (PROTOCOL_DATA_DOMAIN ++ ProtocolData_canonical_bytes (bk_protocol_data b2)) -> block_clash b1 b2
| clash_proposer p1 p2 :
    bk_proposer b1 = Some p1 -> bk_proposer b2 = Some p2 ->
    collides (PROPOSER_ID_DOMAIN ++ be_bytes 8 (Z.of_nat (length p1)) ++ p1)
      (PROPOSER_ID_DOMAIN ++ be_bytes 8 (Z.of_nat (length p2)) ++ p2) -> block_clash b1 b2
| clash_list ids1 ids2 :
    Block_transaction_hashes b1 = Some ids1 -> Block_transaction_hashes b2 = Some ids2 ->
    collides (TX_LIST_DOMAIN ++ be_bytes 8 (Z.of_nat (length ids1)) ++ concat ids1)
      (TX_LIST_DOMAIN ++ be_bytes 8 (Z.of_nat (length ids2)) ++ concat ids2) -> block_clash b1 b2
| clash_transaction t1 t2 c1 c2 :
    t1 ∈ bk_transactions b1 -> t2 ∈ bk_transactions b2 ->
    Tx_canonical_bytes t1 = Some c1 -> Tx_canonical_bytes t2 = Some c2 ->
    collides (TX_DOMAIN ++ c1) (TX_DOMAIN ++ c2) -> block_clash b1 b2.

Lemma tx_ids_length txs ids : mapM Tx_hash txs = Some ids -> Forall (fun b => length b = 32%nat) ids.
Proof.
  intros H'%mapM_Some. apply Forall_forall. intros id (i & Hi)%list_elem_of_lookup.
  destruct (Forall2_lookup_r _ _ _ _ _ H' Hi) as (t & _ & Ht). unfold Tx_hash in Ht.
  apply fmap_Some in Ht as (c & _ & ->). apply keccak256_length.
Qed.

Lemma tx_ids_bind txs1 txs2 ids :
  mapM Tx_hash txs1 = Some ids -> mapM Tx_hash txs2 = Some ids ->
  map Tx_canonical_bytes txs1 = map Tx_canonical_bytes txs2 \/
  exists t1 t2 c1 c2, t1 ∈ txs1 /\ t2 ∈ txs2 /\ Tx_canonical_bytes t1 = Some c1 /\ Tx_canonical_bytes t2 = Some c2 /\
    collides (TX_DOMAIN ++ c1) (TX_DOMAIN ++ c2).
Proof.
  intros H1%mapM_Some H2%mapM_Some. revert txs2 H2. induction H1 as [|t1 id txs1 ids Ht1 H1 IH]; intros txs2 H2.
  { apply Forall2_nil_inv_r in H2 as ->. by left. }
  apply Forall2_cons_inv_r in H2 as (t2 & txs2' & Ht2 & H2 & ->).
  unfold Tx_hash in Ht1, Ht2. apply fmap_Some in Ht1 as (c1 & E1 & ->). apply fmap_Some in Ht2 as (c2 & E2 & Eh).
  destruct (hash_with_domain_inj _ _ _ Eh) as [<-|Hcol].
  - destruct (IH _ H2) as [Heq|(x1 & x2 & d1 & d2 & ? & ? & ? & ? & ?)].
    + left. cbn [map]. by rewrite E1, E2, Heq.
    + right. exists x1, x2, d1, d2. rewrite !elem_of_cons. auto.
  - right. exists t1, t2, c1, c2. rewrite !elem_of_cons. auto 10.
Qed.

Lemma normal_txs_eq txs1 txs2 :
  Forall wf_tx txs1 -> Forall wf_tx txs2 -> Forall tx_normal txs1 -> Forall tx_normal txs2 ->
  Forall (fun t => is_Some (Tx_canonical_bytes t)) txs1 ->
  map Tx_canonical_bytes txs1 = map Tx_canonical_bytes txs2 -> txs1 = txs2.
Proof.
  revert txs2. induction txs1 as [|t1 txs1 IH]; intros [|t2 txs2] W1 W2 N1 N2 F; try done.
  apply Forall_cons in W1 as [], W2 as [], N1 as [], N2 as [], F as [[c Hc] ?]. cbn [map]. intros [= E1 E2].
  f_equal; [|by apply IH]. assert (Tx_from_canonical_bytes c = Some t1) as Q1 by (by apply tx_codec_iff).
  assert (Tx_from_canonical_bytes c = Some t2) as Q2 by (apply tx_codec_iff; split_and!; [done..|congruence]). congruence.
Qed.

Lemma root_ids txs r :
  v1_transaction_root txs = Some r -> exists ids, mapM Tx_hash txs = Some ids /\ ordered_transaction_root ids = Some r.
Proof. unfold v1_transaction_root. intros (ids & ? & ?)%bind_Some. eauto. Qed.

Lemma ids_encodable txs ids : mapM Tx_hash txs = Some ids -> Forall (fun t => is_Some (Tx_canonical_bytes t)) txs.
Proof.
  intros H'%mapM_Some. induction H' as [|t id txs ids Ht _ IH]; constructor; [|done].
  unfold Tx_hash in Ht. apply fmap_Some in Ht as (c & -> & _). eauto.
Qed.

Lemma proposer_bound b1 b2 :
  kind_rule b1 -> kind_rule b2 -> bk_header b1 = bk_header b2 ->
  bk_proposer b1 = bk_proposer b2 \/ block_clash b1 b2.
Proof.
  unfold kind_rule. cbv zeta. intros K1 K2 Eh. rewrite <- Eh in K2. destruct (block_kind (bk_header b1)).
  - destruct K1 as (p1 & E1 & I1 & _), K2 as (p2 & E2 & I2 & _). rewrite I1 in I2.
    destruct (hash_with_domain_inj _ _ _ I2) as [E|Hcol]; [left|right; by eapply clash_proposer].
    rewrite E1, E2. f_equal. apply app_inj_1 in E as [_ E]; [done|]. by rewrite !length_be_bytes.
  - left. destruct K1 as [-> _], K2 as [-> _]. done.
  - left. destruct K1 as [-> _], K2 as [-> _]. done.
  - left. destruct K1 as [-> _], K2 as [-> _]. done.
Qed.
End Binding.

(** ** Properties *)

Section V1Properties.
  Context {KE : Keccak} {HX : Hex} {HE : HexEncode} {HL : HexLaws HX HE} {VJ : V1Json} {JL : V1JsonLaws VJ}.

(** The V1 transaction codec.  The decoder accepts exactly the canonical bytes
    of well-formed transactions whose registration data and signature are
    written the way the decoder writes them; every other encodable transaction
    decodes to the one normal transaction with the same canonical bytes, hence
    the same id, and the same other fields. *)
Theorem v1_tx_codec bs :
  (forall t, Tx_from_canonical_bytes bs = Some t <-> wf_tx t /\ tx_normal t /\ Tx_canonical_bytes t = Some bs) /\
  (forall t, wf_tx t -> Tx_canonical_bytes t = Some bs -> exists t',
     Tx_from_canonical_bytes bs = Some t' /\ Tx_hash t' = Tx_hash t /\ untext t' = untext t /\
     (t' = t <-> tx_normal t)).
Proof.
  split; [apply tx_codec_iff|]. intros t W E.
  destruct (tx_normalize_spec t bs W E) as (t' & _ & W' & N' & E' & Hu & Hsame). exists t'.
  split; [by apply tx_codec_iff|]. split; [unfold Tx_hash; by rewrite E, E'|]. split; [done|].
  split; [by intros <-|done].
Qed.

(** C36: the V1 wire codec.  A byte string decodes to a block exactly when the block
    has the widths of the struct, satisfies every commitment, limit and kind
    rule ([v1_committed]), holds normal transactions and no empty proposer
    text, and the string is its wire form; truncated, padded or re-hashed
    strings are never accepted. *)
Theorem v1_wire_codec bs b :
  Block_from_wire_bytes bs = Some b <->
  wf_v1_block b /\ v1_committed b /\ Forall tx_normal (bk_transactions b) /\ bk_proposer b <> Some [] /\
  wire_layout (Block_hash b) b = Some bs.
Proof.
  rewrite v1_wire_iff. unfold Block_wire_bytes. split.
  - intros (W & N & P & E). destruct (validate_commitments b) eqn:Hv; [|done]. split; [done|].
    split; [apply commitments_iff, Hv; apply W|done].
  - intros (W & C & N & P & E). split_and!; [done..|]. by rewrite (proj2 (commitments_iff b (wv_transactions _ W)) C).
Qed.

(** C37: a V1 block hash binds the block: two well-formed valid blocks with the
    same hash have the same header, proposer, protocol data and canonical
    transaction bytes (so they are equal when their texts are normal), unless
    two of their own preimages collide under Keccak-256. *)
Theorem v1_block_binds b1 b2 :
  wf_v1_block b1 -> wf_v1_block b2 -> validate_commitments b1 = true -> validate_commitments b2 = true ->
  Block_hash b1 = Block_hash b2 ->
  block_clash b1 b2 \/
  bk_header b1 = bk_header b2 /\ bk_proposer b1 = bk_proposer b2 /\ bk_protocol_data b1 = bk_protocol_data b2 /\
  map Tx_canonical_bytes (bk_transactions b1) = map Tx_canonical_bytes (bk_transactions b2) /\
  (Forall tx_normal (bk_transactions b1) -> Forall tx_normal (bk_transactions b2) -> b1 = b2).
Proof.
  intros W1 W2 V1 V2 Hh. apply commitments_iff in V1; [|apply W1]. apply commitments_iff in V2; [|apply W2].
  apply hash_with_domain_inj in Hh as [Heq|Hcol]; [|left; by apply clash_header].
  apply header_bytes_inj in Heq; [|apply W1|apply W2].
  assert (ProtocolData_root (bk_protocol_data b1) = ProtocolData_root (bk_protocol_data b2)) as Hr
    by (rewrite <- (vc_data _ V1), <- (vc_data _ V2); congruence).
  apply hash_with_domain_inj in Hr as [Hd|Hcol]; [|left; by apply clash_data].
  apply protocol_data_bytes_inj in Hd; [|apply W1|apply W2].
  destruct (proposer_bound b1 b2 (vc_kind _ V1) (vc_kind _ V2) Heq) as [Hp|?]; [|by left].
  destruct (root_ids _ _ (vc_root _ V1)) as (ids1 & I1 & R1), (root_ids _ _ (vc_root _ V2)) as (ids2 & I2 & R2).
  rewrite <- Heq in R2.
  destruct (transaction_root_inj _ _ _ (tx_ids_length _ _ I1) (tx_ids_length _ _ I2) R1 R2) as [<-|Hcol];
    [|left; by eapply clash_list].
  destruct (tx_ids_bind _ _ _ I1 I2) as [Ht|(t1 & t2 & c1 & c2 & ? & ? & ? & ? & ?)]; [|left; by eapply clash_transaction].
  right. split_and!; [done..|]. intros N1 N2. destruct b1 as [h1 p1 x1 d1], b2 as [h2 p2 x2 d2]; cbn in *.
  f_equal; try done. apply normal_txs_eq; try done; [apply W1|apply W2|by eapply ids_encodable].
Qed.
End V1Properties.

(** ** An example *)

(** Registration texts as two hexadecimal fields. *)
Fixpoint split_comma (b : bytes) : option (bytes * bytes) :=
  match b with
  | [] => None
  | x :: r => if x ==? x2c then Some ([], r) else '(a, c) ← split_comma r; Some (x :: a, c)
  end.

Definition toy_registration (key reward : bytes) : bytes := toy_hex_encode key ++ x2c :: toy_hex_encode reward.

Definition toy_json : V1Json := {|
  json_value := bytes * bytes;
  json_from_str b :=
    '(k, r) ← split_comma b; k ← toy_hex_decode k; r ← toy_hex_decode r;
    if utf8_valid k && utf8_valid r then Some (k, r) else None;
  json_member v m :=
    if m ==? str "validator_pubkey" then Some v.1 else if m ==? str "reward_address" then Some v.2 else None;
  json_registration := toy_registration
|}.

Lemma ascii_valid b : Forall (fun x => byte_in 0 127 x = true) b -> utf8_valid b = true.
Proof. unfold utf8_valid. induction 1 as [|x b Hx _ IH]; [done|]. cbn [length utf8_valid_fuel]. by rewrite Hx. Qed.

Lemma toy_hex_ascii b : Forall (fun x => byte_in 0 127 x = true) (toy_hex_encode b).
Proof. induction b as [|x b IH]; [constructor|]. destruct (hex_digit_ascii x) as (? & ? & _). by repeat constructor. Qed.

Lemma hex_digit_not_comma x :
  toy_hex_digit (byte_val x / 16) <> x2c /\ toy_hex_digit (byte_val x mod 16) <> x2c.
Proof. destruct x; split; vm_compute; discriminate. Qed.

Lemma split_registration key rest : split_comma (toy_hex_encode key ++ x2c :: rest) = Some (toy_hex_encode key, rest).
Proof.
  induction key as [|x key IH]; [done|]. destruct (hex_digit_not_comma x) as [H1 H2].
  cbn [toy_hex_encode app split_comma]. rewrite !bool_decide_eq_false_2 by done. by rewrite IH.
Qed.

Lemma toy_json_laws : V1JsonLaws toy_json.
Proof.
  constructor.
  - intros key reward Hk Hr. cbn. split.
    + apply ascii_valid, Forall_app. split; [apply toy_hex_ascii|constructor; [done|apply toy_hex_ascii]].
    + exists (key, reward). split; [|done]. unfold toy_registration. rewrite split_registration. simpl.
      pose proof (@hex_roundtrip _ _ toy_hex_laws key) as E1. pose proof (@hex_roundtrip _ _ toy_hex_laws reward) as E2.
      unfold hex_decode, hex_encode in E1, E2. rewrite E1, E2. simpl. by rewrite Hk, Hr.
  - cbn. intros s [k r] m b (p & _ & H')%bind_Some. destruct p as [k0 r0].
    apply bind_Some in H' as (k1 & _ & H'). apply bind_Some in H' as (r1 & _ & H').
    destruct (utf8_valid k1) eqn:E1; [|done]. destruct (utf8_valid r1) eqn:E2; [|done]. injection H' as <- <-.
    intros E. repeat case_bool_decide; try done; by injection E as <-.
Qed.

(** A transfer whose signature text is not the decoder's. *)
Definition toy_tx (signature : bytes) : Tx :=
  mk_tx V1_CHAIN_ID (str "alice") 0 (str "bob") 0 5 1000 10000 10 Transfer 0 0 [] signature.

Definition toy_miss (slot : Z) (leader : bytes) : option Block :=
  @Block_new toy_keccak toy_hex_decode toy_json slot ProtocolMiss ZERO_HASH None ZERO_TICKET_ID [] 0
    (mk_protocol_data (Some leader) 0).

Definition toy_transfer_block (signature : bytes) : option Block :=
  @Block_new toy_keccak toy_hex_decode toy_json 3 Validator ZERO_HASH (Some (str "val-1")) 7 [toy_tx signature] 1000
    (mk_protocol_data None 10000).

#[local] Existing Instance toy_keccak.
#[local] Existing Instance toy_hex_decode.
#[local] Existing Instance toy_hex_encode.
#[local] Existing Instance toy_hex_laws.
#[local] Existing Instance toy_json.
#[local] Existing Instance toy_json_laws.

Lemma toy_tx_wf s : utf8_valid s = true -> wf_tx (toy_tx s).
Proof. intros H. constructor; cbn; try done; by_computation. Qed.

(** The upper-case text decodes to the lower-case one: same id, other text. *)
Lemma v1_tx_codec_witness : exists bs t',
  Tx_canonical_bytes (toy_tx (str "ABCD")) = Some bs /\ Tx_from_canonical_bytes bs = Some t' /\
  Tx_hash t' = Tx_hash (toy_tx (str "ABCD")) /\ t_signature_hex t' = str "0xabcd".
Proof.
  destruct (Tx_canonical_bytes (toy_tx (str "ABCD"))) as [bs|] eqn:E; [|vm_compute in E; discriminate E].
  destruct (proj2 (v1_tx_codec bs) (toy_tx (str "ABCD")) (toy_tx_wf (str "ABCD") eq_refl) E) as (t' & Hd & Hh & _).
  exists bs, t'. split; [reflexivity|]. split; [exact Hd|]. split; [exact Hh|].
  vm_compute in E. injection E as <-. vm_compute in Hd. injection Hd as <-. reflexivity.
Defined.

Lemma v1_wire_codec_witness : exists b bs,
  toy_transfer_block (str "0xabcd") = Some b /\ wire_layout (Block_hash b) b = Some bs /\ v1_committed b.
Proof.
  destruct (toy_transfer_block (str "0xabcd")) as [b|] eqn:E; [|vm_compute in E; discriminate E].
  destruct (wire_layout (Block_hash b) b) as [bs|] eqn:Eb; [|vm_compute in E; injection E as <-; vm_compute in Eb; discriminate Eb].
  assert (Block_from_wire_bytes bs = Some b) as Hd.
  { vm_compute in E. injection E as <-. vm_compute in Eb. injection Eb as <-. vm_compute. reflexivity. }
  exists b, bs. split; [reflexivity|]. split; [exact Eb|]. apply (proj1 (v1_wire_codec bs b) Hd).
Defined.

(** Two texts of one signature: different blocks, one hash. *)
Lemma v1_block_binds_witness : exists b1 b2,
  toy_transfer_block (str "ABCD") = Some b1 /\ toy_transfer_block (str "0xabcd") = Some b2 /\ b1 <> b2 /\
  (block_clash b1 b2 \/ bk_header b1 = bk_header b2 /\ bk_protocol_data b1 = bk_protocol_data b2).
Proof.
  destruct (toy_transfer_block (str "ABCD")) as [b1|] eqn:E1; [|vm_compute in E1; discriminate E1].
  destruct (toy_transfer_block (str "0xabcd")) as [b2|] eqn:E2; [|vm_compute in E2; discriminate E2].
  assert (forall s b, utf8_valid s = true -> toy_transfer_block s = Some b -> wf_v1_block b /\ validate_commitments b = true)
    as Hwf.
  { intros s b Hs E. unfold toy_transfer_block, Block_new in E. apply bind_Some in E as (root & Hr & E). revert E.
    case_match eqn:V; [|done]. intros [= <-]. split; [|exact V].
    unfold v1_transaction_root in Hr. apply bind_Some in Hr as (ids & _ & Hr). unfold ordered_transaction_root in Hr.
    revert Hr. case_match; [|done]. intros [= <-].
    constructor; cbn; [|by intros p [= <-]|by_computation|constructor; [by apply toy_tx_wf|constructor]].
    repeat split; try done; apply keccak256_length. }
  destruct (Hwf (str "ABCD") b1 eq_refl E1) as [W1 V1], (Hwf (str "0xabcd") b2 eq_refl E2) as [W2 V2].
  assert (Block_hash b1 = Block_hash b2 /\ b1 <> b2) as [Hh Hne].
  { vm_compute in E1. injection E1 as <-. vm_compute in E2. injection E2 as <-. split; [reflexivity|discriminate]. }
  exists b1, b2. split; [reflexivity|]. split; [reflexivity|]. split; [exact Hne|].
  destruct (v1_block_binds b1 b2 W1 W2 V1 V2 Hh) as [?|(? & _ & ? & _)]; [left|right]; auto.
Defined.
