(* ===== verification/LegacyState.v ===== *)
(** * The state of the V1 node and its ledger (src/src/models.rs, src/src/app/accounts.rs)

    [ProtocolState] holds what the consensus code of the test-network node
    reads and writes, grouped: the [Ledger] (validators, tickets, accounts and
    the counters of the economy), the [Chain] of stored blocks, the [Pools], the
    current [Turn] and the [Calendar] of epochs.  An operation that can panic
    returns [None] there: a failed [expect], or an overflow of an unchecked
    operator in a build with overflow checks.

    The lemmas show what each ledger operation does to balances, vaults and
    the exact supply [supply], and that addresses are normalised once and for
    all; the theorems about whole slots are in [LegacyChain]. *)

From S2P Require Import Prelude Codec Crypto BlockCommitment LeaderSelection LegacyBlock.

(** [str::trim] and [str::to_lowercase], which follow the Unicode tables. *)
Class Unicode : Type := {
  str_trim : bytes -> bytes;
  str_to_lowercase : bytes -> bytes
}.

Definition starts_0x (s : bytes) : bool := (take 2 s ==? str "0x") || (take 2 s ==? str "0X").

Class UnicodeLaws (U : Unicode) : Prop := {
  trim_trim : forall s, str_trim (str_trim s) = str_trim s;
  lower_lower : forall s, str_to_lowercase (str_to_lowercase s) = str_to_lowercase s;
  (** lower-casing neither adds nor removes white space at the ends *)
  trim_lower : forall s, str_trim s = s -> str_trim (str_to_lowercase s) = str_to_lowercase s;
  trim_lower_tail : forall s, str_trim s = s -> starts_0x s = true ->
    str_trim (str "0x" ++ str_to_lowercase (drop 2 s)) = str "0x" ++ str_to_lowercase (drop 2 s);
  (** only digits and letters become [0x] *)
  lower_0x : forall s, starts_0x (str_to_lowercase s) = true -> starts_0x s = true
}.

(** ** Constants (src/src/app/mod.rs, src/src/models.rs) *)

Definition SLOT_MS : Z := 3000.
Definition SUB_EPOCH_SLOTS : Z := 1200.
Definition EPOCH_SUB_EPOCHS : Z := 24.
Definition GENESIS_EPOCH_SEED : bytes := replicate 32 x45.
Definition TOKEN_ETX_ID : Z := 0.
Definition TICKET_COST_QUARKS : Z := 10000000000000.
Definition INITIAL_VALIDATOR_VAULT_QUARKS : Z := 500000000000000.
Definition INFLATION_RATE_DENOMINATOR : Z := 1000000000.
Definition EPOCHS_PER_YEAR : Z := 365.
Definition SLOTS_PER_YEAR : Z := 365 * 24 * 60 * 60 / (SLOT_MS / 1000).
Definition REWARD_UNLOCK_DELAY_EPOCHS : Z := 4.
Definition PBM_VALID_AFTER_SLOTS : Z := 20.
Definition PBM_PENDING_PER_ACCOUNT_LIMIT : nat := 3.

(** ** Data *)

Inductive ValidatorState : Type := Active | PausedLowVault | PunishedCooldown | Inactive | Jailed.

#[export] Instance ValidatorState_eq_dec : EqDecision ValidatorState.
Proof. solve_decision. Defined.

Inductive NodeStage : Type := ModeNormal | ModePbm.
Inductive ExecStatus : Type := Idle | Executing | Posted | Missed.

Record NodeValidator : Type := mk_validator {
  v_id : bytes;
  v_owner_account : option bytes;
  v_validator_pubkey : option bytes;
  v_reward_address : option bytes;
  v_state : ValidatorState;
  v_vault_quarks : Z;
  v_locked_reward_quarks : Z;
  v_miss_counter : Z;
  v_double_sign_offenses : Z;
  v_blocks_this_sub_epoch : Z;
  v_cooldown_until_epoch : option Z
}.

Record Account : Type := mk_account {
  a_id : bytes;
  a_private_key_hex : bytes;
  a_public_key_hex : bytes;
  a_address : bytes;
  a_nonce : Z;
  a_balances : gmap Z Z
}.

Record RawTxRecord : Type := mk_raw_tx {
  r_hash : bytes;
  r_raw : bytes;
  r_from : bytes;
  r_to : option bytes;
  r_nonce : Z;
  r_gas : Z;
  r_input : bytes;
  r_value : Z;
  r_fee_quarks : Z;
  r_chain_id : Z;
  r_tx_type : bytes;
  r_v : bytes;
  r_r : bytes;
  r_s : bytes;
  r_block_number : option Z;
  r_block_hash : option bytes;
  r_tx_index : option Z;
  r_success : option bool
}.

(** The counters of supply changes. *)
Record Economy : Type := mk_economy {
  e_burn_this_sub_epoch : Z;
  e_fees_burned_total : Z;
  e_ticket_burned_total : Z;
  e_base_issuance_total : Z;
  e_burn_offset_total : Z;
  e_sub_epoch_issued : Z;
  e_sub_epoch_burned : Z;
  e_epoch_issued : Z;
  e_epoch_burned : Z
}.

Record Liveness : Type := mk_liveness {
  l_epoch : Z;
  l_counted_slots : gset Z;
  l_total_slots : Z;
  l_validator_slots : Z;
  l_epoch_validator_blocks : Z;
  l_epoch_total_slots : Z
}.

(** The stored chain and what is derived from it. *)
Record Chain : Type := mk_chain {
  c_blocks : gmap Z Block;
  c_block_hash_to_number : gmap bytes Z;
  c_raw_txs : gmap bytes RawTxRecord;
  c_history : list Block;
  c_blocks_this_sub_epoch : list (option bytes);
  c_liveness : Liveness
}.

(** Diagnostics; the node only displays them. *)
Inductive event : Type :=
| RemoteRejected (slot : Z)
| ParentUnavailable (slot : Z)
| SlotRejected (slot : Z) (error : string)
| SlotDiscarded (slot : Z) (error : string)
| PbmDeactivated
| SubEpochTransition (index : Z)
| EpochTransition (index : Z)
| SlotCorrected (slot : Z) (kind : BlockKind)
| BlockRejected (hash : bytes)
| Note (text : string).

(** What the ledger operations read and write. *)
Record Ledger : Type := mk_ledger {
  validators : list NodeValidator;
  tickets : list ModelTicket;
  accounts : gmap bytes Account;
  economy : Economy;
  reward_unlocks : gmap Z (list (bytes * Z));
  retire_finalize : gmap Z (list Z)
}.

(** Pending transactions. *)
Record Pools : Type := mk_pools {
  mempool : list Tx;
  pbm_pool : list Tx;
  nonce_tracker : gmap bytes Z
}.

(** The active slot. *)
Record Turn : Type := mk_turn {
  slot_started : Z;
  mode : NodeStage;
  current_leader : bytes;
  current_ticket_id : Z;
  exec_status : ExecStatus;
  current_result : option Block
}.

(** Epochs and the parameters that change with them. *)
Record Calendar : Type := mk_calendar {
  epoch_index : Z;
  sub_epoch_index : Z;
  epoch_seed : bytes;
  annual_inflation_ppb : Z;
  base_reward_per_block_quarks : Z;
  burn_offset_k_permille : Z
}.

(** The state; the remaining fields of the struct serve display and peers. *)
Record ProtocolState : Type := mk_state {
  st_slot : Z;
  ledger : Ledger;
  pools : Pools;
  chain : Chain;
  turn : Turn;
  calendar : Calendar;
  local_validator_id : option bytes;
  remote_slot_results : gmap Z Block;
  events : list event
}.

(** ** Field updates *)

Definition set_validators (x : list NodeValidator) (l : Ledger) : Ledger :=
  mk_ledger x (tickets l) (accounts l) (economy l) (reward_unlocks l) (retire_finalize l).
Definition set_tickets (x : list ModelTicket) (l : Ledger) : Ledger :=
  mk_ledger (validators l) x (accounts l) (economy l) (reward_unlocks l) (retire_finalize l).
Definition set_accounts (x : gmap bytes Account) (l : Ledger) : Ledger :=
  mk_ledger (validators l) (tickets l) x (economy l) (reward_unlocks l) (retire_finalize l).
Definition set_economy (x : Economy) (l : Ledger) : Ledger :=
  mk_ledger (validators l) (tickets l) (accounts l) x (reward_unlocks l) (retire_finalize l).
Definition set_reward_unlocks (x : gmap Z (list (bytes * Z))) (l : Ledger) : Ledger :=
  mk_ledger (validators l) (tickets l) (accounts l) (economy l) x (retire_finalize l).
Definition set_retire_finalize (x : gmap Z (list Z)) (l : Ledger) : Ledger :=
  mk_ledger (validators l) (tickets l) (accounts l) (economy l) (reward_unlocks l) x.

Definition set_mempool (x : list Tx) (p : Pools) : Pools :=
  mk_pools x (pbm_pool p) (nonce_tracker p).
Definition set_pbm_pool (x : list Tx) (p : Pools) : Pools :=
  mk_pools (mempool p) x (nonce_tracker p).
Definition set_nonce_tracker (x : gmap bytes Z) (p : Pools) : Pools :=
  mk_pools (mempool p) (pbm_pool p) x.

Definition set_slot_started (x : Z) (t : Turn) : Turn :=
  mk_turn x (mode t) (current_leader t) (current_ticket_id t) (exec_status t) (current_result t).
Definition set_mode (x : NodeStage) (t : Turn) : Turn :=
  mk_turn (slot_started t) x (current_leader t) (current_ticket_id t) (exec_status t) (current_result t).
Definition set_current_leader (x : bytes) (t : Turn) : Turn :=
  mk_turn (slot_started t) (mode t) x (current_ticket_id t) (exec_status t) (current_result t).
Definition set_current_ticket_id (x : Z) (t : Turn) : Turn :=
  mk_turn (slot_started t) (mode t) (current_leader t) x (exec_status t) (current_result t).
Definition set_exec_status (x : ExecStatus) (t : Turn) : Turn :=
  mk_turn (slot_started t) (mode t) (current_leader t) (current_ticket_id t) x (current_result t).
Definition set_current_result (x : option Block) (t : Turn) : Turn :=
  mk_turn (slot_started t) (mode t) (current_leader t) (current_ticket_id t) (exec_status t) x.

Definition set_epoch_index (x : Z) (c : Calendar) : Calendar :=
  mk_calendar x (sub_epoch_index c) (epoch_seed c) (annual_inflation_ppb c) (base_reward_per_block_quarks c)
    (burn_offset_k_permille c).
Definition set_sub_epoch_index (x : Z) (c : Calendar) : Calendar :=
  mk_calendar (epoch_index c) x (epoch_seed c) (annual_inflation_ppb c) (base_reward_per_block_quarks c)
    (burn_offset_k_permille c).
Definition set_epoch_seed (x : bytes) (c : Calendar) : Calendar :=
  mk_calendar (epoch_index c) (sub_epoch_index c) x (annual_inflation_ppb c) (base_reward_per_block_quarks c)
    (burn_offset_k_permille c).
Definition set_annual_inflation_ppb (x : Z) (c : Calendar) : Calendar :=
  mk_calendar (epoch_index c) (sub_epoch_index c) (epoch_seed c) x (base_reward_per_block_quarks c)
    (burn_offset_k_permille c).
Definition set_base_reward_per_block_quarks (x : Z) (c : Calendar) : Calendar :=
  mk_calendar (epoch_index c) (sub_epoch_index c) (epoch_seed c) (annual_inflation_ppb c) x
    (burn_offset_k_permille c).
Definition set_burn_offset_k_permille (x : Z) (c : Calendar) : Calendar :=
  mk_calendar (epoch_index c) (sub_epoch_index c) (epoch_seed c) (annual_inflation_ppb c)
    (base_reward_per_block_quarks c) x.

Definition set_st_slot (x : Z) (s : ProtocolState) : ProtocolState :=
  mk_state x (ledger s) (pools s) (chain s) (turn s) (calendar s) (local_validator_id s) (remote_slot_results
    s) (events s).
Definition set_ledger (x : Ledger) (s : ProtocolState) : ProtocolState :=
  mk_state (st_slot s) x (pools s) (chain s) (turn s) (calendar s) (local_validator_id s) (remote_slot_results
    s) (events s).
Definition set_pools (x : Pools) (s : ProtocolState) : ProtocolState :=
  mk_state (st_slot s) (ledger s) x (chain s) (turn s) (calendar s) (local_validator_id s)
    (remote_slot_results s) (events s).
Definition set_chain (x : Chain) (s : ProtocolState) : ProtocolState :=
  mk_state (st_slot s) (ledger s) (pools s) x (turn s) (calendar s) (local_validator_id s)
    (remote_slot_results s) (events s).
Definition set_turn (x : Turn) (s : ProtocolState) : ProtocolState :=
  mk_state (st_slot s) (ledger s) (pools s) (chain s) x (calendar s) (local_validator_id s)
    (remote_slot_results s) (events s).
Definition set_calendar (x : Calendar) (s : ProtocolState) : ProtocolState :=
  mk_state (st_slot s) (ledger s) (pools s) (chain s) (turn s) x (local_validator_id s) (remote_slot_results
    s) (events s).
Definition set_remote_slot_results (x : gmap Z Block) (s : ProtocolState) : ProtocolState :=
  mk_state (st_slot s) (ledger s) (pools s) (chain s) (turn s) (calendar s) (local_validator_id s) x (events s).
Definition set_events (x : list event) (s : ProtocolState) : ProtocolState :=
  mk_state (st_slot s) (ledger s) (pools s) (chain s) (turn s) (calendar s) (local_validator_id s)
    (remote_slot_results s) x.

Definition set_v_state (x : ValidatorState) (v : NodeValidator) : NodeValidator :=
  mk_validator (v_id v) (v_owner_account v) (v_validator_pubkey v) (v_reward_address v) x (v_vault_quarks v)
    (v_locked_reward_quarks v) (v_miss_counter v) (v_double_sign_offenses v) (v_blocks_this_sub_epoch v)
    (v_cooldown_until_epoch v).
Definition set_v_vault_quarks (x : Z) (v : NodeValidator) : NodeValidator :=
  mk_validator (v_id v) (v_owner_account v) (v_validator_pubkey v) (v_reward_address v) (v_state v) x
    (v_locked_reward_quarks v) (v_miss_counter v) (v_double_sign_offenses v) (v_blocks_this_sub_epoch v)
    (v_cooldown_until_epoch v).
Definition set_v_locked_reward_quarks (x : Z) (v : NodeValidator) : NodeValidator :=
  mk_validator (v_id v) (v_owner_account v) (v_validator_pubkey v) (v_reward_address v) (v_state v)
    (v_vault_quarks v) x (v_miss_counter v) (v_double_sign_offenses v) (v_blocks_this_sub_epoch v)
    (v_cooldown_until_epoch v).
Definition set_v_miss_counter (x : Z) (v : NodeValidator) : NodeValidator :=
  mk_validator (v_id v) (v_owner_account v) (v_validator_pubkey v) (v_reward_address v) (v_state v)
    (v_vault_quarks v) (v_locked_reward_quarks v) x (v_double_sign_offenses v) (v_blocks_this_sub_epoch v)
    (v_cooldown_until_epoch v).
Definition set_v_blocks_this_sub_epoch (x : Z) (v : NodeValidator) : NodeValidator :=
  mk_validator (v_id v) (v_owner_account v) (v_validator_pubkey v) (v_reward_address v) (v_state v)
    (v_vault_quarks v) (v_locked_reward_quarks v) (v_miss_counter v) (v_double_sign_offenses v) x
    (v_cooldown_until_epoch v).
Definition set_v_cooldown_until_epoch (x : option Z) (v : NodeValidator) : NodeValidator :=
  mk_validator (v_id v) (v_owner_account v) (v_validator_pubkey v) (v_reward_address v) (v_state v)
    (v_vault_quarks v) (v_locked_reward_quarks v) (v_miss_counter v) (v_double_sign_offenses v)
    (v_blocks_this_sub_epoch v) x.

(** ** Ledger operations *)

Definition saturating_mul (w a b : Z) : Z := Z.min (w - 1) (a * b).

(** [iter().find(|v| v.id == id)], [iter_mut().find(..)] followed by an update,
    and [iter().any(..)]. *)
Definition validator_by_id (id : bytes) (l : Ledger) : option NodeValidator :=
  List.find (fun v => v_id v ==? id) (validators l).
Fixpoint update_validator (id : bytes) (f : NodeValidator -> NodeValidator) (vs : list NodeValidator) :
    list NodeValidator :=
  match vs with
  | [] => []
  | v :: rest => if v_id v ==? id then f v :: rest else v :: update_validator id f rest
  end.
Definition on_validator (id : bytes) (f : NodeValidator -> NodeValidator) (l : Ledger) : Ledger :=
  set_validators (update_validator id f (validators l)) l.
Definition has_validator (id : bytes) (l : Ledger) : bool :=
  existsb (fun v => v_id v ==? id) (validators l).

Definition validator_active (id : bytes) (l : Ledger) : bool :=
  existsb (fun v => (v_id v ==? id) && (v_state v ==? Active)) (validators l).

Definition leader_tickets (l : Ledger) : list ModelTicket :=
  List.filter (fun t => negb (mt_dead t) && negb (mt_muted t) && validator_active (mt_owner t) l) (tickets l).

Definition total_eligible_tickets (l : Ledger) : nat := length (leader_tickets l).

(** The fold over [accounts.values()]: its order does not matter. *)
Definition total_supply_quarks (l : Ledger) : Z :=
  let account_supply := map_fold (fun _ a acc =>
    match a_balances a !! TOKEN_ETX_ID with Some b => saturating_add U128 acc b | None => acc end) 0%Z (accounts l) in
  let vault_supply := fold_left (fun acc v => saturating_add U128 acc (v_vault_quarks v)) (validators l) 0%Z in
  saturating_add U128 account_supply vault_supply.

Definition validator_ticket_count (id : bytes) (l : Ledger) : nat :=
  length (List.filter (fun t => (mt_owner t ==? id) && negb (mt_dead t)) (tickets l)).

Definition validator_vault_minimum_quarks (id : bytes) (l : Ledger) : Z :=
  let ticket_count := validator_ticket_count id l in
  if (ticket_count =? 0)%nat then 0%Z else
  saturating_add U128 (saturating_mul U128 TICKET_COST_QUARKS 5)
    (saturating_mul U128 (TICKET_COST_QUARKS / 2) (Z.of_nat ticket_count)).

Definition validator_locked_reward_quarks (id : bytes) (l : Ledger) : Z :=
  match validator_by_id id l with Some v => v_locked_reward_quarks v | None => 0%Z end.

Definition validator_withdrawable_vault_quarks (id : bytes) (l : Ledger) : Z :=
  match validator_by_id id l with
  | None => 0%Z
  | Some v => saturating_sub (saturating_sub (v_vault_quarks v) (v_locked_reward_quarks v))
                (validator_vault_minimum_quarks id l)
  end.

Definition lock_validator_reward (epoch : Z) (id : bytes) (amount : Z) (l : Ledger) : Ledger :=
  if (amount =? 0)%Z then l else
  match validator_by_id id l with
  | None => l
  | Some _ =>
      let l := on_validator id (fun v =>
        set_v_locked_reward_quarks (saturating_add U128 (v_locked_reward_quarks v) amount)
          (set_v_vault_quarks (saturating_add U128 (v_vault_quarks v) amount) v)) l in
      let unlock_epoch := saturating_add U64 epoch REWARD_UNLOCK_DELAY_EPOCHS in
      set_reward_unlocks
        (<[unlock_epoch := default [] (reward_unlocks l !! unlock_epoch) ++ [(id, amount)]]> (reward_unlocks l)) l
  end.

Definition unlock_rewards_for_epoch (epoch : Z) (l : Ledger) : Ledger :=
  match reward_unlocks l !! epoch with
  | None => l
  | Some rewards =>
      fold_left (fun l '(id, amount) => on_validator id (fun v =>
        set_v_locked_reward_quarks (saturating_sub (v_locked_reward_quarks v) amount) v) l) rewards
        (set_reward_unlocks (delete epoch (reward_unlocks l)) l)
  end.

(** [recompute_base_reward_per_block] *)
Definition base_reward_of (l : Ledger) (annual_inflation_ppb : Z) : Z :=
  (saturating_mul U128 (total_supply_quarks l) annual_inflation_ppb
     / INFLATION_RATE_DENOMINATOR / SLOTS_PER_YEAR)%Z.

Definition set_a_balances (b : gmap Z Z) (a : Account) : Account :=
  mk_account (a_id a) (a_private_key_hex a) (a_public_key_hex a) (a_address a) (a_nonce a) b.

Section Accounts.
  Context `{UN : Unicode}.

(** src/src/app/utils.rs *)
Definition normalize_address (input : bytes) : bytes :=
  let s := str_trim input in
  if starts_0x s then str "0x" ++ str_to_lowercase (drop 2 s) else str_to_lowercase s.

Definition ensure_account_exists (id : bytes) (l : Ledger) : Ledger :=
  let key := normalize_address id in
  match accounts l !! key with
  | Some _ => l
  | None => set_accounts (<[key := mk_account key [] [] key 0 ∅]> (accounts l)) l
  end.

(** The [+=] panics on overflow. *)
Definition credit_balance (id : bytes) (token amount : Z) (l : Ledger) : option Ledger :=
  let k := normalize_address id in
  let l := ensure_account_exists k l in
  match accounts l !! k with
  | None => Some l
  | Some a =>
      b ← checked_add U128 (default 0%Z (a_balances a !! token)) amount;
      Some (set_accounts (<[k := set_a_balances (<[token := b]> (a_balances a)) a]> (accounts l)) l)
  end.

(** A missing balance is created as zero, also when the debit is refused. *)
Definition debit_balance (id : bytes) (token amount : Z) (l : Ledger) : Ledger * bool :=
  let k := normalize_address id in
  let l := ensure_account_exists k l in
  match accounts l !! k with
  | None => (l, false)
  | Some a =>
      let bal := default 0%Z (a_balances a !! token) in
      let store b := set_accounts (<[k := set_a_balances (<[token := b]> (a_balances a)) a]> (accounts l)) l in
      if (bal <? amount)%Z then (store bal, false) else (store (bal - amount)%Z, true)
  end.

(** [can_pay_fee] and [can_pay_value] have the same body. *)
Definition can_pay_fee (id : bytes) (token amount : Z) (l : Ledger) : bool :=
  match accounts l !! normalize_address id with
  | None => false
  | Some a => match a_balances a !! token with Some b => (amount <=? b)%Z | None => false end
  end.

Definition validator_owner_account (id : bytes) (l : Ledger) : option bytes :=
  v ← validator_by_id id l; v_owner_account v.

Definition validator_pubkey_registered (pubkey : bytes) (l : Ledger) : bool :=
  existsb (fun v => v_validator_pubkey v ==? Some pubkey) (validators l).

Definition normalize_validator_pubkey `{HX : Hex} `{HE : HexEncode} `{KC : K256} (pubkey : bytes) : option bytes :=
  let trimmed := str_trim pubkey in
  let raw := if take 2 trimmed ==? str "0x" then drop 2 trimmed else trimmed in
  bs ← hex_decode raw;
  match from_sec1_bytes bs with
  | None => None
  | Some _ => Some (str "0x" ++ hex_encode bs)
  end.

Definition register_validator_record (id owner pubkey reward : bytes) (l : Ledger) : Ledger :=
  set_validators (validators l ++
    [mk_validator id (Some (normalize_address owner)) (Some pubkey) (Some (normalize_address reward))
       Inactive 0 0 0 0 0 None]) l.
End Accounts.

(** The new state of a validator. *)
Definition activation (vault_minimum : Z) (active_tickets : bool) (v : NodeValidator) : NodeValidator :=
  match v_state v with
  | Jailed | PunishedCooldown => v
  | state =>
      if (v_vault_quarks v <? vault_minimum)%Z then
        if state ==? Active then set_v_state PausedLowVault v else v
      else if active_tickets then
        if (state ==? Inactive) || (state ==? PausedLowVault) then set_v_state Active v else v
      else if state ==? Active then set_v_state Inactive v else v
  end.

Definition refresh_validator_activation (id : bytes) (l : Ledger) : Ledger :=
  let vault_minimum := validator_vault_minimum_quarks id l in
  let active_tickets := existsb (fun t => (mt_owner t ==? id) && negb (mt_dead t) && negb (mt_muted t) &&
    negb (mt_retiring t)) (tickets l) in
  on_validator id (activation vault_minimum active_tickets) l.

Definition pbm_allowed_kind (kind : TxKind) : bool :=
  match kind with RegisterValidator | WalletToVault | BuyTicket => true | _ => false end.

(** [iter().map(|t| t.id).max().unwrap_or(0).saturating_add(1)] *)
Definition next_ticket_id (ts : list ModelTicket) : Z :=
  saturating_add U64 (fold_left (fun m t => Z.max m (mt_id t)) ts 0%Z) 1.

Definition new_ticket (id : Z) (owner : bytes) : ModelTicket :=
  mk_model_ticket id owner (id mod 254 + 2) false false false None None.

Fixpoint mint_tickets (count : nat) (owner : bytes) (ts : list ModelTicket) : list ModelTicket :=
  match count with
  | O => ts
  | S c => mint_tickets c owner (ts ++ [new_ticket (next_ticket_id ts) owner])
  end.

Definition ticket_burn (burned : Z) (e : Economy) : Economy :=
  mk_economy (e_burn_this_sub_epoch e) (e_fees_burned_total e)
    (saturating_add U128 (e_ticket_burned_total e) burned) (e_base_issuance_total e) (e_burn_offset_total e)
    (e_sub_epoch_issued e) (saturating_add U128 (e_sub_epoch_burned e) burned) (e_epoch_issued e)
    (saturating_add U128 (e_epoch_burned e) burned).

Definition burn_and_mint_tickets (id : bytes) (count : Z) (l : Ledger) : Ledger :=
  let burned := saturating_mul U128 TICKET_COST_QUARKS count in
  let l := set_economy (ticket_burn burned (economy l)) l in
  let l := set_tickets (mint_tickets (Z.to_nat count) id (tickets l)) l in
  if has_validator id l then l else
  set_validators (validators l ++ [mk_validator id None None None Active 0 0 0 0 0 None]) l.

(** ** Addresses *)

Section Addresses.
  Context {UN : Unicode} {UL : UnicodeLaws UN}.

Lemma normalize_idem id : normalize_address (normalize_address id) = normalize_address id.
Proof.
  unfold normalize_address. set (s := str_trim id). assert (str_trim s = s) as Hs by apply trim_trim. cbv zeta.
  destruct (starts_0x s) eqn:E.
  - rewrite trim_lower_tail by done.
    assert (starts_0x (str "0x" ++ str_to_lowercase (drop 2 s)) = true) as -> by done.
    change (drop 2 (str "0x" ++ str_to_lowercase (drop 2 s))) with (str_to_lowercase (drop 2 s)).
    by rewrite lower_lower.
  - rewrite trim_lower by done. destruct (starts_0x (str_to_lowercase s)) eqn:E'; [|apply lower_lower].
    apply lower_0x in E'. congruence.
Qed.
End Addresses.

(** ** Balances *)

Definition balance (k : bytes) (token : Z) (m : gmap bytes Account) : Z :=
  default 0%Z (a ← m !! k; a_balances a !! token).

Definition account_of (k : bytes) (m : gmap bytes Account) : Account :=
  default (mk_account k [] [] k 0 ∅) (m !! k).

(** Store one balance, creating the account when it is missing. *)
Definition put (k : bytes) (token b : Z) (m : gmap bytes Account) : gmap bytes Account :=
  <[k := set_a_balances (<[token := b]> (a_balances (account_of k m))) (account_of k m)]> m.

Definition token_of (token : Z) (a : Account) : Z := default 0%Z (a_balances a !! token).

Definition account_sum (token : Z) (m : gmap bytes Account) : Z :=
  map_fold (fun _ a acc => (token_of token a + acc)%Z) 0%Z m.

Lemma balance_alt k token m : balance k token m = token_of token (account_of k m).
Proof. unfold balance, token_of, account_of. destruct (m !! k); simpl; [done|]. by rewrite lookup_empty. Qed.

Lemma balance_put k token b m k' token' :
  balance k' token' (put k token b m) = if bool_decide (k' = k /\ token' = token) then b else balance k' token' m.
Proof.
  unfold put. destruct (decide (k' = k)) as [->|Hk].
  - rewrite balance_alt. unfold account_of at 1. rewrite lookup_insert_eq. simpl. unfold token_of, set_a_balances. simpl.
    destruct (decide (token' = token)) as [->|Ht].
    + by rewrite lookup_insert_eq, bool_decide_eq_true_2.
    + rewrite lookup_insert_ne by done. rewrite bool_decide_eq_false_2 by naive_solver. by rewrite balance_alt.
  - unfold balance. rewrite lookup_insert_ne by done. by rewrite bool_decide_eq_false_2 by naive_solver.
Qed.

Lemma account_sum_insert token k a m :
  account_sum token (<[k := a]> m) = (account_sum token m - balance k token m + token_of token a)%Z.
Proof.
  assert (forall (m : gmap bytes Account) a, m !! k = None ->
    account_sum token (<[k := a]> m) = (token_of token a + account_sum token m)%Z) as Hnew.
  { intros m' a' Hn. unfold account_sum. rewrite map_fold_insert_L; [done| |done]. intros; lia. }
  unfold balance. destruct (m !! k) as [a0|] eqn:E; simpl.
  - rewrite <- (insert_delete_id m k a0 E) at 2. rewrite <- insert_delete_eq.
    rewrite !Hnew by apply lookup_delete_eq. unfold token_of. lia.
  - rewrite Hnew by done. lia.
Qed.

Lemma account_sum_put token k token' b m :
  account_sum token (put k token' b m) =
  (account_sum token m + (if bool_decide (token = token') then b - balance k token' m else 0))%Z.
Proof.
  unfold put. rewrite account_sum_insert. rewrite balance_alt. unfold token_of at 2, set_a_balances. simpl.
  case_bool_decide as E.
  - subst. rewrite lookup_insert_eq, balance_alt. simpl. lia.
  - rewrite lookup_insert_ne by done. unfold token_of. lia.
Qed.

(** Every stored balance is a natural number. *)
Definition balances_ok (m : gmap bytes Account) : Prop := forall k token, (0 <= balance k token m)%Z.

Lemma balances_ok_put k token b m : balances_ok m -> (0 <= b)%Z -> balances_ok (put k token b m).
Proof. intros H Hb k' token'. rewrite balance_put. case_bool_decide; [done|apply H]. Qed.

Lemma account_sum_bounds token k m :
  balances_ok m -> (0 <= balance k token m <= account_sum token m)%Z.
Proof.
  intros H. split; [apply H|].
  enough (forall m : gmap bytes Account, balances_ok m -> (0 <= account_sum token m)%Z) as Hnn.
  { pose proof (account_sum_put token k token 0 m) as E. rewrite bool_decide_eq_true_2 in E by done.
    specialize (Hnn _ (balances_ok_put k token 0 m H ltac:(lia))). lia. }
  clear k m H. intros m. unfold account_sum. revert m. apply (map_fold_weak_ind (fun r (m : gmap bytes Account) =>
    balances_ok m -> (0 <= r)%Z)); [done|]. intros k a m r Hn IH H.
  assert (0 <= token_of token a)%Z.
  { specialize (H k token). unfold balance in H. rewrite lookup_insert_eq in H. done. }
  assert (0 <= r)%Z; [|lia]. apply IH. intros k' token'. specialize (H k' token'). unfold balance in *.
  destruct (decide (k' = k)) as [->|]; [by rewrite Hn|]. by rewrite lookup_insert_ne in H by done.
Qed.

Section AccountSpecs.
  Context {UN : Unicode} {UL : UnicodeLaws UN}.

Lemma ensure_lookup k l :
  normalize_address k = k -> accounts (ensure_account_exists k l) !! k = Some (account_of k (accounts l)) /\
  ensure_account_exists k l = set_accounts (accounts (ensure_account_exists k l)) l /\
  (forall a, <[k := a]> (accounts (ensure_account_exists k l)) = <[k := a]> (accounts l)).
Proof.
  intros Hk. unfold ensure_account_exists, account_of. cbv zeta. rewrite Hk.
  destruct (accounts l !! k) as [a|] eqn:E.
  - split_and!; [by rewrite E|by destruct l|done].
  - cbn. split_and!; [by rewrite lookup_insert_eq|done|intros a; by rewrite insert_insert_eq].
Qed.

Lemma credit_balance_eq id token amount l :
  credit_balance id token amount l =
  b ← checked_add U128 (balance (normalize_address id) token (accounts l)) amount;
  Some (set_accounts (put (normalize_address id) token b (accounts l)) l).
Proof.
  unfold credit_balance. cbv zeta. set (k := normalize_address id).
  destruct (ensure_lookup k l (normalize_idem id)) as (E & El & Ei). rewrite E, balance_alt. unfold token_of.
  destruct (checked_add _ _ _) as [b|]; simpl; [|done]. f_equal. unfold put. rewrite Ei, El. done.
Qed.

Lemma debit_balance_eq id token amount l :
  let k := normalize_address id in let bal := balance k token (accounts l) in
  debit_balance id token amount l =
  if (bal <? amount)%Z then (set_accounts (put k token bal (accounts l)) l, false)
  else (set_accounts (put k token (bal - amount) (accounts l)) l, true).
Proof.
  unfold debit_balance. cbv zeta. set (k := normalize_address id).
  destruct (ensure_lookup k l (normalize_idem id)) as (E & El & Ei). rewrite E, balance_alt. unfold token_of, put.
  rewrite !Ei, El. done.
Qed.

Lemma can_pay_fee_balance id token amount l :
  (0 < amount)%Z -> can_pay_fee id token amount l = (amount <=? balance (normalize_address id) token (accounts l))%Z.
Proof.
  intros Ha. unfold can_pay_fee, balance. destruct (accounts l !! _) as [a|]; simpl; [destruct (a_balances a !! token); simpl; [done|]|];
    symmetry; apply Z.leb_gt; lia.
Qed.

Lemma can_pay_fee_le id token amount l :
  can_pay_fee id token amount l = true -> (amount <= balance (normalize_address id) token (accounts l))%Z.
Proof.
  unfold can_pay_fee, balance. destruct (accounts l !! _) as [a|]; simpl; [|done].
  destruct (a_balances a !! token); simpl; [|done]. by intros ?%Z.leb_le.
Qed.
End AccountSpecs.

(** ** Vaults and supply *)

Definition vault_sum (vs : list NodeValidator) : Z := foldr (fun v acc => (v_vault_quarks v + acc)%Z) 0%Z vs.

#[global] Arguments vault_sum : simpl never.

(** Exact supply of a token: accounts, and vaults for ETX. *)
Definition supply (token : Z) (l : Ledger) : Z :=
  (account_sum token (accounts l) + if (token =? TOKEN_ETX_ID)%Z then vault_sum (validators l) else 0)%Z.

Record solvent (l : Ledger) : Prop := {
  so_balances : balances_ok (accounts l);
  so_vaults : Forall (fun v => (0 <= v_vault_quarks v)%Z /\ (0 <= v_locked_reward_quarks v)%Z) (validators l);
  so_supply : forall token, (supply token l < U128)%Z
}.

Lemma vault_sum_nonneg vs :
  Forall (fun v => (0 <= v_vault_quarks v)%Z /\ (0 <= v_locked_reward_quarks v)%Z) vs -> (0 <= vault_sum vs)%Z.
Proof. unfold vault_sum. induction 1 as [|v vs [? _] _ IH]; simpl; lia. Qed.

Lemma vault_le v vs :
  Forall (fun v => (0 <= v_vault_quarks v)%Z /\ (0 <= v_locked_reward_quarks v)%Z) vs -> v ∈ vs ->
  (v_vault_quarks v <= vault_sum vs)%Z.
Proof.
  induction 1 as [|w vs [? ?] F IH]; [by intros ?%not_elem_of_nil|]. pose proof (vault_sum_nonneg vs F). unfold vault_sum in *. simpl.
  intros [->|Hv]%elem_of_cons; [lia|]. specialize (IH Hv). lia.
Qed.

Lemma vault_sum_app a b : vault_sum (a ++ b) = (vault_sum a + vault_sum b)%Z.
Proof. unfold vault_sum. induction a as [|v a IH]; simpl; lia. Qed.

(** Each part of the supply is bounded by it. *)
Lemma solvent_account l token : solvent l -> (0 <= account_sum token (accounts l) <= supply token l)%Z.
Proof.
  intros [H1 H2 _]. pose proof (vault_sum_nonneg _ H2). pose proof (account_sum_bounds token [] _ H1). unfold supply.
  destruct (_ =? _)%Z; lia.
Qed.

Lemma solvent_balance l k token : solvent l -> (0 <= balance k token (accounts l) <= supply token l)%Z.
Proof.
  intros H. pose proof (solvent_account l token H). pose proof (account_sum_bounds token k _ (so_balances _ H)). lia.
Qed.

Lemma solvent_vault l v : solvent l -> v ∈ validators l -> (0 <= v_vault_quarks v <= supply TOKEN_ETX_ID l)%Z.
Proof.
  intros H Hv. pose proof (vault_le _ _ (so_vaults _ H) Hv). pose proof (account_sum_bounds TOKEN_ETX_ID [] _ (so_balances _ H)).
  pose proof (so_vaults _ H) as F. rewrite Forall_forall in F. destruct (F v Hv). unfold supply. rewrite Z.eqb_refl. lia.
Qed.

(** Only the accounts differ. *)
Definition same_but_accounts (l l' : Ledger) : Prop := l' = set_accounts (accounts l') l.

Lemma set_accounts_supply token m l :
  supply token (set_accounts m l) = (supply token l + (account_sum token m - account_sum token (accounts l)))%Z.
Proof. unfold supply. cbn [accounts validators set_accounts]. destruct (_ =? _)%Z; lia. Qed.

Section LedgerSpecs.
  Context {UN : Unicode} {UL : UnicodeLaws UN}.

Lemma debit_spec id token amount l l' ok :
  solvent l -> (0 <= amount)%Z -> debit_balance id token amount l = (l', ok) ->
  ok = (amount <=? balance (normalize_address id) token (accounts l))%Z /\ same_but_accounts l l' /\ solvent l' /\
  (forall token', supply token' l' = supply token' l - if ok && (token' =? token)%Z then amount else 0)%Z /\
  (forall k token', balance k token' (accounts l') = balance k token' (accounts l) -
     if ok && bool_decide (k = normalize_address id /\ token' = token) then amount else 0)%Z.
Proof.
  intros H Ha. rewrite debit_balance_eq. cbv zeta. set (k := normalize_address id).
  pose proof (so_balances _ H) as Hb. pose proof (Hb k token). rewrite Z.leb_antisym.
  destruct (_ <? amount)%Z eqn:E; intros [= <- <-]; cbn -[supply balance put Z.sub].
  - assert (forall token', supply token' (set_accounts (put k token (balance k token (accounts l)) (accounts l)) l) =
      supply token' l) as Hs.
    { intros t. rewrite set_accounts_supply, account_sum_put. case_bool_decide; lia. }
    split_and!; [done|done|constructor; cbn|intros t; rewrite Hs; lia|].
    + by apply balances_ok_put.
    + apply H.
    + intros t. rewrite Hs. apply H.
    + intros k' t. rewrite balance_put. case_bool_decide as Hd; [destruct Hd as [-> ->]|]; lia.
  - apply Z.ltb_ge in E.
    assert (forall token', supply token' (set_accounts (put k token (balance k token (accounts l) - amount) (accounts l)) l) =
      (supply token' l - if (token' =? token)%Z then amount else 0)%Z) as Hs.
    { intros t. rewrite set_accounts_supply, account_sum_put. case_bool_decide as Ht.
      - subst. rewrite Z.eqb_refl. lia.
      - rewrite (proj2 (Z.eqb_neq _ _)) by done. lia. }
    split_and!; [done|done|constructor; cbn|done|].
    + apply balances_ok_put; [done|lia].
    + apply H.
    + intros t. rewrite Hs. pose proof (so_supply _ H t). destruct (_ =? _)%Z; lia.
    + intros k' t. rewrite balance_put. case_bool_decide as Hd; [destruct Hd as [-> ->]|]; lia.
Qed.

Lemma credit_spec id token amount l :
  solvent l -> (0 <= amount)%Z -> (supply token l + amount < U128)%Z -> exists l',
  credit_balance id token amount l = Some l' /\ same_but_accounts l l' /\ solvent l' /\
  (forall token', supply token' l' = supply token' l + if (token' =? token)%Z then amount else 0)%Z /\
  (forall k token', balance k token' (accounts l') = balance k token' (accounts l) +
     if bool_decide (k = normalize_address id /\ token' = token) then amount else 0)%Z.
Proof.
  intros H Ha Hmax. rewrite credit_balance_eq. set (k := normalize_address id).
  pose proof (solvent_balance l k token H) as Hb. unfold checked_add. rewrite (proj2 (Z.ltb_lt _ _)) by lia. simpl.
  eexists. split; [done|]. split; [done|].
  assert (forall token', supply token' (set_accounts (put k token (balance k token (accounts l) + amount) (accounts l)) l) =
    (supply token' l + if (token' =? token)%Z then amount else 0)%Z) as Hs.
  { intros t. rewrite set_accounts_supply, account_sum_put. case_bool_decide as Ht.
    - subst. rewrite Z.eqb_refl. lia.
    - rewrite (proj2 (Z.eqb_neq _ _)) by done. lia. }
  split; [|split; [done|]]; [constructor; cbn|].
  - apply balances_ok_put; [apply H|lia].
  - apply H.
  - intros t. rewrite Hs. destruct (Z.eqb_spec t token) as [->|]; [done|]. pose proof (so_supply _ H t). lia.
  - intros k' t. cbn. rewrite balance_put. case_bool_decide as Hd; [destruct Hd as [-> ->]|]; lia.
Qed.
End LedgerSpecs.

Lemma validator_by_id_elem id l v : validator_by_id id l = Some v -> v ∈ validators l /\ v_id v = id.
Proof.
  intros H. apply find_some in H as [Hin E]. apply bool_decide_eq_true in E. split; [by apply list_elem_of_In|done].
Qed.

Lemma has_validator_find id l : has_validator id l = true <-> is_Some (validator_by_id id l).
Proof.
  unfold has_validator, validator_by_id. rewrite existsb_exists. split.
  - intros (v & Hin & E). destruct (List.find _ (validators l)) eqn:F; [eauto|].
    apply (find_none _ _ F) in Hin. congruence.
  - intros [v Hv]. apply find_some in Hv. eauto.
Qed.

Lemma update_validator_sum id f vs :
  vault_sum (update_validator id f vs) = (vault_sum vs +
    match List.find (fun v => v_id v ==? id) vs with Some v => v_vault_quarks (f v) - v_vault_quarks v | None => 0 end)%Z.
Proof. unfold vault_sum. induction vs as [|v vs IH]; simpl; [done|]. destruct (v_id v ==? id); simpl; lia. Qed.

Lemma update_validator_Forall (P : NodeValidator -> Prop) id f vs :
  Forall P vs -> (forall v, List.find (fun v => v_id v ==? id) vs = Some v -> P (f v)) ->
  Forall P (update_validator id f vs).
Proof.
  induction 1 as [|v vs Hv F IH]; simpl; intros Hf; [constructor|].
  destruct (v_id v ==? id); constructor; auto.
Qed.

(** Updating one validator's vault. *)
Lemma on_validator_spec id f l v d :
  solvent l -> validator_by_id id l = Some v -> v_vault_quarks (f v) = (v_vault_quarks v + d)%Z ->
  (0 <= v_vault_quarks v + d)%Z -> (0 <= v_locked_reward_quarks (f v))%Z -> (supply TOKEN_ETX_ID l + d < U128)%Z ->
  solvent (on_validator id f l) /\
  forall token, supply token (on_validator id f l) = (supply token l + if (token =? TOKEN_ETX_ID)%Z then d else 0)%Z.
Proof.
  intros H Hf Hv H0 Hl Hmax.
  assert (forall token, supply token (on_validator id f l) = (supply token l + if (token =? TOKEN_ETX_ID)%Z then d else 0)%Z) as Hs.
  { intros t. unfold supply, on_validator. cbn. rewrite update_validator_sum. unfold validator_by_id in Hf. rewrite Hf.
    destruct (_ =? _)%Z; lia. }
  split; [|done]. constructor; [apply H| |].
  - cbn. apply update_validator_Forall; [apply H|]. intros w Hw. unfold validator_by_id in Hf. rewrite Hf in Hw.
    injection Hw as <-. lia.
  - intros t. rewrite Hs. destruct (Z.eqb_spec t TOKEN_ETX_ID) as [->|]; [done|]. pose proof (so_supply _ H t). lia.
Qed.

(** Updates that leave the vaults alone. *)
Lemma on_validator_keeps id f l :
  solvent l -> (forall v, v_vault_quarks (f v) = v_vault_quarks v) ->
  (forall v, (0 <= v_locked_reward_quarks v)%Z -> (0 <= v_locked_reward_quarks (f v))%Z) ->
  solvent (on_validator id f l) /\ forall token, supply token (on_validator id f l) = supply token l.
Proof.
  intros H Hv Hl.
  assert (forall token, supply token (on_validator id f l) = supply token l) as Hs.
  { intros t. unfold supply, on_validator. cbn. rewrite update_validator_sum.
    destruct (List.find _ _) as [v|]; rewrite ?Hv; destruct (_ =? _)%Z; lia. }
  split; [|done]. constructor; [apply H| |intros t; rewrite Hs; apply H].
  cbn. apply update_validator_Forall; [apply H|]. intros v E. apply find_some in E as [Hin _].
  pose proof (so_vaults _ H) as F. rewrite Forall_forall in F. apply list_elem_of_In in Hin. destruct (F v Hin).
  rewrite Hv. auto.
Qed.

Lemma activation_keeps m a v :
  v_vault_quarks (activation m a v) = v_vault_quarks v /\
  v_locked_reward_quarks (activation m a v) = v_locked_reward_quarks v.
Proof. unfold activation. by repeat case_match. Qed.

Lemma refresh_keeps id l :
  solvent l -> solvent (refresh_validator_activation id l) /\
  forall token, supply token (refresh_validator_activation id l) = supply token l.
Proof.
  intros H. apply on_validator_keeps; [done|..]; intros v.
  - apply activation_keeps.
  - intros ?. by rewrite (proj2 (activation_keeps _ _ v)).
Qed.

Lemma refresh_all_keeps ids l :
  solvent l -> solvent (fold_left (fun l id => refresh_validator_activation id l) ids l) /\
  forall token, supply token (fold_left (fun l id => refresh_validator_activation id l) ids l) = supply token l.
Proof.
  revert l. induction ids as [|id ids IH]; intros l H; [done|]. cbn [fold_left].
  destruct (refresh_keeps id l H) as [H' Hs]. destruct (IH _ H') as [? Hs']. split; [done|]. intros t. by rewrite Hs', Hs.
Qed.

(** The ledger parts outside accounts and vaults. *)
Lemma solvent_ext l l' :
  accounts l' = accounts l -> validators l' = validators l -> solvent l ->
  solvent l' /\ forall token, supply token l' = supply token l.
Proof.
  intros Ea Ev [H1 H2 H3]. assert (forall token, supply token l' = supply token l) as Hs
    by (intros t; unfold supply; by rewrite Ea, Ev).
  split; [|done]. constructor; rewrite ?Ea, ?Ev; try done. intros t. rewrite Hs. apply H3.
Qed.

(** A new validator with an empty vault. *)
Lemma new_validator_keeps v l :
  v_vault_quarks v = 0%Z -> v_locked_reward_quarks v = 0%Z -> solvent l ->
  solvent (set_validators (validators l ++ [v]) l) /\
  forall token, supply token (set_validators (validators l ++ [v]) l) = supply token l.
Proof.
  intros Hv Hl H. assert (forall token, supply token (set_validators (validators l ++ [v]) l) = supply token l) as Hs.
  { intros t. unfold supply. cbn. rewrite vault_sum_app. unfold vault_sum at 2. simpl. rewrite Hv. destruct (_ =? _)%Z; lia. }
  split; [|done]. constructor; [apply H| |intros t; rewrite Hs; apply H].
  cbn. apply Forall_app. split; [apply H|]. constructor; [lia|constructor].
Qed.
