(* ===== verification/LegacySlot.v ===== *)
(** * The slots of the V1 node (src/src/app/consensus.rs)

    The node executes one slot after the other: [start_next_slot] selects the
    leader, [finish_slot] builds the slot's block on a copy of the state,
    checks it as the wire decoder would, records it as the next tip, runs the
    epoch boundaries and only then installs the copy.  The three block
    builders execute transactions of the pools; [fill_block] is their loop.

    [None] is a panic (see [LegacyState]); the generator behind [gen_bool] is
    the class [Rng], the clock and the storage boundary are arguments. *)

From S2P Require Import Prelude Codec Crypto BlockCommitment LeaderSelection LegacyBlock LegacyState.

(** [StdRng]: one draw of [gen_bool(0.07)]. *)
Class Rng : Type := {
  rng : Type;
  gen_bool : rng -> rng * bool
}.

Definition set_e_fees (fees : Z) (e : Economy) : Economy :=
  mk_economy (saturating_add U128 (e_burn_this_sub_epoch e) fees) (saturating_add U128 (e_fees_burned_total e) fees)
    (e_ticket_burned_total e) (e_base_issuance_total e) (e_burn_offset_total e) (e_sub_epoch_issued e)
    (saturating_add U128 (e_sub_epoch_burned e) fees) (e_epoch_issued e)
    (saturating_add U128 (e_epoch_burned e) fees).

Definition set_e_issued (reward : Z) (e : Economy) : Economy :=
  mk_economy (e_burn_this_sub_epoch e) (e_fees_burned_total e) (e_ticket_burned_total e)
    (saturating_add U128 (e_base_issuance_total e) reward) (e_burn_offset_total e)
    (saturating_add U128 (e_sub_epoch_issued e) reward) (e_sub_epoch_burned e)
    (saturating_add U128 (e_epoch_issued e) reward) (e_epoch_burned e).

Definition push_event (e : event) (s : ProtocolState) : ProtocolState := set_events (e :: events s) s.

Definition on_ledger (f : Ledger -> Ledger) (s : ProtocolState) : ProtocolState := set_ledger (f (ledger s)) s.

(** ** Executing one transaction *)

Section Execute.
  Context `{HX : Hex} `{HE : HexEncode} `{VJ : V1Json} `{UN : Unicode} `{KC : K256}.

(** src/src/app/utils.rs has the same reader as [registration_fields]. *)
Definition decode_register_validator_data (data : bytes) : option (bytes * bytes) := registration_fields data.

(** The result says whether the transaction goes into the block. *)
Definition execute_register (t : Tx) (l : Ledger) : option (Ledger * bool) :=
  match decode_register_validator_data (t_data t) with
  | None => Some (l, false)
  | Some (pubkey, reward) =>
      match normalize_validator_pubkey pubkey with
      | None => Some (l, false)
      | Some pubkey =>
          if has_validator (t_to t) l || validator_pubkey_registered pubkey l ||
             negb (can_pay_fee (t_from t) TOKEN_ETX_ID (t_fee_quarks t) l)
          then Some (l, false) else
          let '(l, paid) := debit_balance (t_from t) TOKEN_ETX_ID (t_fee_quarks t) l in
          if negb paid then Some (l, false) else
          Some (register_validator_record (t_to t) (t_from t) pubkey reward l, true)
      end
  end.

Definition execute_buy_ticket (t : Tx) (l : Ledger) : option (Ledger * bool) :=
  if negb ((t_value t <? U64) && (0 <? t_value t))%Z then Some (l, false) else
  let cost := saturating_mul U128 TICKET_COST_QUARKS (t_value t) in
  let required := saturating_add U128 cost (t_fee_quarks t) in
  if (validator_owner_account (t_to t) l !=? Some (t_from t)) ||
     negb (can_pay_fee (t_from t) TOKEN_ETX_ID required l)
  then Some (l, false) else
  let '(l, paid) := debit_balance (t_from t) TOKEN_ETX_ID cost l in
  if negb paid then Some (l, false) else
  let '(l, fee_paid) := debit_balance (t_from t) TOKEN_ETX_ID (t_fee_quarks t) l in
  if negb fee_paid then
    l ← credit_balance (t_from t) TOKEN_ETX_ID cost l; Some (l, false)
  else
  Some (refresh_validator_activation (t_to t) (burn_and_mint_tickets (t_to t) (t_value t) l), true).

Definition execute_wallet_to_vault (t : Tx) (l : Ledger) : option (Ledger * bool) :=
  let required := saturating_add U128 (t_value t) (t_fee_quarks t) in
  if (validator_owner_account (t_to t) l !=? Some (t_from t)) ||
     negb (can_pay_fee (t_from t) TOKEN_ETX_ID required l) || negb (has_validator (t_to t) l)
  then Some (l, false) else
  let '(l, paid) := debit_balance (t_from t) TOKEN_ETX_ID (t_value t) l in
  if negb paid then Some (l, false) else
  let '(l, fee_paid) := debit_balance (t_from t) TOKEN_ETX_ID (t_fee_quarks t) l in
  if negb fee_paid then
    l ← credit_balance (t_from t) TOKEN_ETX_ID (t_value t) l; Some (l, false)
  else
  match validator_by_id (t_to t) l with
  | Some _ =>
      let l := on_validator (t_to t) (fun v =>
        set_v_vault_quarks (saturating_add U128 (v_vault_quarks v) (t_value t)) v) l in
      Some (refresh_validator_activation (t_to t) l, true)
  | None => l ← credit_balance (t_from t) TOKEN_ETX_ID (t_value t) l; Some (l, false)
  end.

(** [v.vault_quarks -= tx.value] panics below zero. *)
Definition execute_vault_to_wallet (t : Tx) (l : Ledger) : option (Ledger * bool) :=
  if (validator_owner_account (t_to t) l !=? Some (t_from t)) ||
     negb (can_pay_fee (t_from t) TOKEN_ETX_ID (t_fee_quarks t) l) ||
     (validator_withdrawable_vault_quarks (t_to t) l <? t_value t)%Z
  then Some (l, false) else
  let '(l, paid) := debit_balance (t_from t) TOKEN_ETX_ID (t_fee_quarks t) l in
  if negb paid then Some (l, false) else
  match validator_by_id (t_to t) l with
  | Some v =>
      vault ← checked_sub (v_vault_quarks v) (t_value t);
      let l := on_validator (t_to t) (set_v_vault_quarks vault) l in
      l ← credit_balance (t_from t) TOKEN_ETX_ID (t_value t) l;
      Some (refresh_validator_activation (t_to t) l, true)
  | None => Some (l, false)
  end.

(** Every other kind moves [value] and burns the fee. *)
Definition execute_transfer (t : Tx) (l : Ledger) : option (Ledger * bool) :=
  let can_pay :=
    if (t_token_id t =? t_fee_token_id t)%Z
    then can_pay_fee (t_from t) (t_token_id t) (saturating_add U128 (t_value t) (t_fee_quarks t)) l
    else can_pay_fee (t_from t) (t_token_id t) (t_value t) l &&
         can_pay_fee (t_from t) (t_fee_token_id t) (t_fee_quarks t) l in
  if negb can_pay then Some (l, false) else
  let '(l, paid) := debit_balance (t_from t) (t_token_id t) (t_value t) l in
  if negb paid then Some (l, false) else
  l ← credit_balance (t_to t) (t_token_id t) (t_value t) l;
  let '(l, fee_paid) := debit_balance (t_from t) (t_fee_token_id t) (t_fee_quarks t) l in
  if negb fee_paid then
    let '(l, _) := debit_balance (t_to t) (t_token_id t) (t_value t) l in
    l ← credit_balance (t_from t) (t_token_id t) (t_value t) l; Some (l, false)
  else Some (l, true).

Definition execute_tx (t : Tx) (l : Ledger) : option (Ledger * bool) :=
  match t_kind t with
  | RegisterValidator => execute_register t l
  | BuyTicket => execute_buy_ticket t l
  | WalletToVault => execute_wallet_to_vault t l
  | VaultToWallet => execute_vault_to_wallet t l
  | _ => execute_transfer t l
  end.

(** The same three branches, written a second time in the source. *)
Definition execute_pbm_tx (t : Tx) (l : Ledger) : option (Ledger * bool) :=
  match t_kind t with
  | RegisterValidator => execute_register t l
  | WalletToVault => execute_wallet_to_vault t l
  | BuyTicket => execute_buy_ticket t l
  | _ => Some (l, false)
  end.
End Execute.

(** ** Filling a block *)

Record Filled `{Rng} : Type := mk_filled {
  f_pool : list Tx;
  f_ledger : Ledger;
  f_gas : Z;
  f_fees : Z;
  f_transactions : list Tx;
  f_rng : rng
}.

Section Build.
  Context `{KE : Keccak} `{HX : Hex} `{HE : HexEncode} `{VJ : V1Json} `{UN : Unicode} `{KC : K256} `{RG : Rng}.

(** The [while let Some(tx) = mempool.front()] loop of [validator_block]. *)
Fixpoint fill_block (slot : Z) (pool : list Tx) (l : Ledger) (gas fees : Z) (txs : list Tx) (r : rng) :
    option Filled :=
  match pool with
  | [] => Some (mk_filled _ [] l gas fees txs r)
  | t :: rest =>
      if (MAX_BLOCK_TRANSACTIONS <=? Z.of_nat (length txs))%Z then Some (mk_filled _ pool l gas fees txs r) else
      if t_chain_id t !=? V1_CHAIN_ID then fill_block slot rest l gas fees txs r else
      if (slot <? t_valid_after_slot t)%Z then Some (mk_filled _ pool l gas fees txs r) else
      match checked_add U64 gas (t_gas t) with
      | Some next_gas =>
          if (MAX_BLOCK_GAS <? next_gas)%Z then Some (mk_filled _ pool l gas fees txs r) else
          match checked_add U64 fees (t_fee_quarks t) with
          | Some next_fees =>
              match execute_tx t l with
              | None => None
              | Some (l, false) => fill_block slot rest l gas fees txs r
              | Some (l, true) =>
                  let '(r, stop) := gen_bool r in
                  if stop then Some (mk_filled _ rest l next_gas next_fees (txs ++ [t]) r)
                  else fill_block slot rest l next_gas next_fees (txs ++ [t]) r
              end
          | None => Some (mk_filled _ pool l gas fees txs r)
          end
      | None => Some (mk_filled _ pool l gas fees txs r)
      end
  end.

Definition canonical_parent_hash (slot : Z) (s : ProtocolState) : option bytes :=
  if (slot =? 0)%Z then Some ZERO_HASH
  else Block_hash <$> c_blocks (chain s) !! saturating_sub slot 1.

Definition build_block (s : ProtocolState) (kind : BlockKind) (proposer : option bytes) (ticket : Z)
    (txs : list Tx) (gas : Z) (data : ProtocolData) : option Block :=
  parent ← canonical_parent_hash (st_slot s) s;
  Block_new (st_slot s) kind parent proposer ticket txs gas data.

(** The producer's counters: one more block, one forgiven miss. *)
Definition produced_block (leader : bytes) (l : Ledger) : option Ledger :=
  match validator_by_id leader l with
  | None => Some l
  | Some v =>
      n ← checked_add U32 (v_blocks_this_sub_epoch v) 1;
      Some (on_validator leader (fun v =>
        let v := set_v_blocks_this_sub_epoch n v in
        if (0 <? v_miss_counter v)%Z then set_v_miss_counter (v_miss_counter v - 1) v else v) l)
  end.

(** Base issuance goes into the producer's vault, locked. *)
Definition issue_reward (leader : bytes) (c : Calendar) (l : Ledger) : Ledger :=
  if has_validator leader l then
    let base_reward := base_reward_per_block_quarks c in
    let l := lock_validator_reward (epoch_index c) leader base_reward l in
    set_economy (set_e_issued base_reward (economy l)) l
  else l.

Definition validator_block (s : ProtocolState) (r : rng) : option (Block * ProtocolState * rng) :=
  f ← fill_block (st_slot s) (mempool (pools s)) (ledger s) 0 0 [] r;
  let leader := current_leader (turn s) in
  let l := set_economy (set_e_fees (f_fees f) (economy (f_ledger f))) (f_ledger f) in
  l ← produced_block leader l;
  let l := issue_reward leader (calendar s) l in
  let s := set_ledger l (set_pools (set_mempool (f_pool f) (pools s)) s) in
  b ← build_block s Validator (Some leader) (current_ticket_id (turn s)) (f_transactions f) (f_gas f)
        (mk_protocol_data None (f_fees f));
  Some (b, s, f_rng f).

(** One miss; the tenth starts a cooldown. *)
Definition punish_miss (leader : bytes) (c : Calendar) (l : Ledger) : option Ledger :=
  match validator_by_id leader l with
  | None => Some l
  | Some v =>
      n ← checked_add U32 (v_miss_counter v) 1;
      if (10 <=? n)%Z then
        until ← checked_add U64 (epoch_index c) 1;
        Some (on_validator leader (fun v =>
          set_v_cooldown_until_epoch (Some until) (set_v_state PunishedCooldown (set_v_miss_counter n v))) l)
      else Some (on_validator leader (set_v_miss_counter n) l)
  end.

Definition protocol_miss_block (s : ProtocolState) : option (Block * ProtocolState) :=
  let leader := current_leader (turn s) in
  let data := mk_protocol_data (Some leader) 0 in
  if local_validator_id s !=? Some leader then
    b ← build_block s ProtocolMiss None ZERO_TICKET_ID [] 0 data; Some (b, s)
  else
    l ← punish_miss leader (calendar s) (ledger s);
    let s := set_ledger l s in
    b ← build_block s ProtocolMiss None ZERO_TICKET_ID [] 0 data; Some (b, s).

Definition protocol_collision_block (s : ProtocolState) : option Block :=
  build_block s ProtocolCollision None ZERO_TICKET_ID [] 0 ProtocolData_empty.

(** [(index, valid_after_slot, hash)] of the transactions that may run now. *)
Definition pbm_candidates (s : ProtocolState) : list (nat * Z * bytes) :=
  omap (fun '(i, t) =>
    if pbm_allowed_kind (t_kind t) && (t_valid_after_slot t <=? st_slot s)%Z
    then h ← Tx_hash t; Some (i, t_valid_after_slot t, h) else None)
    (imap (fun i t => (i, t)) (pbm_pool (pools s))).

Definition candidate_leb (a b : nat * Z * bytes) : bool :=
  if (a.1.2 =? b.1.2)%Z then bytes_leb a.2 b.2 else (a.1.2 <? b.1.2)%Z.

Definition select_pbm_tx_index (s : ProtocolState) : option nat :=
  (fun c => c.1.1) <$> head (sort_by candidate_leb (pbm_candidates s)).

Definition deactivate_pbm_if_ready (s : ProtocolState) : ProtocolState :=
  if (total_eligible_tickets (ledger s) =? 0)%nat then s else
  let s := set_turn (set_mode ModeNormal (turn s)) s in
  let s := set_pools (set_pbm_pool [] (set_mempool (mempool (pools s) ++ pbm_pool (pools s)) (pools s))) s in
  push_event PbmDeactivated s.

(** At most one bootstrap transaction per slot. *)
Definition run_pbm_tx (s : ProtocolState) : option (ProtocolState * Z * Z * list Tx) :=
  match i ← select_pbm_tx_index s; t ← pbm_pool (pools s) !! i; Some (i, t) with
  | None => Some (s, 0%Z, 0%Z, [])
  | Some (i, t) =>
      let s := set_pools (set_pbm_pool (delete i (pbm_pool (pools s))) (pools s)) s in
      '(l, executed) ← execute_pbm_tx t (ledger s);
      if executed : bool
      then Some (set_ledger (set_economy (set_e_fees (t_fee_quarks t) (economy l)) l) s, t_gas t, t_fee_quarks t, [t])
      else Some (set_ledger l s, 0%Z, 0%Z, [])
  end.

Definition protocol_no_tickets_block (s : ProtocolState) : option (Block * ProtocolState) :=
  '(s, gas, fees, txs) ← run_pbm_tx s;
  let s := deactivate_pbm_if_ready s in
  b ← build_block s ProtocolNoTickets None ZERO_TICKET_ID txs gas (mk_protocol_data None fees);
  Some (b, s).
End Build.

(** ** Recording a block *)

Definition set_c_blocks (b : gmap Z Block) (i : gmap bytes Z) (c : Chain) : Chain :=
  mk_chain b i (c_raw_txs c) (c_history c) (c_blocks_this_sub_epoch c) (c_liveness c).
Definition set_c_raw_txs (x : gmap bytes RawTxRecord) (c : Chain) : Chain :=
  mk_chain (c_blocks c) (c_block_hash_to_number c) x (c_history c) (c_blocks_this_sub_epoch c) (c_liveness c).
Definition set_c_history (x : list Block) (c : Chain) : Chain :=
  mk_chain (c_blocks c) (c_block_hash_to_number c) (c_raw_txs c) x (c_blocks_this_sub_epoch c) (c_liveness c).
Definition set_c_blocks_this_sub_epoch (x : list (option bytes)) (c : Chain) : Chain :=
  mk_chain (c_blocks c) (c_block_hash_to_number c) (c_raw_txs c) (c_history c) x (c_liveness c).
Definition set_c_liveness (x : Liveness) (c : Chain) : Chain :=
  mk_chain (c_blocks c) (c_block_hash_to_number c) (c_raw_txs c) (c_history c) (c_blocks_this_sub_epoch c) x.

Definition EPOCH_SLOTS : Z := SUB_EPOCH_SLOTS * EPOCH_SUB_EPOCHS.

(** [update_liveness]; the counters are [u64] and [+=] panics. *)
Definition update_liveness (b : Block) (v : Liveness) : option Liveness :=
  let epoch := (Block_slot b / EPOCH_SLOTS)%Z in
  let v := if (epoch =? l_epoch v)%Z then v
           else mk_liveness epoch ∅ 0 0 (l_epoch_validator_blocks v) (l_epoch_total_slots v) in
  if bool_decide (Block_slot b ∈ l_counted_slots v) then Some v else
  let counted := {[Block_slot b]} ∪ l_counted_slots v in
  total ← checked_add U64 (l_total_slots v) 1;
  valid ← (if Block_kind b ==? Validator then checked_add U64 (l_validator_slots v) 1
           else Some (l_validator_slots v));
  Some (mk_liveness (l_epoch v) counted total valid valid total).

(** The inclusion fields of a raw transaction. *)
Definition included (number : Z) (hash : bytes) (index : nat) (r : RawTxRecord) : RawTxRecord :=
  mk_raw_tx (r_hash r) (r_raw r) (r_from r) (r_to r) (r_nonce r) (r_gas r) (r_input r) (r_value r) (r_fee_quarks r)
    (r_chain_id r) (r_tx_type r) (r_v r) (r_r r) (r_s r) (Some number) (Some hash) (Some (Z.of_nat index)) (Some true).

Fixpoint mark_included (number : Z) (hash : bytes) (index : nat) (ids : list bytes) (m : gmap bytes RawTxRecord) :
    gmap bytes RawTxRecord :=
  match ids with
  | [] => m
  | id :: rest => mark_included number hash (S index) rest (alter (included number hash index) id m)
  end.

Section Record.
  Context `{KE : Keccak} `{HX : Hex} `{HE : HexEncode} `{VJ : V1Json} `{UN : Unicode} `{KC : K256} `{RG : Rng}.

Definition validate_block_commitments_and_parent (s : ProtocolState) (b : Block) : bool :=
  validate_commitments b &&
  match canonical_parent_hash (Block_slot b) s with
  | Some parent => validate_parent b parent
  | None => false
  end.

Definition record_block (b : Block) (s : ProtocolState) : ProtocolState * bool :=
  if negb (validate_block_commitments_and_parent s b) then (s, false) else
  let c := chain s in
  let number := Block_slot b in
  let index := match c_blocks c !! number with
    | Some old => delete (Block_hash old) (c_block_hash_to_number c)
    | None => c_block_hash_to_number c
    end in
  let c := set_c_blocks (<[number := b]> (c_blocks c)) (<[Block_hash b := number]> index) c in
  let c := match Block_transaction_hashes b with
    | Some ids => set_c_raw_txs (mark_included number (Block_hash b) 0 ids (c_raw_txs c)) c
    | None => c
    end in
  (set_chain c s, true).

(** [blocks.keys().max()] *)
Definition max_slot (blocks : gmap Z Block) : option Z :=
  map_fold (fun k _ acc => Some (match acc with Some m => Z.max k m | None => k end)) None blocks.

Definition prevalidate_active_linear_slot (s : ProtocolState) : result string () :=
  let expected_slot := match max_slot (c_blocks (chain s)) with
    | Some m => saturating_add U64 m 1 | None => 0%Z end in
  fail_if (st_slot s !=? expected_slot) "active slot is not the next canonical slot"%string;;
  fail_if (bool_decide (is_Some (c_blocks (chain s) !! st_slot s)))
    "active slot already has a canonical block"%string.

(** The candidate survives the wire decoder and extends the tip. *)
Definition prevalidate_linear_tip (s : ProtocolState) (b : Block) : result string () :=
  wire ← ok_or (Block_wire_bytes b) "candidate has invalid canonical block encoding"%string;
  decoded ← ok_or (Block_from_wire_bytes wire)
    "candidate failed claimed-hash or canonical decoding validation"%string;
  fail_if ((decoded !=? b) || negb (validate_commitments b))
    "candidate failed block commitment validation"%string;;
  prevalidate_active_linear_slot s;;
  fail_if (Block_slot b !=? st_slot s) "candidate slot does not match the active local slot"%string;;
  expected_parent ← (if (st_slot s =? 0)%Z then Ok ZERO_HASH else
    ok_or (Block_hash <$> c_blocks (chain s) !! saturating_sub (st_slot s) 1)
      "canonical tip block is unavailable"%string);
  fail_if (parent_hash (bk_header b) !=? expected_parent) "candidate parent is not the canonical tip"%string.

(** [None] is a panic, [Err] a refusal. *)
Definition record_linear_tip (b : Block) (s : ProtocolState) : option (result string ProtocolState) :=
  match prevalidate_linear_tip s b with
  | Err e => Some (Err e)
  | Ok _ =>
      if bool_decide (is_Some (current_result (turn s))) then
        Some (Err "active slot already has a recorded result"%string) else
      let s := set_turn (set_current_result (Some b) (turn s)) s in
      live ← update_liveness b (c_liveness (chain s));
      let c := set_c_liveness live (chain s) in
      let c := set_c_blocks_this_sub_epoch (c_blocks_this_sub_epoch c ++
        [if Block_kind b ==? Validator then bk_proposer b else None]) c in
      let '(s, recorded) := record_block b (set_chain c s) in
      if negb recorded then
        Some (Err "candidate block persistence index rejected the canonical tip"%string) else
      let history := b :: c_history (chain s) in
      let history := if (50 <? length history)%nat then removelast history else history in
      Some (Ok (set_chain (set_c_history history (chain s)) s))
  end.

(** ** Boundaries *)

(** The burn offset of one proposer. *)
Definition pay_offset (epoch opb : Z) (l : Ledger) (pid : bytes) : option Ledger :=
  if has_validator pid l then
    let l := lock_validator_reward epoch pid opb l in
    let e := economy l in
    total ← checked_add U128 (e_burn_offset_total e) opb;
    Some (set_economy (mk_economy (e_burn_this_sub_epoch e) (e_fees_burned_total e) (e_ticket_burned_total e)
      (e_base_issuance_total e) total (e_sub_epoch_issued e) (e_sub_epoch_burned e)
      (saturating_add U128 (e_epoch_issued e) opb) (e_epoch_burned e)) l)
  else Some l.

Fixpoint pay_offsets (epoch opb : Z) (pids : list bytes) (l : Ledger) : option Ledger :=
  match pids with
  | [] => Some l
  | pid :: rest => l ← pay_offset epoch opb l pid; pay_offsets epoch opb rest l
  end.

Definition close_sub_epoch (s : ProtocolState) : option ProtocolState :=
  let proposers := omap id (c_blocks_this_sub_epoch (chain s)) in
  let produced := Z.of_nat (length proposers) in
  l ← (if (0 <? produced)%Z then
         scaled ← checked_mul U128 (burn_offset_k_permille (calendar s)) (e_burn_this_sub_epoch (economy (ledger s)));
         pay_offsets (epoch_index (calendar s)) (scaled / 1000 / produced) proposers (ledger s)
       else Some (ledger s));
  let l := set_validators (map (set_v_blocks_this_sub_epoch 0) (validators l)) l in
  let e := economy l in
  let l := set_economy (mk_economy 0 (e_fees_burned_total e) (e_ticket_burned_total e) (e_base_issuance_total e)
    (e_burn_offset_total e) 0 0 (e_epoch_issued e) (e_epoch_burned e)) l in
  index ← checked_add U64 (sub_epoch_index (calendar s)) 1;
  let s := set_chain (set_c_blocks_this_sub_epoch [] (chain s)) (set_ledger l s) in
  Some (push_event (SubEpochTransition index) (set_calendar (set_sub_epoch_index index (calendar s)) s)).

(** The end of a cooldown. *)
Definition end_cooldown (epoch : Z) (l : Ledger) (v : NodeValidator) : NodeValidator * bool :=
  if v_state v ==? PunishedCooldown then
    match v_cooldown_until_epoch v with
    | Some until =>
        if (until <=? epoch)%Z then
          let v := set_v_cooldown_until_epoch None v in
          if (validator_vault_minimum_quarks (v_id v) l <=? v_vault_quarks v)%Z
          then (set_v_state Inactive v, true) else (set_v_state PausedLowVault v, false)
        else (v, false)
    | None => (v, false)
    end
  else (v, false).

Definition process_epoch_validator_transitions (epoch : Z) (l : Ledger) : Ledger :=
  let out := map (end_cooldown epoch l) (validators l) in
  let refresh_ids := map (fun p => v_id p.1) (List.filter snd out) in
  fold_left (fun l id => refresh_validator_activation id l) refresh_ids (set_validators (map fst out) l).

Definition retired (t : ModelTicket) : ModelTicket :=
  mk_model_ticket (mt_id t) (mt_owner t) 0 false true false (mt_retire_requested_epoch t)
    (mt_retire_effective_epoch t).

(** [tickets.iter_mut().find(|t| t.id == tid)]: the owner and the new tickets. *)
Fixpoint retire_ticket (tid : Z) (ts : list ModelTicket) : option bytes * list ModelTicket :=
  match ts with
  | [] => (None, [])
  | t :: rest =>
      if (mt_id t =? tid)%Z then (Some (mt_owner t), retired t :: rest)
      else let '(o, rest) := retire_ticket tid rest in (o, t :: rest)
  end.

Fixpoint retire_tickets (tids : list Z) (ts : list ModelTicket) : list bytes * list ModelTicket :=
  match tids with
  | [] => ([], ts)
  | tid :: rest =>
      let '(o, ts) := retire_ticket tid ts in
      let '(owners, ts) := retire_tickets rest ts in
      (option_list o ++ owners, ts)
  end.

(** [sort_unstable] and [dedup] *)
Fixpoint dedup (l : list bytes) : list bytes :=
  match l with
  | x :: (y :: _) as rest => if x ==? y then dedup rest else x :: dedup rest
  | _ => l
  end.

Definition finalize_retire_for_epoch (epoch : Z) (l : Ledger) : Ledger :=
  match retire_finalize l !! epoch with
  | None => l
  | Some tids =>
      let l := set_retire_finalize (delete epoch (retire_finalize l)) l in
      let '(owners, ts) := retire_tickets tids (tickets l) in
      fold_left (fun l id => refresh_validator_activation id l) (dedup (sort_by bytes_leb owners)) (set_tickets ts l)
  end.

Definition rotate_epoch_seed (c : Calendar) : Calendar :=
  set_epoch_seed (hash_with_domain EPOCH_SEED_DOMAIN (epoch_seed c ++ be_bytes 8 (epoch_index c))) c.

(** Once a year inflation falls by a tenth and the block reward follows. *)
Definition decay_inflation (next_epoch : Z) (l : Ledger) (c : Calendar) : option Calendar :=
  if (next_epoch mod EPOCHS_PER_YEAR =? 0)%Z then
    decayed ← checked_mul U64 (annual_inflation_ppb c) 9;
    let inflation := Z.max (decayed / 10) 5000000 in
    Some (set_base_reward_per_block_quarks (base_reward_of l inflation) (set_annual_inflation_ppb inflation c))
  else Some c.

Definition close_epoch (s : ProtocolState) : option ProtocolState :=
  next_epoch ← checked_add U64 (epoch_index (calendar s)) 1;
  c ← decay_inflation next_epoch (ledger s) (calendar s);
  let c := set_epoch_index next_epoch c in
  let l := unlock_rewards_for_epoch next_epoch (ledger s) in
  let e := economy l in
  let l := set_economy (mk_economy (e_burn_this_sub_epoch e) (e_fees_burned_total e) (e_ticket_burned_total e)
    (e_base_issuance_total e) (e_burn_offset_total e) (e_sub_epoch_issued e) (e_sub_epoch_burned e) 0 0) l in
  let l := finalize_retire_for_epoch next_epoch l in
  let c := rotate_epoch_seed c in
  let l := process_epoch_validator_transitions next_epoch l in
  Some (push_event (EpochTransition next_epoch) (set_calendar c (set_ledger l s))).

Definition run_boundaries (s : ProtocolState) : option ProtocolState :=
  s ← (if (0 <? st_slot s)%Z && (st_slot s mod SUB_EPOCH_SLOTS =? 0)%Z then close_sub_epoch s else Some s);
  if (0 <? st_slot s)%Z && (st_slot s mod EPOCH_SLOTS =? 0)%Z then close_epoch s else Some s.

(** ** One slot *)

Definition is_local_leader (s : ProtocolState) : bool :=
  match local_validator_id s with
  | None => false
  | Some local => current_leader (turn s) ==? local
  end.

(** The [if]/[else] of the three builders. *)
Definition build_candidate (s : ProtocolState) (r : rng) : option (Block * ProtocolState * rng) :=
  if (total_eligible_tickets (ledger s) =? 0)%nat then
    '(b, s) ← protocol_no_tickets_block s; Some (b, s, r)
  else if is_local_leader s then validator_block s r
  else '(b, s) ← protocol_miss_block s; Some (b, s, r).

(** The closure of [stage_local_slot]; its caller restores the live state. *)
Definition stage_local_slot (s : ProtocolState) (r : rng) : option (result string (Block * ProtocolState * rng)) :=
  match prevalidate_active_linear_slot s with
  | Err e => Some (Err e)
  | Ok _ =>
      '(b, s, r) ← build_candidate s r;
      match prevalidate_linear_tip s b with
      | Err e => Some (Err e)
      | Ok _ =>
          recorded ← record_linear_tip b s;
          match recorded with
          | Err e => Some (Err e)
          | Ok s => s ← run_boundaries s; Some (Ok (b, s, r))
          end
      end
  end.

(** A queued remote block is dropped, with a message. *)
Definition drop_remote (s : ProtocolState) : ProtocolState :=
  match remote_slot_results s !! st_slot s with
  | None => s
  | Some _ => push_event (RemoteRejected (st_slot s))
      (set_remote_slot_results (delete (st_slot s) (remote_slot_results s)) s)
  end.

(** [finish_slot]; [persisted] is what the storage boundary answers, the
    third component the block that is broadcast. *)
Definition finish_slot (persisted : result string ()) (s : ProtocolState) (r : rng) :
    option (ProtocolState * rng * option Block) :=
  let s := drop_remote s in
  match canonical_parent_hash (st_slot s) s with
  | None => Some (push_event (ParentUnavailable (st_slot s)) s, r, None)
  | Some _ =>
      match prevalidate_active_linear_slot s with
      | Err e => Some (push_event (SlotRejected (st_slot s) e) s, r, None)
      | Ok _ =>
          staged ← stage_local_slot s r;
          match staged with
          | Err e => Some (push_event (SlotDiscarded (st_slot s) e) s, r, None)
          | Ok (b, candidate, candidate_rng) =>
              match persisted with
              | Err e => Some (push_event (SlotDiscarded (st_slot s) e) s, r, None)
              | Ok _ => _ ← Block_wire_bytes b; Some (candidate, candidate_rng, Some b)
              end
          end
      end
  end.

Definition leader_selection_block_hash (slot : Z) (s : ProtocolState) : option bytes :=
  historical_block_hash (c_blocks (chain s)) slot.

Definition select_leader (s : ProtocolState) : bytes * Z :=
  match leader_selection_block_hash (st_slot s) s with
  | None => (str "protocol", ZERO_TICKET_ID)
  | Some hash =>
      default (str "protocol", ZERO_TICKET_ID) (select_leader_ticket hash (st_slot s) (leader_tickets (ledger s)))
  end.

(** [slot += 1] panics at the end of [u64]; [now] is the clock. *)
Definition start_next_slot (now : Z) (s : ProtocolState) : option ProtocolState :=
  slot ← checked_add U64 (st_slot s) 1;
  let s := set_st_slot slot s in
  let stage := if (total_eligible_tickets (ledger s) =? 0)%nat then ModePbm else ModeNormal in
  let '(leader, ticket) := select_leader s in
  Some (set_turn (mk_turn now stage leader ticket Executing None) s).
End Record.
