(* ===== verification/LegacyPeer.v ===== *)
(** * The clock and the peers of the V1 node

    src/src/app/network.rs, src/src/p2p.rs, src/src/app/core.rs and the text
    formats of src/src/app/utils.rs: slot timing, the gossip of transactions
    and blocks as text, the STATE snapshots peers exchange, and the dispatch of
    one datagram ([handle_message]).  BLOCK and HIST datagrams are refused
    before they are decoded.  Sockets, the peer list and what is sent are not
    part of the state; the wall clock and the monotonic clock are arguments. *)

From S2P Require Import Prelude Codec Crypto BlockCommitment LeaderSelection LegacyBlock LegacyState LegacySlot.

(** Socket addresses are only read and compared. *)
Class PeerAddr : Type := {
  addr : Type;
  addr_from_str : bytes -> option addr
}.

(** ** Text *)

(** [str::split(c)]: never empty. *)
Fixpoint split_on (c : byte) (s : bytes) : list bytes :=
  match s with
  | [] => [[]]
  | x :: r =>
      if x ==? c then [] :: split_on c r else
      match split_on c r with
      | [] => [[x]]
      | h :: t => (x :: h) :: t
      end
  end.

(** [str::split_once(c)] *)
Fixpoint split_once (c : byte) (s : bytes) : option (bytes * bytes) :=
  match s with
  | [] => None
  | x :: r => if x ==? c then Some ([], r) else '(a, b) ← split_once c r; Some (x :: a, b)
  end.

(** [str::parse] for an unsigned integer of width [w]: an optional [+] and at
    least one digit. *)
Fixpoint read_digits (w acc : Z) (s : bytes) : option Z :=
  match s with
  | [] => Some acc
  | x :: r =>
      if byte_in 48 57 x then
        scaled ← checked_mul w acc 10; next ← checked_add w scaled (byte_val x - 48); read_digits w next r
      else None
  end.

Definition parse_uint (w : Z) (s : bytes) : option Z :=
  match match s with x2b :: r => r | _ => s end with
  | [] => None
  | ds => read_digits w 0 ds
  end.

Definition bar : byte := x7c.
Definition comma : byte := x2c.

(** ** Slot timing (src/src/app/core.rs, src/src/app/network.rs) *)

Section Timing.
  Context `{KE : Keccak} `{HX : Hex} `{HE : HexEncode} `{VJ : V1Json} `{UN : Unicode} `{KC : K256} `{RG : Rng}.

(** src/src/app/utils.rs: the seed of an epoch, hashed forward from the first. *)
Fixpoint derive_epoch_seed (epochs : nat) : bytes :=
  match epochs with
  | O => GENESIS_EPOCH_SEED
  | S i => hash_with_domain EPOCH_SEED_DOMAIN (derive_epoch_seed i ++ be_bytes 8 (Z.of_nat (S i)))
  end.

(** [now] is the wall clock and [instant] the monotonic one, in milliseconds;
    the flag is [bootstrapped_from_peer]. *)
Definition bootstrap_slot_from_peer (now instant slot slot_started_unix_ms : Z) (s : ProtocolState) :
    ProtocolState * bool :=
  if (slot_started_unix_ms =? 0)%Z then (s, false) else
  let elapsed := saturating_sub now slot_started_unix_ms in
  let elapsed_slots := (elapsed / SLOT_MS mod U64)%Z in
  let slot_elapsed_ms := (elapsed mod SLOT_MS)%Z in
  let target_slot := saturating_add U64 slot elapsed_slots in
  if (target_slot <=? st_slot s)%Z then (s, false) else
  match canonical_parent_hash target_slot s with
  | None => (s, false)
  | Some _ =>
      let s := set_st_slot target_slot s in
      let epoch := (target_slot / EPOCH_SLOTS)%Z in
      let s := set_calendar (set_epoch_seed (derive_epoch_seed (Z.to_nat epoch))
        (set_sub_epoch_index (target_slot / SUB_EPOCH_SLOTS) (set_epoch_index epoch (calendar s)))) s in
      let s := set_turn (set_slot_started (instant - slot_elapsed_ms) (turn s)) s in
      let '(leader, ticket) := select_leader s in
      (push_event (Note "bootstrapped slot from peer")
         (set_turn (set_current_ticket_id ticket (set_current_leader leader (turn s))) s), true)
  end.

(** Far behind its anchor, the node makes the active slot end now. *)
Definition maybe_resync_slot_from_anchor (since_anchor : option Z) (instant : Z) (s : ProtocolState) :
    option ProtocolState :=
  match since_anchor with
  | None => Some s
  | Some ms =>
      let target_slot := (ms mod U64 / SLOT_MS)%Z in
      next ← checked_add U64 (st_slot s) 1;
      if (next <? target_slot)%Z
      then Some (push_event (Note "catching up") (set_turn (set_slot_started (instant - SLOT_MS) (turn s)) s))
      else Some s
  end.

Definition accept_gossiped_tx (t : Tx) (s : ProtocolState) : ProtocolState :=
  if (total_eligible_tickets (ledger s) =? 0)%nat && pbm_allowed_kind (t_kind t) then
    let pending := length (List.filter (fun p => t_from p ==? t_from t) (pbm_pool (pools s))) in
    if (pending <? PBM_PENDING_PER_ACCOUNT_LIMIT)%nat
    then set_pools (set_pbm_pool (pbm_pool (pools s) ++ [t]) (pools s)) s else s
  else set_pools (set_mempool (mempool (pools s) ++ [t]) (pools s)) s.

(** One round of the loop of [tick]: the slot, then the next one. *)
Definition tick_slot (persisted : result string ()) (instant : Z) (s : ProtocolState) (r : rng) :
    option (ProtocolState * rng) :=
  '(s, r, sent) ← finish_slot persisted s r;
  match sent with
  | Some _ => s ← start_next_slot instant s; Some (s, r)
  | None => Some (s, r)
  end.

(** [request_local_ticket_retire]: the tickets are muted at once. *)
Definition retiring (epoch finalize : Z) (t : ModelTicket) : ModelTicket :=
  mk_model_ticket (mt_id t) (mt_owner t) 1 true (mt_dead t) true (Some epoch) (Some finalize).

Fixpoint update_ticket (tid : Z) (f : ModelTicket -> ModelTicket) (ts : list ModelTicket) : list ModelTicket :=
  match ts with
  | [] => []
  | t :: rest => if (mt_id t =? tid)%Z then f t :: rest else t :: update_ticket tid f rest
  end.

Definition retire_one (epoch finalize : Z) (l : Ledger) (tid : Z) : Ledger :=
  set_retire_finalize (<[finalize := default [] (retire_finalize l !! finalize) ++ [tid]]> (retire_finalize l))
    (set_tickets (update_ticket tid (retiring epoch finalize) (tickets l)) l).

Definition request_local_ticket_retire (count : nat) (s : ProtocolState) : option ProtocolState :=
  match local_validator_id s with
  | None => Some (push_event (Note "retire rejected: not a validator node") s)
  | Some local_id =>
      let eligible := map mt_id (List.filter (fun t => (mt_owner t ==? local_id) && negb (mt_dead t) &&
        negb (mt_muted t) && negb (mt_retiring t) && validator_active (mt_owner t) (ledger s)) (tickets (ledger s))) in
      let eligible := take count (sort_by Z.leb eligible) in
      match eligible with
      | [] => Some (push_event (Note "retire request: no eligible local tickets") s)
      | _ =>
          let request_epoch := epoch_index (calendar s) in
          finalize_epoch ← checked_add U64 request_epoch 2;
          let l := fold_left (retire_one request_epoch finalize_epoch) eligible (ledger s) in
          Some (push_event (Note "retire started") (set_ledger (refresh_validator_activation local_id l) s))
      end
  end.
End Timing.

(** ** Peer messages *)

Record HelloMsg `{PeerAddr} : Type := mk_hello {
  hm_addr : addr;
  hm_slot : Z;
  hm_slot_started_unix_ms : Z;
  hm_mode : bytes;
  hm_validator_id : option bytes;
  hm_validator_account : option bytes;
  hm_validator_bootstrap : bool
}.

(** The part of the state that peers exchange as text. *)
Record StateSnapshot : Type := mk_snapshot {
  ss_slot : Z;
  ss_validators : list NodeValidator;
  ss_tickets : list ModelTicket;
  ss_accounts : list Account;
  ss_economy : Economy;
  ss_reward_unlocks : gmap Z (list (bytes * Z))
}.

Definition non_empty (s : bytes) : option bytes := match s with [] => None | _ => Some s end.

Definition parse_hello `{PeerAddr} (msg : bytes) : option HelloMsg :=
  let p := split_on bar msg in
  match p with
  | tag :: p1 :: p2 :: p3 :: p4 :: p5 :: rest =>
      if tag !=? str "HELLO" then None else
      a ← addr_from_str p1; slot ← parse_uint U64 p2; started ← parse_uint U128 p3;
      Some (mk_hello _ a slot started p4 (non_empty p5) (p6 ← rest !! 0%nat; non_empty p6)
        (rest !! 1%nat ==? Some (str "1")))
  | _ => None
  end.

(** [decode_opt], [decode_validator_state] and the balances of an account. *)
Definition decode_opt (value : bytes) : option bytes := if value ==? str "-" then None else Some value.

Definition decode_validator_state (value : bytes) : option ValidatorState :=
  if value ==? str "active" then Some Active else
  if value ==? str "paused_low_vault" then Some PausedLowVault else
  if value ==? str "punished_cooldown" then Some PunishedCooldown else
  if value ==? str "inactive" then Some Inactive else
  if value ==? str "jailed" then Some Jailed else None.

Fixpoint snapshot_balances (entries : list bytes) (balances : gmap Z Z) : option (gmap Z Z) :=
  match entries with
  | [] => Some balances
  | entry :: rest =>
      '(token, balance) ← split_once x3a entry;
      token ← parse_uint U64 token; balance ← parse_uint U128 balance;
      snapshot_balances rest (<[token := balance]> balances)
  end.

Definition parse_snapshot_balances (raw : bytes) : option (gmap Z Z) :=
  if raw ==? str "-" then Some ∅ else snapshot_balances (split_on x3b raw) ∅.

Section Snapshot.
  Context `{UN : Unicode}.

Definition opt_u64 (s : bytes) : option Z := x ← decode_opt s; parse_uint U64 x.

(** One chunk of a STATE message; unknown chunks are skipped. *)
Definition snapshot_chunk (chunk : bytes) (s : StateSnapshot) : option StateSnapshot :=
  match split_on comma chunk with
  | [tag; f1; f2; f3; f4; f5; f6; f7; f8; f9; f10] =>
      if tag ==? str "E" then
        slot ← parse_uint U64 f1; fees ← parse_uint U128 f2; tickets ← parse_uint U128 f3; base ← parse_uint U128 f4;
        offset ← parse_uint U128 f5; si ← parse_uint U128 f6; sb ← parse_uint U128 f7; ei ← parse_uint U128 f8;
        eb ← parse_uint U128 f9; burn ← parse_uint U128 f10;
        Some (mk_snapshot slot (ss_validators s) (ss_tickets s) (ss_accounts s)
          (mk_economy burn fees tickets base offset si sb ei eb) (ss_reward_unlocks s))
      else Some s
  | [tag; f1; f2; f3; f4; f5; f6; f7; f8; f9] =>
      if tag ==? str "V" then
        state ← decode_validator_state f5; vault ← parse_uint U128 f6; locked ← parse_uint U128 f7;
        misses ← parse_uint U32 f8;
        Some (mk_snapshot (ss_slot s) (ss_validators s ++
          [mk_validator f1 (normalize_address <$> decode_opt f2) (decode_opt f3) (normalize_address <$> decode_opt f4)
             state vault locked misses 0 0 (opt_u64 f9)])
          (ss_tickets s) (ss_accounts s) (ss_economy s) (ss_reward_unlocks s))
      else Some s
  | [tag; f1; f2; f3; f4; f5; f6; f7; f8] =>
      if tag ==? str "T" then
        id ← parse_uint U64 f1; bucket ← parse_uint U8 f3;
        Some (mk_snapshot (ss_slot s) (ss_validators s) (ss_tickets s ++
          [mk_model_ticket id f2 bucket (f4 ==? str "1") (f5 ==? str "1") (f6 ==? str "1") (opt_u64 f7) (opt_u64 f8)])
          (ss_accounts s) (ss_economy s) (ss_reward_unlocks s))
      else Some s
  | [tag; f1; f2; f3] =>
      if tag ==? str "U" then
        epoch ← parse_uint U64 f1; amount ← parse_uint U128 f3;
        Some (mk_snapshot (ss_slot s) (ss_validators s) (ss_tickets s) (ss_accounts s) (ss_economy s)
          (<[epoch := default [] (ss_reward_unlocks s !! epoch) ++ [(f2, amount)]]> (ss_reward_unlocks s)))
      else if tag ==? str "A" then
        nonce ← parse_uint U64 f2; balances ← parse_snapshot_balances f3;
        Some (mk_snapshot (ss_slot s) (ss_validators s) (ss_tickets s) (ss_accounts s ++
          [mk_account (normalize_address f1) [] [] (normalize_address f1) nonce balances])
          (ss_economy s) (ss_reward_unlocks s))
      else Some s
  | _ => Some s
  end.

Fixpoint snapshot_chunks (chunks : list bytes) (s : StateSnapshot) : option StateSnapshot :=
  match chunks with
  | [] => Some s
  | chunk :: rest => s ← snapshot_chunk chunk s; snapshot_chunks rest s
  end.

Definition parse_state_snapshot (msg : bytes) : option StateSnapshot :=
  match split_on bar msg with
  | tag :: chunks =>
      if tag !=? str "STATE" then None else
      snapshot_chunks chunks (mk_snapshot 0 [] [] [] (mk_economy 0 0 0 0 0 0 0 0 0) ∅)
  | [] => None
  end.
End Snapshot.

(** The sum of the four totals; [+] panics on overflow. *)
Definition accounting_progress (e : Economy) : option Z :=
  a ← checked_add U128 (e_fees_burned_total e) (e_ticket_burned_total e);
  b ← checked_add U128 a (e_base_issuance_total e);
  checked_add U128 b (e_burn_offset_total e).

(** A known validator only gains missing texts and a larger vault. *)
Definition merged_validator (apply_economy : bool) (incoming local : NodeValidator) : NodeValidator :=
  let keep a b := match a with Some _ => a | None => b end in
  mk_validator (v_id local) (keep (v_owner_account local) (v_owner_account incoming))
    (keep (v_validator_pubkey local) (v_validator_pubkey incoming))
    (keep (v_reward_address local) (v_reward_address incoming)) (v_state local)
    (Z.max (v_vault_quarks local) (v_vault_quarks incoming))
    (if apply_economy then v_locked_reward_quarks incoming else v_locked_reward_quarks local)
    (v_miss_counter local) (v_double_sign_offenses local) (v_blocks_this_sub_epoch local) (v_cooldown_until_epoch local).

Definition merge_validator (apply_economy : bool) (st : list NodeValidator * bool) (incoming : NodeValidator) :
    list NodeValidator * bool :=
  let '(vs, changed) := st in
  match List.find (fun v => v_id v ==? v_id incoming) vs with
  | Some local => (update_validator (v_id incoming) (merged_validator apply_economy incoming) vs,
                   changed || (v_vault_quarks local <? v_vault_quarks incoming)%Z)
  | None => (vs ++ [incoming], true)
  end.

Definition merge_ticket (ts : list ModelTicket) (incoming : ModelTicket) : list ModelTicket :=
  if existsb (fun t => (mt_id t =? mt_id incoming)%Z) ts
  then update_ticket (mt_id incoming) (fun _ => incoming) ts else ts ++ [incoming].

Definition merge_account (st : gmap bytes Account * gmap bytes Z) (incoming : Account) :
    gmap bytes Account * gmap bytes Z :=
  let '(accounts, nonces) := st in
  let address := a_address incoming in
  let accounts := match accounts !! address with
    | Some local => <[address := mk_account (a_id local) (a_private_key_hex local) (a_public_key_hex local)
        (a_address local) (a_nonce incoming) (a_balances incoming)]> accounts
    | None => <[address := incoming]> accounts
    end in
  (accounts, <[address := Z.max (default 0%Z (nonces !! address)) (a_nonce incoming)]> nonces).

Section Peers.
  Context `{KE : Keccak} `{HX : Hex} `{HE : HexEncode} `{VJ : V1Json} `{UN : Unicode} `{SA : PeerAddr}.

Definition elect (s : ProtocolState) : ProtocolState :=
  let '(leader, ticket) := select_leader s in
  set_turn (set_current_ticket_id ticket (set_current_leader leader (turn s))) s.

Definition merge_state_snapshot (snapshot : StateSnapshot) (s : ProtocolState) : option ProtocolState :=
  if (saturating_add U64 (ss_slot snapshot) 2 <? st_slot s)%Z then Some s else
  local_progress ← accounting_progress (economy (ledger s));
  snapshot_progress ← accounting_progress (ss_economy snapshot);
  let apply_economy := (local_progress <=? snapshot_progress)%Z in
  let l := ledger s in
  let l := if apply_economy then set_reward_unlocks (ss_reward_unlocks snapshot) (set_economy (ss_economy snapshot) l) else l in
  let '(vs, changed) := fold_left (merge_validator apply_economy) (ss_validators snapshot) (validators l, false) in
  let l := set_tickets (fold_left merge_ticket (ss_tickets snapshot) (tickets l)) (set_validators vs l) in
  let changed := changed || negb (ss_tickets snapshot ==? []) in
  let '(accts, nonces) := if apply_economy
    then fold_left merge_account (ss_accounts snapshot) (accounts l, nonce_tracker (pools s))
    else (accounts l, nonce_tracker (pools s)) in
  let s := set_pools (set_nonce_tracker nonces (pools s)) (set_ledger (set_accounts accts l) s) in
  if changed || apply_economy then
    let ids := map v_id (validators (ledger s)) in
    Some (elect (on_ledger (fun l => fold_left (fun l id => refresh_validator_activation id l) ids l) s))
  else Some s.

(** src/src/app/utils.rs *)
Definition deterministic_ticket_id (validator_id : bytes) : Z :=
  be_val (take 8 (hash_with_domain LEGACY_TICKET_ID_DOMAIN validator_id)).

Definition learn_validator_from_hello (mode : bytes) (validator_id validator_account : option bytes) (bootstrap : bool)
    (s : ProtocolState) : ProtocolState :=
  if mode !=? str "validator" then s else
  match validator_id with
  | None => s
  | Some id =>
      let owner_account := normalize_address <$> validator_account in
      match validator_by_id id (ledger s) with
      | Some v =>
          match v_owner_account v with
          | None => on_ledger (on_validator id (fun v =>
              mk_validator (v_id v) owner_account (v_validator_pubkey v) (v_reward_address v) (v_state v)
                (v_vault_quarks v) (v_locked_reward_quarks v) (v_miss_counter v) (v_double_sign_offenses v)
                (v_blocks_this_sub_epoch v) (v_cooldown_until_epoch v))) s
          | Some _ => s
          end
      | None =>
          let ticket_id := deterministic_ticket_id id in
          let v := mk_validator id owner_account None None (if bootstrap then Active else Inactive)
            (if bootstrap then INITIAL_VALIDATOR_VAULT_QUARKS else 0%Z) 0 0 0 0 None in
          let s := on_ledger (fun l => set_validators (validators l ++ [v]) l) s in
          let s := if bootstrap then on_ledger (fun l => set_tickets (tickets l ++ [new_ticket ticket_id id]) l) s else s in
          push_event (Note "discovered validator") s
      end
  end.

Definition set_valid_after (slot : Z) (t : Tx) : Tx :=
  mk_tx (t_chain_id t) (t_from t) (t_nonce t) (t_to t) (t_token_id t) (t_value t) (t_gas t) (t_fee_quarks t)
    (t_max_fee_per_gas t) (t_kind t) slot (t_fee_token_id t) (t_data t) (t_signature_hex t).

(** src/src/app/accounts.rs: a request's transaction enters a pool.  While the
    node bootstraps, at most three per sender wait, each a slot later. *)
Definition enqueue_standard_or_pbm (t : Tx) (s : ProtocolState) : result string (bytes * Z * Tx * ProtocolState) :=
  if (total_eligible_tickets (ledger s) =? 0)%nat then
    fail_if (negb (pbm_allowed_kind (t_kind t))) "transaction type not allowed while PBM is active"%string;;
    let pending := length (List.filter (fun p => t_from p ==? t_from t) (pbm_pool (pools s))) in
    fail_if (PBM_PENDING_PER_ACCOUNT_LIMIT <=? pending)%nat "PBM per-account limit is 3"%string;;
    let slot := saturating_add U64 (saturating_add U64 (st_slot s) PBM_VALID_AFTER_SLOTS) (Z.of_nat pending) in
    let t := set_valid_after slot t in
    hash ← ok_or (Tx_hash t) "transaction cannot be canonically encoded"%string;
    Ok (hash, slot, t, set_pools (set_pbm_pool (pbm_pool (pools s) ++ [t]) (pools s)) s)
  else
    let t := set_valid_after 0 t in
    hash ← ok_or (Tx_hash t) "transaction cannot be canonically encoded"%string;
    Ok (hash, 0%Z, t, set_pools (set_mempool (mempool (pools s) ++ [t]) (pools s)) s).

(** The text of a gossiped transaction ([broadcast_tx]) and its reader. *)
Definition tx_message (t : Tx) : option bytes :=
  bs ← Tx_canonical_bytes t; hash ← Tx_hash t;
  Some (str "TX|" ++ format_hash hash ++ [bar] ++ hex_encode bs).

Definition parse_tx_msg (msg : bytes) : option (bytes * Tx) :=
  match split_on bar msg with
  | [tag; claimed; body] =>
      if tag !=? str "TX" then None else
      claimed_hash ← parse_hash claimed;
      bs ← hex_decode body; t ← Tx_from_canonical_bytes bs;
      hash ← Tx_hash t;
      if hash ==? claimed_hash then Some (claimed_hash, t) else None
  | _ => None
  end.

Definition encode_block (b : Block) : option bytes :=
  wire ← Block_wire_bytes b; Some (str "BLOCK|" ++ hex_encode wire).

Definition parse_block (msg : bytes) : option Block :=
  if take 6 msg ==? str "BLOCK|" then bs ← hex_decode (drop 6 msg); Block_from_wire_bytes bs else None.

(** The tag alone decides; the body is not looked at. *)
Definition reject_unsupported_canonical_ingress (msg : bytes) : option string :=
  match head (split_on bar msg) with
  | Some tag =>
      if tag ==? str "HIST" then Some "rejected inbound message: inbound HIST synchronization is unsupported"%string
      else if tag ==? str "BLOCK" then Some "rejected inbound message: inbound BLOCK acceptance is unsupported"%string
      else None
  | None => None
  end.

(** What the node remembers about its peers. *)
Record PeerBook : Type := mk_peers {
  pb_seen : gset bytes;
  pb_bootstrapped : bool
}.

(** The body of the loop of [p2p_pump]. *)
Definition handle_message (now instant : Z) (msg : bytes) (p : PeerBook) (s : ProtocolState) :
    option (PeerBook * ProtocolState) :=
  match reject_unsupported_canonical_ingress msg with
  | Some reason => Some (p, push_event (Note reason) s)
  | None =>
      match parse_hello msg with
      | Some h =>
          let s := learn_validator_from_hello (hm_mode h) (hm_validator_id h) (hm_validator_account h)
            (hm_validator_bootstrap h) s in
          if negb (pb_bootstrapped p) && ((hm_mode h ==? str "standard") || (hm_mode h ==? str "validator")) then
            let '(s, bootstrapped) := bootstrap_slot_from_peer now instant (hm_slot h) (hm_slot_started_unix_ms h) s in
            Some (mk_peers (pb_seen p) bootstrapped, s)
          else Some (p, s)
      | None =>
          match parse_state_snapshot msg with
          | Some snapshot => s ← merge_state_snapshot snapshot s; Some (p, s)
          | None =>
              match parse_tx_msg msg with
              | Some (id, t) =>
                  if bool_decide (id ∈ pb_seen p) then Some (p, s)
                  else Some (mk_peers ({[id]} ∪ pb_seen p) (pb_bootstrapped p), accept_gossiped_tx t s)
              | None => Some (p, s)
              end
          end
      end
  end.
End Peers.

(** ** Blocks from peers: the checks behind the disabled import *)

Section RemoteBlocks.
  Context `{KE : Keccak} `{HX : Hex} `{HE : HexEncode} `{VJ : V1Json}.

Definition expected_leader_for_slot (slot : Z) (s : ProtocolState) : option (bytes * Z) :=
  if (slot =? st_slot s)%Z then Some (current_leader (turn s), current_ticket_id (turn s)) else
  hash ← leader_selection_block_hash slot s;
  Some (default (str "protocol", ZERO_TICKET_ID) (select_leader_ticket hash slot (leader_tickets (ledger s)))).

Definition validate_block_consensus_role (b : Block) (s : ProtocolState) : bool :=
  match expected_leader_for_slot (Block_slot b) s with
  | None => false
  | Some (leader, ticket) =>
      match Block_kind b with
      | Validator => (bk_proposer b ==? Some leader) && (ticket_id (bk_header b) =? ticket)%Z && (leader !=? str "protocol")
      | ProtocolNoTickets => (leader ==? str "protocol") &&
          forallb (fun t => pbm_allowed_kind (t_kind t) && (t_valid_after_slot t <=? Block_slot b)%Z) (bk_transactions b)
      | ProtocolMiss => (missed_proposer (bk_protocol_data b) ==? Some leader) && (leader !=? str "protocol")
      | ProtocolCollision => true
      end
  end.

Definition accept_late_cooldown_correction (b : Block) (s : ProtocolState) : bool :=
  if (st_slot s <=? Block_slot b)%Z then false else
  match bk_proposer b with
  | None => false
  | Some proposer =>
      match validator_by_id proposer (ledger s) with
      | None => false
      | Some v =>
          if v_state v !=? PunishedCooldown then false else
          existsb (fun t => (mt_owner t ==? proposer) && (mt_id t =? ticket_id (bk_header b))%Z && negb (mt_dead t) &&
            negb (mt_muted t)) (tickets (ledger s))
      end
  end.

Definition accept_remote_slot_result (b : Block) (s : ProtocolState) : bool :=
  if negb (validate_block_commitments_and_parent s b) then false else
  if (saturating_add U64 (st_slot s) 1 <? Block_slot b)%Z then false else
  if (Block_slot b <? st_slot s)%Z && (Block_kind b !=? Validator) then false else
  if (Block_slot b <? st_slot s)%Z && (saturating_add U64 (Block_slot b) 64 <? st_slot s)%Z then false else
  if (Block_slot b =? st_slot s)%Z && bool_decide (is_Some (current_result (turn s))) then false else
  match expected_leader_for_slot (Block_slot b) s with
  | None => false
  | Some (leader, _) =>
      if (local_validator_id s ==? Some leader) && (Block_kind b !=? Validator) then false else
      validate_block_consensus_role b s ||
      ((Block_kind b ==? Validator) && accept_late_cooldown_correction b s)
  end.
End RemoteBlocks.

(** ** Gossip round trips *)

Lemma split_on_last c a : Forall (fun x => x <> c) a -> split_on c a = [a].
Proof. induction 1 as [|x a Hx F IH]; [done|]. cbn. by rewrite bool_decide_eq_false_2, IH. Qed.

Lemma split_on_app c a b : Forall (fun x => x <> c) a -> split_on c (a ++ c :: b) = a :: split_on c b.
Proof.
  induction 1 as [|x a Hx F IH]; cbn; [by rewrite bool_decide_eq_true_2|]. by rewrite bool_decide_eq_false_2, IH.
Qed.

Section Gossip.
  Context {KE : Keccak} {HX : Hex} {HE : HexEncode} {HL : HexLaws HX HE} {VJ : V1Json} {JL : V1JsonLaws VJ}.

Lemma hex_no_bar b : Forall (fun x => x <> bar) (@hex_encode HE b).
Proof. eapply Forall_impl; [apply (@hex_lower HX HE HL)|]. intros x Hx ->. by vm_compute in Hx. Qed.

Lemma hash_no_bar h : Forall (fun x => x <> bar) (format_hash h).
Proof. unfold format_hash. apply Forall_app. split; [by repeat constructor|apply hex_no_bar]. Qed.

Lemma parse_format_hash h : length h = 32%nat -> parse_hash (format_hash h) = Some h.
Proof.
  intros Hl. unfold parse_hash, format_hash. rewrite strip_written, (@hex_roundtrip HX HE HL). cbn [mbind option_bind].
  by rewrite Hl.
Qed.

(** A text is read as the transaction its canonical bytes decode to. *)
Lemma tx_message_reads t t' bs hash msg :
  Tx_canonical_bytes t = Some bs -> Tx_from_canonical_bytes bs = Some t' -> Tx_hash t = Some hash ->
  Tx_hash t' = Some hash -> tx_message t = Some msg -> parse_tx_msg msg = Some (hash, t').
Proof.
  intros Hb Ht' Hh Hh' E. unfold tx_message in E. rewrite Hb, Hh in E. apply Some_inj in E as <-. unfold parse_tx_msg.
  assert (split_on bar (str "TX|" ++ format_hash hash ++ [bar] ++ hex_encode bs) =
    [str "TX"; format_hash hash; hex_encode bs]) as ->.
  { transitivity (str "TX" :: split_on bar (format_hash hash ++ bar :: hex_encode bs)).
    - apply (split_on_app bar (str "TX")). by repeat constructor.
    - by rewrite split_on_app, split_on_last by (apply hash_no_bar || apply hex_no_bar). }
  rewrite neq_dec_false by done.
  assert (length hash = 32%nat) as Hl.
  { unfold Tx_hash in Hh. apply fmap_Some in Hh as (c & _ & ->). apply keccak256_length. }
  rewrite parse_format_hash by done. cbn [mbind option_bind]. rewrite (@hex_roundtrip HX HE HL). cbn [mbind option_bind].
  rewrite Ht'. cbn [mbind option_bind]. rewrite Hh'. cbn [mbind option_bind]. by rewrite bool_decide_eq_true_2.
Qed.

(** Every sent transaction is read back, as its normal form. *)
Lemma tx_message_normal t msg :
  wf_tx t -> tx_message t = Some msg -> exists hash t',
    parse_tx_msg msg = Some (hash, t') /\ Tx_hash t = Some hash /\ Tx_hash t' = Some hash /\
    tx_normal t' /\ untext t' = untext t /\ (t' = t <-> tx_normal t).
Proof.
  intros W E. pose proof E as (bs & Hb & E')%bind_Some. apply bind_Some in E' as (hash & Hh & _).
  destruct (tx_normalize_spec t bs W Hb) as (t' & _ & W' & N' & Hb' & Hu & Hsame).
  assert (Tx_hash t' = Some hash) as Hh' by (rewrite <- Hh; unfold Tx_hash; by rewrite Hb, Hb').
  exists hash, t'. split_and!; [|done..|split; [by intros <-|done]].
  by apply (tx_message_reads t t' bs hash msg Hb (proj2 (tx_codec_iff bs t') (conj W' (conj N' Hb')))).
Qed.

Lemma parse_encoded b msg : encode_block b = Some msg ->
  exists w, Block_wire_bytes b = Some w /\ parse_block msg = Block_from_wire_bytes w.
Proof.
  intros (w & Hw & E)%bind_Some. apply Some_inj in E as <-. exists w. split; [done|]. unfold parse_block.
  assert (take 6 (str "BLOCK|" ++ hex_encode w) = str "BLOCK|" /\ drop 6 (str "BLOCK|" ++ hex_encode w) = hex_encode w) as [-> ->]
    by done.
  by rewrite bool_decide_eq_true_2, (@hex_roundtrip HX HE HL) by done.
Qed.

Lemma parse_tx_msg_sound msg hash t :
  parse_tx_msg msg = Some (hash, t) -> wf_tx t /\ tx_normal t /\ Tx_hash t = Some hash.
Proof.
  unfold parse_tx_msg. destruct (split_on bar msg) as [|tag [|claimed [|body [|]]]]; try done.
  destruct (_ !=? _); [done|]. intros (c & _ & E)%bind_Some. apply bind_Some in E as (bs & _ & E).
  apply bind_Some in E as (t' & Ht & E). apply bind_Some in E as (h & Hh & E). case_bool_decide; [|done].
  injection E as -> ->. apply tx_codec_iff in Ht as (? & ? & _). subst. done.
Qed.

(** C38: what gossip preserves.  The text a node sends for any well-formed
    transaction is accepted and read back with the same id as the normal form
    of the transaction, which agrees with it in every field but the spelling
    of the signature and of registration data; it is the transaction sent
    exactly when that one is normal.  The text of a well-formed block is read
    back as that block exactly when its transactions are normal and its
    proposer text is not empty.  Whatever transaction text is accepted holds a
    well-formed normal transaction with the claimed id. *)
Theorem gossip_roundtrip t b msg :
  (wf_tx t -> tx_message t = Some msg -> exists hash t',
     parse_tx_msg msg = Some (hash, t') /\ Tx_hash t = Some hash /\ Tx_hash t' = Some hash /\
     tx_normal t' /\ untext t' = untext t /\ (t' = t <-> tx_normal t)) /\
  (forall hash, parse_tx_msg msg = Some (hash, t) -> wf_tx t /\ tx_normal t /\ Tx_hash t = Some hash) /\
  (wf_v1_block b -> encode_block b = Some msg ->
     parse_block msg = Some b <-> Forall tx_normal (bk_transactions b) /\ bk_proposer b <> Some []).
Proof.
  split; [apply tx_message_normal|]. split; [intros hash; apply parse_tx_msg_sound|].
  intros W (w & Hw & ->)%parse_encoded. rewrite v1_wire_iff. naive_solver.
Qed.
End Gossip.

#[local] Existing Instance toy_keccak.
#[local] Existing Instance toy_hex_decode.
#[local] Existing Instance toy_hex_encode.
#[local] Existing Instance toy_hex_laws.
#[local] Existing Instance toy_json.
#[local] Existing Instance toy_json_laws.

(** The second signature is not written the way the decoder writes it. *)
Lemma gossip_roundtrip_witness : exists msg hash msg' hash' t',
  tx_message (toy_tx (str "0xabcd")) = Some msg /\ parse_tx_msg msg = Some (hash, toy_tx (str "0xabcd")) /\
  tx_message (toy_tx (str "ABCD")) = Some msg' /\ parse_tx_msg msg' = Some (hash', t') /\
  t' <> toy_tx (str "ABCD") /\ untext t' = untext (toy_tx (str "ABCD")).
Proof.
  pose (b := mk_block (mk_header 0 0 0 Validator [] [] 0 [] [] [] 0 []) None [] ProtocolData_empty).
  destruct (tx_message (toy_tx (str "0xabcd"))) as [msg|] eqn:E; [|vm_compute in E; discriminate E].
  destruct (tx_message (toy_tx (str "ABCD"))) as [msg'|] eqn:E'; [|vm_compute in E'; discriminate E'].
  destruct (proj1 (gossip_roundtrip (toy_tx (str "0xabcd")) b msg)) as (hash & t & Hp & _ & _ & _ & _ & Hn);
    [apply toy_tx_wf; reflexivity|exact E|].
  destruct (proj1 (gossip_roundtrip (toy_tx (str "ABCD")) b msg')) as (hash' & t' & Hp' & _ & _ & _ & Hu & Hn');
    [apply toy_tx_wf; reflexivity|exact E'|].
  rewrite (proj2 Hn) in Hp by (constructor; [intros [=]|]; exists [xab; xcd]; reflexivity).
  exists msg, hash, msg', hash', t'. split_and!; try done.
  intros [_ [[|x y] Hs]]%Hn'; discriminate Hs.
Defined.
