(* ===== verification/LegacyLedger.v ===== *)
(** * What the V1 node's transactions and boundaries do to the supply

    Lemmas about [LegacySlot]: on a solvent ledger no transaction panics, an
    included one burns exactly its fee and, for tickets, their cost, a refused
    one changes no supply, and rewards, burn offsets and epoch transitions
    change the supply by what they issue.  The fee of a system transaction is
    paid in ETX whatever its fee token says. *)

From S2P Require Import Prelude Codec Crypto BlockCommitment LeaderSelection LegacyBlock LegacyState LegacySlot.

(** The token the fee is really paid in. *)
Definition fee_token (t : Tx) : Z :=
  match t_kind t with
  | RegisterValidator | BuyTicket | WalletToVault | VaultToWallet => TOKEN_ETX_ID
  | _ => t_fee_token_id t
  end.

Definition ticket_cost (t : Tx) : Z :=
  match t_kind t with BuyTicket => saturating_mul U128 TICKET_COST_QUARKS (t_value t) | _ => 0%Z end.

(** What an included transaction takes out of circulation. *)
Definition burned (token : Z) (t : Tx) : Z :=
  ((if (token =? fee_token t)%Z then t_fee_quarks t else 0) +
   (if (token =? TOKEN_ETX_ID)%Z then ticket_cost t else 0))%Z.

Definition spent (t : Tx) (e : Economy) : Economy :=
  match t_kind t with BuyTicket => ticket_burn (ticket_cost t) e | _ => e end.

Section Execution.
  Context {HX : Hex} {HE : HexEncode} {VJ : V1Json} {UN : Unicode} {UL : UnicodeLaws UN} {KC : K256}.

(** The effect of one execution. *)
Definition executes (t : Tx) (l : Ledger) (r : option (Ledger * bool)) : Prop :=
  exists l' ex, r = Some (l', ex) /\ solvent l' /\
    (forall token, supply token l' = supply token l - if ex then burned token t else 0)%Z /\
    economy l' = (if ex then spent t (economy l) else economy l).

Lemma executes_refused t l l' :
  solvent l' -> (forall token, supply token l' = supply token l) -> economy l' = economy l ->
  executes t l (Some (l', false)).
Proof. intros H Hs He. exists l', false. split_and!; try done. intros t'. rewrite Hs. lia. Qed.

Lemma same_economy l l' : same_but_accounts l l' -> economy l' = economy l.
Proof. by intros ->. Qed.
Lemma same_validators l l' : same_but_accounts l l' -> validators l' = validators l.
Proof. by intros ->. Qed.

Lemma fee_nonneg t : wf_tx t -> (0 <= t_fee_quarks t)%Z.
Proof. intros []. unfold in_width in *. lia. Qed.
Lemma value_nonneg t : wf_tx t -> (0 <= t_value t)%Z.
Proof. intros []. unfold in_width in *. lia. Qed.

(** A debit and the matching refund. *)
Lemma refund_spec id token amount l l1 :
  solvent l -> solvent l1 -> (0 <= amount)%Z ->
  (forall token', supply token' l1 = supply token' l - if (token' =? token)%Z then amount else 0)%Z ->
  exists l2, credit_balance id token amount l1 = Some l2 /\ same_but_accounts l1 l2 /\ solvent l2 /\
    (forall token', supply token' l2 = supply token' l) /\
    (amount <= balance (normalize_address id) token (accounts l2))%Z.
Proof.
  intros H H1 Ha Hs. pose proof (so_supply _ H token) as Hmax. pose proof (Hs token) as E. rewrite Z.eqb_refl in E.
  destruct (credit_spec id token amount l1 H1 Ha) as (l2 & E2 & S2 & H2 & Hs2 & B2); [lia|].
  exists l2. split_and!; try done.
  - intros t. rewrite Hs2, Hs. destruct (_ =? _)%Z; lia.
  - rewrite B2, bool_decide_eq_true_2 by done. pose proof (so_balances _ H1 (normalize_address id) token). lia.
Qed.

Lemma execute_register_spec t l : solvent l -> wf_tx t -> t_kind t = RegisterValidator -> executes t l (execute_register t l).
Proof.
  intros H W K. pose proof (fee_nonneg t W) as Hf. unfold execute_register.
  destruct (decode_register_validator_data _) as [[key reward]|]; [|by apply executes_refused].
  destruct (normalize_validator_pubkey key) as [pk|]; [|by apply executes_refused].
  destruct (_ || _ || _); [by apply executes_refused|].
  destruct (debit_balance _ _ _ l) as [l1 paid] eqn:E1.
  destruct (debit_spec _ _ _ _ _ _ H Hf E1) as (_ & S1 & H1 & Hs1 & _).
  destruct paid; cbn [negb andb] in *.
  - destruct (new_validator_keeps (mk_validator (t_to t) (Some (normalize_address (t_from t))) (Some pk)
      (Some (normalize_address reward)) Inactive 0 0 0 0 0 None) l1 eq_refl eq_refl H1) as [H2 Hs2].
    exists (register_validator_record (t_to t) (t_from t) pk reward l1), true. split; [done|]. split; [exact H2|].
    split; [|unfold spent; rewrite K; by rewrite <- (same_economy _ _ S1)].
    intros t'. unfold register_validator_record. rewrite Hs2, Hs1. unfold burned, fee_token, ticket_cost. rewrite K.
    destruct (t' =? TOKEN_ETX_ID)%Z; lia.
  - apply executes_refused; [done| |by apply same_economy]. intros t'. rewrite Hs1. lia.
Qed.

Lemma mint_keeps_validators id count l : has_validator id l = true ->
  accounts (burn_and_mint_tickets id count l) = accounts l /\ validators (burn_and_mint_tickets id count l) = validators l /\
  economy (burn_and_mint_tickets id count l) = ticket_burn (saturating_mul U128 TICKET_COST_QUARKS count) (economy l).
Proof.
  intros Hv. unfold burn_and_mint_tickets. cbv zeta. unfold has_validator in *. cbn [validators set_tickets set_economy].
  by rewrite Hv.
Qed.

Lemma owner_has_validator id l a : validator_owner_account id l = Some a -> has_validator id l = true.
Proof. unfold validator_owner_account. intros (v & Hv & _)%bind_Some. apply has_validator_find. eauto. Qed.

Lemma same_has_validator id l l' : same_but_accounts l l' -> has_validator id l' = has_validator id l.
Proof. by intros ->. Qed.
Lemma same_find_validator id l l' : same_but_accounts l l' -> validator_by_id id l' = validator_by_id id l.
Proof. by intros ->. Qed.

Lemma saturating_nonneg w a b : (0 < w)%Z -> (0 <= a)%Z -> (0 <= b)%Z -> (0 <= saturating_mul w a b)%Z.
Proof. intros. unfold saturating_mul. pose proof (Z.mul_nonneg_nonneg a b). lia. Qed.

Lemma execute_buy_ticket_spec t l : solvent l -> wf_tx t -> t_kind t = BuyTicket -> executes t l (execute_buy_ticket t l).
Proof.
  intros H W K. pose proof (fee_nonneg t W) as Hf. pose proof (value_nonneg t W) as Hv. unfold execute_buy_ticket.
  destruct (negb _); [by apply executes_refused|]. cbv zeta.
  set (cost := saturating_mul U128 TICKET_COST_QUARKS (t_value t)).
  assert (0 <= cost)%Z as Hc by (apply saturating_nonneg; unfold TICKET_COST_QUARKS; lia).
  destruct (_ || _) eqn:G; [by apply executes_refused|]. apply orb_false_iff in G as [G _].
  apply bool_decide_eq_false, dec_stable, owner_has_validator in G.
  destruct (debit_balance _ _ cost l) as [l1 paid] eqn:E1.
  destruct (debit_spec _ _ _ _ _ _ H Hc E1) as (_ & S1 & H1 & Hs1 & _). destruct paid; cbn [negb andb] in *.
  2: { apply executes_refused; [done| |by apply same_economy]. intros t'. rewrite Hs1. lia. }
  destruct (debit_balance _ _ (t_fee_quarks t) l1) as [l2 paid] eqn:E2.
  destruct (debit_spec _ _ _ _ _ _ H1 Hf E2) as (_ & S2 & H2 & Hs2 & _). destruct paid; cbn [negb andb] in *.
  - rewrite <- (same_has_validator _ _ _ S1), <- (same_has_validator _ _ _ S2) in G.
    destruct (mint_keeps_validators (t_to t) (t_value t) l2 G) as (Ea & Ev & Ee).
    destruct (solvent_ext l2 _ Ea Ev H2) as [H3 Hs3]. destruct (refresh_keeps (t_to t) _ H3) as [H4 Hs4].
    eexists _, true. split; [done|]. split; [exact H4|]. split.
    + intros t'. rewrite Hs4, Hs3, Hs2, Hs1. unfold burned, fee_token, ticket_cost. rewrite K. fold cost.
      destruct (t' =? TOKEN_ETX_ID)%Z; lia.
    + unfold spent, ticket_cost. rewrite K. cbn [economy refresh_validator_activation on_validator set_validators].
      rewrite Ee, (same_economy _ _ S2), (same_economy _ _ S1). done.
  - destruct (refund_spec (t_from t) TOKEN_ETX_ID cost l l2 H H2 Hc) as (l3 & E3 & S3 & H3 & Hs3 & _).
    { intros t'. rewrite Hs2, Hs1. lia. }
    rewrite E3. simpl. apply executes_refused; [done..|].
    by rewrite (same_economy _ _ S3), (same_economy _ _ S2), (same_economy _ _ S1).
Qed.
Lemma vault_minimum_nonneg id l : (0 <= validator_vault_minimum_quarks id l)%Z.
Proof.
  unfold validator_vault_minimum_quarks, saturating_add. destruct (_ =? _)%nat; [done|].
  assert (0 <= saturating_mul U128 (TICKET_COST_QUARKS / 2) (Z.of_nat (validator_ticket_count id l)))%Z
    by (apply saturating_nonneg; [done|done|lia]).
  assert (0 <= saturating_mul U128 TICKET_COST_QUARKS 5)%Z by (by apply saturating_nonneg). lia.
Qed.

Lemma execute_wallet_to_vault_spec t l :
  solvent l -> wf_tx t -> t_kind t = WalletToVault -> executes t l (execute_wallet_to_vault t l).
Proof.
  intros H W K. pose proof (fee_nonneg t W) as Hf. pose proof (value_nonneg t W) as Hv. unfold execute_wallet_to_vault.
  cbv zeta. destruct (_ || _ || _) eqn:G; [by apply executes_refused|]. apply orb_false_iff in G as [_ G%negb_false_iff].
  destruct (debit_balance _ _ (t_value t) l) as [l1 paid] eqn:E1.
  destruct (debit_spec _ _ _ _ _ _ H Hv E1) as (_ & S1 & H1 & Hs1 & _). destruct paid; cbn [negb andb] in *.
  2: { apply executes_refused; [done| |by apply same_economy]. intros t'. rewrite Hs1. lia. }
  destruct (debit_balance _ _ (t_fee_quarks t) l1) as [l2 paid] eqn:E2.
  destruct (debit_spec _ _ _ _ _ _ H1 Hf E2) as (_ & S2 & H2 & Hs2 & _).
  pose proof (Hs1 TOKEN_ETX_ID) as X1. pose proof (Hs2 TOKEN_ETX_ID) as X2. pose proof (so_supply _ H TOKEN_ETX_ID) as Hmax.
  rewrite Z.eqb_refl in X1, X2. destruct paid; cbn [negb andb] in *.
  - destruct (validator_by_id (t_to t) l2) as [v|] eqn:Fv.
    + pose proof (solvent_vault l2 v H2 (proj1 (validator_by_id_elem _ _ _ Fv))) as Hvault.
      pose proof (so_vaults _ H2) as Fl. rewrite Forall_forall in Fl.
      destruct (Fl v (proj1 (validator_by_id_elem _ _ _ Fv))) as [_ Hlock].
      destruct (on_validator_spec (t_to t) (fun v => set_v_vault_quarks (saturating_add U128 (v_vault_quarks v) (t_value t)) v)
        l2 v (t_value t) H2 Fv) as [H3 Hs3]; [cbn; unfold saturating_add; lia|lia|done|lia|].
      destruct (refresh_keeps (t_to t) _ H3) as [H4 Hs4]. eexists _, true. split; [done|]. split; [exact H4|]. split.
      * intros t'. rewrite Hs4, Hs3, Hs2, Hs1. unfold burned, fee_token, ticket_cost. rewrite K.
        destruct (t' =? TOKEN_ETX_ID)%Z; lia.
      * unfold spent. rewrite K. cbn [economy refresh_validator_activation on_validator set_validators].
        by rewrite (same_economy _ _ S2), (same_economy _ _ S1).
    + rewrite <- (same_has_validator _ _ _ S1), <- (same_has_validator _ _ _ S2) in G.
      apply has_validator_find in G as [? G]. congruence.
  - destruct (refund_spec (t_from t) TOKEN_ETX_ID (t_value t) l l2 H H2 Hv) as (l3 & E3 & S3 & H3 & Hs3 & _).
    { intros t'. rewrite Hs2, Hs1. lia. }
    rewrite E3. simpl. apply executes_refused; [done..|].
    by rewrite (same_economy _ _ S3), (same_economy _ _ S2), (same_economy _ _ S1).
Qed.

Lemma execute_vault_to_wallet_spec t l :
  solvent l -> wf_tx t -> t_kind t = VaultToWallet -> executes t l (execute_vault_to_wallet t l).
Proof.
  intros H W K. pose proof (fee_nonneg t W) as Hf. pose proof (value_nonneg t W) as Hv. unfold execute_vault_to_wallet.
  destruct (_ || _ || _) eqn:G; [by apply executes_refused|]. apply orb_false_iff in G as [G G'%Z.ltb_ge].
  apply orb_false_iff in G as [G _]. apply bool_decide_eq_false, dec_stable, owner_has_validator in G.
  destruct (debit_balance _ _ (t_fee_quarks t) l) as [l1 paid] eqn:E1.
  destruct (debit_spec _ _ _ _ _ _ H Hf E1) as (_ & S1 & H1 & Hs1 & _). destruct paid; cbn [negb andb] in *.
  2: { apply executes_refused; [done| |by apply same_economy]. intros t'. rewrite Hs1. lia. }
  unfold validator_withdrawable_vault_quarks in G'. rewrite <- (same_find_validator _ _ _ S1) in G'.
  rewrite <- (same_has_validator _ _ _ S1) in G. apply has_validator_find in G as [v Fv]. rewrite Fv in G' |- *.
  pose proof (Hs1 TOKEN_ETX_ID) as X1. pose proof (so_supply _ H TOKEN_ETX_ID) as Hmax. rewrite Z.eqb_refl in X1.
  pose proof (so_vaults _ H1) as Fl. rewrite Forall_forall in Fl.
  destruct (Fl v (proj1 (validator_by_id_elem _ _ _ Fv))) as [Hva Hlock]. unfold saturating_sub in G'.
  pose proof (vault_minimum_nonneg (t_to t) l). assert (t_value t <= v_vault_quarks v)%Z as Hle by lia.
  unfold checked_sub. rewrite (proj2 (Z.leb_le _ _)) by done. simpl.
  destruct (on_validator_spec (t_to t) (set_v_vault_quarks (v_vault_quarks v - t_value t)) l1 v (- t_value t) H1 Fv)
    as [H2 Hs2]; [cbn; lia|lia|done|lia|]. pose proof (Hs2 TOKEN_ETX_ID) as X2. rewrite Z.eqb_refl in X2.
  destruct (credit_spec (t_from t) TOKEN_ETX_ID (t_value t) _ H2 Hv) as (l3 & E3 & S3 & H3 & Hs3 & _); [lia|].
  rewrite E3. simpl. destruct (refresh_keeps (t_to t) _ H3) as [H4 Hs4].
  eexists _, true. split; [done|]. split; [exact H4|]. split.
  - intros t'. rewrite Hs4, Hs3, Hs2, Hs1. unfold burned, fee_token, ticket_cost. rewrite K.
    destruct (t' =? TOKEN_ETX_ID)%Z; lia.
  - unfold spent. rewrite K. cbn [economy refresh_validator_activation on_validator set_validators].
    by rewrite (same_economy _ _ S3), <- (same_economy _ _ S1).
Qed.
Lemma execute_transfer_spec t l :
  solvent l -> wf_tx t -> fee_token t = t_fee_token_id t -> ticket_cost t = 0%Z -> spent t (economy l) = economy l ->
  executes t l (execute_transfer t l).
Proof.
  intros H W K1 K2 K3. pose proof (fee_nonneg t W) as Hf. pose proof (value_nonneg t W) as Hv. unfold execute_transfer.
  cbv zeta. destruct (negb _) eqn:G; [by apply executes_refused|]. apply negb_false_iff in G.
  destruct (debit_balance _ _ (t_value t) l) as [l1 paid] eqn:E1.
  destruct (debit_spec _ _ _ _ _ _ H Hv E1) as (_ & S1 & H1 & Hs1 & B1). destruct paid; cbn [negb andb] in *.
  2: { apply executes_refused; [done| |by apply same_economy]. intros t'. rewrite Hs1. lia. }
  destruct (refund_spec (t_to t) (t_token_id t) (t_value t) l l1 H H1 Hv Hs1) as (l2 & E2 & S2 & H2 & Hs2 & B2).
  rewrite E2. simpl. destruct (debit_balance _ _ (t_fee_quarks t) l2) as [l3 paid] eqn:E3.
  destruct (debit_spec _ _ _ _ _ _ H2 Hf E3) as (_ & S3 & H3 & Hs3 & B3). destruct paid; cbn [negb andb] in *.
  - eexists _, true. split; [done|]. split; [exact H3|]. split.
    + intros t'. rewrite Hs3, Hs2. unfold burned. rewrite K1, K2. destruct (t' =? TOKEN_ETX_ID)%Z; lia.
    + by rewrite K3, (same_economy _ _ S3), (same_economy _ _ S2), (same_economy _ _ S1).
  - destruct (debit_balance (t_to t) _ (t_value t) l3) as [l4 paid] eqn:E4.
    destruct (debit_spec _ _ _ _ _ _ H3 Hv E4) as (-> & S4 & H4 & Hs4 & _). rewrite B3 in Hs4.
    rewrite (proj2 (Z.leb_le _ _)) in Hs4 by (simpl; lia). cbn [andb] in Hs4.
    destruct (refund_spec (t_from t) (t_token_id t) (t_value t) l l4 H H4 Hv) as (l5 & E5 & S5 & H5 & Hs5 & _).
    { intros t'. rewrite Hs4, Hs3, Hs2. lia. }
    rewrite E5. simpl. apply executes_refused; [done..|].
    by rewrite (same_economy _ _ S5), (same_economy _ _ S4), (same_economy _ _ S3), (same_economy _ _ S2), (same_economy _ _ S1).
Qed.

Lemma execute_tx_spec t l : solvent l -> wf_tx t -> executes t l (execute_tx t l).
Proof.
  intros H W. unfold execute_tx. destruct (t_kind t) eqn:K;
    first [by apply execute_register_spec | by apply execute_buy_ticket_spec | by apply execute_wallet_to_vault_spec |
      by apply execute_vault_to_wallet_spec | apply execute_transfer_spec; try done;
      unfold fee_token, ticket_cost, spent; by rewrite K].
Qed.

Lemma execute_pbm_spec t l : solvent l -> wf_tx t -> executes t l (execute_pbm_tx t l).
Proof.
  intros H W. unfold execute_pbm_tx. destruct (t_kind t) eqn:K;
    first [by apply execute_register_spec | by apply execute_buy_ticket_spec | by apply execute_wallet_to_vault_spec |
      by apply executes_refused].
Qed.
End Execution.

(** ** Filling a block *)

Section Fill.
  Context {HX : Hex} {HE : HexEncode} {VJ : V1Json} {UN : Unicode} {UL : UnicodeLaws UN} {KC : K256} {RG : Rng}.

(** What the loop established when it added [new] and left [rest]. *)
Record filled (slot : Z) (pool : list Tx) (l : Ledger) (gas fees : Z) (txs : list Tx) (f : Filled) (new : list Tx) : Prop := {
  fi_solvent : solvent (f_ledger f);
  fi_transactions : f_transactions f = txs ++ new;
  fi_pool : exists consumed, pool = consumed ++ f_pool f /\ sublist new consumed;
  fi_gas : f_gas f = (gas + tx_sum t_gas new)%Z /\ (f_gas f <= MAX_BLOCK_GAS)%Z;
  fi_fees : f_fees f = (fees + tx_sum t_fee_quarks new)%Z /\ (f_fees f < U64)%Z;
  fi_count : (Z.of_nat (length (txs ++ new)) <= MAX_BLOCK_TRANSACTIONS)%Z;
  fi_valid : Forall (fun t => t_chain_id t = V1_CHAIN_ID /\ (t_valid_after_slot t <= slot)%Z) new;
  fi_supply : forall token, supply token (f_ledger f) = (supply token l - tx_sum (burned token) new)%Z;
  fi_economy : economy (f_ledger f) = fold_left (fun e t => spent t e) new (economy l)
}.

Lemma filled_stop slot pool l gas fees txs r :
  solvent l -> (gas <= MAX_BLOCK_GAS)%Z -> (fees < U64)%Z -> (Z.of_nat (length txs) <= MAX_BLOCK_TRANSACTIONS)%Z ->
  filled slot pool l gas fees txs (mk_filled _ pool l gas fees txs r) [].
Proof.
  intros. constructor; cbn; try done; rewrite ?app_nil_r; try done; try (split; lia); try (intros; lia).
  by exists [].
Qed.

(** A transaction that was popped and not included. *)
Lemma filled_skip slot t pool l l1 gas fees txs f new :
  (forall token, supply token l1 = supply token l) -> economy l1 = economy l ->
  filled slot pool l1 gas fees txs f new -> filled slot (t :: pool) l gas fees txs f new.
Proof.
  intros Hs He []. constructor; try done.
  - destruct fi_pool0 as (c & -> & Hc). exists (t :: c). split; [done|by apply sublist_cons].
  - intros token. by rewrite fi_supply0, Hs.
  - by rewrite fi_economy0, He.
Qed.

Lemma filled_take slot t pool l l1 gas fees txs f new :
  (forall token, supply token l1 = supply token l - burned token t)%Z -> economy l1 = spent t (economy l) ->
  t_chain_id t = V1_CHAIN_ID -> (t_valid_after_slot t <= slot)%Z ->
  filled slot pool l1 (gas + t_gas t) (fees + t_fee_quarks t) (txs ++ [t]) f new ->
  filled slot (t :: pool) l gas fees txs f (t :: new).
Proof.
  intros Hs He Hc Hv []. rewrite <- app_assoc in *. constructor; try done.
  - destruct fi_pool0 as (c & -> & Hsub). exists (t :: c). split; [done|by apply sublist_skip].
  - cbn [tx_sum]. split; lia.
  - cbn [tx_sum]. split; lia.
  - by constructor.
  - intros token. rewrite fi_supply0, Hs. cbn [tx_sum]. lia.
  - by rewrite fi_economy0, He.
Qed.

Lemma fill_block_spec slot pool l gas fees txs r :
  solvent l -> Forall wf_tx pool -> (0 <= gas <= MAX_BLOCK_GAS)%Z -> (0 <= fees < U64)%Z ->
  (Z.of_nat (length txs) <= MAX_BLOCK_TRANSACTIONS)%Z ->
  exists f new, fill_block slot pool l gas fees txs r = Some f /\ filled slot pool l gas fees txs f new.
Proof.
  intros H F. revert l gas fees txs r H. induction F as [|t pool W F IH]; intros l gas fees txs r H Hg Hf Hn.
  { eexists _, []. split; [done|]. apply filled_stop; (done || lia). }
  assert (exists f new, Some (mk_filled _ (t :: pool) l gas fees txs r) = Some f /\
    filled slot (t :: pool) l gas fees txs f new) as Hstop
    by (eexists _, []; split; [done|]; apply filled_stop; (done || lia)).
  cbn [fill_block]. destruct (Z.leb_spec MAX_BLOCK_TRANSACTIONS (Z.of_nat (length txs))); [done|].
  case_bool_decide as Hc.
  { destruct (IH l gas fees txs r H Hg Hf Hn) as (f & new & E & Hfi). exists f, new. split; [done|].
    by apply (filled_skip _ _ _ l l). }
  destruct (Z.ltb_spec slot (t_valid_after_slot t)); [done|].
  pose proof W as [_ _ _ _ Wg Wf _ _ _ _ _ _ _]. unfold in_width in Wg, Wf.
  unfold checked_add. destruct (Z.ltb_spec (gas + t_gas t) U64); [|done].
  destruct (Z.ltb_spec MAX_BLOCK_GAS (gas + t_gas t)); [done|].
  destruct (Z.ltb_spec (fees + t_fee_quarks t) U64); [|done].
  destruct (execute_tx_spec t l H W) as (l1 & ex & -> & Hl1 & Hs & He). destruct ex.
  - destruct (gen_bool r) as [r1 stop]. destruct stop.
    + eexists _, [t]. split; [done|]. eapply filled_take; [done..|]. apply filled_stop; try lia; [done|].
      rewrite length_app. simpl. lia.
    + destruct (IH l1 (gas + t_gas t)%Z (fees + t_fee_quarks t)%Z (txs ++ [t]) r1 Hl1) as (f & new & E & Hfi);
        [lia|lia|rewrite length_app; simpl; lia|].
      exists f, (t :: new). split; [done|]. by eapply filled_take.
  - destruct (IH l1 gas fees txs r Hl1 Hg Hf Hn) as (f & new & E & Hfi). exists f, new. split; [done|].
    eapply (filled_skip _ _ _ l l1); try done. intros token. rewrite Hs. lia.
Qed.
End Fill.

(** ** The counters *)

Lemma spent_fields t e :
  e_burn_this_sub_epoch (spent t e) = e_burn_this_sub_epoch e /\ e_fees_burned_total (spent t e) = e_fees_burned_total e /\
  e_base_issuance_total (spent t e) = e_base_issuance_total e /\ e_burn_offset_total (spent t e) = e_burn_offset_total e /\
  e_ticket_burned_total (spent t e) =
    (if t_kind t ==? BuyTicket then saturating_add U128 (e_ticket_burned_total e) (ticket_cost t) else e_ticket_burned_total e).
Proof. unfold spent. destruct (t_kind t); done. Qed.

Lemma ticket_cost_nonneg t : wf_tx t -> (0 <= ticket_cost t)%Z.
Proof.
  intros W. pose proof (value_nonneg t W). unfold ticket_cost. destruct (t_kind t); try done. by apply saturating_nonneg.
Qed.

(** A saturating counter: exact while it has not reached the maximum. *)
Definition counted (old added new : Z) : Prop :=
  (new <= old + added)%Z /\ ((new < U128 - 1)%Z -> new = (old + added)%Z).

Lemma counted_exact old added new : counted old added new -> (old + added < U128 - 1)%Z -> new = (old + added)%Z.
Proof. intros [? H] ?. apply H. lia. Qed.

Lemma counted_same old : counted old 0 old.
Proof. split; lia. Qed.

Lemma counted_add old added : (0 <= added)%Z -> counted old added (saturating_add U128 old added).
Proof. unfold counted, saturating_add. lia. Qed.

Lemma spent_all_fields txs e :
  Forall wf_tx txs -> let e' := fold_left (fun e t => spent t e) txs e in
  e_burn_this_sub_epoch e' = e_burn_this_sub_epoch e /\ e_fees_burned_total e' = e_fees_burned_total e /\
  e_base_issuance_total e' = e_base_issuance_total e /\ e_burn_offset_total e' = e_burn_offset_total e /\
  counted (e_ticket_burned_total e) (tx_sum ticket_cost txs) (e_ticket_burned_total e').
Proof.
  cbv zeta. intros F. revert e. induction F as [|t txs W F IH]; intros e; [simpl; split_and!; try done; apply counted_same|].
  cbn [fold_left tx_sum]. destruct (IH (spent t e)) as (A1 & A2 & A3 & A4 & A5).
  destruct (spent_fields t e) as (B1 & B2 & B3 & B4 & B5).
  split_and!; [by rewrite A1|by rewrite A2|by rewrite A3|by rewrite A4|].
  rewrite B5 in A5. pose proof (ticket_cost_nonneg t W).
  assert (0 <= tx_sum ticket_cost txs)%Z by (apply tx_sum_nonneg; eapply Forall_impl; [exact F|]; apply ticket_cost_nonneg).
  revert A5. case_bool_decide as K; [unfold counted, saturating_add; lia|].
  assert (ticket_cost t = 0%Z) as -> by (unfold ticket_cost; by destruct (t_kind t)). unfold counted. lia.
Qed.

(** ** Rewards and boundaries *)

Lemma lock_reward_spec epoch id amount l :
  solvent l -> (0 <= amount)%Z -> has_validator id l = true -> (supply TOKEN_ETX_ID l + amount < U128)%Z ->
  solvent (lock_validator_reward epoch id amount l) /\
  economy (lock_validator_reward epoch id amount l) = economy l /\
  forall token, supply token (lock_validator_reward epoch id amount l) =
    (supply token l + if (token =? TOKEN_ETX_ID)%Z then amount else 0)%Z.
Proof.
  intros H Ha Hv Hmax. unfold lock_validator_reward. destruct (Z.eqb_spec amount 0) as [->|Hne].
  { split_and!; [done..|]. intros t. destruct (_ =? _)%Z; lia. }
  apply has_validator_find in Hv as [v Fv]. rewrite Fv. cbv zeta.
  pose proof (solvent_vault l v H (proj1 (validator_by_id_elem _ _ _ Fv))) as Hvault.
  pose proof (so_vaults _ H) as Fl. rewrite Forall_forall in Fl.
  destruct (Fl v (proj1 (validator_by_id_elem _ _ _ Fv))) as [_ Hlock].
  set (f := fun v => set_v_locked_reward_quarks _ _).
  destruct (on_validator_spec id f l v amount H Fv) as [H1 Hs1];
    [unfold f; cbn; unfold saturating_add; lia|lia|unfold f; cbn; unfold saturating_add; lia|done|].
  match goal with |- solvent ?l' /\ _ => destruct (solvent_ext (on_validator id f l) l' eq_refl eq_refl H1) as [H2 Hs2] end.
  split_and!; [done|done|]. intros t. rewrite Hs2. apply Hs1.
Qed.

Lemma produced_block_spec leader l l' :
  solvent l -> produced_block leader l = Some l' ->
  solvent l' /\ economy l' = economy l /\ (forall token, supply token l' = supply token l) /\
  has_validator leader l' = has_validator leader l.
Proof.
  intros H. unfold produced_block. destruct (validator_by_id leader l) as [v|] eqn:Fv; [|by intros [= <-]].
  intros (n & _ & [= <-])%bind_Some. set (f := fun v => _).
  destruct (on_validator_keeps leader f l H) as [H1 Hs1].
  { intros w. unfold f. cbv zeta. by case_match. }
  { intros w. unfold f. cbv zeta. by case_match. }
  split_and!; [done..|]. unfold has_validator, on_validator. cbn [validators set_validators].
  assert (forall w, v_id (f w) = v_id w) as Hid by (intros w; unfold f; cbv zeta; by case_match).
  clearbody f. clear -Hid. induction (validators l) as [|w vs IH]; [done|]. cbn [update_validator existsb].
  destruct (v_id w ==? leader) eqn:E; cbn [existsb]; [by rewrite Hid, E|by rewrite E, IH].
Qed.

Lemma issue_reward_spec leader c l :
  solvent l -> (0 <= base_reward_per_block_quarks c)%Z ->
  (supply TOKEN_ETX_ID l + base_reward_per_block_quarks c < U128)%Z ->
  let issued := if has_validator leader l then base_reward_per_block_quarks c else 0%Z in
  solvent (issue_reward leader c l) /\
  economy (issue_reward leader c l) = (if has_validator leader l then set_e_issued issued (economy l) else economy l) /\
  forall token, supply token (issue_reward leader c l) =
    (supply token l + if (token =? TOKEN_ETX_ID)%Z then issued else 0)%Z.
Proof.
  intros H Hr Hmax. cbv zeta. unfold issue_reward. destruct (has_validator leader l) eqn:Hv.
  - destruct (lock_reward_spec (epoch_index c) leader _ l H Hr Hv Hmax) as (H1 & He & Hs1). cbv zeta.
    match goal with |- solvent ?l' /\ _ =>
      destruct (solvent_ext (lock_validator_reward (epoch_index c) leader (base_reward_per_block_quarks c) l) l' eq_refl eq_refl H1)
        as [H2 Hs2] end.
    split_and!; [done|cbn [economy set_economy]; by rewrite He|]. intros t. rewrite Hs2. apply Hs1.
  - split_and!; [done..|]. intros t. destruct (_ =? _)%Z; lia.
Qed.

(** Supply and burns on one side, issuance on the other. *)
Definition net (l : Ledger) : Z :=
  (supply TOKEN_ETX_ID l + e_fees_burned_total (economy l) + e_ticket_burned_total (economy l) -
   e_base_issuance_total (economy l) - e_burn_offset_total (economy l))%Z.

(** No saturating total has reached its maximum. *)
Definition unsaturated (e : Economy) : Prop :=
  (e_fees_burned_total e < U128 - 1)%Z /\ (e_ticket_burned_total e < U128 - 1)%Z /\ (e_base_issuance_total e < U128 - 1)%Z.

(** Boundaries preserve the totals and the balance of issuance. *)
Definition boundary (l l' : Ledger) : Prop :=
  solvent l' /\ net l' = net l /\ e_fees_burned_total (economy l') = e_fees_burned_total (economy l) /\
  e_ticket_burned_total (economy l') = e_ticket_burned_total (economy l) /\
  e_base_issuance_total (economy l') = e_base_issuance_total (economy l) /\
  forall token, token <> TOKEN_ETX_ID -> supply token l' = supply token l.

Lemma boundary_refl l : solvent l -> boundary l l.
Proof. done. Qed.

Lemma boundary_trans l1 l2 l3 : boundary l1 l2 -> boundary l2 l3 -> boundary l1 l3.
Proof.
  intros (? & ? & ? & ? & ? & S1) (? & ? & ? & ? & ? & S2). unfold boundary. split_and!; try (done || congruence).
  intros t Ht. by rewrite S2, S1.
Qed.

Lemma boundary_keeps l l' :
  solvent l' -> (forall token, supply token l' = supply token l) ->
  e_fees_burned_total (economy l') = e_fees_burned_total (economy l) ->
  e_ticket_burned_total (economy l') = e_ticket_burned_total (economy l) ->
  e_base_issuance_total (economy l') = e_base_issuance_total (economy l) ->
  e_burn_offset_total (economy l') = e_burn_offset_total (economy l) -> boundary l l'.
Proof. intros H Hs E1 E2 E3 E4. split_and!; try done. unfold net. rewrite Hs. lia. Qed.

Lemma pay_offset_spec epoch opb l pid :
  solvent l -> (0 <= opb)%Z -> (supply TOKEN_ETX_ID l + opb < U128)%Z ->
  (e_burn_offset_total (economy l) + opb < U128)%Z -> exists l', pay_offset epoch opb l pid = Some l' /\
  boundary l l' /\ (supply TOKEN_ETX_ID l' <= supply TOKEN_ETX_ID l + opb)%Z /\
  (e_burn_offset_total (economy l') <= e_burn_offset_total (economy l) + opb)%Z.
Proof.
  intros H Ho Hmax Hb. unfold pay_offset. destruct (has_validator pid l) eqn:Hv.
  - destruct (lock_reward_spec epoch pid opb l H Ho Hv Hmax) as (H1 & He & Hs1). cbv zeta.
    unfold checked_add. rewrite He, (proj2 (Z.ltb_lt _ _)) by done. simpl. eexists. split; [done|].
    match goal with |- boundary l ?l' /\ _ =>
      destruct (solvent_ext (lock_validator_reward epoch pid opb l) l' eq_refl eq_refl H1) as [H2 Hs2] end.
    rewrite Hs2, Hs1, Z.eqb_refl. split; [|split; [lia|cbn; lia]]. split; [exact H2|]. unfold net. rewrite Hs2, Hs1, Z.eqb_refl.
    cbn [economy set_economy e_fees_burned_total e_ticket_burned_total e_base_issuance_total e_burn_offset_total].
    split_and!; [lia|done..|]. intros t Ht. rewrite Hs2, Hs1, (proj2 (Z.eqb_neq _ _)) by done. lia.
  - eexists. split; [done|]. split; [by apply boundary_refl|lia].
Qed.

Lemma pay_offsets_spec epoch opb pids l :
  solvent l -> (0 <= opb)%Z -> (supply TOKEN_ETX_ID l + opb * Z.of_nat (length pids) < U128)%Z ->
  (e_burn_offset_total (economy l) + opb * Z.of_nat (length pids) < U128)%Z ->
  exists l', pay_offsets epoch opb pids l = Some l' /\ boundary l l'.
Proof.
  intros H Ho. revert l H. induction pids as [|pid pids IH]; intros l H Hmax Hb; cbn [pay_offsets].
  { eexists. split; [done|]. by apply boundary_refl. }
  cbn [length] in Hmax, Hb. destruct (pay_offset_spec epoch opb l pid H Ho) as (l1 & E1 & B1 & Hs1 & Ho1); [nia..|].
  rewrite E1. simpl. destruct (IH l1 (proj1 B1)) as (l2 & E2 & B2); [nia..|]. exists l2. split; [done|].
  by eapply boundary_trans.
Qed.

Lemma unlock_all_spec rewards l :
  solvent l -> let l' := fold_left (fun l '(id, amount) => on_validator id (fun v =>
    set_v_locked_reward_quarks (saturating_sub (v_locked_reward_quarks v) amount) v) l) rewards l in
  solvent l' /\ economy l' = economy l /\ forall token, supply token l' = supply token l.
Proof.
  cbv zeta. revert l. induction rewards as [|[id amount] rewards IH]; intros l H; [done|]. cbn [fold_left].
  set (f := fun v => set_v_locked_reward_quarks _ v).
  destruct (on_validator_keeps id f l H) as [H1 Hs1]; [done|intros v ?; unfold f; cbn; unfold saturating_sub; lia|].
  destruct (IH _ H1) as (H2 & He & Hs2). split_and!; [done|by rewrite He|]. intros t. by rewrite Hs2, Hs1.
Qed.

Lemma unlock_rewards_spec epoch l :
  solvent l -> solvent (unlock_rewards_for_epoch epoch l) /\ economy (unlock_rewards_for_epoch epoch l) = economy l /\
  forall token, supply token (unlock_rewards_for_epoch epoch l) = supply token l.
Proof.
  intros H. unfold unlock_rewards_for_epoch. destruct (reward_unlocks l !! epoch) as [rewards|]; [|done].
  destruct (solvent_ext l (set_reward_unlocks (delete epoch (reward_unlocks l)) l) eq_refl eq_refl H) as [H1 Hs1].
  destruct (unlock_all_spec rewards _ H1) as (H2 & He & Hs2). split_and!; [done|by rewrite He|].
  intros t. by rewrite Hs2, Hs1.
Qed.

Lemma refresh_economy ids l : economy (fold_left (fun l id => refresh_validator_activation id l) ids l) = economy l.
Proof. revert l. induction ids as [|id ids IH]; intros l; [done|]. cbn [fold_left]. by rewrite IH. Qed.

Lemma finalize_retire_spec epoch l :
  solvent l -> solvent (finalize_retire_for_epoch epoch l) /\ economy (finalize_retire_for_epoch epoch l) = economy l /\
  forall token, supply token (finalize_retire_for_epoch epoch l) = supply token l.
Proof.
  intros H. unfold finalize_retire_for_epoch. destruct (retire_finalize l !! epoch) as [tids|]; [|done]. cbv zeta.
  destruct (retire_tickets _ _) as [owners ts].
  destruct (solvent_ext l (set_tickets ts (set_retire_finalize (delete epoch (retire_finalize l)) l)) eq_refl eq_refl H) as [H1 Hs1].
  destruct (refresh_all_keeps (dedup (sort_by bytes_leb owners)) _ H1) as [H2 Hs2].
  split_and!; [done|by rewrite refresh_economy|]. intros t. by rewrite Hs2, Hs1.
Qed.

Lemma map_vaults f l :
  solvent l -> (forall v, v_vault_quarks (f v) = v_vault_quarks v /\ v_locked_reward_quarks (f v) = v_locked_reward_quarks v) ->
  solvent (set_validators (map f (validators l)) l) /\
  forall token, supply token (set_validators (map f (validators l)) l) = supply token l.
Proof.
  intros H Hf. assert (vault_sum (map f (validators l)) = vault_sum (validators l)) as Es.
  { unfold vault_sum. induction (validators l) as [|v vs IH]; [done|]. simpl. rewrite IH. by rewrite (proj1 (Hf v)). }
  assert (forall token, supply token (set_validators (map f (validators l)) l) = supply token l) as Hs
    by (intros t; unfold supply; cbn [accounts validators set_validators]; by rewrite Es).
  split; [|done]. constructor; [apply H| |intros t; rewrite Hs; apply H].
  cbn. apply Forall_fmap. eapply Forall_impl; [apply (so_vaults _ H)|]. intros v [? ?]. cbn. destruct (Hf v) as [-> ->]. done.
Qed.

Lemma transitions_spec epoch l :
  solvent l -> solvent (process_epoch_validator_transitions epoch l) /\
  economy (process_epoch_validator_transitions epoch l) = economy l /\
  forall token, supply token (process_epoch_validator_transitions epoch l) = supply token l.
Proof.
  intros H. unfold process_epoch_validator_transitions. cbv zeta. rewrite map_map.
  destruct (map_vaults (fun v => (end_cooldown epoch l v).1) l H) as [H1 Hs1].
  { intros v. unfold end_cooldown. by repeat case_match. }
  match goal with |- context [fold_left _ ?ids _] => destruct (refresh_all_keeps ids _ H1) as [H2 Hs2] end.
  split_and!; [done|by rewrite refresh_economy|]. intros t. by rewrite Hs2, Hs1.
Qed.

(** The stored chain and the active slot are the same. *)
Record same_tip (s s' : ProtocolState) : Prop := {
  tp_slot : st_slot s' = st_slot s;
  tp_blocks : c_blocks (chain s') = c_blocks (chain s);
  tp_index : c_block_hash_to_number (chain s') = c_block_hash_to_number (chain s);
  tp_history : c_history (chain s') = c_history (chain s);
  tp_result : current_result (turn s') = current_result (turn s)
}.

Lemma same_tip_trans s1 s2 s3 : same_tip s1 s2 -> same_tip s2 s3 -> same_tip s1 s3.
Proof. intros [] []. constructor; congruence. Qed.

(** Room for the counters that the boundaries advance. *)
Record boundary_room (s : ProtocolState) : Prop := {
  br_k : (0 <= burn_offset_k_permille (calendar s))%Z;
  br_burn : (0 <= e_burn_this_sub_epoch (economy (ledger s)))%Z;
  br_scaled : (burn_offset_k_permille (calendar s) * e_burn_this_sub_epoch (economy (ledger s)) < U128)%Z;
  br_supply : (supply TOKEN_ETX_ID (ledger s) +
    burn_offset_k_permille (calendar s) * e_burn_this_sub_epoch (economy (ledger s)) < U128)%Z;
  br_offset : (e_burn_offset_total (economy (ledger s)) +
    burn_offset_k_permille (calendar s) * e_burn_this_sub_epoch (economy (ledger s)) < U128)%Z;
  br_sub_epoch : (sub_epoch_index (calendar s) + 1 < U64)%Z;
  br_epoch : (epoch_index (calendar s) + 1 < U64)%Z;
  br_inflation : (annual_inflation_ppb (calendar s) * 9 < U64)%Z
}.

Lemma offset_share scaled n : (0 <= scaled)%Z -> (0 < n)%Z ->
  (0 <= scaled / 1000 / n)%Z /\ (scaled / 1000 / n * n <= scaled)%Z.
Proof.
  intros Hs Hn. assert (0 <= scaled / 1000 <= scaled)%Z as [? ?].
  { split; [by apply Z.div_pos|]. apply Z.div_le_upper_bound; lia. }
  split; [by apply Z.div_pos|]. pose proof (Z.mul_div_le (scaled / 1000) n Hn). lia.
Qed.

Lemma close_sub_epoch_spec s :
  solvent (ledger s) -> boundary_room s -> exists s', close_sub_epoch s = Some s' /\
    boundary (ledger s) (ledger s') /\ same_tip s s' /\ epoch_index (calendar s') = epoch_index (calendar s) /\
    annual_inflation_ppb (calendar s') = annual_inflation_ppb (calendar s).
Proof.
  intros H []. unfold close_sub_epoch. cbv zeta. set (pids := omap id _).
  assert (exists l, (if (0 <? Z.of_nat (length pids))%Z then
      scaled ← checked_mul U128 (burn_offset_k_permille (calendar s)) (e_burn_this_sub_epoch (economy (ledger s)));
      pay_offsets (epoch_index (calendar s)) (scaled / 1000 / Z.of_nat (length pids)) pids (ledger s)
    else Some (ledger s)) = Some l /\ boundary (ledger s) l) as (l & El & Bl).
  { destruct (Z.ltb_spec 0 (Z.of_nat (length pids))) as [Hn|]; [|eexists; split; [done|by apply boundary_refl]].
    unfold checked_mul. rewrite (proj2 (Z.ltb_lt _ _)) by done. simpl.
    destruct (offset_share (burn_offset_k_permille (calendar s) * e_burn_this_sub_epoch (economy (ledger s))) _
      ltac:(nia) Hn) as [? ?]. apply pay_offsets_spec; [done|lia..]. }
  rewrite El. simpl. unfold checked_add. rewrite (proj2 (Z.ltb_lt _ _)) by done. simpl. eexists. split; [done|].
  split; [|split; [by constructor|done]]. eapply boundary_trans; [exact Bl|].
  destruct (map_vaults (set_v_blocks_this_sub_epoch 0) l (proj1 Bl)) as [H1 Hs1]; [done|].
  match goal with |- boundary l ?l' =>
    destruct (solvent_ext (set_validators (map (set_v_blocks_this_sub_epoch 0) (validators l)) l) l' eq_refl eq_refl H1)
      as [H2 Hs2] end.
  by apply boundary_keeps.
Qed.

Lemma close_epoch_spec `{Keccak} s :
  solvent (ledger s) -> (epoch_index (calendar s) + 1 < U64)%Z -> (annual_inflation_ppb (calendar s) * 9 < U64)%Z ->
  exists s', close_epoch s = Some s' /\ boundary (ledger s) (ledger s') /\ same_tip s s'.
Proof.
  intros Hs He Hi. unfold close_epoch, checked_add. rewrite (proj2 (Z.ltb_lt _ _)) by done. cbn [mbind option_bind].
  set (next := (epoch_index (calendar s) + 1)%Z).
  assert (exists c, decay_inflation next (ledger s) (calendar s) = Some c) as [c Ec].
  { unfold decay_inflation. destruct (_ =? _)%Z; [|eauto]. unfold checked_mul.
    rewrite (proj2 (Z.ltb_lt _ _)) by done. simpl. eauto. }
  rewrite Ec. cbn [mbind option_bind]. eexists. split; [done|]. split; [|by constructor]. cbn [ledger push_event set_events set_calendar set_ledger].
  destruct (unlock_rewards_spec next (ledger s) Hs) as (H1 & E1 & S1). set (l1 := unlock_rewards_for_epoch next (ledger s)) in *.
  set (l2 := set_economy _ l1). destruct (solvent_ext l1 l2 eq_refl eq_refl H1) as [H2 S2].
  destruct (finalize_retire_spec next l2 H2) as (H3 & E3 & S3). set (l3 := finalize_retire_for_epoch next l2) in *.
  destruct (transitions_spec next l3 H3) as (H4 & E4 & S4).
  apply boundary_keeps; [done|intros t; by rewrite S4, S3, S2, S1|..]; rewrite E4, E3; unfold l2; cbn; by rewrite E1.
Qed.

Lemma run_boundaries_spec `{Keccak} s :
  solvent (ledger s) -> boundary_room s ->
  exists s', run_boundaries s = Some s' /\ boundary (ledger s) (ledger s') /\ same_tip s s'.
Proof.
  intros Hs R. unfold run_boundaries.
  assert (exists s1, (if (0 <? st_slot s)%Z && (st_slot s mod SUB_EPOCH_SLOTS =? 0)%Z then close_sub_epoch s else Some s) = Some s1 /\
    boundary (ledger s) (ledger s1) /\ same_tip s s1 /\ epoch_index (calendar s1) = epoch_index (calendar s) /\
    annual_inflation_ppb (calendar s1) = annual_inflation_ppb (calendar s)) as (s1 & E1 & B1 & T1 & X1 & X2).
  { destruct (_ && _); [by apply close_sub_epoch_spec|]. eexists. split; [done|]. split; [by apply boundary_refl|].
    split; [by constructor|done]. }
  rewrite E1. cbn [mbind option_bind]. clear E1. destruct (_ && _); [|by exists s1].
  destruct (close_epoch_spec s1 (proj1 B1)) as (s2 & E2 & B2 & T2); [rewrite X1; apply R|rewrite X2; apply R|].
  exists s2. split; [done|]. split; [by eapply boundary_trans|by eapply same_tip_trans].
Qed.

(** ** The candidate of a slot *)

(** What building the block [b] did to the state. *)
Record candidate (s : ProtocolState) (b : Block) (s1 : ProtocolState) (issued : Z) : Prop := {
  ca_solvent : solvent (ledger s1);
  ca_slot : st_slot s1 = st_slot s;
  ca_chain : chain s1 = chain s;
  ca_calendar : calendar s1 = calendar s;
  ca_result : current_result (turn s1) = current_result (turn s);
  ca_issued : (0 <= issued <= Z.max 0 (base_reward_per_block_quarks (calendar s)))%Z;
  ca_supply : forall token, supply token (ledger s1) =
    (supply token (ledger s) - tx_sum (burned token) (bk_transactions b) +
     if (token =? TOKEN_ETX_ID)%Z then issued else 0)%Z;
  ca_burn : e_burn_this_sub_epoch (economy (ledger s1)) =
    saturating_add U128 (e_burn_this_sub_epoch (economy (ledger s))) (tx_sum t_fee_quarks (bk_transactions b)) \/
    (bk_transactions b = [] /\ e_burn_this_sub_epoch (economy (ledger s1)) = e_burn_this_sub_epoch (economy (ledger s)));
  ca_fees : counted (e_fees_burned_total (economy (ledger s))) (tx_sum t_fee_quarks (bk_transactions b))
    (e_fees_burned_total (economy (ledger s1)));
  ca_tickets : counted (e_ticket_burned_total (economy (ledger s))) (tx_sum ticket_cost (bk_transactions b))
    (e_ticket_burned_total (economy (ledger s1)));
  ca_base : counted (e_base_issuance_total (economy (ledger s))) issued (e_base_issuance_total (economy (ledger s1)));
  ca_offset : e_burn_offset_total (economy (ledger s1)) = e_burn_offset_total (economy (ledger s))
}.

Lemma candidate_net s b s1 issued :
  candidate s b s1 issued -> unsaturated (economy (ledger s1)) ->
  net (ledger s1) = (net (ledger s) +
    tx_sum (fun t => if (fee_token t =? TOKEN_ETX_ID)%Z then 0 else t_fee_quarks t) (bk_transactions b))%Z.
Proof.
  intros C (U1 & U2 & U3). unfold net. rewrite (ca_supply _ _ _ _ C), (ca_offset _ _ _ _ C), Z.eqb_refl.
  rewrite (proj2 (ca_fees _ _ _ _ C) U1), (proj2 (ca_tickets _ _ _ _ C) U2), (proj2 (ca_base _ _ _ _ C) U3).
  assert (forall txs, tx_sum (burned TOKEN_ETX_ID) txs +
    tx_sum (fun t => if (fee_token t =? TOKEN_ETX_ID)%Z then 0 else t_fee_quarks t) txs =
    tx_sum t_fee_quarks txs + tx_sum ticket_cost txs)%Z as E; [|specialize (E (bk_transactions b)); lia].
  induction txs as [|t txs IH]; [done|]. cbn [tx_sum]. unfold burned at 1. rewrite Z.eqb_refl.
  destruct (Z.eqb_spec TOKEN_ETX_ID (fee_token t)) as [<-|Hne]; [rewrite Z.eqb_refl|rewrite (proj2 (Z.eqb_neq _ _)) by done];
    lia.
Qed.

Section Candidate.
  Context {KE : Keccak} {HX : Hex} {HE : HexEncode} {VJ : V1Json} {UN : Unicode} {UL : UnicodeLaws UN} {KC : K256} {RG : Rng}.

Lemma build_block_inv s kind p ticket txs gas data b :
  build_block s kind p ticket txs gas data = Some b ->
  bk_transactions b = txs /\ bk_proposer b = p /\ bk_protocol_data b = data /\ Block_slot b = st_slot s /\
  Block_kind b = kind /\ validate_commitments b = true /\
  canonical_parent_hash (st_slot s) s = Some (parent_hash (bk_header b)).
Proof.
  unfold build_block, Block_new. intros (parent & Hp & E)%bind_Some. apply bind_Some in E as (root & _ & E). revert E.
  cbv zeta. case_match eqn:V; [|done]. intros [= <-]. done.
Qed.

(** The state before [build_block] is called by [validator_block]. *)
Lemma validator_state s f new l :
  solvent (ledger s) -> Forall wf_tx (mempool (pools s)) -> (0 <= base_reward_per_block_quarks (calendar s))%Z ->
  (supply TOKEN_ETX_ID (ledger s) + base_reward_per_block_quarks (calendar s) < U128)%Z ->
  filled (st_slot s) (mempool (pools s)) (ledger s) 0 0 [] f new ->
  produced_block (current_leader (turn s)) (set_economy (set_e_fees (f_fees f) (economy (f_ledger f))) (f_ledger f)) = Some l ->
  let s1 := set_ledger (issue_reward (current_leader (turn s)) (calendar s) l)
    (set_pools (set_mempool (f_pool f) (pools s)) s) in
  forall b, bk_transactions b = f_transactions f -> exists issued, candidate s b s1 issued.
Proof.
  intros H F Hr Hmax Fi Hp s1 b Hb. pose proof (fi_transactions _ _ _ _ _ _ _ _ Fi) as Ht. cbn [app] in Ht.
  destruct (fi_pool _ _ _ _ _ _ _ _ Fi) as (consumed & Epool & Hsub).
  assert (Forall wf_tx new) as Fn.
  { rewrite Epool in F. apply Forall_app in F as [F _]. rewrite Forall_forall in F. apply Forall_forall.
    intros t Ht'. apply F. by apply (sublist_subseteq _ _ Hsub). }
  assert (0 <= tx_sum t_fee_quarks new)%Z as Hfee
    by (apply tx_sum_nonneg; eapply Forall_impl; [exact Fn|]; apply fee_nonneg).
  assert (forall token, 0 <= tx_sum (burned token) new)%Z as Hburn.
  { intros token. apply tx_sum_nonneg. eapply Forall_impl; [exact Fn|]. intros t W. unfold burned.
    pose proof (fee_nonneg t W). pose proof (ticket_cost_nonneg t W). repeat destruct (_ =? _)%Z; lia. }
  destruct (fi_fees _ _ _ _ _ _ _ _ Fi) as [Ef _]. set (l0 := set_economy _ (f_ledger f)) in *.
  destruct (solvent_ext (f_ledger f) l0 eq_refl eq_refl (fi_solvent _ _ _ _ _ _ _ _ Fi)) as [H0 S0].
  destruct (produced_block_spec _ _ _ H0 Hp) as (H1 & E1 & S1 & V1).
  pose proof (fi_supply _ _ _ _ _ _ _ _ Fi) as Sf.
  destruct (issue_reward_spec (current_leader (turn s)) (calendar s) l H1 Hr) as (H2 & E2 & S2).
  { rewrite S1, S0, Sf. specialize (Hburn TOKEN_ETX_ID). lia. }
  set (issued := if has_validator (current_leader (turn s)) l then base_reward_per_block_quarks (calendar s) else 0%Z) in *.
  exists issued. destruct (spent_all_fields new (economy (ledger s)) Fn) as (A1 & A2 & A3 & A4 & A5).
  pose proof (fi_economy _ _ _ _ _ _ _ _ Fi) as Ee.
  assert (economy l = set_e_fees (f_fees f) (fold_left (fun e t => spent t e) new (economy (ledger s)))) as El
    by (rewrite E1; unfold l0; cbn [economy set_economy]; by rewrite Ee).
  assert (0 <= issued)%Z as Hi by (unfold issued; destruct (has_validator _ l); lia).
  unfold s1. constructor; rewrite ?Hb, ?Ht; cbn [ledger st_slot chain calendar turn set_ledger set_pools];
    try done; rewrite ?E2.
  - unfold issued. destruct (has_validator _ l); lia.
  - intros token. rewrite S2, S1, S0, Sf. lia.
  - left. destruct (has_validator _ l); cbn; rewrite El; cbn; rewrite A1, Ef; done.
  - rewrite <- A2. assert (f_fees f = tx_sum t_fee_quarks new) as <- by done.
    destruct (has_validator _ l); cbn [e_fees_burned_total set_e_issued]; rewrite El; apply counted_add; lia.
  - destruct (has_validator _ l); cbn [e_ticket_burned_total set_e_issued]; rewrite El; exact A5.
  - rewrite <- A3. unfold issued. destruct (has_validator _ l); cbn; rewrite El; cbn; [by apply counted_add|apply counted_same].
  - destruct (has_validator _ l); cbn; rewrite El; cbn; done.
Qed.
(** A candidate without transactions that leaves supply and counters alone. *)
Lemma empty_candidate s b s1 :
  solvent (ledger s1) -> (forall token, supply token (ledger s1) = supply token (ledger s)) ->
  economy (ledger s1) = economy (ledger s) -> bk_transactions b = [] ->
  st_slot s1 = st_slot s -> chain s1 = chain s -> calendar s1 = calendar s ->
  current_result (turn s1) = current_result (turn s) -> candidate s b s1 0.
Proof.
  intros H Hs He Hb ? ? ? ?. constructor; rewrite ?Hb, ?He; cbn [tx_sum]; try done; try apply counted_same; try lia; [|by right].
  intros t. rewrite Hs. destruct (_ =? _)%Z; lia.
Qed.

Lemma punish_miss_spec leader c l l' :
  solvent l -> punish_miss leader c l = Some l' ->
  solvent l' /\ economy l' = economy l /\ forall token, supply token l' = supply token l.
Proof.
  intros H. unfold punish_miss. destruct (validator_by_id leader l) as [v|]; [|by intros [= <-]].
  intros (m & _ & E)%bind_Some. destruct (10 <=? m)%Z.
  - apply bind_Some in E as (until & _ & [= <-]).
    match goal with |- solvent (on_validator _ ?f _) /\ _ => destruct (on_validator_keeps leader f l H) as [? ?]; [done..|] end.
    done.
  - injection E as <-. destruct (on_validator_keeps leader (set_v_miss_counter m) l H) as [? ?]; done.
Qed.

Lemma deactivate_keeps s :
  ledger (deactivate_pbm_if_ready s) = ledger s /\ st_slot (deactivate_pbm_if_ready s) = st_slot s /\
  chain (deactivate_pbm_if_ready s) = chain s /\ calendar (deactivate_pbm_if_ready s) = calendar s /\
  current_result (turn (deactivate_pbm_if_ready s)) = current_result (turn s).
Proof. unfold deactivate_pbm_if_ready. by destruct (_ =? _)%nat. Qed.

Lemma run_pbm_spec s :
  solvent (ledger s) -> Forall wf_tx (pbm_pool (pools s)) -> exists s1 gas fees txs,
  run_pbm_tx s = Some (s1, gas, fees, txs) /\ txs ⊆ pbm_pool (pools s) /\ (length txs <= 1)%nat /\
  gas = tx_sum t_gas txs /\ fees = tx_sum t_fee_quarks txs /\
  forall b, bk_transactions b = txs -> candidate s b s1 0.
Proof.
  intros H F. unfold run_pbm_tx.
  destruct (i ← select_pbm_tx_index s; t ← pbm_pool (pools s) !! i; Some (i, t)) as [[i t]|] eqn:E.
  2: { do 4 eexists. split; [done|]. split_and!; [by apply list_subseteq_nil|simpl; lia|done..|].
       intros b Hb. by apply empty_candidate. }
  apply bind_Some in E as (i' & _ & E). apply bind_Some in E as (t' & Ht & [= -> ->]). rewrite Forall_forall in F.
  pose proof (F t (list_elem_of_lookup_2 _ _ _ Ht)) as W. cbv zeta. cbn [ledger set_pools].
  destruct (execute_pbm_spec t (ledger s) H W) as (l & ex & -> & H1 & Hs & He). cbn [mbind option_bind].
  pose proof (fee_nonneg t W). destruct ex.
  - do 4 eexists. split; [done|]. split; [|split; [simpl; lia|split; [simpl; lia|split; [simpl; lia|]]]].
    { intros x ->%list_elem_of_singleton. by apply list_elem_of_lookup_2 in Ht. }
    intros b Hb. set (l' := set_economy _ l). destruct (solvent_ext l l' eq_refl eq_refl H1) as [H2 S2].
    destruct (spent_all_fields [t] (economy (ledger s))) as (A1 & A2 & A3 & A4 & A5); [by constructor|].
    cbn [fold_left] in *. rewrite <- He in *.
    constructor; rewrite ?Hb; cbn [ledger st_slot chain calendar turn set_ledger set_pools]; try done; try lia.
    + intros token. rewrite S2, Hs. cbn [tx_sum]. destruct (token =? TOKEN_ETX_ID)%Z; lia.
    + left. unfold l'. cbn. rewrite A1. f_equal. lia.
    + rewrite <- A2. cbn [tx_sum]. rewrite Z.add_0_r. by apply counted_add.
    + rewrite <- A3. apply counted_same.
  - do 4 eexists. split; [done|]. split_and!; [by apply list_subseteq_nil|simpl; lia|done..|].
    intros b Hb. apply empty_candidate; try done. intros token. cbn [ledger set_ledger]. rewrite Hs. lia.
Qed.

Lemma build_candidate_spec s r b s1 r1 :
  solvent (ledger s) -> Forall wf_tx (mempool (pools s)) -> Forall wf_tx (pbm_pool (pools s)) ->
  (0 <= base_reward_per_block_quarks (calendar s))%Z ->
  (supply TOKEN_ETX_ID (ledger s) + base_reward_per_block_quarks (calendar s) < U128)%Z ->
  build_candidate s r = Some (b, s1, r1) -> exists issued, candidate s b s1 issued.
Proof.
  intros H F1 F2 Hr Hmax. unfold build_candidate. destruct (_ =? _)%nat; [|destruct (is_local_leader s)].
  - intros ([b' s'] & E & [= <- <- <-])%bind_Some. unfold protocol_no_tickets_block in E.
    destruct (run_pbm_spec s H F2) as (s2 & gas & fees & txs & E2 & _ & _ & _ & _ & Hc). rewrite E2 in E.
    cbn [mbind option_bind] in E. cbv zeta in E. apply bind_Some in E as (b2 & Eb & [= -> <-]).
    apply build_block_inv in Eb as (Hb & _). specialize (Hc b' Hb). exists 0%Z.
    destruct (deactivate_keeps s2) as (D1 & D2 & D3 & D4 & D5).
    destruct Hc. constructor; rewrite ?D1, ?D2, ?D3, ?D4, ?D5; done.
  - unfold validator_block. intros (f & Ef & E)%bind_Some. cbv zeta in E. apply bind_Some in E as (l & El & E).
    apply bind_Some in E as (b' & Eb & [= <- <- <-]). apply build_block_inv in Eb as (Hb & _).
    destruct (fill_block_spec (st_slot s) (mempool (pools s)) (ledger s) 0 0 [] r H F1) as (f' & new & Ef' & Fi);
      [unfold MAX_BLOCK_GAS; lia|lia|done|]. rewrite Ef' in Ef. injection Ef as ->.
    by apply (validator_state s f new l).
  - intros ([b' s'] & E & [= <- <- <-])%bind_Some. unfold protocol_miss_block in E. cbv zeta in E. exists 0%Z.
    destruct (_ !=? _).
    + apply bind_Some in E as (b2 & Eb & [= -> <-]). apply build_block_inv in Eb as (Hb & _). by apply empty_candidate.
    + apply bind_Some in E as (l & El & E). apply bind_Some in E as (b2 & Eb & [= -> <-]).
      apply build_block_inv in Eb as (Hb & _). destruct (punish_miss_spec _ _ _ _ H El) as (H1 & E1 & S1).
      by apply empty_candidate.
Qed.
End Candidate.
