(* ===== verification/LegacyChain.v ===== *)
(** * The chain of the V1 node, slot after slot

    What [LegacySlot] and [LegacyPeer] do over time: the stored chain is linear
    and only grows ([linear_chain]), peers never touch it
    ([peer_message_safe]), a slot is all or nothing ([finish_slot_atomic]) and
    accounts for every quark it creates or destroys ([slot_conserved]). *)

From S2P Require Import Prelude Codec Crypto BlockCommitment LeaderSelection LegacyBlock LegacyState LegacySlot.
From S2P Require Import LegacyPeer LegacyLedger.

(** ** Linear chains *)

Section Linear.
  Context {KE : Keccak} {HX : Hex} {HE : HexEncode} {HL : HexLaws HX HE} {VJ : V1Json} {JL : V1JsonLaws VJ}.
  Context {UN : Unicode} {KC : K256} {RG : Rng}.

(** The block is valid and survives the wire. *)
Definition deliverable (b : Block) : Prop :=
  exists wire, Block_wire_bytes b = Some wire /\ Block_from_wire_bytes wire = Some b.

(** Consecutive slots from [k], each block naming the hash before it. *)
Fixpoint linked (parent : bytes) (k : Z) (cs : list Block) : Prop :=
  match cs with
  | [] => True
  | b :: rest => deliverable b /\ Block_slot b = k /\ parent_hash (bk_header b) = parent /\
      linked (Block_hash b) (k + 1) rest
  end.

Definition tip_hash (parent : bytes) (cs : list Block) : bytes :=
  default parent (Block_hash <$> last cs).

Lemma linked_snoc parent k cs b :
  linked parent k (cs ++ [b]) <-> linked parent k cs /\ deliverable b /\
    Block_slot b = (k + Z.of_nat (length cs))%Z /\ parent_hash (bk_header b) = tip_hash parent cs.
Proof.
  revert parent k. induction cs as [|c cs IH]; intros parent k.
  { unfold tip_hash. simpl. rewrite Z.add_0_r. tauto. }
  cbn [app linked length]. rewrite IH.
  assert (tip_hash (Block_hash c) cs = tip_hash parent (c :: cs)) as ->.
  { unfold tip_hash. destruct cs as [|x cs _] using rev_ind; [done|]. by rewrite app_comm_cons, !last_snoc. }
  replace (k + 1 + Z.of_nat (length cs))%Z with (k + Z.of_nat (S (length cs)))%Z by lia. tauto.
Qed.

Lemma linked_lookup parent k cs i b : linked parent k cs -> cs !! i = Some b ->
  deliverable b /\ Block_slot b = (k + Z.of_nat i)%Z.
Proof.
  revert parent k i. induction cs as [|c cs IH]; intros parent k i; [done|]. intros (D & Hs & _ & Hl).
  destruct i as [|i]; [intros [= ->]; split; [done|lia]|]. intros Hi. destruct (IH _ _ _ Hl Hi) as [? ?]. split; [done|lia].
Qed.

(** The stored chain is the list [cs] and the active slot is the next one. *)
Record linear (cs : list Block) (s : ProtocolState) : Prop := {
  ln_linked : linked ZERO_HASH 0 cs;
  ln_blocks : forall k, c_blocks (chain s) !! k = if (0 <=? k)%Z then cs !! Z.to_nat k else None;
  ln_index : forall h k, c_block_hash_to_number (chain s) !! h = Some k ->
    exists b, c_blocks (chain s) !! k = Some b /\ Block_hash b = h;
  ln_indexed : forall b, b ∈ cs -> is_Some (c_block_hash_to_number (chain s) !! Block_hash b);
  ln_history : c_history (chain s) = take 50 (reverse cs);
  ln_slot : st_slot s = Z.of_nat (length cs);
  ln_result : current_result (turn s) = None
}.

Lemma linear_same_tip cs s s' : linear cs s -> same_tip s s' -> linear cs s'.
Proof. intros [] [E1 E2 E3 E4 E5]. constructor; rewrite ?E1, ?E2, ?E3, ?E4, ?E5; done. Qed.

Lemma max_slot_spec (m : gmap Z Block) :
  match max_slot m with
  | None => m = ∅
  | Some k => is_Some (m !! k) /\ forall j, is_Some (m !! j) -> (j <= k)%Z
  end.
Proof.
  unfold max_slot. apply (map_fold_weak_ind (fun (acc : option Z) (m : gmap Z Block) => match acc with
    | None => m = ∅ | Some k => is_Some (m !! k) /\ forall j, is_Some (m !! j) -> (j <= k)%Z end)); [done|].
  intros i b m' acc Hn H. destruct acc as [k|].
  - destruct H as [Hk Hall]. split.
    + destruct (Z.max_spec i k) as [[_ ->]|[_ ->]]; [|rewrite lookup_insert_eq; eauto].
      destruct (decide (i = k)) as [->|]; [rewrite lookup_insert_eq; eauto|by rewrite lookup_insert_ne].
    + intros j. destruct (decide (i = j)) as [->|]; [lia|]. rewrite lookup_insert_ne by done. intros ?%Hall. lia.
  - subst m'. split; [rewrite lookup_insert_eq; eauto|]. intros j. destruct (decide (i = j)) as [->|]; [lia|].
    rewrite lookup_insert_ne, lookup_empty by done. intros [? ?]. done.
Qed.

Lemma linear_lookup cs s i : linear cs s -> c_blocks (chain s) !! Z.of_nat i = cs !! i.
Proof. intros L. rewrite (ln_blocks _ _ L), (proj2 (Z.leb_le _ _)), Nat2Z.id by lia. done. Qed.

Lemma linear_parent cs s : linear cs s -> canonical_parent_hash (st_slot s) s = Some (tip_hash ZERO_HASH cs).
Proof.
  intros L. unfold canonical_parent_hash, tip_hash. rewrite (ln_slot _ _ L).
  destruct cs as [|c cs] using rev_ind; [done|]. rewrite length_app, last_snoc. cbn [length fmap option_fmap option_map default].
  rewrite (proj2 (Z.eqb_neq _ _)) by lia.
  replace (saturating_sub _ 1) with (Z.of_nat (length cs)) by (unfold saturating_sub; lia).
  rewrite (linear_lookup _ _ _ L), lookup_app_r, Nat.sub_diag by lia. done.
Qed.

Lemma linear_fresh cs s : linear cs s -> c_blocks (chain s) !! st_slot s = None.
Proof. intros L. rewrite (ln_slot _ _ L), (linear_lookup _ _ _ L). apply lookup_ge_None_2. lia. Qed.

Lemma linear_active cs s : linear cs s -> (Z.of_nat (length cs) < U64)%Z -> prevalidate_active_linear_slot s = Ok ().
Proof.
  intros L Hn. unfold prevalidate_active_linear_slot. pose proof (max_slot_spec (c_blocks (chain s))) as M.
  rewrite (linear_fresh _ _ L). rewrite (fail_if_false (bool_decide (is_Some None))) by (by apply bool_decide_eq_false; intros []).
  rewrite fail_if_false; [done|]. apply neq_dec_false. rewrite (ln_slot _ _ L).
  destruct (max_slot _) as [k|].
  - destruct M as [[b Hb] Hmax]. rewrite (ln_blocks _ _ L) in Hb. destruct (Z.leb_spec 0 k); [|done].
    apply lookup_lt_Some in Hb. assert (Z.of_nat (length cs - 1) <= k)%Z.
    { apply Hmax. rewrite (linear_lookup _ _ _ L). apply lookup_lt_is_Some. lia. }
    unfold saturating_add. lia.
  - destruct cs as [|c cs]; [done|]. pose proof (linear_lookup _ _ 0 L) as E. by rewrite M, lookup_empty in E.
Qed.

(** ** What the parts of a slot leave alone *)

Lemma build_candidate_tip s r b s1 r1 :
  build_candidate s r = Some (b, s1, r1) ->
  chain s1 = chain s /\ st_slot s1 = st_slot s /\ current_result (turn s1) = current_result (turn s) /\
  remote_slot_results s1 = remote_slot_results s.
Proof.
  unfold build_candidate. destruct (_ =? _)%nat; [|destruct (is_local_leader s)].
  - intros ([b' s'] & E & [= <- <- <-])%bind_Some. unfold protocol_no_tickets_block in E.
    apply bind_Some in E as ([[[s2 gas] fees] txs] & E2 & E). cbv zeta in E. apply bind_Some in E as (b2 & _ & [= -> <-]).
    assert (forall s, remote_slot_results (deactivate_pbm_if_ready s) = remote_slot_results s) as D0
      by (intros s0; unfold deactivate_pbm_if_ready; by destruct (_ =? _)%nat).
    destruct (deactivate_keeps s2) as (_ & -> & -> & _ & ->). rewrite D0. unfold run_pbm_tx in E2.
    destruct (i ← select_pbm_tx_index s; t ← pbm_pool (pools s) !! i; Some (i, t)) as [[i t]|]; [|by injection E2 as <-].
    cbv zeta in E2. apply bind_Some in E2 as ([l ex] & _ & E2). by destruct ex; injection E2 as <-.
  - unfold validator_block. intros (f & _ & E)%bind_Some. cbv zeta in E. apply bind_Some in E as (l & _ & E).
    by apply bind_Some in E as (b' & _ & [= <- <- <-]).
  - intros ([b' s'] & E & [= <- <- <-])%bind_Some. unfold protocol_miss_block in E. cbv zeta in E.
    destruct (_ !=? _); [by apply bind_Some in E as (b2 & _ & [= -> <-])|].
    apply bind_Some in E as (l & _ & E). by apply bind_Some in E as (b2 & _ & [= -> <-]).
Qed.

Lemma run_boundaries_tip s s' :
  run_boundaries s = Some s' -> same_tip s s' /\ remote_slot_results s' = remote_slot_results s.
Proof.
  assert (forall s s', close_sub_epoch s = Some s' -> same_tip s s' /\ remote_slot_results s' = remote_slot_results s) as H1.
  { intros x x' (l & _ & E)%bind_Some. cbv zeta in E. apply bind_Some in E as (i & _ & [= <-]). split; [by constructor|done]. }
  assert (forall s s', close_epoch s = Some s' -> same_tip s s' /\ remote_slot_results s' = remote_slot_results s) as H2.
  { intros x x' (e & _ & E)%bind_Some. apply bind_Some in E as (c & _ & [= <-]). split; [by constructor|done]. }
  unfold run_boundaries. intros (s1 & E1 & E2)%bind_Some.
  assert (same_tip s s1 /\ remote_slot_results s1 = remote_slot_results s) as [T1 R1].
  { destruct (_ && _) in E1; [by apply H1|]. injection E1 as <-. split; [by constructor|done]. }
  destruct (_ && _) in E2; [|by injection E2 as <-]. apply H2 in E2 as [T2 R2].
  split; [by eapply same_tip_trans|congruence].
Qed.

Lemma prevalidate_tip_inv s b u :
  prevalidate_linear_tip s b = Ok u ->
  deliverable b /\ Block_slot b = st_slot s /\ c_blocks (chain s) !! st_slot s = None /\
  canonical_parent_hash (st_slot s) s = Some (parent_hash (bk_header b)).
Proof.
  unfold prevalidate_linear_tip, prevalidate_active_linear_slot. intros H. inv_ok.
  split; [eexists; split; [done|]; congruence|]. split; [done|]. split; [by apply eq_None_not_Some|].
  unfold canonical_parent_hash. destruct (_ =? _)%Z; inv_ok; congruence.
Qed.

Definition keep_50 (l : list Block) : list Block := if (50 <? length l)%nat then removelast l else l.

(** What recording the block [b] changes of the chain. *)
Record appended (b : Block) (s s' : ProtocolState) : Prop := {
  ap_blocks : c_blocks (chain s') = <[st_slot s := b]> (c_blocks (chain s));
  ap_index : c_block_hash_to_number (chain s') = <[Block_hash b := st_slot s]> (c_block_hash_to_number (chain s));
  ap_history : c_history (chain s') = keep_50 (b :: c_history (chain s));
  ap_slot : st_slot s' = st_slot s;
  ap_result : current_result (turn s') = Some b;
  ap_remote : remote_slot_results s' = remote_slot_results s
}.

Lemma record_tip_inv s b s' :
  record_linear_tip b s = Some (Ok s') ->
  prevalidate_linear_tip s b = Ok () /\ current_result (turn s) = None /\ appended b s s' /\
  ledger s' = ledger s /\ calendar s' = calendar s /\ pools s' = pools s.
Proof.
  unfold record_linear_tip. destruct (prevalidate_linear_tip s b) as [[]|] eqn:P; [|done].
  destruct (prevalidate_tip_inv _ _ _ P) as (_ & Hs & Hfresh & _).
  case_bool_decide as Hr; [done|]. intros (live & _ & E)%bind_Some. cbv zeta in E.
  unfold record_block in E. destruct (negb _); [done|]. cbv zeta in E. cbn [chain set_chain set_turn turn] in E.
  revert E. cbn [c_blocks set_c_liveness set_c_blocks_this_sub_epoch c_block_hash_to_number]. rewrite Hs, Hfresh.
  intros [= <-]. split; [done|]. split; [by apply eq_None_not_Some|].
  split; [|by destruct (Block_transaction_hashes b)]. constructor; by destruct (Block_transaction_hashes b).
Qed.

Lemma finish_slot_inv persisted s r s' r' sent :
  finish_slot persisted s r = Some (s', r', sent) ->
  match sent with
  | None => r' = r /\ exists e, s' = push_event e (drop_remote s)
  | Some b => persisted = Ok () /\ is_Some (canonical_parent_hash (st_slot (drop_remote s)) (drop_remote s)) /\
      exists s1 s2, build_candidate (drop_remote s) r = Some (b, s1, r') /\
        record_linear_tip b s1 = Some (Ok s2) /\ run_boundaries s2 = Some s'
  end.
Proof.
  unfold finish_slot. cbv zeta. destruct (canonical_parent_hash _ _) as [parent|]; [|intros [= <- <- <-]; eauto].
  destruct (prevalidate_active_linear_slot _) as [[]|e] eqn:A; [|intros [= <- <- <-]; eauto].
  intros (staged & Es & E)%bind_Some. destruct staged as [[[b c] cr]|e]; [|injection E as <- <- <-; eauto].
  destruct persisted as [[]|e]; [|injection E as <- <- <-; eauto].
  apply bind_Some in E as (w & _ & [= <- <- <-]). split; [done|]. split; [eauto|].
  unfold stage_local_slot in Es. rewrite A in Es. apply bind_Some in Es as ([[b1 s1] r1] & Eb & Es).
  destruct (prevalidate_linear_tip s1 b1) as [[]|]; [|done]. apply bind_Some in Es as (rec & Er & Es).
  destruct rec as [s2|]; [|done]. apply bind_Some in Es as (s3 & Ebd & [= <- <- <-]). eauto 10.
Qed.

Lemma drop_remote_fields s :
  chain (drop_remote s) = chain s /\ st_slot (drop_remote s) = st_slot s /\ ledger (drop_remote s) = ledger s /\
  turn (drop_remote s) = turn s /\ pools (drop_remote s) = pools s /\ calendar (drop_remote s) = calendar s /\
  local_validator_id (drop_remote s) = local_validator_id s /\
  remote_slot_results (drop_remote s) = delete (st_slot s) (remote_slot_results s).
Proof.
  unfold drop_remote. destruct (remote_slot_results s !! st_slot s) eqn:E; [done|].
  split_and!; try done. symmetry. by apply delete_id.
Qed.

Lemma parent_ext k s s' : chain s' = chain s -> canonical_parent_hash k s' = canonical_parent_hash k s.
Proof. unfold canonical_parent_hash. by intros ->. Qed.

(** A finished slot records one block on the chain it started with. *)
Lemma finish_slot_appends persisted s r s' r' b :
  finish_slot persisted s r = Some (s', r', Some b) ->
  deliverable b /\ Block_slot b = st_slot s /\ canonical_parent_hash (st_slot s) s = Some (parent_hash (bk_header b)) /\
  c_blocks (chain s) !! st_slot s = None /\ current_result (turn s) = None /\ appended b (drop_remote s) s'.
Proof.
  intros (_ & _ & s1 & s2 & Eb & Er & Ebd)%finish_slot_inv.
  destruct (drop_remote_fields s) as (D1 & D2 & _ & D4 & _).
  destruct (build_candidate_tip _ _ _ _ _ Eb) as (B1 & B2 & B3 & B4).
  destruct (record_tip_inv _ _ _ Er) as (P & R & A & _). destruct (prevalidate_tip_inv _ _ _ P) as (Hd & Hs & Hf & Hp).
  destruct (run_boundaries_tip _ _ Ebd) as [T T'].
  rewrite B1, B2, D1, D2 in Hf. rewrite B2, D2 in Hs. rewrite B2, D2, (parent_ext _ s) in Hp by congruence.
  rewrite B3, D4 in R. split_and!; try done.
  destruct A, T. constructor; congruence.
Qed.

(** ** The chain grows by one block at a time *)

Lemma history_grows b cs : keep_50 (b :: take 50 (reverse cs)) = take 50 (reverse (cs ++ [b])).
Proof.
  rewrite reverse_snoc. unfold keep_50. generalize (reverse cs). intros l. cbn [length]. rewrite length_take.
  destruct (Nat.ltb_spec 50 (S (50 `min` length l))) as [Hlt|Hge].
  - rewrite removelast_firstn_len. cbn [length pred]. rewrite length_take, Nat.min_l by lia.
    change (take 50 (b :: ?x)) with (b :: take 49 x). by rewrite take_take.
  - change (take 50 (b :: l)) with (b :: take 49 l). f_equal. by rewrite !take_ge by lia.
Qed.

(** ** The chain grows by one block at a time *)

Lemma tick_appends cs persisted instant s r s1 r1 b s' :
  linear cs s -> finish_slot persisted s r = Some (s1, r1, Some b) -> start_next_slot instant s1 = Some s' ->
  linear (cs ++ [b]) s'.
Proof.
  intros L F N. destruct (finish_slot_appends _ _ _ _ _ _ F) as (Hd & Hs & Hp & Hf & Hr & []).
  destruct (drop_remote_fields s) as (D1 & D2 & _). rewrite D1, D2 in *. rewrite (linear_parent _ _ L) in Hp.
  injection Hp as Hp. unfold start_next_slot in N. apply bind_Some in N as (k & Hk & N). cbv zeta in N.
  destruct (select_leader _) as [leader ticket]. injection N as <-. unfold checked_add in Hk.
  destruct (_ <? _)%Z; [|done]. injection Hk as <-. pose proof (ln_slot _ _ L) as Hn.
  assert (forall k, <[st_slot s := b]> (c_blocks (chain s)) !! k =
    if (0 <=? k)%Z then (cs ++ [b]) !! Z.to_nat k else None) as Hblocks.
  { intros k. destruct (decide (st_slot s = k)) as [<-|Hne].
    - rewrite lookup_insert_eq, Hn, (proj2 (Z.leb_le _ _)), Nat2Z.id, lookup_app_r, Nat.sub_diag by lia. done.
    - rewrite lookup_insert_ne, (ln_blocks _ _ L) by done. destruct (Z.leb_spec 0 k); [|done].
      destruct (decide (Z.to_nat k < length cs)%nat); [by rewrite lookup_app_l|].
      rewrite lookup_ge_None_2, lookup_ge_None_2; [done|rewrite length_app; simpl; lia|lia]. }
  constructor; cbn [chain st_slot turn current_result set_turn set_st_slot];
    rewrite ?ap_blocks0, ?ap_index0, ?ap_history0, ?ap_slot0; try done.
  - rewrite linked_snoc. split_and!; [apply L|done|lia|congruence].
  - intros h k. destruct (decide (Block_hash b = h)) as [<-|Hne].
    + rewrite lookup_insert_eq. intros [= <-]. exists b. by rewrite lookup_insert_eq.
    + rewrite lookup_insert_ne by done. intros Hi. destruct (ln_index _ _ L _ _ Hi) as (c & Hc & Hh). exists c. split; [|done].
      rewrite lookup_insert_ne; [done|]. intros <-. congruence.
  - intros c. rewrite elem_of_app, list_elem_of_singleton. intros [Hc| ->]; [|rewrite lookup_insert_eq; eauto].
    destruct (decide (Block_hash b = Block_hash c)) as [->|]; [rewrite lookup_insert_eq; eauto|].
    rewrite lookup_insert_ne by done. by apply (ln_indexed _ _ L).
  - rewrite (ln_history _ _ L). apply history_grows.
  - rewrite length_app, Hn. simpl. lia.
Qed.

Lemma events_same_tip s e : same_tip s (push_event e (drop_remote s)).
Proof. unfold drop_remote. destruct (_ !! _); by constructor. Qed.

Lemma tick_linear cs persisted instant s r s' r' :
  linear cs s -> tick_slot persisted instant s r = Some (s', r') -> exists new, linear (cs ++ new) s'.
Proof.
  intros L. unfold tick_slot. intros ([[s1 r1] sent] & F & E)%bind_Some. destruct sent as [b|].
  - apply bind_Some in E as (s2 & N & [= <- <-]). exists [b]. by eapply tick_appends.
  - injection E as <- <-. apply finish_slot_inv in F as (_ & e & ->). exists []. rewrite app_nil_r.
    eapply linear_same_tip; [exact L|]. apply events_same_tip.
Qed.

(** A peer's clock never moves the slot of a linear chain: the parent is missing. *)
Lemma bootstrap_noop cs now instant k started s :
  linear cs s -> bootstrap_slot_from_peer now instant k started s = (s, false).
Proof.
  intros L. unfold bootstrap_slot_from_peer. cbv zeta. destruct (_ =? _)%Z; [done|].
  set (target := saturating_add _ _ _). destruct (Z.leb_spec target (st_slot s)) as [|Ht]; [done|].
  assert (canonical_parent_hash target s = None) as ->; [|done]. rewrite (ln_slot _ _ L) in Ht.
  unfold canonical_parent_hash. rewrite (proj2 (Z.eqb_neq _ _)) by lia.
  rewrite (ln_blocks _ _ L), (proj2 (Z.leb_le _ _)) by (unfold saturating_sub; lia).
  rewrite lookup_ge_None_2; [done|]. unfold saturating_sub. lia.
Qed.

(** ** The node *)

Lemma resync_same_tip since instant s s' : maybe_resync_slot_from_anchor since instant s = Some s' -> same_tip s s'.
Proof.
  unfold maybe_resync_slot_from_anchor. destruct since as [ms|]; [|intros [= <-]; by constructor]. cbv zeta.
  intros (n & _ & E)%bind_Some. destruct (_ <? _)%Z; injection E as <-; by constructor.
Qed.

Lemma gossip_same_tip t s : same_tip s (accept_gossiped_tx t s).
Proof. unfold accept_gossiped_tx. cbv zeta. repeat case_match; by constructor. Qed.

Lemma retire_same_tip count s s' : request_local_ticket_retire count s = Some s' -> same_tip s s'.
Proof.
  unfold request_local_ticket_retire. destruct (local_validator_id s); [|intros [= <-]; by constructor]. cbv zeta.
  destruct (take _ _); [intros [= <-]; by constructor|]. intros (f & _ & [= <-])%bind_Some. by constructor.
Qed.

Lemma learn_same_tip mode id account bootstrap s : same_tip s (learn_validator_from_hello mode id account bootstrap s).
Proof. unfold learn_validator_from_hello. cbv zeta. repeat case_match; by constructor. Qed.

Lemma merge_snapshot_inv snapshot s :
  match merge_state_snapshot snapshot s with
  | Some s' => same_tip s s'
  | None => accounting_progress (economy (ledger s)) = None \/ accounting_progress (ss_economy snapshot) = None
  end.
Proof.
  unfold merge_state_snapshot. destruct (_ <? _)%Z; [by constructor|].
  destruct (accounting_progress (economy (ledger s))) as [lp|]; [|by left].
  destruct (accounting_progress (ss_economy snapshot)) as [sp|]; [|by right]. cbn [mbind option_bind]. cbv zeta.
  destruct (fold_left (merge_validator _) _ _) as [vs changed].
  match goal with |- context [let '(a, n) := ?e in _] => destruct e as [accts nonces] end.
  destruct (_ || _); [|by constructor]. unfold elect. destruct (select_leader _). by constructor.
Qed.

(** ** The node *)

(** Every way the state changes while the node runs: its slots, the datagrams
    and clocks of peers, the retirement of its tickets, and whatever else
    leaves the stored chain and the active slot alone (wallet requests,
    display). *)
Inductive node_step {SA : PeerAddr} : ProtocolState * rng -> ProtocolState * rng -> Prop :=
| step_slot persisted instant s r s' r' :
    tick_slot persisted instant s r = Some (s', r') -> node_step (s, r) (s', r')
| step_message now instant msg p p' s s' r :
    handle_message now instant msg p s = Some (p', s') -> node_step (s, r) (s', r)
| step_resync since instant s s' r :
    maybe_resync_slot_from_anchor since instant s = Some s' -> node_step (s, r) (s', r)
| step_retire count s s' r : request_local_ticket_retire count s = Some s' -> node_step (s, r) (s', r)
| step_other s s' r r' : same_tip s s' -> node_step (s, r) (s', r').

(** What one datagram can do. *)
Lemma message_outcome {SA : PeerAddr} cs now instant msg p s :
  linear cs s ->
  match handle_message now instant msg p s with
  | Some (p', s') => same_tip s s' /\ pb_seen p ⊆ pb_seen p'
  | None => exists snapshot, parse_state_snapshot msg = Some snapshot /\
      (accounting_progress (economy (ledger s)) = None \/ accounting_progress (ss_economy snapshot) = None)
  end.
Proof.
  intros L. unfold handle_message. destruct (reject_unsupported_canonical_ingress msg); [split; [by constructor|done]|].
  destruct (parse_hello msg) as [h|].
  - cbv zeta. set (s1 := learn_validator_from_hello _ _ _ _ s). assert (same_tip s s1) as T by apply learn_same_tip.
    destruct (_ && _); [|by split]. rewrite (bootstrap_noop cs) by (by eapply linear_same_tip). by split.
  - destruct (parse_state_snapshot msg) as [snapshot|].
    + pose proof (merge_snapshot_inv snapshot s) as M. destruct (merge_state_snapshot snapshot s); cbn [mbind option_bind];
        [by split|eauto].
    + destruct (parse_tx_msg msg) as [[id t]|]; [|split; [by constructor|done]].
      case_bool_decide; (split; [first [by constructor|apply gossip_same_tip]|set_solver]).
Qed.

Lemma node_step_linear {SA : PeerAddr} cs x y : linear cs x.1 -> node_step x y -> exists new, linear (cs ++ new) y.1.
Proof.
  intros L H. destruct H as [| now instant msg p p' s s' r E | | |]; cbn [fst] in *; [by eapply tick_linear| | | |];
    exists []; rewrite app_nil_r.
  - pose proof (message_outcome cs now instant msg p s L) as M. rewrite E in M. by eapply linear_same_tip, M.
  - eapply linear_same_tip, resync_same_tip; done.
  - eapply linear_same_tip, retire_same_tip; done.
  - by eapply linear_same_tip.
Qed.
End Linear.

(** ** The accounts of a slot *)

(** Room for what one slot can add to the counters. *)
Record slot_room (s : ProtocolState) : Prop := {
  sr_reward : (0 <= base_reward_per_block_quarks (calendar s))%Z;
  sr_k : (0 <= burn_offset_k_permille (calendar s))%Z;
  sr_burn : (0 <= e_burn_this_sub_epoch (economy (ledger s)))%Z;
  sr_supply : (supply TOKEN_ETX_ID (ledger s) + base_reward_per_block_quarks (calendar s) +
    burn_offset_k_permille (calendar s) * (e_burn_this_sub_epoch (economy (ledger s)) + U64) < U128)%Z;
  sr_offset : (0 <= e_burn_offset_total (economy (ledger s)))%Z /\ (e_burn_offset_total (economy (ledger s)) +
    burn_offset_k_permille (calendar s) * (e_burn_this_sub_epoch (economy (ledger s)) + U64) < U128)%Z;
  sr_fees : (e_fees_burned_total (economy (ledger s)) + U64 < U128)%Z;
  sr_tickets : (e_ticket_burned_total (economy (ledger s)) + supply TOKEN_ETX_ID (ledger s) +
    base_reward_per_block_quarks (calendar s) < U128 - 1)%Z;
  sr_base : (e_base_issuance_total (economy (ledger s)) + base_reward_per_block_quarks (calendar s) < U128 - 1)%Z;
  sr_sub_epoch : (sub_epoch_index (calendar s) + 1 < U64)%Z;
  sr_epoch : (epoch_index (calendar s) + 1 < U64)%Z;
  sr_inflation : (annual_inflation_ppb (calendar s) * 9 < U64)%Z
}.

Lemma supply_nonneg token l : solvent l -> (0 <= supply token l)%Z.
Proof.
  intros H. unfold supply. pose proof (account_sum_bounds token [] (accounts l) (so_balances _ H)).
  pose proof (vault_sum_nonneg _ (so_vaults _ H)). destruct (_ =? _)%Z; lia.
Qed.

Lemma tx_sum_le f g txs : Forall (fun t => (f t <= g t)%Z) txs -> (tx_sum f txs <= tx_sum g txs)%Z.
Proof. induction 1; simpl; lia. Qed.

Lemma cost_le_burned t : wf_tx t -> (ticket_cost t <= burned TOKEN_ETX_ID t)%Z.
Proof. intros W. unfold burned. rewrite Z.eqb_refl. pose proof (fee_nonneg t W). destruct (_ =? _)%Z; lia. Qed.

(** What a candidate block does to the counters, exactly. *)
Lemma candidate_counts s b s1 issued :
  candidate s b s1 issued -> slot_room s -> Forall wf_tx (bk_transactions b) ->
  (tx_sum t_fee_quarks (bk_transactions b) < U64)%Z ->
  e_fees_burned_total (economy (ledger s1)) =
    (e_fees_burned_total (economy (ledger s)) + tx_sum t_fee_quarks (bk_transactions b))%Z /\
  e_ticket_burned_total (economy (ledger s1)) =
    (e_ticket_burned_total (economy (ledger s)) + tx_sum ticket_cost (bk_transactions b))%Z /\
  e_base_issuance_total (economy (ledger s1)) = (e_base_issuance_total (economy (ledger s)) + issued)%Z /\
  (0 <= issued <= base_reward_per_block_quarks (calendar s))%Z /\ boundary_room s1.
Proof.
  intros C [] F Hf. pose proof (ca_issued _ _ _ _ C) as Hi. rewrite Z.max_r in Hi by done.
  pose proof (ca_supply _ _ _ _ C TOKEN_ETX_ID) as Hs. rewrite Z.eqb_refl in Hs.
  pose proof (supply_nonneg TOKEN_ETX_ID _ (ca_solvent _ _ _ _ C)).
  assert (tx_sum ticket_cost (bk_transactions b) <= tx_sum (burned TOKEN_ETX_ID) (bk_transactions b))%Z
    by (apply tx_sum_le; eapply Forall_impl; [exact F|apply cost_le_burned]).
  assert (0 <= tx_sum ticket_cost (bk_transactions b))%Z
    by (apply tx_sum_nonneg; eapply Forall_impl; [exact F|apply ticket_cost_nonneg]).
  assert (0 <= tx_sum t_fee_quarks (bk_transactions b))%Z
    by (apply tx_sum_nonneg; eapply Forall_impl; [exact F|apply fee_nonneg]).
  split; [apply (counted_exact _ _ _ (ca_fees _ _ _ _ C)); lia|].
  split; [apply (counted_exact _ _ _ (ca_tickets _ _ _ _ C)); lia|].
  split; [apply (counted_exact _ _ _ (ca_base _ _ _ _ C)); lia|]. split; [lia|].
  assert (0 <= e_burn_this_sub_epoch (economy (ledger s1)) <= e_burn_this_sub_epoch (economy (ledger s)) + U64)%Z
    by (destruct (ca_burn _ _ _ _ C) as [->|[_ ->]]; unfold saturating_add; lia).
  constructor; rewrite ?(ca_calendar _ _ _ _ C), ?(ca_offset _ _ _ _ C); try done; nia.
Qed.

(** What a finished slot did to the ledger. *)
Record accounted (b : Block) (s s' : ProtocolState) (issued offset : Z) : Prop := {
  ac_solvent : solvent (ledger s');
  ac_issued : (0 <= issued <= base_reward_per_block_quarks (calendar s))%Z;
  ac_etx : supply TOKEN_ETX_ID (ledger s') = (supply TOKEN_ETX_ID (ledger s) -
    tx_sum (burned TOKEN_ETX_ID) (bk_transactions b) + issued + offset)%Z;
  ac_tokens : forall token, token <> TOKEN_ETX_ID ->
    supply token (ledger s') = (supply token (ledger s) - tx_sum (burned token) (bk_transactions b))%Z;
  ac_fees : e_fees_burned_total (economy (ledger s')) =
    (e_fees_burned_total (economy (ledger s)) + tx_sum t_fee_quarks (bk_transactions b))%Z;
  ac_tickets : e_ticket_burned_total (economy (ledger s')) =
    (e_ticket_burned_total (economy (ledger s)) + tx_sum ticket_cost (bk_transactions b))%Z;
  ac_base : e_base_issuance_total (economy (ledger s')) = (e_base_issuance_total (economy (ledger s)) + issued)%Z;
  ac_offset : e_burn_offset_total (economy (ledger s')) = (e_burn_offset_total (economy (ledger s)) + offset)%Z
}.

Section ChainProperties.
  Context {KE : Keccak} {HX : Hex} {HE : HexEncode} {HL : HexLaws HX HE} {VJ : V1Json} {JL : V1JsonLaws VJ}.
  Context {UN : Unicode} {UL : UnicodeLaws UN} {KC : K256} {RG : Rng} {SA : PeerAddr}.

Lemma slot_accounts s r b s1 r1 s2 s' :
  solvent (ledger s) -> Forall wf_tx (mempool (pools s)) -> Forall wf_tx (pbm_pool (pools s)) -> slot_room s ->
  build_candidate s r = Some (b, s1, r1) -> record_linear_tip b s1 = Some (Ok s2) -> run_boundaries s2 = Some s' ->
  exists issued offset, accounted b s s' issued offset.
Proof.
  intros H F1 F2 R Eb Er Ebd. pose proof R as []. destruct (record_tip_inv _ _ _ Er) as (P & _ & _ & El & Ec & _).
  destruct (prevalidate_tip_inv _ _ _ P) as ((w & Hw & Hd) & _). apply v1_wire_iff in Hd as (W & _ & _ & _).
  unfold Block_wire_bytes in Hw. destruct (validate_commitments b) eqn:V; [|done].
  apply commitments_iff in V; [|apply W]. destruct (vc_fees _ V) as [Hfee Hlt]. rewrite Hfee in Hlt.
  destruct (build_candidate_spec s r b s1 r1 H F1 F2) as [issued C]; [done|nia|done|].
  destruct (candidate_counts _ _ _ _ C R (wv_transactions _ W) Hlt) as (A1 & A2 & A3 & A4 & BR).
  assert (boundary_room s2) as BR2 by (destruct BR; constructor; rewrite ?El, ?Ec; done).
  assert (solvent (ledger s2)) as H2 by (rewrite El; apply C).
  destruct (run_boundaries_spec s2 H2 BR2) as (s3 & E3 & (B1 & B2 & B3 & B4 & B5 & B6) & _). rewrite E3 in Ebd. injection Ebd as ->.
  rewrite El in *. unfold net in B2. rewrite (ca_offset _ _ _ _ C) in B2.
  pose proof (ca_supply _ _ _ _ C TOKEN_ETX_ID) as Hs. rewrite Z.eqb_refl in Hs.
  exists issued, (e_burn_offset_total (economy (ledger s')) - e_burn_offset_total (economy (ledger s)))%Z.
  constructor; try done; try lia. intros t Ht. rewrite (B6 t Ht), (ca_supply _ _ _ _ C t), (proj2 (Z.eqb_neq _ _)) by done. lia.
Qed.

(** C9: the stored chain is linear.  From the empty chain, through any sequence of
    slots (with any storage answers, random draws and clocks), peer datagrams
    and other steps, the stored blocks are valid, deliverable over the
    wire, contiguous from slot 0 and linked by parent hashes, the hash index
    and the 50-block history describe them, the active slot is the next one,
    and no stored block is ever replaced or removed. *)
Theorem linear_chain cs s r s' r' :
  linear cs s -> rtc node_step (s, r) (s', r') -> exists new, linear (cs ++ new) s'.
Proof.
  intros L H. change s with (fst (s, r)) in L. change s' with (fst (s', r')).
  revert cs L. generalize (s, r) (s', r') H. clear - HL JL. intros x y H.
  induction H as [x|x y z S _ IH]; intros cs L; [exists []; by rewrite app_nil_r|].
  destruct (node_step_linear _ _ _ L S) as [n1 L1]. destruct (IH _ L1) as [n2 L2]. exists (n1 ++ n2). by rewrite app_assoc.
Qed.

(** C35: peers never touch the chain.  Whatever bytes a datagram holds (a block, a
    history, a hello with a later slot, a state snapshot, a transaction), the
    stored blocks, their index, the active slot and its result stay as they are,
    and ids once seen stay seen; the only other outcome is a panic, and only for
    a state snapshot whose totals (or the node's own) overflow [u128]. *)
Theorem peer_message_safe cs now instant msg p s :
  linear cs s ->
  match handle_message now instant msg p s with
  | Some (p', s') => same_tip s s' /\ pb_seen p ⊆ pb_seen p'
  | None => exists snapshot, parse_state_snapshot msg = Some snapshot /\
      (accounting_progress (economy (ledger s)) = None \/ accounting_progress (ss_economy snapshot) = None)
  end.
Proof. apply message_outcome. Qed.

(** C10: a slot is all or nothing.  When no block results, the state differs only in
    diagnostics and in the dropped remote result, and the random generator is
    untouched; when a block is sent, storage had accepted it, it passes the
    wire decoder, it stands on the canonical parent in a slot that had no
    block, and the new state records exactly that block. *)
Theorem finish_slot_atomic persisted s r s' r' sent :
  finish_slot persisted s r = Some (s', r', sent) ->
  match sent with
  | None => r' = r /\ exists e, s' = push_event e (drop_remote s)
  | Some b => persisted = Ok () /\ deliverable b /\ Block_slot b = st_slot s /\
      canonical_parent_hash (st_slot s) s = Some (parent_hash (bk_header b)) /\
      c_blocks (chain s) !! st_slot s = None /\ current_result (turn s) = None /\ appended b (drop_remote s) s'
  end.
Proof.
  intros E. pose proof (finish_slot_inv _ _ _ _ _ _ E) as I. destruct sent as [b|]; [|done].
  split; [apply I|]. by apply (finish_slot_appends persisted s r s' r').
Qed.

(** C11: every quark a slot creates or destroys is accounted for.  On a solvent
    ledger with room in the counters, a finished slot lowers the ETX supply by
    exactly the ETX fees and ticket costs of the block, raises it by at most one
    base reward and by the burn offset, and moves the four running totals by
    those amounts; other tokens lose only the fees paid in them.  The fee total
    counts the fees of every token. *)
Theorem slot_conserved persisted s r s' r' b :
  solvent (ledger s) -> Forall wf_tx (mempool (pools s)) -> Forall wf_tx (pbm_pool (pools s)) -> slot_room s ->
  finish_slot persisted s r = Some (s', r', Some b) -> exists issued offset, accounted b s s' issued offset.
Proof.
  intros H F1 F2 R (_ & _ & s1 & s2 & Eb & Er & Ebd)%finish_slot_inv.
  destruct (drop_remote_fields s) as (_ & _ & D3 & _ & D5 & D6 & _).
  destruct (slot_accounts (drop_remote s) r b s1 r' s2 s') as (issued & offset & []); try done; rewrite ?D3, ?D5; try done.
  { destruct R. constructor; rewrite ?D3, ?D6; done. }
  rewrite D3 in *. rewrite D6 in *. exists issued, offset. by constructor.
Qed.
End ChainProperties.
