(* ===== verification/LegacyCorrection.v ===== *)
(** * Late corrections of the V1 chain (src/src/app/consensus.rs)

    [record_slot] and [merge_slot_result] let a validator block replace a
    provisional result of the same slot, undo the penalty of the miss it
    replaces and recount the liveness of the epoch.  No input of the node
    reaches them while block import is disabled; [correction_only_at_tip] shows
    that they could be connected without breaking the links of the chain. *)

From S2P Require Import Prelude Codec Crypto BlockCommitment LeaderSelection LegacyBlock LegacyState LegacySlot.
From S2P Require Import LegacyPeer LegacyLedger LegacyChain.

(** [rebuild_liveness_from_history]: recount the last epoch of the history. *)
Definition recount (epoch : Z) (acc : option (gset Z * Z * Z)) (b : Block) : option (gset Z * Z * Z) :=
  '(counted, total, valid) ← acc;
  if negb (Block_slot b / EPOCH_SLOTS =? epoch)%Z || bool_decide (Block_slot b ∈ counted) then Some (counted, total, valid) else
  total ← checked_add U64 total 1;
  valid ← (if Block_kind b ==? Validator then checked_add U64 valid 1 else Some valid);
  Some ({[Block_slot b]} ∪ counted, total, valid).

Definition rebuild_liveness_from_history (s : ProtocolState) : option ProtocolState :=
  let entries := sort_by (fun a b => Block_slot a <=? Block_slot b)%Z (c_history (chain s)) in
  let epoch := match last entries with
    | Some b => (Block_slot b / EPOCH_SLOTS)%Z | None => l_epoch (c_liveness (chain s)) end in
  '(counted, total, valid) ← fold_left (recount epoch) entries (Some (∅, 0%Z, 0%Z));
  Some (set_chain (set_c_liveness (mk_liveness epoch counted total valid valid total) (chain s)) s).

(** The miss of the replaced block is forgiven; a cooldown it caused ends. *)
Definition forgiven (v : NodeValidator) : NodeValidator :=
  let v := if (0 <? v_miss_counter v)%Z then set_v_miss_counter (v_miss_counter v - 1) v else v in
  if (v_state v ==? PunishedCooldown) && (v_miss_counter v <? 10)%Z
  then set_v_state Inactive (set_v_cooldown_until_epoch None v) else v.

Definition revert_replaced_result (old new : Block) (l : Ledger) : Ledger :=
  if (Block_kind old !=? ProtocolMiss) || (Block_kind new !=? Validator) || (Block_leader old !=? Block_leader new)
  then l else
  match validator_by_id (Block_leader old) l with
  | None => l
  | Some v =>
      let misses := if (0 <? v_miss_counter v)%Z then (v_miss_counter v - 1)%Z else v_miss_counter v in
      let l := on_validator (Block_leader old) forgiven l in
      if (v_state v ==? PunishedCooldown) && (misses <? 10)%Z then refresh_validator_activation (v_id v) l else l
  end.

Definition result_of_slot (slot : Z) (s : ProtocolState) : option Block :=
  List.find (fun h => Block_slot h =? slot)%Z (c_history (chain s)).

Definition without_slot (slot : Z) (s : ProtocolState) : ProtocolState :=
  set_chain (set_c_history (List.filter (fun h => negb (Block_slot h =? slot)%Z) (c_history (chain s))) (chain s)) s.

Section Correction.
  Context `{KE : Keccak} `{HX : Hex} `{HE : HexEncode} `{VJ : V1Json}.

(** The flag is the [bool] of the source; [None] is an overflowing counter. *)
Definition record_slot (b : Block) (s : ProtocolState) : option (ProtocolState * bool) :=
  if negb (validate_block_commitments_and_parent s b) then Some (push_event (BlockRejected (Block_hash b)) s, false) else
  let s := set_turn (set_current_result (Some b) (turn s)) s in
  let replaced := result_of_slot (Block_slot b) s in
  let s := without_slot (Block_slot b) s in
  let s := match replaced with Some old => on_ledger (revert_replaced_result old b) s | None => s end in
  live ← update_liveness b (c_liveness (chain s));
  let c := set_c_liveness live (chain s) in
  let c := set_c_blocks_this_sub_epoch (c_blocks_this_sub_epoch c ++
    [if Block_kind b ==? Validator then bk_proposer b else None]) c in
  let '(s, recorded) := record_block b (set_chain c s) in
  if negb recorded then Some (s, false) else
  let s := set_chain (set_c_history (keep_50 (b :: c_history (chain s))) (chain s)) s in
  match replaced with
  | Some _ => s ← rebuild_liveness_from_history s; Some (s, true)
  | None => Some (s, true)
  end.

(** A validator block replaces a weaker result, anything fills a gap. *)
Definition should_apply (existing : option Block) (b : Block) : bool :=
  match existing with
  | Some old => (Block_kind old !=? Validator) && (Block_kind b ==? Validator)
  | None => true
  end.

Definition merge_slot_result (b : Block) (s : ProtocolState) : option ProtocolState :=
  let existing := result_of_slot (Block_slot b) s in
  if negb (should_apply existing b) then Some s else
  if existsb (fun p => Block_slot b <? p.1)%Z (map_to_list (c_blocks (chain s))) then Some s else
  if negb (validate_block_commitments_and_parent s b) then Some s else
  let s := without_slot (Block_slot b) s in
  let s := match existing with Some old => on_ledger (revert_replaced_result old b) s | None => s end in
  let '(s, recorded) := record_block b s in
  if negb recorded then Some s else
  let entries := take 50 (sort_by (fun x y => Block_slot y <=? Block_slot x)%Z (b :: c_history (chain s))) in
  s ← rebuild_liveness_from_history (set_chain (set_c_history entries (chain s)) s);
  Some (push_event (SlotCorrected (Block_slot b) (Block_kind b)) s).
End Correction.

(** ** Corrections and the links of the chain *)

Section CorrectionProperties.
  Context {KE : Keccak} {HX : Hex} {HE : HexEncode} {HL : HexLaws HX HE} {VJ : V1Json} {JL : V1JsonLaws VJ}.

(** The stored blocks are the list [cs]. *)
Definition stored (cs : list Block) (s : ProtocolState) : Prop :=
  forall k, c_blocks (chain s) !! k = if (0 <=? k)%Z then cs !! Z.to_nat k else None.

Lemma rebuild_blocks s s' : rebuild_liveness_from_history s = Some s' -> c_blocks (chain s') = c_blocks (chain s).
Proof. unfold rebuild_liveness_from_history. cbv zeta. intros ([[c t] v] & _ & [= <-])%bind_Some. done. Qed.

Lemma record_block_blocks b s s' : record_block b s = (s', true) ->
  c_blocks (chain s') = <[Block_slot b := b]> (c_blocks (chain s)).
Proof.
  unfold record_block. destruct (negb _); [done|]. cbv zeta. intros [= <-]. by destruct (Block_transaction_hashes b).
Qed.

(** Setting slot [i] of a list that ends there. *)
Lemma stored_set cs s b i m :
  stored cs s -> (length cs <= S i)%nat -> (i <= length cs)%nat -> m = <[Z.of_nat i := b]> (c_blocks (chain s)) ->
  forall k, m !! k = if (0 <=? k)%Z then (take i cs ++ [b]) !! Z.to_nat k else None.
Proof.
  intros H H1 H2 -> k. assert (length (take i cs) = i) as Hl by (rewrite length_take; lia).
  destruct (decide (Z.of_nat i = k)) as [<-|Hne].
  - rewrite lookup_insert_eq, (proj2 (Z.leb_le _ _)), Nat2Z.id, lookup_app_r, Hl, Nat.sub_diag by lia. done.
  - rewrite lookup_insert_ne, H by done. destruct (Z.leb_spec 0 k); [|done].
    destruct (decide (Z.to_nat k < i)%nat); [by rewrite lookup_app_l, lookup_take_lt by lia|].
    rewrite !lookup_ge_None_2; [done|rewrite length_app, Hl; simpl; lia|lia].
Qed.

Lemma linked_take parent k i cs : linked parent k cs -> linked parent k (take i cs).
Proof.
  revert parent k i. induction cs as [|c cs IH]; intros parent k [|i]; try done. intros (? & ? & ? & ?).
  cbn [take linked]. eauto.
Qed.

(** The parent of slot [i] is the last of the first [i] blocks. *)
Lemma stored_parent cs s i :
  stored cs s -> (i <= length cs)%nat -> canonical_parent_hash (Z.of_nat i) s = Some (tip_hash ZERO_HASH (take i cs)).
Proof.
  intros H Hi. unfold canonical_parent_hash, tip_hash. destruct i as [|j]; [done|].
  rewrite (proj2 (Z.eqb_neq _ _)) by lia. destruct (lookup_lt_is_Some_2 cs j Hi) as [c Hc].
  rewrite H, (proj2 (Z.leb_le _ _)) by (unfold saturating_sub; lia).
  replace (Z.to_nat (saturating_sub (Z.of_nat (S j)) 1)) with j by (unfold saturating_sub; lia).
  rewrite Hc, (take_S_r cs j c Hc), last_snoc. done.
Qed.

(** A late correction touches only the tip: on a chain of linked blocks a
    deliverable block either changes nothing stored or becomes the new last
    block, on top of its parent, dropping at most the former tip of its own
    slot, and the result is linked again. *)
Theorem correction_only_at_tip cs b s s' :
  linked ZERO_HASH 0 cs -> stored cs s -> deliverable b -> (0 <= Block_slot b)%Z -> merge_slot_result b s = Some s' ->
  stored cs s' \/
  exists i, Block_slot b = Z.of_nat i /\ (length cs <= S i)%nat /\ (i <= length cs)%nat /\
    stored (take i cs ++ [b]) s' /\ linked ZERO_HASH 0 (take i cs ++ [b]).
Proof.
  intros L H D H0. unfold merge_slot_result. cbv zeta. destruct (negb (should_apply _ _)); [intros [= <-]; by left|].
  destruct (existsb _ _) eqn:Ex; [intros [= <-]; by left|].
  destruct (validate_block_commitments_and_parent s b) eqn:V; [|intros [= <-]; by left]. cbn [negb].
  set (s1 := match result_of_slot _ s with Some old => _ | None => _ end).
  assert (c_blocks (chain s1) = c_blocks (chain s)) as E1 by (unfold s1; by destruct (result_of_slot _ s)).
  destruct (record_block b s1) as [s2 [|]] eqn:R; cbn [negb].
  2: { intros [= <-]. left. unfold record_block in R. destruct (negb _); [|done]. injection R as <-. intros k. by rewrite E1. }
  apply record_block_blocks in R. rewrite E1 in R.
  intros (s3 & B & [= <-])%bind_Some. apply rebuild_blocks in B. cbn [chain set_chain c_blocks set_c_history] in B.
  right. exists (Z.to_nat (Block_slot b)). rewrite Z2Nat.id by done.
  apply andb_true_iff in V as [_ V].
  assert (length cs <= S (Z.to_nat (Block_slot b)))%nat as Hge.
  { destruct (decide (length cs <= S (Z.to_nat (Block_slot b)))%nat); [done|]. exfalso.
    rewrite <- not_true_iff_false in Ex. apply Ex, existsb_exists.
    destruct (lookup_lt_is_Some_2 cs (S (Z.to_nat (Block_slot b)))) as [c Hc]; [lia|].
    exists (Block_slot b + 1, c)%Z. split; [|apply Z.ltb_lt; simpl; lia]. apply list_elem_of_In, elem_of_map_to_list.
    rewrite H, (proj2 (Z.leb_le _ _)) by lia. by replace (Z.to_nat (Block_slot b + 1)) with (S (Z.to_nat (Block_slot b))) by lia. }
  assert (Z.to_nat (Block_slot b) <= length cs)%nat as Hle.
  { destruct (decide (Z.to_nat (Block_slot b) <= length cs)%nat) as [|Hn]; [done|]. exfalso. revert V.
    unfold canonical_parent_hash. rewrite (proj2 (Z.eqb_neq _ _)) by lia.
    rewrite H, (proj2 (Z.leb_le _ _)), lookup_ge_None_2 by (unfold saturating_sub; lia). done. }
  split_and!; [done..| |].
  - intros k. cbn [chain push_event set_events]. rewrite B.
    apply (stored_set cs s b (Z.to_nat (Block_slot b))); [done..|]. by rewrite Z2Nat.id.
  - rewrite linked_snoc. split; [by apply linked_take|]. split; [done|].
    pose proof (stored_parent cs s _ H Hle) as P. rewrite Z2Nat.id in P by done. rewrite P in V.
    apply bool_decide_eq_true in V. rewrite length_take. split; [lia|done].
Qed.
End CorrectionProperties.
