(* ===== verification/LegacyProgress.v ===== *)
(** * When a slot of the V1 node ends in a block, and when it cannot

    [slot_progress] lists what a slot needs so that [finish_slot] installs a
    block, without a panic and without a refusal; the remaining theorems show
    that the needs on pending transactions and on the leader are real: a
    signature text that is not the decoder's stops the node at its slot, and a
    bootstrap transaction for another chain or a leader called [protocol] makes
    it panic. *)

From S2P Require Import Prelude Codec Crypto BlockCommitment LeaderSelection LegacyBlock LegacyState LegacySlot.
From S2P Require Import LegacyPeer LegacyLedger LegacyChain.

(** ** The block counters of the validators *)

(** No validator is about to overflow its [u32] block counter. *)
Definition quota (l : Ledger) : Prop := Forall (fun v => (v_blocks_this_sub_epoch v + 1 < U32)%Z) (validators l).

Lemma quota_same l l' : validators l' = validators l -> quota l -> quota l'.
Proof. unfold quota. by intros ->. Qed.

Lemma quota_on id f l : (forall v, v_blocks_this_sub_epoch (f v) = v_blocks_this_sub_epoch v) ->
  quota l -> quota (on_validator id f l).
Proof.
  intros Hf. unfold quota, on_validator. cbn [validators set_validators].
  induction 1 as [|v vs Hv F IH]; cbn [update_validator]; [constructor|].
  destruct (_ ==? _); constructor; rewrite ?Hf; done.
Qed.

Lemma quota_push v l : v_blocks_this_sub_epoch v = 0%Z -> quota l -> quota (set_validators (validators l ++ [v]) l).
Proof. intros E F. apply Forall_app. split; [done|]. constructor; [by rewrite E|constructor]. Qed.

Lemma quota_refresh id l : quota l -> quota (refresh_validator_activation id l).
Proof.
  apply quota_on. intros v. unfold activation. repeat (case_match; try done).
Qed.

Lemma quota_mint id n l : quota l -> quota (burn_and_mint_tickets id n l).
Proof. intros F. unfold burn_and_mint_tickets. cbv zeta. destruct (has_validator _ _); [done|]. by apply quota_push. Qed.

Section Quota.
  Context {HX : Hex} {HE : HexEncode} {VJ : V1Json} {UN : Unicode} {UL : UnicodeLaws UN} {KC : K256} {RG : Rng}.

Lemma quota_debit id token amount l l' b : debit_balance id token amount l = (l', b) -> quota l -> quota l'.
Proof.
  rewrite debit_balance_eq. cbv zeta. destruct (_ <? _)%Z; intros [= <- <-]; by apply quota_same.
Qed.

Lemma quota_credit id token amount l l' : credit_balance id token amount l = Some l' -> quota l -> quota l'.
Proof. rewrite credit_balance_eq. intros (b & _ & [= <-])%bind_Some. by apply quota_same. Qed.

(** Follow the ledger through its debits and credits. *)
Ltac quota_forward := repeat match goal with
  | H : debit_balance _ _ _ ?l = _, Q : quota ?l |- _ => apply (quota_debit _ _ _ _ _ _ H) in Q
  | H : credit_balance _ _ _ ?l = _, Q : quota ?l |- _ => apply (quota_credit _ _ _ _ _ H) in Q
  | H : credit_balance _ _ _ (on_validator ?id ?f ?l) = _, Q : quota ?l |- _ =>
      apply (quota_on id f) in Q; [|done]
  end.

Lemma execute_quota t l l' ex : execute_tx t l = Some (l', ex) -> quota l -> quota l'.
Proof.
  intros E Q. unfold execute_tx, execute_register, execute_buy_ticket, execute_wallet_to_vault, execute_vault_to_wallet,
    execute_transfer in E. cbv zeta in E.
  repeat (first [apply bind_Some in E as (? & ? & E) | case_match]; simplify_eq); quota_forward; try done;
    first [by apply quota_push | apply quota_refresh]; first [done | by apply quota_mint | by apply quota_on].
Qed.

Lemma fill_quota slot pool l gas fees txs r f :
  fill_block slot pool l gas fees txs r = Some f -> quota l -> quota (f_ledger f).
Proof.
  revert l gas fees txs r. induction pool as [|t pool IH]; intros l gas fees txs r; cbn [fill_block].
  { by intros [= <-]. }
  intros E Q. repeat (case_match; simplify_eq; try done); first [by eapply IH | by eapply execute_quota |
    eapply IH; [eassumption|]; by eapply execute_quota].
Qed.

Lemma produced_total leader l : quota l -> exists l', produced_block leader l = Some l'.
Proof.
  intros Q. unfold produced_block. destruct (validator_by_id leader l) as [v|] eqn:E; [|eauto].
  unfold quota in Q. rewrite Forall_forall in Q. specialize (Q v (proj1 (validator_by_id_elem _ _ _ E))).
  unfold checked_add. rewrite (proj2 (Z.ltb_lt _ _)) by done. cbn [mbind option_bind]. eauto.
Qed.
End Quota.

(** ** Building a valid block *)

Section BuildBlock.
  Context {KE : Keccak} {HX : Hex} {HE : HexEncode} {HL : HexLaws HX HE} {VJ : V1Json} {JL : V1JsonLaws VJ}.
  Context {UN : Unicode} {UL : UnicodeLaws UN} {KC : K256} {RG : Rng}.

Lemma root_total txs :
  Forall entry_ok txs -> (Z.of_nat (length txs) <= MAX_BLOCK_TRANSACTIONS)%Z ->
  exists root, v1_transaction_root txs = Some root /\ length root = 32%nat.
Proof.
  intros F Hn. assert (exists ids, mapM Tx_hash txs = Some ids) as [ids Hids].
  { clear Hn. induction F as [|t txs (_ & _ & [w Hw]) F [ids IH]]; [by exists []|]. unfold wire_entry in Hw.
    apply bind_Some in Hw as (bs & Hb & _).
    assert (Tx_hash t = Some (hash_with_domain TX_DOMAIN bs)) as E by (unfold Tx_hash; by rewrite Hb).
    simpl. rewrite E, IH. simpl. eauto. }
  unfold v1_transaction_root, ordered_transaction_root. rewrite Hids. cbn [mbind option_bind].
  pose proof (length_mapM _ _ _ Hids) as Hl. unfold MAX_BLOCK_TRANSACTIONS in Hn.
  rewrite (proj2 (Z.ltb_lt _ _)) by lia. eexists. split; [done|]. apply keccak256_length.
Qed.

(** What the transactions of a block must satisfy together. *)
Record packed (slot : Z) (txs : list Tx) (gas fees : Z) : Prop := {
  pk_entries : Forall entry_ok txs;
  pk_valid : Forall (fun t => t_chain_id t = V1_CHAIN_ID /\ (t_valid_after_slot t <= slot)%Z) txs;
  pk_count : (Z.of_nat (length txs) <= MAX_BLOCK_TRANSACTIONS)%Z;
  pk_gas : gas = tx_sum t_gas txs /\ (gas <= MAX_BLOCK_GAS)%Z;
  pk_fees : fees = tx_sum t_fee_quarks txs /\ (fees < U64)%Z
}.

Lemma entries_wf txs : Forall entry_ok txs -> Forall wf_tx txs /\ Forall tx_normal txs.
Proof. intros F. split; (eapply Forall_impl; [exact F|]); by intros t (? & ? & ?). Qed.

Lemma packed_nil slot : packed slot [] 0 0.
Proof. constructor; try done; constructor. Qed.

Lemma tip_hash_length parent cs : length parent = 32%nat -> length (tip_hash parent cs) = 32%nat.
Proof. intros H. unfold tip_hash. destruct (last cs); [apply keccak256_length|done]. Qed.

(** The proposer, missed leader and ticket of a block of each kind. *)
Definition role_ok (kind : BlockKind) (p missed : option bytes) (ticket : Z) (txs : list Tx) : Prop :=
  match kind with
  | Validator => missed = None /\ ticket <> 0%Z /\ exists id, p = Some id /\ id <> [] /\ utf8_valid id = true /\
      (Z.of_nat (length id) < U32)%Z /\ proposer_id id <> ZERO_PROPOSER_ID
  | ProtocolMiss => p = None /\ ticket = 0%Z /\ txs = [] /\ exists id, missed = Some id /\ id <> [] /\ id <> str "protocol" /\
      utf8_valid id = true /\ (Z.of_nat (length id) + 14 < U32)%Z
  | ProtocolNoTickets => p = None /\ ticket = 0%Z /\ missed = None /\ (length txs <= 1)%nat
  | ProtocolCollision => p = None /\ ticket = 0%Z /\ missed = None /\ txs = []
  end.

Lemma protocol_data_length d :
  length (ProtocolData_canonical_bytes d) = match missed_proposer d with Some id => (14 + length id)%nat | None => 10%nat end.
Proof.
  unfold ProtocolData_canonical_bytes. rewrite !length_app, !length_be_bytes.
  destruct (missed_proposer d); rewrite ?length_app, !length_be_bytes; lia.
Qed.

Lemma layout_total hash b :
  mapM wire_entry (bk_transactions b) = Some (map entry_enc (bk_transactions b)) ->
  (Z.of_nat (length (default [] (bk_proposer b))) < U32)%Z ->
  (Z.of_nat (length (ProtocolData_canonical_bytes (bk_protocol_data b))) < U32)%Z ->
  exists w, wire_layout hash b = Some w.
Proof.
  intros He Hp Hd. unfold wire_layout, append_bytes. rewrite !(proj2 (Z.ltb_lt _ _)) by done.
  cbn [mbind option_bind]. rewrite He. cbn [mbind option_bind]. eauto.
Qed.

Lemma build_block_ok s kind p ticket txs gas missed fees parent :
  canonical_parent_hash (st_slot s) s = Some parent -> length parent = 32%nat -> in_width U64 (st_slot s) ->
  in_width U64 ticket -> packed (st_slot s) txs gas fees -> role_ok kind p missed ticket txs ->
  exists b, build_block s kind p ticket txs gas (mk_protocol_data missed fees) = Some b /\ deliverable b.
Proof.
  intros Hp Hlen Hslot Ht [F Fv Hn [Hg Hgm] [Hf Hfm]] Hrole.
  assert (forall id, p = Some id -> id <> [] /\ utf8_valid id = true /\ (Z.of_nat (length id) < U32)%Z) as Hpid
    by (destruct kind; cbn in Hrole; naive_solver).
  assert (forall id, missed = Some id -> utf8_valid id = true /\ (Z.of_nat (length id) + 14 < U32)%Z) as Hmid
    by (destruct kind; cbn in Hrole; naive_solver).
  destruct (root_total txs F Hn) as (root & Hr & Hrl). destruct (entries_wf _ F) as [Fw Fn].
  unfold build_block, Block_new. rewrite Hp. cbn [mbind option_bind]. rewrite Hr. cbn [mbind option_bind]. cbv zeta.
  set (b := mk_block _ p txs _).
  assert (kind_rule b) as Hk.
  { unfold kind_rule. cbn. destruct kind; cbn in Hrole.
    - destruct Hrole as (-> & ? & id & -> & _ & _ & _ & Hz). by exists id.
    - destruct Hrole as (-> & ? & ? & id & -> & ? & ? & _). split_and!; try done. by exists id.
    - by destruct Hrole as (-> & ? & -> & ?).
    - by destruct Hrole as (-> & ? & -> & ?). }
  assert (v1_committed b) as C by (constructor; cbn; (done || auto)).
  pose proof (proj2 (commitments_iff b Fw) C) as V. rewrite V. exists b. split; [done|].
  assert (0 <= gas)%Z.
  { rewrite Hg. apply tx_sum_nonneg. eapply Forall_impl; [exact Fw|]. intros t []. unfold in_width in *. lia. }
  assert (0 <= fees)%Z by (rewrite Hf; apply tx_sum_nonneg; eapply Forall_impl; [exact Fw|]; apply fee_nonneg).
  assert (wf_v1_block b) as W.
  { unfold MAX_BLOCK_GAS in Hgm. constructor; cbn; [|..|done].
    - unfold wf_header, in_width in *. cbn. split_and!; try done; try lia; try apply keccak256_length.
      destruct p; [apply keccak256_length|done].
    - intros id ->. by apply Hpid.
    - unfold wf_protocol_data, in_width. cbn. split; [lia|]. destruct missed as [id|]; [|done].
      destruct (Hmid id eq_refl). split; [lia|done]. }
  assert (exists w, wire_layout (Block_hash b) b = Some w) as [w Hw].
  { assert (Forall (fun t => is_Some (wire_entry t)) txs) as Fe
      by (eapply Forall_impl; [exact F|]; by intros t (_ & _ & ?)).
    apply entries_of in Fe. apply layout_total; [done|destruct p as [id|]; [by apply Hpid|done]|].
    rewrite protocol_data_length. cbn. destruct missed as [id|]; [destruct (Hmid id eq_refl)|]; lia. }
  exists w. assert (Block_wire_bytes b = Some w) as Hwb by (unfold Block_wire_bytes; by rewrite V).
  split; [done|]. apply v1_wire_iff. split_and!; try done. cbn. intros Hnil. by destruct (Hpid [] Hnil).
Qed.
End BuildBlock.

(** ** A slot that can end *)

(** What the node can name as a leader. *)
Definition leader_ok `{Keccak} (id : bytes) : Prop :=
  id <> [] /\ id <> str "protocol" /\ utf8_valid id = true /\ (Z.of_nat (length id) + 14 < U32)%Z /\
  proposer_id id <> ZERO_PROPOSER_ID.

Section Progress.
  Context {KE : Keccak} {HX : Hex} {HE : HexEncode} {HL : HexLaws HX HE} {VJ : V1Json} {JL : V1JsonLaws VJ}.
  Context {UN : Unicode} {UL : UnicodeLaws UN} {KC : K256} {RG : Rng}.

Record slot_ready (s : ProtocolState) : Prop := {
  rd_solvent : solvent (ledger s);
  rd_room : slot_room s;
  rd_quota : quota (ledger s);
  rd_mempool : Forall entry_ok (mempool (pools s));
  rd_pbm : Forall (fun t => entry_ok t /\ t_chain_id t = V1_CHAIN_ID /\ (t_gas t <= MAX_BLOCK_GAS)%Z) (pbm_pool (pools s));
  rd_leader : total_eligible_tickets (ledger s) <> 0%nat -> leader_ok (current_leader (turn s)) /\
    in_width U64 (current_ticket_id (turn s)) /\ current_ticket_id (turn s) <> 0%Z;
  rd_liveness : (l_total_slots (c_liveness (chain s)) + 1 < U64)%Z /\ (l_validator_slots (c_liveness (chain s)) + 1 < U64)%Z
}.

(** The selected bootstrap transaction is pending and may run now. *)
Lemma run_pbm_txs s s1 gas fees txs :
  run_pbm_tx s = Some (s1, gas, fees, txs) ->
  Forall (fun t => t ∈ pbm_pool (pools s) /\ (t_valid_after_slot t <= st_slot s)%Z) txs.
Proof.
  unfold run_pbm_tx. destruct (i ← select_pbm_tx_index s; t ← pbm_pool (pools s) !! i; Some (i, t)) as [[i t]|] eqn:E;
    [|intros [= <- <- <- <-]; constructor].
  apply bind_Some in E as (i' & Hi & E). apply bind_Some in E as (t' & Ht & [= -> ->]). cbv zeta.
  intros ([l ex] & _ & E)%bind_Some. destruct ex; [|injection E as <- <- <- <-; constructor].
  injection E as <- <- <- <-. constructor; [|constructor]. split; [by eapply list_elem_of_lookup_2|].
  unfold select_pbm_tx_index in Hi. apply fmap_Some in Hi as (c & Hc & ->).
  assert (c ∈ pbm_candidates s) as Hin.
  { rewrite <- (sort_by_perm candidate_leb (pbm_candidates s)). destruct (sort_by _ _); [done|]. injection Hc as <-. constructor. }
  unfold pbm_candidates in Hin. apply list_elem_of_omap in Hin as ([j u] & Hj & Hu).
  apply elem_of_lookup_imap in Hj as (j' & u' & [= -> ->] & Hl).
  destruct (_ && _) eqn:G in Hu; [|done]. apply bind_Some in Hu as (h & _ & [= <-]). cbn in Ht. rewrite Hl in Ht.
  injection Ht as ->. apply andb_true_iff in G as [_ G]. by apply Z.leb_le.
Qed.

Lemma pbm_packed s s1 gas fees txs :
  slot_ready s -> run_pbm_tx s = Some (s1, gas, fees, txs) -> (length txs <= 1)%nat ->
  gas = tx_sum t_gas txs -> fees = tx_sum t_fee_quarks txs -> packed (st_slot s) txs gas fees.
Proof.
  intros R E Hn Hg Hf. pose proof (run_pbm_txs _ _ _ _ _ E) as F. pose proof (rd_pbm _ R) as P. rewrite Forall_forall in P.
  destruct txs as [|t [|]]; cbn in Hn; [|..|lia].
  - rewrite Hg, Hf. apply packed_nil.
  - apply Forall_cons in F as [[Hin Hv] _]. destruct (P t Hin) as (Ht & Hc & Hgas). pose proof Ht as (W & _).
    pose proof (wt_fee _ W) as [_ ?]. cbn in Hg, Hf. rewrite Z.add_0_r in Hg, Hf.
    constructor; cbn; rewrite ?Z.add_0_r; [by constructor|by constructor|done|subst; done..].
Qed.

Lemma build_candidate_total s r parent :
  slot_ready s -> in_width U64 (st_slot s) -> canonical_parent_hash (st_slot s) s = Some parent -> length parent = 32%nat ->
  exists b s1 r1, build_candidate s r = Some (b, s1, r1) /\ deliverable b /\ Block_slot b = st_slot s /\
    parent_hash (bk_header b) = parent.
Proof.
  intros R Hslot Hp Hlen. pose proof (rd_solvent _ R) as H. destruct (entries_wf _ (rd_mempool _ R)) as [Fm _].
  assert (Forall wf_tx (pbm_pool (pools s))) as Fp
    by (eapply Forall_impl; [exact (rd_pbm _ R)|]; by intros t ((? & ?) & _)).
  assert (forall s0 kind p ticket txs gas missed fees, chain s0 = chain s -> st_slot s0 = st_slot s ->
    in_width U64 ticket -> packed (st_slot s) txs gas fees -> role_ok kind p missed ticket txs ->
    exists b, build_block s0 kind p ticket txs gas (mk_protocol_data missed fees) = Some b /\ deliverable b /\
      Block_slot b = st_slot s /\ parent_hash (bk_header b) = parent) as Hbuild.
  { intros s0 kind p ticket txs gas missed fees Ec Es Ht Pk Role. rewrite <- Es in Hp, Hslot, Pk.
    rewrite <- (parent_ext _ s s0 Ec) in Hp.
    destruct (build_block_ok s0 kind p ticket txs gas missed fees parent Hp Hlen Hslot Ht Pk Role) as (b & Eb & D).
    exists b. destruct (build_block_inv _ _ _ _ _ _ _ _ Eb) as (_ & _ & _ & B1 & _ & _ & B2).
    split_and!; try done; congruence. }
  unfold build_candidate. destruct (Nat.eqb_spec (total_eligible_tickets (ledger s)) 0) as [E0|E0];
    [|destruct (rd_leader _ R E0) as ((L1 & L2 & L3 & L4 & L5) & T1 & T2); destruct (is_local_leader s) eqn:El].
  - destruct (run_pbm_spec s H Fp) as (s2 & gas & fees & txs & E & _ & Hn & Hg & Hf & Hc).
    assert (chain s2 = chain s /\ st_slot s2 = st_slot s) as [C1 C2].
    { specialize (Hc (mk_block (mk_header 0 0 0 Validator [] [] 0 [] [] [] 0 []) None txs ProtocolData_empty) eq_refl). by destruct Hc. }
    destruct (deactivate_keeps s2) as (_ & K1 & K2 & _).
    destruct (Hbuild (deactivate_pbm_if_ready s2) ProtocolNoTickets None 0%Z txs gas None fees) as (b & Eb & D);
      [congruence..|done|by eapply pbm_packed|done|].
    exists b, (deactivate_pbm_if_ready s2), r. split; [|done]. unfold protocol_no_tickets_block. rewrite E.
    cbn [mbind option_bind]. cbv zeta. change ZERO_TICKET_ID with 0%Z. by rewrite Eb.
  - destruct (fill_block_spec (st_slot s) (mempool (pools s)) (ledger s) 0 0 [] r H Fm) as (f & new & Ef & Fi);
      [unfold MAX_BLOCK_GAS; lia|lia|done|].
    assert (packed (st_slot s) (f_transactions f) (f_gas f) (f_fees f)) as Pk.
    { destruct Fi as [_ -> (consumed & Ep & Hsub) Fg Ff Fc Fv _ _]. cbn [app] in *.
      constructor; try done. pose proof (rd_mempool _ R) as F. rewrite Ep in F. apply Forall_app in F as [F _].
      rewrite Forall_forall in F. apply Forall_forall. intros t Ht. apply F. by apply (sublist_subseteq _ _ Hsub). }
    destruct (produced_total (current_leader (turn s)) (set_economy (set_e_fees (f_fees f) (economy (f_ledger f))) (f_ledger f)))
      as [l Hl]; [apply (quota_same (f_ledger f)); [done|]; eapply fill_quota; [done|apply R]|].
    unfold validator_block. rewrite Ef. cbn [mbind option_bind]. cbv zeta. rewrite Hl. cbn [mbind option_bind].
    match goal with |- context [build_block ?s0 Validator ?p ?t ?x ?g _] =>
      destruct (Hbuild s0 Validator p t x g None (f_fees f)) as (b & Eb & D); try done end.
    { split_and!; [done..|]. exists (current_leader (turn s)). split_and!; try done. lia. }
    rewrite Eb. cbn [mbind option_bind]. eauto 10.
  - destruct (Hbuild s ProtocolMiss None 0%Z [] 0%Z (Some (current_leader (turn s))) 0%Z) as (b & Eb & D);
      [done..|apply packed_nil|by split_and!; try done; exists (current_leader (turn s))|].
    exists b, s, r. split; [|done]. unfold protocol_miss_block. cbv zeta. change ZERO_TICKET_ID with 0%Z.
    rewrite Eb. rewrite bool_decide_eq_true_2; [done|]. unfold is_local_leader in El.
    destruct (local_validator_id s) as [id|]; [|done]. apply bool_decide_eq_false in El. naive_solver.
Qed.

Lemma prevalidate_tip_ok s b :
  prevalidate_active_linear_slot s = Ok () -> deliverable b -> Block_slot b = st_slot s ->
  canonical_parent_hash (st_slot s) s = Some (parent_hash (bk_header b)) -> prevalidate_linear_tip s b = Ok ().
Proof.
  intros A (w & Hw & Hd) Hs Hp. unfold prevalidate_linear_tip. rewrite Hw, ok_or_of_Some. cbn [mbind result_bind].
  rewrite Hd, ok_or_of_Some. cbn [mbind result_bind].
  assert (validate_commitments b = true) as -> by (unfold Block_wire_bytes in Hw; by destruct (validate_commitments b)).
  rewrite neq_dec_false by done. cbn [negb orb fail_if mbind result_bind]. rewrite A. cbn [mbind result_bind].
  rewrite neq_dec_false by done. cbn [fail_if mbind result_bind]. unfold canonical_parent_hash in Hp.
  destruct (_ =? _)%Z; [injection Hp as <-|rewrite Hp, ok_or_of_Some]; cbn [mbind result_bind];
    by rewrite neq_dec_false by done.
Qed.

Lemma update_liveness_total b v :
  (l_total_slots v + 1 < U64)%Z -> (l_validator_slots v + 1 < U64)%Z -> exists v', update_liveness b v = Some v'.
Proof.
  intros H1 H2. unfold update_liveness. cbv zeta. destruct (_ =? l_epoch v)%Z; (case_bool_decide; [eauto|]);
    cbn [l_total_slots l_validator_slots]; unfold checked_add; rewrite !(proj2 (Z.ltb_lt _ _)) by (done || lia);
    cbn [mbind option_bind]; destruct (Block_kind b ==? Validator); cbn [mbind option_bind]; eauto.
Qed.

Lemma record_tip_total s b :
  prevalidate_linear_tip s b = Ok () -> current_result (turn s) = None ->
  (l_total_slots (c_liveness (chain s)) + 1 < U64)%Z -> (l_validator_slots (c_liveness (chain s)) + 1 < U64)%Z ->
  exists s', record_linear_tip b s = Some (Ok s').
Proof.
  intros P R H1 H2. destruct (prevalidate_tip_inv _ _ _ P) as ((w & Hw & _) & Hs & _ & Hp).
  unfold record_linear_tip. rewrite P, R. rewrite bool_decide_eq_false_2 by (by intros []). cbv zeta.
  destruct (update_liveness_total b (c_liveness (chain s)) H1 H2) as [v Hv]. cbn [chain set_turn]. rewrite Hv.
  cbn [mbind option_bind]. unfold record_block.
  assert (forall c, c_blocks c = c_blocks (chain s) ->
    validate_block_commitments_and_parent (set_chain c (set_turn (set_current_result (Some b) (turn s)) s)) b = true) as V.
  { intros c Hc. unfold validate_block_commitments_and_parent, canonical_parent_hash in *. cbn [chain set_chain]. rewrite Hc, Hs, Hp.
    unfold validate_parent. rewrite bool_decide_eq_true_2, andb_true_r by done.
    unfold Block_wire_bytes in Hw. by destruct (validate_commitments b). }
  rewrite V by done. cbn [negb]. cbv zeta. eauto.
Qed.

Lemma slot_ready_drop s : slot_ready s -> slot_ready (drop_remote s).
Proof.
  intros []. destruct (drop_remote_fields s) as (D1 & D2 & D3 & D4 & D5 & D6 & _).
  constructor; rewrite ?D1, ?D3, ?D4, ?D5; try done. destruct rd_room0. constructor; rewrite ?D3, ?D6; done.
Qed.

Lemma finish_slot_total cs s r :
  linear cs s -> (Z.of_nat (length cs) < U64)%Z -> slot_ready s ->
  exists s' r' b, finish_slot (Ok ()) s r = Some (s', r', Some b).
Proof.
  intros L0 Hn R0%slot_ready_drop. assert (linear cs (drop_remote s)) as L.
  { eapply linear_same_tip; [exact L0|]. unfold drop_remote. destruct (_ !! _); by constructor. }
  unfold finish_slot. cbv zeta. set (s0 := drop_remote s) in *. rewrite (linear_parent _ _ L), (linear_active _ _ L Hn).
  assert (in_width U64 (st_slot s0)) as Hslot by (rewrite (ln_slot _ _ L); unfold in_width; lia).
  destruct (build_candidate_total s0 r _ R0 Hslot (linear_parent _ _ L)) as (b & s1 & r1 & Eb & D & Hs & Hp);
    [by apply tip_hash_length|].
  destruct (build_candidate_tip _ _ _ _ _ Eb) as (B1 & B2 & B3 & _).
  assert (linear cs s1) as L1 by (eapply linear_same_tip; [exact L|]; constructor; congruence).
  assert (prevalidate_linear_tip s1 b = Ok ()) as P.
  { apply prevalidate_tip_ok; try done; [by apply (linear_active cs)|congruence|]. rewrite (linear_parent _ _ L1). congruence. }
  destruct (rd_liveness _ R0) as [V1 V2].
  destruct (record_tip_total s1 b P) as [s2 E2]; [apply L1|by rewrite B1..|].
  destruct (record_tip_inv _ _ _ E2) as (_ & _ & _ & El & Ec & _).
  assert (exists s3, run_boundaries s2 = Some s3) as [s3 E3].
  { destruct D as (w & Hw & Hd). apply v1_wire_iff in Hd as (W & _ & _ & _). unfold Block_wire_bytes in Hw.
    destruct (validate_commitments b) eqn:V; [|done]. apply commitments_iff in V; [|apply W].
    destruct (vc_fees _ V) as [Hfee Hlt]. rewrite Hfee in Hlt. pose proof (rd_room _ R0) as Room. pose proof Room as [].
    destruct (entries_wf _ (rd_mempool _ R0)) as [Fm _].
    assert (Forall wf_tx (pbm_pool (pools s0))) as Fp
      by (eapply Forall_impl; [exact (rd_pbm _ R0)|]; by intros t ((? & ?) & _)).
    destruct (build_candidate_spec s0 r b s1 r1 (rd_solvent _ R0) Fm Fp) as [issued C]; [done|nia|done|].
    destruct (candidate_counts _ _ _ _ C Room (wv_transactions _ W) Hlt) as (_ & _ & _ & _ & BR).
    destruct (run_boundaries_spec s2) as (s3 & E3 & _); [rewrite El; apply C| |by exists s3].
    destruct BR; constructor; rewrite ?El, ?Ec; done. }
  unfold stage_local_slot. rewrite (linear_active _ _ L Hn), Eb. cbn [mbind option_bind]. rewrite P, E2.
  cbn [mbind option_bind]. rewrite E3. cbn [mbind option_bind]. destruct D as (w & -> & _). cbn [mbind option_bind]. eauto.
Qed.

(** C12: with well-formed inputs a slot always ends in a block.  On a linear chain, a
    solvent ledger with room in its counters, pending transactions whose texts
    are the decoder's (bootstrap ones for this chain and within the gas limit)
    and a leader the block format can name, one round of the node neither
    panics nor defers: it appends one block and starts the next slot. *)
Theorem slot_progress cs s r instant :
  linear cs s -> (Z.of_nat (length cs) + 1 < U64)%Z -> slot_ready s ->
  exists b s' r', tick_slot (Ok ()) instant s r = Some (s', r') /\ linear (cs ++ [b]) s'.
Proof.
  intros L Hn R. destruct (finish_slot_total cs s r L) as (s1 & r1 & b & E); [lia|done|].
  destruct (finish_slot_appends _ _ _ _ _ _ E) as (_ & _ & _ & _ & _ & A).
  destruct (drop_remote_fields s) as (_ & D2 & _).
  assert (exists s', start_next_slot instant s1 = Some s') as [s' Es].
  { unfold start_next_slot, checked_add. rewrite (ap_slot _ _ _ A), D2, (ln_slot _ _ L), (proj2 (Z.ltb_lt _ _)) by done.
    cbn [mbind option_bind]. cbv zeta. destruct (select_leader _). eauto. }
  exists b, s', r1. split; [unfold tick_slot; rewrite E; cbn [mbind option_bind]; by rewrite Es|].
  by eapply tick_appends.
Qed.
End Progress.

(** ** Inputs that stop the node *)

Section Stops.
  Context {KE : Keccak} {HX : Hex} {HE : HexEncode} {HL : HexLaws HX HE} {VJ : V1Json} {JL : V1JsonLaws VJ}.
  Context {UN : Unicode} {KC : K256} {RG : Rng}.

(** The local leader's next transaction is executable, but its signature or
    registration text is not the one the decoder writes. *)
Record poisoned (s : ProtocolState) : Prop := {
  po_tickets : total_eligible_tickets (ledger s) <> 0%nat;
  po_leader : is_local_leader s = true;
  po_pool : exists t rest l, mempool (pools s) = t :: rest /\ t_chain_id t = V1_CHAIN_ID /\
    (t_valid_after_slot t <= st_slot s)%Z /\ (0 <= t_gas t <= MAX_BLOCK_GAS)%Z /\ (t_fee_quarks t < U64)%Z /\
    execute_tx t (ledger s) = Some (l, true) /\ ~ tx_normal t
}.

Lemma fill_prefix slot pool l gas fees txs r f :
  fill_block slot pool l gas fees txs r = Some f -> exists new, f_transactions f = txs ++ new.
Proof.
  revert l gas fees txs r. induction pool as [|t pool IH]; intros l gas fees txs r; cbn [fill_block].
  { intros [= <-]. exists []. by rewrite app_nil_r. }
  intros E. repeat (case_match; simplify_eq); first
    [ by (exists []; rewrite app_nil_r) | by exists [t] | by eapply IH
    | apply IH in E as [new ->]; exists (t :: new); by rewrite <- app_assoc ].
Qed.

Lemma poisoned_block s r b s1 r1 :
  poisoned s -> build_candidate s r = Some (b, s1, r1) -> ~ Forall tx_normal (bk_transactions b).
Proof.
  intros [H1 H2 (t & rest & l & Hp & Hc & Hv & Hg & Hf & He & Hn)]. unfold build_candidate.
  destruct (Nat.eqb_spec (total_eligible_tickets (ledger s)) 0); [done|]. rewrite H2. unfold validator_block.
  rewrite Hp. cbn [fill_block]. rewrite neq_dec_false, (proj2 (Z.ltb_ge _ _)) by done. unfold checked_add, MAX_BLOCK_GAS in *.
  rewrite (proj2 (Z.ltb_lt (0 + t_gas t) _)) by lia. rewrite (proj2 (Z.ltb_ge _ _)) by lia.
  rewrite (proj2 (Z.ltb_lt (0 + t_fee_quarks t) _)) by lia. rewrite He.
  intros (f & Ef & E)%bind_Some. cbv zeta in E. apply bind_Some in E as (l' & _ & E).
  apply bind_Some in E as (b' & Eb & [= <- <- <-]). apply build_block_inv in Eb as (-> & _).
  assert (exists new, f_transactions f = t :: new) as [new ->].
  { cbn in Ef. destruct (gen_bool r) as [r2 stop]. destruct stop; [injection Ef as <-; by exists []|].
    by apply fill_prefix in Ef as [new ->]; exists new. }
  intros F. by apply Forall_cons in F as [? _].
Qed.

(** The state is the same up to diagnostics and queued remote blocks. *)
Record only_notes (s s' : ProtocolState) : Prop := {
  on_slot : st_slot s' = st_slot s;
  on_book : ledger s' = ledger s;
  on_pools : pools s' = pools s;
  on_chain : chain s' = chain s;
  on_turn : turn s' = turn s;
  on_calendar : calendar s' = calendar s;
  on_local : local_validator_id s' = local_validator_id s
}.

Lemma only_notes_trans s1 s2 s3 : only_notes s1 s2 -> only_notes s2 s3 -> only_notes s1 s3.
Proof. intros [] []. constructor; congruence. Qed.

Lemma drop_only_notes s : only_notes s (drop_remote s).
Proof. destruct (drop_remote_fields s) as (? & ? & ? & ? & ? & ? & ? & _). by constructor. Qed.

Lemma poisoned_notes s s' : only_notes s s' -> poisoned s -> poisoned s'.
Proof.
  intros [E1 E2 E3 E4 E5 E6 E7] []. constructor; unfold is_local_leader in *; rewrite ?E1, ?E2, ?E3, ?E5, ?E7; done.
Qed.

Lemma poisoned_round persisted instant s r s' r' :
  poisoned s -> tick_slot persisted instant s r = Some (s', r') -> only_notes s s' /\ r' = r.
Proof.
  intros P. unfold tick_slot. intros ([[s1 r1] sent] & F & E)%bind_Some.
  pose proof (finish_slot_inv _ _ _ _ _ _ F) as I. destruct sent as [b|].
  - exfalso. destruct I as (_ & _ & s2 & s3 & Eb & Er & _). destruct (record_tip_inv _ _ _ Er) as (V & _).
    destruct (prevalidate_tip_inv _ _ _ V) as ((w & _ & Hd) & _). apply v1_wire_iff in Hd as (_ & N & _).
    by apply (poisoned_block _ _ _ _ _ (poisoned_notes _ _ (drop_only_notes s) P) Eb).
  - destruct I as (-> & e & ->). injection E as <- <-. split; [|done]. destruct (drop_only_notes s). by constructor.
Qed.

(** Successive rounds of the node without other input. *)
Fixpoint rounds (answers : list (result string () * Z)) (s : ProtocolState) (r : rng) : option (ProtocolState * rng) :=
  match answers with
  | [] => Some (s, r)
  | (persisted, instant) :: rest => '(s, r) ← tick_slot persisted instant s r; rounds rest s r
  end.

(** C39: a signature text that is not the decoder's stops the chain.  While the local
    leader's next pending transaction is executable but has such a text (upper
    case, or no [0x] prefix), no number of rounds produces a block: the slot,
    the pools, the ledger and the random generator stay as they are. *)
Theorem poisoned_pool_stalls answers s r s' r' :
  poisoned s -> rounds answers s r = Some (s', r') -> only_notes s s' /\ r' = r.
Proof.
  intros P. revert s r P. induction answers as [|[persisted instant] answers IH]; intros s r P; cbn [rounds].
  { intros [= <- <-]. by split. }
  intros ([s1 r1] & T & E)%bind_Some. destruct (poisoned_round _ _ _ _ _ _ P T) as [N ->].
  destruct (IH s1 r (poisoned_notes _ _ N P) E) as [N2 ->]. split; [by eapply only_notes_trans|done].
Qed.

(** A slot that is about to be built. *)
Definition slot_open (s : ProtocolState) : Prop :=
  prevalidate_active_linear_slot s = Ok () /\ is_Some (canonical_parent_hash (st_slot s) s).

Lemma active_ext s s' : chain s' = chain s -> st_slot s' = st_slot s ->
  prevalidate_active_linear_slot s' = prevalidate_active_linear_slot s.
Proof. unfold prevalidate_active_linear_slot. by intros -> ->. Qed.

Lemma open_panics persisted s r :
  slot_open s -> build_candidate (drop_remote s) r = None -> finish_slot persisted s r = None.
Proof.
  intros [A [p Hp]] B. destruct (drop_remote_fields s) as (D1 & D2 & _). unfold finish_slot. cbv zeta.
  rewrite D2, (parent_ext _ s _ D1), Hp, (active_ext s _ D1 D2), A. unfold stage_local_slot.
  by rewrite (active_ext s _ D1 D2), A, B.
Qed.

(** C40: a bootstrap transaction for another chain makes the node panic.  With no
    eligible ticket, the selected transaction is executed without looking at
    its chain id or its gas; when the chain id is not the node's or the gas is
    above the block limit, the block does not satisfy its own commitments and
    the [expect] on it fails, whatever the storage would answer. *)
Theorem foreign_bootstrap_panics persisted s r i t l :
  slot_open s -> total_eligible_tickets (ledger s) = 0%nat ->
  select_pbm_tx_index s = Some i -> pbm_pool (pools s) !! i = Some t ->
  execute_pbm_tx t (ledger s) = Some (l, true) -> t_chain_id t <> V1_CHAIN_ID \/ (MAX_BLOCK_GAS < t_gas t)%Z ->
  finish_slot persisted s r = None.
Proof.
  intros O H0 Hi Ht He Hbad. apply open_panics; [done|]. destruct (drop_remote_fields s) as (D1 & D2 & D3 & D4 & D5 & _).
  assert (select_pbm_tx_index (drop_remote s) = Some i) as Hi'.
  { rewrite <- Hi. unfold select_pbm_tx_index, pbm_candidates. by rewrite D2, D5. }
  unfold build_candidate. rewrite D3, H0. cbn [Nat.eqb]. unfold protocol_no_tickets_block, run_pbm_tx. rewrite Hi'.
  cbn [mbind option_bind]. rewrite D5, Ht. cbn [mbind option_bind]. cbv zeta. cbn [ledger set_pools]. rewrite D3, He.
  cbn [mbind option_bind]. match goal with |- context [build_block ?x _ _ _ _ _ _] => generalize x end. intros x.
  destruct (build_block x _ _ _ _ _ _) as [b|] eqn:Eb; [|done]. exfalso.
  apply build_block_inv in Eb as (Hb & _ & _ & _ & _ & V & _). unfold validate_commitments in V. rewrite Hb in V. cbn in V.
  repeat (case_match; try done). simplify_eq.
  repeat match goal with X : _ || _ = false |- _ => apply orb_false_iff in X as [? ?] end.
  destruct Hbad as [Hc|Hg].
  - match goal with X : bool_decide (t_chain_id t <> _) = false |- _ => by apply bool_decide_eq_false in X end.
  - match goal with X : checked_add _ 0 (t_gas t) ≫= _ = Some _, Y : (MAX_BLOCK_GAS <? _)%Z = false |- _ =>
      apply bind_Some in X as (z' & X & [= ->]); unfold checked_add in X; apply Z.ltb_ge in Y; destruct (_ <? _)%Z in X end;
      simplify_eq; lia.
Qed.

(** A leader that a miss block cannot name makes the node panic.  A validator may
    be registered under the empty name or under [protocol]; when it leads and
    is not the local validator, the miss block for it violates the block rules
    and the [expect] on it fails. *)
Theorem unnamed_leader_panics persisted s r :
  slot_open s -> total_eligible_tickets (ledger s) <> 0%nat -> is_local_leader s = false ->
  current_leader (turn s) = [] \/ current_leader (turn s) = str "protocol" -> finish_slot persisted s r = None.
Proof.
  intros O H0 Hl Hbad. apply open_panics; [done|].
  destruct (drop_remote_fields s) as (D1 & D2 & D3 & D4 & D5 & _ & D7 & _).
  unfold build_candidate. destruct (Nat.eqb_spec (total_eligible_tickets (ledger (drop_remote s))) 0) as [E|_]; [by rewrite D3 in E|].
  assert (is_local_leader (drop_remote s) = false) as Hl' by (unfold is_local_leader in *; by rewrite D4, D7).
  rewrite Hl'. unfold protocol_miss_block. cbv zeta.
  assert (forall x, build_block x ProtocolMiss None ZERO_TICKET_ID [] 0
    (mk_protocol_data (Some (current_leader (turn (drop_remote s)))) 0) = None) as Hnone.
  { intros x. destruct (build_block x _ _ _ _ _ _) as [b|] eqn:Eb; [|done]. exfalso.
    apply build_block_inv in Eb as (Hb & _ & Hd & _ & Hk & V & _).
    apply commitments_iff in V; [|by rewrite Hb; constructor]. pose proof (vc_kind _ V) as K. unfold kind_rule in K.
    unfold Block_kind in Hk. rewrite Hk, Hd in K. destruct K as (_ & _ & _ & _ & id & [= <-] & ? & ?).
    rewrite D4 in *. by destruct Hbad. }
  destruct (_ !=? _); [by rewrite Hnone|]. destruct (punish_miss _ _ _) as [l|]; [|done]. cbn [mbind option_bind]. by rewrite Hnone.
Qed.
End Stops.

(** A node that is not the leader never charges a miss, and the leader never
    builds a miss block: no validator is ever punished. *)
Theorem miss_unpunished `{Keccak} `{Hex} `{V1Json} s b s' :
  is_local_leader s = false -> protocol_miss_block s = Some (b, s') -> s' = s.
Proof.
  intros Hl. unfold protocol_miss_block. cbv zeta. rewrite bool_decide_eq_true_2.
  - by intros (b' & _ & [= _ <-])%bind_Some.
  - unfold is_local_leader in Hl. destruct (local_validator_id s) as [id|]; [|done].
    apply bool_decide_eq_false in Hl. naive_solver.
Qed.
