(* ===== verification/LegacyExample.v ===== *)
(** * A V1 node at work

    Small states of the node, with the toy instances of the libraries: one
    validator, one ticket, one account and one pending transaction.  Each lemma
    applies one of the theorems of [LegacyChain] and [LegacyProgress] to a slot
    that is then evaluated. *)

From S2P Require Import Prelude Codec Crypto BlockCommitment LeaderSelection LegacyBlock LegacyState LegacySlot.
From S2P Require Import LegacyPeer LegacyLedger LegacyChain LegacyProgress.

(** ASCII text has no white space at its ends here. *)
Definition ascii_lower (x : byte) : byte :=
  if byte_in 65 90 x then default x (Byte.of_N (Byte.to_N x + 32)) else x.

Definition toy_unicode : Unicode := {| str_trim s := s; str_to_lowercase := map ascii_lower |}.

(** The generator never stops a block early. *)
Definition toy_rng : Rng := {| rng := unit; gen_bool r := (r, false) |}.

(** Addresses are kept as text. *)
Definition toy_addr : PeerAddr := {| addr := bytes; addr_from_str s := Some s |}.

Definition toy_seed : @rng toy_rng := ().

Lemma toy_unicode_laws : UnicodeLaws toy_unicode.
Proof.
  constructor; cbn; try done.
  - intros s. rewrite map_map. apply map_ext. by intros [].
  - intros [|a [|b s]]; [done| |].
    + destruct a; vm_compute; done.
    + unfold starts_0x. cbn [map take]. unfold str. rewrite !orb_true_iff, !bool_decide_eq_true. cbn.
      intros [[= Ha Hb]|[= Ha Hb]]; destruct a; try discriminate Ha; destruct b; try discriminate Hb; auto.
Qed.

#[local] Existing Instance toy_keccak.
#[local] Existing Instance toy_hex_decode.
#[local] Existing Instance toy_hex_encode.
#[local] Existing Instance toy_hex_laws.
#[local] Existing Instance toy_json.
#[local] Existing Instance toy_json_laws.
#[local] Existing Instance toy_unicode.
#[local] Existing Instance toy_unicode_laws.
#[local] Existing Instance toy_k256.
#[local] Existing Instance toy_rng.
#[local] Existing Instance toy_addr.

Definition toy_ledger (leader : bytes) (ts : list ModelTicket) : Ledger :=
  mk_ledger [mk_validator leader (Some (str "alice")) None None Active 500000000000000 0 0 0 0 None] ts
    {[str "alice" := mk_account (str "alice") [] [] (str "alice") 0 {[0%Z := 1000000000000%Z]}]}
    (mk_economy 0 0 0 0 0 0 0 0 0) ∅ ∅.

Definition toy_node (l : Ledger) (pool pbm : list Tx) (leader : bytes) (local : option bytes) : ProtocolState :=
  mk_state 0 l (mk_pools pool pbm ∅) (mk_chain ∅ ∅ ∅ [] [] (mk_liveness 0 ∅ 0 0 0 0))
    (mk_turn 0 ModeNormal leader 7 Executing None)
    (mk_calendar 0 0 GENESIS_EPOCH_SEED 60000000 1000 500) local ∅ [].

Definition toy_tickets (leader : bytes) : list ModelTicket := [mk_model_ticket 7 leader 9 false false false None None].

(** The local validator leads; one transfer is pending. *)
Definition toy_validator_node (signature : bytes) : ProtocolState :=
  toy_node (toy_ledger (str "val-1") (toy_tickets (str "val-1"))) [toy_tx signature] [] (str "val-1") (Some (str "val-1")).

(** No ticket yet; one bootstrap transaction is pending. *)
Definition toy_deposit (chain : Z) : Tx :=
  mk_tx chain (str "alice") 0 (str "val-1") 0 5 1000 10000 10 WalletToVault 0 0 [] [].
Definition toy_bootstrap_node (chain : Z) : ProtocolState :=
  toy_node (toy_ledger (str "val-1") []) [] [toy_deposit chain] (str "protocol") None.

(** A validator called [protocol] leads. *)
Definition toy_unnamed_node : ProtocolState :=
  toy_node (toy_ledger (str "protocol") (toy_tickets (str "protocol"))) [] [] (str "protocol") None.

Lemma toy_supply leader ts token :
  supply token (toy_ledger leader ts) = if (token =? 0)%Z then 501000000000000%Z else 0%Z.
Proof.
  unfold supply. cbn [accounts validators toy_ledger]. rewrite <- insert_empty, account_sum_insert.
  assert (account_sum token ∅ = 0%Z) as -> by done. unfold balance, token_of. cbn [a_balances]. rewrite lookup_empty.
  cbn [mbind option_bind default]. change TOKEN_ETX_ID with 0%Z.
  destruct (Z.eqb_spec token 0) as [->|Hne]; [done|]. by rewrite lookup_singleton_ne.
Qed.

Lemma toy_solvent leader ts : solvent (toy_ledger leader ts).
Proof.
  constructor; [|by repeat constructor|intros token; rewrite toy_supply; destruct (_ =? _)%Z; lia].
  intros k token. unfold balance. cbn [accounts toy_ledger].
  destruct (decide (k = str "alice")) as [->|]; [|by rewrite lookup_singleton_ne].
  rewrite lookup_singleton_eq. cbn [mbind option_bind a_balances].
  destruct (decide (token = 0%Z)) as [->|]; [done|]. by rewrite lookup_singleton_ne.
Qed.

Lemma toy_room leader ts pool pbm lead local : slot_room (toy_node (toy_ledger leader ts) pool pbm lead local).
Proof. constructor; cbn [ledger toy_node]; rewrite ?toy_supply; cbn; lia. Qed.

Lemma toy_linear l pool pbm leader local : linear [] (toy_node l pool pbm leader local).
Proof.
  constructor; try done; cbn.
  - intros k. rewrite lookup_empty, lookup_nil. by destruct (0 <=? k)%Z.
  - intros b ?%not_elem_of_nil. done.
Qed.

(** Evaluation only decides whether there is a result; the result stays folded. *)
Definition some {A} (o : option A) : bool := match o with Some _ => true | None => false end.

Lemma some_inv {A} (o : option A) : some o = true -> exists a, o = Some a.
Proof. destruct o; [eauto|done]. Qed.

(** A transfer with the decoder's signature text is included. *)
Definition toy_finished : option (ProtocolState * rng * option Block) :=
  finish_slot (Ok ()) (toy_validator_node (str "0xabcd")) toy_seed.
Definition toy_ticked : option (ProtocolState * rng) :=
  tick_slot (Ok ()) 3000 (toy_validator_node (str "0xabcd")) toy_seed.
Definition toy_hello : bytes := str "HELLO|10.0.0.1:1|77|6000|validator|val-2|bob|1".
Definition toy_greeted : option (PeerBook * ProtocolState) :=
  handle_message 9000000 9000000 toy_hello (mk_peers ∅ false) (toy_validator_node (str "0xabcd")).

Lemma toy_finished_some : exists s r b, toy_finished = Some (s, r, Some b).
Proof.
  assert (some ('(_, _, sent) ← toy_finished; sent) = true) as H by (vm_compute; reflexivity).
  destruct toy_finished as [[[s r] [b|]]|]; [eauto|discriminate H..].
Qed.

Lemma linear_chain_witness : exists s r new, toy_ticked = Some (s, r) /\ st_slot s = 1%Z /\ linear ([] ++ new) s.
Proof.
  assert (st_slot ∘ fst <$> toy_ticked = Some 1%Z) as Hs by (vm_compute; reflexivity).
  destruct toy_ticked as [[s r]|] eqn:E; [|discriminate Hs]. injection Hs as Hs. unfold toy_ticked in E.
  destruct (linear_chain [] (toy_validator_node (str "0xabcd")) toy_seed s r) as [new L]; [apply toy_linear| |].
  - eapply rtc_once, step_slot, E.
  - exists s, r, new. split; [reflexivity|]. split; [exact Hs|exact L].
Defined.

(** A hello with a later slot; and a snapshot whose totals overflow. *)
Lemma peer_message_safe_witness :
  (exists p s, toy_greeted = Some (p, s) /\ same_tip (toy_validator_node (str "0xabcd")) s /\
     length (validators (ledger s)) = 2%nat) /\
  handle_message 0 0 (str "STATE|E,0,340282366920938463463374607431768211455,1,0,0,0,0,0,0,0") (mk_peers ∅ false)
    (toy_validator_node (str "0xabcd")) = None.
Proof.
  split; [|vm_compute; reflexivity].
  assert ((fun x => length (validators (ledger x.2))) <$> toy_greeted = Some 2%nat) as Hv by (vm_compute; reflexivity).
  pose proof (peer_message_safe [] 9000000 9000000 toy_hello (mk_peers ∅ false)
    (toy_validator_node (str "0xabcd")) (toy_linear _ _ _ _ _)) as M. fold toy_greeted in M.
  destruct toy_greeted as [[p s]|]; [|discriminate Hv]. injection Hv as Hv.
  exists p, s. split; [reflexivity|]. split; [exact (proj1 M)|exact Hv].
Defined.

Lemma finish_slot_atomic_witness : exists s r b,
  toy_finished = Some (s, r, Some b) /\ deliverable b /\ c_blocks (chain s) !! 0%Z = Some b.
Proof.
  destruct toy_finished_some as (s & r & b & E). exists s, r, b. split; [exact E|].
  pose proof (finish_slot_atomic _ _ _ _ _ _ E) as (_ & D & _ & _ & _ & _ & A).
  split; [exact D|]. rewrite (ap_blocks _ _ _ A). apply lookup_insert_eq.
Defined.

Lemma toy_transfer_normal : entry_ok (toy_tx (str "0xabcd")).
Proof.
  split; [by apply toy_tx_wf|]. split; [|vm_compute; eauto]. constructor; [done|]. by exists [xab; xcd].
Qed.

Lemma slot_conserved_witness : exists s r b issued offset,
  toy_finished = Some (s, r, Some b) /\ accounted b (toy_validator_node (str "0xabcd")) s issued offset.
Proof.
  destruct toy_finished_some as (s & r & b & E).
  destruct (slot_conserved (Ok ()) (toy_validator_node (str "0xabcd")) toy_seed s r b) as (issued & offset & A).
  - apply toy_solvent.
  - constructor; [apply toy_transfer_normal|constructor].
  - constructor.
  - apply toy_room.
  - exact E.
  - exists s, r, b, issued, offset. split; [exact E|exact A].
Defined.

Lemma toy_ready : slot_ready (toy_validator_node (str "0xabcd")).
Proof.
  constructor.
  - apply toy_solvent.
  - apply toy_room.
  - by_computation.
  - constructor; [apply toy_transfer_normal|constructor].
  - constructor.
  - intros _. split; [|by_computation]. split_and!; by_computation.
  - by_computation.
Qed.

Lemma slot_progress_witness : exists b s r,
  toy_ticked = Some (s, r) /\ linear ([] ++ [b]) s.
Proof. apply slot_progress; [apply toy_linear|simpl; lia|apply toy_ready]. Defined.

Lemma toy_poisoned : poisoned (toy_validator_node (str "ABCD")).
Proof.
  constructor; [by vm_compute|by vm_compute|].
  assert (snd <$> execute_tx (toy_tx (str "ABCD")) (ledger (toy_validator_node (str "ABCD"))) = Some true) as X
    by (vm_compute; reflexivity).
  destruct (execute_tx _ _) as [[l ex]|] eqn:E in X; [|discriminate X]. injection X as ->.
  exists (toy_tx (str "ABCD")), [], l. split_and!; try done; try (cbn; unfold MAX_BLOCK_GAS; lia).
  intros [_ [b Hb]]. destruct b as [|x b]; [done|]. by vm_compute in Hb.
Qed.

(** Three rounds, one of them with a storage failure: still slot 0. *)
Lemma poisoned_pool_stalls_witness : exists s r,
  rounds [(Ok (), 3000%Z); (Err "disk full"%string, 6000%Z); (Ok (), 9000%Z)] (toy_validator_node (str "ABCD")) toy_seed
    = Some (s, r) /\ only_notes (toy_validator_node (str "ABCD")) s.
Proof.
  assert (some (rounds [(Ok (), 3000%Z); (Err "disk full"%string, 6000%Z); (Ok (), 9000%Z)]
    (toy_validator_node (str "ABCD")) toy_seed) = true) as X by (vm_compute; reflexivity).
  destruct (rounds _ _ _) as [[s r]|] eqn:E in X |- *; [|discriminate X]. exists s, r. split; [reflexivity|]. exact (proj1 (poisoned_pool_stalls _ _ _ _ _ toy_poisoned E)).
Defined.

(** The same deposit is included on the node's own chain. *)
Lemma foreign_bootstrap_panics_witness :
  finish_slot (Ok ()) (toy_bootstrap_node 1) toy_seed = None /\
  is_Some (finish_slot (Ok ()) (toy_bootstrap_node V1_CHAIN_ID) toy_seed).
Proof.
  split; [|apply some_inv; vm_compute; reflexivity].
  assert (snd <$> execute_pbm_tx (toy_deposit 1) (ledger (toy_bootstrap_node 1)) = Some true) as X by (vm_compute; reflexivity).
  destruct (execute_pbm_tx _ _) as [[l ex]|] eqn:E in X; [|discriminate X]. injection X as ->.
  apply (foreign_bootstrap_panics _ _ _ 0 (toy_deposit 1) l); try (vm_compute; reflexivity); [|exact E|left; discriminate].
  split; [vm_compute; reflexivity|vm_compute; eauto].
Defined.

Lemma unnamed_leader_panics_witness : finish_slot (Ok ()) toy_unnamed_node toy_seed = None.
Proof.
  apply unnamed_leader_panics; [|vm_compute; discriminate|vm_compute; reflexivity|right; reflexivity].
  split; [vm_compute; reflexivity|vm_compute; eauto].
Defined.
