(* ===== verification/PoashBase.v ===== *)
(** * The C1 profile: constants, errors and byte helpers (src/src/native_poash.rs)

    The closed two-validator experiment of src/src/native_poash/ shares one
    error enum, two writers ([text], [optional]) and one bounded decoder;
    this file models them.  The theorems of the other [Poash] files use the
    lemmas on writers proved here: each is self-delimiting. *)

From S2P Require Import Prelude Codec NativeTransaction.

Definition HEADER_PROFILE : Z := 3.
Definition OUTER_WIRE : Z := 4.
Definition INNER_WIRE : Z := 4.
Definition AUTH_ENCODING : Z := 1.
Definition AUTH_RULES : Z := 2.
Definition POASH_RULES : Z := 1.
Definition CHAIN_ID : Z := 1162.
Definition MAX_SLOTS : Z := 200.
Definition MAX_ENTRIES : Z := 16.
Definition MAX_TICKETS : Z := 256.
Definition MAX_ACCOUNTS : Z := 3 + MAX_SLOTS * MAX_ENTRIES.
Definition LOOKBACK : Z := 32.
Definition TICKET_COST : Z := 10000000000000.
Definition INITIAL_SUPPLY : Z := 1752000000000000.
Definition INITIAL_VAULT : Z := 60000000000000.
Definition YEAR_SLOTS : Z := 10512000.
Definition REWARD_HOLD_EPOCHS : Z := 4.

Module PoashError.
Inductive poash_error : Type :=
| Encoding (what : string)
| Profile (what : string)
| Duplicate (what : string)
| State (what : string)
| InsufficientCollateral (id : bytes)
| MissingHistory (slot : Z)
| Context (what : string)
| ExperimentLimit
| NoEligibleTickets
| UnknownProducer
| Signature (e : native_error)
| KeyMismatch
| NotSelected
| PlanMismatch
| Overflow.
End PoashError.
Abbreviation poash_error := PoashError.poash_error.

#[export] Instance poash_error_eq_dec : EqDecision poash_error.
Proof. solve_decision. Defined.

(** [text]: the length as [u16], then the UTF-8 bytes. *)
Definition text (s : bytes) : bytes := be_bytes 2 (Z.of_nat (length s)) ++ s.

Definition optional (n : option Z) : bytes :=
  match n with
  | None => be_bytes 1 0
  | Some v => be_bytes 1 1 ++ be_bytes 8 v
  end.

(** The decoder of this module: overflow and truncation errors. *)
Definition c_take (n : Z) : parser poash_error bytes :=
  p_take PoashError.Overflow (PoashError.Encoding "truncation") n.
Definition c_field (n : nat) : parser poash_error bytes :=
  p_field PoashError.Overflow (PoashError.Encoding "truncation") n.
Definition c_uint (n : nat) : parser poash_error Z :=
  p_uint PoashError.Overflow (PoashError.Encoding "truncation") n.

Definition c_text (max : Z) : parser poash_error bytes :=
  n ← c_uint 2;
  p_lift (fail_if (max <? n)%Z (PoashError.Encoding "text bound"));;
  s ← c_take n;
  p_lift (fail_if (negb (utf8_valid s)) (PoashError.Encoding "text UTF-8"));;
  mret s.

(** ** Self-delimiting writers *)

(** [enc] is self-delimiting on the values satisfying [P]. *)
Definition delimits {A} (P : A -> Prop) (enc : A -> bytes) : Prop :=
  forall a b x y, P a -> P b -> enc a ++ x = enc b ++ y -> a = b /\ x = y.

Lemma be_bytes_delimits n w : w = (256 ^ Z.of_nat n)%Z -> delimits (in_width w) (be_bytes n).
Proof.
  intros Hw a b x y Ha Hb E. apply app_inj_1 in E as [E ->]; [|by rewrite !length_be_bytes].
  split; [|done]. by eapply be_bytes_inj.
Qed.

Lemma fixed_delimits n : delimits (fun b : bytes => length b = n) (fun b => b).
Proof. intros a b x y Ha Hb E. apply app_inj_1 in E as [-> ->]; [done|congruence]. Qed.

Lemma text_delimits : delimits (fun s => (Z.of_nat (length s) < U16)%Z) text.
Proof.
  intros a b x y Ha Hb E. unfold text in E. rewrite <- !app_assoc in E.
  apply (be_bytes_delimits 2 U16) in E as [El E]; [|done|unfold in_width; lia..].
  apply app_inj_1 in E as [-> ->]; [done|lia].
Qed.

Lemma optional_delimits : delimits (fun o => if o is Some v then in_width U64 v else True) optional.
Proof.
  assert (in_width U8 0 /\ in_width U8 1) as [H0 H1] by (unfold in_width; lia).
  intros [a|] [b|] x y Ha Hb E; unfold optional in E; rewrite <- ?app_assoc in E;
    apply (be_bytes_delimits 1 U8) in E as [E0 E]; try done.
  apply (be_bytes_delimits 8 U64) in E as [-> ->]; done.
Qed.

(** A counted list of self-delimiting rows is self-delimiting. *)
Lemma rows_delimit {A} (P : A -> Prop) (enc : A -> bytes) l k x y :
  delimits P enc -> Forall P l -> Forall P k -> length l = length k ->
  concat (map enc l) ++ x = concat (map enc k) ++ y -> l = k /\ x = y.
Proof.
  intros Henc Hl. revert k. induction Hl as [|a l Ha Hl IH]; intros [|b k] Hk Hlen E; try done.
  cbn [map concat] in E. rewrite <- !app_assoc in E.
  apply Forall_cons in Hk as [Hb Hk].
  apply Henc in E as [-> E]; [|done..]. apply IH in E as [-> ->]; [done|done|]. by injection Hlen.
Qed.

Lemma text_parses s max :
  (Z.of_nat (length s) <= max)%Z -> (Z.of_nat (length s) < U16)%Z -> utf8_valid s = true ->
  parses (c_text max) (text s) s.
Proof.
  intros Hm Hl Hu. unfold c_text, text, c_uint, c_take.
  eapply parses_bind; [apply parses_u16; unfold in_width; lia|].
  parse_step; [by apply fail_if_false, Z.ltb_ge|].
  rewrite <- (app_nil_r s) at 2. eapply parses_bind; [by apply parses_take|].
  parse_step; [apply fail_if_false; by rewrite Hu|]. apply parses_ret.
Qed.

Lemma text_consumes max d s d' :
  c_text max d = Ok (s, d') ->
  (Z.of_nat (length s) <= max)%Z /\ (Z.of_nat (length s) < U16)%Z /\ utf8_valid s = true /\
  consumes d (text s) d'.
Proof.
  unfold c_text, c_uint, c_take. intros Hrun. inv_parse. inv_ok. subst.
  unfold in_width in *. split_and!; [lia|lia|done|]. unfold text. glue.
Qed.
