(* ===== verification/PoashState.v ===== *)
(** * Closed C1 snapshots (src/src/native_poash/state.rs)

    The typed snapshot of the two-validator experiment, the eligibility
    check shared with the selector, the snapshot validator
    [ClosedState::checked] and the canonical encoding its id hashes.  The
    retained annual record and the genesis policy the checks refer to
    (src/src/native_poash/genesis.rs) are declared here too.

    The theorems characterise the accepted snapshots, show that the rows'
    input order is irrelevant, and that a snapshot id determines the whole
    snapshot up to a hash collision. *)

From S2P Require Import Prelude Codec Crypto BlockCommitment NativeTransaction PoashBase.

(** ** Rows *)

Record Position : Type := mk_position { pos_slot : Z; pos_hash : bytes }.

Record C1Account : Type := mk_c1_account {
  acc_address : bytes;
  acc_balance : Z;
  acc_nonce : Z
}.

Module ValidatorStatus.
Inductive validator_status : Type := Active | PausedLowVault | Cooldown | Inactive | Jailed.
End ValidatorStatus.
Abbreviation validator_status := ValidatorStatus.validator_status.

Record C1Validator : Type := mk_c1_validator {
  v_id : bytes;
  v_status : validator_status;
  v_vault : Z;
  v_locked : Z;
  v_misses : Z;
  v_offenses : Z;
  v_produced : Z;
  v_cooldown_until : option Z
}.

Module TicketStatus.
Inductive ticket_status : Type := Active | Muted | Dead | Retiring.
End TicketStatus.
Abbreviation ticket_status := TicketStatus.ticket_status.

Record C1Ticket : Type := mk_c1_ticket {
  t_id : Z;
  t_owner : bytes;
  t_bucket : Z;
  t_status : ticket_status;
  t_retire_start : option Z;
  t_retire_effective : option Z
}.

Record RewardCredit : Type := mk_credit {
  c_slot : Z;
  c_validator : bytes;
  c_amount : Z
}.

Record SnapshotInput : Type := mk_snapshot {
  s_position : Position;
  s_accounts : list C1Account;
  s_validators : list C1Validator;
  s_tickets : list C1Ticket;
  s_credits : list RewardCredit;
  s_gas_used : Z;
  s_fees_burned : Z;
  s_base_issuance : Z
}.

#[export] Instance Position_eq_dec : EqDecision Position.
Proof. solve_decision. Defined.
#[export] Instance C1Account_eq_dec : EqDecision C1Account.
Proof. solve_decision. Defined.
#[export] Instance validator_status_eq_dec : EqDecision validator_status.
Proof. solve_decision. Defined.
#[export] Instance C1Validator_eq_dec : EqDecision C1Validator.
Proof. solve_decision. Defined.
#[export] Instance ticket_status_eq_dec : EqDecision ticket_status.
Proof. solve_decision. Defined.
#[export] Instance C1Ticket_eq_dec : EqDecision C1Ticket.
Proof. solve_decision. Defined.
#[export] Instance RewardCredit_eq_dec : EqDecision RewardCredit.
Proof. solve_decision. Defined.
#[export] Instance SnapshotInput_eq_dec : EqDecision SnapshotInput.
Proof. solve_decision. Defined.

(** [status as u8] *)
Definition validator_status_code (s : validator_status) : Z :=
  match s with
  | ValidatorStatus.Active => 0
  | ValidatorStatus.PausedLowVault => 1
  | ValidatorStatus.Cooldown => 2
  | ValidatorStatus.Inactive => 3
  | ValidatorStatus.Jailed => 4
  end.

Definition ticket_status_code (s : ticket_status) : Z :=
  match s with
  | TicketStatus.Active => 0
  | TicketStatus.Muted => 1
  | TicketStatus.Dead => 2
  | TicketStatus.Retiring => 3
  end.

(** ** The annual record and the genesis policy (genesis.rs) *)

Record YearZero : Type := mk_year_zero {
  yz_supply : Z;
  yz_numerator : Z;
  yz_denominator : Z;
  yz_reward : Z;
  yz_remainder : Z
}.

Definition YearZero_approved : YearZero :=
  let total := (INITIAL_SUPPLY * 3)%Z in
  let divisor := (50 * YEAR_SLOTS)%Z in
  mk_year_zero INITIAL_SUPPLY 3 50 (total / divisor) (total mod divisor).

Definition YearZero_encode (y : YearZero) : bytes :=
  be_bytes 8 0 ++ be_bytes 8 0 ++ be_bytes 8 1 ++
  concat (map (be_bytes 16) [yz_supply y; yz_numerator y; yz_denominator y; yz_reward y;
                             yz_remainder y; (50 * YEAR_SLOTS)%Z]).

Record ValidatorConfig : Type := mk_config {
  cfg_id : bytes;
  cfg_public_key : bytes;
  cfg_owner : bytes;
  cfg_reward : bytes;
  cfg_initial_vault : Z
}.

#[export] Instance ValidatorConfig_eq_dec : EqDecision ValidatorConfig.
Proof. solve_decision. Defined.

Record Policy : Type := mk_policy {
  pol_run_id : bytes;
  pol_network : bytes;
  pol_anchor : BlockHeader;
  pol_configs : list ValidatorConfig;
  pol_tickets : list C1Ticket;
  pol_seeds : list bytes
}.

#[export] Instance Policy_eq_dec : EqDecision Policy.
Proof. solve_decision. Defined.

Record ClosedState : Type := mk_closed {
  cs_policy : Policy;
  cs_data : SnapshotInput;
  cs_bytes : bytes;
  cs_id : bytes
}.

#[export] Instance ClosedState_eq_dec : EqDecision ClosedState.
Proof. solve_decision. Defined.

(** ** Eligibility *)

(** [2 + (id % 254) as u8] *)
Definition home_bucket (id : Z) : Z := 2 + id mod 254.

Definition Ticket_active (id : Z) (owner : bytes) : C1Ticket :=
  mk_c1_ticket id owner (home_bucket id) TicketStatus.Active None None.

(** The first loop; [ids] are the identities already inserted. *)
Fixpoint check_validators (ids : list bytes) (vs : list C1Validator) : result poash_error () :=
  match vs with
  | [] => Ok ()
  | v :: rest =>
      fail_if (negb ((v_id v ==? str "trial-A") || (v_id v ==? str "trial-B")))
        (PoashError.State "validator identity");;
      fail_if (bool_decide (v_id v ∈ ids)) (PoashError.Duplicate "validator");;
      fail_if (v_vault v <? v_locked v)%Z (PoashError.State "locked exceeds vault");;
      fail_if (negb (Bool.eqb (v_status v ==? ValidatorStatus.Cooldown)
                       (if v_cooldown_until v is Some _ then true else false)))
        (PoashError.State "cooldown metadata");;
      check_validators (v_id v :: ids) rest
  end.

(** The bucket a ticket of a given status must be in. *)
Definition expected_bucket (v : C1Validator) (t : C1Ticket) : result poash_error Z :=
  match t_status t with
  | TicketStatus.Active =>
      fail_if (v_status v !=? ValidatorStatus.Active)
        (PoashError.State "active ticket/inactive owner");;
      Ok (home_bucket (t_id t))
  | TicketStatus.Muted | TicketStatus.Retiring => Ok 1%Z
  | TicketStatus.Dead => Ok 0%Z
  end.

Definition retirement_ok (t : C1Ticket) : bool :=
  match t_retire_start t, t_retire_effective t with
  | None, None => t_status t !=? TicketStatus.Retiring
  | Some a, Some b => (a <? b)%Z && (t_status t !=? TicketStatus.Active)
  | _, _ => false
  end.

(** [validators.iter().find(|v| v.id == owner)] *)
Definition find_validator (vs : list C1Validator) (owner : bytes) : option C1Validator :=
  head (filter (fun v => v_id v = owner) vs).

Fixpoint check_tickets (vs : list C1Validator) (tids : list Z) (ts : list C1Ticket) :
    result poash_error () :=
  match ts with
  | [] => Ok ()
  | t :: rest =>
      fail_if (t_id t ==? 0)%Z (PoashError.State "zero ticket");;
      fail_if (bool_decide (t_id t ∈ tids)) (PoashError.Duplicate "ticket");;
      v ← ok_or (find_validator vs (t_owner t)) (PoashError.State "ticket owner");
      bucket ← expected_bucket v t;
      fail_if ((t_bucket t !=? bucket) ||
               ((v_status v ==? ValidatorStatus.Jailed) && (t_status t !=? TicketStatus.Dead)))
        (PoashError.State "ticket category/bucket");;
      fail_if (negb (retirement_ok t)) (PoashError.State "retirement metadata");;
      check_tickets vs (t_id t :: tids) rest
  end.

(** Tickets that back a validator's vault requirement. *)
Definition live_tickets (ts : list C1Ticket) (id : bytes) : list C1Ticket :=
  filter (fun t => t_owner t = id /\ t_status t <> TicketStatus.Dead) ts.

Definition minimum_vault (ts : list C1Ticket) (id : bytes) : Z :=
  5 * TICKET_COST + (TICKET_COST / 2) * Z.of_nat (length (live_tickets ts id)).

Fixpoint check_backing (ts : list C1Ticket) (vs : list C1Validator) : result poash_error () :=
  match vs with
  | [] => Ok ()
  | v :: rest =>
      (if v_status v ==? ValidatorStatus.Active then
         fail_if (negb (existsb (fun t => (t_owner t ==? v_id v) &&
                                           (t_status t ==? TicketStatus.Active)) ts))
           (PoashError.State "ACTIVE validator without active ticket");;
         fail_if (v_vault v <? minimum_vault ts (v_id v))%Z
           (PoashError.InsufficientCollateral (v_id v))
       else Ok ());;
      check_backing ts rest
  end.

Definition validate_eligibility (vs : list C1Validator) (ts : list C1Ticket) :
    result poash_error () :=
  fail_if ((length vs !=? 2%nat) || (MAX_TICKETS <? Z.of_nat (length ts))%Z)
    (PoashError.State "eligibility bounds");;
  check_validators [] vs;;
  check_tickets vs [] ts;;
  check_backing ts vs.

(** ** Canonical encoding *)

Definition encode_account (a : C1Account) : bytes :=
  acc_address a ++ be_bytes 16 (acc_balance a) ++ be_bytes 8 (acc_nonce a).

Definition encode_validator (v : C1Validator) : bytes :=
  text (v_id v) ++ be_bytes 1 (validator_status_code (v_status v)) ++
  be_bytes 16 (v_vault v) ++ be_bytes 16 (v_locked v) ++ be_bytes 4 (v_misses v) ++
  be_bytes 4 (v_offenses v) ++ be_bytes 8 (v_produced v) ++ optional (v_cooldown_until v).

Definition encode_ticket (t : C1Ticket) : bytes :=
  be_bytes 8 (t_id t) ++ text (t_owner t) ++ be_bytes 1 (t_bucket t) ++
  be_bytes 1 (ticket_status_code (t_status t)) ++ optional (t_retire_start t) ++
  optional (t_retire_effective t).

Definition encode_credit (c : RewardCredit) : bytes :=
  be_bytes 8 (c_slot c) ++ text (c_validator c) ++ be_bytes 16 (c_amount c) ++
  be_bytes 8 0 ++ be_bytes 8 REWARD_HOLD_EPOCHS.

(** Everything behind the credits is a fixed suffix but for four counters. *)
Definition encode_totals (d : SnapshotInput) : bytes :=
  be_bytes 8 (s_gas_used d) ++
  concat (map (be_bytes 16)
    [s_fees_burned d; (2 * TICKET_COST)%Z; s_base_issuance d; 0%Z; 0%Z; 0%Z; 0%Z]) ++
  zeros 24 ++ YearZero_encode YearZero_approved.

Definition encode (d : SnapshotInput) : bytes :=
  be_bytes 4 1 ++ be_bytes 8 (pos_slot (s_position d)) ++ pos_hash (s_position d) ++
  be_bytes 4 (Z.of_nat (length (s_accounts d))) ++ concat (map encode_account (s_accounts d)) ++
  be_bytes 2 (Z.of_nat (length (s_validators d))) ++
  concat (map encode_validator (s_validators d)) ++
  be_bytes 2 (Z.of_nat (length (s_tickets d))) ++ concat (map encode_ticket (s_tickets d)) ++
  be_bytes 2 (Z.of_nat (length (s_credits d))) ++ concat (map encode_credit (s_credits d)) ++
  encode_totals d.

(** ** The snapshot validator *)

Definition sort_snapshot (d : SnapshotInput) : SnapshotInput :=
  mk_snapshot (s_position d)
    (sort_by (fun a b => bytes_leb (acc_address a) (acc_address b)) (s_accounts d))
    (sort_by (fun a b => bytes_leb (v_id a) (v_id b)) (s_validators d))
    (sort_by (fun a b => (t_id a <=? t_id b)%Z) (s_tickets d))
    (sort_by (fun a b => (c_slot a <=? c_slot b)%Z) (s_credits d))
    (s_gas_used d) (s_fees_burned d) (s_base_issuance d).

(** [windows(2).any(|p| p[0].address == p[1].address)] *)
Fixpoint adjacent_duplicate (l : list C1Account) : bool :=
  match l with
  | a :: ((b :: _) as rest) => (acc_address a ==? acc_address b) || adjacent_duplicate rest
  | _ => false
  end.

(** [try_fold] of two checked sums over the account rows. *)
Fixpoint sum_accounts (l : list C1Account) (supply nonce_sum : Z) : result poash_error (Z * Z) :=
  match l with
  | [] => Ok (supply, nonce_sum)
  | a :: rest =>
      supply ← ok_or (checked_add U128 supply (acc_balance a)) PoashError.Overflow;
      nonce_sum ← ok_or (checked_add U64 nonce_sum (acc_nonce a)) PoashError.Overflow;
      sum_accounts rest supply nonce_sum
  end.

Fixpoint sum_validators (l : list C1Validator) (produced supply : Z) :
    result poash_error (Z * Z) :=
  match l with
  | [] => Ok (produced, supply)
  | v :: rest =>
      produced ← ok_or (checked_add U64 produced (v_produced v)) PoashError.Overflow;
      supply ← ok_or (checked_add U128 supply (v_vault v)) PoashError.Overflow;
      sum_validators rest produced supply
  end.

(** The credit loop: slots strictly increase after the sort; [sums] counts
    and adds the credits of each validator. *)
Fixpoint sum_credits (configs : list ValidatorConfig) (slot reward prior : Z)
    (sums : gmap bytes (Z * Z)) (l : list RewardCredit) :
    result poash_error (gmap bytes (Z * Z)) :=
  match l with
  | [] => Ok sums
  | c :: rest =>
      fail_if ((c_slot c ==? 0) || (slot <? c_slot c) || (c_slot c ==? prior) ||
               (c_amount c !=? reward))%Z (PoashError.State "earning credit slot/amount");;
      fail_if (negb (existsb (fun v => cfg_id v ==? c_validator c) configs))
        (PoashError.State "credit identity");;
      let e := default (0, 0)%Z (sums !! c_validator c) in
      total ← ok_or (checked_add U128 e.2 (c_amount c)) PoashError.Overflow;
      sum_credits configs slot reward (c_slot c)
        (<[c_validator c := ((e.1 + 1)%Z, total)]> sums) rest
  end.

Fixpoint reconcile (sums : gmap bytes (Z * Z)) (l : list C1Validator) : result poash_error () :=
  match l with
  | [] => Ok ()
  | v :: rest =>
      let e := default (0, 0)%Z (sums !! v_id v) in
      fail_if ((e.1 !=? v_produced v) || (e.2 !=? v_locked v))
        (PoashError.State "locked credit reconciliation");;
      vault ← ok_or (checked_add U128 INITIAL_VAULT e.2) PoashError.Overflow;
      fail_if (v_vault v !=? vault) (PoashError.State "C1 vault/retained credits");;
      reconcile sums rest
  end.

(** [for (v, c) in a.iter().zip(b)] with one failing test. *)
Fixpoint zip_check {A B} (test : A -> B -> bool) (e : poash_error) (l : list A) (k : list B) :
    result poash_error () :=
  match l, k with
  | a :: l', b :: k' => fail_if (negb (test a b)) e;; zip_check test e l' k'
  | _, _ => Ok ()
  end.

Section Snapshots.
  Context `{KE : Keccak}.

Definition snapshot_id (policy : Policy) (bs : bytes) : bytes :=
  hash_with_domain (str "ETERNIX_POASH_C1_SNAPSHOT" ++ [x00]) (pol_network policy ++ bs).

Definition ClosedState_checked (policy : Policy) (input : SnapshotInput) :
    result poash_error ClosedState :=
  let n := Z.of_nat (length (s_accounts input)) in
  fail_if ((MAX_SLOTS <? pos_slot (s_position input)) || (MAX_ACCOUNTS <? n) || (n <? 3) ||
           (length (s_validators input) !=? 2%nat) || (length (s_tickets input) !=? 2%nat) ||
           (MAX_SLOTS <? Z.of_nat (length (s_credits input))))%Z
    (PoashError.State "C1 snapshot bounds");;
  let data := sort_snapshot input in
  fail_if (adjacent_duplicate (s_accounts data)) (PoashError.Duplicate "account");;
  validate_eligibility (s_validators data) (s_tickets data);;
  zip_check (fun v c => v_id v ==? cfg_id c) (PoashError.State "closed validator identity")
    (s_validators data) (pol_configs policy);;
  zip_check (fun t i => (t_id t ==? t_id i) && (t_owner t ==? t_owner i))
    (PoashError.State "closed ticket identity/ownership") (s_tickets data) (pol_tickets policy);;
  fail_if ((MAX_SLOTS * MAX_ENTRIES * 1000 <? s_gas_used data) ||
           negb (s_gas_used data mod 1000 =? 0) ||
           negb (s_fees_burned data =? s_gas_used data * 10))%Z
    (PoashError.State "native cumulative gas/fees");;
  '(supply, nonce_sum) ← sum_accounts (s_accounts data) 0 0;
  fail_if (nonce_sum !=? s_gas_used data / 1000)%Z (PoashError.State "canonical nonce/gas total");;
  let record := YearZero_approved in
  '(produced, supply) ← sum_validators (s_validators data) 0 supply;
  fail_if ((produced !=? pos_slot (s_position data)) ||
           (s_base_issuance data !=? yz_reward record * produced))%Z
    (PoashError.State "participation/base record");;
  expected ← ok_or (s ← checked_add U128 INITIAL_SUPPLY (s_base_issuance data);
                    checked_sub s (s_fees_burned data)) PoashError.Overflow;
  fail_if (supply !=? expected) (PoashError.State "ETX supply conservation");;
  sums ← sum_credits (pol_configs policy) (pos_slot (s_position data)) (yz_reward record) 0 ∅
           (s_credits data);
  fail_if (Z.of_nat (length (s_credits data)) !=? produced) (PoashError.State "missing earning event");;
  reconcile sums (s_validators data);;
  fail_if (negb (forallb (fun seed => existsb (fun a => acc_address a ==? seed) (s_accounts data))
             (pol_seeds policy))) (PoashError.State "initial account omitted");;
  let bs := encode data in
  Ok (mk_closed policy data bs (snapshot_id policy bs)).
End Snapshots.

(** ** Specification of an accepted snapshot *)

Definition sum_of {A} (f : A -> Z) (l : list A) : Z := foldr (fun a s => (f a + s)%Z) 0%Z l.

Definition credits_of (id : bytes) (l : list RewardCredit) : list RewardCredit :=
  filter (fun c => c_validator c = id) l.

(** The field types of the rows. *)
Record wf_rows (d : SnapshotInput) : Prop := {
  wr_slot : in_width U64 (pos_slot (s_position d));
  wr_hash : length (pos_hash (s_position d)) = 32%nat;
  wr_accounts : Forall (fun a => length (acc_address a) = 20%nat /\
    in_width U128 (acc_balance a) /\ in_width U64 (acc_nonce a)) (s_accounts d);
  wr_validators : Forall (fun v => in_width U128 (v_vault v) /\ in_width U128 (v_locked v) /\
    in_width U32 (v_misses v) /\ in_width U32 (v_offenses v) /\ in_width U64 (v_produced v) /\
    (if v_cooldown_until v is Some n then in_width U64 n else True)) (s_validators d);
  wr_tickets : Forall (fun t => in_width U64 (t_id t) /\ in_width U8 (t_bucket t) /\
    (if t_retire_start t is Some n then in_width U64 n else True) /\
    (if t_retire_effective t is Some n then in_width U64 n else True)) (s_tickets d);
  wr_credits : Forall (fun c => in_width U64 (c_slot c) /\ in_width U128 (c_amount c)) (s_credits d);
  wr_gas : in_width U64 (s_gas_used d);
  wr_fees : in_width U128 (s_fees_burned d);
  wr_issuance : in_width U128 (s_base_issuance d)
}.

(** The retained reward of the approved record: ten million quarks. *)
Lemma approved_reward : yz_reward YearZero_approved = 10000000%Z.
Proof. done. Qed.

Record valid_snapshot (policy : Policy) (d : SnapshotInput) : Prop := {
  vs_slot : (pos_slot (s_position d) <= MAX_SLOTS)%Z;
  vs_sizes : (3 <= Z.of_nat (length (s_accounts d)) <= MAX_ACCOUNTS)%Z /\
    length (s_validators d) = 2%nat /\ length (s_tickets d) = 2%nat;
  (** one row per address *)
  vs_unique : NoDup (map acc_address (s_accounts d));
  vs_eligible : validate_eligibility (s_validators d) (s_tickets d) = Ok ();
  vs_closed : zip_check (fun v c => v_id v ==? cfg_id c)
      (PoashError.State "closed validator identity") (s_validators d) (pol_configs policy) = Ok () /\
    zip_check (fun t i => (t_id t ==? t_id i) && (t_owner t ==? t_owner i))
      (PoashError.State "closed ticket identity/ownership") (s_tickets d) (pol_tickets policy) = Ok ();
  (** native gas and fees move together; every transfer used one nonce *)
  vs_gas : (s_gas_used d <= 3200000)%Z /\ (s_gas_used d mod 1000 = 0)%Z /\
    s_fees_burned d = (s_gas_used d * 10)%Z /\
    sum_of acc_nonce (s_accounts d) = (s_gas_used d / 1000)%Z;
  (** one produced block per slot, one fixed reward per block *)
  vs_produced : sum_of v_produced (s_validators d) = pos_slot (s_position d) /\
    s_base_issuance d = (10000000 * pos_slot (s_position d))%Z;
  (** conservation of ETX *)
  vs_supply : (sum_of acc_balance (s_accounts d) + sum_of v_vault (s_validators d) =
    INITIAL_SUPPLY + s_base_issuance d - s_fees_burned d)%Z;
  vs_credit_slots : NoDup (map c_slot (s_credits d)) /\
    Z.of_nat (length (s_credits d)) = pos_slot (s_position d);
  vs_credits : Forall (fun c => (0 < c_slot c <= pos_slot (s_position d))%Z /\
    c_amount c = 10000000%Z /\ exists v, v ∈ pol_configs policy /\ cfg_id v = c_validator c)
    (s_credits d);
  (** vaults are the initial stake plus the validator's retained credits *)
  vs_vaults : Forall (fun v =>
    Z.of_nat (length (credits_of (v_id v) (s_credits d))) = v_produced v /\
    v_locked v = (10000000 * v_produced v)%Z /\
    v_vault v = (INITIAL_VAULT + v_locked v)%Z) (s_validators d);
  vs_seeds : Forall (fun seed => seed ∈ map acc_address (s_accounts d)) (pol_seeds policy)
}.

(** ** Sums and loops *)

Lemma sum_of_nonneg {A} (f : A -> Z) l : Forall (fun a => (0 <= f a)%Z) l -> (0 <= sum_of f l)%Z.
Proof. induction 1; simpl; lia. Qed.

Lemma sum_of_elem {A} (f : A -> Z) l a :
  Forall (fun a => (0 <= f a)%Z) l -> a ∈ l -> (f a <= sum_of f l)%Z.
Proof.
  induction 1 as [|b l Hb Hl IH]; intros Ha; [by apply not_elem_of_nil in Ha|].
  pose proof (sum_of_nonneg f l Hl). simpl.
  apply elem_of_cons in Ha as [->|Ha]; [lia|]. specialize (IH Ha). lia.
Qed.

Lemma sum_of_perm {A} (f : A -> Z) l k : l ≡ₚ k -> sum_of f l = sum_of f k.
Proof. unfold sum_of. induction 1; simpl in *; lia. Qed.

Lemma sum_accounts_iff l s n r :
  Forall (fun a => (0 <= acc_balance a)%Z /\ (0 <= acc_nonce a)%Z) l ->
  sum_accounts l s n = Ok r <->
  (l <> [] -> (s + sum_of acc_balance l < U128)%Z /\ (n + sum_of acc_nonce l < U64)%Z) /\
  r = ((s + sum_of acc_balance l)%Z, (n + sum_of acc_nonce l)%Z).
Proof.
  intros Hl. revert s n. induction Hl as [|a l [Hb Hn] Hl IH]; intros s n; simpl.
  { rewrite !Z.add_0_r. naive_solver. }
  pose proof (sum_of_nonneg acc_balance l ltac:(eapply Forall_impl; [exact Hl|]; simpl; tauto)).
  pose proof (sum_of_nonneg acc_nonce l ltac:(eapply Forall_impl; [exact Hl|]; simpl; tauto)).
  unfold checked_add.
  destruct (Z.ltb_spec (s + acc_balance a) U128) as [H1|H1]; simpl.
  2:{ split; [done|]. intros [Hx _]. specialize (Hx ltac:(done)). lia. }
  destruct (Z.ltb_spec (n + acc_nonce a) U64) as [H2|H2]; simpl.
  2:{ split; [done|]. intros [Hx _]. specialize (Hx ltac:(done)). lia. }
  rewrite IH, !Z.add_assoc. split; (intros [Hx ->]; split; [|done]).
  - intros _. destruct l as [|b l]; [simpl; lia|]. by apply Hx.
  - intros _. by apply Hx.
Qed.

Lemma sum_validators_iff l p s r :
  Forall (fun v => (0 <= v_produced v)%Z /\ (0 <= v_vault v)%Z) l ->
  sum_validators l p s = Ok r <->
  (l <> [] -> (p + sum_of v_produced l < U64)%Z /\ (s + sum_of v_vault l < U128)%Z) /\
  r = ((p + sum_of v_produced l)%Z, (s + sum_of v_vault l)%Z).
Proof.
  intros Hl. revert p s. induction Hl as [|a l [Hb Hn] Hl IH]; intros p s; simpl.
  { rewrite !Z.add_0_r. naive_solver. }
  pose proof (sum_of_nonneg v_produced l ltac:(eapply Forall_impl; [exact Hl|]; simpl; tauto)).
  pose proof (sum_of_nonneg v_vault l ltac:(eapply Forall_impl; [exact Hl|]; simpl; tauto)).
  unfold checked_add.
  destruct (Z.ltb_spec (p + v_produced a) U64) as [H1|H1]; simpl.
  2:{ split; [done|]. intros [Hx _]. specialize (Hx ltac:(done)). lia. }
  destruct (Z.ltb_spec (s + v_vault a) U128) as [H2|H2]; simpl.
  2:{ split; [done|]. intros [Hx _]. specialize (Hx ltac:(done)). lia. }
  rewrite IH, !Z.add_assoc. split; (intros [Hx ->]; split; [|done]).
  - intros _. destruct l as [|b l]; [simpl; lia|]. by apply Hx.
  - intros _. by apply Hx.
Qed.

Lemma adjacent_duplicate_false l :
  sorted (fun a b => bytes_leb (acc_address a) (acc_address b)) l ->
  adjacent_duplicate l = false <-> NoDup (map acc_address l).
Proof.
  induction 1 as [|a l Hle Hl IH]; [split; [constructor|done]|].
  destruct l as [|b l].
  { split; [intros _; simpl; apply NoDup_singleton|done]. }
  change (adjacent_duplicate (a :: b :: l)) with
    ((acc_address a ==? acc_address b) || adjacent_duplicate (b :: l)).
  rewrite orb_false_iff, IH, bool_decide_eq_false. cbn [map]. rewrite (NoDup_cons (acc_address a)).
  split; [|intros [Ha Hnd]; split; [|done]; intros E; apply Ha; rewrite E; left].
  intros [Hab Hnd]. split; [|done]. intros [E|Hin]%elem_of_cons; [done|].
  apply list_elem_of_fmap in Hin as (z & E & Hz).
  inversion_clear Hl as [|? ? Hbz _]. apply Hab, bytes_leb_antisym.
  - apply Hle. left.
  - rewrite E. by apply Hbz.
Qed.

(** ** The credit loop *)

Definition credit_entry (sums : gmap bytes (Z * Z)) (id : bytes) : Z * Z :=
  default (0, 0)%Z (sums !! id).

Definition credit_ok (configs : list ValidatorConfig) (slot : Z) (c : RewardCredit) : Prop :=
  (0 < c_slot c <= slot)%Z /\ c_amount c = 10000000%Z /\
  exists v, v ∈ configs /\ cfg_id v = c_validator c.

Lemma known_config configs id :
  existsb (fun v => cfg_id v ==? id) configs = true <-> exists v, v ∈ configs /\ cfg_id v = id.
Proof.
  rewrite existsb_exists. split.
  - intros (v & Hv & E%bool_decide_eq_true). exists v. by rewrite list_elem_of_In.
  - intros (v & Hv & E). exists v. rewrite <- list_elem_of_In. split; [done|].
    by apply bool_decide_eq_true.
Qed.

Lemma credit_entry_insert sums id e id' :
  credit_entry (<[id := e]> sums) id' = if decide (id' = id) then e else credit_entry sums id'.
Proof.
  unfold credit_entry. case_decide as E.
  - subst. by rewrite lookup_insert_eq.
  - by rewrite lookup_insert_ne.
Qed.

Definition slots_sorted : list RewardCredit -> Prop := sorted (fun a b => (c_slot a <=? c_slot b)%Z).

Lemma sum_credits_sound configs slot prior sums l sums' :
  slots_sorted l -> Forall (fun c => (0 <= c_slot c)%Z) l ->
  (forall c, c ∈ l -> (prior <= c_slot c)%Z) ->
  sum_credits configs slot 10000000 prior sums l = Ok sums' ->
  Forall (credit_ok configs slot) l /\ NoDup (map c_slot l) /\ (prior ∉ map c_slot l) /\
  forall id, credit_entry sums' id =
    let n := Z.of_nat (length (credits_of id l)) in
    let e := credit_entry sums id in ((e.1 + n)%Z, (e.2 + 10000000 * n)%Z).
Proof.
  intros Hs Hw. revert prior sums. induction Hs as [|c l Hle Hs IH]; intros prior sums Hp H.
  { injection H as <-. split_and!; [constructor..|apply not_elem_of_nil|].
    intros id. simpl. destruct (credit_entry sums id) as [a b]; simpl. f_equal; lia. }
  apply Forall_cons in Hw as [Hw0 Hw].
  cbn [sum_credits] in H. cbv zeta in H. fold (credit_entry sums (c_validator c)) in H.
  apply bind_Ok in H as ([] & H1 & H). apply bind_Ok in H as ([] & H2 & H).
  apply bind_Ok in H as (total & H3 & H). inv_ok. subst total.
  assert (forall c0, c0 ∈ l -> (c_slot c <= c_slot c0)%Z) as Hle'.
  { intros c0 Hc0. by apply Z.leb_le, Hle. }
  destruct (IH Hw _ _ Hle' H) as (HF & Hnd & Hnin & He). split_and!.
  - constructor; [|done]. split_and!; [lia|lia|done|]. by apply known_config.
  - cbn [map]. by apply NoDup_cons.
  - cbn [map]. intros [E|Hin]%elem_of_cons; [done|].
    apply list_elem_of_fmap in Hin as (c0 & E & Hc0).
    pose proof (Hle' c0 Hc0). pose proof (Hp c ltac:(left)).
    apply Hnin. apply list_elem_of_fmap. exists c0. split; [|done]. lia.
  - intros id. rewrite He. cbv zeta. unfold credits_of. rewrite filter_cons, credit_entry_insert.
    match goal with H : c_amount c = _ |- _ => rewrite H end.
    case_decide; subst.
    + rewrite decide_True by done. cbn [fst snd length].
      destruct (credit_entry sums (c_validator c)) as [a b]; simpl fst; simpl snd. f_equal; lia.
    + rewrite decide_False by congruence. done.
Qed.

Lemma sum_credits_complete configs slot prior sums l k :
  Forall (credit_ok configs slot) l -> slots_sorted l ->
  NoDup (prior :: map c_slot l) ->
  (forall id, ((credit_entry sums id).2 <= 10000000 * Z.of_nat k)%Z) ->
  (k + length l <= 1000)%nat ->
  exists sums', sum_credits configs slot 10000000 prior sums l = Ok sums'.
Proof.
  intros HF Hs. revert prior sums k. induction HF as [|c l (Hc1 & Hc2 & Hc3) HF IH];
    intros prior sums k Hnd Hb Hk; [eauto|].
  inversion_clear Hs as [|? ? _ Hs']. cbn [map] in Hnd. apply NoDup_cons in Hnd as [Hp Hnd].
  cbn [sum_credits]. cbv zeta. fold (credit_entry sums (c_validator c)).
  assert (c_slot c <> prior) as Hpc by (intros E; apply Hp; rewrite E; left).
  rewrite (proj2 (known_config _ _) Hc3).
  rewrite (bool_decide_eq_false_2 (c_slot c = 0)%Z) by lia.
  rewrite (bool_decide_eq_false_2 (c_slot c = prior)) by done.
  rewrite (proj2 (Z.ltb_ge _ _)) by lia. rewrite neq_dec_false by done.
  pose proof (Hb (c_validator c)). simpl in Hk.
  unfold checked_add. rewrite (proj2 (Z.ltb_lt _ _)) by lia. simpl.
  apply (IH Hs' (c_slot c) _ (S k)); [done| |lia].
  intros id. rewrite credit_entry_insert. pose proof (Hb id). case_decide; simpl; lia.
Qed.

Lemma reconcile_iff sums l :
  reconcile sums l = Ok () <->
  Forall (fun v => credit_entry sums (v_id v) = (v_produced v, v_locked v) /\
    (INITIAL_VAULT + v_locked v < U128)%Z /\ v_vault v = (INITIAL_VAULT + v_locked v)%Z) l.
Proof.
  induction l as [|v l IH]; [split; [constructor|done]|].
  cbn [reconcile]. cbv zeta. fold (credit_entry sums (v_id v)). rewrite Forall_cons, <- IH.
  destruct (credit_entry sums (v_id v)) as [a b]; cbn [fst snd]. split.
  - intros H. inv_ok. by subst.
  - intros [([= -> ->] & Hlt & ->) Hr]. rewrite !neq_dec_false by done. simpl.
    unfold checked_add. rewrite (proj2 (Z.ltb_lt _ _)) by done. simpl.
    by rewrite neq_dec_false.
Qed.

Lemma seeds_iff seeds accs :
  forallb (fun seed => existsb (fun a => acc_address a ==? seed) accs) seeds = true <->
  Forall (fun seed => seed ∈ map acc_address accs) seeds.
Proof.
  rewrite forallb_forall, Forall_forall. split; intros H seed Hs.
  - apply list_elem_of_In in Hs. specialize (H seed Hs). apply existsb_exists in H as (a & Ha & E).
    apply bool_decide_eq_true in E. apply list_elem_of_fmap. exists a. by rewrite list_elem_of_In.
  - apply list_elem_of_In in Hs. specialize (H seed Hs). apply list_elem_of_fmap in H as (a & E & Ha).
    apply existsb_exists. exists a. rewrite <- list_elem_of_In. split; [done|].
    by apply bool_decide_eq_true.
Qed.

(** ** Sorting the rows *)

Lemma sort_snapshot_perm d :
  s_accounts (sort_snapshot d) ≡ₚ s_accounts d /\ s_validators (sort_snapshot d) ≡ₚ s_validators d /\
  s_tickets (sort_snapshot d) ≡ₚ s_tickets d /\ s_credits (sort_snapshot d) ≡ₚ s_credits d.
Proof. simpl. split_and!; apply sort_by_perm. Qed.

Lemma wf_rows_sorted d : wf_rows d <-> wf_rows (sort_snapshot d).
Proof.
  pose proof (sort_snapshot_perm d) as (H1 & H2 & H3 & H4).
  split; intros [? ? Ha Hv Ht Hc ? ? ?]; constructor; try done.
  - by rewrite H1.
  - by rewrite H2.
  - by rewrite H3.
  - by rewrite H4.
  - by rewrite <- H1.
  - by rewrite <- H2.
  - by rewrite <- H3.
  - by rewrite <- H4.
Qed.

Lemma accounts_sorted d :
  sorted (fun a b => bytes_leb (acc_address a) (acc_address b)) (s_accounts (sort_snapshot d)).
Proof.
  apply (sort_by_sorted (fun a b => bytes_leb (acc_address a) (acc_address b)));
    intros; [apply bytes_leb_total|by eapply bytes_leb_trans].
Qed.

Lemma credits_sorted d : slots_sorted (s_credits (sort_snapshot d)).
Proof.
  apply (sort_by_sorted (fun a b => (c_slot a <=? c_slot b)%Z)); intros.
  - destruct (Z.le_ge_cases (c_slot x) (c_slot y)); [left|right]; by apply Z.leb_le.
  - rewrite Z.leb_le in *. lia.
Qed.

Section Checked.
  Context {KE : Keccak}.

Definition closed_state (policy : Policy) (d : SnapshotInput) : ClosedState :=
  mk_closed policy d (encode d) (snapshot_id policy (encode d)).

(** The bounds of the rows, stated on the sorted snapshot. *)
Definition snapshot_bounds (d : SnapshotInput) : Prop :=
  (pos_slot (s_position d) <= MAX_SLOTS)%Z /\
  (3 <= Z.of_nat (length (s_accounts d)) <= MAX_ACCOUNTS)%Z /\
  length (s_validators d) = 2%nat /\ length (s_tickets d) = 2%nat /\
  (Z.of_nat (length (s_credits d)) <= MAX_SLOTS)%Z.

Lemma snapshot_bounds_iff input :
  ((MAX_SLOTS <? pos_slot (s_position input)) ||
   (MAX_ACCOUNTS <? Z.of_nat (length (s_accounts input))) ||
   (Z.of_nat (length (s_accounts input)) <? 3) ||
   (length (s_validators input) !=? 2%nat) || (length (s_tickets input) !=? 2%nat) ||
   (MAX_SLOTS <? Z.of_nat (length (s_credits input))))%Z = false <->
  snapshot_bounds (sort_snapshot input).
Proof.
  pose proof (sort_snapshot_perm input) as (H1 & H2 & H3 & H4). unfold snapshot_bounds.
  rewrite H1, H2, H3, H4. change (s_position (sort_snapshot input)) with (s_position input). split.
  - intros H. inv_ok. split_and!; done || lia.
  - intros (? & [? ?] & ? & ? & ?). rewrite !neq_dec_false by done.
    rewrite !(proj2 (Z.ltb_ge _ _)) by done. done.
Qed.

Lemma nonneg_rows d :
  wf_rows d ->
  Forall (fun a => (0 <= acc_balance a)%Z /\ (0 <= acc_nonce a)%Z) (s_accounts d) /\
  Forall (fun v => (0 <= v_produced v)%Z /\ (0 <= v_vault v)%Z) (s_validators d) /\
  Forall (fun c => (0 <= c_slot c)%Z) (s_credits d).
Proof.
  intros [? ? Ha Hv _ Hc _ _ _]. split_and!.
  - eapply Forall_impl; [exact Ha|]. unfold in_width. simpl. lia.
  - eapply Forall_impl; [exact Hv|]. unfold in_width. simpl. intros. destruct_and!. lia.
  - eapply Forall_impl; [exact Hc|]. unfold in_width. simpl. lia.
Qed.

Lemma checked_sound policy input cs :
  wf_rows input -> ClosedState_checked policy input = Ok cs ->
  valid_snapshot policy (sort_snapshot input) /\ cs = closed_state policy (sort_snapshot input).
Proof.
  intros Hwf%wf_rows_sorted. unfold ClosedState_checked. cbv zeta.
  set (d := sort_snapshot input) in *. intros H.
  apply bind_Ok in H as ([] & Hbounds & H). apply fail_if_Ok, snapshot_bounds_iff in Hbounds as Hb.
  destruct Hb as (? & ? & ? & ? & Hcred).
  apply bind_Ok in H as ([] & Hdup & H). apply fail_if_Ok in Hdup.
  rewrite adjacent_duplicate_false in Hdup by apply accounts_sorted.
  apply bind_Ok in H as ([] & Helig & H). apply bind_Ok in H as ([] & Hz1 & H).
  apply bind_Ok in H as ([] & Hz2 & H). apply bind_Ok in H as ([] & Hgas & H).
  apply bind_Ok in H as ([supply nonces] & Hsum & H).
  pose proof (nonneg_rows d Hwf) as (Hn1 & Hn2 & Hn3).
  apply sum_accounts_iff in Hsum as [_ [= -> ->]]; [|done].
  apply bind_Ok in H as ([] & Hnonce & H).
  apply bind_Ok in H as ([produced supply] & Hsum & H).
  apply sum_validators_iff in Hsum as [_ [= -> ->]]; [|done]. rewrite !Z.add_0_l in *.
  rewrite approved_reward in H.
  apply bind_Ok in H as ([] & Hprod & H).
  apply bind_Ok in H as (expected & Hexp & H). apply bind_Ok in H as ([] & Hsup & H).
  apply bind_Ok in H as (sums & Hsums & H). apply bind_Ok in H as ([] & Hlen & H).
  apply bind_Ok in H as ([] & Hrec & H). apply bind_Ok in H as ([] & Hseeds & H).
  injection H as <-.
  apply sum_credits_sound in Hsums as (HF & Hnd & _ & Hent); [|apply credits_sorted|done|].
  2:{ intros c Hc. rewrite Forall_forall in Hn3. by apply Hn3. }
  apply ok_or_Ok in Hexp. destruct (checked_add _ _ _) as [e0|] eqn:He0; [|done].
  simpl in Hexp. apply reconcile_iff in Hrec. apply fail_if_Ok, negb_false_iff, seeds_iff in Hseeds.
  inv_ok. subst. split; [|done].
  constructor; try done; try (split_and!; done || lia).
  rewrite Forall_forall in *. intros v Hv. destruct (Hrec v Hv) as (E & _ & Hvault).
  rewrite Hent in E. cbv zeta in E. injection E as E1 E2.
  change (credit_entry ∅ (v_id v)) with (0, 0)%Z in *. simpl in *. split_and!; [lia|lia|done].
Qed.

Lemma checked_complete policy input :
  wf_rows input -> valid_snapshot policy (sort_snapshot input) ->
  ClosedState_checked policy input = Ok (closed_state policy (sort_snapshot input)).
Proof.
  intros Hwf%wf_rows_sorted [Hslot (Hacc & Hv & Ht) Hu Hel [Hz1 Hz2] (Hg1 & Hg2 & Hf & Hno)
    [Hp Hbase] Hsup [Hcs Hcl] Hc Hva Hse].
  unfold ClosedState_checked. cbv zeta. set (d := sort_snapshot input) in *.
  assert (snapshot_bounds d) as Hb by (split_and!; unfold MAX_SLOTS in *; done || lia).
  pose proof (nonneg_rows d Hwf) as (Hn1 & Hn2 & Hn3). pose proof (wr_slot d Hwf) as Hsl.
  unfold in_width in Hsl. pose proof (wr_gas d Hwf) as [Hg0 _].
  rewrite (proj2 (snapshot_bounds_iff input) Hb).
  assert (adjacent_duplicate (s_accounts d) = false) as ->
    by (by apply adjacent_duplicate_false; [apply accounts_sorted|]).
  pose proof (credits_sorted input) as Hcsorted. fold d in Hcsorted. clearbody d. simpl fail_if.
  rewrite bind_of_Ok.
  rewrite bind_of_Ok, Hel, bind_of_Ok, Hz1, bind_of_Ok, Hz2, bind_of_Ok.
  change (MAX_SLOTS * MAX_ENTRIES * 1000)%Z with 3200000%Z.
  rewrite (proj2 (Z.ltb_ge 3200000 _)) by done. rewrite Hg2, Hf, !Z.eqb_refl. simpl fail_if.
  rewrite bind_of_Ok. unfold MAX_SLOTS, INITIAL_SUPPLY in *.
  assert (0 <= sum_of acc_balance (s_accounts d))%Z.
  { apply sum_of_nonneg. eapply Forall_impl; [exact Hn1|]. simpl. tauto. }
  assert (0 <= sum_of v_vault (s_validators d))%Z.
  { apply sum_of_nonneg. eapply Forall_impl; [exact Hn2|]. simpl. tauto. }
  assert (s_gas_used d / 1000 <= 3200)%Z by (apply Z.div_le_upper_bound; lia).
  assert (sum_accounts (s_accounts d) 0 0 =
    Ok (sum_of acc_balance (s_accounts d), sum_of acc_nonce (s_accounts d))) as ->.
  { apply sum_accounts_iff; [done|]. split; [lia|done]. }
  rewrite bind_of_Ok, Hno. rewrite neq_dec_false by done. simpl fail_if.
  rewrite bind_of_Ok.
  assert (sum_validators (s_validators d) 0 (sum_of acc_balance (s_accounts d)) =
    Ok (pos_slot (s_position d),
        (sum_of acc_balance (s_accounts d) + sum_of v_vault (s_validators d))%Z)) as ->.
  { apply sum_validators_iff; [done|]. rewrite <- Hp. split; [lia|done]. }
  rewrite bind_of_Ok, approved_reward, Hbase.
  rewrite !neq_dec_false by done. simpl fail_if. rewrite bind_of_Ok.
  unfold checked_add, checked_sub. rewrite (proj2 (Z.ltb_lt _ _)) by lia. simpl mbind at 1.
  rewrite (proj2 (Z.leb_le _ _)) by lia. unfold ok_or at 1. rewrite bind_of_Ok.
  rewrite neq_dec_false by lia. simpl fail_if. rewrite bind_of_Ok.
  destruct (sum_credits_complete (pol_configs policy) (pos_slot (s_position d)) 0 ∅ (s_credits d) 0)
    as [sums Hsums]; [done|done| | |lia|].
  { apply NoDup_cons. split; [|done]. intros (c & E & Hin)%list_elem_of_fmap.
    rewrite Forall_forall in Hc. specialize (Hc c Hin). lia. }
  { intros id. unfold credit_entry. rewrite lookup_empty. simpl. lia. }
  pose proof Hsums as (_ & _ & _ & Hent)%sum_credits_sound; [|done|done|].
  2:{ intros c Hin. rewrite Forall_forall in Hn3. by apply Hn3. }
  rewrite Hsums, bind_of_Ok.
  rewrite (proj2 (reconcile_iff sums (s_validators d))).
  - rewrite bind_of_Ok. by rewrite (proj2 (seeds_iff _ _) Hse).
  - pose proof Hva as Hva'. rewrite Forall_forall in Hva' |- *. intros v Hin.
    destruct (Hva' v Hin) as (E1 & E2 & E3). rewrite Hent. cbv zeta.
    change (credit_entry ∅ (v_id v)) with (0, 0)%Z. simpl.
    split_and!; [f_equal; lia| |done].
    assert (v_produced v <= sum_of v_produced (s_validators d))%Z as Hle.
    { apply sum_of_elem; [|done]. eapply Forall_impl; [exact Hn2|]. simpl. tauto. }
    unfold INITIAL_VAULT. lia.
Qed.

Lemma checked_iff policy input cs :
  wf_rows input ->
  ClosedState_checked policy input = Ok cs <->
  valid_snapshot policy (sort_snapshot input) /\ cs = closed_state policy (sort_snapshot input).
Proof.
  intros Hwf. split; [by apply checked_sound|]. intros [Hv ->]. by apply checked_complete.
Qed.
End Checked.

(** ** Row order *)

(** The same rows in another order. *)
Definition same_rows (d e : SnapshotInput) : Prop :=
  s_position d = s_position e /\ s_accounts d ≡ₚ s_accounts e /\
  s_validators d ≡ₚ s_validators e /\ s_tickets d ≡ₚ s_tickets e /\ s_credits d ≡ₚ s_credits e /\
  s_gas_used d = s_gas_used e /\ s_fees_burned d = s_fees_burned e /\
  s_base_issuance d = s_base_issuance e.

Lemma check_validators_ids ids vs :
  check_validators ids vs = Ok () ->
  NoDup (map v_id vs) /\ (forall v, v ∈ vs -> v_id v ∉ ids) /\
  Forall (fun v => v_id v = str "trial-A" \/ v_id v = str "trial-B") vs.
Proof.
  revert ids. induction vs as [|v vs IH]; intros ids H.
  { split_and!; [constructor| |constructor]. intros v Hv. by apply not_elem_of_nil in Hv. }
  cbn [check_validators] in H.
  apply bind_Ok in H as ([] & H1 & H). apply fail_if_Ok, negb_false_iff, orb_true_iff in H1.
  apply bind_Ok in H as ([] & H2 & H). apply fail_if_Ok, bool_decide_eq_false in H2.
  apply bind_Ok in H as ([] & _ & H). apply bind_Ok in H as ([] & _ & H).
  apply IH in H as (Hnd & Hnin & HF). split_and!.
  - cbn [map]. apply NoDup_cons. split; [|done]. intros (u & E & Hu)%list_elem_of_fmap.
    apply (Hnin u Hu). rewrite <- E. left.
  - intros u [->|Hu]%elem_of_cons; [done|]. intros Hin. apply (Hnin u Hu). by right.
  - constructor; [|done]. by rewrite !bool_decide_eq_true in H1.
Qed.

Lemma check_tickets_ids vs tids ts :
  check_tickets vs tids ts = Ok () ->
  NoDup (map t_id ts) /\ (forall t, t ∈ ts -> t_id t ∉ tids) /\
  Forall (fun t => exists v, find_validator vs (t_owner t) = Some v /\
    expected_bucket v t = Ok (t_bucket t)) ts.
Proof.
  revert tids. induction ts as [|t ts IH]; intros tids H.
  { split_and!; [constructor| |constructor]. intros t Ht. by apply not_elem_of_nil in Ht. }
  cbn [check_tickets] in H.
  apply bind_Ok in H as ([] & _ & H).
  apply bind_Ok in H as ([] & H2 & H). apply fail_if_Ok, bool_decide_eq_false in H2.
  apply bind_Ok in H as (v & Hv & H). apply ok_or_Ok in Hv.
  apply bind_Ok in H as (b & Hb & H). apply bind_Ok in H as ([] & Hbb & H).
  apply fail_if_Ok, orb_false_iff in Hbb as [Hbb _].
  apply bool_decide_eq_false, dec_stable in Hbb. subst b.
  apply bind_Ok in H as ([] & _ & H). apply IH in H as (Hnd & Hnin & HF). split_and!.
  - cbn [map]. apply NoDup_cons. split; [|done]. intros (u & E & Hu)%list_elem_of_fmap.
    apply (Hnin u Hu). rewrite <- E. left.
  - intros u [->|Hu]%elem_of_cons; [done|]. intros Hin. apply (Hnin u Hu). by right.
  - constructor; [|done]. eauto.
Qed.

Lemma validate_eligibility_unique vs ts :
  validate_eligibility vs ts = Ok () ->
  NoDup (map v_id vs) /\ NoDup (map t_id ts) /\
  Forall (fun v => v_id v = str "trial-A" \/ v_id v = str "trial-B") vs /\
  Forall (fun t => exists v, find_validator vs (t_owner t) = Some v /\
    expected_bucket v t = Ok (t_bucket t)) ts.
Proof.
  unfold validate_eligibility. intros H. apply bind_Ok in H as ([] & _ & H).
  apply bind_Ok in H as ([] & Hv & H). apply bind_Ok in H as ([] & Ht & _).
  apply check_validators_ids in Hv as (? & _ & ?). apply check_tickets_ids in Ht as (? & _ & ?).
  done.
Qed.

Lemma Zleb_total x y : (x <=? y)%Z = true \/ (y <=? x)%Z = true.
Proof. rewrite !Z.leb_le. lia. Qed.
Lemma Zleb_trans x y z : (x <=? y)%Z = true -> (y <=? z)%Z = true -> (x <=? z)%Z = true.
Proof. rewrite !Z.leb_le. lia. Qed.
Lemma Zleb_antisym x y : (x <=? y)%Z = true -> (y <=? x)%Z = true -> x = y.
Proof. rewrite !Z.leb_le. lia. Qed.

Lemma sort_same_rows policy d e :
  valid_snapshot policy (sort_snapshot d) -> same_rows d e -> sort_snapshot e = sort_snapshot d.
Proof.
  intros Hv (Hpos & Ha & Hvs & Ht & Hc & Hg & Hf & Hb).
  pose proof (sort_snapshot_perm d) as (P1 & P2 & P3 & P4).
  pose proof (validate_eligibility_unique _ _ (vs_eligible _ _ Hv)) as (U2 & U3 & _).
  pose proof (vs_unique _ _ Hv) as U1. pose proof (vs_credit_slots _ _ Hv) as [U4 _].
  rewrite (Permutation_map acc_address P1) in U1. rewrite (Permutation_map v_id P2) in U2.
  rewrite (Permutation_map t_id P3) in U3. rewrite (Permutation_map c_slot P4) in U4.
  unfold sort_snapshot. rewrite Hpos, Hg, Hf, Hb. symmetry. f_equal.
  - by apply (sort_by_key_perm bytes_leb acc_address); [apply bytes_leb_total|apply bytes_leb_trans|apply bytes_leb_antisym|..].
  - by apply (sort_by_key_perm bytes_leb v_id); [apply bytes_leb_total|apply bytes_leb_trans|apply bytes_leb_antisym|..].
  - by apply (sort_by_key_perm Z.leb t_id); [apply Zleb_total|apply Zleb_trans|apply Zleb_antisym|..].
  - by apply (sort_by_key_perm Z.leb c_slot); [apply Zleb_total|apply Zleb_trans|apply Zleb_antisym|..].
Qed.

Lemma same_rows_wf d e : same_rows d e -> wf_rows d -> wf_rows e.
Proof.
  intros (Hpos & Ha & Hvs & Ht & Hc & Hg & Hf & Hb) [? ? ? ? ? ? ? ? ?].
  constructor; rewrite <- ?Hpos, <- ?Hg, <- ?Hf, <- ?Hb, <- ?Ha, <- ?Hvs, <- ?Ht, <- ?Hc; done.
Qed.

(** ** The encoding is injective *)

(** [peel E] compares the heads of two encodings and keeps the tails. *)
Ltac peel_side := first [done | unfold in_width in *; lia].
Ltac peel E :=
  lazymatch type of E with
  | be_bytes 1 _ ++ _ = be_bytes 1 _ ++ _ =>
      apply (be_bytes_delimits 1 U8) in E as [? E]; [|peel_side..]
  | be_bytes 2 _ ++ _ = be_bytes 2 _ ++ _ =>
      apply (be_bytes_delimits 2 U16) in E as [? E]; [|peel_side..]
  | be_bytes 4 _ ++ _ = be_bytes 4 _ ++ _ =>
      apply (be_bytes_delimits 4 U32) in E as [? E]; [|peel_side..]
  | be_bytes 8 _ ++ _ = be_bytes 8 _ ++ _ =>
      apply (be_bytes_delimits 8 U64) in E as [? E]; [|peel_side..]
  | be_bytes 16 _ ++ _ = be_bytes 16 _ ++ _ =>
      apply (be_bytes_delimits 16 U128) in E as [? E]; [|peel_side..]
  | text _ ++ _ = text _ ++ _ => apply text_delimits in E as [? E]; [|done..]
  | optional _ ++ _ = optional _ ++ _ => apply optional_delimits in E as [? E]; [|done..]
  end.

Definition account_ok (a : C1Account) : Prop :=
  length (acc_address a) = 20%nat /\ in_width U128 (acc_balance a) /\ in_width U64 (acc_nonce a).
Definition validator_ok (v : C1Validator) : Prop :=
  (Z.of_nat (length (v_id v)) < U16)%Z /\ in_width U128 (v_vault v) /\ in_width U128 (v_locked v) /\
  in_width U32 (v_misses v) /\ in_width U32 (v_offenses v) /\ in_width U64 (v_produced v) /\
  (if v_cooldown_until v is Some n then in_width U64 n else True).
Definition ticket_ok (t : C1Ticket) : Prop :=
  (Z.of_nat (length (t_owner t)) < U16)%Z /\ in_width U64 (t_id t) /\ in_width U8 (t_bucket t) /\
  (if t_retire_start t is Some n then in_width U64 n else True) /\
  (if t_retire_effective t is Some n then in_width U64 n else True).
Definition credit_width_ok (c : RewardCredit) : Prop :=
  (Z.of_nat (length (c_validator c)) < U16)%Z /\ in_width U64 (c_slot c) /\ in_width U128 (c_amount c).

Lemma validator_code_width s : in_width U8 (validator_status_code s).
Proof. unfold in_width. destruct s; simpl; lia. Qed.
Lemma ticket_code_width s : in_width U8 (ticket_status_code s).
Proof. unfold in_width. destruct s; simpl; lia. Qed.

Lemma encode_account_delimits : delimits account_ok encode_account.
Proof.
  intros [a1 b1 n1] [a2 b2 n2] x y (? & ? & ?) (? & ? & ?) E. unfold encode_account in E; simpl in *.
  rewrite <- !app_assoc in E. apply (fixed_delimits 20) in E as [? E]; [|done..].
  do 2 peel E. by subst.
Qed.

Lemma encode_validator_delimits : delimits validator_ok encode_validator.
Proof.
  intros [] [] x y H1 H2 E. unfold validator_ok, encode_validator in *; simpl in *.
  destruct_and!. rewrite <- !app_assoc in E.
  pose proof (validator_code_width v_status0). pose proof (validator_code_width v_status1).
  do 8 peel E. subst. split; [|done]. f_equal.
  destruct v_status0, v_status1; done.
Qed.

Lemma encode_ticket_delimits : delimits ticket_ok encode_ticket.
Proof.
  intros [] [] x y H1 H2 E. unfold ticket_ok, encode_ticket in *; simpl in *.
  destruct_and!. rewrite <- !app_assoc in E.
  pose proof (ticket_code_width t_status0). pose proof (ticket_code_width t_status1).
  do 6 peel E. subst. split; [|done]. f_equal. destruct t_status0, t_status1; done.
Qed.

Lemma encode_credit_delimits : delimits credit_width_ok encode_credit.
Proof.
  intros [] [] x y H1 H2 E. unfold credit_width_ok, encode_credit in *; simpl in *.
  destruct_and!. rewrite <- !app_assoc in E. do 3 peel E. subst.
  do 2 peel E. done.
Qed.

(** The texts fit their [u16] length prefix and the counts theirs. *)
Record encodable (d : SnapshotInput) : Prop := {
  en_slot : in_width U64 (pos_slot (s_position d));
  en_hash : length (pos_hash (s_position d)) = 32%nat;
  en_accounts : Forall account_ok (s_accounts d) /\ (Z.of_nat (length (s_accounts d)) < U32)%Z;
  en_validators : Forall validator_ok (s_validators d) /\
    (Z.of_nat (length (s_validators d)) < U16)%Z;
  en_tickets : Forall ticket_ok (s_tickets d) /\ (Z.of_nat (length (s_tickets d)) < U16)%Z;
  en_credits : Forall credit_width_ok (s_credits d) /\ (Z.of_nat (length (s_credits d)) < U16)%Z;
  en_totals : in_width U64 (s_gas_used d) /\ in_width U128 (s_fees_burned d) /\
    in_width U128 (s_base_issuance d)
}.

Lemma encode_totals_inj d e :
  in_width U64 (s_gas_used d) -> in_width U128 (s_fees_burned d) -> in_width U128 (s_base_issuance d) ->
  in_width U64 (s_gas_used e) -> in_width U128 (s_fees_burned e) -> in_width U128 (s_base_issuance e) ->
  encode_totals d = encode_totals e ->
  s_gas_used d = s_gas_used e /\ s_fees_burned d = s_fees_burned e /\
  s_base_issuance d = s_base_issuance e.
Proof.
  assert (in_width U128 (2 * TICKET_COST)) by by_computation.
  intros ? ? ? ? ? ? E. unfold encode_totals in E. cbn [map concat] in E.
  rewrite <- !app_assoc in E. revert E.
  generalize (zeros 24 ++ YearZero_encode YearZero_approved) as tail. intros tail E.
  do 4 peel E. clear E. done.
Qed.

Lemma encode_inj d e : encodable d -> encodable e -> encode d = encode e -> d = e.
Proof.
  intros [? ? [Ha ?] [Hv ?] [Ht ?] [Hc ?] (? & ? & ?)]
    [? ? [Ha' ?] [Hv' ?] [Ht' ?] [Hc' ?] (? & ? & ?)] E.
  unfold encode in E. do 2 peel E. apply (fixed_delimits 32) in E as [? E]; [|done..].
  peel E. apply (rows_delimit _ _ _ _ _ _ encode_account_delimits) in E as [? E]; [|done..|lia].
  peel E. apply (rows_delimit _ _ _ _ _ _ encode_validator_delimits) in E as [? E]; [|done..|lia].
  peel E. apply (rows_delimit _ _ _ _ _ _ encode_ticket_delimits) in E as [? E]; [|done..|lia].
  peel E. apply (rows_delimit _ _ _ _ _ _ encode_credit_delimits) in E as [? E]; [|done..|lia].
  apply encode_totals_inj in E as (? & ? & ?); [|done..].
  destruct d as [[]], e as [[]]; simpl in *. by subst.
Qed.

Lemma find_validator_Some vs owner v :
  find_validator vs owner = Some v -> v ∈ vs /\ v_id v = owner.
Proof.
  unfold find_validator. intros H.
  assert (v ∈ filter (fun v => v_id v = owner) vs) as Hin.
  { destruct (filter _ vs); [done|]. injection H as <-. left. }
  apply list_elem_of_filter in Hin as [? ?]. done.
Qed.

Lemma valid_encodable policy d :
  Forall (fun c => (Z.of_nat (length (cfg_id c)) < U16)%Z) (pol_configs policy) ->
  wf_rows d -> valid_snapshot policy d -> encodable d.
Proof.
  intros Hcfg [? ? Ha Hv Ht Hc ? ? ?] Hvalid.
  pose proof (validate_eligibility_unique _ _ (vs_eligible _ _ Hvalid)) as (_ & _ & Hids & Howners).
  destruct Hvalid as [Hslot (Hacc & Hlv & Hlt) _ _ _ _ _ _ [_ Hcl] Hcr _ _].
  change MAX_ACCOUNTS with 3203%Z in *. unfold MAX_SLOTS in *.
  constructor; try done; try (split; [|lia]).
  - eapply Forall_impl; [exact Ha|]. done.
  - rewrite Forall_forall in Hv. rewrite Forall_forall in Hids. apply Forall_forall. intros v Hin.
    specialize (Hv v Hin). specialize (Hids v Hin).
    split; [|done]. by destruct Hids as [-> | ->].
  - rewrite Forall_forall in Ht. rewrite Forall_forall in Howners.
    rewrite Forall_forall in Hids. apply Forall_forall. intros t Hin. specialize (Ht t Hin).
    destruct (Howners t Hin) as (v & [Hin' E]%find_validator_Some & _). specialize (Hids v Hin').
    split; [|tauto]. rewrite <- E. by destruct Hids as [-> | ->].
  - rewrite Forall_forall in Hc. rewrite Forall_forall in Hcr.
    rewrite Forall_forall in Hcfg. apply Forall_forall. intros c Hin. specialize (Hc c Hin).
    destruct (Hcr c Hin) as (_ & _ & u & Hu & E). split; [|done]. rewrite <- E. by apply Hcfg.
Qed.

(** ** A concrete snapshot *)

Definition toy_config (id : bytes) : ValidatorConfig :=
  mk_config id (x02 :: zeros 32) (zeros 20) (zeros 20) INITIAL_VAULT.
Definition toy_policy : Policy :=
  mk_policy (str "run") (zeros 32) toy_header [toy_config (str "trial-A"); toy_config (str "trial-B")]
    [Ticket_active 1 (str "trial-A"); Ticket_active 255 (str "trial-B")]
    [replicate 20 x01; replicate 20 x02; replicate 20 x03].
Definition toy_c1_validator (id : bytes) (n : Z) : C1Validator :=
  mk_c1_validator id ValidatorStatus.Active (INITIAL_VAULT + 10000000 * n) (10000000 * n) 0 0 n None.
(** The state after one block by trial-A with one transfer. *)
Definition toy_snapshot : SnapshotInput :=
  mk_snapshot (mk_position 1 (zeros 32))
    [mk_c1_account (replicate 20 x02) 32000000000000 0;
     mk_c1_account (replicate 20 x01) 1599999999990000 1;
     mk_c1_account (replicate 20 x03) 0 0]
    [toy_c1_validator (str "trial-B") 0; toy_c1_validator (str "trial-A") 1]
    [Ticket_active 255 (str "trial-B"); Ticket_active 1 (str "trial-A")]
    [mk_credit 1 (str "trial-A") 10000000] 1000 10000 10000000.
Definition toy_closed : ClosedState := @closed_state toy_keccak toy_policy (sort_snapshot toy_snapshot).

Lemma toy_snapshot_wf : wf_rows toy_snapshot.
Proof. constructor; try by_computation; repeat constructor; by_computation. Qed.

Lemma toy_snapshot_ok : @ClosedState_checked toy_keccak toy_policy toy_snapshot = Ok toy_closed.
Proof. vm_compute. reflexivity. Qed.

(** ** Properties *)

Section SnapshotProperties.
  Context {KE : Keccak}.


(** The order in which the rows are supplied is irrelevant: any
    rearrangement of an accepted snapshot is accepted with the same checked
    state, bytes and id. *)
Theorem snapshot_order_irrelevant policy d e cs :
  wf_rows d -> same_rows d e -> ClosedState_checked policy d = Ok cs ->
  ClosedState_checked policy e = Ok cs.
Proof.
  intros Hwf Hs H. apply checked_iff in H as [Hv ->]; [|done].
  apply checked_iff; [by eapply same_rows_wf|].
  by rewrite (sort_same_rows _ _ _ Hv Hs).
Qed.

(** A snapshot id determines the network and the complete snapshot:
    accepted states with one id agree on both unless two explicit preimages
    collide under Keccak-256. *)
Theorem snapshot_id_binds pol1 pol2 d1 d2 cs1 cs2 :
  wf_rows d1 -> wf_rows d2 ->
  Forall (fun c => (Z.of_nat (length (cfg_id c)) < U16)%Z) (pol_configs pol1) ->
  Forall (fun c => (Z.of_nat (length (cfg_id c)) < U16)%Z) (pol_configs pol2) ->
  length (pol_network pol1) = 32%nat -> length (pol_network pol2) = 32%nat ->
  ClosedState_checked pol1 d1 = Ok cs1 -> ClosedState_checked pol2 d2 = Ok cs2 ->
  cs_id cs1 = cs_id cs2 ->
  (pol_network pol1 = pol_network pol2 /\ cs_data cs1 = cs_data cs2) \/
  collides ((str "ETERNIX_POASH_C1_SNAPSHOT" ++ [x00]) ++ pol_network pol1 ++ cs_bytes cs1)
           ((str "ETERNIX_POASH_C1_SNAPSHOT" ++ [x00]) ++ pol_network pol2 ++ cs_bytes cs2).
Proof.
  intros W1 W2 C1 C2 N1 N2 H1 H2 Hid.
  apply checked_iff in H1 as [V1 ->]; [|done]. apply checked_iff in H2 as [V2 ->]; [|done].
  simpl in Hid. apply hash_with_domain_inj in Hid as [E|]; [left|by right].
  apply app_inj_1 in E as [E1 E2]; [|congruence]. split; [done|].
  apply encode_inj in E2; [done|..].
  - by apply (valid_encodable pol1); [|apply wf_rows_sorted in W1|].
  - by apply (valid_encodable pol2); [|apply wf_rows_sorted in W2|].
Qed.
End SnapshotProperties.


Lemma snapshot_order_irrelevant_witness :
  @ClosedState_checked toy_keccak toy_policy (sort_snapshot toy_snapshot) = Ok toy_closed.
Proof.
  apply (@snapshot_order_irrelevant toy_keccak toy_policy toy_snapshot _ _ toy_snapshot_wf).
  - pose proof (sort_snapshot_perm toy_snapshot) as (P1 & P2 & P3 & P4).
    repeat split; try reflexivity; symmetry; assumption.
  - exact toy_snapshot_ok.
Defined.

Lemma snapshot_id_binds_witness :
  (zeros 32 = zeros 32 /\ cs_data toy_closed = cs_data toy_closed) \/
  @collides toy_keccak
    ((str "ETERNIX_POASH_C1_SNAPSHOT" ++ [x00]) ++ zeros 32 ++ cs_bytes toy_closed)
    ((str "ETERNIX_POASH_C1_SNAPSHOT" ++ [x00]) ++ zeros 32 ++ cs_bytes toy_closed).
Proof.
  apply (@snapshot_id_binds toy_keccak toy_policy toy_policy toy_snapshot toy_snapshot
    toy_closed toy_closed toy_snapshot_wf toy_snapshot_wf); try exact toy_snapshot_ok; try reflexivity.
  - repeat constructor.
  - repeat constructor.
Defined.
