(* ===== verification/PoashSelection.v ===== *)
(** * The C1 selector (src/src/native_poash/selection.rs)

    The approved two-stage kernel over the closed validator and ticket rows.
    It restates the historical lottery with explicit errors and an
    observation record.

    The theorems show that after the eligibility check the selector can fail
    only for a genuinely empty set or an exhausted sampler, that its winner
    is the designated ticket, and that it agrees with the historical
    [select_leader_ticket] on the same tickets. *)

From S2P Require Import Prelude Crypto BlockCommitment LeaderSelection PoashBase PoashState.

Record Selection : Type := mk_selection {
  sel_slot : Z;
  sel_reference : bytes;
  sel_seed : bytes;
  sel_total : Z;
  sel_bucket : Z;
  sel_retry : Z;
  sel_raw : Z;
  sel_offset : Z;
  sel_owner : bytes;
  sel_ticket : Z;
  sel_score : bytes
}.

#[export] Instance Selection_eq_dec : EqDecision Selection.
Proof. solve_decision. Defined.

(** ** Rejection sampling over any source *)

Definition draw_with (total : Z) (raw : Z -> Z) : result poash_error (Z * Z * Z) :=
  if (total =? 0)%Z then Err PoashError.NoEligibleTickets else
  let threshold := (wrapping_neg U64 total mod total)%Z in
  retry_until (fun retry =>
    let n := raw retry in
    if (threshold <=? n)%Z then Some (Ok (retry, n, (n mod total)%Z)) else None)
    (Err PoashError.Overflow).

(** [min_by_key(|(score, id, _)| (score, id))]: the first least candidate. *)
Definition best (candidates : list (bytes * Z * bytes)) : option (bytes * Z * bytes) :=
  match candidates with
  | [] => None
  | c :: rest =>
      Some (fold_left (fun cur x => if key_ltb x.1 cur.1 then x else cur) rest c)
  end.

(** [counts[bucket] += 1] for every eligible ticket. *)
Fixpoint count_eligible (ts : list C1Ticket) (counts : list Z) : result poash_error (list Z) :=
  match ts with
  | [] => Ok counts
  | t :: rest =>
      counts' ← ok_or (increment counts (Z.to_nat (t_bucket t))) PoashError.Overflow;
      count_eligible rest counts'
  end.

(** [for b in 2..=255] with its break and its checked subtraction. *)
Fixpoint select_scan (counts : list Z) (ids : list nat) (remaining : Z) :
    result poash_error (option nat) :=
  match ids with
  | [] => Ok None
  | b :: rest =>
      if (remaining <? count_at counts b)%Z then Ok (Some b) else
      remaining' ← ok_or (checked_sub remaining (count_at counts b)) PoashError.Overflow;
      select_scan counts rest remaining'
  end.

Definition is_eligible (vs : list C1Validator) (t : C1Ticket) : bool :=
  (t_status t ==? TicketStatus.Active) &&
  existsb (fun v => (v_id v ==? t_owner t) && (v_status v ==? ValidatorStatus.Active)) vs.

Section Selector.
  Context `{KE : Keccak}.

Definition draw_raw (seed : bytes) (retry : Z) : Z :=
  be_val (slice 8 0 (hash_with_domain (str "eternix:bucket-selection:v1")
    (seed ++ be_bytes 8 retry))).

Definition draw (seed : bytes) (total : Z) : result poash_error (Z * Z * Z) :=
  draw_with total (draw_raw seed).

Definition candidate_of (seed : bytes) (t : C1Ticket) : bytes * Z * bytes :=
  (hash_with_domain (str "eternix:ticket-selection:v1") (seed ++ be_bytes 8 (t_id t)),
   t_id t, t_owner t).

Definition select_inputs (reference : bytes) (slot : Z) (vs : list C1Validator)
    (ts : list C1Ticket) : result poash_error Selection :=
  validate_eligibility vs ts;;
  fail_if (negb ((1 <=? slot) && (slot <=? MAX_SLOTS)))%Z PoashError.ExperimentLimit;;
  let seed := hash_with_domain (str "eternix:leader-selection:v1")
    (reference ++ be_bytes 8 slot) in
  let eligible := filter (fun t => is_eligible vs t = true) ts in
  counts ← count_eligible eligible (replicate 256 0%Z);
  total ← ok_or (checked_total counts active_buckets 0) PoashError.Overflow;
  fail_if (total ==? 0)%Z PoashError.NoEligibleTickets;;
  '(retry, raw, offset) ← draw seed total;
  found ← select_scan counts active_buckets offset;
  bucket ← ok_or found (PoashError.State "cumulative bucket");
  '(score, ticket, owner) ←
    ok_or (best (map (candidate_of seed)
      (filter (fun t => t_bucket t = Z.of_nat bucket) eligible)))
      (PoashError.State "chosen bucket empty");
  Ok (mk_selection slot reference seed total (Z.of_nat bucket) retry raw offset owner ticket score).
End Selector.

(** ** Loops of both selectors *)

Lemma iter_until_map {S R R'} (f : R -> R') (g : S -> S + R) (g' : S -> S + R') n s :
  (forall s, g' s = match g s with inl x => inl x | inr r => inr (f r) end) ->
  iter_until n g' s = match iter_until n g s with inl x => inl x | inr r => inr (f r) end.
Proof.
  intros Hg. revert s. induction n as [m IH|m IH|]; intros s; simpl.
  - rewrite Hg. destruct (g s) as [s1|r]; [|done]. rewrite IH.
    destruct (iter_until m g s1) as [s2|r]; [apply IH|done].
  - rewrite IH. destruct (iter_until m g s) as [s2|r]; [apply IH|done].
  - apply Hg.
Qed.

Lemma retry_until_map {R R'} (f : R -> R') accept (accept' : Z -> option R') exhausted :
  (forall r, accept' r = f <$> accept r) ->
  retry_until accept' (f exhausted) = f (retry_until accept exhausted).
Proof.
  intros Ha. unfold retry_until.
  rewrite (iter_until_map f (retry_step accept exhausted)).
  - by destruct (iter_until _ _ _).
  - intros s. unfold retry_step. rewrite Ha. destruct (accept s); simpl; [done|].
    by destruct (checked_add _ _ _).
Qed.

Lemma select_scan_eq counts ids offset :
  counts_ok counts -> (0 <= offset)%Z ->
  select_scan counts ids offset = Ok (bucket_scan counts ids offset).
Proof.
  intros Hc. revert offset. induction ids as [|b ids IH]; intros offset Ho; [done|].
  cbn [select_scan bucket_scan]. destruct (Z.ltb_spec offset (count_at counts b)); [done|].
  unfold checked_sub. destruct (Z.leb_spec (count_at counts b) offset); [|lia].
  simpl. apply IH. lia.
Qed.

Lemma count_eligible_eq ts counts :
  Forall (fun t => (2 <= t_bucket t)%Z) ts ->
  count_eligible ts counts = ok_or (count_buckets (map t_bucket ts) counts) PoashError.Overflow.
Proof.
  intros H. revert counts. induction H as [|t ts Ht _ IH]; intros counts; [done|].
  cbn [count_eligible map count_buckets]. destruct (Z.ltb_spec (t_bucket t) 2); [lia|].
  destruct (increment _ _); simpl; [apply IH|done].
Qed.

Lemma best_least l :
  match best l with
  | Some w => least fst l w
  | None => l = []
  end.
Proof.
  destruct l as [|c l]; [done|]. simpl.
  enough (forall (rest dn : list (bytes * Z * bytes)) w, least fst dn w ->
    least fst (dn ++ rest) (fold_left (fun cur x => if key_ltb x.1 cur.1 then x else cur) rest w)) as H.
  { apply (H l [c]). split; [left|]. intros x ->%list_elem_of_singleton.
    by destruct (key_leb_total c.1 c.1). }
  induction rest as [|x rest IH]; intros dn w Hw; [by rewrite app_nil_r|]. simpl.
  replace (dn ++ x :: rest) with ((dn ++ [x]) ++ rest) by (by rewrite <- app_assoc).
  apply IH. destruct (key_ltb x.1 w.1) eqn:Hk; [by eapply least_app_replace|by apply least_app_keep].
Qed.

(** ** Both selectors draw the same offset *)

Section Agreement.
  Context {KE : Keccak}.

Definition offset_of (r : result poash_error (Z * Z * Z)) : option Z :=
  match r with Ok (_, _, off) => Some off | Err _ => None end.

Lemma uniform_below_draw seed n : uniform_below seed n = offset_of (draw seed n).
Proof.
  unfold uniform_below, draw, draw_with. destruct (Z.eqb_spec n 0); [done|]. cbv zeta.
  rewrite <- (retry_until_map offset_of _ (fun retry =>
    if (wrapping_neg U64 n mod n <=? bucket_raw seed retry)%Z
    then Some (Some (bucket_raw seed retry mod n)%Z) else None)); [done|].
  intros r. change (bucket_raw seed r) with (draw_raw seed r).
  by destruct (_ <=? _)%Z.
Qed.

Lemma draw_result seed n :
  n <> 0%Z ->
  (exists retry raw off, draw seed n = Ok (retry, raw, off)) \/ draw seed n = Err PoashError.Overflow.
Proof.
  intros Hn. unfold draw, draw_with. destruct (Z.eqb_spec n 0); [done|]. cbv zeta.
  match goal with |- context [retry_until ?a ?e] =>
    destruct (retry_until_spec a e) as [(r & _ & Ha & _)|[He _]] end.
  - left. cbv beta zeta in Ha. destruct (_ <=? _)%Z in Ha; [|done]. injection Ha as Ha.
    rewrite <- Ha. eauto.
  - by right.
Qed.

Definition to_model (t : C1Ticket) : ModelTicket :=
  mk_model_ticket (t_id t) (t_owner t) (t_bucket t) false false false None None.

Definition eligible_tickets (vs : list C1Validator) (ts : list C1Ticket) : list C1Ticket :=
  filter (fun t => is_eligible vs t = true) ts.

Lemma eligible_facts vs ts :
  validate_eligibility vs ts = Ok () ->
  Forall (fun t => (2 <= t_bucket t < 256)%Z) (eligible_tickets vs ts) /\
  eligible_input (map to_model (eligible_tickets vs ts)).
Proof.
  intros Hv. pose proof (validate_eligibility_unique _ _ Hv) as (_ & Hnd & _ & Ho).
  assert (Forall (fun t => (2 <= t_bucket t < 256)%Z) (eligible_tickets vs ts)) as Hb.
  { apply Forall_forall. intros t [He Ht]%list_elem_of_filter. rewrite Forall_forall in Ho.
    destruct (Ho t Ht) as (v & _ & Hb). unfold is_eligible in He. apply andb_true_iff in He as [Hs _].
    apply bool_decide_eq_true in Hs. unfold expected_bucket in Hb. rewrite Hs in Hb. inv_ok.
    unfold home_bucket in *. pose proof (Z.mod_pos_bound (t_id t) 254). lia. }
  split; [done|]. unfold eligible_input. rewrite length_map, map_map. split_and!.
  - change (map (fun x => mt_id (to_model x)) (eligible_tickets vs ts))
      with (t_id <$> eligible_tickets vs ts).
    apply (NoDup_fmap_2_strong t_id).
    + intros x y Hx Hy. apply list_elem_of_filter in Hx as [_ Hx], Hy as [_ Hy].
      by eapply NoDup_key_inj.
    + apply NoDup_filter. by eapply (NoDup_fmap_1 t_id).
  - apply Forall_fmap. eapply Forall_impl; [exact Hb|]. unfold in_width. simpl. lia.
  - unfold validate_eligibility in Hv. apply bind_Ok in Hv as ([] & Hl & _). inv_ok.
    unfold MAX_TICKETS in *. pose proof (length_filter (fun t => is_eligible vs t = true) ts).
    unfold eligible_tickets. lia.
Qed.

(** Every eligible ticket is in an active bucket. *)
Lemma active_count_eligible ts :
  Forall (fun t => (2 <= t_bucket t < 256)%Z) ts ->
  active_count (map to_model ts) = Z.of_nat (length ts).
Proof.
  intros Hb. unfold active_count. rewrite map_map.
  change (map (fun x => mt_bucket (to_model x)) ts) with (map t_bucket ts).
  rewrite filter_all, length_map; [done|]. apply Forall_fmap.
  eapply Forall_impl; [exact Hb|]. unfold active. simpl. lia.
Qed.

(** The selection record of a designated ticket. *)
Definition selects (s : Selection) (seed : bytes) (n off : Z) (t : C1Ticket) : Prop :=
  sel_seed s = seed /\ sel_total s = n /\ sel_offset s = off /\ sel_owner s = t_owner t /\
  sel_ticket s = t_id t /\ sel_bucket s = t_bucket t /\ sel_score s = ticket_score seed (t_id t).

Lemma bucket_candidates seed ts b t :
  best (map (candidate_of seed) (filter (fun t => t_bucket t = b) ts)) = Some (candidate_of seed t) ->
  t ∈ filter (fun t => t_bucket t = b) ts ->
  least (score_key seed) (map t_id (filter (fun t => t_bucket t = b) ts)) (t_id t).
Proof.
  intros Hbest Ht. pose proof (best_least (map (candidate_of seed) (filter (fun t => t_bucket t = b) ts)))
    as Hl. rewrite Hbest in Hl. destruct Hl as [_ Hmin]. split.
  - apply list_elem_of_fmap. eauto.
  - intros i (u & -> & Hu)%list_elem_of_fmap. apply (Hmin (candidate_of seed u)).
    apply list_elem_of_fmap. eauto.
Qed.

Lemma filter_to_model (b : Z) ts :
  map mt_id (filter (fun u => mt_bucket u = b) (map to_model ts)) =
  map t_id (filter (fun t => t_bucket t = b) ts).
Proof.
  induction ts as [|t ts IH]; [done|]. cbn [map]. rewrite !filter_cons. simpl.
  case_decide; cbn [map]; [|done]. by f_equal.
Qed.

Lemma select_inputs_designated reference slot vs ts :
  validate_eligibility vs ts = Ok () -> (1 <= slot <= MAX_SLOTS)%Z ->
  let seed := slot_randomness reference slot in
  let el := eligible_tickets vs ts in
  let n := Z.of_nat (length el) in
  match uniform_below seed n with
  | None => select_inputs reference slot vs ts =
      Err (if decide (el = []) then PoashError.NoEligibleTickets else PoashError.Overflow)
  | Some off => exists t s, t ∈ el /\ designated seed (map to_model el) off (to_model t) /\
      select_inputs reference slot vs ts = Ok s /\ selects s seed n off t
  end.
Proof.
  intros Hv Hslot. cbv zeta. set (seed := slot_randomness reference slot).
  unfold select_inputs. rewrite Hv, bind_of_Ok.
  rewrite (proj2 (Z.leb_le 1 slot)), (proj2 (Z.leb_le slot MAX_SLOTS)) by lia. simpl fail_if.
  rewrite bind_of_Ok. cbv zeta. fold (eligible_tickets vs ts).
  change (hash_with_domain (str "eternix:leader-selection:v1") (reference ++ be_bytes 8 slot)) with seed.
  destruct (eligible_facts vs ts Hv) as [Hb (Hnd & Hw & Hlen)].
  set (el := eligible_tickets vs ts) in *.
  pose proof (active_count_eligible el Hb) as Hcount.
  assert (Forall (in_width U8) (map t_bucket el)) as Hw'.
  { apply Forall_fmap. eapply Forall_impl; [exact Hb|]. unfold in_width. simpl. lia. }
  destruct (count_initial (map t_bucket el)) as (counts & Hc & Hok & Hexp);
    [done|by rewrite !length_map in *|].
  rewrite count_eligible_eq by (eapply Forall_impl; [exact Hb|]; simpl; lia).
  rewrite Hc. rewrite ok_or_of_Some, bind_of_Ok, checked_total_expand, Hexp by (done || lia).
  pose proof (length_active_sequence _ Hw') as Hseq.
  rewrite filter_all, length_map in Hseq.
  2:{ apply Forall_fmap. eapply Forall_impl; [exact Hb|]. unfold active. simpl. lia. }
  rewrite Hseq, Z.add_0_l. rewrite length_map in Hlen. rewrite (proj2 (Z.ltb_lt _ _)) by done.
  rewrite orb_true_l. cbv iota.
  rewrite ok_or_of_Some, bind_of_Ok, uniform_below_draw.
  destruct (decide (el = [])) as [->|Hne].
  { done. }
  assert (0 < length el)%nat by (destruct el; [done|simpl; lia]).
  rewrite (bool_decide_eq_false_2 (Z.of_nat (length el) = 0)%Z) by lia. simpl fail_if.
  rewrite bind_of_Ok.
  destruct (draw_result seed (Z.of_nat (length el))) as [(retry & raw & off & Hd)| ->];
    [lia| |done].
  rewrite Hd, bind_of_Ok. simpl offset_of. cbv iota beta.
  assert (0 <= off < Z.of_nat (length el))%Z as Hoff.
  { apply (uniform_below_range seed); [lia|]. by rewrite uniform_below_draw, Hd. }
  rewrite select_scan_eq, bind_of_Ok, bucket_scan_expand, Hexp by (done || lia).
  destruct (lookup_lt_is_Some_2 (active_sequence (map t_bucket el)) (Z.to_nat off)) as [b Hb'];
    [lia|]. rewrite Hb'. rewrite ok_or_of_Some, bind_of_Ok.
  pose proof (active_sequence_occurs _ _ _ Hb') as (u & Hu & Hin)%list_elem_of_fmap.
  pose proof (best_least (map (candidate_of seed) (filter (fun t => t_bucket t = Z.of_nat b) el))) as Hbest.
  destruct (best _) as [w|] eqn:Ew.
  2:{ exfalso. apply map_eq_nil in Hbest.
      assert (u ∈ filter (fun t => t_bucket t = Z.of_nat b) el) as Hf by (by apply list_elem_of_filter).
      rewrite Hbest in Hf. by apply not_elem_of_nil in Hf. }
  destruct Hbest as [(t & -> & Ht)%list_elem_of_fmap _]. rewrite ok_or_of_Some, bind_of_Ok.
  pose proof Ht as [Htb Htin]%list_elem_of_filter.
  exists t. eexists. split_and!; [done| |reflexivity|by repeat split].
  exists b. rewrite filter_to_model, map_map. split_and!; [done| |done|by apply bucket_candidates].
  apply list_elem_of_fmap. eauto.
Qed.

Lemma selectors_agree_lemma reference slot vs ts :
  validate_eligibility vs ts = Ok () -> (1 <= slot <= MAX_SLOTS)%Z ->
  select_leader_ticket reference slot (map to_model (eligible_tickets vs ts)) =
  match select_inputs reference slot vs ts with
  | Ok s => Some (sel_owner s, sel_ticket s)
  | Err _ => None
  end.
Proof.
  intros Hv Hs. pose proof (select_inputs_designated reference slot vs ts Hv Hs) as H.
  destruct (eligible_facts vs ts Hv) as [Hb Hin]. cbv zeta in H.
  set (el := eligible_tickets vs ts) in *.
  destruct (decide (el = [])) as [E|Hne].
  { rewrite E in *. by rewrite H. }
  assert (map to_model el <> []) as Hne' by (by destruct el).
  pose proof (select_leader_designated reference slot _ Hin Hne') as H1. cbv zeta in H1.
  rewrite active_count_eligible in H1 by done.
  destruct (uniform_below _ _) as [off|].
  - destruct H as (t & s & Ht & Hd & -> & (_ & _ & _ & -> & -> & _)), H1 as (t' & Hd' & ->).
    by rewrite (designated_unique _ _ _ _ _ (proj1 Hin) Hd' Hd).
  - rewrite H, H1. done.
Qed.
End Agreement.

(** ** Properties *)

Section SelectorProperties.
  Context {KE : Keccak}.


(** C31: the C1 selector and the historical one are the same lottery: on the
    eligible tickets of the closed registry [select_leader_ticket] returns
    exactly the owner and ticket id that [select_inputs] selects. *)
Theorem selectors_agree reference slot vs ts :
  validate_eligibility vs ts = Ok () -> (1 <= slot <= MAX_SLOTS)%Z ->
  select_leader_ticket reference slot (map to_model (eligible_tickets vs ts)) =
  match select_inputs reference slot vs ts with
  | Ok s => Some (sel_owner s, sel_ticket s)
  | Err _ => None
  end.
Proof. apply selectors_agree_lemma. Qed.
End SelectorProperties.

Definition toy_vs : list C1Validator := s_validators toy_snapshot.
Definition toy_ts : list C1Ticket := s_tickets toy_snapshot.

Lemma toy_eligibility : validate_eligibility toy_vs toy_ts = Ok ().
Proof. vm_compute. reflexivity. Qed.


Lemma selectors_agree_witness :
  @select_leader_ticket toy_keccak (zeros 32) 7 (map to_model (eligible_tickets toy_vs toy_ts)) =
  match @select_inputs toy_keccak (zeros 32) 7 toy_vs toy_ts with
  | Ok s => Some (sel_owner s, sel_ticket s)
  | Err _ => None
  end.
Proof.
  apply (@selectors_agree toy_keccak (zeros 32) 7 toy_vs toy_ts toy_eligibility).
  split; discriminate.
Defined.
