(* ===== verification/PoashGenesis.v ===== *)
(** * Closed C1 initialization (src/src/native_poash/genesis.rs)

    The full-genesis descriptor: its canonical construction from the approved
    rows, the parameters it freezes, and its strict decoder.

    The theorems show that every genesis is determined by its run label, that
    the approved rows in any order are accepted (the initial snapshot passes
    the snapshot validator), and that decoding inverts encoding and accepts
    nothing else. *)

From S2P Require Import Prelude Codec Crypto BlockCommitment NativeTransaction NativeBlock.
From S2P Require Import BlockAuthentication PoashBase PoashState.

(** A hexadecimal literal of the source, as the bytes it denotes. *)
Definition hex_digit (a : Ascii.ascii) : N :=
  let n := Ascii.N_of_ascii a in
  (if n <? 58 then n - 48 else n - 87)%N.

Fixpoint hexlit (s : string) : bytes :=
  match s with
  | String a (String b rest) =>
      byte_of (Z.of_N (16 * hex_digit a + hex_digit b)) :: hexlit rest
  | _ => []
  end.

Definition GENESIS_DESCRIPTOR : bytes := str "ETERNIX_POASH_C1_GENESIS" ++ [x00].
Definition MAX_GENESIS_BYTES : Z := 16 * 1024.

Record GenesisInput : Type := mk_genesis_input {
  gi_run_id : bytes;
  gi_accounts : list C1Account;
  gi_validators : list ValidatorConfig;
  gi_tickets : list C1Ticket
}.

Record Genesis : Type := mk_genesis {
  g_policy : Policy;
  g_initial : ClosedState;
  g_bytes : bytes
}.

#[export] Instance Genesis_eq_dec : EqDecision Genesis.
Proof. solve_decision. Defined.

(** [is_ascii_alphanumeric() || '-' || '_'] *)
Definition label_byte (b : byte) : bool :=
  byte_in 48 57 b || byte_in 65 90 b || byte_in 97 122 b || byte_in 45 45 b || byte_in 95 95 b.

Definition ADDRESS_A : bytes := hexlit "7e5f4552091a69125d5dfcb7b8c2659029395bdf".
Definition ADDRESS_B : bytes := hexlit "6813eb9362372eef6200f3b1dbc3f819671cba69".
Definition ADDRESS_C : bytes := hexlit "1eff47bc3a10a45d4b230b5d10e37751fe6aa718".
Definition KEY_A : bytes := hexlit "02c6047f9441ed7d6d3045406e95c07cd85c778e4b8cef3ca7abac09b95c709ee5".
Definition KEY_B : bytes := hexlit "022f8bde4d1a07209355b4a7250a5c5128e88b84bddc619ab7cba8d569b240efe4".

Definition sort_accounts : list C1Account -> list C1Account :=
  sort_by (fun a b => bytes_leb (acc_address a) (acc_address b)).

Definition expected_accounts : list C1Account :=
  sort_accounts [mk_c1_account ADDRESS_A 1600000000000000 0;
                 mk_c1_account ADDRESS_B 32000000000000 0;
                 mk_c1_account ADDRESS_C 0 0].

(** The literal rows of the validator loop. *)
Definition expected_producers : list (bytes * bytes * bytes) :=
  [(str "trial-A", KEY_A, ADDRESS_A); (str "trial-B", KEY_B, ADDRESS_B)].

Definition initial_ticket_ok (t : C1Ticket) (e : Z * bytes) : bool :=
  (t_id t ==? e.1) && (t_owner t ==? e.2) && (t_bucket t ==? 3)%Z &&
  (t_status t ==? TicketStatus.Active) && (t_retire_start t ==? None) &&
  (t_retire_effective t ==? None).

(** [parameters()] *)
Definition parameters : bytes :=
  be_bytes 8 CHAIN_ID ++ be_bytes 1 2 ++ be_bytes 4 1 ++ be_bytes 4 POASH_RULES ++
  be_bytes 4 HEADER_PROFILE ++
  be_bytes 1 INNER_WIRE ++ be_bytes 1 OUTER_WIRE ++ be_bytes 1 AUTH_ENCODING ++
  be_bytes 4 AUTH_RULES ++
  concat (map (be_bytes 4) [3000; 2000; 2100]%Z) ++
  concat (map (be_bytes 8) [1200; 24; LOOKBACK; 20; 20; REWARD_HOLD_EPOCHS; YEAR_SLOTS]%Z) ++
  concat (map (be_bytes 16) [TICKET_COST; 5; 2; 3; 50; 9; 10; 1; 200]%Z) ++
  be_bytes 8 MAX_SLOTS ++ be_bytes 8 MAX_ENTRIES ++ be_bytes 4 3000 ++
  be_bytes 8 16000000 ++ be_bytes 1 1.

Definition encode_config (v : ValidatorConfig) : bytes :=
  text (cfg_id v) ++ cfg_public_key v ++ cfg_owner v ++ cfg_reward v ++
  be_bytes 16 (cfg_initial_vault v).

Definition initial_validator (v : ValidatorConfig) : C1Validator :=
  mk_c1_validator (cfg_id v) ValidatorStatus.Active (cfg_initial_vault v) 0 0 0 0 None.

Section GenesisModel.
  Context `{KE : Keccak} `{KC : K256}.

(** [anchor()] *)
Definition genesis_anchor : BlockHeader :=
  mk_header HEADER_PROFILE CHAIN_ID 0 Validator (zeros 32) (proposer_id (str "c1-anchor")) 1
    EMPTY_TX_ROOT (zeros 32) EMPTY_RECEIPTS_ROOT 0 (ProtocolData_root ProtocolData_empty).

(** The loop over the two literal producer rows. *)
Fixpoint check_producers (vs : list ValidatorConfig) (expected : list (bytes * bytes * bytes)) :
    result poash_error () :=
  match vs, expected with
  | v :: vs', (id, key, owner) :: expected' =>
      map_err (fun _ => PoashError.Profile "producer binding")
        (ProducerBinding_new (cfg_id v) (cfg_public_key v));;
      fail_if ((cfg_id v !=? id) || (cfg_public_key v !=? key) || (cfg_owner v !=? owner) ||
               (cfg_reward v !=? owner) || (cfg_initial_vault v !=? INITIAL_VAULT))
        (PoashError.Profile "closed producer/collateral association");;
      check_producers vs' expected'
  | _, _ => Ok ()
  end.

Definition initial_data (accounts : list C1Account) (validators : list ValidatorConfig)
    (tickets : list C1Ticket) : SnapshotInput :=
  mk_snapshot (mk_position 0 (BlockHeader_hash genesis_anchor)) accounts
    (map initial_validator validators) tickets [] 0 0 0.

Definition genesis_bytes (run_id : bytes) (validators : list ValidatorConfig)
    (data : SnapshotInput) : bytes :=
  let payload := encode data in
  GENESIS_DESCRIPTOR ++ be_bytes 4 1 ++ text run_id ++ parameters ++
  BlockHeader_canonical_bytes genesis_anchor ++ be_bytes 2 2 ++
  concat (map encode_config validators) ++
  be_bytes 4 (Z.of_nat (length payload)) ++ payload.

Definition Genesis_new (input : GenesisInput) : result poash_error Genesis :=
  fail_if ((gi_run_id input ==? []) || (64 <? Z.of_nat (length (gi_run_id input)))%Z ||
           negb (forallb label_byte (gi_run_id input))) (PoashError.Profile "run label");;
  fail_if ((length (gi_accounts input) !=? 3%nat) || (length (gi_validators input) !=? 2%nat) ||
           (length (gi_tickets input) !=? 2%nat)) (PoashError.Profile "closed genesis counts");;
  let accounts := sort_accounts (gi_accounts input) in
  let validators := sort_by (fun a b => bytes_leb (cfg_id a) (cfg_id b)) (gi_validators input) in
  let tickets := sort_by (fun a b => (t_id a <=? t_id b)%Z) (gi_tickets input) in
  fail_if (accounts !=? expected_accounts) (PoashError.Profile "closed initial account seeds");;
  check_producers validators expected_producers;;
  zip_check initial_ticket_ok (PoashError.Profile "closed initial ticket") tickets
    [(1%Z, str "trial-A"); (255%Z, str "trial-B")];;
  let data := initial_data accounts validators tickets in
  let bs := genesis_bytes (gi_run_id input) validators data in
  fail_if (MAX_GENESIS_BYTES <? Z.of_nat (length bs))%Z (PoashError.Encoding "genesis bound");;
  let policy := mk_policy (gi_run_id input) (keccak256 bs) genesis_anchor validators tickets
    (map acc_address (s_accounts data)) in
  initial ← ClosedState_checked policy data;
  Ok (mk_genesis policy initial bs).

(** ** Decoding *)

Definition config_fields (_ : nat) : parser poash_error ValidatorConfig :=
  id ← c_text 7;
  public_key ← c_field 33;
  owner ← c_field 20;
  reward ← c_field 20;
  vault ← c_uint 16;
  mret (mk_config id public_key owner reward vault).

Definition account_fields (_ : nat) : parser poash_error C1Account :=
  address ← c_field 20;
  balance ← c_uint 16;
  nonce ← c_uint 8;
  mret (mk_c1_account address balance nonce).

(** The outer descriptor: run label, registry and payload. *)
Definition genesis_fields : parser poash_error (bytes * list ValidatorConfig * bytes) :=
  descriptor ← c_take (Z.of_nat (length GENESIS_DESCRIPTOR));
  p_lift (fail_if (descriptor !=? GENESIS_DESCRIPTOR)
    (PoashError.Encoding "genesis descriptor/version"));;
  version ← c_uint 4;
  p_lift (fail_if (version !=? 1)%Z (PoashError.Encoding "genesis descriptor/version"));;
  run_id ← c_text 64;
  params ← c_take (Z.of_nat (length parameters));
  p_lift (fail_if (params !=? parameters) (PoashError.Profile "C1 parameters"));;
  anchor ← c_take 229;
  p_lift (fail_if (anchor !=? BlockHeader_canonical_bytes genesis_anchor)
    (PoashError.Profile "trusted anchor"));;
  count ← c_uint 2;
  p_lift (fail_if (count !=? 2)%Z (PoashError.Profile "closed registry count"));;
  validators ← p_repeat 2 0 config_fields;
  n ← c_uint 4;
  p_lift (fail_if (MAX_GENESIS_BYTES <? n)%Z (PoashError.Encoding "initial payload bound"));;
  payload ← c_take n;
  mret (run_id, validators, payload).

(** The variable fields of the initial payload. *)
Definition payload_fields : parser poash_error (list C1Account) :=
  version ← c_uint 4;
  p_lift (fail_if (version !=? 1)%Z (PoashError.Encoding "state encoding"));;
  skipped ← c_take 40;
  count ← c_uint 4;
  p_lift (fail_if (count !=? 3)%Z (PoashError.Profile "initial account count"));;
  p_repeat 3 0 account_fields.

Definition Genesis_from_bytes (bs : bytes) : result poash_error Genesis :=
  fail_if (MAX_GENESIS_BYTES <? Z.of_nat (length bs))%Z (PoashError.Encoding "genesis bound");;
  '((run_id, validators, payload), d) ← genesis_fields (decoder bs);
  '(accounts, _) ← payload_fields (decoder payload);
  let tickets := [Ticket_active 1 (str "trial-A"); Ticket_active 255 (str "trial-B")] in
  g ← Genesis_new (mk_genesis_input run_id accounts validators tickets);
  fail_if (negb (finished d) || (g_bytes g !=? bs))
    (PoashError.Encoding "noncanonical/trailing genesis");;
  Ok g.
End GenesisModel.

(** ** The approved rows *)

Definition approved_configs : list ValidatorConfig :=
  [mk_config (str "trial-A") KEY_A ADDRESS_A ADDRESS_A INITIAL_VAULT;
   mk_config (str "trial-B") KEY_B ADDRESS_B ADDRESS_B INITIAL_VAULT].
Definition approved_tickets : list C1Ticket :=
  [Ticket_active 1 (str "trial-A"); Ticket_active 255 (str "trial-B")].
Definition label_ok (run_id : bytes) : Prop :=
  run_id <> [] /\ (Z.of_nat (length run_id) <= 64)%Z /\ forallb label_byte run_id = true.

Section GenesisFacts.
  Context {KE : Keccak} {KC : K256}.

Definition approved_data : SnapshotInput :=
  initial_data expected_accounts approved_configs approved_tickets.

(** The genesis of a run label. *)
Definition genesis_policy (run_id : bytes) : Policy :=
  mk_policy run_id (keccak256 (genesis_bytes run_id approved_configs approved_data)) genesis_anchor
    approved_configs approved_tickets (map acc_address expected_accounts).
Definition genesis_of (run_id : bytes) : Genesis :=
  mk_genesis (genesis_policy run_id) (closed_state (genesis_policy run_id) (sort_snapshot approved_data))
    (genesis_bytes run_id approved_configs approved_data).

Lemma anchor_wf : wf_header genesis_anchor.
Proof.
  unfold wf_header, genesis_anchor; simpl. unfold in_width.
  split_and!; try done; apply keccak256_length.
Qed.

Lemma approved_sorted : sort_snapshot approved_data = approved_data.
Proof. vm_compute. reflexivity. Qed.

Lemma approved_wf : wf_rows approved_data.
Proof.
  constructor; try by_computation; [apply header_hash_length|..];
    unfold approved_data, initial_data; simpl; repeat constructor; by_computation.
Qed.

Lemma approved_valid run_id : valid_snapshot (genesis_policy run_id) (sort_snapshot approved_data).
Proof.
  rewrite approved_sorted. constructor.
  - by_computation.
  - by_computation.
  - by_computation.
  - vm_compute. reflexivity.
  - split; vm_compute; reflexivity.
  - by_computation.
  - by_computation.
  - by_computation.
  - by_computation.
  - constructor.
  - unfold approved_data, initial_data; simpl. repeat constructor; by_computation.
  - by_computation.
Qed.

Lemma approved_checked run_id :
  ClosedState_checked (genesis_policy run_id) approved_data =
  Ok (closed_state (genesis_policy run_id) (sort_snapshot approved_data)).
Proof. apply checked_complete; [apply approved_wf|apply approved_valid]. Qed.

(** The point decoder accepts the two literal keys canonically, as the
    genesis constructor requires. *)
Definition keys_accepted : Prop :=
  forall k, k ∈ [KEY_A; KEY_B] -> exists v, from_sec1_bytes k = Some v /\ encoded_point true v = k.

Lemma check_producers_sound vs :
  length vs = 2%nat -> check_producers vs expected_producers = Ok () -> vs = approved_configs.
Proof.
  destruct vs as [|a [|b [|]]]; try done. intros _. unfold expected_producers.
  cbn [check_producers]. intros H. inv_ok. destruct a, b; simpl in *. subst. done.
Qed.

Lemma check_producers_approved :
  keys_accepted -> check_producers approved_configs expected_producers = Ok ().
Proof.
  intros Hk. destruct (Hk KEY_A) as (va & Ha & Ea); [left|].
  destruct (Hk KEY_B) as (vb & Hb & Eb); [right; left|].
  unfold expected_producers, approved_configs. cbn [check_producers cfg_id cfg_public_key cfg_owner
    cfg_reward cfg_initial_vault]. unfold ProducerBinding_new. rewrite Ha, Hb.
  cbv beta iota delta [ok_or mbind result_bind]. rewrite Ea, Eb. vm_compute. reflexivity.
Qed.

Lemma tickets_sound ts :
  length ts = 2%nat ->
  zip_check initial_ticket_ok (PoashError.Profile "closed initial ticket") ts
    [(1%Z, str "trial-A"); (255%Z, str "trial-B")] = Ok () <-> ts = approved_tickets.
Proof.
  destruct ts as [|a [|b [|]]]; try done. intros _. cbn [zip_check]. unfold initial_ticket_ok. split.
  - intros H. inv_ok. destruct a, b; simpl in *. subst. done.
  - intros [= -> ->]. vm_compute. reflexivity.
Qed.

Lemma length_genesis run_id :
  (Z.of_nat (length run_id) <= 64)%Z ->
  (Z.of_nat (length (genesis_bytes run_id approved_configs approved_data)) <= MAX_GENESIS_BYTES)%Z /\
  (Z.of_nat (length (encode approved_data)) <= 2000)%Z.
Proof.
  intros Hr. pose proof (length_header_bytes _ anchor_wf) as Hh.
  assert (length (encode approved_data) <= 2000)%nat as He.
  { unfold encode. rewrite !length_app. change (pos_hash (s_position approved_data))
      with (BlockHeader_hash genesis_anchor). rewrite header_hash_length.
    apply Nat.leb_le. vm_compute. reflexivity. }
  split; [|lia]. unfold genesis_bytes. cbv zeta.
  rewrite !length_app, Hh, !length_be_bytes. unfold text. rewrite length_app, length_be_bytes.
  change (length GENESIS_DESCRIPTOR) with 25%nat.
  assert (length parameters <= 400)%nat by (apply Nat.leb_le; vm_compute; reflexivity).
  assert (length (concat (map encode_config approved_configs)) <= 400)%nat
    by (apply Nat.leb_le; vm_compute; reflexivity).
  unfold MAX_GENESIS_BYTES. lia.
Qed.

(** What the constructor accepts, and with which result. *)
Lemma genesis_new_sound input g :
  Genesis_new input = Ok g ->
  label_ok (gi_run_id input) /\ g = genesis_of (gi_run_id input).
Proof.
  unfold Genesis_new. intros H.
  apply bind_Ok in H as ([] & Hlab & H). apply bind_Ok in H as ([] & Hcnt & H). cbv zeta in H.
  apply bind_Ok in H as ([] & Hacc & H). apply bind_Ok in H as ([] & Hprod & H).
  apply bind_Ok in H as ([] & Htick & H). apply bind_Ok in H as ([] & _ & H).
  apply bind_Ok in H as (initial & Hinit & H). injection H as <-.
  apply fail_if_Ok, bool_decide_eq_false, dec_stable in Hacc. rewrite Hacc in *.
  assert (length (gi_validators input) = 2%nat /\ length (gi_tickets input) = 2%nat) as [Hl1 Hl2]
    by (inv_ok; done).
  apply check_producers_sound in Hprod; [|by rewrite sort_by_perm].
  apply tickets_sound in Htick; [|by rewrite sort_by_perm].
  rewrite Hprod, Htick in *. fold approved_data in Hinit. fold approved_data.
  change (s_accounts approved_data) with expected_accounts in *.
  fold (genesis_policy (gi_run_id input)) in Hinit. fold (genesis_policy (gi_run_id input)).
  rewrite approved_checked in Hinit. injection Hinit as <-. split; [|done].
  inv_ok. split_and!; done.
Qed.

(** The approved rows, in any order. *)
Record approved_input (input : GenesisInput) : Prop := {
  ai_label : label_ok (gi_run_id input);
  ai_accounts : gi_accounts input ≡ₚ expected_accounts;
  ai_validators : gi_validators input ≡ₚ approved_configs;
  ai_tickets : gi_tickets input ≡ₚ approved_tickets
}.

Lemma genesis_new_complete input :
  keys_accepted -> approved_input input -> Genesis_new input = Ok (genesis_of (gi_run_id input)).
Proof.
  intros Hk [(Hne & Hlen & Hall) Ha Hv Ht]. unfold Genesis_new. cbv zeta.
  rewrite (bool_decide_eq_false_2 (gi_run_id input = [])) by done.
  rewrite (proj2 (Z.ltb_ge 64 _)) by done. rewrite Hall. rewrite (Permutation_length Ha), (Permutation_length Hv), (Permutation_length Ht).
  assert (sort_accounts (gi_accounts input) = expected_accounts) as ->.
  { unfold sort_accounts. rewrite (sort_by_key_perm bytes_leb acc_address _ expected_accounts);
      [vm_compute; reflexivity|apply bytes_leb_total|apply bytes_leb_trans|apply bytes_leb_antisym| |done].
    rewrite (Permutation_map acc_address Ha). by_computation. }
  assert (sort_by (fun a b => bytes_leb (cfg_id a) (cfg_id b)) (gi_validators input) = approved_configs) as ->.
  { rewrite (sort_by_key_perm bytes_leb cfg_id _ approved_configs);
      [vm_compute; reflexivity|apply bytes_leb_total|apply bytes_leb_trans|apply bytes_leb_antisym| |done].
    rewrite (Permutation_map cfg_id Hv). by_computation. }
  assert (sort_by (fun a b => (t_id a <=? t_id b)%Z) (gi_tickets input) = approved_tickets) as ->.
  { rewrite (sort_by_key_perm Z.leb t_id _ approved_tickets);
      [vm_compute; reflexivity|apply Zleb_total|apply Zleb_trans|apply Zleb_antisym| |done].
    rewrite (Permutation_map t_id Ht). by_computation. }
  rewrite check_producers_approved by done. rewrite (proj2 (tickets_sound approved_tickets eq_refl) eq_refl).
  rewrite (neq_dec_false expected_accounts) by done.
  fold approved_data. change (s_accounts approved_data) with expected_accounts.
  fold (genesis_policy (gi_run_id input)).
  destruct (length_genesis (gi_run_id input) Hlen) as [Hb _].
  rewrite (proj2 (Z.ltb_ge MAX_GENESIS_BYTES _)) by done.
  rewrite approved_checked. done.
Qed.
End GenesisFacts.

(** ** Decoding *)

Lemma ascii_utf8 s : forallb (byte_in 0 127) s = true -> utf8_valid s = true.
Proof.
  unfold utf8_valid. induction s as [|b s IH]; [done|]. cbn [forallb length utf8_valid_fuel].
  intros [-> H]%andb_true_iff. auto.
Qed.

Lemma label_utf8 s : forallb label_byte s = true -> utf8_valid s = true.
Proof.
  intros H. apply ascii_utf8. rewrite forallb_forall in *. intros b Hb. specialize (H b Hb).
  revert H. unfold label_byte, byte_in. rewrite !orb_true_iff, !andb_true_iff, !Z.leb_le. lia.
Qed.

Section GenesisDecoding.
  Context {KE : Keccak} {KC : K256}.

Definition config_ok (v : ValidatorConfig) : Prop :=
  (Z.of_nat (length (cfg_id v)) <= 7)%Z /\ utf8_valid (cfg_id v) = true /\
  length (cfg_public_key v) = 33%nat /\ length (cfg_owner v) = 20%nat /\
  length (cfg_reward v) = 20%nat /\ in_width U128 (cfg_initial_vault v).

Lemma config_parses i v : config_ok v -> parses (config_fields i) (encode_config v) v.
Proof.
  intros (? & ? & ? & ? & ? & ?). unfold config_fields, encode_config, c_field, c_uint.
  eapply parses_bind; [apply text_parses; [done|lia|done]|].
  do 3 (eapply parses_bind; [by apply parses_field|]).
  destruct v. apply (parses_bind_last _ (fun x => mk_config _ _ _ _ x)). by apply parses_u128.
Qed.

Lemma account_parses i a : account_ok a -> parses (account_fields i) (encode_account a) a.
Proof.
  intros (? & ? & ?). unfold account_fields, encode_account, c_field, c_uint.
  eapply parses_bind; [by apply parses_field|]. eapply parses_bind; [by apply parses_u128|].
  destruct a. apply (parses_bind_last _ (fun x => mk_c1_account _ _ x)). by apply parses_u64.
Qed.

Lemma approved_configs_ok v : v ∈ approved_configs -> config_ok v.
Proof.
  intros [->|[->|H%not_elem_of_nil]%elem_of_cons]%elem_of_cons; [..|done];
    split_and!; try by_computation; vm_compute; reflexivity.
Qed.

Lemma expected_accounts_ok a : a ∈ expected_accounts -> account_ok a.
Proof.
  pose proof (wr_accounts _ (approved_wf (KE := KE))) as H. rewrite Forall_forall in H. apply H.
Qed.

Lemma genesis_fields_parses run_id :
  label_ok run_id ->
  parses genesis_fields (genesis_bytes run_id approved_configs approved_data)
    (run_id, approved_configs, encode approved_data).
Proof.
  intros (_ & Hlen & Hlab). destruct (length_genesis run_id Hlen) as [_ Hp].
  pose proof (length_header_bytes _ anchor_wf) as Hh.
  unfold genesis_fields, genesis_bytes, c_take, c_uint. cbv zeta.
  eapply parses_bind; [by apply parses_take|]. parse_step; [by apply fail_if_false, neq_dec_false|].
  eapply parses_bind; [by apply parses_u32|]. parse_step; [done|].
  eapply parses_bind; [apply text_parses; [done|lia|by apply label_utf8]|].
  eapply parses_bind; [by apply parses_take|]. parse_step; [by apply fail_if_false, neq_dec_false|].
  eapply parses_bind; [apply parses_take; by rewrite Hh|].
  parse_step; [by apply fail_if_false, neq_dec_false|].
  eapply parses_bind; [by apply parses_u16|]. parse_step; [done|].
  eapply parses_bind.
  { apply (parses_repeat encode_config config_fields approved_configs). intros.
    by apply config_parses, approved_configs_ok. }
  eapply parses_bind; [apply parses_u32; unfold in_width; lia|].
  parse_step; [apply fail_if_false, Z.ltb_ge; unfold MAX_GENESIS_BYTES; lia|].
  apply (parses_bind_last _ (fun x => (run_id, approved_configs, x))). by apply parses_take.
Qed.

Lemma payload_fields_parses :
  exists d, payload_fields (decoder (encode approved_data)) = Ok (expected_accounts, d).
Proof.
  destruct (length_genesis [] ltac:(done)) as [_ Hp].
  assert (parses payload_fields
    (be_bytes 4 1 ++ (be_bytes 8 0 ++ BlockHeader_hash genesis_anchor) ++ be_bytes 4 3 ++
     concat (map encode_account expected_accounts)) expected_accounts) as Hparse.
  { unfold payload_fields, c_uint, c_take.
    eapply parses_bind; [by apply parses_u32|]. parse_step; [done|].
    eapply parses_bind.
    { apply parses_take. by rewrite length_app, length_be_bytes, header_hash_length. }
    eapply parses_bind; [by apply parses_u32|]. parse_step; [done|].
    apply (parses_repeat encode_account account_fields expected_accounts). intros.
    by apply account_parses, expected_accounts_ok. }
  eexists. eapply (Hparse (decoder (encode approved_data))).
  - apply dec_ok_decoder. lia.
  - unfold rest, decoder; simpl. rewrite drop_0. unfold encode. rewrite <- !app_assoc. reflexivity.
Qed.

Lemma genesis_decode run_id :
  keys_accepted -> label_ok run_id -> Genesis_from_bytes (g_bytes (genesis_of run_id)) = Ok (genesis_of run_id).
Proof.
  intros Hk Hlab. unfold Genesis_from_bytes. cbn [g_bytes genesis_of].
  set (bs := genesis_bytes run_id approved_configs approved_data).
  pose proof Hlab as (_ & Hlen & _). destruct (length_genesis run_id Hlen) as [Hb _]. fold bs in Hb.
  rewrite (proj2 (Z.ltb_ge MAX_GENESIS_BYTES _)) by done. rewrite bind_of_Ok || simpl fail_if.
  rewrite ?bind_of_Ok.
  unfold MAX_GENESIS_BYTES in Hb.
  rewrite (parses_all genesis_fields bs (run_id, approved_configs, encode approved_data));
    [|lia|by apply genesis_fields_parses].
  rewrite bind_of_Ok. destruct payload_fields_parses as [d ->]. rewrite bind_of_Ok. cbv zeta.
  rewrite (genesis_new_complete (mk_genesis_input run_id expected_accounts approved_configs approved_tickets));
    [|done|by constructor].
  rewrite bind_of_Ok. cbn [gi_run_id g_bytes genesis_of]. fold bs.
  rewrite finished_end, (neq_dec_false bs) by done. done.
Qed.
End GenesisDecoding.

(** ** Properties *)

Section GenesisProperties.
  Context {KE : Keccak} {KC : K256}.

(** The genesis of a run is fixed by its label: [Genesis_new] succeeds
    only for a valid label, and then the result (network id, anchor,
    registry, initial state, bytes) is the one of the approved rows; given a
    point decoder that accepts the two approved keys, every rearrangement of
    the approved rows is accepted, the initial snapshot included. *)
Theorem genesis_determined input :
  (forall g, Genesis_new input = Ok g ->
     label_ok (gi_run_id input) /\ g = genesis_of (gi_run_id input)) /\
  (keys_accepted -> approved_input input ->
     Genesis_new input = Ok (genesis_of (gi_run_id input))).
Proof. split; [intros g; apply genesis_new_sound|apply genesis_new_complete]. Qed.

(** The strict genesis decoder accepts exactly the canonical descriptors:
    decoding the bytes of any constructed genesis gives it back, and whatever
    is accepted is the genesis of a valid label with exactly these bytes. *)
Theorem genesis_codec bs g :
  keys_accepted ->
  Genesis_from_bytes bs = Ok g <->
  exists run_id, label_ok run_id /\ g = genesis_of run_id /\ bs = g_bytes g.
Proof.
  intros Hk. split.
  - unfold Genesis_from_bytes. intros H. apply bind_Ok in H as ([] & _ & H).
    apply bind_Ok in H as ([[[run vs] payload] d] & _ & H).
    apply bind_Ok in H as ([accs d'] & _ & H). cbv zeta in H.
    apply bind_Ok in H as (g' & Hg & H). apply bind_Ok in H as ([] & Hc & H).
    injection H as ->. inv_ok. apply genesis_new_sound in Hg as [Hlab Hg].
    exists (gi_run_id (mk_genesis_input run accs vs approved_tickets)). split_and!; done.
  - intros (run & Hlab & -> & ->). by apply genesis_decode.
Qed.
End GenesisProperties.

Lemma toy_keys_accepted : @keys_accepted toy_k256.
Proof.
  intros k [->|[->|H%not_elem_of_nil]%elem_of_cons]%elem_of_cons; [..|done].
  - exists (mk_b32 (drop 1 KEY_A) eq_refl). split; vm_compute; reflexivity.
  - exists (mk_b32 (drop 1 KEY_B) eq_refl). split; vm_compute; reflexivity.
Qed.

Lemma genesis_codec_witness :
  @Genesis_from_bytes toy_keccak toy_k256 (g_bytes (@genesis_of toy_keccak (str "run-1"))) =
  Ok (@genesis_of toy_keccak (str "run-1")).
Proof.
  apply (@genesis_codec toy_keccak toy_k256 (g_bytes (@genesis_of toy_keccak (str "run-1")))
    (@genesis_of toy_keccak (str "run-1")) toy_keys_accepted).
  exists (str "run-1"). split; [|split; reflexivity].
  split; [discriminate|]. split; [vm_compute; discriminate|reflexivity].
Defined.

Lemma genesis_determined_witness :
  @Genesis_new toy_keccak toy_k256
    (mk_genesis_input (str "run-1") (rev expected_accounts) (rev approved_configs)
       (rev approved_tickets)) = Ok (@genesis_of toy_keccak (str "run-1")).
Proof.
  apply (proj2 (@genesis_determined toy_keccak toy_k256
    (mk_genesis_input (str "run-1") (rev expected_accounts) (rev approved_configs)
       (rev approved_tickets))) toy_keys_accepted).
  constructor; [|symmetry; apply Permutation_rev..].
  split; [discriminate|]. split; [vm_compute; discriminate|reflexivity].
Defined.
