(* ===== verification/PoashClaim.v ===== *)
(** * C1 header claims (src/src/native_poash/admission.rs, first half)

    The bounded header claim of the closed experiment, the statement a
    producer signs for it, and its attribution to a registered key.  The
    eligibility plan of the same source file needs the history model and is
    in PoashAdmission.

    The theorems characterise the accepted claims and attributions and show
    that the C1 statement can never be confused with the wire-3 statement of
    the offline profile or with a transaction statement. *)

From S2P Require Import Prelude Codec Crypto BlockCommitment NativeTransaction NativeBlock.
From S2P Require Import BlockAuthentication PoashBase PoashState PoashGenesis.

Record HeaderClaim : Type := mk_claim {
  hc_header : BlockHeader;
  hc_producer : bytes;
  hc_count : Z
}.

#[export] Instance HeaderClaim_eq_dec : EqDecision HeaderClaim.
Proof. solve_decision. Defined.

Record AuthenticatedHeader : Type := mk_auth_header {
  ah_claim : HeaderClaim;
  ah_network : bytes;
  ah_signature : NativeSignature;
  ah_digest : bytes;
  ah_key : bytes
}.

#[export] Instance AuthenticatedHeader_eq_dec : EqDecision AuthenticatedHeader.
Proof. solve_decision. Defined.

Section Claims.
  Context `{KE : Keccak} `{KC : K256}.

Definition HeaderClaim_new (header : BlockHeader) (producer : bytes) (count : Z) :
    result poash_error HeaderClaim :=
  fail_if ((protocol_version header !=? HEADER_PROFILE) || (chain_id header !=? CHAIN_ID) ||
           (block_kind header !=? Validator)) (PoashError.Profile "C1 header interpretation");;
  fail_if (negb ((1 <=? slot header) && (slot header <=? MAX_SLOTS)) || (MAX_ENTRIES <? count))%Z
    PoashError.ExperimentLimit;;
  fail_if (negb ((producer ==? str "trial-A") || (producer ==? str "trial-B")) ||
           (proposer_id_field header !=? proposer_id producer)) PoashError.UnknownProducer;;
  fail_if ((ticket_id header ==? 0)%Z || (state_root header !=? zeros 32) ||
           (receipts_root header !=? EMPTY_RECEIPTS_ROOT))
    (PoashError.Profile "C1 ticket/reserved roots");;
  fail_if ((gas_used header !=? count * 1000)%Z ||
           (protocol_data_root header !=?
              ProtocolData_root (mk_protocol_data None (count * 10000))))
    (PoashError.Profile "C1 gas/fee claim");;
  fail_if ((count ==? 0)%Z && (transaction_root header !=? EMPTY_TX_ROOT))
    (PoashError.Profile "empty transaction root");;
  Ok (mk_claim header producer count).

Definition HeaderClaim_hash (c : HeaderClaim) : bytes := BlockHeader_hash (hc_header c).

Definition claim_signing_preimage (c : HeaderClaim) (network : bytes) : bytes :=
  let p := zeros 102 in
  let p := copy_at 0 SIGNING_DOMAIN p in
  let p := copy_at 20 (be_bytes 1 OUTER_WIRE) p in
  let p := copy_at 21 (be_bytes 1 AUTH_ENCODING) p in
  let p := copy_at 22 (be_bytes 4 AUTH_RULES) p in
  let p := copy_at 26 (be_bytes 8 (chain_id (hc_header c))) p in
  let p := copy_at 34 network p in
  let p := copy_at 66 (be_bytes 4 (protocol_version (hc_header c))) p in
  copy_at 70 (HeaderClaim_hash c) p.

Definition claim_signing_digest (c : HeaderClaim) (network : bytes) : bytes :=
  keccak256 (claim_signing_preimage c network).

(** [genesis.validators().iter().find(|v| v.id == producer)] *)
Definition find_config (configs : list ValidatorConfig) (id : bytes) : option ValidatorConfig :=
  head (filter (fun v => cfg_id v = id) configs).

Definition HeaderClaim_authenticate (c : HeaderClaim) (g : Genesis) (network_claim bs : bytes) :
    result poash_error AuthenticatedHeader :=
  let network := pol_network (g_policy g) in
  fail_if (network_claim !=? network) (PoashError.Context "candidate network");;
  binding ← ok_or (find_config (pol_configs (g_policy g)) (hc_producer c)) PoashError.UnknownProducer;
  signature ← map_err PoashError.Signature (NativeSignature_from_bytes bs);
  let digest := claim_signing_digest c network in
  key ← map_err PoashError.Signature (recover_public_key signature digest);
  fail_if (encoded_point true key !=? cfg_public_key binding) PoashError.KeyMismatch;;
  Ok (mk_auth_header c network signature digest (cfg_public_key binding)).

(** ** Specifications *)

Record claimable (header : BlockHeader) (producer : bytes) (count : Z) : Prop := {
  cl_profile : protocol_version header = HEADER_PROFILE /\ chain_id header = CHAIN_ID /\
    block_kind header = Validator;
  cl_limits : (1 <= slot header <= MAX_SLOTS)%Z /\ (count <= MAX_ENTRIES)%Z;
  cl_producer : (producer = str "trial-A" \/ producer = str "trial-B") /\
    proposer_id_field header = proposer_id producer;
  cl_roots : ticket_id header <> 0%Z /\ state_root header = zeros 32 /\
    receipts_root header = EMPTY_RECEIPTS_ROOT;
  cl_gas : gas_used header = (count * 1000)%Z /\
    protocol_data_root header = ProtocolData_root (mk_protocol_data None (count * 10000));
  cl_empty : count = 0%Z -> transaction_root header = EMPTY_TX_ROOT
}.

Lemma claim_new_iff header producer count c :
  HeaderClaim_new header producer count = Ok c <->
  claimable header producer count /\ c = mk_claim header producer count.
Proof.
  unfold HeaderClaim_new. split.
  - intros H. inv_ok.
    repeat match goal with
    | H : (_ || _)%bool = true |- _ => rewrite orb_true_iff, !bool_decide_eq_true in H
    | H : (_ && _)%bool = false |- _ => rewrite andb_false_iff in H
    end.
    split; [|done]. constructor; try (split_and!; done). intros ->.
    match goal with H : _ \/ bool_decide (_ <> _) = false |- _ => destruct H as [H|H] end; by inv_ok.
  - intros [[(-> & -> & ->) [[? ?] ?] [Hp ->] (? & -> & ->) [-> ->] He] ->].
    repeat match goal with |- context [bool_decide (?a <> ?a)] =>
      rewrite (neq_dec_false a a eq_refl) end.
    rewrite (proj2 (Z.leb_le 1 _)), (proj2 (Z.leb_le _ MAX_SLOTS)) by done.
    rewrite (proj2 (Z.ltb_ge _ count)), (bool_decide_eq_false_2 (ticket_id header = 0%Z)) by done.
    assert ((producer ==? str "trial-A") || (producer ==? str "trial-B") = true) as ->.
    { rewrite orb_true_iff, !bool_decide_eq_true. done. }
    simpl. destruct (bool_decide (count = 0%Z)) eqn:Ec; [|done].
    apply bool_decide_eq_true in Ec. by rewrite (neq_dec_false _ _ (He Ec)).
Qed.
End Claims.

Section Attribution.
  Context {KE : Keccak} {KC : K256}.

Definition claim_statement (c : HeaderClaim) (network : bytes) : bytes :=
  be_bytes 1 OUTER_WIRE ++ be_bytes 1 AUTH_ENCODING ++ be_bytes 4 AUTH_RULES ++
  be_bytes 8 (chain_id (hc_header c)) ++ network ++
  be_bytes 4 (protocol_version (hc_header c)) ++ HeaderClaim_hash c.

Lemma claim_preimage_layout c network :
  length network = 32%nat -> claim_signing_preimage c network = SIGNING_DOMAIN ++ claim_statement c network.
Proof.
  intros Hn. assert (length (HeaderClaim_hash c) = 32%nat) as Hh by apply header_hash_length.
  pose proof length_block_domain as Hd.
  unfold claim_signing_preimage. cbv zeta. change (zeros 102) with ([] ++ zeros 102).
  do 8 (rewrite copy_at_fill by (rewrite ?length_app, ?length_be_bytes; simpl; lia)).
  rewrite !length_be_bytes, Hn, Hh, Hd. change (zeros _) with (@nil byte). rewrite app_nil_r.
  unfold claim_statement. by rewrite <- !app_assoc.
Qed.

Lemma length_statement c network :
  length network = 32%nat -> length (claim_statement c network) = 82%nat.
Proof.
  intros Hn. unfold claim_statement. rewrite !length_app, !length_be_bytes, Hn.
  unfold HeaderClaim_hash. by rewrite header_hash_length.
Qed.

(** What attribution means: the registered key of the named producer signed
    this statement. *)
Record attributed (c : HeaderClaim) (g : Genesis) (network_claim bs : bytes)
    (p : AuthenticatedHeader) : Prop := {
  at_network : network_claim = pol_network (g_policy g);
  at_binding : exists binding key,
    find_config (pol_configs (g_policy g)) (hc_producer c) = Some binding /\
    ah_key p = cfg_public_key binding /\
    recover_public_key (ah_signature p) (ah_digest p) = Ok key /\
    encoded_point true key = cfg_public_key binding;
  at_signature : NativeSignature_from_bytes bs = Ok (ah_signature p);
  at_digest : ah_digest p = claim_signing_digest c (pol_network (g_policy g));
  at_claim : ah_claim p = c /\ ah_network p = pol_network (g_policy g)
}.

Lemma claim_authenticate_iff c g network_claim bs p :
  HeaderClaim_authenticate c g network_claim bs = Ok p <-> attributed c g network_claim bs p.
Proof.
  unfold HeaderClaim_authenticate. cbv zeta. split.
  - intros H. inv_ok. subst. constructor; simpl; try done. eauto 10.
  - intros [-> (b & key & Hb & Hk & Hr & He) Hs Hd [Hc Hn]].
    rewrite neq_dec_false by done. simpl. rewrite Hb. simpl. rewrite Hs. simpl.
    rewrite <- Hd, Hr. simpl. rewrite neq_dec_false by done. simpl. destruct p; simpl in *. by subst.
Qed.

(** [find] returns the row of that id. *)
Lemma find_config_Some configs id v :
  find_config configs id = Some v -> v ∈ configs /\ cfg_id v = id.
Proof.
  unfold find_config. intros H.
  assert (v ∈ filter (fun v => cfg_id v = id) configs) as Hin.
  { destruct (filter _ configs); [done|]. injection H as <-. left. }
  apply list_elem_of_filter in Hin as [? ?]. done.
Qed.
End Attribution.

(** ** Properties *)

Section ClaimProperties.
  Context {KE : Keccak} {KC : K256}.

(** A C1 header claim is accepted exactly when it is of the C1 profile,
    in the experiment's range, names a closed producer it commits to, and
    its gas, burn and (when empty) transaction root agree with the body
    count. *)
Theorem header_claim_iff header producer count c :
  HeaderClaim_new header producer count = Ok c <->
  claimable header producer count /\ c = mk_claim header producer count.
Proof. apply claim_new_iff. Qed.

(** A header is attributed exactly when the claimed network is the
    genesis network and the key recovered from the C1 statement is the full
    registered key of the claimed producer. *)
Theorem attribution_iff c g network_claim bs p :
  HeaderClaim_authenticate c g network_claim bs = Ok p <-> attributed c g network_claim bs p.
Proof. apply claim_authenticate_iff. Qed.

(** One key may serve both profiles without cross-replay: a C1 header
    digest never equals the digest of a wire-3 envelope or of a native
    transaction unless two explicit preimages collide, and two C1 digests are
    equal only for the same network, chain, profile and block hash. *)
Theorem c1_statement_separated c1 n1 c2 n2 e t :
  length n1 = 32%nat -> length n2 = 32%nat -> wf_header (hc_header c1) -> wf_header (hc_header c2) ->
  wf_envelope e -> wf_unsigned t ->
  let s1 := SIGNING_DOMAIN ++ claim_statement c1 n1 in
  (claim_signing_digest c1 n1 = block_signing_digest e ->
     collides s1 (SIGNING_DOMAIN ++ payload_layout e)) /\
  (claim_signing_digest c1 n1 = keccak256 (TX_SIGNING_DOMAIN ++ unsigned_layout t) ->
     collides s1 (TX_SIGNING_DOMAIN ++ unsigned_layout t)) /\
  (claim_signing_digest c1 n1 = claim_signing_digest c2 n2 ->
     (n1 = n2 /\ HeaderClaim_hash c1 = HeaderClaim_hash c2) \/
     collides s1 (SIGNING_DOMAIN ++ claim_statement c2 n2)).
Proof.
  intros Hn1 Hn2 Hh1 Hh2 He Ht. cbv zeta. unfold claim_signing_digest.
  rewrite !claim_preimage_layout by done. split_and!; intros E.
  - split; [|by rewrite <- signing_preimage_layout by apply He].
    intros F%app_inv_head. unfold claim_statement, payload_layout in F.
    apply (be_bytes_delimits 1 U8) in F as [F _]; done.
  - split; [|done]. intros F%(f_equal length).
    rewrite !length_app, length_signing_domain, length_block_domain, length_statement,
      length_unsigned_layout in F by done.
    unfold UNSIGNED_LEN in F. lia.
  - destruct (decide (claim_statement c1 n1 = claim_statement c2 n2)) as [F|Hne].
    + left. unfold claim_statement in F. unfold wf_header in *. destruct_and!.
      do 3 (apply app_inv_head in F). 
      apply (be_bytes_delimits 8 U64) in F as [_ F]; [|done..].
      apply (fixed_delimits 32) in F as [-> F]; [|done..].
      apply (be_bytes_delimits 4 U32) in F as [_ F]; done.
    + right. split; [by intros ?%app_inv_head|done].
Qed.
End ClaimProperties.

Definition toy_claim_header : BlockHeader :=
  mk_header 3 1162 1 Validator (zeros 32) (@proposer_id toy_keccak (str "trial-A")) 1
    (@EMPTY_TX_ROOT toy_keccak) (zeros 32) (@EMPTY_RECEIPTS_ROOT toy_keccak) 0
    (@ProtocolData_root toy_keccak ProtocolData_empty).
Definition toy_claim : HeaderClaim := mk_claim toy_claim_header (str "trial-A") 0.

Lemma toy_envelope_wf : wf_envelope toy_envelope.
Proof.
  split; [reflexivity|]. split; [by_computation|]. split; vm_compute; reflexivity.
Qed.

Lemma c1_statement_separated_witness :
  (zeros 32 = zeros 32 /\
   @HeaderClaim_hash toy_keccak toy_claim = @HeaderClaim_hash toy_keccak toy_claim) \/
  @collides toy_keccak (SIGNING_DOMAIN ++ @claim_statement toy_keccak toy_claim (zeros 32))
    (SIGNING_DOMAIN ++ @claim_statement toy_keccak toy_claim (zeros 32)).
Proof.
  refine (proj2 (proj2 (@c1_statement_separated toy_keccak toy_claim (zeros 32) toy_claim (zeros 32)
    toy_envelope (toy_unsigned 0 5) eq_refl eq_refl _ _ toy_envelope_wf _)) eq_refl); by_computation.
Defined.
