(* ===== verification/PoashHistory.v ===== *)
(** * Trusted history and slot views (src/src/native_poash/history.rs)

    The linked prefix of headers 0..parent with the snapshot after the
    parent, and the frozen view from which the next slot is planned.

    The theorems show what an accepted prefix guarantees (anchor, links,
    producers, accounting), that its tip hash determines all of it up to a
    hash collision, and that a slot view always finds its randomness
    reference: the network id before slot 32, the hash 32 slots back after. *)

From S2P Require Import Prelude Codec Crypto BlockCommitment NativeTransaction.
From S2P Require Import BlockAuthentication LeaderSelection PoashBase PoashState.
From S2P Require Import PoashSelection PoashGenesis PoashClaim.

Record HistoricalHeader : Type := mk_historical {
  hh_header : BlockHeader;
  hh_hash : bytes
}.

#[export] Instance HistoricalHeader_eq_dec : EqDecision HistoricalHeader.
Proof. solve_decision. Defined.

Record PrefixContext : Type := mk_prefix {
  px_genesis : Genesis;
  px_headers : list HistoricalHeader;
  px_state : ClosedState;
  px_id : bytes
}.

#[export] Instance PrefixContext_eq_dec : EqDecision PrefixContext.
Proof. solve_decision. Defined.

Record SlotStartView : Type := mk_view {
  sv_prefix : PrefixContext;
  sv_slot : Z;
  sv_reference : bytes;
  sv_id : bytes
}.

#[export] Instance SlotStartView_eq_dec : EqDecision SlotStartView.
Proof. solve_decision. Defined.

(** The counters of the loop: blocks per registry row, gas and fees. *)
Record PrefixTotals : Type := mk_totals {
  pt_counts : list Z;
  pt_gas : Z;
  pt_fees : Z
}.

(** [iter().position(..)] *)
Fixpoint position {A} (test : A -> bool) (l : list A) : option nat :=
  match l with
  | [] => None
  | a :: rest => if test a then Some O else S <$> position test rest
  end.

Section History.
  Context `{KE : Keccak} `{KC : K256}.

Definition HistoricalHeader_new (header : BlockHeader) (claimed_hash : bytes) :
    result poash_error HistoricalHeader :=
  fail_if ((protocol_version header !=? HEADER_PROFILE) || (chain_id header !=? CHAIN_ID) ||
           (block_kind header !=? Validator)) (PoashError.Profile "historical header");;
  fail_if (MAX_SLOTS <? slot header)%Z PoashError.ExperimentLimit;;
  fail_if (BlockHeader_hash header !=? claimed_hash) (PoashError.Context "historical claimed H");;
  Ok (mk_historical header claimed_hash).

(** One produced slot.  The previous header and the registry row are in
    range here, and so is the credit row of a checked state with this parent
    slot (one credit per slot). *)
Definition prefix_slot (policy : Policy) (headers : list HistoricalHeader)
    (credits : list RewardCredit) (s : Z) (h : BlockHeader) (acc : PrefixTotals) :
    result poash_error PrefixTotals :=
  prev ← ok_or (headers !! Z.to_nat (s - 1)) (PoashError.MissingHistory s);
  fail_if (parent_hash h !=? hh_hash prev) (PoashError.Context "historical parent link");;
  i ← ok_or (position (fun v => proposer_id (cfg_id v) ==? proposer_id_field h) (pol_configs policy))
        PoashError.UnknownProducer;
  let count := (gas_used h / 1000)%Z in
  v ← ok_or (pol_configs policy !! i) PoashError.UnknownProducer;
  fail_if (negb (existsb (fun t => (t_id t ==? ticket_id h) && (t_owner t ==? cfg_id v))
             (pol_tickets policy))) (PoashError.Context "historical closed ticket association");;
  count16 ← ok_or (if (count <? U16)%Z then Some count else None) PoashError.Overflow;
  HeaderClaim_new h (cfg_id v) count16;;
  let counts := alter (fun n => n + 1)%Z i (pt_counts acc) in
  gas ← ok_or (checked_add U64 (pt_gas acc) (gas_used h)) PoashError.Overflow;
  fees ← ok_or (checked_add U128 (pt_fees acc) (count * 10000)) PoashError.Overflow;
  let credit := default (mk_credit 0 [] 0) (credits !! Z.to_nat (s - 1)) in
  fail_if ((c_slot credit !=? s) || (c_validator credit !=? cfg_id v))
    (PoashError.Context "earning event/header");;
  Ok (mk_totals counts gas fees).

(** [for slot in 0..=parent.slot] *)
Fixpoint prefix_loop (g : Genesis) (headers : list HistoricalHeader) (credits : list RewardCredit)
    (slots : list Z) (acc : PrefixTotals) : result poash_error PrefixTotals :=
  match slots with
  | [] => Ok acc
  | s :: rest =>
      h ← ok_or (headers !! Z.to_nat s) (PoashError.MissingHistory s);
      fail_if (slot (hh_header h) !=? s) (PoashError.MissingHistory s);;
      acc' ← (if (s =? 0)%Z then
                fail_if (hh_header h !=? pol_anchor (g_policy g))
                  (PoashError.Context "independent anchor");;
                Ok acc
              else prefix_slot (g_policy g) headers credits s (hh_header h) acc);
      prefix_loop g headers credits rest acc'
  end.

Definition prefix_id (g : Genesis) (headers : list HistoricalHeader) : bytes :=
  hash_with_domain (str "ETERNIX_POASH_C1_PREFIX" ++ [x00])
    (pol_network (g_policy g) ++ be_bytes 2 (Z.of_nat (length headers)) ++
     concat (map (fun h => BlockHeader_canonical_bytes (hh_header h)) headers)).

(** [counts.iter().zip(&validators).any(|(n, v)| n != v.produced)] *)
Fixpoint counts_differ (counts : list Z) (vs : list C1Validator) : bool :=
  match counts, vs with
  | n :: counts', v :: vs' => (n !=? v_produced v) || counts_differ counts' vs'
  | _, _ => false
  end.

Definition PrefixContext_from_trusted_history (g : Genesis) (headers : list HistoricalHeader)
    (state : ClosedState) : result poash_error PrefixContext :=
  fail_if (MAX_SLOTS + 1 <? Z.of_nat (length headers))%Z PoashError.ExperimentLimit;;
  fail_if (cs_policy state !=? g_policy g) (PoashError.Context "snapshot genesis");;
  let parent := s_position (cs_data state) in
  totals ← prefix_loop g headers (s_credits (cs_data state)) (seqZ 0 (pos_slot parent + 1))
             (mk_totals [0%Z; 0%Z] 0 0);
  fail_if (Z.of_nat (length headers) !=? pos_slot parent + 1)%Z
    (PoashError.Context "extra historical headers");;
  fail_if ((hh_hash <$> last headers) !=? Some (pos_hash parent))
    (PoashError.Context "post-parent position");;
  fail_if ((pos_slot parent ==? 0)%Z && (state !=? g_initial g))
    (PoashError.Context "initial snapshot differs");;
  fail_if ((pt_gas totals !=? s_gas_used (cs_data state)) ||
           (pt_fees totals !=? s_fees_burned (cs_data state)) ||
           counts_differ (pt_counts totals) (s_validators (cs_data state)))
    (PoashError.Context "prefix/snapshot accounting");;
  Ok (mk_prefix g headers state (prefix_id g headers)).

Definition PrefixContext_initial (g : Genesis) : result poash_error PrefixContext :=
  h ← HistoricalHeader_new (pol_anchor (g_policy g)) (BlockHeader_hash (pol_anchor (g_policy g)));
  PrefixContext_from_trusted_history g [h] (g_initial g).

Definition historical_hash (px : PrefixContext) (s : Z) : result poash_error bytes :=
  match px_headers px !! Z.to_nat s with
  | Some h => if slot (hh_header h) ==? s then Ok (hh_hash h) else Err (PoashError.MissingHistory s)
  | None => Err (PoashError.MissingHistory s)
  end.

Definition slot_start (px : PrefixContext) : result poash_error SlotStartView :=
  let position := s_position (cs_data (px_state px)) in
  let network := pol_network (g_policy (px_genesis px)) in
  s ← ok_or (checked_add U64 (pos_slot position) 1) PoashError.Overflow;
  fail_if (MAX_SLOTS <? s)%Z PoashError.ExperimentLimit;;
  reference ← (if (s <? LOOKBACK)%Z then Ok network else historical_hash px (s - LOOKBACK));
  let id := hash_with_domain (str "ETERNIX_POASH_C1_SLOT_START" ++ [x00])
    (network ++ px_id px ++ cs_id (px_state px) ++ be_bytes 8 s ++ pos_hash position ++ reference) in
  Ok (mk_view px s reference id).

Definition view_state (v : SlotStartView) : ClosedState := px_state (sv_prefix v).
Definition view_parent (v : SlotStartView) : Position := s_position (cs_data (view_state v)).
Definition view_genesis (v : SlotStartView) : Genesis := px_genesis (sv_prefix v).

Definition view_select (v : SlotStartView) : result poash_error Selection :=
  select_inputs (sv_reference v) (sv_slot v) (s_validators (cs_data (view_state v)))
    (s_tickets (cs_data (view_state v))).
End History.

(** ** What an accepted prefix guarantees *)

Section PrefixFacts.
  Context {KE : Keccak} {KC : K256}.

(** Header [i] of the prefix, produced for slot [i > 0]. *)
Definition produced_ok (policy : Policy) (headers : list HistoricalHeader)
    (credits : list RewardCredit) (s : Z) (h : BlockHeader) : Prop :=
  exists prev v c,
    headers !! Z.to_nat (s - 1) = Some prev /\ parent_hash h = hh_hash prev /\
    v ∈ pol_configs policy /\ claimable h (cfg_id v) (gas_used h / 1000) /\
    (exists t, t ∈ pol_tickets policy /\ t_id t = ticket_id h /\ t_owner t = cfg_id v) /\
    c = default (mk_credit 0 [] 0) (credits !! Z.to_nat (s - 1)) /\
    c_slot c = s /\ c_validator c = cfg_id v.

Definition gas_at (headers : list HistoricalHeader) (s : Z) : Z :=
  match headers !! Z.to_nat s with
  | Some h => if (s =? 0)%Z then 0%Z else gas_used (hh_header h)
  | None => 0%Z
  end.

Definition producer_index (policy : Policy) (h : BlockHeader) : option nat :=
  position (fun v => proposer_id (cfg_id v) ==? proposer_id_field h) (pol_configs policy).

(** Whether registry row [i] produced slot [s]. *)
Definition produced_at (policy : Policy) (headers : list HistoricalHeader) (i : nat) (s : Z) : Z :=
  match headers !! Z.to_nat s with
  | Some h => if (s =? 0)%Z then 0%Z
              else if producer_index policy (hh_header h) ==? Some i then 1%Z else 0%Z
  | None => 0%Z
  end.

Definition slot_ok (g : Genesis) (headers : list HistoricalHeader) (credits : list RewardCredit)
    (s : Z) : Prop :=
  exists h, headers !! Z.to_nat s = Some h /\ slot (hh_header h) = s /\
    (if (s =? 0)%Z then hh_header h = pol_anchor (g_policy g)
     else produced_ok (g_policy g) headers credits s (hh_header h)).

Lemma prefix_slot_sound policy headers credits s h acc acc' :
  prefix_slot policy headers credits s h acc = Ok acc' ->
  produced_ok policy headers credits s h /\
  pt_gas acc' = (pt_gas acc + gas_used h)%Z /\ pt_fees acc' = (pt_fees acc + gas_used h * 10)%Z /\
  exists i, producer_index policy h = Some i /\
    pt_counts acc' = alter (fun n => n + 1)%Z i (pt_counts acc).
Proof.
  unfold prefix_slot. cbv zeta. intros H. inv_ok.
  match goal with H : (if _ then Some _ else None) = Some _ |- _ =>
    destruct (_ <? U16)%Z in H; [|done]; injection H as <- end.
  match goal with H : HeaderClaim_new _ _ _ = Ok _ |- _ =>
    apply claim_new_iff in H as [Hclaim _] end.
  match goal with H : existsb _ _ = true |- _ => apply existsb_exists in H as (t & Ht & Ht') end.
  subst acc'. simpl. split_and!.
  - eexists _, _, _. split_and!; [done|done| |done| |reflexivity|done|done].
    + by eapply list_elem_of_lookup_2.
    + exists t. rewrite list_elem_of_In. split; [done|]. by inv_ok.
  - lia.
  - pose proof (cl_gas _ _ _ Hclaim) as [Hg _]. lia.
  - eauto.
Qed.

Lemma prefix_loop_sound g headers credits slots acc acc' :
  prefix_loop g headers credits slots acc = Ok acc' ->
  Forall (slot_ok g headers credits) slots /\
  pt_gas acc' = (pt_gas acc + sum_of (gas_at headers) slots)%Z /\
  pt_fees acc' = (pt_fees acc + 10 * sum_of (gas_at headers) slots)%Z /\
  forall i n, pt_counts acc !! i = Some n ->
    pt_counts acc' !! i = Some (n + sum_of (produced_at (g_policy g) headers i) slots)%Z.
Proof.
  revert acc. induction slots as [|s slots IH]; intros acc H.
  { injection H as <-. split_and!; [constructor|simpl; lia..|]. intros i n ->. f_equal. simpl. lia. }
  cbn [prefix_loop] in H. apply bind_Ok in H as (h & Hh & H). apply ok_or_Ok in Hh.
  apply bind_Ok in H as ([] & Hs & H). apply fail_if_Ok, bool_decide_eq_false, dec_stable in Hs.
  apply bind_Ok in H as (acc1 & H1 & H). apply IH in H as (HF & Hg & Hf & Hc).
  assert (gas_at headers s = if (s =? 0)%Z then 0%Z else gas_used (hh_header h)) as Hgas
    by (unfold gas_at; by rewrite Hh).
  assert (forall i, produced_at (g_policy g) headers i s = if (s =? 0)%Z then 0%Z
    else if producer_index (g_policy g) (hh_header h) ==? Some i then 1%Z else 0%Z) as Hprod
    by (intros i; unfold produced_at; by rewrite Hh).
  change (sum_of (gas_at headers) (s :: slots)) with (gas_at headers s + sum_of (gas_at headers) slots)%Z.
  assert (forall i, sum_of (produced_at (g_policy g) headers i) (s :: slots) =
    (produced_at (g_policy g) headers i s + sum_of (produced_at (g_policy g) headers i) slots)%Z)
    as Hcons by done.
  destruct (s =? 0)%Z eqn:Es.
  - inv_ok. subst acc1. split_and!; [constructor; [|done]|lia|lia|].
    + exists h. split_and!; [done|done|]. match goal with E : s = 0%Z |- _ => rewrite E end. done.
    + intros i n Hn. rewrite (Hc i n Hn), Hcons, Hprod. done.
  - apply prefix_slot_sound in H1 as (Hok & Hg1 & Hf1 & j & Hj & Hcj).
    split_and!; [constructor; [|done]|lia|lia|].
    + exists h. by rewrite Es.
    + intros i n Hn. rewrite Hcons, Hprod, Hj.
      destruct (decide (j = i)) as [->|Hne].
      * rewrite bool_decide_eq_true_2 by done. rewrite (Hc i (n + 1)%Z); [f_equal; lia|].
        by rewrite Hcj, list_lookup_alter_eq, Hn.
      * rewrite bool_decide_eq_false_2 by congruence. rewrite (Hc i n); [done|].
        by rewrite Hcj, list_lookup_alter_ne.
Qed.

Record accepted_prefix (g : Genesis) (headers : list HistoricalHeader) (state : ClosedState) :
    Prop := {
  ap_policy : cs_policy state = g_policy g;
  ap_bound : (0 <= pos_slot (s_position (cs_data state)) <= MAX_SLOTS)%Z;
  ap_length : Z.of_nat (length headers) = (pos_slot (s_position (cs_data state)) + 1)%Z;
  ap_slots : forall s, (0 <= s <= pos_slot (s_position (cs_data state)))%Z ->
    slot_ok g headers (s_credits (cs_data state)) s;
  ap_tip : hh_hash <$> last headers = Some (pos_hash (s_position (cs_data state)));
  (** the cumulative gas and burn of the snapshot are the headers' *)
  ap_gas : s_gas_used (cs_data state) =
    sum_of (gas_at headers) (seqZ 0 (pos_slot (s_position (cs_data state)) + 1));
  ap_fees : s_fees_burned (cs_data state) = (10 * s_gas_used (cs_data state))%Z;
  (** and so is each validator's block count *)
  ap_produced : forall i v, (i < 2)%nat -> s_validators (cs_data state) !! i = Some v ->
    v_produced v = sum_of (produced_at (g_policy g) headers i)
      (seqZ 0 (pos_slot (s_position (cs_data state)) + 1));
  ap_initial : pos_slot (s_position (cs_data state)) = 0%Z -> state = g_initial g
}.

Lemma counts_differ_false counts vs i n v :
  counts_differ counts vs = false -> counts !! i = Some n -> vs !! i = Some v -> v_produced v = n.
Proof.
  revert vs i. induction counts as [|m counts IH]; intros [|w vs] i H Hn Hv; try done.
  simpl in H. inv_ok. destruct i as [|i]; simpl in *; [by simplify_eq|]. by eapply IH.
Qed.

Lemma prefix_sound g headers state px :
  PrefixContext_from_trusted_history g headers state = Ok px ->
  accepted_prefix g headers state /\ px = mk_prefix g headers state (prefix_id g headers).
Proof.
  unfold PrefixContext_from_trusted_history. cbv zeta. intros H. inv_ok. subst.
  match goal with H : prefix_loop _ _ _ _ _ = Ok _ |- _ =>
    apply prefix_loop_sound in H as (HF & Hg & Hf & Hc) end. simpl in Hg, Hf, Hc.
  split; [|done]. constructor; try done.
  - destruct headers as [|h0 headers]; [done|]. simpl length in *. lia.
  - intros s Hs. rewrite Forall_forall in HF. apply HF. apply elem_of_seqZ. lia.
  - lia.
  - lia.
  - intros i v Hi Hv.
    match goal with H : counts_differ _ _ = false |- _ =>
      rewrite (counts_differ_false _ _ i _ v H (Hc i 0%Z ltac:(by destruct i as [|[|i]]; [..|lia])) Hv) end.
    lia.
  - intros E. match goal with H : (_ && _)%bool = false |- _ => apply andb_false_iff in H as [H|H] end;
      by inv_ok.
Qed.

(** Header hashes that [HistoricalHeader_new] has checked. *)
Definition checked_header (h : HistoricalHeader) : Prop :=
  wf_header (hh_header h) /\ hh_hash h = BlockHeader_hash (hh_header h).

Lemma historical_new_checked header claimed h :
  wf_header header -> HistoricalHeader_new header claimed = Ok h ->
  checked_header h /\ hh_header h = header.
Proof. unfold HistoricalHeader_new. intros Hwf H. inv_ok. by subst. Qed.

Definition header_collision (a b : HistoricalHeader) : Prop :=
  collides (BLOCK_HEADER_DOMAIN ++ BlockHeader_canonical_bytes (hh_header a))
           (BLOCK_HEADER_DOMAIN ++ BlockHeader_canonical_bytes (hh_header b)).

Lemma same_hash_header a b :
  checked_header a -> checked_header b -> hh_hash a = hh_hash b -> a = b \/ header_collision a b.
Proof.
  intros [Ha Ea] [Hb Eb] E. rewrite Ea, Eb in E.
  destruct (hash_with_domain_inj _ _ _ E) as [Hc|Hc]; [left|by right].
  apply header_bytes_inj in Hc; [|done..]. destruct a, b; simpl in *. congruence.
Qed.

(** The links of an accepted prefix. *)
Lemma accepted_link g headers state i h :
  accepted_prefix g headers state -> headers !! S i = Some h ->
  slot (hh_header h) = Z.of_nat (S i) /\
  exists prev, headers !! i = Some prev /\ parent_hash (hh_header h) = hh_hash prev.
Proof.
  intros Hp Hh. pose proof (lookup_lt_Some _ _ _ Hh) as Hlt. pose proof (ap_length _ _ _ Hp).
  destruct (ap_slots _ _ _ Hp (Z.of_nat (S i)) ltac:(lia)) as (h' & Hh' & Hs & Hok).
  rewrite Nat2Z.id in Hh'. simplify_eq. split; [done|].
  destruct (Z.eqb_spec (Z.of_nat (S i)) 0); [lia|]. destruct Hok as (prev & _ & _ & Hprev & Hl & _).
  replace (Z.to_nat (Z.of_nat (S i) - 1)) with i in Hprev by lia. eauto.
Qed.

Lemma accepted_slot g headers state i h :
  accepted_prefix g headers state -> headers !! i = Some h -> slot (hh_header h) = Z.of_nat i.
Proof.
  intros Hp Hh. pose proof (lookup_lt_Some _ _ _ Hh). pose proof (ap_length _ _ _ Hp).
  destruct (ap_slots _ _ _ Hp (Z.of_nat i) ltac:(lia)) as (h' & Hh' & Hs & _).
  rewrite Nat2Z.id in Hh'. by simplify_eq.
Qed.

(** Two chains that share header [i] share all headers before it. *)
Lemma shared_ancestors g1 hs1 st1 g2 hs2 st2 i h :
  accepted_prefix g1 hs1 st1 -> accepted_prefix g2 hs2 st2 ->
  Forall checked_header hs1 -> Forall checked_header hs2 ->
  hs1 !! i = Some h -> hs2 !! i = Some h ->
  take (S i) hs1 = take (S i) hs2 \/
  exists a b, a ∈ hs1 /\ b ∈ hs2 /\ header_collision a b.
Proof.
  intros Hp1 Hp2 Hc1 Hc2. revert h. induction i as [|i IH]; intros h H1 H2.
  { left. destruct hs1, hs2; try done. simpl in *. rewrite !take_0. congruence. }
  destruct (accepted_link _ _ _ _ _ Hp1 H1) as (_ & p1 & Hp1' & L1).
  destruct (accepted_link _ _ _ _ _ Hp2 H2) as (_ & p2 & Hp2' & L2).
  assert (hh_hash p1 = hh_hash p2) as E by congruence.
  destruct (same_hash_header p1 p2 (Forall_lookup_1 _ _ _ _ Hc1 Hp1')
    (Forall_lookup_1 _ _ _ _ Hc2 Hp2') E) as [->|Hcol].
  - destruct (IH p2 Hp1' Hp2') as [Ht|?]; [left|by right].
    by rewrite (take_S_r hs1 _ h), (take_S_r hs2 _ h), Ht.
  - right. exists p1, p2. split_and!; [by eapply list_elem_of_lookup_2..|done].
Qed.

Lemma tip_binds g1 hs1 st1 g2 hs2 st2 :
  accepted_prefix g1 hs1 st1 -> accepted_prefix g2 hs2 st2 ->
  Forall checked_header hs1 -> Forall checked_header hs2 ->
  pos_hash (s_position (cs_data st1)) = pos_hash (s_position (cs_data st2)) ->
  hs1 = hs2 \/ exists a b, a ∈ hs1 /\ b ∈ hs2 /\ header_collision a b.
Proof.
  intros Hp1 Hp2 Hc1 Hc2 E. pose proof (ap_tip _ _ _ Hp1) as T1. pose proof (ap_tip _ _ _ Hp2) as T2.
  destruct (last hs1) as [a|] eqn:L1; [|done]. destruct (last hs2) as [b|] eqn:L2; [|done].
  rewrite last_lookup in L1, L2. simpl in T1, T2.
  destruct (same_hash_header a b (Forall_lookup_1 _ _ _ _ Hc1 L1)
    (Forall_lookup_1 _ _ _ _ Hc2 L2) ltac:(congruence)) as [->|Hcol].
  - pose proof (accepted_slot _ _ _ _ _ Hp1 L1). pose proof (accepted_slot _ _ _ _ _ Hp2 L2).
    pose proof (lookup_lt_Some _ _ _ L1). pose proof (lookup_lt_Some _ _ _ L2).
    assert (length hs1 = length hs2) as El by lia. rewrite <- El in L2.
    destruct (shared_ancestors _ _ _ _ _ _ _ _ Hp1 Hp2 Hc1 Hc2 L1 L2) as [Ht|?]; [left|by right].
    rewrite !take_ge in Ht by lia. done.
  - right. exists a, b. split_and!; [by eapply list_elem_of_lookup_2..|done].
Qed.

(** ** The slot view of an accepted prefix *)

Definition accepted_context (px : PrefixContext) : Prop :=
  accepted_prefix (px_genesis px) (px_headers px) (px_state px).

(** The randomness reference of slot [s] after this prefix. *)
Definition reference_of (px : PrefixContext) (s : Z) : option bytes :=
  if (s <? LOOKBACK)%Z then Some (pol_network (g_policy (px_genesis px)))
  else hh_hash <$> px_headers px !! Z.to_nat (s - LOOKBACK).

Lemma historical_hash_accepted px s :
  accepted_context px -> (0 <= s <= pos_slot (s_position (cs_data (px_state px))))%Z ->
  exists h, px_headers px !! Z.to_nat s = Some h /\ slot (hh_header h) = s /\
    historical_hash px s = Ok (hh_hash h).
Proof.
  intros Hp Hs. destruct (ap_slots _ _ _ Hp s Hs) as (h & Hh & E & _).
  exists h. split_and!; [done..|]. unfold historical_hash. rewrite Hh.
  by rewrite bool_decide_eq_true_2.
Qed.

Lemma slot_start_accepted px :
  accepted_context px ->
  let s := (pos_slot (s_position (cs_data (px_state px))) + 1)%Z in
  (pos_slot (s_position (cs_data (px_state px))) = MAX_SLOTS /\
     slot_start px = Err PoashError.ExperimentLimit) \/
  (1 <= s <= MAX_SLOTS)%Z /\ exists v, slot_start px = Ok v /\ sv_prefix v = px /\ sv_slot v = s /\
    reference_of px s = Some (sv_reference v).
Proof.
  intros Hp s. pose proof (ap_bound _ _ _ Hp) as Hb. unfold MAX_SLOTS in *.
  unfold slot_start. cbv zeta. unfold checked_add. fold s.
  rewrite (proj2 (Z.ltb_lt s U64)) by lia. rewrite ok_or_of_Some, bind_of_Ok. unfold MAX_SLOTS.
  destruct (Z.ltb_spec 200 s) as [Hlim|Hlim].
  { left. split; [lia|done]. }
  right. split; [lia|]. simpl fail_if. rewrite bind_of_Ok. unfold reference_of.
  unfold LOOKBACK. destruct (Z.ltb_spec s 32) as [Hl|Hl]; [eexists; split_and!; [reflexivity|done..]|].
  destruct (historical_hash_accepted px (s - 32) Hp ltac:(lia)) as (h & Hh & _ & ->).
  rewrite bind_of_Ok. eexists. split_and!; [reflexivity|done..|]. simpl. by rewrite Hh.
Qed.

(** ** The initial prefix *)

Lemma initial_prefix run_id :
  let g := genesis_of run_id in
  let h := mk_historical genesis_anchor (BlockHeader_hash genesis_anchor) in
  PrefixContext_initial g = Ok (mk_prefix g [h] (g_initial g) (prefix_id g [h])).
Proof.
  cbv zeta. unfold PrefixContext_initial, HistoricalHeader_new.
  change (pol_anchor (g_policy (genesis_of run_id))) with genesis_anchor.
  rewrite (neq_dec_false (BlockHeader_hash genesis_anchor)) by done.
  change (_ || _) with false. rewrite !fail_if_false, !bind_of_Ok by done.
  unfold PrefixContext_from_trusted_history. cbv zeta.
  change (pos_slot (s_position (cs_data (g_initial (genesis_of run_id))))) with 0%Z.
  change (pos_hash (s_position (cs_data (g_initial (genesis_of run_id)))))
    with (BlockHeader_hash genesis_anchor).
  change (seqZ 0 (0 + 1)) with [0%Z]. cbn [prefix_loop lookup].
  rewrite !neq_dec_false by done. rewrite !fail_if_false, !bind_of_Ok by done.
  change (_ !! Z.to_nat 0) with
    (Some (mk_historical genesis_anchor (BlockHeader_hash genesis_anchor))).
  rewrite ok_or_of_Some, bind_of_Ok. cbn [hh_header].
  rewrite (neq_dec_false (slot genesis_anchor)), (neq_dec_false genesis_anchor) by done.
  reflexivity.
Qed.
End PrefixFacts.

(** ** Properties *)

Section HistoryProperties.
  Context {KE : Keccak} {KC : K256}.

(** A trusted prefix is accepted only when it is one complete linked
    chain: the independent anchor at slot 0, one claimable header per slot,
    each naming its predecessor's hash, a registered producer that owns the
    committed ticket and the matching reward credit, ending at the
    snapshot's position, with the snapshot's gas, burn and block counts
    equal to the headers'. *)
Theorem trusted_prefix_sound g headers state px :
  PrefixContext_from_trusted_history g headers state = Ok px ->
  accepted_prefix g headers state /\ px = mk_prefix g headers state (prefix_id g headers).
Proof. apply prefix_sound. Qed.

(** The tip hash of an accepted prefix commits to its whole history: two
    accepted prefixes with checked header hashes and the same parent position
    hash hold the same headers, or two of their headers are an explicit
    collision of the header hash. *)
Theorem prefix_tip_binds g1 hs1 st1 px1 g2 hs2 st2 px2 :
  PrefixContext_from_trusted_history g1 hs1 st1 = Ok px1 ->
  PrefixContext_from_trusted_history g2 hs2 st2 = Ok px2 ->
  Forall checked_header hs1 -> Forall checked_header hs2 ->
  pos_hash (s_position (cs_data st1)) = pos_hash (s_position (cs_data st2)) ->
  hs1 = hs2 \/ exists a b, a ∈ hs1 /\ b ∈ hs2 /\ header_collision a b.
Proof.
  intros [? _]%prefix_sound [? _]%prefix_sound ? ? ?. by eapply tip_binds.
Qed.

(** The next slot of an accepted prefix can always be planned: the view
    is refused only at the end of the experiment (slot 200), and otherwise
    freezes slot parent+1 with its reference, the network id before slot 32
    and the retained hash of slot s-32 after; a missing-history error cannot
    occur. *)
Theorem slot_start_total g headers state px :
  PrefixContext_from_trusted_history g headers state = Ok px ->
  let s := (pos_slot (s_position (cs_data state)) + 1)%Z in
  (pos_slot (s_position (cs_data state)) = MAX_SLOTS /\
     slot_start px = Err PoashError.ExperimentLimit) \/
  (1 <= s <= MAX_SLOTS)%Z /\ exists v, slot_start px = Ok v /\ sv_prefix v = px /\ sv_slot v = s /\
    reference_of px s = Some (sv_reference v).
Proof.
  intros [Hp ->]%prefix_sound.
  exact (slot_start_accepted (mk_prefix g headers state (prefix_id g headers)) Hp).
Qed.
End HistoryProperties.

(** The genesis prefix of a run. *)
Definition toy_genesis : Genesis := @genesis_of toy_keccak (str "run-1").
Definition toy_anchor : HistoricalHeader :=
  @mk_historical (@genesis_anchor toy_keccak) (@BlockHeader_hash toy_keccak (@genesis_anchor toy_keccak)).

Lemma toy_prefix_ok :
  @PrefixContext_from_trusted_history toy_keccak toy_genesis [toy_anchor] (g_initial toy_genesis) =
  Ok (@mk_prefix toy_genesis [toy_anchor] (g_initial toy_genesis)
        (@prefix_id toy_keccak toy_genesis [toy_anchor])).
Proof.
  pose proof (@initial_prefix toy_keccak (str "run-1")) as H. cbv zeta in H.
  unfold PrefixContext_initial in H. apply bind_Ok in H as (h & Hh & H).
  unfold HistoricalHeader_new in Hh. inv_ok. subst h. exact H.
Qed.

Lemma trusted_prefix_sound_witness :
  @accepted_prefix toy_keccak toy_genesis [toy_anchor] (g_initial toy_genesis).
Proof.
  exact (proj1 (@trusted_prefix_sound toy_keccak _ _ _ _ toy_prefix_ok)).
Defined.

Lemma slot_start_total_witness :
  exists v, @slot_start toy_keccak (@mk_prefix toy_genesis [toy_anchor] (g_initial toy_genesis)
        (@prefix_id toy_keccak toy_genesis [toy_anchor])) = Ok v /\ sv_slot v = 1%Z /\
    sv_reference v = pol_network (g_policy toy_genesis).
Proof.
  destruct (@slot_start_total toy_keccak _ _ _ _ toy_prefix_ok) as [[H _]|(_ & v & H & _ & Hs & Hr)].
  - discriminate H.
  - exists v. split; [exact H|]. split; [exact Hs|]. injection Hr as Hr. symmetry. exact Hr.
Defined.

Lemma prefix_tip_binds_witness :
  [toy_anchor] = [toy_anchor] \/
  exists a b, a ∈ [toy_anchor] /\ b ∈ [toy_anchor] /\ @header_collision toy_keccak a b.
Proof.
  assert (Forall (@checked_header toy_keccak) [toy_anchor]) as H.
  { constructor; [|constructor]. split; [apply anchor_wf|reflexivity]. }
  exact (@prefix_tip_binds toy_keccak _ _ _ _ _ _ _ _ toy_prefix_ok toy_prefix_ok H H eq_refl).
Defined.
