(* ===== verification/PoashAdmission.v ===== *)
(** * Eligibility plans (src/src/native_poash/admission.rs)

    [SlotStartView::plan] and [AdmissionPlan::check]: an attributed header is
    planned for a slot view only when it extends that view and was produced
    by the selected ticket.

    The theorems characterise a plan and show that a checked plan cannot be
    moved to another view: equal view ids mean the same slot, network, linked
    headers and snapshot, or an explicit hash collision. *)

From S2P Require Import Prelude Codec Crypto BlockCommitment NativeTransaction LeaderSelection.
From S2P Require Import PoashBase PoashState PoashSelection PoashGenesis PoashClaim.
From S2P Require Import PoashHistory.

Record AdmissionPlan : Type := mk_plan {
  ap_view : SlotStartView;
  ap_proof : AuthenticatedHeader;
  ap_selection : Selection
}.

Section Plans.
  Context `{KE : Keccak} `{KC : K256}.

Definition plan (view : SlotStartView) (proof : AuthenticatedHeader) :
    result poash_error AdmissionPlan :=
  fail_if (ah_network proof !=? pol_network (g_policy (view_genesis view)))
    (PoashError.Context "proof genesis");;
  let h := hc_header (ah_claim proof) in
  fail_if ((slot h !=? sv_slot view) || (parent_hash h !=? pos_hash (view_parent view)))
    (PoashError.Context "planned slot/parent");;
  selection ← view_select view;
  fail_if ((hc_producer (ah_claim proof) !=? sel_owner selection) ||
           (ticket_id h !=? sel_ticket selection)) PoashError.NotSelected;;
  Ok (mk_plan view proof selection).

Definition AdmissionPlan_check (p : AdmissionPlan) (view : SlotStartView)
    (proof : AuthenticatedHeader) : result poash_error () :=
  fail_if ((sv_id (ap_view p) !=? sv_id view) || (ap_proof p !=? proof))
    PoashError.PlanMismatch.

(** ** Specifications *)

Record planned (view : SlotStartView) (proof : AuthenticatedHeader) (s : Selection) : Prop := {
  pl_network : ah_network proof = pol_network (g_policy (view_genesis view));
  pl_extends : slot (hc_header (ah_claim proof)) = sv_slot view /\
    parent_hash (hc_header (ah_claim proof)) = pos_hash (view_parent view);
  pl_selected : view_select view = Ok s;
  pl_producer : hc_producer (ah_claim proof) = sel_owner s /\
    ticket_id (hc_header (ah_claim proof)) = sel_ticket s
}.

Lemma plan_spec view proof p :
  plan view proof = Ok p <->
  exists s, planned view proof s /\ p = mk_plan view proof s.
Proof.
  unfold plan. cbv zeta. split.
  - intros H. inv_ok. eexists. split; [|done]. by constructor.
  - intros (s & [Hn [Hs Hp] Hsel [Ho Ht]] & ->).
    rewrite !neq_dec_false by done. simpl fail_if. rewrite !bind_of_Ok, Hsel, bind_of_Ok.
    by rewrite !neq_dec_false.
Qed.

(** ** What a view id determines *)

(** A context as the trusted loaders build it. *)
Record sound_context (px : PrefixContext) : Prop := {
  sc_accepted : exists input, wf_rows input /\
    ClosedState_checked (g_policy (px_genesis px)) input = Ok (px_state px) /\
    PrefixContext_from_trusted_history (px_genesis px) (px_headers px) (px_state px) = Ok px;
  sc_headers : Forall checked_header (px_headers px);
  sc_network : length (pol_network (g_policy (px_genesis px))) = 32%nat;
  sc_configs : Forall (fun c => (Z.of_nat (length (cfg_id c)) < U16)%Z)
    (pol_configs (g_policy (px_genesis px)))
}.

Definition prefix_preimage (px : PrefixContext) : bytes :=
  (str "ETERNIX_POASH_C1_PREFIX" ++ [x00]) ++ pol_network (g_policy (px_genesis px)) ++
  be_bytes 2 (Z.of_nat (length (px_headers px))) ++
  concat (map (fun h => BlockHeader_canonical_bytes (hh_header h)) (px_headers px)).

Definition snapshot_preimage (px : PrefixContext) : bytes :=
  (str "ETERNIX_POASH_C1_SNAPSHOT" ++ [x00]) ++ pol_network (g_policy (px_genesis px)) ++
  cs_bytes (px_state px).

Definition view_preimage (v : SlotStartView) : bytes :=
  let px := sv_prefix v in
  (str "ETERNIX_POASH_C1_SLOT_START" ++ [x00]) ++ pol_network (g_policy (px_genesis px)) ++
  px_id px ++ cs_id (px_state px) ++ be_bytes 8 (sv_slot v) ++ pos_hash (view_parent v) ++
  sv_reference v.

Lemma slot_start_id px v :
  slot_start px = Ok v -> sv_prefix v = px /\ sv_id v = keccak256 (view_preimage v) /\
  sv_slot v = (pos_slot (s_position (cs_data (px_state px))) + 1)%Z.
Proof. unfold slot_start. cbv zeta. intros H. inv_ok. by subst. Qed.

Lemma prefix_id_binds px1 px2 :
  sound_context px1 -> sound_context px2 -> px_id px1 = px_id px2 ->
  px_headers px1 = px_headers px2 \/ collides (prefix_preimage px1) (prefix_preimage px2).
Proof.
  intros [(i1 & _ & _ & H1) C1 N1 _] [(i2 & _ & _ & H2) C2 N2 _] E.
  apply prefix_sound in H1 as [_ E1]. apply prefix_sound in H2 as [_ E2].
  assert (px_id px1 = prefix_id (px_genesis px1) (px_headers px1)) as X1 by (by rewrite E1 at 1).
  assert (px_id px2 = prefix_id (px_genesis px2) (px_headers px2)) as X2 by (by rewrite E2 at 1).
  rewrite X1, X2 in E. apply hash_with_domain_inj in E as [E|]; [left|by right].
  apply app_inj_1 in E as [_ E]; [|congruence].
  apply app_inj_1 in E as [_ E]; [|by rewrite !length_be_bytes].
  clear - C1 C2 E. revert C1 C2 E. generalize (px_headers px1), (px_headers px2).
  induction l as [|a l IH]; intros [|b k] Ha Hb E; [done|..];
    repeat match goal with H : Forall _ (_ :: _) |- _ => apply Forall_cons in H as [[? ?] ?] end;
    cbn [map concat] in E.
  - apply (f_equal length) in E. rewrite length_app, length_header_bytes in E by done. done.
  - apply (f_equal length) in E. rewrite length_app, length_header_bytes in E by done. done.
  - apply app_inj_1 in E as [Ea E]; [|by rewrite !length_header_bytes].
    apply header_bytes_inj in Ea; [|done..]. f_equal; [|by apply IH].
    destruct a, b; simpl in *. congruence.
Qed.

Lemma state_id_binds px1 px2 :
  sound_context px1 -> sound_context px2 -> cs_id (px_state px1) = cs_id (px_state px2) ->
  cs_data (px_state px1) = cs_data (px_state px2) \/
  collides (snapshot_preimage px1) (snapshot_preimage px2).
Proof.
  intros [(i1 & W1 & S1 & _) _ N1 G1] [(i2 & W2 & S2 & _) _ N2 G2] E.
  unfold snapshot_preimage.
  apply checked_iff in S1 as [V1 E1]; [|done]. apply checked_iff in S2 as [V2 E2]; [|done].
  rewrite E1, E2 in *. simpl in E. apply hash_with_domain_inj in E as [E|]; [left|by right].
  apply app_inj_1 in E as [_ E]; [|congruence]. apply encode_inj in E; [done|..].
  - by apply (valid_encodable _ _ G1); [apply wf_rows_sorted in W1|].
  - by apply (valid_encodable _ _ G2); [apply wf_rows_sorted in W2|].
Qed.
End Plans.

(** ** Properties *)

Section PlanProperties.
  Context {KE : Keccak} {KC : K256}.

(** A header is planned exactly when it was attributed under the view's
    network, names the planned slot and the exact parent, and its producer
    and ticket are the ones the view selects; attribution alone is not
    enough, and the plan records exactly view, proof and selection. *)
Theorem plan_iff view proof p :
  plan view proof = Ok p <->
  exists s, planned view proof s /\ p = mk_plan view proof s.
Proof. apply plan_spec. Qed.

(** A plan cannot be reused elsewhere: if a plan made for one view
    checks against another, the evidence is the same and so are slot,
    network, all linked headers and the complete snapshot, unless the two
    view, prefix or snapshot preimages collide. *)
Theorem plan_not_transferable px1 px2 v1 v2 proof1 proof2 p :
  sound_context px1 -> sound_context px2 ->
  slot_start px1 = Ok v1 -> slot_start px2 = Ok v2 ->
  plan v1 proof1 = Ok p -> AdmissionPlan_check p v2 proof2 = Ok () ->
  proof2 = proof1 /\
  ((sv_slot v1 = sv_slot v2 /\
    pol_network (g_policy (px_genesis px1)) = pol_network (g_policy (px_genesis px2)) /\
    px_headers px1 = px_headers px2 /\ cs_data (px_state px1) = cs_data (px_state px2)) \/
   collides (view_preimage v1) (view_preimage v2) \/
   collides (prefix_preimage px1) (prefix_preimage px2) \/
   collides (snapshot_preimage px1) (snapshot_preimage px2)).
Proof.
  intros S1 S2 H1 H2 (s & _ & ->)%plan_spec Hc. unfold AdmissionPlan_check in Hc. inv_ok. simpl in *.
  split; [done|].
  apply slot_start_id in H1 as (P1 & I1 & L1). apply slot_start_id in H2 as (P2 & I2 & L2).
  destruct (decide (view_preimage v1 = view_preimage v2)) as [E|Hne].
  2:{ right. left. split; [done|congruence]. }
  unfold view_preimage in E. rewrite P1, P2 in E. apply app_inv_head in E.
  apply app_inj_1 in E as [En E]; [|by rewrite (sc_network _ S1), (sc_network _ S2)].
  assert (forall px, sound_context px -> length (px_id px) = 32%nat /\
    length (cs_id (px_state px)) = 32%nat) as Hlen.
  { intros px [(i & W & C & HP) _ _ _]. apply prefix_sound in HP as [_ HE]. rewrite HE.
    apply checked_iff in C as [_ ->]; [|done]. split; apply keccak256_length. }
  destruct (Hlen px1 S1), (Hlen px2 S2).
  apply app_inj_1 in E as [Ep E]; [|congruence]. apply app_inj_1 in E as [Es _]; [|congruence].
  destruct (prefix_id_binds px1 px2 S1 S2 Ep) as [Eh|]; [|tauto].
  destruct (state_id_binds px1 px2 S1 S2 Es) as [Ed|]; [|tauto].
  left. split_and!; [|done..]. rewrite L1, L2. by rewrite Ed.
Qed.
End PlanProperties.

(** ** An example plan: slot 1 after the genesis of run "run-1" *)

Definition toy_prefix : PrefixContext :=
  @mk_prefix toy_genesis [toy_anchor] (g_initial toy_genesis)
    (@prefix_id toy_keccak toy_genesis [toy_anchor]).
Definition toy_view : SlotStartView :=
  match @slot_start toy_keccak toy_prefix with Ok v => v | Err _ => mk_view toy_prefix 0 [] [] end.
Lemma toy_view_ok : @slot_start toy_keccak toy_prefix = Ok toy_view.
Proof.
  unfold toy_view. destruct (prefix_sound _ _ _ _ toy_prefix_ok) as [Hp _].
  destruct (slot_start_accepted toy_prefix Hp) as [[H _]|(_ & v & -> & _)]; [discriminate H|done].
Qed.

Definition selected_is (r : result poash_error Selection) (owner : bytes) (ticket : Z) : bool :=
  match r with
  | Ok s => (sel_owner s ==? owner) && (sel_ticket s ==? ticket)
  | Err _ => false
  end.

Lemma selected_is_true r owner ticket :
  selected_is r owner ticket = true ->
  exists s, r = Ok s /\ sel_owner s = owner /\ sel_ticket s = ticket.
Proof. destruct r as [s|]; [|done]. simpl. intros H. inv_ok. eauto. Qed.

Lemma toy_selected : selected_is (@view_select toy_keccak toy_view) (str "trial-A") 1 = true.
Proof. vm_compute. reflexivity. Qed.

Lemma toy_selection_ok : exists s, @view_select toy_keccak toy_view = Ok s /\
  sel_owner s = str "trial-A" /\ sel_ticket s = 1%Z.
Proof. exact (selected_is_true _ _ _ toy_selected). Qed.

(** The empty header the selected producer would sign. *)
Definition toy_slot_header : BlockHeader :=
  mk_header HEADER_PROFILE CHAIN_ID 1 Validator (hh_hash toy_anchor)
    (@proposer_id toy_keccak (str "trial-A")) 1 (@EMPTY_TX_ROOT toy_keccak) (zeros 32)
    (@EMPTY_RECEIPTS_ROOT toy_keccak) 0
    (@ProtocolData_root toy_keccak (mk_protocol_data None 0)).
Definition toy_proof : AuthenticatedHeader :=
  mk_auth_header (mk_claim toy_slot_header (str "trial-A") 0) (pol_network (g_policy toy_genesis))
    (mk_native_signature []) [] KEY_A.

Lemma toy_planned : exists p, @plan toy_keccak toy_view toy_proof = Ok p /\
  @AdmissionPlan_check p toy_view toy_proof = Ok ().
Proof.
  destruct toy_selection_ok as (s & Hs & Ho & Ht). exists (mk_plan toy_view toy_proof s).
  destruct (slot_start_id _ _ toy_view_ok) as (Hp & _ & Hslot). split.
  - apply plan_spec. exists s. split; [|done].
    constructor; unfold view_genesis, view_parent, view_state; rewrite ?Hp, ?Hslot.
    + reflexivity.
    + split; reflexivity.
    + exact Hs.
    + rewrite Ho, Ht. split; reflexivity.
  - unfold AdmissionPlan_check. cbn [ap_view ap_proof].
    rewrite (neq_dec_false (sv_id toy_view)), (neq_dec_false toy_proof) by reflexivity. reflexivity.
Qed.

Lemma toy_context_sound : @sound_context toy_keccak toy_prefix.
Proof.
  constructor.
  - exists (approved_data (KE := toy_keccak)). split_and!; [apply approved_wf| |].
    + apply (@approved_checked toy_keccak (str "run-1")).
    + apply toy_prefix_ok.
  - constructor; [|constructor]. split; [apply anchor_wf|done].
  - apply keccak256_length.
  - repeat constructor.
Qed.

Lemma plan_not_transferable_witness :
  toy_proof = toy_proof /\
  ((sv_slot toy_view = sv_slot toy_view /\
    pol_network (g_policy (px_genesis toy_prefix)) = pol_network (g_policy (px_genesis toy_prefix)) /\
    px_headers toy_prefix = px_headers toy_prefix /\
    cs_data (px_state toy_prefix) = cs_data (px_state toy_prefix)) \/
   @collides toy_keccak (view_preimage toy_view) (view_preimage toy_view) \/
   @collides toy_keccak (prefix_preimage toy_prefix) (prefix_preimage toy_prefix) \/
   @collides toy_keccak (snapshot_preimage toy_prefix) (snapshot_preimage toy_prefix)).
Proof.
  destruct toy_planned as (p & Hp & Hc).
  exact (@plan_not_transferable toy_keccak toy_prefix toy_prefix toy_view toy_view toy_proof toy_proof p
    toy_context_sound toy_context_sound toy_view_ok toy_view_ok Hp Hc).
Defined.
