(* ===== verification/PoashApplication.v ===== *)
(** * C1 blocks, envelopes and the compound transition (src/src/native_poash/application.rs)

    The wire-4 block and envelope objects, the supported-state guard, native
    staging against a slot view and [compound], which turns a staged body and
    a block into the next closed state.

    The theorems show that both codecs are bijections onto the structurally
    valid objects, that a built block reproduces the staged outcome, and what
    the compound transition does to every component of the state: it accepts
    only the selected producer's block on the exact parent, credits exactly
    one reward, and its result is again a valid snapshot. *)

From S2P Require Import Prelude Codec Crypto BlockCommitment NativeTransaction NativeTransfer.
From S2P Require Import NativeBlock BlockAuthentication LeaderSelection PoashBase PoashState.
From S2P Require Import PoashSelection PoashGenesis PoashClaim PoashHistory PoashAdmission.

Definition C1_MAX_BLOCK_BYTES : Z := 288 + 7 + 203 * MAX_ENTRIES.
Definition C1_MAX_ENVELOPE_BYTES : Z := C1_MAX_BLOCK_BYTES + 107.

Module StoreError.
Inductive store_error : Type :=
| AlreadyExists
| Missing
| Uninitialized
| Invalid (what : string)
| Stale
| Blocked
| Body (what : string)
| Aborted (what : string)
| RecoveryRequired (what : string).
End StoreError.
Abbreviation store_error := StoreError.store_error.

#[export] Instance store_error_eq_dec : EqDecision store_error.
Proof. solve_decision. Defined.

Module AppError.
Inductive app_error : Type :=
| Protocol (e : poash_error)
| Codec (what : string)
| Body (e : BodyError)
| Storage (e : store_error)
| Blocked
| Stale
| AlreadyCommitted (position : Position) (retained_envelope_id submitted_envelope_id : bytes)
| ConflictHalt
| PreparedIdentity
| DuplicateTransaction (index : nat)
| Invalid (what : string).
End AppError.
Abbreviation app_error := AppError.app_error.

#[export] Instance app_error_eq_dec : EqDecision app_error.
Proof. solve_decision. Defined.

(** The [From] conversion the [?] operator applies. *)
Definition protocol {A} (r : result poash_error A) : result app_error A :=
  map_err AppError.Protocol r.

Record C1Block : Type := mk_c1_block {
  cb_claim : HeaderClaim;
  cb_protocol : ProtocolData;
  cb_transactions : list bytes
}.

#[export] Instance C1Block_eq_dec : EqDecision C1Block.
Proof. solve_decision. Defined.

Record C1Envelope : Type := mk_c1_envelope {
  ce_block : C1Block;
  ce_network : bytes;
  ce_signature : bytes
}.

#[export] Instance C1Envelope_eq_dec : EqDecision C1Envelope.
Proof. solve_decision. Defined.

Record AuthenticatedEnvelope : Type := mk_auth_envelope {
  ae_envelope : C1Envelope;
  ae_header : AuthenticatedHeader
}.

#[export] Instance AuthenticatedEnvelope_eq_dec : EqDecision AuthenticatedEnvelope.
Proof. solve_decision. Defined.

(** The decoder's errors under the [From] conversion. *)
Definition a_take (n : Z) : parser app_error bytes :=
  p_take (AppError.Protocol PoashError.Overflow)
    (AppError.Protocol (PoashError.Encoding "truncation")) n.
Definition a_field (n : nat) : parser app_error bytes :=
  p_field (AppError.Protocol PoashError.Overflow)
    (AppError.Protocol (PoashError.Encoding "truncation")) n.
Definition a_uint (n : nat) : parser app_error Z :=
  p_uint (AppError.Protocol PoashError.Overflow)
    (AppError.Protocol (PoashError.Encoding "truncation")) n.

Section Application.
  Context `{KE : Keccak} `{KC : K256}.

(** ** Blocks *)

Definition body_ids (transactions : list bytes) : list bytes :=
  map (hash_with_domain ID_DOMAIN) transactions.

Definition C1Block_from_parts (header : BlockHeader) (producer : bytes) (pd : ProtocolData)
    (transactions : list bytes) : result app_error C1Block :=
  fail_if (MAX_ENTRIES <? Z.of_nat (length transactions))%Z (AppError.Codec "body bound");;
  claim ← protocol (HeaderClaim_new header producer (Z.of_nat (length transactions)));
  let ids := body_ids transactions in
  fail_if ((if missed_proposer pd is Some _ then true else false) ||
           (ProtocolData_root pd !=? protocol_data_root (hc_header claim)) ||
           (Some (transaction_root (hc_header claim)) !=? ordered_transaction_root ids))
    (AppError.Codec "protocol/body commitment");;
  Ok (mk_c1_block claim pd transactions).

Definition C1Block_build (view : SlotStartView) (selection : Selection) (transactions : list bytes)
    (outcome : BodyOutcome) : result app_error C1Block :=
  let pd := mk_protocol_data None (outcome_fees_burned outcome) in
  root ← ok_or (ordered_transaction_root (transaction_ids outcome))
           (AppError.Protocol PoashError.Overflow);
  C1Block_from_parts
    (mk_header HEADER_PROFILE CHAIN_ID (sv_slot view) Validator (pos_hash (view_parent view))
       (proposer_id (sel_owner selection)) (sel_ticket selection) root (zeros 32)
       EMPTY_RECEIPTS_ROOT (outcome_gas_used outcome) (ProtocolData_root pd))
    (sel_owner selection) pd transactions.

Definition C1Block_hash (b : C1Block) : bytes := HeaderClaim_hash (cb_claim b).

Definition C1Block_wire_bytes (b : C1Block) : bytes :=
  be_bytes 1 INNER_WIRE ++ C1Block_hash b ++ BlockHeader_canonical_bytes (hc_header (cb_claim b)) ++
  be_bytes 4 (Z.of_nat (length (hc_producer (cb_claim b)))) ++ hc_producer (cb_claim b) ++
  be_bytes 4 10 ++ ProtocolData_canonical_bytes (cb_protocol b) ++
  be_bytes 8 (Z.of_nat (length (cb_transactions b))) ++
  concat (map entry_bytes (cb_transactions b)).

(** One entry of the body loop. *)
Definition c1_entry (_ : nat) : parser app_error bytes :=
  len ← a_uint 4;
  p_lift (fail_if (len !=? Z.of_nat SIGNED_LEN) (AppError.Codec "entry length"));;
  a_field SIGNED_LEN.

(** The declared body must be exactly the remaining bytes. *)
Definition exact_body (count remaining : Z) : result app_error () :=
  fail_if ((MAX_ENTRIES <? count) || negb (remaining =? count * 203))%Z
    (AppError.Codec "exact body size").

Definition c1_block_fields :
    parser app_error (bytes * BlockHeader * bytes * ProtocolData * list bytes) :=
  wire ← a_uint 1;
  p_lift (fail_if (wire !=? INNER_WIRE) (AppError.Codec "inner wire"));;
  claimed ← a_field 32;
  header_bytes ← a_take 229;
  header ← p_lift (ok_or (BlockHeader_from_canonical_bytes header_bytes) (AppError.Codec "header"));
  n ← a_uint 4;
  p_lift (fail_if (n !=? 7)%Z (AppError.Codec "closed producer length"));;
  producer ← a_take 7;
  p_lift (fail_if (negb (utf8_valid producer)) (AppError.Codec "producer ASCII"));;
  n ← a_uint 4;
  p_lift (fail_if (n !=? 10)%Z (AppError.Codec "protocol length"));;
  data ← a_take 10;
  pd ← p_lift (ok_or (ProtocolData_from_canonical_bytes data) (AppError.Codec "protocol"));
  count ← a_uint 8;
  p_guard (exact_body count);;
  transactions ← p_repeat (Z.to_nat count) 0 c1_entry;
  mret (claimed, header, producer, pd, transactions).

Definition C1Block_from_wire_bytes (bs : bytes) : result app_error C1Block :=
  fail_if (C1_MAX_BLOCK_BYTES <? Z.of_nat (length bs))%Z (AppError.Codec "block size");;
  '((claimed, header, producer, pd, transactions), _) ← c1_block_fields (decoder bs);
  block ← C1Block_from_parts header producer pd transactions;
  fail_if (C1Block_hash block !=? claimed) (AppError.Codec "claimed H");;
  Ok block.

Definition C1Block_match_outcome (b : C1Block) (outcome : BodyOutcome) : result app_error () :=
  fail_if ((body_ids (cb_transactions b) !=? transaction_ids outcome) ||
           (outcome_gas_used outcome !=? gas_used (hc_header (cb_claim b))) ||
           (outcome_fees_burned outcome !=? fees_burned (cb_protocol b)))
    (AppError.Codec "native outcome").

(** ** Envelopes *)

Definition C1Envelope_from_parts (block : C1Block) (network signature : bytes) : C1Envelope :=
  mk_c1_envelope block network signature.

(** [if a? != A || b? != B || c? != C]: a mismatch stops the reading. *)
Definition outer_profile : parser app_error () :=
  wire ← a_uint 1;
  p_lift (fail_if (wire !=? OUTER_WIRE) (AppError.Codec "outer/auth profile"));;
  enc ← a_uint 1;
  p_lift (fail_if (enc !=? AUTH_ENCODING) (AppError.Codec "outer/auth profile"));;
  rules ← a_uint 4;
  p_lift (fail_if (rules !=? AUTH_RULES) (AppError.Codec "outer/auth profile")).

Definition exact_envelope (len total : Z) : result app_error () :=
  fail_if (negb ((295 <=? len) && (len <=? C1_MAX_BLOCK_BYTES)) ||
           (checked_add U64 len 107 !=? Some total))%Z (AppError.Codec "exact envelope length").

Definition c1_envelope_fields (total : Z) : parser app_error C1Envelope :=
  outer_profile;;
  network ← a_field 32;
  len ← a_uint 4;
  p_lift (exact_envelope len total);;
  inner ← a_take len;
  block ← p_lift (C1Block_from_wire_bytes inner);
  signature ← a_field 65;
  mret (mk_c1_envelope block network signature).

Definition C1Envelope_from_wire_bytes (bs : bytes) : result app_error C1Envelope :=
  fail_if (C1_MAX_ENVELOPE_BYTES <? Z.of_nat (length bs))%Z (AppError.Codec "envelope size");;
  fst <$> c1_envelope_fields (Z.of_nat (length bs)) (decoder bs).

Definition C1Envelope_wire_bytes (e : C1Envelope) : bytes :=
  let inner := C1Block_wire_bytes (ce_block e) in
  be_bytes 1 OUTER_WIRE ++ be_bytes 1 AUTH_ENCODING ++ be_bytes 4 AUTH_RULES ++ ce_network e ++
  be_bytes 4 (Z.of_nat (length inner)) ++ inner ++ ce_signature e.

Definition C1Envelope_id (e : C1Envelope) : bytes :=
  hash_with_domain ENVELOPE_ID_DOMAIN (C1Envelope_wire_bytes e).

Definition C1Envelope_authenticate (e : C1Envelope) (g : Genesis) :
    result app_error AuthenticatedEnvelope :=
  header ← protocol (HeaderClaim_authenticate (cb_claim (ce_block e)) g (ce_network e) (ce_signature e));
  Ok (mk_auth_envelope e header).

(** ** The compound transition *)

(** [AuthenticationContext::new(CHAIN_ID, network, 1).expect(..)] *)
Definition native_context (g : Genesis) : AuthenticationContext :=
  mk_context CHAIN_ID (pol_network (g_policy g)) 1.

(** [collect::<BTreeMap<_, _>>()]: a later row replaces an earlier one. *)
Definition collect_accounts (l : list C1Account) : gmap bytes TransferAccount :=
  foldl (fun m a => <[acc_address a := mk_account (acc_balance a) (acc_nonce a)]> m) ∅ l.

Definition native_state (s : ClosedState) : TransferState :=
  mk_transfer_state (collect_accounts (s_accounts (cs_data s))) (s_gas_used (cs_data s))
    (s_fees_burned (cs_data s)).

Definition supported_validator (v : C1Validator) : bool :=
  (v_status v ==? ValidatorStatus.Active) && (v_misses v ==? 0)%Z && (v_offenses v ==? 0)%Z &&
  (if v_cooldown_until v is Some _ then false else true).
Definition supported_ticket (t : C1Ticket) : bool :=
  (t_status t ==? TicketStatus.Active) && (if t_retire_start t is Some _ then false else true) &&
  (if t_retire_effective t is Some _ then false else true).

Definition supported (s : ClosedState) : result app_error () :=
  fail_if (existsb (fun v => negb (supported_validator v)) (s_validators (cs_data s)) ||
           existsb (fun t => negb (supported_ticket t)) (s_tickets (cs_data s)))
    (AppError.Invalid "unsupported C1 pre-state transition").

Definition stage_native (view : SlotStartView) (body : list bytes) :
    result app_error (TransferState * AppliedBody) :=
  supported (view_state view);;
  fail_if (MAX_ENTRIES <? Z.of_nat (length body))%Z (AppError.Codec "body bound");;
  staged ← map_err AppError.Body (stage_body (native_state (view_state view))
             (native_context (view_genesis view)) (sv_slot view) body);
  Ok (staged_candidate staged, staged_record staged).

(** [native.accounts().iter()] in the map's key order. *)
Definition account_rows (m : gmap bytes TransferAccount) : list C1Account :=
  map (fun p => mk_c1_account p.1 (balance_quarks p.2) (account_nonce p.2))
    (sort_by (fun a b => bytes_leb a.1 b.1) (map_to_list m)).

(** [iter_mut().find(..)] and the three checked additions to that row. *)
Fixpoint credit_producer (reward : Z) (producer : bytes) (vs : list C1Validator) :
    result app_error (list C1Validator) :=
  match vs with
  | [] => Err (AppError.Invalid "selected registry")
  | v :: rest =>
      if v_id v ==? producer then
        vault ← ok_or (checked_add U128 (v_vault v) reward) (AppError.Protocol PoashError.Overflow);
        locked ← ok_or (checked_add U128 (v_locked v) reward) (AppError.Protocol PoashError.Overflow);
        produced ← ok_or (checked_add U64 (v_produced v) 1) (AppError.Protocol PoashError.Overflow);
        Ok (mk_c1_validator (v_id v) (v_status v) vault locked (v_misses v) (v_offenses v) produced
              (v_cooldown_until v) :: rest)
      else cons v <$> credit_producer reward producer rest
  end.

Definition from_trusted_snapshot (g : Genesis) (d : SnapshotInput) : result poash_error ClosedState :=
  ClosedState_checked (g_policy g) d.

Definition compound (view : SlotStartView) (block : C1Block) (native : TransferState)
    (outcome : BodyOutcome) : result app_error ClosedState :=
  supported (view_state view);;
  selection ← protocol (view_select view);
  let h := hc_header (cb_claim block) in
  fail_if ((slot h !=? sv_slot view) || (parent_hash h !=? pos_hash (view_parent view)))
    (AppError.Protocol (PoashError.Context "compound parent/slot"));;
  fail_if ((hc_producer (cb_claim block) !=? sel_owner selection) ||
           (ticket_id h !=? sel_ticket selection)) (AppError.Protocol PoashError.NotSelected);;
  C1Block_match_outcome block outcome;;
  let data := cs_data (view_state view) in
  let reward := yz_reward YearZero_approved in
  validators ← credit_producer reward (sel_owner selection) (s_validators data);
  issuance ← ok_or (checked_add U128 (s_base_issuance data) reward)
               (AppError.Protocol PoashError.Overflow);
  protocol (from_trusted_snapshot (view_genesis view)
    (mk_snapshot (mk_position (sv_slot view) (C1Block_hash block)) (account_rows (accounts native))
       validators (s_tickets data)
       (s_credits data ++ [mk_credit (sv_slot view) (sel_owner selection) reward])
       (gas_used_total native) (fees_burned_total native) issuance)).
End Application.

(** ** Structurally valid blocks and their codec *)

Section BlockCodec.
  Context {KE : Keccak} {KC : K256}.

(** The commitments [C1Block_from_parts] establishes. *)
Record c1_valid (b : C1Block) : Prop := {
  cv_bound : (Z.of_nat (length (cb_transactions b)) <= MAX_ENTRIES)%Z;
  cv_count : hc_count (cb_claim b) = Z.of_nat (length (cb_transactions b));
  cv_claim : claimable (hc_header (cb_claim b)) (hc_producer (cb_claim b))
    (Z.of_nat (length (cb_transactions b)));
  cv_missed : missed_proposer (cb_protocol b) = None;
  cv_protocol : ProtocolData_root (cb_protocol b) = protocol_data_root (hc_header (cb_claim b));
  cv_root : ordered_transaction_root (body_ids (cb_transactions b)) =
    Some (transaction_root (hc_header (cb_claim b)))
}.

Lemma c1_from_parts_iff header producer pd txs b :
  C1Block_from_parts header producer pd txs = Ok b <->
  c1_valid b /\ b = mk_c1_block (mk_claim header producer (Z.of_nat (length txs))) pd txs.
Proof.
  unfold C1Block_from_parts, protocol. cbv zeta. split.
  - intros H. inv_ok.
    match goal with H : HeaderClaim_new _ _ _ = Ok _ |- _ =>
      apply claim_new_iff in H as [Hc ->] end.
    subst b. simpl in *. split; [|done]. constructor; simpl; try done; by destruct (missed_proposer pd).
  - intros [[Hb _ Hc Hm Hp Hr] ->]; simpl in *.
    rewrite (proj2 (Z.ltb_ge _ _)) by done. simpl fail_if. rewrite bind_of_Ok.
    rewrite (proj2 (claim_new_iff _ _ _ _) (conj Hc eq_refl)). simpl map_err. rewrite bind_of_Ok.
    cbn [hc_header]. rewrite Hm, Hr, !neq_dec_false by done. done.
Qed.

(** The widths of the struct's fields. *)
Record wf_c1_block (b : C1Block) : Prop := {
  wb_header : wf_header (hc_header (cb_claim b));
  wb_fees : in_width U64 (fees_burned (cb_protocol b));
  wb_entries : Forall (fun tx => length tx = SIGNED_LEN) (cb_transactions b);
  wb_valid : c1_valid b
}.

Lemma length_c1_producer b : c1_valid b -> length (hc_producer (cb_claim b)) = 7%nat.
Proof. intros [_ _ [_ _ [[-> | ->] _] _ _ _] _ _ _]; done. Qed.

Lemma length_c1_wire b :
  wf_c1_block b ->
  Z.of_nat (length (C1Block_wire_bytes b)) = (295 + 203 * Z.of_nat (length (cb_transactions b)))%Z.
Proof.
  intros [Hh _ Htx Hv]. unfold C1Block_wire_bytes.
  rewrite (protocol_data_none _ (cv_missed _ Hv)).
  rewrite !length_app, !length_be_bytes, length_header_bytes, length_protocol_data_none by done.
  rewrite (length_c1_producer _ Hv). unfold C1Block_hash, HeaderClaim_hash. rewrite header_hash_length.
  pose proof (length_entries _ Htx). lia.
Qed.

Lemma c1_entry_parses i tx : length tx = SIGNED_LEN -> parses (c1_entry i) (entry_bytes tx) tx.
Proof.
  intros Hl. unfold c1_entry, entry_bytes, a_uint, a_field.
  eapply parses_bind; [by apply parses_u32|]. parse_step; [done|]. by apply parses_field.
Qed.

Lemma c1_entry_consumes i d tx d' :
  c1_entry i d = Ok (tx, d') -> length tx = SIGNED_LEN /\ consumes d (entry_bytes tx) d'.
Proof.
  unfold c1_entry, a_uint, a_field. intros H. inv_parse. inv_ok. subst.
  split; [done|]. unfold entry_bytes. glue.
Qed.

Lemma c1_fields_parse b :
  wf_c1_block b ->
  parses_end c1_block_fields (C1Block_wire_bytes b)
    (C1Block_hash b, hc_header (cb_claim b), hc_producer (cb_claim b), cb_protocol b,
     cb_transactions b).
Proof.
  intros [Hh Hf Htx Hv]. pose proof (length_c1_producer _ Hv) as Hp.
  pose proof (cv_missed _ Hv) as Hm. pose proof (cv_bound _ Hv) as Hn. unfold MAX_ENTRIES in Hn.
  assert (wf_protocol_data (cb_protocol b)) as Hpd by (split; [done|]; by rewrite Hm).
  assert (length (ProtocolData_canonical_bytes (cb_protocol b)) = 10%nat) as Hl10
    by (rewrite (protocol_data_none _ Hm); apply length_protocol_data_none).
  pose proof (length_header_bytes _ Hh) as Hlh.
  assert (in_width U64 (Z.of_nat (length (cb_transactions b)))) by (unfold in_width; lia).
  assert (utf8_valid (hc_producer (cb_claim b)) = true) as Hu.
  { destruct (cl_producer _ _ _ (cv_claim _ Hv)) as [[-> | ->] _]; vm_compute; reflexivity. }
  unfold c1_block_fields, C1Block_wire_bytes, a_uint, a_field, a_take. rewrite Hp.
  eapply parses_end_bind; [by apply parses_u8|]. eapply parses_end_bind_lift; [done|lazy beta iota].
  eapply parses_end_bind; [apply parses_field, header_hash_length|].
  eapply parses_end_bind; [apply parses_take; by rewrite Hlh|].
  eapply parses_end_bind_lift; [by apply ok_or_Ok, header_codec_iff|].
  eapply parses_end_bind; [by apply parses_u32|]. eapply parses_end_bind_lift; [done|].
  eapply parses_end_bind; [apply parses_take; by rewrite Hp|].
  eapply parses_end_bind_lift; [apply fail_if_false; by rewrite Hu|].
  eapply parses_end_bind; [by apply parses_u32|]. eapply parses_end_bind_lift; [done|].
  eapply parses_end_bind; [apply parses_take; by rewrite Hl10|].
  eapply parses_end_bind_lift;
    [apply ok_or_Ok, protocol_data_codec_iff; [rewrite Hl10; done|done]|].
  eapply parses_end_bind; [by apply parses_u64|].
  apply parses_end_guard.
  { unfold exact_body, MAX_ENTRIES. rewrite length_entries by done. apply fail_if_false.
    rewrite (proj2 (Z.ltb_ge _ _)) by lia. rewrite (proj2 (Z.eqb_eq _ _)) by lia. done. }
  rewrite Nat2Z.id. apply parses_end_of.
  apply (parses_bind_last _ (fun l => (C1Block_hash b, hc_header (cb_claim b),
    hc_producer (cb_claim b), cb_protocol b, l))).
  apply parses_repeat. intros j tx Htx'. apply c1_entry_parses.
  rewrite Forall_forall in Htx. by apply Htx.
Qed.

(** What the decoder read before the body, as one byte string. *)
Definition c1_layout (claimed : bytes) (header : BlockHeader) (producer : bytes) (pd : ProtocolData)
    (txs : list bytes) : bytes :=
  be_bytes 1 INNER_WIRE ++ claimed ++ BlockHeader_canonical_bytes header ++ be_bytes 4 7 ++
  producer ++ be_bytes 4 10 ++ ProtocolData_canonical_bytes pd ++
  be_bytes 8 (Z.of_nat (length txs)) ++ concat (map entry_bytes txs).

Lemma c1_fields_inv bs claimed header producer pd txs d :
  (Z.of_nat (length bs) < U64)%Z ->
  c1_block_fields (decoder bs) = Ok ((claimed, header, producer, pd, txs), d) ->
  wf_header header /\ in_width U64 (fees_burned pd) /\ length producer = 7%nat /\
  Forall (fun tx => length tx = SIGNED_LEN) txs /\
  bs = c1_layout claimed header producer pd txs.
Proof.
  intros Hlen. unfold c1_block_fields, a_uint, a_field, a_take. intros H.
  repeat match goal with H : (_ ≫= _) _ = Ok _ |- _ =>
    apply p_bind_Ok in H; let a := fresh "v" in let d := fresh "d" in
    let H' := fresh "H" in destruct H as (a & d & H' & H) end.
  match goal with H : p_guard _ ?d = Ok _ |- _ =>
    pose proof (fun Hok : dec_ok d => p_guard_inv _ _ _ _ Hok H) as HG end.
  inv_parse. inv_ok. subst.
  match goal with H : p_repeat _ _ _ _ = Ok _ |- _ =>
    apply (p_repeat_inv entry_bytes _ _ _ _ _ _ _ c1_entry_consumes) in H as (Hc & Htx & Hbody) end.
  match goal with H : BlockHeader_from_canonical_bytes _ = _ |- _ =>
    apply header_codec_iff in H as [? <-] end.
  match goal with H : ProtocolData_from_canonical_bytes ?x = _, Hl : Z.of_nat (length ?x) = _ |- _ =>
    assert (length x = 10%nat) as Hl10 by lia;
    pose proof (protocol_data_ten _ _ Hl10 H);
    apply protocol_data_codec_iff in H as [[? _] <-]; [|lia] end.
  simplify_eq. split_and!; [done|done|lia|done|].
  unfold c1_layout. rewrite Hc, Z2Nat.id by (match goal with H : in_width _ ?v |- (0 <= ?v)%Z => apply H end).
  match goal with H : consumes ?a (be_bytes 8 ?v) ?e |- _ =>
    assert (consumes (decoder bs) (be_bytes 1 INNER_WIRE ++ claimed ++
      BlockHeader_canonical_bytes header ++ be_bytes 4 7 ++ producer ++ be_bytes 4 10 ++
      ProtocolData_canonical_bytes pd ++ be_bytes 8 v) e) as Hhead by (clear Hbody; glue) end.
  destruct (HG (consumes_ok _ _ _ (dec_ok_decoder bs Hlen) Hhead)) as [_ Hg].
  unfold exact_body in Hg. inv_ok. destruct Hhead as [_ Hhead], Hbody as [_ Hbody].
  assert (rest d = []) as Hd.
  { apply nil_length_inv. rewrite Hbody in *. rewrite length_app in *.
    pose proof (length_entries _ Htx). lia. }
  unfold rest at 1, decoder in Hhead. simpl in Hhead. rewrite drop_0 in Hhead.
  rewrite Hhead, Hbody, Hd, app_nil_r. by rewrite <- !app_assoc.
Qed.

Lemma c1_block_codec_iff bs b :
  C1Block_from_wire_bytes bs = Ok b <-> wf_c1_block b /\ C1Block_wire_bytes b = bs.
Proof.
  unfold C1Block_from_wire_bytes. split.
  - intros H. apply bind_Ok in H as ([] & Hl & H). apply fail_if_Ok, Z.ltb_ge in Hl.
    apply bind_Ok in H as ([[[[[claimed header] producer] pd] txs] d] & Hrun & H).
    apply bind_Ok in H as (b' & Hb & H). apply bind_Ok in H as ([] & Hh & H). injection H as ->.
    apply fail_if_Ok, bool_decide_eq_false, dec_stable in Hh.
    apply c1_fields_inv in Hrun as (? & ? & Hp & ? & ->); [|unfold C1_MAX_BLOCK_BYTES, MAX_ENTRIES in Hl; lia].
    apply c1_from_parts_iff in Hb as [Hv E]. split.
    + rewrite E in *. by constructor.
    + rewrite E in *. unfold c1_layout, C1Block_wire_bytes; simpl. by rewrite Hh, Hp.
  - intros [Hwf <-]. pose proof (length_c1_wire b Hwf) as Hl.
    pose proof (cv_bound _ (wb_valid _ Hwf)) as Hn. unfold C1_MAX_BLOCK_BYTES, MAX_ENTRIES in *.
    rewrite (proj2 (Z.ltb_ge _ _)) by lia. simpl fail_if. rewrite bind_of_Ok.
    assert (Z.of_nat (length (C1Block_wire_bytes b)) < U64)%Z as Hlt by (rewrite Hl; lia).
    rewrite (parses_end_all _ _ _ Hlt (c1_fields_parse b Hwf)), bind_of_Ok.
    cbv beta iota. destruct Hwf as [_ _ _ Hv].
    rewrite (proj2 (c1_from_parts_iff _ _ _ _ b)).
    + rewrite bind_of_Ok, neq_dec_false by done. done.
    + split; [done|]. destruct b as [[h p c] pd txs]. pose proof (cv_count _ Hv) as Hc.
      simpl in *. by rewrite Hc.
Qed.

(** ** Envelopes *)

Record wf_c1_envelope (e : C1Envelope) : Prop := {
  we_block : wf_c1_block (ce_block e);
  we_network : length (ce_network e) = 32%nat;
  we_signature : length (ce_signature e) = 65%nat
}.

Lemma outer_profile_parses :
  parses outer_profile (be_bytes 1 OUTER_WIRE ++ be_bytes 1 AUTH_ENCODING ++ be_bytes 4 AUTH_RULES) ().
Proof.
  unfold outer_profile, a_uint.
  eapply parses_bind; [by apply parses_u8|]. parse_step; [done|].
  eapply parses_bind; [by apply parses_u8|]. parse_step; [done|].
  rewrite <- (app_nil_r (be_bytes 4 _)).
  eapply parses_bind; [by apply parses_u32|]. by apply parses_lift.
Qed.

Lemma length_c1_envelope e :
  wf_c1_envelope e -> Z.of_nat (length (C1Envelope_wire_bytes e)) =
    (Z.of_nat (length (C1Block_wire_bytes (ce_block e))) + 107)%Z.
Proof.
  intros [_ Hn Hs]. unfold C1Envelope_wire_bytes. cbv zeta.
  rewrite !length_app, !length_be_bytes, Hn, Hs. lia.
Qed.

Lemma c1_envelope_codec_iff bs e :
  C1Envelope_from_wire_bytes bs = Ok e <-> wf_c1_envelope e /\ C1Envelope_wire_bytes e = bs.
Proof.
  unfold C1Envelope_from_wire_bytes. split.
  - intros H. apply bind_Ok in H as ([] & Hl & H). apply fail_if_Ok, Z.ltb_ge in Hl.
    apply fmap_Ok in H as ([e' d] & H & <-).
    unfold c1_envelope_fields, outer_profile, a_uint, a_field, a_take in H. inv_parse.
    match goal with H : exact_envelope _ _ = Ok _ |- _ =>
      unfold exact_envelope, checked_add in H end. inv_ok. subst.
    match goal with H : C1Block_from_wire_bytes _ = Ok _ |- _ =>
      apply c1_block_codec_iff in H as [? <-] end.
    match goal with H : (if _ then Some _ else None) = Some _ |- _ =>
      destruct (_ <? U64)%Z in H; [|done]; injection H as Htotal end.
    match goal with B : wf_c1_block ?b, _ : length ?n = 32%nat, _ : length ?sg = 65%nat |- _ =>
      assert (wf_c1_envelope (mk_c1_envelope b n sg)) as Hwf by (by constructor) end.
    split; [done|]. match goal with |- ?w = bs => assert (consumes (decoder bs) w d) as Hall end.
    { unfold C1Envelope_wire_bytes. cbv zeta. simpl. glue. }
    pose proof (length_c1_envelope _ Hwf) as Hlw. simpl in Hlw.
    symmetry. apply (consumes_finished _ _ _ Hall). pose proof (consumes_length _ _ _ Hall).
    destruct Hall as [-> _]. unfold finished. simpl. apply bool_decide_eq_true. lia.
  - intros [Hwf <-]. pose proof (length_c1_envelope e Hwf) as Hl. destruct Hwf as [Hb Hn Hs].
    pose proof (length_c1_wire _ Hb) as Hlb.
    pose proof (cv_bound _ (wb_valid _ Hb)) as Hc.
    unfold C1_MAX_ENVELOPE_BYTES, C1_MAX_BLOCK_BYTES, MAX_ENTRIES in *.
    rewrite (proj2 (Z.ltb_ge _ _)) by lia. simpl fail_if. rewrite bind_of_Ok.
    apply fmap_Ok. eexists. split; [apply parses_end_all; [rewrite Hl; lia|]|reflexivity].
    rewrite Hl. unfold C1Envelope_wire_bytes, c1_envelope_fields, a_uint, a_field, a_take. cbv zeta.
    replace (be_bytes 1 OUTER_WIRE ++ _) with ((be_bytes 1 OUTER_WIRE ++ be_bytes 1 AUTH_ENCODING ++
      be_bytes 4 AUTH_RULES) ++ ce_network e ++
      be_bytes 4 (Z.of_nat (length (C1Block_wire_bytes (ce_block e)))) ++
      C1Block_wire_bytes (ce_block e) ++ ce_signature e) by (by rewrite <- !app_assoc).
    eapply parses_end_bind; [apply outer_profile_parses|].
    eapply parses_end_bind; [by apply parses_field|].
    eapply parses_end_bind; [apply parses_u32; unfold in_width; lia|].
    eapply parses_end_bind_lift.
    { unfold exact_envelope, checked_add, C1_MAX_BLOCK_BYTES, MAX_ENTRIES.
      rewrite (proj2 (Z.leb_le 295 _)), (proj2 (Z.leb_le _ (288 + 7 + 203 * 16))) by lia.
      rewrite (proj2 (Z.ltb_lt _ U64)), neq_dec_false by (lia || (f_equal; lia)). done. }
    eapply parses_end_bind; [by apply parses_take|].
    eapply parses_end_bind_lift; [by apply c1_block_codec_iff|]. apply parses_end_of.
    destruct e as [b n sg]. simpl in *.
    apply (parses_bind_last _ (fun x => mk_c1_envelope b n x)). by apply parses_field.
Qed.
End BlockCodec.

(** ** Properties *)

Section ApplicationProperties.
  Context {KE : Keccak} {KC : K256}.

(** The strict wire-4 block decoder accepts exactly the encodings of
    structurally committed blocks (claim, gas, burn, body count and
    transaction root in agreement): decoding is the inverse of encoding, so
    no block has a second accepted encoding. *)
Theorem c1_block_codec bs b :
  C1Block_from_wire_bytes bs = Ok b <-> wf_c1_block b /\ C1Block_wire_bytes b = bs.
Proof. apply c1_block_codec_iff. Qed.

(** The same for the outer envelope with its network id and signature. *)
Theorem c1_envelope_codec bs e :
  C1Envelope_from_wire_bytes bs = Ok e <-> wf_c1_envelope e /\ C1Envelope_wire_bytes e = bs.
Proof. apply c1_envelope_codec_iff. Qed.
End ApplicationProperties.
