(* ===== verification/PoashCompound.v ===== *)
(** * The compound transition is total on audited prefixes
      (src/src/native_poash/application.rs, [stage_native] and [compound])

    What one block does to the closed state.  From the facts of an accepted
    prefix (history.rs) and a valid snapshot (state.rs) this file derives
    that staging and [compound] keep every invariant the snapshot validator
    and the prefix validator re-check, so that a block of the selected
    producer is always applied and its prefix is always accepted again. *)

From S2P Require Import Prelude Codec Crypto BlockCommitment NativeTransaction NativeTransfer.
From S2P Require Import NativeBlock BlockAuthentication LeaderSelection PoashBase PoashState.
From S2P Require Import PoashSelection PoashGenesis PoashClaim PoashHistory PoashAdmission.
From S2P Require Import PoashApplication.

(** ** Totals over the account map *)

Definition total (f : TransferAccount -> Z) (m : gmap bytes TransferAccount) : Z :=
  map_fold (fun _ a acc => f a + acc)%Z 0%Z m.

Lemma total_insert_new f m k v : m !! k = None -> total f (<[k := v]> m) = (f v + total f m)%Z.
Proof. intros. unfold total. rewrite map_fold_insert_L; [done| |done]. intros; lia. Qed.

Lemma total_insert f m k v :
  f default_account = 0%Z ->
  total f (<[k := v]> m) = (total f m - f (default default_account (m !! k)) + f v)%Z.
Proof.
  intros Hf. destruct (m !! k) as [old|] eqn:Hk; simpl.
  - rewrite <- (insert_delete_id m k old Hk) at 2.
    rewrite <- insert_delete_eq, !total_insert_new by apply lookup_delete_eq. lia.
  - rewrite total_insert_new by done. lia.
Qed.

Lemma transfer_state_nonce_total st t :
  total account_nonce (accounts (transfer_state st t)) = (total account_nonce (accounts st) + 1)%Z.
Proof.
  unfold transfer_state, account. cbv zeta. simpl.
  destruct (decide (sender t = recipient t)) as [He|Hne]; simpl.
  - rewrite total_insert by done. simpl. lia.
  - destruct (Z.eqb_spec (value t) 0) as [Hv|Hv]; rewrite !total_insert by done;
      rewrite ?lookup_insert_ne by done; simpl; lia.
Qed.

(** One transfer keeps all rows and adds at most the recipient's. *)
Lemma transfer_state_dom st t :
  is_Some (accounts st !! sender t) ->
  dom (accounts st) ⊆ dom (accounts (transfer_state st t)) /\
  dom (accounts (transfer_state st t)) ⊆ {[recipient t]} ∪ dom (accounts st).
Proof.
  intros Hs%elem_of_dom. unfold transfer_state. cbv zeta. simpl.
  destruct (decide _) as [He|Hne]; [|destruct (_ =? 0)%Z]; rewrite !dom_insert_L; set_solver.
Qed.

(** A sender that can pay the fee has a row. *)
Lemma checks_sender st out t slot :
  wf_unsigned t -> first_failure (transfer_checks st out t slot) = None ->
  is_Some (accounts st !! sender t).
Proof.
  intros Hwf Hc. apply checks_None in Hc as (_ & _ & Hb & _).
  unfold account in Hb. destruct (accounts st !! sender t); [by eexists|]. simpl in Hb.
  unfold wf_unsigned, in_width in Hwf. lia.
Qed.

Lemma runs_rows slot ps st out st' out' :
  Forall (fun p => wf_unsigned (unsigned (transaction p))) ps ->
  runs slot ps st out st' out' ->
  total account_nonce (accounts st') =
    (total account_nonce (accounts st) + Z.of_nat (length ps))%Z /\
  dom (accounts st) ⊆ dom (accounts st') /\
  (size (accounts st') <= size (accounts st) + length ps)%nat /\
  ((forall a, a ∈ dom (accounts st) -> length a = 20%nat) ->
   forall a, a ∈ dom (accounts st') -> length a = 20%nat).
Proof.
  intros Hwf H. induction H as [|p ps st out st1 out1 st' out' H1 _ IH].
  { split_and!; [simpl; lia|done|simpl; lia|done]. }
  apply Forall_cons in Hwf as [Hp Hwf]. destruct (IH Hwf) as (In & Id & Is & Il).
  apply apply_transfer_Ok in H1 as (Hc & -> & _). set (t := unsigned (transaction p)) in *.
  rewrite transfer_state_nonce_total in In.
  destruct (transfer_state_dom st t (checks_sender _ _ _ _ Hp Hc)) as [Hd1 Hd2].
  split_and!; [simpl length; lia|set_solver| |].
  - apply subseteq_size in Hd2. rewrite size_union_alt in Hd2.
    assert (size (dom (accounts st) ∖ {[recipient t]} : gset bytes) <= size (dom (accounts st)))%nat
      by (apply subseteq_size; set_solver).
    rewrite size_singleton, !size_dom in *. simpl length. lia.
  - intros Ha. apply Il. intros a [->%elem_of_singleton|Hin]%Hd2%elem_of_union; [|by apply Ha].
    unfold wf_unsigned in Hp. apply Hp.
Qed.

(** ** Rows and maps *)

Definition to_account (a : C1Account) : TransferAccount := mk_account (acc_balance a) (acc_nonce a).

Lemma map_fmap_fst l :
  (map (fun a => (acc_address a, to_account a)) l).*1 = map acc_address l.
Proof. induction l; [done|]. simpl. by f_equal. Qed.

Lemma collect_list_to_map l :
  NoDup (map acc_address l) ->
  collect_accounts l = list_to_map (map (fun a => (acc_address a, to_account a)) l).
Proof.
  unfold collect_accounts. induction l as [|a l IH] using rev_ind; intros Hnd; [done|].
  rewrite map_app in Hnd. apply NoDup_app in Hnd as (Hnd & Hdis & _).
  rewrite foldl_app, IH by done. simpl. rewrite map_app, list_to_map_app. simpl.
  rewrite insert_empty. apply insert_union_singleton_r, not_elem_of_list_to_map_1.
  rewrite map_fmap_fst. intros Hin. apply (Hdis _ Hin). left.
Qed.

Lemma total_list f l :
  NoDup (map acc_address l) -> f default_account = 0%Z ->
  total f (collect_accounts l) = sum_of (fun a => f (to_account a)) l.
Proof.
  intros Hnd Hf. rewrite collect_list_to_map by done.
  induction l as [|a l IH]; [done|]. cbn [map] in *. apply NoDup_cons in Hnd as [Ha Hnd].
  simpl. rewrite total_insert_new.
  - by rewrite IH.
  - apply not_elem_of_list_to_map_1. by rewrite map_fmap_fst.
Qed.

Lemma collect_dom l a :
  NoDup (map acc_address l) -> a ∈ dom (collect_accounts l) <-> a ∈ map acc_address l.
Proof.
  intros Hnd. rewrite collect_list_to_map, dom_list_to_map_L, map_fmap_fst by done.
  by rewrite elem_of_list_to_set.
Qed.

Lemma collect_size l : NoDup (map acc_address l) -> size (collect_accounts l) = length l.
Proof.
  intros Hnd. rewrite collect_list_to_map by done.
  rewrite <- (length_map (fun a => (acc_address a, to_account a)) l).
  rewrite <- length_map_to_list. apply Permutation_length, map_to_list_to_map.
  by rewrite map_fmap_fst.
Qed.

Lemma account_rows_perm m :
  account_rows m ≡ₚ map (fun p => mk_c1_account p.1 (balance_quarks p.2) (account_nonce p.2))
                      (map_to_list m).
Proof. unfold account_rows. by rewrite sort_by_perm. Qed.

Lemma account_rows_total (f : C1Account -> Z) (h : TransferAccount -> Z) m :
  (forall a, f a = h (to_account a)) -> sum_of f (account_rows m) = total h m.
Proof.
  intros Hf. rewrite (sum_of_perm _ _ _ (account_rows_perm m)). unfold total. rewrite map_fold_foldr.
  induction (map_to_list m) as [|[k a] l IH]; [done|]. simpl. rewrite IH, Hf. simpl. by destruct a.
Qed.

Lemma account_rows_keys m :
  map acc_address (account_rows m) ≡ₚ (map_to_list m).*1.
Proof.
  rewrite account_rows_perm, map_map. done.
Qed.

Lemma account_rows_NoDup m : NoDup (map acc_address (account_rows m)).
Proof. rewrite account_rows_keys. apply NoDup_fst_map_to_list. Qed.

Lemma account_rows_elem m a : a ∈ map acc_address (account_rows m) <-> a ∈ dom m.
Proof.
  rewrite account_rows_keys, elem_of_dom. split.
  - intros ([k v] & -> & Hin%elem_of_map_to_list)%list_elem_of_fmap. by eexists.
  - intros [v Hv%elem_of_map_to_list]. apply list_elem_of_fmap. by exists (a, v).
Qed.

Lemma account_rows_length m : length (account_rows m) = size m.
Proof.
  rewrite (Permutation_length (account_rows_perm m)), length_map. apply length_map_to_list.
Qed.

Lemma account_rows_sorted m :
  sorted (fun a b => bytes_leb (acc_address a) (acc_address b)) (account_rows m).
Proof.
  unfold account_rows.
  pose proof (sort_by_sorted (fun a b : bytes * TransferAccount => bytes_leb a.1 b.1)
    ltac:(intros; apply bytes_leb_total) ltac:(intros ? ? ?; apply bytes_leb_trans)
    (map_to_list m)) as H.
  induction H as [|x l Hle Hl IH]; simpl; constructor; [|done].
  intros y ([k v] & -> & Hin)%list_elem_of_fmap. apply (Hle (k, v) Hin).
Qed.

(** ** The reward row *)

(** What the three checked additions do to the producer's row. *)
Definition bump (reward : Z) (producer : bytes) (v : C1Validator) : C1Validator :=
  if decide (v_id v = producer) then
    mk_c1_validator (v_id v) (v_status v) (v_vault v + reward) (v_locked v + reward) (v_misses v)
      (v_offenses v) (v_produced v + 1) (v_cooldown_until v)
  else v.

Lemma bump_id r p v : v_id (bump r p v) = v_id v.
Proof. unfold bump. by case_decide. Qed.
Lemma bump_status r p v : v_status (bump r p v) = v_status v.
Proof. unfold bump. by case_decide. Qed.
Lemma bump_cooldown r p v : v_cooldown_until (bump r p v) = v_cooldown_until v.
Proof. unfold bump. by case_decide. Qed.

Lemma bump_other r p vs : p ∉ map v_id vs -> map (bump r p) vs = vs.
Proof.
  induction vs as [|v vs IH]; intros Hp; [done|]. cbn [map] in *.
  apply not_elem_of_cons in Hp as [Hne Hp]. rewrite IH by done. f_equal.
  unfold bump. by rewrite decide_False.
Qed.

Lemma bump_ids r p vs : map v_id (map (bump r p) vs) = map v_id vs.
Proof. rewrite map_map. apply map_ext. intros. apply bump_id. Qed.

Lemma credit_producer_eq r p vs :
  NoDup (map v_id vs) -> p ∈ map v_id vs ->
  Forall (fun v => (v_vault v + r < U128)%Z /\ (v_locked v + r < U128)%Z /\ (v_produced v + 1 < U64)%Z) vs ->
  credit_producer r p vs = Ok (map (bump r p) vs).
Proof.
  induction vs as [|v vs IH]; intros Hnd Hp Hw; [by apply not_elem_of_nil in Hp|].
  cbn [map] in *. apply NoDup_cons in Hnd as [Hv Hnd]. apply Forall_cons in Hw as [(? & ? & ?) Hw].
  simpl credit_producer. case_bool_decide as E.
  - unfold checked_add. rewrite !(proj2 (Z.ltb_lt _ _)) by done. rewrite !ok_or_of_Some, !bind_of_Ok.
    rewrite <- E, bump_other by done. unfold bump. by rewrite decide_True by done.
  - apply elem_of_cons in Hp as [?|Hp]; [congruence|]. rewrite IH by done.
    unfold bump at 2. by rewrite decide_False.
Qed.

Lemma bump_sum (f : C1Validator -> Z) (k : Z) r p vs :
  (forall v, v_id v = p -> f (bump r p v) = (f v + k)%Z) ->
  NoDup (map v_id vs) -> p ∈ map v_id vs ->
  sum_of f (map (bump r p) vs) = (sum_of f vs + k)%Z.
Proof.
  intros Hf. induction vs as [|v vs IH]; intros Hnd Hp; [by apply not_elem_of_nil in Hp|].
  cbn [map] in *. apply NoDup_cons in Hnd as [Hv Hnd]. simpl.
  destruct (decide (v_id v = p)) as [E|E].
  - rewrite Hf by done. rewrite bump_other by congruence. lia.
  - apply elem_of_cons in Hp as [?|Hp]; [congruence|]. rewrite IH by done.
    unfold bump at 1. rewrite decide_False by done. lia.
Qed.

(** Crediting a reward keeps the registry eligible. *)
Lemma bump_check_validators r p ids vs :
  check_validators ids (map (bump r p) vs) = check_validators ids vs.
Proof.
  revert ids. induction vs as [|v vs IH]; intros ids; [done|]. simpl.
  rewrite bump_id, bump_status, bump_cooldown, IH.
  replace (v_vault (bump r p v) <? v_locked (bump r p v))%Z with (v_vault v <? v_locked v)%Z; [done|].
  unfold bump. case_decide; [|done]. simpl. apply eq_true_iff_eq. rewrite !Z.ltb_lt. lia.
Qed.

Lemma bump_find r p vs owner : find_validator (map (bump r p) vs) owner = bump r p <$> find_validator vs owner.
Proof.
  unfold find_validator. induction vs as [|v vs IH]; [done|]. cbn [map]. rewrite !filter_cons, bump_id.
  by case_decide.
Qed.

Lemma bump_check_tickets r p vs tids ts :
  check_tickets (map (bump r p) vs) tids ts = check_tickets vs tids ts.
Proof.
  revert tids. induction ts as [|t ts IH]; intros tids; [done|]. simpl.
  rewrite bump_find. destruct (find_validator vs (t_owner t)) as [v|]; simpl; [|done].
  unfold expected_bucket. rewrite bump_status. by rewrite IH.
Qed.

Lemma bump_check_backing r p ts vs :
  (0 <= r)%Z -> check_backing ts vs = Ok () -> check_backing ts (map (bump r p) vs) = Ok ().
Proof.
  intros Hr. induction vs as [|v vs IH]; [done|]. cbn [map check_backing].
  rewrite bump_status, bump_id. intros H. apply bind_Ok in H as ([] & Hv & H).
  rewrite IH by done. destruct (v_status v ==? ValidatorStatus.Active); [|done].
  apply bind_Ok in Hv as ([] & -> & Hm). rewrite bind_of_Ok.
  apply fail_if_Ok, Z.ltb_ge in Hm. rewrite fail_if_false; [done|]. apply Z.ltb_ge.
  unfold bump. case_decide; simpl; lia.
Qed.

Lemma bump_eligible r p vs ts :
  (0 <= r)%Z -> validate_eligibility vs ts = Ok () ->
  validate_eligibility (map (bump r p) vs) ts = Ok ().
Proof.
  intros Hr. unfold validate_eligibility.
  rewrite length_map, bump_check_validators, bump_check_tickets.
  intros H. apply bind_Ok in H as ([] & -> & H). apply bind_Ok in H as ([] & -> & H).
  apply bind_Ok in H as ([] & -> & H). rewrite !bind_of_Ok. by apply bump_check_backing.
Qed.

Lemma bump_zip r p (cs : list ValidatorConfig) e vs :
  zip_check (fun v c => v_id v ==? cfg_id c) e (map (bump r p) vs) cs =
  zip_check (fun v c => v_id v ==? cfg_id c) e vs cs.
Proof.
  revert cs. induction vs as [|v vs IH]; intros [|c cs]; [done..|]. simpl.
  by rewrite bump_id, IH.
Qed.

Lemma bump_sorted r p vs :
  sorted (fun a b => bytes_leb (v_id a) (v_id b)) vs ->
  sorted (fun a b => bytes_leb (v_id a) (v_id b)) (map (bump r p) vs).
Proof.
  induction 1 as [|v vs Hle _ IH]; simpl; constructor; [|done].
  intros y (w & -> & Hw)%list_elem_of_fmap. rewrite !bump_id. by apply Hle.
Qed.

(** ** Live states *)

Section Live.
  Context {KE : Keccak} {KC : K256} (run_id : bytes).

Let policy := genesis_policy run_id.

(** The states an audited owner of this run can hold. *)
Record live_state (st : ClosedState) : Prop := {
  lv_closed : st = closed_state policy (cs_data st);
  lv_rows : wf_rows (cs_data st);
  lv_sorted : sort_snapshot (cs_data st) = cs_data st;
  lv_valid : valid_snapshot policy (cs_data st);
  lv_validators : Forall (fun v => supported_validator v = true) (s_validators (cs_data st));
  lv_tickets : Forall (fun t => supported_ticket t = true) (s_tickets (cs_data st));
  (** every account beyond the three seeds was opened by a transfer *)
  lv_accounts : (Z.of_nat (length (s_accounts (cs_data st))) <=
    3 + s_gas_used (cs_data st) / 1000)%Z
}.

Lemma existsb_negb {A} (f : A -> bool) l :
  existsb (fun a => negb (f a)) l = false <-> Forall (fun a => f a = true) l.
Proof.
  induction l as [|a l IH]; simpl; [by split; [constructor|]|].
  rewrite orb_false_iff, negb_false_iff, Forall_cons, IH. done.
Qed.

Lemma live_supported st : live_state st -> supported st = Ok ().
Proof.
  intros L. unfold supported. apply fail_if_false.
  apply orb_false_intro'; apply existsb_negb; apply L.
Qed.

Lemma live_initial : live_state (g_initial (genesis_of run_id)).
Proof.
  pose proof approved_sorted as Hs. pose proof (approved_valid run_id) as Hv. rewrite Hs in Hv.
  assert (cs_data (g_initial (genesis_of run_id)) = approved_data) as E by (simpl; apply Hs).
  constructor; rewrite ?E.
  - unfold policy. simpl. by rewrite Hs.
  - apply approved_wf.
  - done.
  - done.
  - repeat constructor; by_computation.
  - repeat constructor; by_computation.
  - by_computation.
Qed.

Lemma sorted_snapshot d :
  sorted (fun a b => bytes_leb (acc_address a) (acc_address b)) (s_accounts d) ->
  sorted (fun a b => bytes_leb (v_id a) (v_id b)) (s_validators d) ->
  sorted (fun a b => (t_id a <=? t_id b)%Z) (s_tickets d) ->
  slots_sorted (s_credits d) -> sort_snapshot d = d.
Proof. intros. unfold sort_snapshot. rewrite !sort_by_id by done. by destruct d. Qed.

(** The rows of a checked snapshot are in canonical order. *)
Lemma sort_snapshot_rows d :
  sort_snapshot d = d ->
  sorted (fun a b => bytes_leb (v_id a) (v_id b)) (s_validators d) /\
  sorted (fun a b => (t_id a <=? t_id b)%Z) (s_tickets d) /\ slots_sorted (s_credits d).
Proof.
  intros <-. unfold sort_snapshot, slots_sorted; simpl. split_and!; apply sort_by_sorted.
  - intros. apply bytes_leb_total.
  - intros ? ? ?. apply bytes_leb_trans.
  - intros. apply Zleb_total.
  - intros ? ? ?. apply Zleb_trans.
  - intros. apply Zleb_total.
  - intros ? ? ?. apply Zleb_trans.
Qed.

(** ** One block of gas, seen from the headers *)

Lemma sum_of_bound {A} (f : A -> Z) k l :
  Forall (fun a => (f a <= k)%Z) l -> (sum_of f l <= k * Z.of_nat (length l))%Z.
Proof. induction 1; simpl length; simpl; lia. Qed.

Lemma prefix_gas_bound g headers state :
  accepted_prefix g headers state ->
  (s_gas_used (cs_data state) <= 16000 * pos_slot (s_position (cs_data state)))%Z.
Proof.
  intros Hp. pose proof (ap_bound _ _ _ Hp) as Hb. rewrite (ap_gas _ _ _ Hp).
  set (n := pos_slot (s_position (cs_data state))) in *.
  rewrite seqZ_cons by lia. change (Z.succ 0) with 1%Z. replace (Z.pred (n + 1)) with n by lia.
  change (sum_of (gas_at headers) (0%Z :: seqZ 1 n))
    with (gas_at headers 0 + sum_of (gas_at headers) (seqZ 1 n))%Z.
  assert (gas_at headers 0 = 0%Z) as -> by (unfold gas_at; by destruct (headers !! _)).
  assert (sum_of (gas_at headers) (seqZ 1 n) <= 16000 * Z.of_nat (length (seqZ 1 n)))%Z.
  { apply sum_of_bound. rewrite Forall_forall. intros s Hs%elem_of_seqZ. unfold gas_at.
    destruct (ap_slots _ _ _ Hp s ltac:(lia)) as (h & -> & _ & Hok).
    destruct (Z.eqb_spec s 0); [lia|]. destruct Hok as (_ & v & _ & _ & _ & _ & Hc & _).
    pose proof (cl_limits _ _ _ Hc) as [_ Hl]. pose proof (cl_gas _ _ _ Hc) as [Hg _].
    unfold MAX_ENTRIES in Hl. lia. }
  rewrite length_seqZ in *. lia.
Qed.

(** ** What staging a body leaves in the native state *)

Record native_step (d : SnapshotInput) (native : TransferState) (n : Z) : Prop := {
  ns_balance : total balance_quarks (accounts native) = (sum_of acc_balance (s_accounts d) - 10000 * n)%Z;
  ns_nonce : total account_nonce (accounts native) = (sum_of acc_nonce (s_accounts d) + n)%Z;
  ns_gas : gas_used_total native = (s_gas_used d + 1000 * n)%Z;
  ns_fees : fees_burned_total native = (s_fees_burned d + 10000 * n)%Z;
  ns_kept : forall a, a ∈ map acc_address (s_accounts d) -> a ∈ dom (accounts native);
  ns_size : (length (s_accounts d) <= size (accounts native))%nat /\
    (Z.of_nat (size (accounts native)) <= Z.of_nat (length (s_accounts d)) + n)%Z;
  ns_keys : forall a, a ∈ dom (accounts native) -> length a = 20%nat;
  ns_widths : wf_state native
}.

Lemma native_state_wf st : live_state st -> wf_state (native_state st).
Proof.
  intros L. pose proof (lv_rows _ L) as W. pose proof (vs_unique _ _ (lv_valid _ L)) as Hu.
  split; [|split; apply W]. intros a. unfold account, native_state; simpl.
  rewrite collect_list_to_map by done.
  destruct (list_to_map _ !! a) as [x|] eqn:E; simpl; [|by split].
  apply elem_of_list_to_map_2, list_elem_of_fmap in E as (row & [= -> ->] & Hin).
  pose proof (wr_accounts _ W) as Ha. rewrite Forall_forall in Ha.
  destruct (Ha row Hin) as (_ & ? & ?). by split.
Qed.

Lemma staged_native st c slot body sb :
  live_state st -> stage_body (native_state st) c slot body = Ok sb ->
  native_step (cs_data st) (staged_candidate sb) (Z.of_nat (length body)) /\
  applied_transactions (staged_record sb) = body /\
  transaction_ids (applied_outcome (staged_record sb)) = body_ids body /\
  outcome_gas_used (applied_outcome (staged_record sb)) = (1000 * Z.of_nat (length body))%Z /\
  outcome_fees_burned (applied_outcome (staged_record sb)) = (10000 * Z.of_nat (length body))%Z /\
  Forall (fun bs => length bs = SIGNED_LEN) body.
Proof.
  intros L (ps & Hs)%stage_body_Ok. pose proof (vs_unique _ _ (lv_valid _ L)) as Hu.
  pose proof (staged_wf _ _ _ _ _ _ (native_state_wf _ L) Hs) as [Hw _].
  destruct Hs as [Hauth Hruns _ Hrec].
  assert (Forall (fun p => wf_unsigned (unsigned (transaction p))) ps) as Hps.
  { apply Forall_forall. intros p Hp. apply list_elem_of_lookup in Hp as [i Hi].
    destruct (Forall2_lookup_r _ _ _ _ _ Hauth Hi) as (bs & _ & Hb). by eapply authenticate_wf. }
  pose proof (runs_rows _ _ _ _ _ _ Hps Hruns) as (Hn & Hd & Hsz & Hk).
  pose proof (runs_outcome _ _ _ _ _ _ Hruns) as (Hids & Hg & Hf & Hb & Hog & Hof).
  pose proof (Forall2_length _ _ _ Hauth) as Hlen. simpl in Hids, Hg, Hf, Hb, Hog, Hof, Hn, Hd, Hsz, Hk.
  rewrite total_list in Hn by done. rewrite collect_size in Hsz by done.
  change (balances ?m) with (total balance_quarks m) in Hb.
  change (balances ?m) with (total balance_quarks m) in Hb. rewrite total_list in Hb by done.
  rewrite Hlen in *. split_and!; [|by rewrite Hrec| |lia|lia|].
  - constructor; try done; try (unfold sum_of in *; simpl in *; lia).
    + intros a Ha. apply Hd. by apply collect_dom.
    + split; [|lia]. apply subseteq_size in Hd. by rewrite !size_dom, collect_size in Hd by done.
    + apply Hk. intros a Ha%collect_dom; [|done].
      apply list_elem_of_fmap in Ha as (row & -> & Hin).
      pose proof (wr_accounts _ (lv_rows _ L)) as Hrows. rewrite Forall_forall in Hrows.
      by apply (Hrows row Hin).
  - rewrite Hids. clear - Hauth. induction Hauth as [|bs p body ps Hb _ IH]; [done|].
    unfold body_ids in *. cbn [map]. rewrite <- IH. f_equal.
    apply authenticate_spec in Hb. apply Hb.
  - clear - Hauth. induction Hauth as [|bs p body ps Hb _ IH]; constructor; [|done].
    apply authenticate_spec in Hb as [Hs -> _ _ _ _]. unfold signed_layout.
    rewrite length_app, wf_signed_length, length_unsigned_layout by (done || apply Hs). done.
Qed.

(** ** The next snapshot *)

Definition REWARD : Z := 10000000.

Definition next_data (d : SnapshotInput) (hash : bytes) (native : TransferState) (producer : bytes) :
    SnapshotInput :=
  let s := (pos_slot (s_position d) + 1)%Z in
  mk_snapshot (mk_position s hash) (account_rows (accounts native))
    (map (bump REWARD producer) (s_validators d)) (s_tickets d)
    (s_credits d ++ [mk_credit s producer REWARD])
    (gas_used_total native) (fees_burned_total native) (s_base_issuance d + REWARD).

(** The facts one block step starts from. *)
Record step_inputs (st : ClosedState) (native : TransferState) (n : Z) (hash producer : bytes) :
    Prop := {
  si_live : live_state st;
  si_native : native_step (cs_data st) native n;
  si_count : (0 <= n <= 16)%Z;
  si_slot : (0 <= pos_slot (s_position (cs_data st)) < 200)%Z;
  si_gas : (s_gas_used (cs_data st) <= 16000 * pos_slot (s_position (cs_data st)))%Z;
  si_hash : length hash = 32%nat;
  si_producer : producer ∈ map v_id (s_validators (cs_data st))
}.

Section Step.
  Context st native n hash producer (I : step_inputs st native n hash producer).

Let d := cs_data st.
Let d' := next_data d hash native producer.
Let valid := lv_valid _ (si_live _ _ _ _ _ I).
Let rows := lv_rows _ (si_live _ _ _ _ _ I).
Let step := si_native _ _ _ _ _ I.

Lemma step_produced v : v ∈ s_validators d -> (0 <= v_produced v <= 200)%Z.
Proof.
  intros Hv. pose proof (wr_validators _ rows) as Hw. rewrite Forall_forall in Hw.
  destruct (Hw v Hv) as (_ & _ & _ & _ & [H0 _] & _). split; [done|].
  destruct (vs_produced _ _ valid) as [Hp _]. pose proof (si_slot _ _ _ _ _ I). subst d.
  enough (v_produced v <= sum_of v_produced (s_validators (cs_data st)))%Z by lia.
  apply sum_of_elem; [|done]. apply Forall_forall. intros w Hin. by destruct (Hw w Hin) as (_ & _ & _ & _ & [? _] & _).
Qed.

Lemma step_vault v : v ∈ s_validators d ->
  v_locked v = (REWARD * v_produced v)%Z /\ v_vault v = (INITIAL_VAULT + v_locked v)%Z.
Proof.
  intros Hv. pose proof (vs_vaults _ _ valid) as Hva. rewrite Forall_forall in Hva.
  destruct (Hva v Hv) as (_ & -> & ->). done.
Qed.

Lemma step_ids : NoDup (map v_id (s_validators d)).
Proof. by apply (validate_eligibility_unique _ _ (vs_eligible _ _ valid)). Qed.

Lemma step_rows : wf_rows d'.
Proof.
  pose proof rows as W. destruct step. pose proof (si_slot _ _ _ _ _ I) as Hs.
  constructor; unfold d', next_data, REWARD; simpl.
  - unfold in_width. subst d. lia.
  - apply I.
  - apply Forall_forall. intros a Ha. assert (acc_address a ∈ dom (accounts native)) as Hd.
    { apply account_rows_elem, list_elem_of_fmap. eauto. }
    split; [by apply ns_keys0|]. rewrite account_rows_perm in Ha.
    apply list_elem_of_fmap in Ha as ([k x] & -> & Hx%elem_of_map_to_list). simpl.
    destruct ns_widths0 as [Hacc _]. specialize (Hacc k). unfold account in Hacc. by rewrite Hx in Hacc.
  - pose proof (wr_validators _ W) as Hv. rewrite Forall_fmap. rewrite Forall_forall in Hv |- *.
    intros v Hin. simpl. destruct (Hv v Hin) as (? & ? & ? & ? & ? & ?).
    pose proof (step_produced v Hin). destruct (step_vault v Hin) as [E1 E2].
    unfold bump, REWARD, INITIAL_VAULT, in_width in *. case_decide; simpl;
      split_and!; try done; lia.
  - apply W.
  - apply Forall_app. split; [apply W|]. repeat constructor; simpl; unfold in_width; subst d; lia.
  - apply ns_widths0.
  - apply ns_widths0.
  - pose proof (vs_produced _ _ valid) as [_ Hb]. subst d. unfold in_width. rewrite Hb. lia.
Qed.

Lemma step_sorted : sort_snapshot d' = d'.
Proof.
  destruct (sort_snapshot_rows d (lv_sorted _ (si_live _ _ _ _ _ I))) as (Hv & Ht & Hc).
  apply sorted_snapshot; unfold d', next_data; simpl.
  - apply account_rows_sorted.
  - by apply bump_sorted.
  - done.
  - pose proof (vs_credits _ _ valid) as Hcr. fold d in Hcr. rewrite Forall_forall in Hcr.
    unfold slots_sorted in *. revert Hc Hcr. generalize (s_credits d).
    induction 1 as [|c l Hle Hl IH]; intros Hcr; simpl.
    + constructor; [|constructor]. by intros y ?%not_elem_of_nil.
    + constructor; [|apply IH; intros y Hy; apply Hcr; by right].
      intros y [Hy| ->%list_elem_of_singleton]%elem_of_app; [by apply Hle|]. simpl.
      destruct (Hcr c ltac:(left)) as (? & _). apply Z.leb_le. lia.
Qed.

Lemma step_gas_bound : (gas_used_total native <= 3200000)%Z /\ (0 <= s_gas_used d)%Z /\
  (gas_used_total native mod 1000 = 0)%Z /\
  (gas_used_total native / 1000 = s_gas_used d / 1000 + n)%Z.
Proof.
  pose proof (ns_gas _ _ _ step) as Hg. fold d in Hg.
  pose proof (si_gas _ _ _ _ _ I). pose proof (si_slot _ _ _ _ _ I).
  pose proof (si_count _ _ _ _ _ I). pose proof (wr_gas _ rows) as [Hg0 _]. fold d in Hg0.
  destruct (vs_gas _ _ valid) as (_ & Hm & _). fold d in Hm. subst d.
  split_and!; [lia|done|..]; rewrite Hg, (Z.mul_comm 1000 n).
  - by rewrite Z.mod_add.
  - by rewrite Z.div_add.
Qed.

Lemma step_credits_of v :
  v ∈ s_validators d ->
  Z.of_nat (length (credits_of (v_id v) (s_credits d'))) = v_produced (bump REWARD producer v).
Proof.
  intros Hv. pose proof (vs_vaults _ _ valid) as Hva. rewrite Forall_forall in Hva.
  destruct (Hva v Hv) as (Hp & _). fold d in Hp. unfold d', next_data, credits_of in *. cbv zeta.
  cbn [s_credits]. rewrite filter_app, length_app, filter_cons, filter_nil. cbn [c_validator].
  unfold bump. repeat case_decide; try congruence; simpl; lia.
Qed.

Lemma step_valid : valid_snapshot policy d'.
Proof.
  pose proof step_credits_of as Hcof. pose proof step_vault as Hvault.
  pose proof step as N. destruct N. pose proof (si_slot _ _ _ _ _ I) as Hs.
  pose proof (si_count _ _ _ _ _ I) as Hn. pose proof step_gas_bound as (G1 & G2 & G3 & G4).
  pose proof step_ids as Hids. pose proof (si_producer _ _ _ _ _ I) as Hprod.
  pose proof (lv_accounts _ (si_live _ _ _ _ _ I)) as Hacc.
  destruct valid as [Vs (Va & Vv & Vt) Vu Ve [Vz1 Vz2] (Vg & Vm & Vf & Vn) [Vp Vb] Vsup [Vc Vl] Vcr Vva Vse].
  destruct ns_size0 as [Hlow Hhigh]. subst d d'.
  constructor; unfold next_data; cbn [s_position s_accounts s_validators s_tickets s_credits
    s_gas_used s_fees_burned s_base_issuance pos_slot pos_hash].
  - unfold MAX_SLOTS. lia.
  - rewrite account_rows_length, length_map. split_and!; [lia|change MAX_ACCOUNTS with 3203%Z|done..].
    assert (gas_used_total native / 1000 <= 3200)%Z by (apply Z.div_le_upper_bound; lia). lia.
  - apply account_rows_NoDup.
  - by apply bump_eligible.
  - by rewrite bump_zip.
  - split_and!; [done|done|lia|].
    rewrite (account_rows_total acc_nonce account_nonce) by done. lia.
  - rewrite (bump_sum v_produced 1 REWARD); [|intros v E; unfold bump; by rewrite decide_True|done|done].
    unfold REWARD. split; [lia|]. rewrite Vb. lia.
  - rewrite (account_rows_total acc_balance balance_quarks) by done.
    rewrite (bump_sum v_vault REWARD REWARD);
      [|intros v E; unfold bump; by rewrite decide_True|done|done]. lia.
  - rewrite map_app, length_app. simpl. split; [|lia]. apply NoDup_app. split_and!; [done| |].
    + intros x (c & E & Hc)%list_elem_of_fmap Hx%list_elem_of_singleton.
      rewrite Forall_forall in Vcr. destruct (Vcr c Hc) as (? & _). simpl in *. lia.
    + apply NoDup_singleton.
  - apply Forall_app. split.
    + eapply Forall_impl; [exact Vcr|]. intros c (? & ? & ?). split_and!; [lia..|done].
    + repeat constructor; simpl; [lia|lia|]. apply list_elem_of_fmap in Hprod as (v & -> & Hv).
      destruct (validate_eligibility_unique _ _ Ve) as (_ & _ & Hab & _).
      rewrite Forall_forall in Hab. destruct (Hab v Hv) as [-> | ->].
      * exists (mk_config (str "trial-A") KEY_A ADDRESS_A ADDRESS_A INITIAL_VAULT). split; [left|done].
      * exists (mk_config (str "trial-B") KEY_B ADDRESS_B ADDRESS_B INITIAL_VAULT).
        split; [right; left|done].
  - rewrite Forall_fmap. apply Forall_forall. intros v Hv. simpl. rewrite bump_id.
    destruct (Hvault v Hv) as [E1 E2].
    split_and!; [exact (Hcof v Hv)|..]; unfold bump, REWARD in *; case_decide; simpl; lia.
  - eapply Forall_impl; [exact Vse|]. intros a Ha. apply account_rows_elem. by apply ns_kept0.
Qed.

Lemma step_live : live_state (closed_state policy d').
Proof.
  pose proof (si_live _ _ _ _ _ I) as L. pose proof step_gas_bound as (_ & _ & _ & G).
  constructor; cbn [cs_data closed_state]; [done|apply step_rows|apply step_sorted|apply step_valid|..].
  - unfold d', next_data; simpl. rewrite Forall_fmap. eapply Forall_impl; [apply (lv_validators _ L)|].
    intros v. simpl. unfold supported_validator, bump. by case_decide.
  - apply (lv_tickets _ L).
  - unfold d', next_data; simpl. rewrite account_rows_length, G. fold d.
    pose proof (ns_size _ _ _ step) as [_ Hsz]. fold d in Hsz. pose proof (lv_accounts _ L) as Ha.
    fold d in Ha. lia.
Qed.
End Step.

(** ** Slot views of live prefixes *)

(** A prefix of this run whose state is live. *)
Record live_prefix (px : PrefixContext) : Prop := {
  lp_genesis : px_genesis px = genesis_of run_id;
  lp_accepted : PrefixContext_from_trusted_history (px_genesis px) (px_headers px) (px_state px) = Ok px;
  lp_headers : Forall checked_header (px_headers px);
  lp_live : live_state (px_state px)
}.

Lemma live_prefix_context px : live_prefix px -> accepted_context px.
Proof. intros [_ H _ _]. by apply prefix_sound in H as [? _]. Qed.

Lemma initial_live_prefix :
  let g := genesis_of run_id in
  let h := mk_historical genesis_anchor (BlockHeader_hash genesis_anchor) in
  live_prefix (mk_prefix g [h] (g_initial g) (prefix_id g [h])).
Proof.
  cbv zeta. constructor; cbn [px_genesis px_headers px_state].
  - done.
  - pose proof (initial_prefix run_id) as H. cbv zeta in H. unfold PrefixContext_initial in H.
    apply bind_Ok in H as (h & Hh & H). unfold HistoricalHeader_new in Hh. inv_ok. subst h. exact H.
  - constructor; [|constructor]. split; [apply anchor_wf|done].
  - apply live_initial.
Qed.

(** The view of the next slot. *)
Record live_view (px : PrefixContext) (view : SlotStartView) : Prop := {
  lw_prefix : live_prefix px;
  lw_view : slot_start px = Ok view
}.

Lemma live_view_facts px view :
  live_view px view ->
  sv_prefix view = px /\ view_state view = px_state px /\ view_genesis view = genesis_of run_id /\
  sv_slot view = (pos_slot (s_position (cs_data (px_state px))) + 1)%Z /\
  (0 <= pos_slot (s_position (cs_data (px_state px))) < 200)%Z.
Proof.
  intros [Hp Hv]. pose proof (live_prefix_context px Hp) as Hc.
  pose proof (ap_bound _ _ _ Hc) as Hb. unfold MAX_SLOTS in Hb.
  destruct (slot_start_accepted px Hc) as [[_ E]|(Hs & v & E & Hpre & Hslot & _)]; [congruence|].
  rewrite Hv in E. injection E as <-. unfold view_state, view_genesis. rewrite Hpre, Hslot.
  unfold MAX_SLOTS in Hs. split_and!; [done|done|apply Hp|done|lia|lia].
Qed.

Lemma selected_owner reference slot vs ts s :
  select_inputs reference slot vs ts = Ok s -> validate_eligibility vs ts = Ok () ->
  (1 <= slot <= MAX_SLOTS)%Z ->
  sel_owner s ∈ map v_id vs /\ exists t, t ∈ ts /\ t_id t = sel_ticket s /\ t_owner t = sel_owner s.
Proof.
  intros Hs Hv Hslot. pose proof (select_inputs_designated reference slot vs ts Hv Hslot) as H.
  cbv zeta in H. destruct (uniform_below _ _) as [off|].
  - destruct H as (t & s' & Ht & _ & E & (_ & _ & _ & Ho & Htk & _)).
    rewrite Hs in E. injection E as <-. unfold eligible_tickets in Ht.
    apply list_elem_of_filter in Ht as [He Ht]. rewrite Ho, Htk. split; [|eauto].
    destruct (validate_eligibility_unique _ _ Hv) as (_ & _ & _ & Howners).
    rewrite Forall_forall in Howners. destruct (Howners t Ht) as (v & Hfind & _).
    apply find_validator_Some in Hfind as [Hin <-]. apply list_elem_of_fmap. eauto.
  - rewrite Hs in H. by destruct (decide _).
Qed.

(** What [compound] demands of a block before it touches the state. *)
Record block_fits (view : SlotStartView) (block : C1Block) (outcome : BodyOutcome) (s : Selection) :
    Prop := {
  bf_select : view_select view = Ok s;
  bf_slot : slot (hc_header (cb_claim block)) = sv_slot view;
  bf_parent : parent_hash (hc_header (cb_claim block)) = pos_hash (view_parent view);
  bf_producer : hc_producer (cb_claim block) = sel_owner s;
  bf_ticket : ticket_id (hc_header (cb_claim block)) = sel_ticket s;
  bf_outcome : C1Block_match_outcome block outcome = Ok ()
}.

Lemma stage_native_inv px view body native rec :
  live_view px view -> stage_native view body = Ok (native, rec) ->
  native_step (cs_data (px_state px)) native (Z.of_nat (length body)) /\
  (Z.of_nat (length body) <= 16)%Z /\ applied_transactions rec = body /\
  transaction_ids (applied_outcome rec) = body_ids body /\
  outcome_gas_used (applied_outcome rec) = (1000 * Z.of_nat (length body))%Z /\
  outcome_fees_burned (applied_outcome rec) = (10000 * Z.of_nat (length body))%Z /\
  Forall (fun bs => length bs = SIGNED_LEN) body.
Proof.
  intros Hv. destruct (live_view_facts _ _ Hv) as (_ & Est & _). unfold stage_native. intros H.
  apply bind_Ok in H as ([] & _ & H). apply bind_Ok in H as ([] & Hl & H).
  apply bind_Ok in H as (sb & Hsb & H). injection H as <- <-. inv_ok. rewrite Est in *. unfold MAX_ENTRIES in *.
  match goal with H : stage_body _ _ _ _ = Ok _ |- _ =>
    apply staged_native in H as (? & ? & ? & ? & ? & ?); [|apply Hv] end. done.
Qed.

Lemma view_step_inputs px view body native rec block s :
  live_view px view -> stage_native view body = Ok (native, rec) -> view_select view = Ok s ->
  step_inputs (px_state px) native (Z.of_nat (length body)) (C1Block_hash block) (sel_owner s).
Proof.
  intros Hv Hn Hs. destruct (live_view_facts _ _ Hv) as (_ & Est & _ & Hslot & Hb).
  apply (stage_native_inv _ _ _ _ _ Hv) in Hn as (Hstep & Hlen & _).
  pose proof (lw_prefix _ _ Hv) as Hp. pose proof (lp_live _ Hp) as L.
  constructor; try done.
  - lia.
  - apply (prefix_gas_bound _ _ _ (live_prefix_context px Hp)).
  - apply header_hash_length.
  - unfold view_select in Hs. rewrite Est in Hs.
    apply selected_owner in Hs as [? _]; [done|apply (lv_valid _ L)|].
    unfold MAX_SLOTS. lia.
Qed.

Lemma compound_spec px view body native rec block st' :
  live_view px view -> stage_native view body = Ok (native, rec) ->
  compound view block native (applied_outcome rec) = Ok st' <->
  exists s, block_fits view block (applied_outcome rec) s /\
    st' = closed_state policy (next_data (cs_data (px_state px)) (C1Block_hash block) native (sel_owner s)).
Proof.
  intros Hv Hn. destruct (live_view_facts _ _ Hv) as (_ & Est & Eg & Hslot & Hb).
  pose proof (lw_prefix _ _ Hv) as Hp. pose proof (lp_live _ Hp) as L.
  assert (forall s, block_fits view block (applied_outcome rec) s ->
    compound view block native (applied_outcome rec) = Ok (closed_state policy
      (next_data (cs_data (px_state px)) (C1Block_hash block) native (sel_owner s)))) as Hrun.
  { intros s [Hsel Hs Hpa Hpr Ht Ho]. pose proof (view_step_inputs _ _ _ _ _ block s Hv Hn Hsel) as I.
    unfold compound. cbv zeta. rewrite Est, live_supported by done. rewrite bind_of_Ok, Hsel.
    unfold protocol. simpl map_err. rewrite bind_of_Ok, !neq_dec_false by done. simpl fail_if.
    rewrite !bind_of_Ok, Ho, bind_of_Ok, approved_reward.
    rewrite credit_producer_eq; [|by eapply step_ids|by eapply si_producer|].
    2:{ apply Forall_forall. intros v Hin. pose proof (step_produced _ _ _ _ _ I v Hin).
        destruct (step_vault _ _ _ _ _ I v Hin) as [E1 E2].
        unfold REWARD, INITIAL_VAULT in *. lia. }
    rewrite bind_of_Ok. unfold checked_add.
    pose proof (vs_produced _ _ (lv_valid _ L)) as [_ Hbase].
    rewrite (proj2 (Z.ltb_lt _ _)) by (rewrite Hbase; lia). rewrite ok_or_of_Some, bind_of_Ok.
    unfold from_trusted_snapshot. rewrite Eg, Hslot.
    pose proof (step_sorted _ _ _ _ _ I) as Hsort.
    pose proof (checked_complete policy _ (step_rows _ _ _ _ _ I)) as Hcheck.
    rewrite Hsort in Hcheck. specialize (Hcheck (step_valid _ _ _ _ _ I)).
    exact (f_equal (map_err AppError.Protocol) Hcheck). }
  split.
  - intros H. assert (exists s, block_fits view block (applied_outcome rec) s) as [s Hf].
    { unfold compound, protocol in H. cbv zeta in H. inv_ok. eexists. by constructor. }
    exists s. split; [done|]. specialize (Hrun s Hf). congruence.
  - intros (s & Hf & ->). by apply Hrun.
Qed.
End Live.
