(* ===== verification/PoashChain.v ===== *)
(** * Growing a prefix by one block (src/src/native_poash/history.rs and application.rs)

    The prefix validator re-checks the whole chain after every block.  This
    file shows that it always accepts what [compound] produced: the headers
    extended by the new block's header, with the compound state, form again
    a live prefix.  One block is the step of a transition relation, and the
    invariants of the run hold in every state it reaches. *)

From S2P Require Import Prelude Codec Crypto BlockCommitment NativeTransaction NativeTransfer.
From S2P Require Import NativeBlock BlockAuthentication LeaderSelection PoashBase PoashState.
From S2P Require Import PoashSelection PoashGenesis PoashClaim PoashHistory PoashAdmission.
From S2P Require Import PoashApplication PoashCompound.

(** ** The loop over a longer chain *)

Section Extend.
  Context {KE : Keccak} {KC : K256}.

Lemma prefix_loop_app g headers credits l k acc :
  prefix_loop g headers credits (l ++ k) acc =
  (acc' ← prefix_loop g headers credits l acc; prefix_loop g headers credits k acc').
Proof.
  revert acc. induction l as [|s l IH]; intros acc; [done|]. cbn [app prefix_loop].
  destruct (ok_or (headers !! Z.to_nat s) _) as [h|]; [|reflexivity]. rewrite !bind_of_Ok.
  destruct (fail_if (slot _ !=? s) _); [|reflexivity]. rewrite !bind_of_Ok.
  destruct (if (s =? 0)%Z then _ else _); [|reflexivity]. rewrite !bind_of_Ok. apply IH.
Qed.

(** Slots inside the old chain do not see the extension. *)
Lemma prefix_loop_weaken g headers credits hs cs slots acc :
  Forall (fun s => (0 <= s < Z.of_nat (length headers))%Z /\ (s - 1 < Z.of_nat (length credits))%Z) slots ->
  prefix_loop g (headers ++ hs) (credits ++ cs) slots acc = prefix_loop g headers credits slots acc.
Proof.
  intros H. revert acc. induction H as [|s slots [Hs Hc] _ IH]; intros acc; [done|].
  cbn [prefix_loop]. rewrite lookup_app_l by lia.
  destruct (ok_or (headers !! Z.to_nat s) _) as [h|]; [|reflexivity]. rewrite !bind_of_Ok.
  destruct (fail_if (slot _ !=? s) _); [|reflexivity]. rewrite !bind_of_Ok.
  destruct (Z.eqb_spec s 0) as [->|Hne].
  - destruct (fail_if _ _); [|reflexivity]. rewrite !bind_of_Ok. apply IH.
  - replace (prefix_slot (g_policy g) (headers ++ hs) (credits ++ cs) s (hh_header h) acc)
      with (prefix_slot (g_policy g) headers credits s (hh_header h) acc).
    + destruct (prefix_slot _ _ _ _ _ _); [|reflexivity]. rewrite !bind_of_Ok. apply IH.
    + unfold prefix_slot. cbv zeta. by rewrite !lookup_app_l by lia.
Qed.

Lemma prefix_loop_counts g headers credits slots acc acc' :
  prefix_loop g headers credits slots acc = Ok acc' ->
  length (pt_counts acc') = length (pt_counts acc).
Proof.
  revert acc. induction slots as [|s slots IH]; intros acc H; [by injection H as <-|].
  cbn [prefix_loop] in H. apply bind_Ok in H as (h & _ & H). apply bind_Ok in H as ([] & _ & H).
  apply bind_Ok in H as (acc1 & H1 & H). rewrite (IH _ H). destruct (s =? 0)%Z.
  - inv_ok. by subst.
  - apply prefix_slot_sound in H1 as (_ & _ & _ & i & _ & ->). apply length_alter.
Qed.

(** The two registry rows of a live state. *)
Lemma live_validators run_id st :
  live_state run_id st -> exists a b, s_validators (cs_data st) = [a; b] /\
    v_id a = str "trial-A" /\ v_id b = str "trial-B".
Proof.
  intros L. pose proof (lv_valid _ _ L) as V. destruct (vs_sizes _ _ V) as (_ & Hl & _).
  destruct (vs_closed _ _ V) as [Hz _].
  destruct (s_validators (cs_data st)) as [|a [|b [|? ?]]]; try done.
  exists a, b. split; [done|]. simpl in Hz. inv_ok. done.
Qed.

Lemma live_tickets_rows run_id st :
  live_state run_id st -> exists a b, s_tickets (cs_data st) = [a; b] /\
    t_id a = 1%Z /\ t_owner a = str "trial-A" /\ t_id b = 255%Z /\ t_owner b = str "trial-B".
Proof.
  intros L. pose proof (lv_valid _ _ L) as V. destruct (vs_sizes _ _ V) as (_ & _ & Hl).
  destruct (vs_closed _ _ V) as [_ Hz].
  destruct (s_tickets (cs_data st)) as [|a [|b [|? ?]]]; try done.
  exists a, b. split; [done|]. simpl in Hz. inv_ok. simpl in *. done.
Qed.
End Extend.

(** ** One block *)

(** The two closed producers have different commitments in headers; otherwise
    a block could not be told from the other producer's. *)
Definition distinct_producers `{Keccak} : Prop :=
  proposer_id (str "trial-A") <> proposer_id (str "trial-B").

(** The prefix after a block: [Snapshot::insert] and [Snapshot::prefix] of
    the owner append exactly this header. *)
Definition extend_prefix `{Keccak} (px : PrefixContext) (block : C1Block) (st : ClosedState) :
    result poash_error PrefixContext :=
  PrefixContext_from_trusted_history (px_genesis px)
    (px_headers px ++ [mk_historical (hc_header (cb_claim block)) (C1Block_hash block)]) st.

(** The selected producer's registry row and ticket. *)
Lemma selected_row `{KE : Keccak} run_id px view s :
  live_view run_id px view -> view_select view = Ok s ->
  (sel_owner s = str "trial-A" /\ sel_ticket s = 1%Z) \/
  (sel_owner s = str "trial-B" /\ sel_ticket s = 255%Z).
Proof.
  intros Hv Hs. destruct (live_view_facts _ _ _ Hv) as (_ & Est & _ & Hslot & Hbound).
  pose proof (lp_live _ _ (lw_prefix _ _ _ Hv)) as L.
  unfold view_select in Hs. rewrite Est in Hs.
  apply selected_owner in Hs as [_ (t & Ht & <- & <-)]; [|apply (lv_valid _ _ L)|unfold MAX_SLOTS; lia].
  destruct (live_tickets_rows _ _ L) as (a & b & E & ? & ? & ? & ?). rewrite E in Ht.
  apply elem_of_cons in Ht as [->|Ht%list_elem_of_singleton]; [by left|right; by subst].
Qed.

(** Both tickets of a live state are eligible. *)
Lemma live_eligible `{KE : Keccak} run_id st :
  live_state run_id st ->
  eligible_tickets (s_validators (cs_data st)) (s_tickets (cs_data st)) = s_tickets (cs_data st).
Proof.
  intros L. unfold eligible_tickets. apply filter_all.
  destruct (live_validators _ _ L) as (a & b & Ev & Ha & Hb).
  destruct (live_tickets_rows _ _ L) as (t & u & Et & _ & Ht & _ & Hu).
  pose proof (lv_validators _ _ L) as Sv. pose proof (lv_tickets _ _ L) as St. rewrite Ev, Et in *.
  unfold supported_validator, supported_ticket in *. rewrite !Forall_cons in *.
  destruct Sv as (Sa & Sb & _), St as (S1 & S2 & _). rewrite !andb_true_iff, ?bool_decide_eq_true in *.
  split_and!; [..|constructor]; unfold is_eligible; cbn [existsb]; rewrite ?Ht, ?Hu, ?Ha, ?Hb;
    rewrite andb_true_iff, !orb_true_iff, !andb_true_iff, !bool_decide_eq_true; naive_solver.
Qed.

(** A producer is selected in every slot: of two eligible tickets the sampler
    rejects no draw. *)
Lemma selection_exists `{KE : Keccak} run_id px view :
  live_view run_id px view -> exists s, view_select view = Ok s.
Proof.
  intros Hv. destruct (live_view_facts _ _ _ Hv) as (_ & Est & _ & Hslot & Hbound).
  pose proof (lp_live _ _ (lw_prefix _ _ _ Hv)) as L. unfold view_select. rewrite Est.
  pose proof (select_inputs_designated (sv_reference view) (sv_slot view) _ _ (vs_eligible _ _ (lv_valid _ _ L))) as H.
  cbv zeta in H. rewrite (live_eligible _ _ L) in H. destruct (live_tickets_rows _ _ L) as (a & b & E & _).
  rewrite E in H at 1. specialize (H ltac:(unfold MAX_SLOTS; lia)).
  change (Z.of_nat (length [a; b])) with 2%Z in H.
  destruct (uniform_below_spec (slot_randomness (sv_reference view) (sv_slot view)) 2) as [(r & _ & _ & _ & Eu)|[_ Hall]];
    [done| |].
  - rewrite Eu in H. destruct H as (t & s & _ & _ & Hs & _). eauto.
  - specialize (Hall 0%Z ltac:(done)). change (rejection_threshold 2) with 0%Z in Hall.
    destruct (bucket_raw_width (slot_randomness (sv_reference view) (sv_slot view)) 0). lia.
Qed.

Section Step.
  Context {KE : Keccak} {KC : K256} (run_id : bytes) (Hdist : distinct_producers).
  Context px view body native rec block s
    (Hv : live_view run_id px view) (Hn : stage_native view body = Ok (native, rec))
    (Hf : block_fits view block (applied_outcome rec) s) (Hb : wf_c1_block block)
    (Hbody : cb_transactions block = body).

Let d := cs_data (px_state px).
Let policy := genesis_policy run_id.
Let h := hc_header (cb_claim block).
Let d' := next_data d (C1Block_hash block) native (sel_owner s).

Lemma block_gas : gas_used h = (1000 * Z.of_nat (length body))%Z.
Proof.
  pose proof (cl_gas _ _ _ (cv_claim _ (wb_valid _ Hb))) as [Hg _]. rewrite Hbody in Hg.
  fold h in Hg. lia.
Qed.

Lemma block_claimable : claimable h (sel_owner s) (gas_used h / 1000).
Proof.
  pose proof (cv_claim _ (wb_valid _ Hb)) as Hc. rewrite (bf_producer _ _ _ _ Hf), Hbody in Hc.
  rewrite block_gas, (Z.mul_comm 1000), Z.div_mul by done. exact Hc.
Qed.

(** The index [position] finds is the producer's own row. *)
Lemma producer_row :
  exists i v, producer_index policy h = Some i /\ pol_configs policy !! i = Some v /\
    cfg_id v = sel_owner s /\ (i = 0%nat /\ sel_owner s = str "trial-A" \/
                               i = 1%nat /\ sel_owner s = str "trial-B").
Proof.
  pose proof (cl_producer _ _ _ block_claimable) as [_ Hp]. unfold producer_index. rewrite Hp.
  destruct (selected_row _ _ _ _ Hv (bf_select _ _ _ _ Hf)) as [[E _]|[E _]]; rewrite E; simpl.
  - rewrite bool_decide_eq_true_2 by done. exists 0%nat. eexists. split_and!; [done|done|done|by left].
  - rewrite bool_decide_eq_false_2 by (intros H; exact (Hdist H)).
    rewrite bool_decide_eq_true_2 by done. exists 1%nat. eexists. split_and!; [done|done|done|by right].
Qed.

Lemma owned_ticket v :
  cfg_id v = sel_owner s ->
  existsb (fun t => (t_id t ==? ticket_id h) && (t_owner t ==? cfg_id v)) (pol_tickets policy) = true.
Proof.
  intros ->. unfold h. rewrite (bf_ticket _ _ _ _ Hf). destruct (selected_row _ _ _ _ Hv (bf_select _ _ _ _ Hf)) as [[-> ->]|[-> ->]]; reflexivity.
Qed.

Let n := Z.of_nat (length body).
Let chain := px_headers px ++ [mk_historical h (C1Block_hash block)].

Lemma old_tip : exists prev, px_headers px !! Z.to_nat (sv_slot view - 1) = Some prev /\
  parent_hash h = hh_hash prev /\ Z.of_nat (length (px_headers px)) = sv_slot view.
Proof.
  destruct (live_view_facts _ _ _ Hv) as (Epx & _ & _ & Hslot & Hbound).
  pose proof (live_prefix_context _ _ (lw_prefix _ _ _ Hv)) as Hc.
  pose proof (ap_length _ _ _ Hc) as Hl. pose proof (ap_tip _ _ _ Hc) as Ht.
  destruct (last (px_headers px)) as [prev|] eqn:E; [|done]. rewrite last_lookup in E.
  exists prev. split_and!; [|unfold h|lia].
  - rewrite <- E. f_equal. lia.
  - rewrite (bf_parent _ _ _ _ Hf). unfold view_parent, view_state. rewrite Epx.
    simpl in Ht. congruence.
Qed.

Lemma new_slot counts :
  exists i, (i = 0%nat /\ sel_owner s = str "trial-A" \/ i = 1%nat /\ sel_owner s = str "trial-B") /\
  prefix_slot policy chain (s_credits d ++ [mk_credit (sv_slot view) (sel_owner s) REWARD])
    (sv_slot view) h (mk_totals counts (s_gas_used d) (s_fees_burned d)) =
  Ok (mk_totals (alter (fun k => k + 1)%Z i counts) (s_gas_used d + 1000 * n) (s_fees_burned d + 10000 * n)).
Proof.
  destruct old_tip as (prev & Hprev & Hlink & Hlen).
  destruct producer_row as (i & v & Hi & Hcfg & Hid & Hcase). exists i. split; [done|].
  destruct (live_view_facts _ _ _ Hv) as (_ & _ & _ & Hslot & Hbound).
  pose proof (lp_live _ _ (lw_prefix _ _ _ Hv)) as L.
  destruct (stage_native_inv _ _ _ _ _ _ Hv Hn) as (Hstep & Hcount & _).
  pose proof (step_gas_bound _ _ _ _ _ _ (view_step_inputs _ _ _ _ _ _ block _ Hv Hn (bf_select _ _ _ _ Hf)))
    as (G1 & G2 & _ & _).
  pose proof (ns_gas _ _ _ Hstep) as Hg. pose proof (vs_gas _ _ (lv_valid _ _ L)) as (_ & _ & Hfe & _).
  destruct (vs_credit_slots _ _ (lv_valid _ _ L)) as [_ Hcl]. fold d in Hg, Hfe, Hcl, Hslot, Hbound, G1, G2.
  unfold prefix_slot. cbv zeta. unfold chain at 1. rewrite (lookup_app_l (px_headers px)) by lia. rewrite Hprev.
  rewrite ok_or_of_Some, bind_of_Ok, (neq_dec_false _ _ Hlink). rewrite (fail_if_false false _ eq_refl), bind_of_Ok.
  fold (producer_index policy h). rewrite Hi, ok_or_of_Some, bind_of_Ok, Hcfg, ok_or_of_Some, bind_of_Ok.
  rewrite (owned_ticket v Hid). rewrite (fail_if_false (negb true) _ eq_refl), bind_of_Ok.
  pose proof block_claimable as Hclaim. rewrite <- Hid in Hclaim.
  pose proof block_gas as Hgas. fold n in Hgas. rewrite Hgas in *.
  rewrite (Z.mul_comm 1000 n), Z.div_mul in * by done. change (Z.of_nat (length body)) with n in Hcount, Hg, G1.
  rewrite (proj2 (Z.ltb_lt n _)) by lia. rewrite ok_or_of_Some, bind_of_Ok.
  rewrite (proj2 (claim_new_iff _ _ _ _) (conj Hclaim eq_refl)), bind_of_Ok. cbn [pt_gas pt_fees pt_counts].
  unfold checked_add. rewrite !(proj2 (Z.ltb_lt _ _)) by lia. rewrite !ok_or_of_Some, !bind_of_Ok.
  rewrite lookup_app_r by lia.
  replace (Z.to_nat (sv_slot view - 1) - length (s_credits d))%nat with 0%nat by lia.
  simpl. rewrite !neq_dec_false by done. simpl. do 2 f_equal; lia.
Qed.

(** The totals the loop ends with on the old chain. *)
Lemma old_totals : exists a b, s_validators d = [a; b] /\ v_id a = str "trial-A" /\ v_id b = str "trial-B" /\
  prefix_loop (genesis_of run_id) (px_headers px) (s_credits d) (seqZ 0 (sv_slot view))
    (mk_totals [0%Z; 0%Z] 0 0) =
  Ok (mk_totals [v_produced a; v_produced b] (s_gas_used d) (s_fees_burned d)).
Proof.
  destruct (live_view_facts _ _ _ Hv) as (_ & _ & _ & Hslot & _).
  destruct (lw_prefix _ _ _ Hv) as [Hg Hacc _ L].
  destruct (live_validators _ _ L) as (a & b & Hvs & Ha & Hb').
  exists a, b. split_and!; [done..|]. unfold PrefixContext_from_trusted_history in Hacc.
  cbv zeta in Hacc. inv_ok. rewrite Hg in *. rewrite Hslot. fold d.
  match goal with H : prefix_loop _ _ _ _ _ = Ok ?t |- _ =>
    fold d in H; rewrite H; pose proof (prefix_loop_counts _ _ _ _ _ _ H) as Hlen; destruct t as [cs gs fs] end.
  simpl in Hlen. destruct cs as [|x [|y [|? ?]]]; try done. cbn [pt_counts pt_gas pt_fees] in *.
  match goal with H : counts_differ _ _ = false |- _ => rewrite Hvs in H; simpl in H end.
  inv_ok. by subst.
Qed.

(** and on the new one. *)
Lemma new_totals : exists totals,
  prefix_loop (genesis_of run_id) chain
    (s_credits d ++ [mk_credit (sv_slot view) (sel_owner s) REWARD])
    (seqZ 0 (sv_slot view + 1)) (mk_totals [0%Z; 0%Z] 0 0) = Ok totals /\
  pt_gas totals = gas_used_total native /\ pt_fees totals = fees_burned_total native /\
  counts_differ (pt_counts totals) (s_validators d') = false.
Proof.
  destruct old_tip as (prev & _ & _ & Hlen). destruct old_totals as (a & b & Hvs & Ha & Hb' & Hloop).
  destruct (live_view_facts _ _ _ Hv) as (_ & _ & _ & Hslot & Hbound).
  destruct (lw_prefix _ _ _ Hv) as [_ _ _ L].
  destruct (vs_credit_slots _ _ (lv_valid _ _ L)) as [_ Hcl]. fold d in Hcl, Hslot, Hbound.
  destruct (stage_native_inv _ _ _ _ _ _ Hv Hn) as (Hstep & _). fold d in Hstep.
  destruct (new_slot [v_produced a; v_produced b]) as (i & Hi & Hnew).
  exists (mk_totals (alter (fun k => k + 1)%Z i [v_produced a; v_produced b])
    (s_gas_used d + 1000 * n) (s_fees_burned d + 10000 * n)).
  split_and!; [|symmetry; apply (ns_gas _ _ _ Hstep)|symmetry; apply (ns_fees _ _ _ Hstep)|].
  - replace (seqZ 0 (sv_slot view + 1)) with (seqZ 0 (sv_slot view) ++ [sv_slot view])
      by (rewrite seqZ_app by lia; f_equal; by rewrite Z.add_0_l).
    rewrite prefix_loop_app.
    assert (forall cs acc, prefix_loop (genesis_of run_id) chain (s_credits d ++ cs) (seqZ 0 (sv_slot view)) acc
      = prefix_loop (genesis_of run_id) (px_headers px) (s_credits d) (seqZ 0 (sv_slot view)) acc) as ->.
    { intros cs acc. apply prefix_loop_weaken. apply Forall_forall. intros k Hk%elem_of_seqZ. lia. }
    rewrite Hloop, bind_of_Ok. cbn [prefix_loop].
    assert (chain !! Z.to_nat (sv_slot view) = Some (mk_historical h (C1Block_hash block))) as ->.
    { unfold chain. rewrite lookup_app_r by lia.
      by replace (Z.to_nat (sv_slot view) - length (px_headers px))%nat with 0%nat by lia. }
    rewrite ok_or_of_Some, bind_of_Ok. cbn [hh_header].
    rewrite (neq_dec_false (slot h) _ (bf_slot _ _ _ _ Hf)), (fail_if_false false _ eq_refl), bind_of_Ok.
    rewrite (proj2 (Z.eqb_neq (sv_slot view) 0)) by lia.
    change (g_policy (genesis_of run_id)) with policy. by rewrite Hnew, !bind_of_Ok.
  - unfold d', next_data. cbn [s_validators]. rewrite Hvs. cbn [map]. unfold bump. rewrite Ha, Hb'.
    destruct Hi as [[-> ->]|[-> ->]]; simpl; by rewrite !neq_dec_false.
Qed.

Lemma extend_accepted :
  extend_prefix px block (closed_state policy d') =
  Ok (mk_prefix (genesis_of run_id) chain (closed_state policy d') (prefix_id (genesis_of run_id) chain)).
Proof.
  destruct old_tip as (prev & _ & _ & Hlen). destruct new_totals as (totals & Hloop & Eg & Ef & Ec).
  destruct (live_view_facts _ _ _ Hv) as (_ & _ & _ & Hslot & Hbound). fold d in Hslot, Hbound.
  unfold extend_prefix, PrefixContext_from_trusted_history. cbv zeta.
  rewrite (lp_genesis _ _ (lw_prefix _ _ _ Hv)). fold h. fold chain.
  assert (length chain = S (length (px_headers px))) as Hch by (unfold chain; rewrite length_app; simpl; lia).
  rewrite (proj2 (Z.ltb_ge _ _)) by (rewrite Hch; unfold MAX_SLOTS; lia).
  rewrite (fail_if_false false _ eq_refl), bind_of_Ok.
  rewrite (neq_dec_false (cs_policy _)) by done. rewrite (fail_if_false false _ eq_refl), bind_of_Ok.
  change (pos_slot (s_position (cs_data (closed_state policy d')))) with (pos_slot (s_position d) + 1)%Z.
  change (pos_hash (s_position (cs_data (closed_state policy d')))) with (C1Block_hash block).
  change (s_credits (cs_data (closed_state policy d'))) with
    (s_credits d ++ [mk_credit (pos_slot (s_position d) + 1) (sel_owner s) REWARD]).
  change (cs_data (closed_state policy d')) with d'.
  rewrite <- Hslot, Hloop, bind_of_Ok.
  rewrite (neq_dec_false (Z.of_nat (length chain))) by lia. rewrite (fail_if_false false _ eq_refl), bind_of_Ok.
  assert (hh_hash <$> last chain = Some (C1Block_hash block)) as Hlast
    by (unfold chain; by rewrite last_snoc).
  rewrite (neq_dec_false _ _ Hlast), (fail_if_false false _ eq_refl), bind_of_Ok.
  rewrite (bool_decide_eq_false_2 (sv_slot view = 0%Z)) by lia.
  rewrite (fail_if_false (false && _) _ eq_refl), bind_of_Ok.
  rewrite Ec, (neq_dec_false _ _ Eg), (neq_dec_false _ _ Ef). reflexivity.
Qed.

Lemma extend_live : exists px',
  extend_prefix px block (closed_state policy d') = Ok px' /\ live_prefix run_id px' /\
  px_state px' = closed_state policy d'.
Proof.
  eexists. split; [apply extend_accepted|]. split; [|done].
  pose proof extend_accepted as E. unfold extend_prefix in E.
  rewrite (lp_genesis _ _ (lw_prefix _ _ _ Hv)) in E.
  constructor; cbn [px_genesis px_headers px_state]; [done|exact E| |].
  - apply Forall_app. split; [apply (lw_prefix _ _ _ Hv)|]. repeat constructor; apply Hb.
  - eapply step_live. apply (view_step_inputs _ _ _ _ _ _ block _ Hv Hn (bf_select _ _ _ _ Hf)).
Qed.
End Step.

(** ** The producer's block *)

Section Build.
  Context {KE : Keccak} {KC : K256} (run_id : bytes).

Lemma built_block px view body native rec s :
  live_view run_id px view -> stage_native view body = Ok (native, rec) ->
  view_select view = Ok s ->
  exists block, C1Block_build view s (applied_transactions rec) (applied_outcome rec) = Ok block /\
    wf_c1_block block /\ block_fits view block (applied_outcome rec) s /\
    cb_transactions block = body.
Proof.
  intros Hv Hn Hs. destruct (live_view_facts _ _ _ Hv) as (Epx & Est & _ & Hslot & Hbound).
  destruct (stage_native_inv _ _ _ _ _ _ Hv Hn) as (_ & Hlen & Htx & Hids & Hgas & Hfee & Hw).
  pose proof (selected_row _ _ _ _ Hv Hs) as Hrow.
  pose proof (lv_rows _ _ (lp_live _ _ (lw_prefix _ _ _ Hv))) as W.
  set (n := Z.of_nat (length body)) in *. rewrite Htx.
  assert (Z.of_nat (length (body_ids body)) = n) as Hlids by (unfold body_ids; by rewrite length_map).
  destruct (ordered_transaction_root (body_ids body)) as [root|] eqn:Hroot.
  2:{ unfold ordered_transaction_root in Hroot. rewrite Hlids, (proj2 (Z.ltb_lt n U64)) in Hroot by lia. done. }
  unfold C1Block_build. cbv zeta. rewrite Hids, Hroot, ok_or_of_Some, bind_of_Ok, Hgas, Hfee.
  set (header := mk_header _ _ _ _ _ _ _ _ _ _ _ _).
  set (pd := mk_protocol_data None (10000 * n)).
  assert (claimable header (sel_owner s) n) as Hclaim.
  { constructor; simpl.
    - done.
    - unfold MAX_SLOTS, MAX_ENTRIES. lia.
    - split; [|done]. destruct Hrow as [[-> _]|[-> _]]; auto.
    - split_and!; [|done..]. destruct Hrow as [[_ ->]|[_ ->]]; done.
    - split; [lia|]. unfold pd. by rewrite (Z.mul_comm 10000 n).
    - intros E. assert (body = []) as E' by (destruct body; [done|unfold n in E; simpl in E; lia]).
      rewrite E' in Hroot. change (body_ids []) with (@nil bytes) in Hroot.
      rewrite empty_root in Hroot. congruence. }
  assert (c1_valid (mk_c1_block (mk_claim header (sel_owner s) n) pd body)) as Hvalid.
  { constructor; try done. }
  eexists. split; [apply c1_from_parts_iff; split; [exact Hvalid|reflexivity]|].
  split_and!; [| |done].
  - constructor; [|simpl; unfold in_width; lia|done|done].
    unfold wf_header, header; simpl. unfold in_width.
    assert (length root = 32%nat) as Hr.
    { unfold ordered_transaction_root in Hroot. destruct (_ <? _)%Z; [|done].
      injection Hroot as <-. apply keccak256_length. }
    assert (length (pos_hash (view_parent view)) = 32%nat) as Hp.
    { unfold view_parent, view_state. rewrite Epx. apply W. }
    split_and!; try done; try apply keccak256_length; try lia;
      destruct Hrow as [[_ ->]|[_ ->]]; done.
  - constructor; try done. unfold C1Block_match_outcome. cbn [cb_transactions cb_claim hc_header cb_protocol].
    rewrite Hids, Hgas, Hfee. by rewrite !neq_dec_false.
Qed.

(** The empty body always stages. *)
Lemma stage_native_empty px view :
  live_view run_id px view -> exists native rec, stage_native view [] = Ok (native, rec).
Proof.
  intros Hv. destruct (live_view_facts _ _ _ Hv) as (_ & Est & _).
  unfold stage_native. rewrite Est, (live_supported run_id) by apply Hv. simpl. eauto.
Qed.

(** ** Reachable prefixes *)

(** One committed block.  The block is any well-formed wire object with this
    body: the producer's own or a received one. *)
Inductive chain_step : PrefixContext -> PrefixContext -> Prop :=
| chain_block px view body native rec block st px' :
    slot_start px = Ok view -> stage_native view body = Ok (native, rec) ->
    wf_c1_block block -> cb_transactions block = body ->
    compound view block native (applied_outcome rec) = Ok st ->
    extend_prefix px block st = Ok px' -> chain_step px px'.

Lemma chain_step_live px px' :
  distinct_producers -> live_prefix run_id px -> chain_step px px' -> live_prefix run_id px'.
Proof.
  intros Hd Hp H. destruct H as [px view body native rec block st px' Hv Hn Hw Hb Hc Hx].
  assert (live_view run_id px view) as Hlv by done.
  apply (compound_spec _ _ _ _ _ _ _ _ Hlv Hn) in Hc as (s & Hf & ->).
  destruct (extend_live run_id Hd _ _ _ _ _ _ _ Hlv Hn Hf Hw Hb) as (px1 & E & Hl & _).
  rewrite Hx in E. by injection E as ->.
Qed.

Lemma chain_live px px' :
  distinct_producers -> live_prefix run_id px -> rtc chain_step px px' -> live_prefix run_id px'.
Proof. intros Hd Hp H. induction H as [|? ? ? H1 _ IH]; [done|]. apply IH. by eapply chain_step_live. Qed.
End Build.

Section Progress.
  Context {KE : Keccak} {KC : K256} (run_id : bytes).

Lemma build_step px view body native rec s :
  distinct_producers -> live_view run_id px view ->
  stage_native view body = Ok (native, rec) -> view_select view = Ok s ->
  exists block st px', C1Block_build view s (applied_transactions rec) (applied_outcome rec) = Ok block /\
    wf_c1_block block /\ compound view block native (applied_outcome rec) = Ok st /\ extend_prefix px block st = Ok px' /\
    chain_step px px' /\
    cs_data st = next_data (cs_data (px_state px)) (C1Block_hash block) native (sel_owner s).
Proof.
  intros Hd Hv Hn Hs.
  destruct (built_block _ _ _ _ _ _ _ Hv Hn Hs) as (block & Hb & Hw & Hf & Htx).
  destruct (extend_live run_id Hd _ _ _ _ _ _ _ Hv Hn Hf Hw Htx) as (px' & Hx & _).
  pose proof (proj2 (compound_spec _ _ _ _ _ _ block _ Hv Hn) (ex_intro _ s (conj Hf eq_refl))) as Hc.
  eexists block, _, px'. split_and!; [done|done|exact Hc|done| |done].
  econstructor; [apply Hv|done..|exact Hc|done].
Qed.

Lemma live_view_exists px :
  live_prefix run_id px ->
  (pos_slot (s_position (cs_data (px_state px))) < MAX_SLOTS)%Z ->
  exists view, live_view run_id px view.
Proof.
  intros Hp Hs. destruct (slot_start_accepted px (live_prefix_context _ _ Hp))
    as [[? _]|(_ & view & Hv & _)]; [lia|]. by exists view.
Qed.

(** ** Properties *)

(** C25: on a live prefix the compound transition applies exactly the blocks
    that name the planned slot and parent, come from the selected producer
    with the selected ticket and commit to the staged outcome; and then the
    result is exactly the next snapshot: new position, the staged accounts
    and totals, one reward added to the producer's vault, lock and block
    count, one retained credit and the issuance.  No re-validation of the
    result can reject it. *)
Theorem compound_iff px view body native rec block st' :
  live_view run_id px view -> stage_native view body = Ok (native, rec) ->
  compound view block native (applied_outcome rec) = Ok st' <->
  exists s, block_fits view block (applied_outcome rec) s /\
    st' = closed_state (genesis_policy run_id)
            (next_data (cs_data (px_state px)) (C1Block_hash block) native (sel_owner s)).
Proof. apply compound_spec. Qed.

(** C5: in every state reachable from genesis by committed blocks the prefix
    is an accepted chain, the snapshot is valid and supported, and ETX is
    conserved: accounts plus vaults are the initial supply plus one reward
    per slot minus ten quarks per unit of gas. *)
Theorem reachable_invariant px0 px :
  distinct_producers -> PrefixContext_initial (genesis_of run_id) = Ok px0 ->
  rtc chain_step px0 px ->
  let d := cs_data (px_state px) in
  accepted_prefix (genesis_of run_id) (px_headers px) (px_state px) /\
  valid_snapshot (genesis_policy run_id) d /\ supported (px_state px) = Ok () /\
  (sum_of acc_balance (s_accounts d) + sum_of v_vault (s_validators d) =
   1752000000000000 + 10000000 * pos_slot (s_position d) - 10 * s_gas_used d)%Z.
Proof.
  intros Hd H0 H. rewrite initial_prefix in H0. injection H0 as <-.
  pose proof (chain_live run_id _ _ Hd (initial_live_prefix run_id) H) as Hp. cbv zeta.
  pose proof (lp_live _ _ Hp) as L. pose proof (lv_valid _ _ L) as V.
  split_and!; [rewrite <- (lp_genesis _ _ Hp); by apply (live_prefix_context run_id)|done|by apply (live_supported run_id)|].
  rewrite (vs_supply _ _ V). destruct (vs_produced _ _ V) as [_ ->].
  destruct (vs_gas _ _ V) as (_ & _ & -> & _). unfold INITIAL_SUPPLY. lia.
Qed.

(** C6: the run never gets stuck before its last slot: from every reachable
    prefix short of slot 200 the next slot can be planned, the selector names
    one of the two registered producers with its ticket, the empty body
    stages, and for every body that stages the block built for the selected
    ticket is well formed, compounds and extends the prefix by one slot. *)
Theorem chain_progress px0 px :
  distinct_producers -> PrefixContext_initial (genesis_of run_id) = Ok px0 ->
  rtc chain_step px0 px ->
  (pos_slot (s_position (cs_data (px_state px))) < MAX_SLOTS)%Z ->
  exists view s, slot_start px = Ok view /\ view_select view = Ok s /\
    (sel_owner s, sel_ticket s) ∈ [(str "trial-A", 1%Z); (str "trial-B", 255%Z)] /\
    (exists r, stage_native view [] = Ok r) /\
    forall body native rec, stage_native view body = Ok (native, rec) ->
    exists block st px', C1Block_build view s (applied_transactions rec) (applied_outcome rec) = Ok block /\
      wf_c1_block block /\ compound view block native (applied_outcome rec) = Ok st /\
      extend_prefix px block st = Ok px' /\ chain_step px px' /\
      pos_slot (s_position (cs_data st)) = (pos_slot (s_position (cs_data (px_state px))) + 1)%Z.
Proof.
  intros Hd H0 H Hs. rewrite initial_prefix in H0. injection H0 as <-.
  pose proof (chain_live run_id _ _ Hd (initial_live_prefix run_id) H) as Hp.
  destruct (live_view_exists px Hp Hs) as (view & Hv). destruct (selection_exists _ _ _ Hv) as (s & Hsel).
  exists view, s. split_and!; [apply Hv|done| | |].
  - destruct (selected_row _ _ _ _ Hv Hsel) as [[-> ->]|[-> ->]]; [by left|by right; left].
  - destruct (stage_native_empty _ _ _ Hv) as (native & rec & E). eauto.
  - intros body native rec Hn.
    destruct (build_step _ _ _ _ _ _ Hd Hv Hn Hsel) as (block & st & px' & ? & ? & ? & ? & ? & E).
    exists block, st, px'. by rewrite E.
Qed.
End Progress.

(** ** The first slot of an example run *)

Lemma toy_distinct : @distinct_producers toy_keccak.
Proof. unfold distinct_producers. by_computation. Qed.

Lemma toy_initial :
  @PrefixContext_initial toy_keccak (@genesis_of toy_keccak (str "run-1")) = Ok toy_prefix.
Proof. exact (@initial_prefix toy_keccak (str "run-1")). Qed.

Lemma toy_live_view : @live_view toy_keccak (str "run-1") toy_prefix toy_view.
Proof. constructor; [exact (@initial_live_prefix toy_keccak (str "run-1"))|exact toy_view_ok]. Qed.

Lemma toy_step : exists px, @chain_step toy_keccak toy_k256 toy_prefix px.
Proof.
  destruct (@stage_native_empty toy_keccak toy_k256 _ _ _ toy_live_view) as (native & rec & Hn).
  destruct toy_selection_ok as (s & Hs & _).
  destruct (@build_step toy_keccak toy_k256 _ _ _ _ _ _ _ toy_distinct toy_live_view Hn Hs)
    as (block & st & px & _ & _ & _ & _ & H & _). eauto.
Qed.

Lemma compound_iff_witness :
  exists native rec block st,
    @compound toy_keccak toy_view block native (applied_outcome rec) = Ok st /\
    pos_slot (s_position (cs_data st)) = 1%Z.
Proof.
  destruct (@stage_native_empty toy_keccak toy_k256 _ _ _ toy_live_view) as (native & rec & Hn).
  destruct toy_selection_ok as (s & Hs & _).
  destruct (@built_block toy_keccak toy_k256 _ _ _ _ _ _ _ toy_live_view Hn Hs)
    as (block & _ & _ & Hf & _).
  exists native, rec, block. eexists. split.
  - apply (@compound_iff toy_keccak toy_k256 _ _ _ _ _ _ _ _ toy_live_view Hn).
    exists s. split; [exact Hf|reflexivity].
  - reflexivity.
Defined.

Lemma reachable_invariant_witness :
  exists px, @chain_step toy_keccak toy_k256 toy_prefix px /\
    @supported (px_state px) = Ok ().
Proof.
  destruct toy_step as (px & H). exists px. split; [exact H|].
  apply (@reachable_invariant toy_keccak toy_k256 (str "run-1") toy_prefix px toy_distinct toy_initial).
  econstructor; [exact H|constructor].
Defined.

Lemma chain_progress_witness :
  exists view s block px, @slot_start toy_keccak toy_prefix = Ok view /\ @view_select toy_keccak view = Ok s /\
    hc_producer (cb_claim block) = sel_owner s /\ @chain_step toy_keccak toy_k256 toy_prefix px.
Proof.
  destruct (@chain_progress toy_keccak toy_k256 (str "run-1") toy_prefix toy_prefix toy_distinct toy_initial)
    as (view & s & Hv & Hs & _ & [[native rec] Hr] & Hbody).
  - constructor.
  - reflexivity.
  - destruct (Hbody [] native rec Hr) as (block & st & px & Hb & _ & _ & _ & Hstep & _).
    exists view, s, block, px. split; [exact Hv|]. split; [exact Hs|]. split; [|exact Hstep].
    unfold C1Block_build in Hb. apply bind_Ok in Hb as (root & _ & Hb). cbv zeta in Hb.
    apply c1_from_parts_iff in Hb as [_ ->]. reflexivity.
Defined.
