(* ===== verification/PoashPeer.v ===== *)
(** * The peer-3 protocol (src/src/native_poash/peer.rs)

    The bounded message format and its framed transport.  A socket is the
    sequence of what its reads deliver (chunks of any size, an I/O error, an
    expired deadline) and of what its writes accept.

    The theorems show that the message codec is a bijection for one genesis,
    that no frame of another network is accepted, and that framing does not
    depend on how the transport splits the bytes. *)

From S2P Require Import Prelude Codec Crypto BlockCommitment NativeTransaction PoashBase.
From S2P Require Import PoashState PoashGenesis PoashHistory PoashApplication.

(** [b"ETXC1P3\0"] *)
Definition MAGIC : bytes := str "ETXC1P3" ++ [x00].
Definition HEADER_BYTES : nat := 128.

Module PeerKind.
Inductive peer_kind : Type := Status | Tip | Push | Get | Envelope | Ack | Reject.
End PeerKind.
Abbreviation peer_kind := PeerKind.peer_kind.

#[export] Instance peer_kind_eq_dec : EqDecision peer_kind.
Proof. solve_decision. Defined.

(** [kind as u8] *)
Definition kind_code (k : peer_kind) : Z :=
  match k with
  | PeerKind.Status => 1 | PeerKind.Tip => 2 | PeerKind.Push => 3 | PeerKind.Get => 4
  | PeerKind.Envelope => 5 | PeerKind.Ack => 6 | PeerKind.Reject => 7
  end.

Definition kind_decode (n : Z) : result string peer_kind :=
  if (n =? 1)%Z then Ok PeerKind.Status else if (n =? 2)%Z then Ok PeerKind.Tip
  else if (n =? 3)%Z then Ok PeerKind.Push else if (n =? 4)%Z then Ok PeerKind.Get
  else if (n =? 5)%Z then Ok PeerKind.Envelope else if (n =? 6)%Z then Ok PeerKind.Ack
  else if (n =? 7)%Z then Ok PeerKind.Reject else Err "unknown C1 peer kind"%string.

Definition kind_check (k : peer_kind) (n : Z) : bool :=
  match k with
  | PeerKind.Status => (n =? 0)%Z
  | PeerKind.Tip => (n =? 72)%Z
  | PeerKind.Push | PeerKind.Envelope => ((402 <=? n) && (n <=? C1_MAX_ENVELOPE_BYTES))%Z
  | PeerKind.Get => (n =? 8)%Z
  | PeerKind.Ack => (n =? 73)%Z
  | PeerKind.Reject => (n =? 1)%Z
  end.

Record Message : Type := mk_message {
  msg_kind : peer_kind;
  msg_request : Z;
  msg_body : bytes
}.

#[export] Instance Message_eq_dec : EqDecision Message.
Proof. solve_decision. Defined.

(** [body[i]] where the width was checked. *)
Definition byte_at (i : nat) (bs : bytes) : Z := byte_val (nth i bs x00).

Definition Message_new (kind : peer_kind) (request : Z) (body : bytes) : result string Message :=
  fail_if ((request ==? 0)%Z || negb (kind_check kind (Z.of_nat (length body))))
    "C1 message width/request"%string;;
  (if (kind ==? PeerKind.Get) || (kind ==? PeerKind.Tip) || (kind ==? PeerKind.Ack) then
     let slot := be_val (slice 8 0 body) in
     fail_if ((MAX_SLOTS <? slot)%Z || ((kind !=? PeerKind.Tip) && (slot ==? 0)%Z))
       "C1 message slot bound"%string
   else Ok ());;
  fail_if ((kind ==? PeerKind.Ack) && (1 <? byte_at 72 body)%Z) "C1 acknowledgement flag"%string;;
  fail_if ((kind ==? PeerKind.Reject) &&
           negb ((1 <=? byte_at 0 body) && (byte_at 0 body <=? 4))%Z) "C1 rejection code"%string;;
  Ok (mk_message kind request body).

(** The 128-byte header, filled into a zeroed buffer. *)
Definition header_bytes (g : Genesis) (kind : peer_kind) (request len : Z) : bytes :=
  let out := zeros HEADER_BYTES in
  let out := copy_at 0 MAGIC out in
  let out := copy_at 8 (be_bytes 1 3) out in
  let out := copy_at 9 (be_bytes 1 (kind_code kind)) out in
  let out := copy_at 12 (be_bytes 4 HEADER_PROFILE) out in
  let out := copy_at 16 (be_bytes 4 AUTH_RULES) out in
  let out := copy_at 20 (be_bytes 4 POASH_RULES) out in
  let out := copy_at 24 (be_bytes 8 CHAIN_ID) out in
  let out := copy_at 32 (pol_network (g_policy g)) out in
  let out := copy_at 64 (be_bytes 8 request) out in
  copy_at 72 (be_bytes 4 len) out.

Definition Message_bytes (m : Message) (g : Genesis) : bytes :=
  header_bytes g (msg_kind m) (msg_request m) (Z.of_nat (length (msg_body m))) ++ msg_body m.

Definition header (h : bytes) (g : Genesis) : result string (peer_kind * Z * Z) :=
  fail_if ((length h !=? HEADER_BYTES) || (slice 8 0 h !=? MAGIC) || (byte_at 8 h !=? 3)%Z ||
           (slice 2 10 h !=? zeros 2) || (drop 76 h !=? zeros 52) ||
           (slice 4 12 h !=? be_bytes 4 HEADER_PROFILE) || (slice 4 16 h !=? be_bytes 4 AUTH_RULES) ||
           (slice 4 20 h !=? be_bytes 4 POASH_RULES) || (slice 8 24 h !=? be_bytes 8 CHAIN_ID) ||
           (slice 32 32 h !=? pol_network (g_policy g))) "C1 peer context/header"%string;;
  kind ← kind_decode (byte_at 9 h);
  let request := be_val (slice 8 64 h) in
  let len := be_val (slice 4 72 h) in
  fail_if ((request ==? 0)%Z || negb (kind_check kind len)) "C1 peer declared body bound"%string;;
  Ok (kind, request, len).


(** ** Transport *)

(** What one [read] delivers, or why it does not. *)
Inductive read_event : Type :=
| Chunk (bs : bytes)
| ReadFailed (e : string)
| ReadDeadline.

(** [read_exact]: the loop over [read]; an empty chunk is the end of the
    connection.  A chunk longer than the buffer stays in the socket. *)
Fixpoint read_exact (need : nat) (s : list read_event) : result string (bytes * list read_event) :=
  match need, s with
  | O, _ => Ok ([], s)
  | _, [] => Err "C1 truncated connection"%string
  | _, ReadDeadline :: _ => Err "C1 whole-frame I/O deadline"%string
  | _, ReadFailed e :: _ => Err e
  | _, Chunk [] :: _ => Err "C1 truncated connection"%string
  | _, Chunk c :: s' =>
      if (need <? length c)%nat then Ok (take need c, Chunk (drop need c) :: s')
      else '(rest, s'') ← read_exact (need - length c) s'; Ok (c ++ rest, s'')
  end.

Definition peer_read (s : list read_event) (g : Genesis) :
    result string (Message * list read_event) :=
  '(h, s) ← read_exact HEADER_BYTES s;
  '(kind, request, len) ← header h g;
  '(body, s) ← read_exact (Z.to_nat len) s;
  m ← Message_new kind request body;
  Ok (m, s).

(** What one [write] accepts of the remaining bytes. *)
Inductive write_event : Type :=
| Accepted (n : nat)
| WriteFailed (e : string)
| WriteDeadline.

(** [write]: the bytes handed to the socket, and how the loop ended. *)
Fixpoint write_all (bs : bytes) (s : list write_event) : bytes * result string () :=
  match bs, s with
  | [], _ => ([], Ok ())
  | _, [] => ([], Err "C1 closed writer"%string)
  | _, WriteDeadline :: _ => ([], Err "C1 whole-frame I/O deadline"%string)
  | _, WriteFailed e :: _ => ([], Err e)
  | _, Accepted n :: s' =>
      if (n =? 0)%nat then ([], Err "C1 closed writer"%string)
      else let '(sent, r) := write_all (drop n bs) s' in (take n bs ++ sent, r)
  end.

(** One request and its reply on a loopback connection; [connect] is how
    opening it ended. *)
Definition exchange (loopback : bool) (connect : result string ()) (g : Genesis) (m : Message)
    (ws : list write_event) (rs : list read_event) : result string Message :=
  fail_if (negb loopback) "C1 experiment requires explicit loopback peer"%string;;
  connect;;
  (write_all (Message_bytes m g) ws).2;;
  '(reply, _) ← peer_read rs g;
  fail_if (msg_request reply !=? msg_request m) "C1 response correlation"%string;;
  Ok reply.

(** ** The header as twelve fields *)

Lemma slices_concat pre parts :
  slices (map length parts) (length pre) (pre ++ concat parts) = parts.
Proof.
  revert pre. induction parts as [|a parts IH]; intros pre; [done|]. cbn [map slices concat]. f_equal.
  - rewrite slice_app_skip, Nat.sub_diag by done. by apply slice_app_here.
  - specialize (IH (pre ++ a)). by rewrite length_app, <- app_assoc in IH.
Qed.

Definition header_parts (g : Genesis) (kind : peer_kind) (request len : Z) : list bytes :=
  [MAGIC; be_bytes 1 3; be_bytes 1 (kind_code kind); zeros 2; be_bytes 4 HEADER_PROFILE;
   be_bytes 4 AUTH_RULES; be_bytes 4 POASH_RULES; be_bytes 8 CHAIN_ID; pol_network (g_policy g);
   be_bytes 8 request; be_bytes 4 len; zeros 52].
Definition header_widths : list nat := [8; 1; 1; 2; 4; 4; 4; 8; 32; 8; 4; 52]%nat.

Lemma zeros_app m k : zeros (m + k) = zeros m ++ zeros k.
Proof. unfold zeros. apply replicate_add. Qed.

Lemma header_bytes_layout g kind request len :
  length (pol_network (g_policy g)) = 32%nat ->
  header_bytes g kind request len = concat (header_parts g kind request len).
Proof.
  intros Hn. unfold header_bytes. cbv zeta. change (zeros HEADER_BYTES) with ([] ++ zeros 128).
  do 3 (rewrite copy_at_fill by (rewrite ?length_app, ?length_be_bytes; simpl; lia)).
  rewrite !length_be_bytes. change (length MAGIC) with 8%nat. change (128 - 8 - 1 - 1)%nat with (2 + 116)%nat.
  rewrite zeros_app, app_assoc.
  do 7 (rewrite copy_at_fill
    by (rewrite ?length_app, ?length_be_bytes, ?Hn, ?length_zeros; simpl; lia)).
  rewrite !length_be_bytes, Hn. unfold header_parts. cbn [concat]. rewrite <- !app_assoc, app_nil_r.
  reflexivity.
Qed.

Lemma header_parts_lengths g kind request len :
  length (pol_network (g_policy g)) = 32%nat ->
  map length (header_parts g kind request len) = header_widths.
Proof.
  intros Hn. unfold header_parts. cbn [map]. by rewrite !length_be_bytes, Hn, !length_zeros.
Qed.

Lemma length_header g kind request len :
  length (pol_network (g_policy g)) = 32%nat ->
  length (header_bytes g kind request len) = HEADER_BYTES.
Proof.
  intros Hn. rewrite header_bytes_layout by done. unfold header_parts. cbn [concat].
  rewrite !length_app, !length_be_bytes, Hn, !length_zeros. done.
Qed.

Lemma be_val_one b : be_val [b] = byte_val b.
Proof.
  rewrite be_val_cons. assert (be_val [] = 0%Z) as -> by (pose proof (be_val_range []); simpl in *; lia).
  simpl length. rewrite Z.pow_0_r. lia.
Qed.

Lemma byte_at_slice i h : (i < length h)%nat -> slice 1 i h = be_bytes 1 (byte_at i h).
Proof.
  intros Hi. unfold byte_at. apply be_val_inj; [rewrite length_slice, length_be_bytes; lia|].
  rewrite (be_val_bytes_width 1 U8) by (done || apply byte_val_range).
  unfold slice. destruct (drop i h) as [|b r] eqn:E.
  { apply (f_equal length) in E. rewrite length_drop in E. simpl in E. lia. }
  assert (h !! i = Some b) as Hb.
  { rewrite <- (Nat.add_0_r i), <- lookup_drop, E. done. }
  rewrite nth_lookup, Hb. change (take 1 (b :: r)) with [b]. apply be_val_one.
Qed.

Lemma kind_decode_iff n k : kind_decode n = Ok k <-> n = kind_code k.
Proof.
  unfold kind_decode. split.
  - repeat case_match; intros; simplify_eq; simpl; lia.
  - intros ->. by destruct k.
Qed.

Lemma cons_eq {A} (a b : A) l m : a :: l = b :: m -> a = b /\ l = m.
Proof. by intros [= -> ->]. Qed.

(** The header decoder inverts the header writer. *)
Lemma header_iff h g kind request len :
  length (pol_network (g_policy g)) = 32%nat ->
  header h g = Ok (kind, request, len) <->
  h = header_bytes g kind request len /\ in_width U64 request /\ in_width U32 len /\
  request <> 0%Z /\ kind_check kind len = true.
Proof.
  intros Hn. unfold header. cbv zeta. split.
  - intros H. apply bind_Ok in H as ([] & Hctx & H). apply bind_Ok in H as (k & Hk & H).
    apply bind_Ok in H as ([] & Hlen & H). injection H as -> <- <-. inv_ok. subst.
    apply kind_decode_iff in Hk.
    assert (length h = 128%nat) as Hl by done.
    split; [|split_and!; [by eapply be_val_width; [|apply length_slice; lia]..|done|done]].
    rewrite header_bytes_layout by done.
    rewrite <- (concat_slices_all header_widths h) at 1 by done. f_equal.
    unfold header_widths, header_parts. cbn [slices Nat.add].
    rewrite !be_bytes_val by (apply length_slice; lia).
    rewrite (byte_at_slice 8), (byte_at_slice 9) by lia. rewrite Hk.
    repeat f_equal; try congruence.
    unfold slice. by replace (drop 76 h) with (zeros 52).
  - intros (-> & Hreq & Hlen & Hr & Hc).
    pose proof (length_header g kind request len Hn) as Hl.
    pose proof (slices_concat [] (header_parts g kind request len)) as Hs.
    rewrite header_parts_lengths, app_nil_l, <- header_bytes_layout in Hs by done.
    set (h := header_bytes g kind request len) in *.
    unfold header_widths, header_parts in Hs. cbn [slices Nat.add length] in Hs.
    repeat (apply cons_eq in Hs as [? Hs]). clear Hs.
    assert (forall i, (i < 128)%nat -> byte_at i h = be_val (slice 1 i h)) as Hb.
    { intros i Hi. rewrite byte_at_slice by (unfold HEADER_BYTES in Hl; lia).
      by rewrite (be_val_bytes_width 1 U8) by (done || apply byte_val_range). }
    rewrite !Hb by lia.
    replace (drop 76 h) with (slice 52 76 h)
      by (unfold slice; apply take_ge; rewrite length_drop, Hl; unfold HEADER_BYTES; lia).
    rewrite H0, H1, H8, H9, (be_val_bytes_width 8 U64), (be_val_bytes_width 4 U32) by done.
    rewrite (be_val_bytes_width 1 U8 3), (be_val_bytes_width 1 U8 (kind_code kind))
      by (done || by destruct kind).
    rewrite Hl, H, H2, H3, H4, H5, H6, H7, H10, !neq_dec_false, (proj2 (kind_decode_iff _ _) eq_refl) by done.
    cbn [orb]. rewrite (fail_if_false false _ eq_refl), !bind_of_Ok, bool_decide_eq_false_2, Hc by done. done.
Qed.

(** ** Messages *)

(** A message [Message_new] would build. *)
Definition message_ok (m : Message) : Prop :=
  Message_new (msg_kind m) (msg_request m) (msg_body m) = Ok m /\ in_width U64 (msg_request m).

Lemma Message_new_fields kind request body m :
  Message_new kind request body = Ok m ->
  m = mk_message kind request body /\ request <> 0%Z /\
  kind_check kind (Z.of_nat (length body)) = true.
Proof.
  unfold Message_new. cbv zeta. intros H. apply bind_Ok in H as ([] & Hw & H).
  apply bind_Ok in H as (u & _ & H). apply bind_Ok in H as ([] & _ & H).
  apply bind_Ok in H as ([] & _ & H). injection H as <-. inv_ok. done.
Qed.

Lemma kind_check_bound k n : kind_check k n = true -> (0 <= n <= C1_MAX_ENVELOPE_BYTES)%Z.
Proof. unfold kind_check. change C1_MAX_ENVELOPE_BYTES with 3650%Z. destruct k; lia. Qed.

Lemma message_header m g :
  length (pol_network (g_policy g)) = 32%nat -> message_ok m ->
  header (header_bytes g (msg_kind m) (msg_request m) (Z.of_nat (length (msg_body m)))) g =
  Ok (msg_kind m, msg_request m, Z.of_nat (length (msg_body m))).
Proof.
  intros Hn [Hm Hw]. apply Message_new_fields in Hm as (_ & Hr & Hc). apply header_iff; [done|].
  pose proof (kind_check_bound _ _ Hc) as Hb. split_and!; try done.
  unfold in_width. change C1_MAX_ENVELOPE_BYTES with 3650%Z in Hb. lia.
Qed.


(** ** Framing *)

(** The bytes a socket delivers before it fails or closes. *)
Fixpoint delivered (s : list read_event) : bytes :=
  match s with
  | Chunk (b :: c) :: s' => (b :: c) ++ delivered s'
  | _ => []
  end.

Lemma read_exact_ok need s bs s' :
  read_exact need s = Ok (bs, s') -> length bs = need /\ delivered s = bs ++ delivered s'.
Proof.
  revert s bs s'. induction need as [need IH] using lt_wf_ind. intros s bs s'.
  destruct need as [|need]; [by destruct s; intros [= <- <-]|].
  destruct s as [|[[|b c]| |] s]; try done. cbn [read_exact].
  destruct (Nat.ltb_spec (S need) (length (b :: c))) as [Hlt|Hge].
  - intros [= <- <-]. cbn [take drop delivered]. rewrite length_cons in *.
    split; [simpl; rewrite length_take; lia|]. destruct (drop need c) as [|x r] eqn:E.
    { apply (f_equal length) in E. rewrite length_drop in E. simpl in E. lia. }
    rewrite <- (take_drop need c) at 1. rewrite E. cbn [app]. by rewrite <- app_assoc.
  - intros H. apply bind_Ok in H as ([rest s''] & Hr & H). injection H as <- <-.
    apply IH in Hr as [Hl Hd]; [|simpl; lia]. split; [simpl in *; rewrite length_app; lia|].
    cbn [delivered]. by rewrite Hd, app_assoc.
Qed.

Lemma read_exact_complete need s bs tl :
  length bs = need -> delivered s = bs ++ tl ->
  exists s', read_exact need s = Ok (bs, s') /\ delivered s' = tl.
Proof.
  revert s bs. induction need as [need IH] using lt_wf_ind. intros s bs Hl Hd.
  destruct need as [|need].
  { destruct bs; [|done]. exists s. by destruct s. }
  destruct bs as [|b bs]; [done|]. destruct s as [|[[|x c]| |] s]; try done.
  cbn [read_exact delivered] in *. cbn [app] in Hd. injection Hd as -> Hd.
  destruct (Nat.ltb_spec (S need) (length (b :: c))) as [Hlt|Hge]; rewrite length_cons in *.
  - assert (take need c = bs) as Ht.
    { rewrite <- (take_app_le c (delivered s)), Hd by lia. apply take_app_length'. lia. }
    eexists. cbn [take drop]. rewrite Ht. split; [done|].
    rewrite <- (take_drop need c), Ht, <- app_assoc in Hd. apply app_inv_head in Hd.
    destruct (drop need c) eqn:E; [|done]. apply (f_equal length) in E. rewrite length_drop in E.
    simpl in E. lia.
  - destruct (IH (S need - S (length c)) ltac:(lia) s (drop (length c) bs)) as (s' & Hs & Ht).
    { rewrite length_drop. lia. }
    { apply (f_equal (drop (length c))) in Hd. rewrite drop_app_length, drop_app_le in Hd by lia. done. }
    exists s'. rewrite Hs. split; [|done]. cbn. do 3 f_equal.
    apply (f_equal (take (length c))) in Hd. rewrite take_app_length, take_app_le in Hd by lia.
    rewrite Hd at 1. apply take_drop.
Qed.

Lemma peer_read_ok s g m s' :
  length (pol_network (g_policy g)) = 32%nat -> peer_read s g = Ok (m, s') ->
  message_ok m /\ delivered s = Message_bytes m g ++ delivered s'.
Proof.
  intros Hn H. unfold peer_read in H.
  apply bind_Ok in H as ([h s1] & Hh & H). apply bind_Ok in H as ([[k r] len] & Hd & H).
  apply bind_Ok in H as ([body s2] & Hb & H). apply bind_Ok in H as (m' & Hm & H).
  injection H as -> ->. apply read_exact_ok in Hh as [_ Hh]. apply read_exact_ok in Hb as [Hl Hb].
  apply header_iff in Hd as (-> & Hw & Hlen & _); [|done].
  pose proof Hm as (-> & _ & _)%Message_new_fields. split; [split; done|].
  rewrite Hh, Hb, app_assoc. f_equal. unfold Message_bytes. cbn [msg_kind msg_request msg_body].
  do 2 f_equal. unfold in_width in Hlen. lia.
Qed.

Lemma peer_read_complete s g m tl :
  length (pol_network (g_policy g)) = 32%nat -> message_ok m -> delivered s = Message_bytes m g ++ tl ->
  exists s', peer_read s g = Ok (m, s') /\ delivered s' = tl.
Proof.
  intros Hn Hm Hd. unfold Message_bytes in Hd. rewrite <- app_assoc in Hd.
  destruct (read_exact_complete HEADER_BYTES _ _ _ (length_header _ _ _ _ Hn) Hd) as (s1 & Hs1 & Hd1).
  destruct (read_exact_complete _ _ _ _ eq_refl Hd1) as (s2 & Hs2 & Hd2).
  exists s2. unfold peer_read. rewrite Hs1, bind_of_Ok, message_header, bind_of_Ok, Nat2Z.id by done.
  rewrite Hs2, bind_of_Ok. destruct Hm as [-> _]. done.
Qed.

(** The writer hands the socket a prefix of the frame, all of it on success. *)
Lemma write_all_sent bs ws :
  (exists rest, bs = (write_all bs ws).1 ++ rest) /\
  ((write_all bs ws).2 = Ok () -> (write_all bs ws).1 = bs).
Proof.
  revert bs. induction ws as [|w ws IH]; intros [|b bs]; try (split; [by eexists|done]).
  destruct w as [n| |]; try (split; [by eexists|done]). cbn [write_all].
  destruct (n =? 0)%nat; [split; [by eexists|done]|].
  specialize (IH (drop n (b :: bs))). destruct (write_all (drop n (b :: bs)) ws) as [sent r].
  cbn [fst snd] in *. destruct IH as [[rest Hr] Hok]. split.
  - exists rest. by rewrite <- app_assoc, <- Hr, take_drop.
  - intros E. by rewrite Hok, take_drop.
Qed.


(** Framing does not depend on how the transport splits the bytes.  When
    the writer succeeded, a reader whose socket delivers what was sent followed
    by [tl], in chunks of any size, reads exactly that message and leaves [tl];
    and whatever any socket makes it accept was a whole well-formed frame of this
    network, consumed exactly. *)
Theorem peer_framing g m ws rs tl :
  length (pol_network (g_policy g)) = 32%nat -> message_ok m ->
  (write_all (Message_bytes m g) ws).2 = Ok () ->
  delivered rs = (write_all (Message_bytes m g) ws).1 ++ tl ->
  (exists rs', peer_read rs g = Ok (m, rs') /\ delivered rs' = tl) /\
  (forall s m' s', peer_read s g = Ok (m', s') ->
     message_ok m' /\ delivered s = Message_bytes m' g ++ delivered s').
Proof.
  intros Hn Hm Hw Hd. rewrite (proj2 (write_all_sent _ _) Hw) in Hd. split.
  - by apply peer_read_complete.
  - intros s m' s'. by apply peer_read_ok.
Qed.

(** ** Witnesses *)

Definition toy_message : Message := mk_message PeerKind.Get 7 (be_bytes 8 5).
Definition toy_frame : bytes := Message_bytes toy_message toy_genesis.
Definition toy_writes : list write_event := [Accepted 100; Accepted 1; Accepted 200].
Definition toy_reads : list read_event :=
  [Chunk (take 3 toy_frame); Chunk (drop 3 (take 130 toy_frame)); Chunk (drop 130 toy_frame ++ [x01])].


Lemma peer_framing_witness :
  exists rs', peer_read toy_reads toy_genesis = Ok (toy_message, rs') /\ delivered rs' = [x01].
Proof.
  apply (peer_framing toy_genesis toy_message toy_writes toy_reads [x01]);
    [by vm_compute|split; [by vm_compute|by_computation]|by vm_compute|by vm_compute].
Defined.
