(* ===== verification/PoashSnapshot.v ===== *)
(** * The owner's snapshot (src/src/native_poash/storage.rs, [Snapshot])

    The audited projection the schema-4 owner keeps: current state, appended
    records with their original evidence, and the two membership indexes.

    [audited] is the predicate of snapshots built by admitting, staging and
    compounding one record after another.  The theorems show that the prefix
    of an audited snapshot is always accepted again and that the duplicate
    checks of the indexes are never the reason a block fails. *)

From S2P Require Import Prelude Codec Crypto BlockCommitment NativeTransaction.
From S2P Require Import NativeTransfer NativeBlock BlockAuthentication LeaderSelection.
From S2P Require Import PoashBase PoashState PoashSelection PoashGenesis PoashClaim.
From S2P Require Import PoashHistory PoashAdmission PoashApplication PoashCompound PoashChain.

Record Membership : Type := mk_membership {
  mb_position : Position;
  mb_index : Z
}.

#[export] Instance Membership_eq_dec : EqDecision Membership.
Proof. solve_decision. Defined.

(** [Record] of the source. *)
Record BlockRecord : Type := mk_record {
  br_proof : AuthenticatedEnvelope;
  br_outcome : BodyOutcome;
  br_state : ClosedState
}.

#[export] Instance BlockRecord_eq_dec : EqDecision BlockRecord.
Proof. solve_decision. Defined.

Record Snapshot : Type := mk_snap {
  sn_state : ClosedState;
  sn_records : list BlockRecord;
  sn_transactions : gmap bytes Membership;
  sn_sender_nonces : gmap (bytes * Z) Membership
}.

#[export] Instance Snapshot_eq_dec : EqDecision Snapshot.
Proof. solve_decision. Defined.

Definition br_block (r : BlockRecord) : C1Block := ce_block (ae_envelope (br_proof r)).
Definition br_position (r : BlockRecord) : Position := s_position (cs_data (br_state r)).

(** [Snapshot::tip] *)
Definition tip (s : Snapshot) : Position := s_position (cs_data (sn_state s)).

Definition Snapshot_initial (g : Genesis) : Snapshot := mk_snap (g_initial g) [] ∅ ∅.

(** [(b[46..66], u64::from_be_bytes(b[66..74]))] *)
Definition sender_nonce (b : bytes) : bytes * Z := (slice 20 46 b, be_val (slice 8 66 b)).

(** [Option::is_some], [contains_key] *)
Definition contains {A} (o : option A) : bool := if o is Some _ then true else false.

(** The body loop of [insert]: both maps must not know the entry. *)
Fixpoint index_rows (position : Position) (i : nat) (rows : list (bytes * bytes))
    (txs : gmap bytes Membership) (nonces : gmap (bytes * Z) Membership) :
    result app_error (gmap bytes Membership * gmap (bytes * Z) Membership) :=
  match rows with
  | [] => Ok (txs, nonces)
  | (b, id) :: rest =>
      let m := mk_membership position (Z.of_nat i) in
      fail_if (contains (txs !! id) || contains (nonces !! sender_nonce b))
        (AppError.DuplicateTransaction i);;
      index_rows position (S i) rest (<[id := m]> txs) (<[sender_nonce b := m]> nonces)
  end.

Section Snapshots.
  Context `{KE : Keccak} `{KC : K256}.

(** The headers of the records, each with its recomputed hash. *)
Fixpoint record_headers (rs : list BlockRecord) : result app_error (list HistoricalHeader) :=
  match rs with
  | [] => Ok []
  | r :: rest =>
      h ← protocol (HistoricalHeader_new (hc_header (cb_claim (br_block r))) (C1Block_hash (br_block r)));
      hs ← record_headers rest; Ok (h :: hs)
  end.

Definition Snapshot_prefix (s : Snapshot) (g : Genesis) : result app_error PrefixContext :=
  anchor ← protocol (HistoricalHeader_new genesis_anchor (BlockHeader_hash genesis_anchor));
  headers ← record_headers (sn_records s);
  protocol (PrefixContext_from_trusted_history g (anchor :: headers) (sn_state s)).

(** The rows of the body paired with their ids. *)
Definition body_pairs (b : C1Block) (o : BodyOutcome) : list (bytes * bytes) :=
  zip (cb_transactions b) (transaction_ids o).

(** A failed [insert] leaves its receiver half-updated; every caller works on
    a copy and drops it with the error, so the error carries no snapshot. *)
Definition Snapshot_insert (s : Snapshot) (r : BlockRecord) : result app_error Snapshot :=
  let b := br_block r in
  let position := br_position r in
  next ← ok_or (checked_add U64 (pos_slot (tip s)) 1) (AppError.Protocol PoashError.Overflow);
  fail_if ((pos_slot position !=? next) || (parent_hash (hc_header (cb_claim b)) !=? pos_hash (tip s)) ||
           (pos_hash position !=? C1Block_hash b)) (AppError.Invalid "record successor");;
  '(txs, nonces) ← index_rows position 0 (body_pairs b (br_outcome r)) (sn_transactions s)
                     (sn_sender_nonces s);
  Ok (mk_snap (br_state r) (sn_records s ++ [r]) txs nonces).

(** The two sets of [check_transactions] beside the snapshot's maps. *)
Fixpoint check_rows (s : Snapshot) (i : nat) (rows : list (bytes * bytes)) (ids : gset bytes)
    (nonces : gset (bytes * Z)) : result app_error () :=
  match rows with
  | [] => Ok ()
  | (b, id) :: rest =>
      let nonce := sender_nonce b in
      fail_if (contains (sn_transactions s !! id) || bool_decide (id ∈ ids) ||
               contains (sn_sender_nonces s !! nonce) || bool_decide (nonce ∈ nonces))
        (AppError.DuplicateTransaction i);;
      check_rows s (S i) rest ({[id]} ∪ ids) ({[nonce]} ∪ nonces)
  end.

Definition check_transactions (s : Snapshot) (b : C1Block) (o : BodyOutcome) : result app_error () :=
  check_rows s 0 (body_pairs b o) ∅ ∅.

(** [snapshot.prefix(g)?.slot_start()?] *)
Definition slot_view (s : Snapshot) (g : Genesis) : result app_error SlotStartView :=
  px ← Snapshot_prefix s g; protocol (slot_start px).

(** ** Audited snapshots *)

(** [r] is what admission, staging and the compound transition produce from
    [s]: the steps of the receiver, of the producer and of the replay. *)
Inductive appends (g : Genesis) (s : Snapshot) : BlockRecord -> Prop :=
| appends_intro view proof p native applied st :
    slot_view s g = Ok view ->
    wf_c1_block (ce_block (ae_envelope proof)) -> length (ce_signature (ae_envelope proof)) = 65%nat ->
    C1Envelope_authenticate (ae_envelope proof) g = Ok proof ->
    plan view (ae_header proof) = Ok p ->
    stage_native view (cb_transactions (ce_block (ae_envelope proof))) = Ok (native, applied) ->
    compound view (ce_block (ae_envelope proof)) native (applied_outcome applied) = Ok st ->
    appends g s (mk_record proof (applied_outcome applied) st).

Inductive audited (g : Genesis) : Snapshot -> Prop :=
| audited_initial : audited g (Snapshot_initial g)
| audited_append s r s' :
    audited g s -> appends g s r -> Snapshot_insert s r = Ok s' -> audited g s'.

(** ** The prefix of a snapshot *)

Definition header_of (r : BlockRecord) : HistoricalHeader :=
  mk_historical (hc_header (cb_claim (br_block r))) (C1Block_hash (br_block r)).
Definition anchor_header : HistoricalHeader :=
  mk_historical genesis_anchor (BlockHeader_hash genesis_anchor).

Lemma protocol_of_Ok {A} (a : A) : protocol (Ok a) = Ok a.
Proof. done. Qed.

Lemma historical_new_own h :
  protocol_version h = HEADER_PROFILE -> chain_id h = CHAIN_ID -> block_kind h = Validator ->
  (slot h <= MAX_SLOTS)%Z ->
  HistoricalHeader_new h (BlockHeader_hash h) = Ok (mk_historical h (BlockHeader_hash h)).
Proof.
  intros Hp Hc Hk Hs. unfold HistoricalHeader_new.
  by rewrite !neq_dec_false, (proj2 (Z.ltb_ge _ _)) by done.
Qed.

Lemma record_headers_ok rs :
  Forall (fun r => c1_valid (br_block r)) rs -> record_headers rs = Ok (map header_of rs).
Proof.
  induction 1 as [|r rs Hr _ IH]; [done|]. cbn [record_headers map].
  destruct (cv_claim _ Hr) as [(? & ? & ?) [[_ ?] _] _ _ _ _].
  unfold C1Block_hash, HeaderClaim_hash. rewrite historical_new_own by done.
  by rewrite protocol_of_Ok, bind_of_Ok, IH, bind_of_Ok.
Qed.

Lemma snapshot_prefix_eq s g :
  Forall (fun r => c1_valid (br_block r)) (sn_records s) ->
  Snapshot_prefix s g = protocol (PrefixContext_from_trusted_history g
    (anchor_header :: map header_of (sn_records s)) (sn_state s)).
Proof.
  intros Hr. unfold Snapshot_prefix. rewrite historical_new_own by done.
  by rewrite protocol_of_Ok, bind_of_Ok, record_headers_ok, bind_of_Ok.
Qed.

Lemma insert_shape s r s' :
  Snapshot_insert s r = Ok s' ->
  sn_state s' = br_state r /\ sn_records s' = sn_records s ++ [r] /\
  index_rows (br_position r) 0 (body_pairs (br_block r) (br_outcome r)) (sn_transactions s)
    (sn_sender_nonces s) = Ok (sn_transactions s', sn_sender_nonces s').
Proof.
  unfold Snapshot_insert. cbv zeta. intros H. apply bind_Ok in H as (n & _ & H).
  apply bind_Ok in H as ([] & _ & H). apply bind_Ok in H as ([txs nonces] & Hi & H).
  by injection H as <-.
Qed.

Lemma appends_valid g s r : appends g s r -> c1_valid (br_block r).
Proof. intros []. by apply wb_valid. Qed.

Lemma audited_valid g s :
  audited g s -> Forall (fun r => c1_valid (br_block r)) (sn_records s).
Proof.
  induction 1 as [|s r s' _ IH Ha Hi]; [constructor|].
  apply insert_shape in Hi as (_ & -> & _). apply Forall_app. split; [done|].
  constructor; [|constructor]. by eapply appends_valid.
Qed.
End Snapshots.

(** ** Audited snapshots of a run *)

Section Run.
  Context {KE : Keccak} {KC : K256} (run_id : bytes) (Hdist : distinct_producers).

Let g := genesis_of run_id.

(** The audited snapshot [s] and its accepted, live prefix. *)
Record audited_prefix (s : Snapshot) (px : PrefixContext) : Prop := {
  au_prefix : Snapshot_prefix s g = Ok px;
  au_live : live_prefix run_id px;
  au_state : px_state px = sn_state s;
  au_headers : px_headers px = anchor_header :: map header_of (sn_records s);
  au_reachable : exists px0, PrefixContext_initial g = Ok px0 /\ rtc chain_step px0 px
}.

Lemma initial_audited_prefix : exists px, audited_prefix (Snapshot_initial g) px.
Proof.
  pose proof (initial_live_prefix run_id) as L. cbv zeta in L. fold g anchor_header in L.
  eexists. split.
  - rewrite snapshot_prefix_eq by constructor. cbn [Snapshot_initial sn_state sn_records map].
    pose proof (lp_accepted _ _ L) as E. cbn [px_genesis px_headers px_state] in E. by rewrite E.
  - exact L.
  - done.
  - done.
  - eexists. split; [apply initial_prefix|apply rtc_refl].
Qed.

Lemma slot_view_prefix s px view :
  audited_prefix s px -> slot_view s g = Ok view -> live_view run_id px view.
Proof.
  intros [Hp Hl _ _ _] H. unfold slot_view in H. rewrite Hp, bind_of_Ok in H.
  apply map_err_Ok in H. by constructor.
Qed.

(** Appending keeps the prefix accepted and live. *)
Lemma append_audited_prefix s px r s' :
  audited_prefix s px -> Forall (fun r => c1_valid (br_block r)) (sn_records s) ->
  appends g s r -> Snapshot_insert s r = Ok s' -> exists px', audited_prefix s' px'.
Proof.
  intros A Hr Ha Hi. pose proof (appends_valid _ _ _ Ha) as Hval.
  destruct Ha as [view proof p native applied st Hview Hw _ _ _ Hn Hc].
  pose proof (slot_view_prefix _ _ _ A Hview) as Hv.
  apply insert_shape in Hi as (Est & Erec & _). set (block := ce_block (ae_envelope proof)) in *.
  pose proof Hc as (sel & Hf & Ec)%(compound_spec _ _ _ _ _ _ _ _ Hv Hn).
  destruct (extend_live run_id Hdist _ _ _ _ _ _ _ Hv Hn Hf Hw eq_refl) as (px' & Hx & Hl & Hst).
  rewrite <- Ec in Hx, Hst. pose proof Hx as Hx'. unfold extend_prefix in Hx'.
  rewrite (lp_genesis _ _ (au_live _ _ A)), (au_headers _ _ A) in Hx'. fold g in Hx'.
  pose proof Hx' as [_ Epx]%prefix_sound.
  exists px'. split.
  - rewrite snapshot_prefix_eq by (rewrite Erec; apply Forall_app; split; [done|by constructor]).
    rewrite Est, Erec, map_app. exact (f_equal protocol Hx').
  - done.
  - by rewrite Est.
  - rewrite Epx, Erec, map_app. done.
  - destruct (au_reachable _ _ A) as (px0 & H0 & Hrt). exists px0. split; [done|].
    eapply rtc_r; [exact Hrt|]. econstructor; [apply Hv|done..].
Qed.

Lemma audited_has_prefix s : audited g s -> exists px, audited_prefix s px.
Proof.
  induction 1 as [|s r s' H [px A] Ha Hi]; [apply initial_audited_prefix|].
  eapply append_audited_prefix; [done|by eapply audited_valid|done..].
Qed.
End Run.

(** ** The membership indexes *)

(** A known entry and a new one, or two new ones, with one transaction id. *)
Definition entry_collision `{Keccak} (known new : list bytes) : Prop :=
  exists a b, a ∈ known ++ new /\ b ∈ new /\ collides (ID_DOMAIN ++ a) (ID_DOMAIN ++ b).

Section Indexes.
  Context {KE : Keccak} {KC : K256}.

(** Every indexed id is the id of a known entry whose sender and nonce are
    indexed. *)
Definition ids_covered (known : list bytes) (txs : gmap bytes Membership) (nonces : gmap (bytes * Z) Membership) :
    Prop :=
  forall id, is_Some (txs !! id) ->
    exists b, b ∈ known /\ hash_with_domain ID_DOMAIN b = id /\ is_Some (nonces !! sender_nonce b).

Lemma ids_covered_insert known txs nonces b m :
  ids_covered known txs nonces ->
  ids_covered (known ++ [b]) (<[hash_with_domain ID_DOMAIN b := m]> txs) (<[sender_nonce b := m]> nonces).
Proof.
  intros Hc k Hk. destruct (decide (k = hash_with_domain ID_DOMAIN b)) as [->|Hne].
  - exists b. split_and!; [set_solver|done|]. rewrite lookup_insert_eq. by eexists.
  - rewrite lookup_insert_ne in Hk by done. destruct (Hc k Hk) as (c & Hin & Hck & Hs). exists c.
    split_and!; [set_solver|done|]. destruct (decide (sender_nonce c = sender_nonce b)) as [->|];
      [rewrite lookup_insert_eq; by eexists|by rewrite lookup_insert_ne].
Qed.

Lemma contains_false {A} (o : option A) : o = None -> contains o = false.
Proof. by intros ->. Qed.

Lemma contains_insert `{Countable K} {A} (m : gmap K A) k j v :
  contains (<[k := v]> m !! j) = contains (m !! j) || bool_decide (j = k).
Proof.
  destruct (decide (j = k)) as [->|Hne].
  - rewrite lookup_insert_eq, bool_decide_eq_true_2 by done. by destruct (m !! k).
  - rewrite lookup_insert_ne, bool_decide_eq_false_2, orb_false_r by done. done.
Qed.

(** The pre-check of a block decides whether [insert] accepts its rows. *)
Lemma check_rows_index s pos i rows ids ns txs nonces :
  (forall id, contains (txs !! id) = contains (sn_transactions s !! id) || bool_decide (id ∈ ids)) ->
  (forall k, contains (nonces !! k) = contains (sn_sender_nonces s !! k) || bool_decide (k ∈ ns)) ->
  check_rows s i rows ids ns = (index_rows pos i rows txs nonces;; Ok ()).
Proof.
  revert i ids ns txs nonces. induction rows as [|[b id] rows IH]; intros i ids ns txs nonces Ht Hn; [done|].
  cbn [check_rows index_rows]. rewrite Ht, Hn, !orb_assoc.
  destruct (_ || _)%bool; [done|]. cbn [fail_if]. rewrite !bind_of_Ok.
  apply IH; intros k; rewrite contains_insert, ?Ht, ?Hn, <- orb_assoc; f_equal;
    apply eq_true_iff_eq; rewrite orb_true_iff, !bool_decide_eq_true; set_solver.
Qed.

(** A fresh body is indexed, or two ids collide. *)
Lemma index_rows_fresh pos i known body txs nonces :
  ids_covered known txs nonces -> NoDup (map sender_nonce body) ->
  Forall (fun b => nonces !! sender_nonce b = None) body ->
  entry_collision known body \/ exists txs' nonces',
    index_rows pos i (zip body (body_ids body)) txs nonces = Ok (txs', nonces').
Proof.
  revert i known txs nonces. induction body as [|b body IH]; intros i known txs nonces Hc Hnd Hf; [right; eauto|].
  cbn [map] in Hnd. apply NoDup_cons in Hnd as [Hb Hnd]. apply Forall_cons in Hf as [Hfb Hf].
  unfold body_ids. cbn [map zip zip_with index_rows]. set (id := hash_with_domain ID_DOMAIN b).
  destruct (txs !! id) as [m|] eqn:Hid.
  { left. destruct (Hc id) as (b' & Hin & Hb' & Hs); [by eexists|].
    exists b', b. split_and!; [set_solver|set_solver|]. split; [|exact Hb'].
    intros E%app_inv_head. subst b'. rewrite Hfb in Hs. by destruct Hs. }
  rewrite Hfb. cbn [contains orb fail_if]. rewrite bind_of_Ok.
  edestruct (IH (S i) (known ++ [b])) as [(x & y & Hx & Hy & H)|H]; [by apply ids_covered_insert|done| | |by right].
  - apply Forall_forall. intros c Hin. rewrite Forall_forall in Hf.
    rewrite lookup_insert_ne; [by apply Hf|]. intros E. apply Hb. rewrite E. by apply list_elem_of_fmap_2.
  - left. exists x, y. split_and!; [set_solver|set_solver|done].
Qed.

Lemma index_rows_result pos i known body txs nonces txs' nonces' :
  index_rows pos i (zip body (body_ids body)) txs nonces = Ok (txs', nonces') ->
  (ids_covered known txs nonces -> ids_covered (known ++ body) txs' nonces') /\
  forall k, is_Some (nonces' !! k) <-> is_Some (nonces !! k) \/ k ∈ map sender_nonce body.
Proof.
  revert i known txs nonces. induction body as [|b body IH]; intros i known txs nonces H.
  { injection H as <- <-. split; [by rewrite app_nil_r|]. intros k. set_solver. }
  unfold body_ids in H. cbn [map zip zip_with index_rows] in H.
  apply bind_Ok in H as ([] & _ & H). apply (IH _ (known ++ [b])) in H as [Hc Hk]. split.
  - intros Hcov. rewrite cons_middle, app_assoc. by apply Hc, ids_covered_insert.
  - intros k. rewrite Hk. cbn [map]. rewrite elem_of_cons.
    destruct (decide (k = sender_nonce b)) as [->|Hne]; [rewrite lookup_insert_eq|rewrite lookup_insert_ne by done].
    + split; [tauto|]. intros _. left. by eexists.
    + tauto.
Qed.

(** The indexed key of authenticated bytes is the sender and nonce they sign. *)
Lemma sender_nonce_signed bs c p :
  authenticate bs c None = Ok p ->
  sender_nonce bs = (sender (unsigned (transaction p)), nonce (unsigned (transaction p))).
Proof.
  intros [Hs -> _ _ _ _]%authenticate_spec. destruct Hs as [Hu _].
  pose proof (unsigned_encoded_slices _ Hu) as E. pose proof (length_unsigned_layout _ Hu) as Hl.
  set (t := unsigned (transaction p)) in *. unfold sender_nonce, signed_layout. fold t.
  assert (forall n off, (off + n <= 134)%nat ->
    slice n off (unsigned_layout t ++ native_signature_bytes (signature (transaction p))) =
    slice n off (unsigned_layout t)) as Hslice.
  { intros n off Hle. unfold slice. unfold UNSIGNED_LEN in Hl.
    rewrite drop_app_le, take_app_le; [done|rewrite length_drop; lia|lia]. }
  pose proof (f_equal sender E) as Es. pose proof (f_equal nonce E) as En. cbn [sender nonce] in Es, En.
  by rewrite !Hslice, <- Es, <- En by lia.
Qed.

Lemma runs_keys c slot body ps st out st' out' :
  Forall2 (fun bs p => authenticate bs c None = Ok p) body ps -> runs slot ps st out st' out' ->
  NoDup (map sender_nonce body).
Proof.
  intros Ha. revert st out. induction Ha as [|b p body ps Hb Hbody IH]; intros st out Hr; [constructor|].
  cbn [map]. inversion Hr as [|? ? ? ? st1 out1 ? ? H1 Hrest]; subst. constructor; [|by eapply IH].
  intros (b' & E & [i Hi]%list_elem_of_lookup)%list_elem_of_fmap.
  destruct (Forall2_lookup_l _ _ _ _ _ Hbody Hi) as (q & Hq%list_elem_of_lookup_2 & Hb').
  rewrite (sender_nonce_signed _ _ _ Hb), (sender_nonce_signed _ _ _ Hb') in E. injection E as Es En.
  pose proof (runs_split _ _ _ _ _ _ _ Hq Hrest) as Hlow.
  pose proof (runs_split slot [p] _ _ _ _ p ltac:(left)
    (runs_cons _ _ _ _ _ _ _ _ _ H1 (runs_nil _ _ _))) as Hhigh.
  cbv zeta in *. rewrite Es in Hhigh. lia.
Qed.

(** Entries of a staged body have distinct sender/nonce keys, none below the
    base nonce and all below the resulting one. *)
Lemma staged_keys base c slot body sb :
  stage_body base c slot body = Ok sb ->
  NoDup (map sender_nonce body) /\
  Forall (fun b => account_nonce (account base (sender_nonce b).1) <= (sender_nonce b).2 <
    account_nonce (account (staged_candidate sb) (sender_nonce b).1))%Z body.
Proof.
  intros (ps & Hs)%stage_body_Ok. split.
  2:{ apply Forall_forall. intros b Hb. destruct (staged_nonce _ _ _ _ _ _ _ Hs Hb) as (p & _ & Ha & Hn).
      rewrite (sender_nonce_signed _ _ _ Ha). exact Hn. }
  destruct Hs as [Hauth Hr _ _]. by eapply runs_keys.
Qed.
End Indexes.

Lemma collect_account_rows m : collect_accounts (account_rows m) = m.
Proof.
  rewrite collect_list_to_map by apply account_rows_NoDup.
  rewrite <- (list_to_map_to_list m) at 2. apply list_to_map_proper.
  - rewrite map_fmap_fst. apply account_rows_NoDup.
  - rewrite account_rows_perm, map_map. apply reflexive_eq.
    rewrite <- (map_id (map_to_list m)) at 2. apply map_ext. by intros [k []].
Qed.

Section Totality.
  Context {KE : Keccak} {KC : K256} (run_id : bytes) (Hdist : distinct_producers).

Let g := genesis_of run_id.

(** The entries of the whole history. *)
Definition history_entries (s : Snapshot) : list bytes :=
  concat (map (fun r => cb_transactions (br_block r)) (sn_records s)).

(** Indexed keys are spent: below the sender's current nonce. *)
Record indexed (s : Snapshot) : Prop := {
  ix_covered : ids_covered (history_entries s) (sn_transactions s) (sn_sender_nonces s);
  ix_spent : forall k, is_Some (sn_sender_nonces s !! k) ->
    (k.2 < account_nonce (account (native_state (sn_state s)) k.1))%Z
}.

(** What an appended record consists of. *)
Lemma appends_facts s px r :
  audited_prefix run_id s px -> appends g s r ->
  exists view native sel,
    live_view run_id px view /\ wf_c1_block (br_block r) /\
    (exists rec, stage_native view (cb_transactions (br_block r)) = Ok (native, rec) /\
       br_outcome r = applied_outcome rec) /\
    block_fits view (br_block r) (br_outcome r) sel /\
    br_state r = closed_state (genesis_policy run_id)
      (next_data (cs_data (sn_state s)) (C1Block_hash (br_block r)) native (sel_owner sel)) /\
    transaction_ids (br_outcome r) = body_ids (cb_transactions (br_block r)) /\
    NoDup (map sender_nonce (cb_transactions (br_block r))) /\
    Forall (fun b => account_nonce (account (native_state (sn_state s)) (sender_nonce b).1) <=
        (sender_nonce b).2 < account_nonce (account (native_state (br_state r)) (sender_nonce b).1))%Z
      (cb_transactions (br_block r)) /\
    (forall a, (account_nonce (account (native_state (sn_state s)) a) <=
       account_nonce (account (native_state (br_state r)) a))%Z).
Proof.
  intros A [view proof p native applied st Hview Hw _ _ _ Hn Hc].
  pose proof (slot_view_prefix _ _ _ _ A Hview) as Hv. cbn [br_outcome br_state].
  change (br_block (mk_record proof (applied_outcome applied) st)) with (ce_block (ae_envelope proof)).
  set (block := ce_block (ae_envelope proof)) in *.
  pose proof Hc as (sel & Hf & Ec)%(compound_spec _ _ _ _ _ _ _ _ Hv Hn).
  rewrite (au_state _ _ _ A) in Ec.
  destruct (stage_native_inv _ _ _ _ _ _ Hv Hn) as (_ & _ & _ & Hids & _).
  destruct (live_view_facts _ _ _ Hv) as (_ & Est & _). rewrite (au_state _ _ _ A) in Est.
  pose proof Hn as Hst. unfold stage_native in Hst. apply bind_Ok in Hst as ([] & _ & Hst).
  apply bind_Ok in Hst as ([] & _ & Hst). apply bind_Ok in Hst as (sb & Hsb & Hst).
  apply map_err_Ok in Hsb. injection Hst as <- <-. rewrite Est in Hsb.
  assert (native_state st = mk_transfer_state (accounts (staged_candidate sb))
    (gas_used_total (staged_candidate sb)) (fees_burned_total (staged_candidate sb))) as En.
  { rewrite Ec. unfold native_state, next_data. cbn [cs_data closed_state s_accounts s_gas_used s_fees_burned].
    by rewrite collect_account_rows. }
  destruct (staged_keys _ _ _ _ _ Hsb) as [Hnd Hk].
  exists view, (staged_candidate sb), sel. rewrite En. split_and!; try done; [by eexists|].
  intros a. apply stage_body_Ok in Hsb as (ps & [_ Hr _ _]).
  apply (runs_nonce_mono _ _ _ _ _ _ a Hr).
Qed.

Lemma insert_reduces s px r :
  audited_prefix run_id s px -> appends g s r ->
  Snapshot_insert s r =
    ('(txs, nonces) ← index_rows (br_position r) 0
       (zip (cb_transactions (br_block r)) (body_ids (cb_transactions (br_block r))))
       (sn_transactions s) (sn_sender_nonces s);
     Ok (mk_snap (br_state r) (sn_records s ++ [r]) txs nonces)) /\
  pos_slot (br_position r) = (pos_slot (tip s) + 1)%Z.
Proof.
  intros A Ha. destruct (appends_facts _ _ _ A Ha) as (view & native & sel & Hv & _ & _ & Hf & Est & Hids & _).
  destruct (live_view_facts _ _ _ Hv) as (_ & Evs & _ & _ & Hb). rewrite (au_state _ _ _ A) in Evs, Hb.
  assert (br_position r = mk_position (pos_slot (tip s) + 1) (C1Block_hash (br_block r))) as Epos
    by (unfold br_position; by rewrite Est).
  split; [|by rewrite Epos]. unfold Snapshot_insert. cbv zeta. unfold checked_add.
  rewrite (proj2 (Z.ltb_lt _ _)) by (unfold tip; lia). rewrite ok_or_of_Some, bind_of_Ok.
  rewrite Epos. cbn [pos_slot pos_hash].
  rewrite (neq_dec_false (parent_hash _)).
  2:{ rewrite (bf_parent _ _ _ _ Hf). unfold view_parent. by rewrite Evs. }
  rewrite !neq_dec_false, (fail_if_false (false || false || false) _ eq_refl), bind_of_Ok by done.
  unfold body_pairs. by rewrite Hids.
Qed.

Lemma audited_indexed s : audited g s -> indexed s.
Proof.
  induction 1 as [|s r s' H IH Ha Hi].
  { constructor; [intros id Hs|intros k Hs]; simpl in Hs; rewrite lookup_empty in Hs; by destruct Hs. }
  destruct (audited_has_prefix run_id Hdist s H) as [px A].
  destruct (appends_facts _ _ _ A Ha) as (_ & _ & _ & _ & _ & _ & _ & _ & Hids & _ & Hk & Hmono).
  apply insert_shape in Hi as (Est & Er & Hix). unfold body_pairs in Hix. rewrite Hids in Hix.
  apply (index_rows_result _ _ (history_entries s)) in Hix as [Hcov Hdom]. constructor.
  { unfold history_entries. rewrite Er, map_app, concat_app. cbn [map concat]. rewrite app_nil_r. apply Hcov, IH. }
  intros k Hs. rewrite Est. apply Hdom in Hs as [Hs|(b & -> & Hb)%list_elem_of_fmap].
  - pose proof (ix_spent _ IH k Hs). specialize (Hmono k.1). lia.
  - rewrite Forall_forall in Hk. specialize (Hk b Hb). lia.
Qed.

(** The check before staging and the indexing agree, whatever evidence the
    record carries. *)
Lemma checked_insert s r o :
  audited g s -> appends g s r -> transaction_ids o = body_ids (cb_transactions (br_block r)) ->
  check_transactions s (br_block r) o = Ok () <-> exists s', Snapshot_insert s r = Ok s'.
Proof.
  intros H Ha Hids. destruct (audited_has_prefix run_id Hdist s H) as [px A].
  destruct (insert_reduces _ _ _ A Ha) as [-> _]. unfold check_transactions, body_pairs. rewrite Hids.
  rewrite (check_rows_index s (br_position r) 0 _ _ _ (sn_transactions s) (sn_sender_nonces s)).
  - destruct (index_rows _ _ _ _ _) as [[txs nonces]|e]; [|by split; [|intros []]].
    rewrite !bind_of_Ok. split; [eauto|done].
  - intros id. by rewrite bool_decide_eq_false_2, orb_false_r by set_solver.
  - intros k. by rewrite bool_decide_eq_false_2, orb_false_r by set_solver.
Qed.

(** The indexes never refuse what was staged on an audited snapshot, unless
    the id of a new entry collides with that of another one. *)
Lemma append_total s r :
  audited g s -> appends g s r ->
  entry_collision (history_entries s) (cb_transactions (br_block r)) \/ exists s', Snapshot_insert s r = Ok s'.
Proof.
  intros H Ha. destruct (audited_has_prefix run_id Hdist s H) as [px A].
  pose proof (audited_indexed s H) as [Hcov Hspent].
  destruct (appends_facts _ _ _ A Ha) as (_ & _ & _ & _ & _ & _ & _ & _ & _ & Hnd & Hk & _).
  destruct (insert_reduces _ _ _ A Ha) as [Hred _].
  destruct (index_rows_fresh (br_position r) 0 _ (cb_transactions (br_block r)) _ _ Hcov Hnd)
    as [?|(txs & nonces & E)]; [|by left|right].
  - eapply Forall_impl; [exact Hk|]. intros b Hb. cbv beta in Hb.
    destruct (sn_sender_nonces s !! sender_nonce b) eqn:En; [|done].
    specialize (Hspent (sender_nonce b) ltac:(by eexists)). lia.
  - eexists. by rewrite Hred, E, bind_of_Ok.
Qed.
End Totality.
