(* ===== verification/PoashOwner.v ===== *)
(** * The schema-4 owner: admission, preparation and staging
      (src/src/native_poash/storage.rs)

    The owner's memory (genesis, audited snapshot, generation, the poisoned
    and halted flags, the uncertain attempt) and the operations that read the
    snapshot and produce one-use candidates.  Writing them is in PoashCommit.

    The theorems show that a producer's prepared block and a receiver's
    staged block are the same record, that everything staged extends the
    audited history, and that only a selected producer's second block for a
    committed slot can halt an owner. *)

From S2P Require Import Prelude Codec Crypto BlockCommitment NativeTransaction.
From S2P Require Import NativeTransfer NativeBlock BlockAuthentication LeaderSelection.
From S2P Require Import PoashBase PoashState PoashSelection PoashGenesis PoashClaim.
From S2P Require Import PoashHistory PoashAdmission PoashApplication PoashCompound PoashChain.
From S2P Require Import PoashSnapshot.

Record Base : Type := mk_base {
  bs_generation : Z;
  bs_genesis : Genesis;
  bs_snapshot : Snapshot
}.

Record PreparedBlock : Type := mk_prepared {
  pb_base : Base;
  pb_block : C1Block;
  pb_candidate : ClosedState;
  pb_outcome : BodyOutcome
}.

Record StagedBlock : Type := mk_staged {
  sb_base : Base;
  sb_record : BlockRecord
}.

Record Attempt : Type := mk_attempt {
  at_base : Base;
  at_record : BlockRecord
}.

(** [PoashTrialStore] without its connection and path. *)
Record Owner : Type := mk_owner {
  ow_genesis : Genesis;
  ow_snapshot : Snapshot;
  ow_generation : Z;
  ow_poisoned : bool;
  ow_halted : bool;
  ow_attempt : option Attempt
}.

Definition set_halted (o : Owner) (b : bool) : Owner :=
  mk_owner (ow_genesis o) (ow_snapshot o) (ow_generation o) (ow_poisoned o) b (ow_attempt o).

Definition ready (o : Owner) : result app_error () := fail_if (ow_poisoned o) AppError.Blocked.
Definition work_ready (o : Owner) : result app_error () :=
  ready o;; fail_if (ow_halted o) AppError.ConflictHalt.

(** [Option::checked_sub(1)] on a slot and the saturating variant. *)
Definition saturating_pred (n : Z) : Z := Z.max 0 (n - 1).

Section OwnerOps.
  Context `{KE : Keccak} `{KC : K256}.

(** [PoashTrialStore::snapshot] *)
Definition owner_snapshot (o : Owner) : result app_error Snapshot := ready o;; Ok (ow_snapshot o).

(** [PoashTrialStore::slot_start] *)
Definition owner_slot_start (o : Owner) : result app_error SlotStartView :=
  work_ready o;; slot_view (ow_snapshot o) (ow_genesis o).

Definition owner_base (o : Owner) : Base := mk_base (ow_generation o) (ow_genesis o) (ow_snapshot o).

Definition check_base (o : Owner) (b : Base) : result app_error () :=
  work_ready o;;
  fail_if ((bs_generation b !=? ow_generation o) || (bs_genesis b !=? ow_genesis o) ||
           (bs_snapshot b !=? ow_snapshot o)) AppError.Stale.

(** [for r in records.iter().take(n) { prior.insert(r.clone())?; }] *)
Fixpoint insert_all (s : Snapshot) (rs : list BlockRecord) : result app_error Snapshot :=
  match rs with
  | [] => Ok s
  | r :: rest => s' ← Snapshot_insert s r; insert_all s' rest
  end.

(** The view the history gave for an already committed slot. *)
Definition historical_view (o : Owner) (s : Z) : result app_error SlotStartView :=
  prior ← insert_all (Snapshot_initial (ow_genesis o))
            (take (Z.to_nat (saturating_pred s)) (sn_records (ow_snapshot o)));
  slot_view prior (ow_genesis o).

(** [iter().find(|r| r.state.position().hash == hash)] *)
Definition known_record (hash : bytes) (rs : list BlockRecord) : option BlockRecord :=
  head (filter (fun r => pos_hash (br_position r) = hash) rs).

Definition owner_admit (o : Owner) (proof : AuthenticatedEnvelope) : Owner * result app_error () :=
  match work_ready o with
  | Err e => (o, Err e)
  | Ok _ =>
      let block := ce_block (ae_envelope proof) in
      let h := hc_header (cb_claim block) in
      match known_record (C1Block_hash block) (sn_records (ow_snapshot o)) with
      | Some old =>
          (o, if br_block old !=? block then Err (AppError.Invalid "known H exact content")
              else Err (AppError.AlreadyCommitted (br_position old)
                     (C1Envelope_id (ae_envelope (br_proof old))) (C1Envelope_id (ae_envelope proof))))
      | None =>
          if (slot h <=? pos_slot (tip (ow_snapshot o)))%Z then
            match (view ← historical_view o (slot h); protocol (plan view (ae_header proof))) with
            | Ok _ => (set_halted o true, Err AppError.ConflictHalt)
            | Err e => (o, Err e)
            end
          else (o, view ← owner_slot_start o; protocol (plan view (ae_header proof));; Ok ())
      end
  end.

Definition prepare_next (o : Owner) (producer : bytes) (ticket : Z) (body : list bytes) :
    result app_error PreparedBlock :=
  view ← owner_slot_start o;
  selection ← protocol (view_select view);
  fail_if ((producer !=? sel_owner selection) || (ticket !=? sel_ticket selection))
    (AppError.Protocol PoashError.NotSelected);;
  '(native, applied) ← stage_native view body;
  block ← C1Block_build view selection (applied_transactions applied) (applied_outcome applied);
  check_transactions (ow_snapshot o) block (applied_outcome applied);;
  candidate ← compound view block native (applied_outcome applied);
  Ok (mk_prepared (owner_base o) block candidate (applied_outcome applied)).

(** [Envelope::from_wire_bytes(bytes)?.authenticate(&genesis)?] *)
Definition open_envelope (g : Genesis) (bs : bytes) : result app_error AuthenticatedEnvelope :=
  e ← C1Envelope_from_wire_bytes bs; C1Envelope_authenticate e g.

Definition seal_prepared (o : Owner) (prepared : PreparedBlock) (bs : bytes) :
    Owner * result app_error StagedBlock :=
  match (check_base o (pb_base prepared);;
         proof ← open_envelope (ow_genesis o) bs;
         fail_if (ce_block (ae_envelope proof) !=? pb_block prepared) AppError.PreparedIdentity;;
         Ok proof) with
  | Err e => (o, Err e)
  | Ok proof =>
      let '(o', admitted) := owner_admit o proof in
      (o', admitted;;
           Ok (mk_staged (pb_base prepared)
                 (mk_record proof (pb_outcome prepared) (pb_candidate prepared))))
  end.

Definition stage_received (o : Owner) (bs : bytes) : Owner * result app_error StagedBlock :=
  match (work_ready o;; open_envelope (ow_genesis o) bs) with
  | Err e => (o, Err e)
  | Ok proof =>
      let '(o', admitted) := owner_admit o proof in
      (o', admitted;;
           view ← owner_slot_start o';
           let block := ce_block (ae_envelope proof) in
           '(native, applied) ← stage_native view (cb_transactions block);
           check_transactions (ow_snapshot o') block (applied_outcome applied);;
           state ← compound view block native (applied_outcome applied);
           Ok (mk_staged (owner_base o') (mk_record proof (applied_outcome applied) state)))
  end.

(** [signing_history]: the view of a slot up to the next one and a digest of
    the original evidence below it. *)
Definition signing_history (o : Owner) (s : Z) : result app_error (SlotStartView * bytes) :=
  work_ready o;;
  fail_if (negb ((1 <=? s) && (s <=? MAX_SLOTS)) || (pos_slot (tip (ow_snapshot o)) + 1 <? s))%Z
    (AppError.Protocol (PoashError.MissingHistory (saturating_pred s)));;
  let rs := take (Z.to_nat (s - 1)) (sn_records (ow_snapshot o)) in
  let bs := pol_network (g_policy (ow_genesis o)) ++ be_bytes 2 (s - 1) ++
            concat (map (fun r => C1Envelope_id (ae_envelope (br_proof r))) rs) in
  prior ← insert_all (Snapshot_initial (ow_genesis o)) rs;
  view ← slot_view prior (ow_genesis o);
  Ok (view, hash_with_domain (str "ETERNIX_C1_SIGN_BASE_EVIDENCE" ++ [x00]) bs).

(** [export_envelope] *)
Definition export_envelope (o : Owner) (s : Z) : result app_error bytes :=
  ready o;;
  i ← ok_or (checked_sub s 1) (AppError.Invalid "unsigned anchor");
  match sn_records (ow_snapshot o) !! Z.to_nat i with
  | Some r => if pos_slot (br_position r) ==? s then Ok (C1Envelope_wire_bytes (ae_envelope (br_proof r)))
              else Err (AppError.Invalid "missing canonical record")
  | None => Err (AppError.Invalid "missing canonical record")
  end.
End OwnerOps.

(** ** Replaying the records *)

Section Replay.
  Context {KE : Keccak} {KC : K256}.

Lemma insert_all_app s a b : insert_all s (a ++ b) = (s' ← insert_all s a; insert_all s' b).
Proof.
  revert s. induction a as [|r a IH]; intros s; [done|]. cbn [app insert_all].
  destruct (Snapshot_insert s r); [|done]. rewrite !bind_of_Ok. apply IH.
Qed.

(** Every shorter history is audited too, and replaying it succeeds. *)
Lemma audited_replay g s k :
  audited g s -> exists prior,
    insert_all (Snapshot_initial g) (take k (sn_records s)) = Ok prior /\ audited g prior /\
    sn_records prior = take k (sn_records s) /\
    (forall r, sn_records s !! k = Some r -> appends g prior r) /\
    (length (sn_records s) <= k -> prior = s)%nat.
Proof.
  induction 1 as [|s r s' H (prior & Hi & Hau & Hrec & Hnext & Hall) Ha Hins].
  { exists (Snapshot_initial g). cbn [Snapshot_initial sn_records]. rewrite take_nil.
    split_and!; [done|constructor|done|done|done]. }
  pose proof (insert_shape _ _ _ Hins) as (_ & Er & _). rewrite Er, length_app. simpl length.
  destruct (decide (k <= length (sn_records s)))%nat as [Hle|Hgt].
  - rewrite take_app_le by done. exists prior. split_and!; [done..| |lia].
    intros r' Hr'. destruct (decide (k = length (sn_records s))) as [->|Hne].
    + rewrite lookup_app_r, Nat.sub_diag in Hr' by done. injection Hr' as <-.
      by rewrite Hall by done.
    + rewrite lookup_app_l in Hr' by lia. by apply Hnext.
  - rewrite take_ge by (rewrite length_app; simpl; lia). rewrite take_ge in Hi by lia.
    rewrite Hall in Hi by lia. exists s'. rewrite insert_all_app, Hi, bind_of_Ok. cbn [insert_all].
    rewrite Hins. split_and!; [done|by apply (audited_append g s r)|done| |done].
    intros r' Hr'%lookup_lt_Some. rewrite length_app in Hr'. simpl in Hr'. lia.
Qed.

(** Record [i] is the block of slot [i+1], at its own hash. *)
Lemma audited_slots run_id s :
  audited (genesis_of run_id) s ->
  pos_slot (tip s) = Z.of_nat (length (sn_records s)) /\
  forall i r, sn_records s !! i = Some r ->
    br_position r = mk_position (Z.of_nat i + 1) (C1Block_hash (br_block r)).
Proof.
  induction 1 as [|s r s' H [Ht Hr] Ha Hins]; [done|].
  pose proof (insert_shape _ _ _ Hins) as (Est & Er & _).
  assert (br_position r = mk_position (pos_slot (tip s) + 1) (C1Block_hash (br_block r))) as Ep.
  { unfold Snapshot_insert in Hins. cbv zeta in Hins. apply bind_Ok in Hins as (n & Hn & Hins).
    apply bind_Ok in Hins as ([] & Hs & _). apply ok_or_Ok, checked_add_Some in Hn as [_ ->]. inv_ok.
    destruct (br_position r); simpl in *. congruence. }
  rewrite Er, length_app. simpl length. split.
  - unfold tip. rewrite Est. fold (br_position r). rewrite Ep. cbn [pos_slot]. lia.
  - intros i r' Hi. apply lookup_app_Some in Hi as [Hi|[Hge Hi]]; [by apply Hr|].
    apply list_lookup_singleton_Some in Hi as [Hi <-]. rewrite Ep. f_equal. lia.
Qed.

Lemma known_record_Some hash rs r :
  known_record hash rs = Some r -> r ∈ rs /\ pos_hash (br_position r) = hash.
Proof.
  unfold known_record. intros H%head_Some_elem_of%list_elem_of_filter. tauto.
Qed.

Lemma known_record_None hash rs r :
  known_record hash rs = None -> r ∈ rs -> pos_hash (br_position r) <> hash.
Proof.
  unfold known_record. intros H Hr E.
  destruct (filter (fun r => pos_hash (br_position r) = hash) rs) as [|a l] eqn:F; [|done].
  assert (r ∈ filter (fun r => pos_hash (br_position r) = hash) rs) as Hin
    by (by apply list_elem_of_filter). rewrite F in Hin. by apply not_elem_of_nil in Hin.
Qed.

Lemma open_envelope_ok g bs proof :
  open_envelope g bs = Ok proof ->
  wf_c1_block (ce_block (ae_envelope proof)) /\ length (ce_signature (ae_envelope proof)) = 65%nat /\
  C1Envelope_authenticate (ae_envelope proof) g = Ok proof /\
  ah_claim (ae_header proof) = cb_claim (ce_block (ae_envelope proof)) /\
  ah_network (ae_header proof) = pol_network (g_policy g) /\
  C1Envelope_from_wire_bytes bs = Ok (ae_envelope proof).
Proof.
  unfold open_envelope. intros (e & He & H)%bind_Ok. pose proof He as [Hw _]%c1_envelope_codec_iff.
  pose proof H as H'. unfold C1Envelope_authenticate in H'. apply bind_Ok in H' as (h & Hh & E).
  injection E as <-. cbn [ae_envelope ae_header]. apply map_err_Ok, claim_authenticate_iff in Hh.
  destruct (at_claim _ _ _ _ _ Hh) as [? ?]. split_and!; try done; apply Hw.
Qed.
End Replay.

(** ** Conflicts *)

Section OwnerRun.
  Context {KE : Keccak} {KC : K256} (run_id : bytes) (Hdist : distinct_producers).

Let g := genesis_of run_id.

(** A work-ready owner of this run with an audited snapshot. *)
Record live_owner (o : Owner) : Prop := {
  lo_genesis : ow_genesis o = g;
  lo_audited : audited g (ow_snapshot o);
  lo_poisoned : ow_poisoned o = false;
  lo_halted : ow_halted o = false
}.

Lemma live_work_ready o : live_owner o -> work_ready o = Ok ().
Proof. intros [_ _ Hp Hh]. unfold work_ready, ready. by rewrite Hp, Hh. Qed.

(** The submitted block and a committed one were both allowed for one slot. *)
Record conflicts (s : Snapshot) (block : C1Block) (r : BlockRecord) : Prop := {
  cf_record : r ∈ sn_records s;
  cf_slot : slot (hc_header (cb_claim block)) = slot (hc_header (cb_claim (br_block r)));
  cf_parent : parent_hash (hc_header (cb_claim block)) = parent_hash (hc_header (cb_claim (br_block r)));
  cf_producer : hc_producer (cb_claim block) = hc_producer (cb_claim (br_block r));
  cf_ticket : ticket_id (hc_header (cb_claim block)) = ticket_id (hc_header (cb_claim (br_block r)));
  cf_unknown : forall r', r' ∈ sn_records s -> C1Block_hash (br_block r') <> C1Block_hash block
}.

(** The view an appended record was planned in. *)
Lemma record_view s r :
  audited g s -> appends g s r -> exists view sel, slot_view s g = Ok view /\ view_genesis view = g /\
    block_fits view (br_block r) (br_outcome r) sel.
Proof.
  intros H Ha. destruct (audited_has_prefix run_id Hdist s H) as [px A].
  destruct (appends_facts _ _ _ _ A Ha) as (view & _ & sel & Hv & _ & _ & Hf & _).
  exists view, sel. split_and!; [|by apply (live_view_facts _ _ _ Hv)|done].
  unfold slot_view, g. rewrite (au_prefix _ _ _ A), bind_of_Ok, (lw_view _ _ _ Hv). done.
Qed.

Lemma audited_record s i r :
  audited g s -> sn_records s !! i = Some r ->
  exists prior, insert_all (Snapshot_initial g) (take i (sn_records s)) = Ok prior /\
    audited g prior /\ appends g prior r /\
    slot (hc_header (cb_claim (br_block r))) = (Z.of_nat i + 1)%Z.
Proof.
  intros H Hi. destruct (audited_replay g s i H) as (prior & Hp & Hau & Hrec & Hnext & _).
  specialize (Hnext r Hi). exists prior. split_and!; [done..|].
  destruct (audited_has_prefix run_id Hdist prior Hau) as [px A].
  destruct (appends_facts _ _ _ _ A Hnext) as (view & _ & sel & Hv & _ & _ & Hf & _).
  destruct (live_view_facts _ _ _ Hv) as (_ & _ & _ & Hslot & _).
  rewrite (bf_slot _ _ _ _ Hf), Hslot, (au_state _ _ _ A). fold (tip prior).
  destruct (audited_slots run_id prior Hau) as [-> _]. rewrite Hrec, length_take.
  apply lookup_lt_Some in Hi. lia.
Qed.

Lemma admit_keeps o proof :
  let o' := (owner_admit o proof).1 in
  ow_genesis o' = ow_genesis o /\ ow_snapshot o' = ow_snapshot o /\ ow_generation o' = ow_generation o /\
  ow_poisoned o' = ow_poisoned o /\ ow_attempt o' = ow_attempt o /\
  (ow_halted o' = ow_halted o -> o' = o).
Proof.
  cbv zeta. unfold owner_admit. destruct o; repeat case_match; simpl; split_and!; try done. by intros <-.
Qed.

(** The view of a committed slot is the one its record was planned in. *)
Lemma historical_view_at o i r :
  live_owner o -> sn_records (ow_snapshot o) !! i = Some r ->
  exists view sel, historical_view o (Z.of_nat i + 1) = Ok view /\ view_genesis view = g /\
    block_fits view (br_block r) (br_outcome r) sel.
Proof.
  intros Ho Hi. destruct (audited_record _ _ _ (lo_audited _ Ho) Hi) as (prior & Hp & Hau & Ha & _).
  destruct (record_view _ _ Hau Ha) as (view & sel & Hv & Hg & Hf). exists view, sel. split_and!; [|done..].
  unfold historical_view, saturating_pred. rewrite (lo_genesis _ Ho).
  replace (Z.to_nat (Z.max 0 (Z.of_nat i + 1 - 1))) with i by lia. by rewrite Hp, bind_of_Ok.
Qed.

Lemma admit_halts_iff o bs proof :
  live_owner o -> open_envelope g bs = Ok proof ->
  ow_halted (owner_admit o proof).1 = true <->
  exists r, conflicts (ow_snapshot o) (ce_block (ae_envelope proof)) r.
Proof.
  intros Ho Hopen. pose proof (open_envelope_ok _ _ _ Hopen) as (Hw & _ & _ & Hcl & Hnet & _).
  destruct (audited_slots _ _ (lo_audited _ Ho)) as [Htip Hpos].
  pose proof (cv_claim _ (wb_valid _ Hw)) as Hclaim. destruct (cl_limits _ _ _ Hclaim) as [[Hlow _] _].
  set (block := ce_block (ae_envelope proof)) in *. set (h := hc_header (cb_claim block)) in *.
  set (rs := sn_records (ow_snapshot o)) in *.
  assert (forall r, r ∈ rs -> pos_hash (br_position r) = C1Block_hash (br_block r)) as Hhash.
  { intros r [i Hi]%list_elem_of_lookup. by rewrite (Hpos i r Hi). }
  unfold owner_admit. rewrite (live_work_ready o Ho). fold block h rs. split.
  - destruct (known_record _ rs) as [old|] eqn:Hk; [cbn [fst]; by rewrite (lo_halted _ Ho)|].
    destruct (Z.leb_spec (slot h) (pos_slot (tip (ow_snapshot o)))) as [Hle|];
      [|cbn [fst]; by rewrite (lo_halted _ Ho)].
    destruct (historical_view o (slot h) ≫= _) as [p|e] eqn:E; [|cbn [fst]; by rewrite (lo_halted _ Ho)]. intros _.
    apply bind_Ok in E as (view & Hview & Hp). apply map_err_Ok, plan_spec in Hp as (sel & [_ [P1 P2] P3 [P4 P5]] & _).
    rewrite Hcl in P1, P2, P4, P5. fold h in P1, P2, P5.
    destruct (rs !! Z.to_nat (slot h - 1)) as [r|] eqn:Hi; [|apply lookup_ge_None in Hi; fold rs in Htip; lia].
    destruct (historical_view_at o _ _ Ho Hi) as (view' & sel' & Hv' & _ & Hf).
    replace (Z.of_nat (Z.to_nat (slot h - 1)) + 1)%Z with (slot h) in Hv' by lia.
    rewrite Hview in Hv'. injection Hv' as <-.
    destruct Hf as [F1 F2 F3 F4 F5 _]. rewrite P3 in F1. injection F1 as <-.
    exists r. constructor; fold h; try congruence; [by eapply list_elem_of_lookup_2|].
    intros r' Hr'. rewrite <- Hhash by done. by eapply known_record_None.
  - intros (r & [Hr Hs Hpa Hpr Ht Hun]).
    destruct (known_record _ rs) as [old|] eqn:Hk.
    { apply known_record_Some in Hk as [Hin E]. rewrite Hhash in E by done. by destruct (Hun old Hin). }
    fold rs in Hr. apply list_elem_of_lookup in Hr as [i Hi].
    destruct (historical_view_at o _ _ Ho Hi) as (view & sel & Hv & Hg & [F1 F2 F3 F4 F5 _]).
    destruct (audited_record _ _ _ (lo_audited _ Ho) Hi) as (_ & _ & _ & _ & Hslot).
    fold h in Hs, Hpa, Ht. rewrite Hs, Hslot, Hv, bind_of_Ok.
    rewrite (proj2 (Z.leb_le _ _)) by (apply lookup_lt_Some in Hi; fold rs in Htip; lia).
    rewrite (proj2 (plan_spec view (ae_header proof) (mk_plan view (ae_header proof) sel))); [done|].
    exists sel. split; [|done]. constructor; rewrite ?Hcl, ?Hg; fold h; split_and?; try done; congruence.
Qed.

(** ** Staging *)

Lemma admit_ok o proof o' :
  live_owner o -> owner_admit o proof = (o', Ok ()) ->
  o' = o /\ exists view p, slot_view (ow_snapshot o) g = Ok view /\ plan view (ae_header proof) = Ok p.
Proof.
  intros Ho. unfold owner_admit. rewrite (live_work_ready o Ho). destruct (known_record _ _).
  { destruct (br_block _ !=? _); intros [= ]. }
  destruct (_ <=? _)%Z; [by destruct (historical_view _ _ ≫= _)|].
  intros E. injection E as <- H. split; [done|]. apply bind_Ok in H as (view & Hv & H).
  apply bind_Ok in H as (p & Hp & _). unfold owner_slot_start in Hv.
  rewrite (live_work_ready o Ho), bind_of_Ok, (lo_genesis _ Ho) in Hv.
  apply map_err_Ok in Hp. eauto.
Qed.

Lemma stage_received_ok o bs o' st :
  live_owner o -> stage_received o bs = (o', Ok st) ->
  o' = o /\ sb_base st = owner_base o /\ appends g (ow_snapshot o) (sb_record st) /\
  C1Envelope_from_wire_bytes bs = Ok (ae_envelope (br_proof (sb_record st))).
Proof.
  intros Ho. unfold stage_received. rewrite (live_work_ready o Ho), bind_of_Ok, (lo_genesis _ Ho).
  destruct (open_envelope g bs) as [proof|] eqn:Hopen; [|done].
  pose proof (open_envelope_ok _ _ _ Hopen) as (Hw & Hsig & Hauth & _ & _ & Hwire).
  destruct (owner_admit o proof) as [o1 [[]|e]] eqn:Hadm; [|done].
  apply admit_ok in Hadm as (-> & view & p & Hview & Hplan); [|done].
  rewrite bind_of_Ok. intros E. injection E as <- H. split; [done|].
  apply bind_Ok in H as (view' & Hv' & H). unfold owner_slot_start in Hv'.
  rewrite (live_work_ready o Ho), bind_of_Ok, (lo_genesis _ Ho), Hview in Hv'. injection Hv' as <-.
  apply bind_Ok in H as ([native applied] & Hn & H). apply bind_Ok in H as ([] & _ & H).
  apply bind_Ok in H as (state & Hc & H). injection H as <-. cbn [sb_base sb_record br_proof].
  split_and!; [done| |done]. by econstructor.
Qed.

(** The steps of a preparation. *)
Record prepared (s : Snapshot) (body : list bytes) (pb : PreparedBlock) (view : SlotStartView)
    (sel : Selection) (native : TransferState) (rec : AppliedBody) : Prop := {
  pr_view : slot_view s g = Ok view;
  pr_select : view_select view = Ok sel;
  pr_stage : stage_native view body = Ok (native, rec);
  pr_build : C1Block_build view sel (applied_transactions rec) (applied_outcome rec) = Ok (pb_block pb);
  pr_check : check_transactions s (pb_block pb) (applied_outcome rec) = Ok ();
  pr_compound : compound view (pb_block pb) native (applied_outcome rec) = Ok (pb_candidate pb);
  pr_outcome : pb_outcome pb = applied_outcome rec
}.

Lemma prepare_next_ok o producer ticket body pb :
  live_owner o -> prepare_next o producer ticket body = Ok pb ->
  pb_base pb = owner_base o /\ exists view sel native rec,
    prepared (ow_snapshot o) body pb view sel native rec /\
    producer = sel_owner sel /\ ticket = sel_ticket sel.
Proof.
  intros Ho. unfold prepare_next, owner_slot_start.
  rewrite (live_work_ready o Ho), bind_of_Ok, (lo_genesis _ Ho).
  intros (view & Hv & H)%bind_Ok. apply bind_Ok in H as (sel & Hsel & H).
  apply bind_Ok in H as ([] & Hid & H). apply bind_Ok in H as ([native rec] & Hn & H).
  apply bind_Ok in H as (block & Hb & H). apply bind_Ok in H as ([] & Hch & H).
  apply bind_Ok in H as (cand & Hc & H). injection H as <-. apply map_err_Ok in Hsel. inv_ok.
  split; [done|]. exists view, sel, native, rec. by split_and!.
Qed.

(** A prepared block is admitted by every owner at the same snapshot. *)
Lemma prepared_admitted o body pb view sel native rec bs proof :
  live_owner o -> prepared (ow_snapshot o) body pb view sel native rec ->
  open_envelope g bs = Ok proof -> ce_block (ae_envelope proof) = pb_block pb ->
  (exists r, r ∈ sn_records (ow_snapshot o) /\ header_collision (header_of r)
     (mk_historical (hc_header (cb_claim (pb_block pb))) (C1Block_hash (pb_block pb)))) \/
  ((forall o2, live_owner o2 -> ow_snapshot o2 = ow_snapshot o -> owner_admit o2 proof = (o2, Ok ())) /\
   cb_transactions (pb_block pb) = body /\ wf_c1_block (pb_block pb) /\
   exists p, plan view (ae_header proof) = Ok p).
Proof.
  intros Ho [Pv Ps Pn Pb _ _ _] Hopen Hblk.
  pose proof (open_envelope_ok _ _ _ Hopen) as (_ & _ & _ & Hcl & Hnet & _). rewrite Hblk in Hcl.
  destruct (audited_has_prefix run_id Hdist _ (lo_audited _ Ho)) as [px A].
  pose proof (slot_view_prefix _ _ _ _ A Pv) as Hv.
  destruct (built_block _ _ _ _ _ _ _ Hv Pn Ps) as (block & Eb & Hw & [_ F2 F3 F4 F5 _] & Htx).
  rewrite Pb in Eb. injection Eb as <-.
  destruct (live_view_facts _ _ _ Hv) as (_ & _ & Hg & Hslot & _). rewrite (au_state _ _ _ A) in Hslot.
  fold (tip (ow_snapshot o)) in Hslot.
  assert (plan view (ae_header proof) = Ok (mk_plan view (ae_header proof) sel)) as Hplan.
  { apply plan_spec. exists sel. split; [|done]. by constructor; rewrite ?Hcl, ?Hg. }
  destruct (known_record (C1Block_hash (pb_block pb)) (sn_records (ow_snapshot o)))
    as [old|] eqn:Hk; [left|right].
  - apply known_record_Some in Hk as [Hin Hh]. exists old. split; [done|].
    apply list_elem_of_lookup in Hin as [i Hi].
    destruct (audited_slots _ _ (lo_audited _ Ho)) as [Htip Hpos]. rewrite (Hpos i old Hi) in Hh.
    destruct (audited_record _ _ _ (lo_audited _ Ho) Hi) as (prior & _ & _ & Ha & Hsl).
    destruct (same_hash_header (header_of old) (mk_historical (hc_header (cb_claim (pb_block pb)))
      (C1Block_hash (pb_block pb)))) as [E|]; [| |exact Hh| |done].
    + destruct Ha as [? ? ? ? ? ? _ Hwf _ _ _ _ _]. split; [apply Hwf|done].
    + split; [apply Hw|done].
    + exfalso. apply (f_equal (fun h => slot (hh_header h))) in E. cbn [hh_header header_of] in E.
      apply lookup_lt_Some in Hi. rewrite Hsl, F2, Hslot, Htip in E. lia.
  - split_and!; [|done..|by eexists]. intros o2 Ho2 Hs2.
    unfold owner_admit. rewrite (live_work_ready o2 Ho2), Hs2, Hblk, Hk.
    rewrite F2, Hslot, (proj2 (Z.leb_gt _ _)) by lia. unfold owner_slot_start. rewrite (live_work_ready o2 Ho2), bind_of_Ok, (lo_genesis _ Ho2), Hs2, Pv, bind_of_Ok.
    by rewrite Hplan.
Qed.
End OwnerRun.

(** ** Properties *)

Section OwnerProperties.
  Context {KE : Keccak} {KC : K256} (run_id : bytes).

Lemma prepared_agree o producer ticket body pb bs proof :
  distinct_producers -> live_owner run_id o ->
  prepare_next o producer ticket body = Ok pb ->
  open_envelope (genesis_of run_id) bs = Ok proof -> ce_block (ae_envelope proof) = pb_block pb ->
  (exists r, r ∈ sn_records (ow_snapshot o) /\ header_collision (header_of r)
     (mk_historical (hc_header (cb_claim (pb_block pb))) (C1Block_hash (pb_block pb)))) \/
  exists r, seal_prepared o pb bs = (o, Ok (mk_staged (owner_base o) r)) /\
    appends (genesis_of run_id) (ow_snapshot o) r /\ br_block r = pb_block pb /\
    forall o2, live_owner run_id o2 -> ow_snapshot o2 = ow_snapshot o ->
      stage_received o2 bs = (o2, Ok (mk_staged (owner_base o2) r)).
Proof.
  intros Hd Ho Hp Hopen Hblk.
  destruct (prepare_next_ok _ _ _ _ _ _ Ho Hp) as (Hbase & view & sel & native & rec & P & _).
  pose proof (open_envelope_ok _ _ _ Hopen) as (_ & Hsig & Hauth & _).
  destruct (prepared_admitted _ Hd _ _ _ _ _ _ _ _ _ Ho P Hopen Hblk)
    as [?|(Hadm & Htx & Hw & q & Hplan)]; [by left|right].
  exists (mk_record proof (pb_outcome pb) (pb_candidate pb)). split_and!; [| |done|].
  - unfold seal_prepared, check_base. rewrite Hbase, (live_work_ready _ o Ho), bind_of_Ok.
    cbn [owner_base bs_generation bs_genesis bs_snapshot]. rewrite !neq_dec_false by done.
    rewrite (fail_if_false (false || false || false) _ eq_refl), bind_of_Ok, (lo_genesis _ _ Ho), Hopen, bind_of_Ok.
    by rewrite Hblk, neq_dec_false, (fail_if_false false _ eq_refl), bind_of_Ok, Hadm, bind_of_Ok by done.
  - destruct P as [Pv _ Pn _ _ Pc ->]. rewrite <- Hblk in *. econstructor; try done; by rewrite ?Htx.
  - intros o2 Ho2 Hs2.
    destruct P as [Pv _ Pn _ Pk Pc ->].
    unfold stage_received. rewrite (live_work_ready _ o2 Ho2), bind_of_Ok, (lo_genesis _ _ Ho2), Hopen, Hadm by done.
    rewrite bind_of_Ok. unfold owner_slot_start. rewrite (live_work_ready _ o2 Ho2), bind_of_Ok.
    rewrite (lo_genesis _ _ Ho2), Hs2, Pv, bind_of_Ok, Hblk, Htx, Pn, bind_of_Ok.
    by rewrite Pk, bind_of_Ok, Pc, bind_of_Ok.
Qed.

(** Producer and receivers agree.  Take the block an owner prepared and
    any packet that carries exactly this block under an authenticated
    signature: sealing it gives one record that extends the audited history,
    and every live owner at the same snapshot, staging the packet as
    received, gets the same record (evidence, outcome and complete
    post-state), unless the new header collides with a committed one. *)
Theorem producer_receiver_agree o producer ticket body pb bs proof :
  distinct_producers -> live_owner run_id o ->
  prepare_next o producer ticket body = Ok pb ->
  open_envelope (genesis_of run_id) bs = Ok proof -> ce_block (ae_envelope proof) = pb_block pb ->
  (exists r, r ∈ sn_records (ow_snapshot o) /\ header_collision (header_of r)
     (mk_historical (hc_header (cb_claim (pb_block pb))) (C1Block_hash (pb_block pb)))) \/
  exists r, seal_prepared o pb bs = (o, Ok (mk_staged (owner_base o) r)) /\
    appends (genesis_of run_id) (ow_snapshot o) r /\ br_block r = pb_block pb /\
    forall o2, live_owner run_id o2 -> ow_snapshot o2 = ow_snapshot o ->
      stage_received o2 bs = (o2, Ok (mk_staged (owner_base o2) r)).
Proof. apply prepared_agree. Qed.

(** A conflicting block halts an owner exactly when it is equivocation
    evidence: an authenticated block of the historically selected producer
    for a committed slot, with the same parent and ticket as the committed
    block but an unknown hash.  No other traffic can freeze progress, and the
    committed history is untouched in every case. *)
Theorem conflict_halt_iff o bs proof :
  distinct_producers -> live_owner run_id o -> open_envelope (genesis_of run_id) bs = Ok proof ->
  (ow_halted (owner_admit o proof).1 = true <->
   exists r, conflicts (ow_snapshot o) (ce_block (ae_envelope proof)) r) /\
  ow_snapshot (owner_admit o proof).1 = ow_snapshot o /\
  (ow_halted (owner_admit o proof).1 = false -> (owner_admit o proof).1 = o).
Proof.
  intros Hd Ho Hopen. split; [by eapply admit_halts_iff|].
  destruct (admit_keeps o proof) as (_ & Hs & _ & _ & _ & Hsame). split; [done|].
  intros H. apply Hsame. by rewrite H, (lo_halted _ _ Ho).
Qed.
End OwnerProperties.

(** ** An owner of run "run-1" at genesis *)

Definition toy_owner : Owner :=
  mk_owner toy_genesis (Snapshot_initial toy_genesis) 1 false false None.

Lemma toy_live_owner : @live_owner toy_keccak toy_k256 (str "run-1") toy_owner.
Proof. constructor; [reflexivity|apply audited_initial|reflexivity..]. Qed.

Lemma toy_slot_view : @slot_view toy_keccak (Snapshot_initial toy_genesis) toy_genesis = Ok toy_view.
Proof.
  destruct (@initial_audited_prefix toy_keccak toy_k256 (str "run-1")) as [px A].
  unfold slot_view, toy_genesis. rewrite (au_prefix _ _ _ A), bind_of_Ok.
  pose proof (au_reachable _ _ _ A) as (px0 & E0 & _).
  pose proof (lp_accepted _ _ (au_live _ _ _ A)) as Hacc.
  apply prefix_sound in Hacc as [_ Epx]. rewrite (lp_genesis _ _ (au_live _ _ _ A)), (au_state _ _ _ A),
    (au_headers _ _ _ A) in Epx.
  assert (px = toy_prefix) as ->; [|by rewrite toy_view_ok]. exact Epx.
Qed.

(** The toy scheme's signature of the producer with key [KEY_A]. *)
Definition toy_signature : bytes := drop 1 KEY_A ++ drop 1 KEY_A ++ [x00].

Definition toy_key : b32 := mk_b32 (drop 1 KEY_A) eq_refl.

Lemma toy_recovers digest :
  @recover_public_key toy_k256 (mk_native_signature toy_signature) digest = Ok toy_key.
Proof. vm_compute. reflexivity. Qed.

Lemma toy_config : exists c, find_config (pol_configs (g_policy toy_genesis)) (str "trial-A") = Some c /\
  KEY_A = cfg_public_key c /\ @encoded_point toy_k256 true toy_key = cfg_public_key c.
Proof. eexists. split; [reflexivity|]. split; vm_compute; reflexivity. Qed.

Lemma toy_opens block :
  @wf_c1_block toy_keccak block -> hc_producer (cb_claim block) = str "trial-A" ->
  exists bs proof, @open_envelope toy_keccak toy_k256 toy_genesis bs = Ok proof /\
    ce_block (ae_envelope proof) = block.
Proof.
  intros Hw Hp. set (e := mk_c1_envelope block (pol_network (g_policy toy_genesis)) toy_signature).
  exists (@C1Envelope_wire_bytes toy_keccak e).
  set (digest := @claim_signing_digest toy_keccak (cb_claim block) (pol_network (g_policy toy_genesis))).
  set (header := mk_auth_header (cb_claim block) (pol_network (g_policy toy_genesis))
    (mk_native_signature toy_signature) digest KEY_A).
  exists (mk_auth_envelope e header).
  split; [|done]. unfold open_envelope.
  rewrite (proj2 (@c1_envelope_codec_iff toy_keccak _ e)).
  2:{ split; [|done]. constructor; [exact Hw|apply keccak256_length|reflexivity]. }
  rewrite bind_of_Ok. unfold C1Envelope_authenticate, protocol. cbn [e ce_block ce_network ce_signature].
  rewrite (proj2 (@claim_authenticate_iff toy_keccak toy_k256 _ toy_genesis _ toy_signature header)); [reflexivity|].
  constructor; cbn [header ah_network ah_signature ah_digest ah_claim ah_key]; [reflexivity| |reflexivity|reflexivity|done].
  destruct toy_config as (c & Hc & Ek & Ep). exists c, toy_key. rewrite Hp.
  split_and!; [exact Hc|exact Ek|apply toy_recovers|exact Ep].
Qed.

Lemma toy_prepared : exists pb,
  @prepare_next toy_keccak toy_k256 toy_owner (str "trial-A") 1 [] = Ok pb /\
  @wf_c1_block toy_keccak (pb_block pb) /\ hc_producer (cb_claim (pb_block pb)) = str "trial-A" /\
  cb_transactions (pb_block pb) = [].
Proof.
  destruct (@stage_native_empty toy_keccak toy_k256 _ _ _ toy_live_view) as (native & rec & Hn).
  destruct toy_selection_ok as (s & Hs & Eo & Et).
  destruct (@built_block toy_keccak toy_k256 _ _ _ _ _ _ _ toy_live_view Hn Hs)
    as (block & Hb & Hw & Hf & Htx).
  destruct (@build_step toy_keccak toy_k256 _ _ _ _ _ _ _ toy_distinct toy_live_view Hn Hs)
    as (block' & st & _ & Hb' & _ & Hc & _). rewrite Hb in Hb'. injection Hb' as <-.
  exists (mk_prepared (owner_base toy_owner) block st (applied_outcome rec)).
  cbn [pb_block]. split_and!; [|exact Hw|by rewrite (bf_producer _ _ _ _ Hf)|exact Htx].
  unfold prepare_next, owner_slot_start. rewrite (live_work_ready _ _ toy_live_owner), bind_of_Ok.
  cbn [toy_owner ow_snapshot ow_genesis]. rewrite toy_slot_view, bind_of_Ok, Hs.
  unfold protocol at 1. cbn [map_err]. rewrite bind_of_Ok, Eo, Et.
  rewrite (neq_dec_false (str "trial-A")), (neq_dec_false 1%Z) by reflexivity.
  rewrite (fail_if_false (false || false) _ eq_refl), bind_of_Ok, Hn, bind_of_Ok, Hb, bind_of_Ok.
  unfold check_transactions, body_pairs. rewrite Htx. cbn [zip zip_with check_rows].
  by rewrite bind_of_Ok, Hc, bind_of_Ok.
Qed.

(** The first block of the run, prepared, signed and received. *)
Lemma toy_staged : exists pb bs proof r,
  @prepare_next toy_keccak toy_k256 toy_owner (str "trial-A") 1 [] = Ok pb /\
  @open_envelope toy_keccak toy_k256 toy_genesis bs = Ok proof /\
  ce_block (ae_envelope proof) = pb_block pb /\
  @stage_received toy_keccak toy_k256 toy_owner bs = (toy_owner, Ok (mk_staged (owner_base toy_owner) r)) /\
  @appends toy_keccak toy_k256 toy_genesis (Snapshot_initial toy_genesis) r /\
  cb_transactions (br_block r) = [].
Proof.
  destruct toy_prepared as (pb & Hp & Hw & Hprod & Hbody).
  destruct (toy_opens (pb_block pb) Hw Hprod) as (bs & proof & Hopen & Hblk).
  destruct (@prepared_agree toy_keccak toy_k256 (str "run-1") toy_owner _ _ _ pb bs proof
    toy_distinct toy_live_owner Hp Hopen Hblk) as [(r & Hr & _)|(r & _ & Ha & Eb & Hrecv)].
  - apply not_elem_of_nil in Hr as [].
  - exists pb, bs, proof, r. rewrite <- Eb in Hbody.
    split; [exact Hp|]. split; [exact Hopen|]. split; [exact Hblk|].
    split; [exact (Hrecv toy_owner toy_live_owner eq_refl)|]. split; [exact Ha|exact Hbody].
Qed.

(** The first record of the run and the snapshot it leads to. *)
Lemma toy_first_insert r :
  @appends toy_keccak toy_k256 toy_genesis (Snapshot_initial toy_genesis) r ->
  cb_transactions (br_block r) = [] ->
  exists s', @Snapshot_insert toy_keccak (Snapshot_initial toy_genesis) r = Ok s'.
Proof.
  intros Ha Hbody. destruct (@initial_audited_prefix toy_keccak toy_k256 (str "run-1")) as [px A].
  destruct (@insert_reduces toy_keccak toy_k256 _ _ _ _ A Ha) as [E _].
  rewrite Hbody in E. cbn [body_ids map zip zip_with index_rows] in E. rewrite bind_of_Ok in E.
  eexists. exact E.
Qed.

Lemma toy_record : exists r s',
  @appends toy_keccak toy_k256 toy_genesis (Snapshot_initial toy_genesis) r /\
  @Snapshot_insert toy_keccak (Snapshot_initial toy_genesis) r = Ok s'.
Proof.
  destruct toy_staged as (_ & _ & _ & r & _ & _ & _ & _ & Ha & Hbody).
  destruct (toy_first_insert r Ha Hbody) as (s' & Hs). exists r, s'. split; [exact Ha|exact Hs].
Qed.

Lemma producer_receiver_agree_witness :
  exists pb bs r, @seal_prepared toy_keccak toy_k256 toy_owner pb bs =
      (toy_owner, Ok (mk_staged (owner_base toy_owner) r)) /\
    @stage_received toy_keccak toy_k256 toy_owner bs =
      (toy_owner, Ok (mk_staged (owner_base toy_owner) r)).
Proof.
  destruct toy_prepared as (pb & Hp & Hw & Hprod & _).
  destruct (toy_opens (pb_block pb) Hw Hprod) as (bs & proof & Hopen & Hblk).
  destruct (@producer_receiver_agree toy_keccak toy_k256 (str "run-1") toy_owner _ _ _ pb bs proof
    toy_distinct toy_live_owner Hp Hopen Hblk) as [(r & Hr & _)|(r & Hseal & _ & _ & Hrecv)].
  - apply not_elem_of_nil in Hr as [].
  - exists pb, bs, r. split; [exact Hseal|exact (Hrecv toy_owner toy_live_owner eq_refl)].
Defined.

Lemma conflict_halt_iff_witness :
  exists proof, ow_snapshot (@owner_admit toy_keccak toy_owner proof).1 = Snapshot_initial toy_genesis.
Proof.
  destruct toy_prepared as (pb & Hp & Hw & Hprod & _).
  destruct (toy_opens (pb_block pb) Hw Hprod) as (bs & proof & Hopen & Hblk). exists proof.
  apply (@conflict_halt_iff toy_keccak toy_k256 (str "run-1") toy_owner bs proof
    toy_distinct toy_live_owner Hopen).
Defined.
