(* ===== verification/PoashReplay.v ===== *)
(** * Stored rows and their replay (src/src/native_poash/storage/sql.rs)

    The byte rows a snapshot is stored as, and the replay of the audit: it
    rebuilds every block from its row and the transaction rows, and
    authenticates, plans, stages and compounds it again from genesis.

    The theorem shows that replaying the rows of an audited snapshot gives
    back exactly that snapshot, so stored rows have one reading. *)

From S2P Require Import Prelude Codec Crypto BlockCommitment NativeTransaction.
From S2P Require Import NativeTransfer NativeBlock BlockAuthentication LeaderSelection.
From S2P Require Import PoashBase PoashState PoashSelection PoashGenesis PoashClaim.
From S2P Require Import PoashHistory PoashAdmission PoashApplication PoashCompound PoashChain.
From S2P Require Import PoashSnapshot PoashOwner.

Abbreviation Row := (list bytes).

Definition u64_cell (n : Z) : bytes := be_bytes 8 n.
Definition u128_cell (n : Z) : bytes := be_bytes 16 n.

Definition year_bytes : bytes := YearZero_encode YearZero_approved.

Definition account_row (a : C1Account) : Row :=
  [acc_address a; u128_cell (acc_balance a); u64_cell (acc_nonce a)].

Definition accounting_row (s : ClosedState) : result app_error Row :=
  let d := cs_data s in
  supply ← ok_or (n ← checked_add U128 INITIAL_SUPPLY (s_base_issuance d);
                  checked_sub n (s_fees_burned d)) (AppError.Protocol PoashError.Overflow);
  Ok [u64_cell (s_gas_used d); u128_cell (s_fees_burned d); u128_cell (s_base_issuance d);
      u128_cell supply; u64_cell (pos_slot (s_position d)); u128_cell (s_fees_burned d)].

Definition state_row (s : ClosedState) : Row :=
  [u64_cell (pos_slot (s_position (cs_data s))); pos_hash (s_position (cs_data s)); cs_bytes s; cs_id s].

Definition body_row (r : BlockRecord) : Row :=
  [u64_cell (pos_slot (br_position r)); u64_cell (Z.of_nat (length (cb_transactions (br_block r))));
   u64_cell (outcome_gas_used (br_outcome r)); u64_cell (outcome_fees_burned (br_outcome r))].

(** [credits.last().expect("complete compound credit")]: a compound state has
    at least the credit just added. *)
Definition reward_row (r : BlockRecord) : Row :=
  match last (s_credits (cs_data (br_state r))) with
  | Some c => [u64_cell (c_slot c); c_validator c; u128_cell (c_amount c); u64_cell 0;
               u64_cell REWARD_HOLD_EPOCHS]
  | None => []
  end.

Definition tip_row (p : Position) : Row := [u64_cell (pos_slot p); pos_hash p].

(** One native entry: id, slot, position, sender, nonce, signed bytes. *)
Definition transaction_row (slot : Z) (i : nat) (p : bytes * bytes) : Row :=
  [p.2; u64_cell slot; u64_cell (Z.of_nat i); (sender_nonce p.1).1; u64_cell (sender_nonce p.1).2; p.1].

Definition transaction_rows (r : BlockRecord) : list Row :=
  imap (transaction_row (pos_slot (br_position r))) (body_pairs (br_block r) (br_outcome r)).

Section Rows.
  Context `{KE : Keccak} `{KC : K256}.

Definition block_row (r : BlockRecord) : Row :=
  let e := ae_envelope (br_proof r) in
  let b := ce_block e in
  let h := hc_header (cb_claim b) in
  [u64_cell (slot h); C1Block_hash b; parent_hash h; BlockHeader_canonical_bytes h;
   hc_producer (cb_claim b); ProtocolData_canonical_bytes (cb_protocol b); ce_signature e;
   C1Envelope_id e].

(** [row[i]] where the width list fixes the number of columns. *)
Definition cell (i : nat) (row : Row) : bytes := nth i row [].

(** One iteration of the replay. *)
Definition replay_row (g : Genesis) (txs : list Row) (s : Snapshot) (row : Row) :
    result app_error Snapshot :=
  let n := be_val (cell 0 row) in
  fail_if (n !=? pos_slot (tip s) + 1)%Z
    (AppError.Protocol (PoashError.MissingHistory (pos_slot (tip s) + 1)));;
  header ← ok_or (BlockHeader_from_canonical_bytes (cell 3 row)) (AppError.Invalid "header");
  pd ← ok_or (ProtocolData_from_canonical_bytes (cell 5 row)) (AppError.Invalid "protocol");
  let body := map (cell 5) (filter (fun tx => cell 1 tx = cell 0 row) txs) in
  fail_if (negb (utf8_valid (cell 4 row))) (AppError.Invalid "utf8");;
  b ← C1Block_from_parts header (cell 4 row) pd body;
  proof ← C1Envelope_authenticate
            (C1Envelope_from_parts b (pol_network (g_policy g)) (cell 6 row)) g;
  view ← slot_view s g;
  protocol (plan view (ae_header proof));;
  '(native, applied) ← stage_native view (cb_transactions (ce_block (ae_envelope proof)));
  state ← compound view (ce_block (ae_envelope proof)) native (applied_outcome applied);
  Snapshot_insert s (mk_record proof (applied_outcome applied) state).

Fixpoint replay_rows (g : Genesis) (txs : list Row) (rows : list Row) (s : Snapshot) :
    result app_error Snapshot :=
  match rows with
  | [] => Ok s
  | row :: rest => s' ← replay_row g txs s row; replay_rows g txs rest s'
  end.

(** Blocks then bodies, from the independent genesis. *)
Definition replay (g : Genesis) (blocks txs : list Row) : result app_error Snapshot :=
  replay_rows g txs blocks (Snapshot_initial g).
End Rows.

(** ** Which transaction rows belong to a block *)

Lemma imap_map {A B} (f : nat -> A -> B) (h : A -> B) l :
  (forall i a, f i a = h a) -> imap f l = map h l.
Proof.
  intros H. apply list_eq. intros i. rewrite list_lookup_imap.
  change (map h l !! i) with ((h <$> l) !! i). rewrite list_lookup_fmap. by destruct (l !! i); simpl; [rewrite H|].
Qed.

Lemma cell_slot r row :
  row ∈ transaction_rows r -> cell 1 row = u64_cell (pos_slot (br_position r)).
Proof.
  intros (i & p & -> & _)%elem_of_lookup_imap. done.
Qed.

Lemma transaction_rows_bodies r :
  length (transaction_ids (br_outcome r)) = length (cb_transactions (br_block r)) ->
  map (cell 5) (transaction_rows r) = cb_transactions (br_block r).
Proof.
  intros Hl. unfold transaction_rows.
  change (map (cell 5)) with (fmap (M := list) (cell 5)). rewrite fmap_imap.
  rewrite (imap_map _ fst) by done. unfold body_pairs. apply fst_zip. lia.
Qed.

Lemma filter_own r :
  filter (fun tx => cell 1 tx = u64_cell (pos_slot (br_position r))) (transaction_rows r) =
  transaction_rows r.
Proof. apply filter_all, Forall_forall. intros row. apply cell_slot. Qed.

Lemma filter_other n rs :
  in_width U64 n ->
  Forall (fun r => in_width U64 (pos_slot (br_position r)) /\ pos_slot (br_position r) <> n) rs ->
  filter (fun tx => cell 1 tx = u64_cell n) (concat (map transaction_rows rs)) = [].
Proof.
  intros Hn H. induction H as [|r rs [Hw Hne] _ IH]; [done|]. cbn [map concat]. rewrite filter_app, IH, app_nil_r.
  destruct (filter _ (transaction_rows r)) as [|row l] eqn:E; [done|exfalso].
  assert (row ∈ filter (fun tx => cell 1 tx = u64_cell n) (transaction_rows r)) as Hin by (rewrite E; left).
  apply list_elem_of_filter in Hin as [Hc Hin]. rewrite (cell_slot _ _ Hin) in Hc.
  apply (be_bytes_inj 8 U64) in Hc; done.
Qed.

(** ** Replay inverts storing *)

Section Roundtrip.
  Context {KE : Keccak} {KC : K256} (run_id : bytes) (Hdist : distinct_producers).

Let g := genesis_of run_id.

Definition stored_blocks (s : Snapshot) : list Row := map block_row (sn_records s).
Definition stored_transactions (s : Snapshot) : list Row := concat (map transaction_rows (sn_records s)).

Lemma audited_ids s i r :
  audited g s -> sn_records s !! i = Some r ->
  transaction_ids (br_outcome r) = body_ids (cb_transactions (br_block r)).
Proof.
  intros H Hi. destruct (audited_record run_id Hdist s i r H Hi) as (prior & _ & Hau & Ha & _).
  destruct (audited_has_prefix run_id Hdist prior Hau) as [px A].
  by destruct (appends_facts _ _ _ _ A Ha) as (_ & _ & _ & _ & _ & _ & _ & _ & ? & _).
Qed.

Lemma stored_body s i r :
  audited g s -> sn_records s !! i = Some r ->
  map (cell 5) (filter (fun tx => cell 1 tx = u64_cell (Z.of_nat i + 1)) (stored_transactions s)) =
  cb_transactions (br_block r).
Proof.
  intros H Hi. destruct (audited_slots run_id s H) as [Htip Hpos].
  destruct (audited_has_prefix run_id Hdist s H) as [px A].
  assert (pos_slot (tip s) <= 200)%Z as Hmax.
  { unfold tip. rewrite <- (au_state _ _ _ A).
    apply (ap_bound _ _ _ (live_prefix_context run_id px (au_live _ _ _ A))). }
  pose proof (lookup_lt_Some _ _ _ Hi) as Hlt.
  assert (forall j r', sn_records s !! j = Some r' ->
    in_width U64 (pos_slot (br_position r')) /\ pos_slot (br_position r') = (Z.of_nat j + 1)%Z) as Hw.
  { intros j r' Hj. rewrite (Hpos j r' Hj). apply lookup_lt_Some in Hj. unfold in_width. simpl. lia. }
  unfold stored_transactions. rewrite <- (take_drop_middle _ _ _ Hi), map_app, concat_app.
  cbn [map concat]. rewrite !filter_app.
  replace (u64_cell (Z.of_nat i + 1)) with (u64_cell (pos_slot (br_position r)))
    by (by rewrite (proj2 (Hw i r Hi))).
  destruct (Hw i r Hi) as [Hwr Hir].
  rewrite filter_own, !filter_other, app_nil_l, app_nil_r; [|done| |done|].
  - apply transaction_rows_bodies. rewrite (audited_ids s i r H Hi). unfold body_ids. by rewrite length_map.
  - apply Forall_forall. intros r' [j Hj]%list_elem_of_lookup. rewrite lookup_drop in Hj.
    destruct (Hw _ _ Hj) as [? ->]. split; [by rewrite <- (proj2 (Hw _ _ Hj))|]. lia.
  - apply Forall_forall. intros r' [j Hj]%list_elem_of_lookup.
    apply lookup_take_Some in Hj as [Hj Hji]. destruct (Hw _ _ Hj) as [? Ej]. split; [done|]. lia.
Qed.

(** One row replays to the record it was written from. *)
Lemma replay_row_stored txs s r :
  audited g s -> appends g s r ->
  slot (hc_header (cb_claim (br_block r))) = (pos_slot (tip s) + 1)%Z ->
  map (cell 5) (filter (fun tx => cell 1 tx = u64_cell (pos_slot (tip s) + 1)) txs) =
    cb_transactions (br_block r) ->
  replay_row g txs s (block_row r) = Snapshot_insert s r.
Proof.
  intros H Ha Hslot Hbody. destruct Ha as [view proof p native applied st Hv Hw Hsig Hauth Hp Hn Hc].
  change (br_block (mk_record proof (applied_outcome applied) st)) with (ce_block (ae_envelope proof)) in *.
  unfold replay_row, block_row, cell, u64_cell in *. cbv zeta. cbn [nth br_proof] in *.
  set (block := ce_block (ae_envelope proof)) in *. pose proof (wb_valid _ Hw) as Hval.
  pose proof (wb_header _ Hw) as Hh. pose proof Hh as Hh'. unfold wf_header in Hh'.
  rewrite Hslot.
  rewrite (be_val_bytes_width 8 U64), neq_dec_false, (fail_if_false false _ eq_refl), bind_of_Ok
    by (done || (rewrite <- Hslot; apply Hh')).
  rewrite (proj2 (header_codec_iff _ _)), ok_or_of_Some, bind_of_Ok by done.
  pose proof (cv_missed _ Hval) as Hm.
  assert (length (ProtocolData_canonical_bytes (cb_protocol block)) = 10%nat) as Hl10
    by (rewrite (protocol_data_none _ Hm); apply length_protocol_data_none).
  assert (ProtocolData_from_canonical_bytes (ProtocolData_canonical_bytes (cb_protocol block)) =
    Some (cb_protocol block)) as ->.
  { apply protocol_data_codec_iff; [by rewrite Hl10|]. split; [|done].
    split; [apply (wb_fees _ Hw)|]. by rewrite Hm. }
  rewrite ok_or_of_Some, bind_of_Ok.
  rewrite Hbody.
  assert (utf8_valid (hc_producer (cb_claim block)) = true) as ->
    by (destruct (cl_producer _ _ _ (cv_claim _ Hval)) as [[-> | ->] _]; vm_compute; reflexivity).
  rewrite (fail_if_false (negb true) _ eq_refl), bind_of_Ok.
  assert (C1Block_from_parts (hc_header (cb_claim block)) (hc_producer (cb_claim block))
    (cb_protocol block) (cb_transactions block) = Ok block) as ->.
  { apply c1_from_parts_iff. split; [done|]. rewrite <- (cv_count _ Hval). by destruct block as [[? ? ?] ? ?]. }
  rewrite bind_of_Ok. unfold C1Envelope_from_parts.
  pose proof Hauth as Hauth'. unfold C1Envelope_authenticate in Hauth'.
  apply bind_Ok in Hauth' as (hd & Hhd & _). apply map_err_Ok, claim_authenticate_iff in Hhd.
  rewrite <- (at_network _ _ _ _ _ Hhd). fold block.
  replace (mk_c1_envelope block (ce_network (ae_envelope proof)) (ce_signature (ae_envelope proof)))
    with (ae_envelope proof) by (unfold block; by destruct (ae_envelope proof)).
  rewrite Hauth, bind_of_Ok, Hv, bind_of_Ok, Hp. unfold protocol. cbn [map_err]. fold block.
  by rewrite bind_of_Ok, Hn, bind_of_Ok, Hc, bind_of_Ok.
Qed.

Lemma replay_suffix s l pre s0 :
  audited g s -> sn_records s = pre ++ l -> insert_all (Snapshot_initial g) pre = Ok s0 ->
  replay_rows g (stored_transactions s) (map block_row l) s0 = Ok s.
Proof.
  intros H. revert pre s0. induction l as [|r l IH]; intros pre s0 E H0.
  { rewrite app_nil_r in E. destruct (audited_replay g s (length (sn_records s)) H)
      as (s1 & H1 & _ & _ & _ & Hs). rewrite Hs in H1 by done. rewrite take_ge, E, H0 in H1 by done.
    by injection H1 as <-. }
  assert (sn_records s !! length pre = Some r) as Hi by (by rewrite E, list_lookup_middle).
  destruct (audited_record run_id Hdist s _ r H Hi) as (prior & Hp & Hau & Ha & Hslot).
  fold g in Hp, Hau, Ha. rewrite E, take_app_length, H0 in Hp. injection Hp as <-.
  destruct (audited_slots run_id s0 Hau) as [Htip _].
  assert (pos_slot (tip s0) + 1 = Z.of_nat (length pre) + 1)%Z as Ht.
  { destruct (audited_replay g s (length pre) H) as (s1 & H1 & _ & Hr & _).
    rewrite E, take_app_length in H1, Hr. rewrite H0 in H1. injection H1 as <-. rewrite Htip, Hr. done. }
  cbn [map replay_rows]. rewrite replay_row_stored; [|done|done|by rewrite Ht|].
  2:{ rewrite Ht. by apply stored_body. }
  destruct (audited_replay g s (S (length pre)) H) as (s1 & H1 & _).
  rewrite E, cons_middle, app_assoc, take_app_length' in H1 by (rewrite length_app; simpl; lia).
  rewrite insert_all_app, H0, bind_of_Ok in H1. cbn [insert_all] in H1.
  destruct (Snapshot_insert s0 r) as [s1'|] eqn:Hins; [|done]. rewrite bind_of_Ok in *. injection H1 as <-.
  apply (IH (pre ++ [r])); [by rewrite E, <- app_assoc|].
  rewrite insert_all_app, H0, bind_of_Ok. cbn [insert_all]. by rewrite Hins.
Qed.

Lemma replay_stored s :
  audited g s -> replay g (stored_blocks s) (stored_transactions s) = Ok s.
Proof. intros H. by apply (replay_suffix s (sn_records s) []). Qed.

(** Whatever the replay accepts was built by audited steps. *)
Lemma replay_row_ok txs s row s' :
  (Z.of_nat (length (cell 5 row)) < U64)%Z ->
  audited g s -> replay_row g txs s row = Ok s' -> audited g s'.
Proof.
  intros Hl H E. unfold replay_row in E. cbv zeta in E. apply bind_Ok in E as ([] & _ & E).
  apply bind_Ok in E as (header & Hh & E). apply bind_Ok in E as (pd & Hpd & E).
  apply bind_Ok in E as ([] & _ & E). apply bind_Ok in E as (b & Hb & E).
  apply bind_Ok in E as (proof & Hauth & E). apply bind_Ok in E as (view & Hv & E).
  apply bind_Ok in E as (p & Hp & E). apply bind_Ok in E as ([native applied] & Hn & E).
  apply bind_Ok in E as (st & Hc & E). apply map_err_Ok in Hp.
  pose proof Hauth as Hauth'. unfold C1Envelope_authenticate in Hauth'.
  apply bind_Ok in Hauth' as (hd & Hhd & Eproof). injection Eproof as <-.
  cbn [ae_envelope C1Envelope_from_parts ce_block ce_network ce_signature] in *.
  apply map_err_Ok, claim_authenticate_iff in Hhd.
  pose proof (signature_from_bytes_id _ _ (at_signature _ _ _ _ _ Hhd)) as [Hsig _].
  apply ok_or_Ok, header_codec_iff in Hh as [Hwh _]. apply ok_or_Ok, protocol_data_codec_iff in Hpd as [[Hf _] _]; [|done].
  destruct (audited_has_prefix run_id Hdist s H) as [px A].
  pose proof (slot_view_prefix _ _ _ _ A Hv) as Hlv.
  destruct (stage_native_inv _ _ _ _ _ _ Hlv Hn) as (_ & _ & _ & _ & _ & _ & Hlen).
  apply c1_from_parts_iff in Hb as [Hval Eb].
  eapply audited_append; [exact H| |exact E]. eapply appends_intro; try done.
  cbn [ae_envelope ce_block]. constructor; [by rewrite Eb|by rewrite Eb|done|done].
Qed.

Lemma replay_rows_ok txs rows s s' :
  Forall (fun row => (Z.of_nat (length (cell 5 row)) < U64)%Z) rows ->
  audited g s -> replay_rows g txs rows s = Ok s' -> audited g s'.
Proof.
  intros Hl. revert s. induction Hl as [|row rows Hr _ IH]; intros s H E; [by injection E as <-|].
  cbn [replay_rows] in E. apply bind_Ok in E as (s1 & E1 & E). eapply IH; [|exact E].
  by eapply replay_row_ok.
Qed.
End Roundtrip.

Section ReplayProperties.
  Context {KE : Keccak} {KC : K256} (run_id : bytes).

(** C23: stored history has exactly one reading.  Replaying the block and
    transaction rows of an audited snapshot from genesis (decoding,
    re-authenticating, re-planning, re-staging and compounding every block)
    succeeds and gives back the same snapshot: state, records with original
    evidence and both indexes.  Whatever rows a replay accepts, the snapshot
    it returns was built by audited steps. *)
Theorem replay_exact s blocks txs s' :
  distinct_producers -> audited (genesis_of run_id) s ->
  Forall (fun row => (Z.of_nat (length (cell 5 row)) < U64)%Z) blocks ->
  replay (genesis_of run_id) blocks txs = Ok s' ->
  replay (genesis_of run_id) (stored_blocks s) (stored_transactions s) = Ok s /\
  audited (genesis_of run_id) s' /\
  (blocks = stored_blocks s -> txs = stored_transactions s -> s' = s).
Proof.
  intros Hd H Hl E. pose proof (replay_stored run_id Hd s H) as Hs. split_and!; [done| |].
  - eapply replay_rows_ok; [exact Hd|exact Hl|constructor|exact E].
  - intros -> ->. congruence.
Qed.
End ReplayProperties.

Lemma replay_exact_witness :
  exists r s, sn_records s = [r] /\
    @replay toy_keccak toy_k256 toy_genesis (@stored_blocks toy_keccak s) (stored_transactions s) = Ok s.
Proof.
  destruct toy_record as (r & s & Ha & Hi).
  assert (@audited toy_keccak toy_k256 toy_genesis s) as H by (eapply audited_append; [constructor|exact Ha|exact Hi]).
  exists r, s. split.
  - by destruct (@insert_shape toy_keccak _ _ _ Hi) as (_ & -> & _).
  - apply (@replay_exact toy_keccak toy_k256 (str "run-1") s [] [] (Snapshot_initial toy_genesis)
      toy_distinct H); [constructor|reflexivity].
Defined.
