(* ===== verification/PoashSql.v ===== *)
(** * The schema-4 database (src/src/native_poash/storage/sql.rs)

    SQLite is a parameter: [Sqlite] lists the statements the code executes
    and [SqliteLaws] the documented behaviour it relies on (statements see
    the open transaction, [COMMIT] publishes it whole, [ROLLBACK] discards
    it, a failed statement changes nothing or rolls the transaction back).
    Every statement may fail at any time, and other processes may write
    between transactions.

    The theorems show that [verify] accepts exactly stored bytes, that the
    write sequence of an append turns the stored snapshot into the next one,
    and that the audit reads back what was stored. *)

From S2P Require Import Prelude Codec Crypto BlockCommitment NativeTransaction.
From S2P Require Import NativeTransfer NativeBlock BlockAuthentication LeaderSelection.
From S2P Require Import PoashBase PoashState PoashSelection PoashGenesis PoashClaim.
From S2P Require Import PoashHistory PoashAdmission PoashApplication PoashCompound PoashChain.
From S2P Require Import PoashSnapshot PoashOwner PoashReplay.

(** ** Tables and statements *)

Inductive table : Type :=
| TAccounts | TAccounting | TYearZero | TBlocks | TBodies | TStates | TRewards | TCanonicalTip
| TTransactions.

#[export] Instance table_eq_dec : EqDecision table.
Proof. solve_decision. Defined.

Definition table_name (t : table) : string :=
  match t with
  | TAccounts => "accounts" | TAccounting => "accounting" | TYearZero => "year_zero"
  | TBlocks => "blocks" | TBodies => "bodies" | TStates => "states" | TRewards => "rewards"
  | TCanonicalTip => "canonical_tip" | TTransactions => "transactions"
  end.

Record Metadata : Type := mk_metadata {
  md_version : bytes;
  md_mode : bytes;
  md_genesis : bytes;
  md_revision : bytes;
  md_barrier : bytes;
  md_initialized : Z
}.

(** Rows in the order the queries ask for. *)
Record Contents : Type := mk_contents {
  ct_metadata : list Metadata;
  ct_rows : table -> list Row
}.

Definition empty_contents : Contents := mk_contents [] (fun _ => []).

(** The ORDER BY columns: the primary key, or slot and position; the
    singleton tables are keyed by their fixed id. *)
Definition row_key (t : table) (row : Row) : bytes :=
  match t with
  | TTransactions => cell 1 row ++ cell 2 row
  | TAccounting | TYearZero | TCanonicalTip => []
  | _ => cell 0 row
  end.
Definition row_leb (t : table) (a b : Row) : bool := bytes_leb (row_key t a) (row_key t b).

Definition insert_row (t : table) (row : Row) (rows : list Row) : list Row :=
  insert_sorted (row_leb t) row rows.

(** [ON CONFLICT(key) DO UPDATE] *)
Definition upsert_row (t : table) (row : Row) (rows : list Row) : list Row :=
  if existsb (fun r => row_key t r ==? row_key t row) rows then
    map (fun r => if row_key t r ==? row_key t row then row else r) rows
  else insert_row t row rows.

Definition set_rows (t : table) (rows : list Row) (c : Contents) : Contents :=
  mk_contents (ct_metadata c) (fun t' => if decide (t' = t) then rows else ct_rows c t').

Definition set_revision (r : bytes) (m : Metadata) : Metadata :=
  mk_metadata (md_version m) (md_mode m) (md_genesis m) r (md_barrier m) (md_initialized m).
Definition set_barrier (b : bytes) (m : Metadata) : Metadata :=
  mk_metadata (md_version m) (md_mode m) (md_genesis m) (md_revision m) b (md_initialized m).
Definition set_initialized (m : Metadata) : Metadata :=
  mk_metadata (md_version m) (md_mode m) (md_genesis m) (md_revision m) (md_barrier m) 1.

(** The data-changing statements of the file. *)
Inductive write : Type :=
| Insert (t : table) (row : Row)
| Upsert (t : table) (row : Row)
| InsertMetadata (m : Metadata)
| MarkInitialized
| UpdateRevision (new old : bytes)
| UpdateBarrier (new old : bytes)
| UpdateTip (new old : Row).

(** The effect of a statement and the number of rows it reports. *)
Definition apply_write (w : write) (c : Contents) : Contents * Z :=
  match w with
  | Insert t row => (set_rows t (insert_row t row (ct_rows c t)) c, 1%Z)
  | Upsert t row => (set_rows t (upsert_row t row (ct_rows c t)) c, 1%Z)
  | InsertMetadata m => (mk_contents (ct_metadata c ++ [m]) (ct_rows c), 1%Z)
  | MarkInitialized =>
      (mk_contents (map set_initialized (ct_metadata c)) (ct_rows c), Z.of_nat (length (ct_metadata c)))
  | UpdateRevision new old =>
      (mk_contents (map (fun m => if md_revision m ==? old then set_revision new m else m) (ct_metadata c))
         (ct_rows c),
       Z.of_nat (length (filter (fun m => md_revision m = old) (ct_metadata c))))
  | UpdateBarrier new old =>
      (mk_contents (map (fun m => if md_barrier m ==? old then set_barrier new m else m) (ct_metadata c))
         (ct_rows c),
       Z.of_nat (length (filter (fun m => md_barrier m = old) (ct_metadata c))))
  | UpdateTip new old =>
      (set_rows TCanonicalTip
         (map (fun r => if r ==? old then new else r) (ct_rows c TCanonicalTip)) c,
       Z.of_nat (length (filter (fun r => r = old) (ct_rows c TCanonicalTip))))
  end.

(** ** The engine *)

Class Sqlite : Type := {
  conn : Type;
  (** what another connection would read now *)
  committed : conn -> Contents;
  (** the contents the open transaction sees; [None] is autocommit mode *)
  transaction : conn -> option Contents;
  sq_begin : conn -> conn * result string ();
  sq_commit : conn -> conn * result string ();
  sq_rollback : conn -> conn * result string ();
  sq_create_schema : conn -> conn * result string ();
  sq_write : write -> conn -> conn * result string Z;
  sq_metadata : conn -> result string (list Metadata);
  sq_select : table -> conn -> result string (list Row);
  (** exact tables and triggers, [integrity_check] and [foreign_key_check] *)
  sq_schema : conn -> result app_error ()
}.

Definition visible `{Sqlite} (c : conn) : Contents := default (committed c) (transaction c).

Class SqliteLaws (S : Sqlite) : Prop := {
  begin_ok : forall c c', sq_begin c = (c', Ok ()) -> transaction c' = Some (committed c');
  begin_err : forall c c' e, sq_begin c = (c', Err e) -> transaction c' = transaction c;
  commit_ok : forall c c' p, transaction c = Some p -> sq_commit c = (c', Ok ()) ->
    committed c' = p /\ transaction c' = None;
  commit_err : forall c c' p e, transaction c = Some p -> sq_commit c = (c', Err e) ->
    committed c' = committed c \/ committed c' = p;
  rollback_ok : forall c c', sq_rollback c = (c', Ok ()) ->
    committed c' = committed c /\ transaction c' = None;
  rollback_err : forall c c' e, sq_rollback c = (c', Err e) -> committed c' = committed c;
  create_ok : forall c c' p, transaction c = Some p -> sq_create_schema c = (c', Ok ()) ->
    committed c' = committed c /\ transaction c' = Some p;
  create_err : forall c c' p e, transaction c = Some p -> sq_create_schema c = (c', Err e) ->
    committed c' = committed c;
  write_ok : forall w c c' p n, transaction c = Some p -> sq_write w c = (c', Ok n) ->
    committed c' = committed c /\ transaction c' = Some (apply_write w p).1 /\ n = (apply_write w p).2;
  write_err : forall w c c' p e, transaction c = Some p -> sq_write w c = (c', Err e) ->
    committed c' = committed c /\ (transaction c' = Some p \/ transaction c' = None);
  metadata_ok : forall c ms, sq_metadata c = Ok ms -> ms = ct_metadata (visible c);
  select_ok : forall t c rows, sq_select t c = Ok rows -> rows = ct_rows (visible c) t
}.

(** ** Statements in sequence *)

(** A computation on a connection: it keeps the connection when it fails. *)
Definition sql `{Sqlite} (A : Type) : Type := conn -> conn * result app_error A.

#[export] Instance sql_ret `{Sqlite} : MRet sql := fun A a c => (c, Ok a).
#[export] Instance sql_bind `{Sqlite} : MBind sql := fun A B f m c =>
  let '(c', r) := m c in match r with Ok a => f a c' | Err e => (c', Err e) end.

(** [sql::error] *)
Definition sql_error (e : string) : app_error := AppError.Storage (StoreError.Invalid e).

Section Sql.
  Context `{SQ : Sqlite} `{KE : Keccak} `{KC : K256}.

Definition sq_lift {A} (r : result app_error A) : sql A := fun c => (c, r).
(** A query, which does not change the connection. *)
Definition sq_read {A} (f : conn -> result app_error A) : sql A := fun c => (c, f c).
Definition sq_run {A} (f : conn -> conn * result string A) : sql A :=
  fun c => let '(c', r) := f c in (c', map_err sql_error r).

(** ** Reading and comparing *)

Fixpoint cells_ok (widths : list (Z * Z)) (i : nat) (row : Row) : bool :=
  match widths with
  | [] => true
  | (low, high) :: rest =>
      (low <=? Z.of_nat (length (cell i row)))%Z && (Z.of_nat (length (cell i row)) <=? high)%Z &&
      cells_ok rest (S i) row
  end.

(** The cursor loop of [rows]. *)
Fixpoint bounded_rows (t : table) (widths : list (Z * Z)) (limit n : Z) (rows : list Row) :
    result app_error () :=
  match rows with
  | [] => Ok ()
  | row :: rest =>
      fail_if (limit <=? n)%Z (AppError.Invalid (table_name t +:+ " row bound"));;
      fail_if (negb (cells_ok widths 0 row)) (AppError.Invalid "bounded unsigned BLOB");;
      bounded_rows t widths limit (n + 1) rest
  end.

Definition rows (t : table) (widths : list (Z * Z)) (limit : Z) (c : conn) : result app_error (list Row) :=
  rs ← map_err sql_error (sq_select t c);
  bounded_rows t widths limit 0 rs;;
  Ok rs.

Definition policy (g : Genesis) (c : conn) : result app_error Z :=
  ms ← map_err sql_error (sq_metadata c);
  match ms with
  | [m] =>
      fail_if ((md_version m !=? be_bytes 4 4) || (md_mode m !=? str "native-poash-c1") ||
               (md_genesis m !=? g_bytes g) || (md_initialized m !=? 1)%Z)
        (AppError.Invalid "independent exact genesis/schema policy");;
      fail_if (length (md_barrier m) !=? 8%nat) (AppError.Invalid "bounded unsigned BLOB");;
      fail_if (length (md_revision m) !=? 8%nat) (AppError.Invalid "bounded unsigned BLOB");;
      Ok (be_val (md_revision m))
  | _ => Err (AppError.Storage StoreError.Uninitialized)
  end.

(** Column widths and row bound of each table's check. *)
Definition block_widths : list (Z * Z) :=
  [(8, 8); (32, 32); (32, 32); (229, 229); (7, 7); (10, 10); (65, 65); (32, 32)]%Z.
Definition transaction_widths : list (Z * Z) :=
  [(32, 32); (8, 8); (8, 8); (20, 20); (8, 8); (199, 199)]%Z.
Definition widths_of (t : table) : list (Z * Z) :=
  match t with
  | TAccounts => [(20, 20); (16, 16); (8, 8)]
  | TAccounting => [(8, 8); (16, 16); (16, 16); (16, 16); (8, 8); (16, 16)]
  | TYearZero => [(120, 120)]
  | TBlocks => block_widths
  | TBodies => [(8, 8); (8, 8); (8, 8); (8, 8)]
  | TStates => [(8, 8); (32, 32); (610, 200000); (32, 32)]
  | TRewards => [(8, 8); (7, 7); (16, 16); (8, 8); (8, 8)]
  | TCanonicalTip => [(8, 8); (32, 32)]
  | TTransactions => transaction_widths
  end%Z.
Definition limit_of (t : table) : Z :=
  match t with
  | TAccounts => MAX_ACCOUNTS
  | TAccounting | TYearZero | TCanonicalTip => 1
  | TStates => MAX_SLOTS + 1
  | TTransactions => MAX_SLOTS * MAX_ENTRIES
  | _ => MAX_SLOTS
  end%Z.

(** The exact rows a snapshot is stored as. *)
Definition expected (g : Genesis) (s : Snapshot) (accounting : Row) (t : table) : list Row :=
  match t with
  | TAccounts => map account_row (s_accounts (cs_data (sn_state s)))
  | TAccounting => [accounting]
  | TYearZero => [[year_bytes]]
  | TBlocks => stored_blocks s
  | TBodies => map body_row (sn_records s)
  | TStates => state_row (g_initial g) :: map (fun r => state_row (br_state r)) (sn_records s)
  | TRewards => map reward_row (sn_records s)
  | TCanonicalTip => [tip_row (tip s)]
  | TTransactions => stored_transactions s
  end.

Fixpoint check_tables (g : Genesis) (s : Snapshot) (accounting : Row) (ts : list table) (c : conn) :
    result app_error () :=
  match ts with
  | [] => Ok ()
  | t :: rest =>
      rs ← rows t (widths_of t) (limit_of t) c;
      fail_if (rs !=? expected g s accounting t)
        (AppError.Invalid ("exact " +:+ table_name t +:+ " materialization"));;
      check_tables g s accounting rest c
  end.

Definition verify (g : Genesis) (s : Snapshot) (c : conn) : result app_error () :=
  sq_schema c;;
  revision ← policy g c;
  fail_if (revision !=? pos_slot (tip s)) (AppError.Invalid "revision/base");;
  accounting ← accounting_row (sn_state s);
  check_tables g s accounting
    [TAccounts; TAccounting; TYearZero; TBlocks; TBodies; TStates; TRewards; TCanonicalTip] c;;
  rs ← rows TTransactions transaction_widths (MAX_SLOTS * MAX_ENTRIES) c;
  fail_if (rs !=? stored_transactions s) (AppError.Invalid "exact native indexes/body").

(** ** Writing *)

Fixpoint sq_for_each (ws : list write) : sql () :=
  match ws with
  | [] => mret ()
  | w :: rest => sq_run (sq_write w);; sq_for_each rest
  end.

Definition write_accounts (s : ClosedState) : sql () :=
  sq_for_each (map (fun a => Upsert TAccounts (account_row a)) (s_accounts (cs_data s))).
Definition write_accounting (s : ClosedState) : sql () :=
  row ← sq_lift (accounting_row s); sq_run (sq_write (Upsert TAccounting row));; mret ().
Definition insert_block (r : BlockRecord) : sql () := sq_for_each [Insert TBlocks (block_row r)].
Definition insert_body (r : BlockRecord) : sql () := sq_for_each [Insert TBodies (body_row r)].
Definition insert_transactions (r : BlockRecord) : sql () :=
  sq_for_each (map (Insert TTransactions) (transaction_rows r)).
Definition insert_reward (r : BlockRecord) : sql () := sq_for_each [Insert TRewards (reward_row r)].
Definition insert_state (s : ClosedState) : sql () := sq_for_each [Insert TStates (state_row s)].

(** A compare-and-swap that must change exactly one row. *)
Definition cas (w : write) (e : app_error) : sql () :=
  n ← sq_run (sq_write w); sq_lift (fail_if (n !=? 1)%Z e).

(** The closure of [commit] between BEGIN and COMMIT. *)
Definition commit_writes (g : Genesis) (base next : Snapshot) (r : BlockRecord) : sql () :=
  sq_read (fun c => match verify g base c with Ok _ => Ok () | Err _ => Err AppError.Stale end);;
  write_accounts (sn_state next);;
  write_accounting (sn_state next);;
  insert_block r;;
  insert_body r;;
  insert_transactions r;;
  insert_reward r;;
  insert_state (sn_state next);;
  cas (UpdateRevision (u64_cell (pos_slot (tip next))) (u64_cell (pos_slot (tip base))))
    (AppError.Invalid "revision CAS");;
  cas (UpdateTip (tip_row (tip next)) (tip_row (tip base))) (AppError.Invalid "tip CAS").

Definition initialize (g : Genesis) : sql () :=
  sq_run sq_create_schema;;
  sq_run (sq_write (InsertMetadata (mk_metadata (be_bytes 4 4) (str "native-poash-c1") (g_bytes g)
    (u64_cell 0) (u64_cell 0) 0)));;
  sq_run (sq_write (Insert TYearZero [year_bytes]));;
  write_accounts (g_initial g);;
  write_accounting (g_initial g);;
  insert_state (g_initial g);;
  sq_run (sq_write (Insert TCanonicalTip [u64_cell 0; BlockHeader_hash genesis_anchor]));;
  sq_run (sq_write MarkInitialized);;
  mret ().

(** ** The audit and the durability barrier *)

Definition audit_reads (g : Genesis) (c : conn) : result app_error Snapshot :=
  sq_schema c;;
  revision ← policy g c;
  fail_if (MAX_SLOTS <? revision)%Z (AppError.Protocol PoashError.ExperimentLimit);;
  blocks ← rows TBlocks block_widths MAX_SLOTS c;
  txs ← rows TTransactions transaction_widths (MAX_SLOTS * MAX_ENTRIES) c;
  s ← replay g blocks txs;
  fail_if (revision !=? pos_slot (tip s))
    (AppError.Protocol (PoashError.MissingHistory (pos_slot (tip s) + 1)));;
  verify g s c;;
  Ok s.

Definition audit (g : Genesis) : sql Snapshot := fun c =>
  let '(c, began) := sq_begin c in
  match began with
  | Err e => (c, Err (sql_error e))
  | Ok _ =>
      let result := audit_reads g c in
      let '(c, ended) := sq_rollback c in
      (c, s ← result; map_err sql_error ended;; Ok s)
  end.

(** [uncertain] *)
Definition uncertain (e : string) : app_error := AppError.Storage (StoreError.RecoveryRequired e).

(** [sync] is what syncing the file and its directory returns. *)
Definition barrier (describe : app_error -> string) (sync : result string ()) (g : Genesis) (s : Snapshot) :
    sql () := fun c =>
  let '(c, began) := sq_begin c in
  match began with
  | Err e => (c, Err (uncertain (describe (sql_error e))))
  | Ok _ =>
      let '(c, r) :=
        (sq_read (verify g s);;
         ms ← sq_read (fun c => map_err sql_error (sq_metadata c));
         old ← sq_lift (ok_or (md_barrier <$> head ms) (sql_error "barrier"));
         next ← sq_lift (ok_or (checked_add U64 (be_val old) 1) (AppError.Protocol PoashError.Overflow));
         cas (UpdateBarrier (u64_cell next) old) (AppError.Invalid "barrier CAS");;
         sq_run sq_commit;;
         sq_lift (map_err sql_error sync)) c in
      (c, map_err (fun e => uncertain (describe e)) r)
  end.
End Sql.

(** ** Rows in key order *)

Lemma bytes_compare_val a b :
  length a = length b -> bytes_compare a b = Z.compare (be_val a) (be_val b).
Proof.
  revert b. induction a as [|x a IH]; intros [|y b] Hl; try done. injection Hl as Hl.
  cbn [bytes_compare]. rewrite !be_val_cons, Hl.
  pose proof (be_val_range a) as Ha. pose proof (be_val_range b) as Hb. rewrite Hl in Ha.
  set (m := (256 ^ Z.of_nat (length b))%Z) in *.
  destruct (Z.compare_spec (byte_val x) (byte_val y)) as [E|E|E].
  - rewrite IH, E by done.
    destruct (Z.compare_spec (be_val a) (be_val b)); symmetry;
      [apply Z.compare_eq_iff|apply Z.compare_lt_iff|apply Z.compare_gt_iff]; lia.
  - symmetry. apply Z.compare_lt_iff. nia.
  - symmetry. apply Z.compare_gt_iff. nia.
Qed.

Lemma bytes_leb_false a b :
  length a = length b -> (be_val b < be_val a)%Z -> bytes_leb a b = false.
Proof.
  intros Hl Hv. unfold bytes_leb. rewrite bytes_compare_val by done.
  by rewrite (proj2 (Z.compare_gt_iff _ _)) by lia.
Qed.

Lemma insert_row_last t row rs :
  Forall (fun r => row_leb t row r = false) rs -> insert_row t row rs = rs ++ [row].
Proof.
  unfold insert_row. induction 1 as [|r rs Hr _ IH]; [done|]. cbn [insert_sorted app]. by rewrite Hr, IH.
Qed.

Lemma row_leb_total t a b : row_leb t a b = true \/ row_leb t b a = true.
Proof. apply bytes_leb_total. Qed.
Lemma row_leb_trans t a b c : row_leb t a b = true -> row_leb t b c = true -> row_leb t a c = true.
Proof. apply bytes_leb_trans. Qed.

(** Rows with one row per key, in key order. *)
Definition keyed (t : table) (rs : list Row) : Prop :=
  sorted (row_leb t) rs /\ NoDup (map (row_key t) rs).

Lemma keyed_eq t a b : keyed t a -> keyed t b -> (forall x, x ∈ a <-> x ∈ b) -> a = b.
Proof.
  intros [Sa Na] [Sb Nb] H. apply (sorted_perm_eq (row_leb t)); [done..| |].
  - apply NoDup_Permutation; [by eapply NoDup_fmap_1..|done].
  - intros x y Hx Hy H1 H2. eapply NoDup_key_inj; [exact Na|done..|]. by apply bytes_leb_antisym.
Qed.

Lemma sorted_map_keys t (f : Row -> Row) rs :
  (forall r, row_key t (f r) = row_key t r) -> sorted (row_leb t) rs -> sorted (row_leb t) (map f rs).
Proof.
  intros Hf. induction 1 as [|r rs Hle _ IH]; cbn [map]; constructor; [|done].
  intros y (x & -> & Hx)%list_elem_of_fmap. unfold row_leb. rewrite !Hf. by apply Hle.
Qed.

Lemma upsert_keyed t row rs :
  keyed t rs ->
  keyed t (upsert_row t row rs) /\
  (forall x, x ∈ upsert_row t row rs <-> x = row \/ x ∈ rs /\ row_key t x <> row_key t row).
Proof.
  intros [Hs Hn]. unfold upsert_row.
  set (f := fun r => if row_key t r ==? row_key t row then row else r).
  assert (forall r, row_key t (f r) = row_key t r) as Hf.
  { intros r. unfold f. case_bool_decide as E; [by rewrite E|done]. }
  destruct (existsb _ rs) eqn:Hex.
  - apply existsb_exists in Hex as (r & Hr%list_elem_of_In & Hk%bool_decide_eq_true).
    split; [split; [by apply sorted_map_keys|rewrite map_map; by rewrite (map_ext _ _ Hf)]|].
    intros x. split.
    + intros (y & -> & Hy)%list_elem_of_fmap. unfold f. case_bool_decide as E; [by left|by right].
    + intros [->|[Hx Hne]]; apply list_elem_of_fmap.
      * exists r. split; [|done]. unfold f. by rewrite bool_decide_eq_true_2.
      * exists x. split; [|done]. unfold f. by rewrite bool_decide_eq_false_2.
  - assert (forall r, r ∈ rs -> row_key t r <> row_key t row) as Hfresh.
    { intros r Hr E. apply not_true_iff_false in Hex. apply Hex, existsb_exists. exists r.
      split; [by apply list_elem_of_In|by apply bool_decide_eq_true]. }
    pose proof (insert_sorted_perm (row_leb t) row rs) as Hp. unfold insert_row.
    split; [split|].
    + apply insert_sorted_sorted; [intros; apply row_leb_total|intros ? ? ?; apply row_leb_trans|done].
    + rewrite Hp. cbn [map]. constructor; [|done].
      intros (r & E & Hr)%list_elem_of_fmap. by apply (Hfresh r Hr).
    + intros x. rewrite Hp, elem_of_cons. split; [intros [->|Hx]; [by left|right; auto]|intros [->|[Hx _]]; auto].
Qed.

(** Upserting a whole table whose keys include the old ones replaces it. *)
Lemma upsert_all t old new :
  keyed t old -> keyed t new -> (forall r, r ∈ old -> row_key t r ∈ map (row_key t) new) ->
  foldl (fun rs row => upsert_row t row rs) old new = new.
Proof.
  intros Ho Hn Hsub.
  assert (forall l, NoDup (map (row_key t) l) ->
    let u := foldl (fun rs row => upsert_row t row rs) old l in
    keyed t u /\ forall x, x ∈ u <-> x ∈ l \/ x ∈ old /\ row_key t x ∉ map (row_key t) l) as Hinv.
  { intros l. induction l as [|row l IH] using rev_ind; cbv zeta.
    - intros _. split; [done|]. intros x. cbn [foldl map]. set_solver.
    - intros Hnd. rewrite map_app in Hnd. apply NoDup_app in Hnd as (Hnd & Hdis & _).
      destruct (IH Hnd) as [Hk Hx]. rewrite foldl_app. cbn [foldl].
      destruct (upsert_keyed t row _ Hk) as [Hk' Hx']. split; [done|]. intros x. rewrite Hx', Hx.
      rewrite map_app. cbn [map]. rewrite !elem_of_app, !list_elem_of_singleton.
      assert (x ∈ l -> row_key t x <> row_key t row).
      { intros Hl E. apply (Hdis (row_key t x)); [by apply list_elem_of_fmap_2|]. rewrite E. left. }
      tauto. }
  destruct (Hinv new (proj2 Hn)) as [Hk Hx]. apply (keyed_eq t); [done..|].
  intros x. rewrite Hx. split; [|by left]. intros [?|[Hold Hnk]]; [done|]. by destruct Hnk; apply Hsub.
Qed.

(** ** Statements under an open transaction *)

Section Steps.
  Context {SQ : Sqlite} {L : SqliteLaws SQ}.

(** Run inside a transaction that sees [p], [m] leaves the committed contents
    alone; when it succeeds the transaction sees contents satisfying [Q]. *)
Definition steps {A} (m : sql A) (p : Contents) (Q : A -> Contents -> Prop) : Prop :=
  forall c c' r, transaction c = Some p -> m c = (c', r) ->
    committed c' = committed c /\
    (forall a, r = Ok a -> exists p', transaction c' = Some p' /\ Q a p').

Lemma steps_bind {A B} (m : sql A) (f : A -> sql B) p R Q :
  steps m p R -> (forall a p', R a p' -> steps (f a) p' Q) -> steps (m ≫= f) p Q.
Proof.
  intros Hm Hf c c' r Hp E. unfold mbind, sql_bind in E. destruct (m c) as [c1 r1] eqn:E1.
  destruct (Hm _ _ _ Hp E1) as [Hc Hr]. destruct r1 as [a|e].
  - destruct (Hr a eq_refl) as (p1 & Hp1 & HR). destruct (Hf a p1 HR _ _ _ Hp1 E) as [Hc' Hr'].
    split; [by rewrite Hc'|done].
  - injection E as <- <-. split; [done|]. by intros a [=].
Qed.

Lemma steps_weaken {A} (m : sql A) p (Q R : A -> Contents -> Prop) :
  steps m p Q -> (forall a p', Q a p' -> R a p') -> steps m p R.
Proof.
  intros H HQ c c' r Hp E. destruct (H _ _ _ Hp E) as [Hc Hr]. split; [done|].
  intros a Ha. destruct (Hr a Ha) as (p' & ? & ?). eauto.
Qed.

Lemma steps_ret {A} (a : A) p : steps (mret a) p (fun b p' => b = a /\ p' = p).
Proof. intros c c' r Hp [= <- <-]. split; [done|]. intros b [= <-]. eauto. Qed.

Lemma steps_lift {A} (x : result app_error A) p : steps (sq_lift x) p (fun a p' => x = Ok a /\ p' = p).
Proof. intros c c' r Hp [= <- <-]. split; [done|]. intros b ->. eauto. Qed.

Lemma steps_read {A} (f : conn -> result app_error A) p :
  steps (sq_read f) p (fun a p' => p' = p /\ exists c, visible c = p /\ f c = Ok a).
Proof.
  intros c c' r Hp [= <- <-]. split; [done|]. intros a Ha. exists p. split_and!; [done..|].
  exists c. split; [|done]. unfold visible. by rewrite Hp.
Qed.

Lemma steps_write w p :
  steps (sq_run (sq_write w)) p (fun n p' => p' = (apply_write w p).1 /\ n = (apply_write w p).2).
Proof.
  intros c c' r Hp E. unfold sq_run in E. destruct (sq_write w c) as [c1 r1] eqn:E1. injection E as <- <-.
  destruct r1 as [n|e].
  - destruct (write_ok _ _ _ _ _ Hp E1) as (Hc & Ht & Hn). split; [done|]. intros a [= <-]. eauto.
  - destruct (write_err _ _ _ _ _ Hp E1) as [Hc _]. split; [done|]. by intros a [=].
Qed.

(** The contents after a list of statements. *)
Definition exec (ws : list write) (p : Contents) : Contents :=
  foldl (fun p w => (apply_write w p).1) p ws.

Lemma steps_for_each ws p : steps (sq_for_each ws) p (fun _ p' => p' = exec ws p).
Proof.
  revert p. induction ws as [|w ws IH]; intros p; cbn [sq_for_each].
  - eapply steps_weaken; [apply steps_ret|]. by intros a p' [_ ->].
  - eapply steps_bind; [apply steps_write|]. intros n p' [-> _]. apply IH.
Qed.

Lemma steps_cas w e p :
  steps (cas w e) p (fun _ p' => p' = (apply_write w p).1 /\ (apply_write w p).2 = 1%Z).
Proof.
  unfold cas. eapply steps_bind; [apply steps_write|]. intros n p' [-> ->].
  eapply steps_weaken; [apply steps_lift|]. intros [] p' [H ->]. inv_ok. done.
Qed.
End Steps.

(** What runs of upserts or inserts into one table do. *)
Lemma exec_upserts t rs p :
  ct_metadata (exec (map (Upsert t) rs) p) = ct_metadata p /\
  forall t', ct_rows (exec (map (Upsert t) rs) p) t' =
    if decide (t' = t) then foldl (fun rs row => upsert_row t row rs) (ct_rows p t) rs else ct_rows p t'.
Proof.
  unfold exec. revert p. induction rs as [|r rs IH]; intros p; cbn [map foldl].
  - split; [done|]. intros t'. case_decide; by subst.
  - destruct (IH (apply_write (Upsert t r) p).1) as [Hm Hr]. split; [done|]. intros t'. rewrite Hr.
    cbn [apply_write fst set_rows ct_rows]. by destruct (decide (t' = t)) as [->|]; [rewrite decide_True|].
Qed.

Lemma exec_inserts t rs p :
  ct_metadata (exec (map (Insert t) rs) p) = ct_metadata p /\
  forall t', ct_rows (exec (map (Insert t) rs) p) t' =
    if decide (t' = t) then foldl (fun rs row => insert_row t row rs) (ct_rows p t) rs else ct_rows p t'.
Proof.
  unfold exec. revert p. induction rs as [|r rs IH]; intros p; cbn [map foldl].
  - split; [done|]. intros t'. case_decide; by subst.
  - destruct (IH (apply_write (Insert t r) p).1) as [Hm Hr]. split; [done|]. intros t'. rewrite Hr.
    cbn [apply_write fst set_rows ct_rows]. by destruct (decide (t' = t)) as [->|]; [rewrite decide_True|].
Qed.

(** ** Stored snapshots *)

Section Stored.
  Context {KE : Keccak} {KC : K256}.

Record policy_row (g : Genesis) (s : Snapshot) (m : Metadata) : Prop := {
  po_version : md_version m = be_bytes 4 4;
  po_mode : md_mode m = str "native-poash-c1";
  po_genesis : md_genesis m = g_bytes g;
  po_revision : md_revision m = u64_cell (pos_slot (tip s));
  po_barrier : length (md_barrier m) = 8%nat;
  po_initialized : md_initialized m = 1%Z
}.

(** The database holds exactly this snapshot. *)
Record stored (g : Genesis) (s : Snapshot) (p : Contents) : Prop := {
  so_policy : exists m, ct_metadata p = [m] /\ policy_row g s m;
  so_rows : exists accounting, accounting_row (sn_state s) = Ok accounting /\
    forall t, ct_rows p t = expected g s accounting t
}.
End Stored.

Section Verify.
  Context {SQ : Sqlite} {L : SqliteLaws SQ} {KE : Keccak} {KC : K256}.

Lemma rows_ok t widths limit c rs :
  rows t widths limit c = Ok rs -> rs = ct_rows (visible c) t /\ Forall (fun r => cells_ok widths 0 r = true) rs.
Proof.
  unfold rows. intros (rs' & Hs & H)%bind_Ok. apply bind_Ok in H as ([] & Hb & H). injection H as <-.
  apply map_err_Ok in Hs. split; [by apply select_ok|]. clear Hs.
  generalize dependent 0%Z. induction rs' as [|r rs' IH]; intros n Hb; [constructor|].
  cbn [bounded_rows] in Hb. apply bind_Ok in Hb as ([] & _ & Hb). apply bind_Ok in Hb as ([] & Hc & Hb).
  constructor; [|by eapply IH]. by inv_ok.
Qed.

Lemma policy_ok g c n :
  policy g c = Ok n -> exists m, ct_metadata (visible c) = [m] /\ md_version m = be_bytes 4 4 /\
    md_mode m = str "native-poash-c1" /\ md_genesis m = g_bytes g /\ md_initialized m = 1%Z /\
    length (md_barrier m) = 8%nat /\ length (md_revision m) = 8%nat /\ n = be_val (md_revision m).
Proof.
  unfold policy. intros (ms & Hm & H)%bind_Ok. apply map_err_Ok, metadata_ok in Hm.
  destruct ms as [|m [|? ?]]; [done| |done]. exists m. rewrite <- Hm. inv_ok. by split_and!.
Qed.

Lemma check_tables_ok g s acc ts c :
  check_tables g s acc ts c = Ok () -> Forall (fun t => ct_rows (visible c) t = expected g s acc t) ts.
Proof.
  induction ts as [|t ts IH]; [constructor|]. cbn [check_tables]. intros (rs & Hr & H)%bind_Ok.
  apply bind_Ok in H as ([] & He & H). apply rows_ok in Hr as [Hr _]. inv_ok.
  constructor; [congruence|by apply IH].
Qed.

(** [verify] accepts only a database that holds exactly the snapshot. *)
Lemma verify_stored g s c : verify g s c = Ok () -> stored g s (visible c).
Proof.
  unfold verify. intros H. apply bind_Ok in H as ([] & _ & H). apply bind_Ok in H as (n & Hp & H).
  apply bind_Ok in H as ([] & Hn & H). apply bind_Ok in H as (acc & Ha & H).
  apply bind_Ok in H as ([] & Ht & H). apply bind_Ok in H as (rs & Hr & H).
  apply check_tables_ok in Ht. apply rows_ok in Hr as [Hr _].
  apply policy_ok in Hp as (m & Em & ? & ? & ? & ? & ? & Hl & ->). inv_ok.
  constructor.
  - exists m. split; [done|]. constructor; try done.
    match goal with H : be_val _ = _ |- _ => rewrite <- H end. unfold u64_cell. by rewrite be_bytes_val.
  - exists acc. split; [done|]. rewrite !Forall_cons in Ht. destruct_and!.
    intros []; try done. cbn [expected]. congruence.
Qed.
End Verify.

(** ** Appending a record to the tables *)

Lemma u64_cell_val n : in_width U64 n -> be_val (u64_cell n) = n.
Proof. apply be_val_bytes_width. done. Qed.

Lemma insert_next t (f : BlockRecord -> Row) pre rs r :
  (forall i r', (rs ++ [r]) !! i = Some r' -> row_key t (f r') = u64_cell (Z.of_nat i + 1)) ->
  (length rs < 200)%nat ->
  Forall (fun row => row_key t row = u64_cell 0) pre ->
  insert_row t (f r) (pre ++ map f rs) = pre ++ map f (rs ++ [r]).
Proof.
  intros Hk Hl Hpre. rewrite map_app, app_assoc. apply insert_row_last.
  assert (row_key t (f r) = u64_cell (Z.of_nat (length rs) + 1)) as Er
    by (apply Hk; by rewrite lookup_app_r, Nat.sub_diag).
  assert (forall k, (0 <= k < Z.of_nat (length rs) + 1)%Z ->
    bytes_leb (u64_cell (Z.of_nat (length rs) + 1)) (u64_cell k) = false) as Hlt.
  { intros k Hkr. apply bytes_leb_false; [done|]. rewrite !u64_cell_val by (unfold in_width; lia). lia. }
  apply Forall_app. split.
  - eapply Forall_impl; [exact Hpre|]. intros row E. unfold row_leb. rewrite Er, E. apply Hlt. lia.
  - apply Forall_forall. intros row (r' & -> & [i Hi]%list_elem_of_lookup)%list_elem_of_fmap.
    unfold row_leb. rewrite Er, (Hk i r') by (by apply lookup_app_l_Some).
    apply Hlt. apply lookup_lt_Some in Hi. lia.
Qed.

Lemma insert_transactions_last slot pairs old :
  in_width U64 slot -> (Z.of_nat (length pairs) < U64)%Z ->
  Forall (fun row => length (row_key TTransactions row) = 16%nat /\
    be_val (row_key TTransactions row) < slot * U64)%Z old ->
  foldl (fun rs row => insert_row TTransactions row rs) old (imap (transaction_row slot) pairs) =
  old ++ imap (transaction_row slot) pairs.
Proof.
  intros Hs Hl Hold.
  assert (forall i p, (Z.of_nat i < U64)%Z -> length (row_key TTransactions (transaction_row slot i p)) = 16%nat /\
    be_val (row_key TTransactions (transaction_row slot i p)) = slot * U64 + Z.of_nat i)%Z as Hkey.
  { intros i p Hi. cbn [row_key transaction_row cell nth]. unfold u64_cell.
    rewrite length_app, !length_be_bytes. split; [done|].
    rewrite be_val_app, length_be_bytes, !(be_val_bytes_width 8 U64) by (done || (unfold in_width; lia)). done. }
  revert Hl. induction pairs as [|p pairs IH] using rev_ind; intros Hl; [by rewrite app_nil_r|].
  rewrite length_app in Hl. simpl length in Hl.
  rewrite imap_app, foldl_app, IH by lia. cbn [imap foldl]. rewrite app_assoc. unfold compose.
  rewrite Nat.add_0_r. apply insert_row_last. destruct (Hkey (length pairs) p ltac:(lia)) as [Hlp Hvp].
  apply Forall_app. split.
  - eapply Forall_impl; [exact Hold|]. intros row [Hlr Hvr]. apply bytes_leb_false; [congruence|]. lia.
  - apply Forall_forall. intros row (i & q & -> & Hi%lookup_lt_Some)%elem_of_lookup_imap.
    destruct (Hkey i q ltac:(lia)) as [Hlq Hvq]. apply bytes_leb_false; [congruence|]. lia.
Qed.

Section Append.
  Context {KE : Keccak} {KC : K256} (run_id : bytes) (Hdist : distinct_producers).

Let g := genesis_of run_id.

Lemma audited_length s : audited g s -> (length (sn_records s) <= 200)%nat.
Proof.
  intros H. destruct (audited_slots run_id s H) as [Htip _].
  destruct (audited_has_prefix run_id Hdist s H) as [px A].
  pose proof (ap_bound _ _ _ (live_prefix_context run_id px (au_live _ _ _ A))) as Hb.
  rewrite (au_state _ _ _ A) in Hb. fold (tip s) in Hb. unfold MAX_SLOTS in Hb. lia.
Qed.

(** Every row of record [i] is keyed by slot [i+1]. *)
Lemma audited_row_keys s i r :
  audited g s -> sn_records s !! i = Some r ->
  let k := u64_cell (Z.of_nat i + 1) in
  row_key TBlocks (block_row r) = k /\ row_key TBodies (body_row r) = k /\
  row_key TStates (state_row (br_state r)) = k /\ row_key TRewards (reward_row r) = k.
Proof.
  intros H Hi. cbv zeta. destruct (audited_slots run_id s H) as [_ Hpos].
  destruct (audited_record run_id Hdist s i r H Hi) as (prior & _ & Hau & Ha & Hslot).
  destruct (audited_has_prefix run_id Hdist prior Hau) as [px A].
  destruct (appends_facts _ _ _ _ A Ha) as (_ & native & sel & _ & _ & _ & _ & Est & _).
  pose proof (Hpos i r Hi) as Ep. split_and!.
  - cbn. by rewrite <- Hslot.
  - cbn. by rewrite Ep.
  - cbn. fold (br_position r). by rewrite Ep.
  - unfold reward_row. rewrite Est. unfold next_data. cbv zeta. cbn [cs_data closed_state s_credits].
    rewrite last_snoc. cbn [row_key cell nth c_slot]. unfold br_position in Ep. rewrite Est in Ep.
    cbn [cs_data closed_state next_data s_position] in Ep. injection Ep as Ep. by rewrite Ep.
Qed.

Lemma state_accounts_keyed s : audited g s -> keyed TAccounts (map account_row (s_accounts (cs_data (sn_state s)))).
Proof.
  intros H. destruct (audited_has_prefix run_id Hdist s H) as [px A].
  pose proof (lp_live _ _ (au_live _ _ _ A)) as Lv. rewrite (au_state _ _ _ A) in Lv. split.
  - pose proof (lv_sorted _ _ Lv) as Hs. apply (f_equal s_accounts) in Hs. rewrite <- Hs.
    unfold sort_snapshot. cbn [s_accounts].
    pose proof (sort_by_sorted (fun a b => bytes_leb (acc_address a) (acc_address b))
      ltac:(intros; apply bytes_leb_total) ltac:(intros ? ? ?; apply bytes_leb_trans)
      (s_accounts (cs_data (sn_state s)))) as Hsort.
    induction Hsort as [|a l Hle _ IH]; cbn [map]; constructor; [|done].
    intros y (b & -> & Hb)%list_elem_of_fmap. apply (Hle b Hb).
  - rewrite map_map. apply (vs_unique _ _ (lv_valid _ _ Lv)).
Qed.

(** Accounts are never dropped. *)
Lemma append_accounts_kept s r row :
  audited g s -> appends g s r -> row ∈ map account_row (s_accounts (cs_data (sn_state s))) ->
  row_key TAccounts row ∈ map (row_key TAccounts) (map account_row (s_accounts (cs_data (br_state r)))).
Proof.
  intros H Ha (a & -> & Hin)%list_elem_of_fmap. rewrite map_map.
  destruct (audited_has_prefix run_id Hdist s H) as [px A].
  destruct (appends_facts _ _ _ _ A Ha) as (view & native & sel & Hv & _ & (rec & Hn & _) & _ & Est & _).
  destruct (stage_native_inv _ _ _ _ _ _ Hv Hn) as (Hns & _). rewrite Est.
  change (acc_address a ∈ map acc_address (account_rows (accounts native))).
  apply account_rows_elem, (ns_kept _ _ _ Hns). rewrite (au_state _ _ _ A). by apply list_elem_of_fmap_2.
Qed.
End Append.

Section CommitWrites.
  Context {SQ : Sqlite} {L : SqliteLaws SQ} {KE : Keccak} {KC : K256}.
  Context (run_id : bytes) (Hdist : distinct_producers).

Let g := genesis_of run_id.

(** The statements of an append, after the base check. *)
Definition append_list (base next : Snapshot) (r : BlockRecord) (accounting : Row) : list write :=
  map (Upsert TAccounts) (map account_row (s_accounts (cs_data (sn_state next)))) ++
  [Upsert TAccounting accounting; Insert TBlocks (block_row r); Insert TBodies (body_row r)] ++
  map (Insert TTransactions) (transaction_rows r) ++
  [Insert TRewards (reward_row r); Insert TStates (state_row (sn_state next));
   UpdateRevision (u64_cell (pos_slot (tip next))) (u64_cell (pos_slot (tip base)));
   UpdateTip (tip_row (tip next)) (tip_row (tip base))].

Lemma steps_write_accounting st p :
  steps (write_accounting st) p (fun _ p' => exists accounting,
    accounting_row st = Ok accounting /\ p' = exec [Upsert TAccounting accounting] p).
Proof.
  unfold write_accounting. eapply steps_bind; [apply steps_lift|]. intros row p2 [Hrow ->].
  eapply steps_bind; [apply steps_write|]. intros n p3 [-> _].
  eapply steps_weaken; [apply steps_ret|]. intros [] p4 [_ ->]. exists row. split; [done|reflexivity].
Qed.

Lemma steps_write_accounts st p :
  steps (write_accounts st) p (fun _ p' =>
    p' = exec (map (Upsert TAccounts) (map account_row (s_accounts (cs_data st)))) p).
Proof. rewrite map_map. apply steps_for_each. Qed.

Lemma exec_app a b p : exec (a ++ b) p = exec b (exec a p).
Proof. apply foldl_app. Qed.

Lemma commit_writes_exec base next r p :
  steps (commit_writes g base next r) p (fun _ p' =>
    stored g base p /\ exists accounting, accounting_row (sn_state next) = Ok accounting /\
      p' = exec (append_list base next r accounting) p).
Proof.
  unfold commit_writes. eapply steps_bind; [apply steps_read|]. intros [] p0 (-> & c & Hc & Hv).
  assert (stored g base p) as Hst.
  { rewrite <- Hc. apply verify_stored. destruct (verify g base c) as [[]|]; done. }
  eapply steps_bind; [apply steps_write_accounts|]. intros [] p1 ->.
  eapply steps_bind; [apply steps_write_accounting|]. intros [] p2 (row & Hrow & ->).
  do 5 (eapply steps_bind; [apply steps_for_each|]; intros [] ? ->).
  eapply steps_bind; [apply steps_cas|]. intros [] p8 [-> _].
  eapply steps_weaken; [apply steps_cas|]. intros [] p9 [-> _]. split; [done|]. exists row. split; [done|].
  unfold append_list. rewrite !exec_app. reflexivity.
Qed.

(** Rows of the three groups of single statements. *)
Lemma exec_blocks accounting b d p t :
  ct_rows (exec [Upsert TAccounting accounting; Insert TBlocks b; Insert TBodies d] p) t =
  match t with
  | TAccounting => upsert_row TAccounting accounting (ct_rows p TAccounting)
  | TBlocks => insert_row TBlocks b (ct_rows p TBlocks)
  | TBodies => insert_row TBodies d (ct_rows p TBodies)
  | _ => ct_rows p t
  end.
Proof. by destruct t. Qed.

Lemma exec_tail rw st rn ro tn to p t :
  ct_rows (exec [Insert TRewards rw; Insert TStates st; UpdateRevision rn ro; UpdateTip tn to] p) t =
  match t with
  | TRewards => insert_row TRewards rw (ct_rows p TRewards)
  | TStates => insert_row TStates st (ct_rows p TStates)
  | TCanonicalTip => map (fun r => if r ==? to then tn else r) (ct_rows p TCanonicalTip)
  | _ => ct_rows p t
  end.
Proof. by destruct t. Qed.

Lemma append_transactions base r next :
  audited g base -> audited g next -> sn_records next = sn_records base ++ [r] ->
  foldl (fun rs row => insert_row TTransactions row rs) (stored_transactions base) (transaction_rows r) =
  stored_transactions next.
Proof.
  intros Hb Hn Er. destruct (audited_slots run_id next Hn) as [_ Hpos].
  pose proof (audited_length run_id Hdist next Hn) as Hl. rewrite Er, length_app in Hl. simpl in Hl.
  assert (forall i r', sn_records next !! i = Some r' -> pos_slot (br_position r') = Z.of_nat i + 1)%Z as Hs
    by (intros i r' Hi; by rewrite (Hpos i r' Hi)).
  unfold stored_transactions at 2. rewrite Er, map_app, concat_app. cbn [map concat]. rewrite app_nil_r.
  assert (pos_slot (br_position r) = Z.of_nat (length (sn_records base)) + 1)%Z as Hr
    by (apply Hs; by rewrite Er, lookup_app_r, Nat.sub_diag).
  assert (length (cb_transactions (br_block r)) <= 16)%nat as Hbody.
  { pose proof (audited_valid _ _ Hn) as Hv. rewrite Er in Hv. apply Forall_app in Hv as [_ Hv].
    apply Forall_cons in Hv as [Hv _]. pose proof (cv_bound _ Hv) as Hbd. unfold MAX_ENTRIES in Hbd. lia. }
  apply insert_transactions_last; [unfold in_width; lia| |].
  { unfold body_pairs. rewrite length_zip. lia. }
  apply Forall_forall. intros row Hrow. apply list_elem_of_In, in_concat in Hrow as (rows & Hrows & Hrow).
  apply in_map_iff in Hrows as (r' & <- & Hr'). apply list_elem_of_In, list_elem_of_lookup in Hr' as [i Hi].
  apply list_elem_of_In in Hrow. pose proof (lookup_lt_Some _ _ _ Hi) as Hlt.
  unfold transaction_rows in Hrow. apply elem_of_lookup_imap in Hrow as (j & q & -> & Hj%lookup_lt_Some).
  assert (pos_slot (br_position r') = Z.of_nat i + 1)%Z as Hr'
    by (apply Hs; rewrite Er; by apply lookup_app_l_Some).
  assert (length (cb_transactions (br_block r')) <= 16)%nat as Hbody'.
  { pose proof (audited_valid _ _ Hb) as Hv. rewrite Forall_lookup in Hv.
    pose proof (cv_bound _ (Hv i r' Hi)) as Hbd. unfold MAX_ENTRIES in Hbd. lia. }
  unfold body_pairs in Hj. rewrite length_zip in Hj.
  cbn [row_key transaction_row cell nth]. unfold u64_cell. rewrite length_app, !length_be_bytes. split; [done|].
  rewrite be_val_app, length_be_bytes, !(be_val_bytes_width 8 U64) by (done || (unfold in_width; lia)).
  change (256 ^ Z.of_nat 8)%Z with U64. rewrite Hr, Hr'. lia.
Qed.

Lemma append_list_stored base r next p accounting :
  audited g base -> appends g base r -> Snapshot_insert base r = Ok next -> stored g base p ->
  accounting_row (sn_state next) = Ok accounting ->
  stored g next (exec (append_list base next r accounting) p).
Proof.
  intros Hb Ha Hi [(m & Em & Hm) (acc & _ & Hrows)] Hacc.
  assert (audited g next) as Hn by (by eapply audited_append).
  pose proof (insert_shape _ _ _ Hi) as (Est & Er & _).
  pose proof (audited_length run_id Hdist next Hn) as Hl. rewrite Er, length_app in Hl. simpl in Hl.
  pose proof (fun i r' H => audited_row_keys run_id Hdist next i r' Hn H) as Hkeys. rewrite Er in Hkeys.
  unfold append_list. rewrite !exec_app.
  set (new := map account_row (s_accounts (cs_data (sn_state next)))).
  destruct (exec_upserts TAccounts new p) as [M1 R1]. set (p1 := exec (map (Upsert TAccounts) new) p) in *.
  set (p2 := exec [Upsert TAccounting accounting; Insert TBlocks (block_row r); Insert TBodies (body_row r)] p1).
  destruct (exec_inserts TTransactions (transaction_rows r) p2) as [M3 R3].
  set (p3 := exec (map (Insert TTransactions) (transaction_rows r)) p2) in *.
  constructor.
  - exists (set_revision (u64_cell (pos_slot (tip next))) m). split.
    + assert (ct_metadata p3 = [m]) as E3 by (rewrite M3; unfold p2; cbn; by rewrite M1).
      cbn. rewrite E3. cbn. by rewrite bool_decide_eq_true_2 by apply Hm.
    + destruct Hm. by constructor.
  - exists accounting. split; [done|]. intros t. rewrite exec_tail.
    assert (forall t, ct_rows p2 t = _) as R2 by (intros t'; apply exec_blocks).
    destruct t; rewrite ?R3, ?R2, ?R1, ?Hrows; cbn [expected]; rewrite ?decide_True, ?decide_False by done;
      rewrite ?R3, ?R2, ?R1, ?Hrows; cbn [expected]; rewrite ?decide_True, ?decide_False by done; cbn [expected].
    + apply upsert_all; [by apply (state_accounts_keyed run_id Hdist)..|].
      intros row Hrow. unfold new. rewrite Est. by apply (append_accounts_kept run_id Hdist base).
    + done.
    + done.
    + unfold stored_blocks. rewrite Er. apply (insert_next TBlocks block_row []); [|lia|constructor].
      intros i r' H. by apply Hkeys.
    + rewrite Er. apply (insert_next TBodies body_row []); [|lia|constructor]. intros i r' H. by apply Hkeys.
    + rewrite Er, Est. apply (insert_next TStates (fun r0 => state_row (br_state r0)) [_]); [|lia|].
      * intros i r' H. by apply Hkeys.
      * by repeat constructor.
    + rewrite Er. apply (insert_next TRewards reward_row []); [|lia|constructor]. intros i r' H. by apply Hkeys.
    + cbn [map]. by rewrite bool_decide_eq_true_2.
    + by apply append_transactions.
Qed.

(** The write sequence of an append: it checks the exact base first and, when
    it succeeds, the transaction holds exactly the next snapshot. *)
Lemma commit_writes_stored base r next p :
  audited g base -> appends g base r -> Snapshot_insert base r = Ok next ->
  steps (commit_writes g base next r) p (fun _ p' => stored g base p /\ stored g next p').
Proof.
  intros Hb Ha Hi. eapply steps_weaken; [apply commit_writes_exec|].
  intros [] p' (Hs & acc & Hacc & ->). split; [done|]. by apply append_list_stored.
Qed.
End CommitWrites.
