(* ===== verification/PoashCommit.v ===== *)
(** * Committing, aborting and recovering
      (src/src/native_poash/storage.rs, [commit], [abort], [recover], [create], [reopen])

    The owner's writes: a staged record is persisted in one transaction and
    then installed in memory, or nothing is; when the outcome is unknown the
    owner is poisoned until [recover] has reopened the file, audited it and
    reconciled the attempt.

    The theorems show atomicity of [commit], exactness of [recover], and the
    invariant of every owner that any sequence of operations can reach. *)

From S2P Require Import Prelude Codec Crypto BlockCommitment NativeTransaction.
From S2P Require Import NativeTransfer NativeBlock BlockAuthentication LeaderSelection.
From S2P Require Import PoashBase PoashState PoashSelection PoashGenesis PoashClaim.
From S2P Require Import PoashHistory PoashAdmission PoashApplication PoashCompound PoashChain.
From S2P Require Import PoashSnapshot PoashOwner PoashReplay PoashSql.

Inductive AppendOutcome : Type :=
| Committed (position : Position) (envelope_id : bytes) (outcome : BodyOutcome)
| Aborted (e : app_error)
| RecoveryRequired (e : app_error).

Record RecoveryReport : Type := mk_report {
  rp_position : Position;
  rp_attempted_present : option bool
}.

Definition set_poisoned (o : Owner) (b : bool) : Owner :=
  mk_owner (ow_genesis o) (ow_snapshot o) (ow_generation o) b (ow_halted o) (ow_attempt o).
Definition set_attempt (o : Owner) (a : option Attempt) : Owner :=
  mk_owner (ow_genesis o) (ow_snapshot o) (ow_generation o) (ow_poisoned o) (ow_halted o) a.
Definition set_snapshot (o : Owner) (s : Snapshot) : Owner :=
  mk_owner (ow_genesis o) s (ow_generation o) (ow_poisoned o) (ow_halted o) (ow_attempt o).
Definition set_generation (o : Owner) (n : Z) : Owner :=
  mk_owner (ow_genesis o) (ow_snapshot o) n (ow_poisoned o) (ow_halted o) (ow_attempt o).

Definition starts_with (l k : list BlockRecord) : bool := take (length k) l ==? k.

(** [reconcile]; [loaded.records[n - 1].state] exists where it is read. *)
Definition reconcile_attempt (a : option Attempt) (known loaded : Snapshot) :
    result app_error (option bool) :=
  match a with
  | None =>
      fail_if (negb (starts_with (sn_records loaded) (sn_records known)) ||
               ((length (sn_records loaded) ==? length (sn_records known)) && (loaded !=? known)))
        (uncertain "known complete state/original-evidence prefix differs");;
      Ok None
  | Some a =>
      let base := bs_snapshot (at_base a) in
      let n := length (sn_records base) in
      fail_if ((length (sn_records loaded) <? n)%nat || (take n (sn_records loaded) !=? sn_records base) ||
               ((0 <? n)%nat && ((br_state <$> sn_records loaded !! (n - 1)%nat) !=? Some (sn_state base))))
        (uncertain "exact attempted base differs");;
      match sn_records loaded !! n with
      | Some r =>
          fail_if (r !=? at_record a) (uncertain "different exact attempted state/evidence");;
          Ok (Some true)
      | None =>
          if loaded ==? base then Ok (Some false)
          else Err (uncertain "neither exact present nor exact absent attempt")
      end
  end.

(** [fetch_update(|g| g.checked_add(1))] on the process-wide counter: the
    value before, and the next one. *)
Definition next_generation (counter : Z) : Z * result app_error Z :=
  match checked_add U64 counter 1 with
  | Some n => (n, Ok counter)
  | None => (counter, Err (AppError.Storage (StoreError.Invalid "owner generation exhausted")))
  end.

Section Commit.
  Context `{SQ : Sqlite} `{KE : Keccak} `{KC : K256}.
  (** [Display] of the error type; only error texts depend on it. *)
  Context (describe : app_error -> string).

Definition is_autocommit (c : conn) : bool := if transaction c is None then true else false.

Definition poison (o : Owner) (e : app_error) : Owner * AppendOutcome :=
  (set_poisoned o true, RecoveryRequired (uncertain (describe e))).

Definition verified (o : Owner) (c : conn) : bool :=
  if verify (ow_genesis o) (ow_snapshot o) c is Ok _ then true else false.

Definition abort (o : Owner) (c : conn) (e : app_error) : Owner * conn * AppendOutcome :=
  let '(c, rolled) := if is_autocommit c then (c, Ok ()) else sq_rollback c in
  match rolled with
  | Err e' =>
      let '(o, out) := poison o (AppError.Invalid (describe e +:+ "; rollback failed: " +:+
                                                   describe (sql_error e'))) in (o, c, out)
  | Ok _ =>
      if is_autocommit c && verified o c then (set_attempt o None, c, Aborted e)
      else let '(o, out) := poison o e in (o, c, out)
  end.

Definition commit (o : Owner) (c : conn) (stage : StagedBlock) : Owner * conn * AppendOutcome :=
  let r := sb_record stage in
  match (check_base o (sb_base stage);; Snapshot_insert (ow_snapshot o) r) with
  | Err e => (o, c, Aborted e)
  | Ok next =>
      let '(c, began) := sq_begin c in
      match began with
      | Err e => (o, c, Aborted (sql_error e))
      | Ok _ =>
          let o := set_attempt o (Some (mk_attempt (sb_base stage) r)) in
          let '(c, writes) := commit_writes (ow_genesis o) (bs_snapshot (sb_base stage)) next r c in
          match writes with
          | Err e =>
              if e ==? AppError.Stale then
                let '(c, rolled) := sq_rollback c in
                if (if rolled is Ok _ then true else false) && is_autocommit c then
                  (set_poisoned (set_attempt o None) true, c, Aborted e)
                else let '(o, out) := poison o e in (o, c, out)
              else abort o c e
          | Ok _ =>
              let '(c, committed) := sq_commit c in
              match committed with
              | Err e => let '(o, out) := poison o (sql_error e) in (o, c, out)
              | Ok _ =>
                  (set_attempt (set_snapshot o next) None, c,
                   Committed (tip next) (C1Envelope_id (ae_envelope (br_proof r))) (br_outcome r))
              end
          end
      end
  end.

(** [recover].  [generation] is the next owner generation, [opened] the result
    of reopening and configuring the file, [sync] of syncing it. *)
Definition recover (o : Owner) (c : option conn) (generation : result app_error Z)
    (opened : result app_error conn) (sync : result string ()) :
    Owner * option conn * result app_error RecoveryReport :=
  let o := set_poisoned o true in
  match generation with
  | Err e => (o, c, Err e)
  | Ok n =>
      let o := set_generation o n in
      match opened with
      | Err e => (o, None, Err e)
      | Ok c =>
          let '(c, audited) := audit (ow_genesis o) c in
          match (loaded ← audited; present ← reconcile_attempt (ow_attempt o) (ow_snapshot o) loaded;
                 Ok (loaded, present)) with
          | Err e => (o, Some c, Err e)
          | Ok (loaded, present) =>
              let '(c, durable) := barrier describe sync (ow_genesis o) loaded c in
              match durable with
              | Err e => (o, Some c, Err e)
              | Ok _ =>
                  (set_poisoned (set_attempt (set_snapshot o loaded) None) false, Some c,
                   Ok (mk_report (tip loaded) present))
              end
          end
      end
  end.

(** [signing_view]: the stored base is verified in a read transaction before
    the view of the next slot is handed to the signer. *)
Definition signing_view (o : Owner) (prepared : PreparedBlock) (c : conn) :
    conn * result app_error SlotStartView :=
  match check_base o (pb_base prepared) with
  | Err e => (c, Err e)
  | Ok _ =>
      let '(c, began) := sq_begin c in
      match began with
      | Err e => (c, Err (sql_error e))
      | Ok _ =>
          let checked := verify (ow_genesis o) (ow_snapshot o) c in
          let '(c, ended) := sq_rollback c in
          (c, checked;; map_err sql_error ended;; owner_slot_start o)
      end
  end.

(** [owner] *)
Definition fresh_owner (g : Genesis) (s : Snapshot) (n : Z) : Owner := mk_owner g s n false false None.

(** [create_inner]: [reserved] is the exclusive creation of the file.  The
    connection is returned also when creating fails, since the file stays. *)
Definition create_inner (g : Genesis) (reserved : result app_error ()) (opened : result app_error conn)
    (sync : result string ()) (generation : result app_error Z) : option conn * result app_error Owner :=
  match (reserved;; opened) with
  | Err e => (None, Err e)
  | Ok c =>
      let '(c, began) := sq_begin c in
      match began with
      | Err e => (Some c, Err (sql_error e))
      | Ok _ =>
          let '(c, done) := initialize g c in
          match done with
          | Err e =>
              let '(c, rolled) := if is_autocommit c then (c, Ok ()) else sq_rollback c in
              (Some c,
               map_err (fun r => uncertain (describe e +:+ "; " +:+ r)) rolled;;
               Err (AppError.Storage (StoreError.Aborted (describe e))))
          | Ok _ =>
              let '(c, committed) := sq_commit c in
              (Some c,
               map_err (fun e => uncertain (describe (sql_error e))) committed;;
               map_err (fun e => uncertain (describe (sql_error e))) sync;;
               n ← generation;
               Ok (fresh_owner g (Snapshot_initial g) n))
          end
      end
  end.

(** [load]: reopening and prior-process recovery. *)
Definition load (g : Genesis) (opened : result app_error conn) (sync : result string ())
    (generation : result app_error Z) : option conn * result app_error Owner :=
  match opened with
  | Err e => (None, Err e)
  | Ok c =>
      let '(c, audited) := audit g c in
      match audited with
      | Err e => (Some c, Err e)
      | Ok s =>
          let '(c, durable) := barrier describe sync g s c in
          (Some c, durable;; n ← generation; Ok (fresh_owner g s n))
      end
  end.
End Commit.

(** ** Atomicity *)

Section Atomic.
  Context {SQ : Sqlite} {L : SqliteLaws SQ} {KE : Keccak} {KC : K256}.
  Context (describe : app_error -> string) (run_id : bytes) (Hdist : distinct_producers).

Let g := genesis_of run_id.

(** A live owner with nothing in flight and a staged record for it. *)
Record committable (o : Owner) (stage : StagedBlock) (next : Snapshot) : Prop := {
  cm_owner : live_owner run_id o;
  cm_attempt : ow_attempt o = None;
  cm_base : sb_base stage = owner_base o;
  cm_appends : appends g (ow_snapshot o) (sb_record stage);
  cm_next : Snapshot_insert (ow_snapshot o) (sb_record stage) = Ok next
}.

Lemma check_owner_base o : live_owner run_id o -> check_base o (owner_base o) = Ok ().
Proof.
  intros Ho. unfold check_base. rewrite (live_work_ready _ o Ho), bind_of_Ok.
  cbn [owner_base bs_generation bs_genesis bs_snapshot]. by rewrite !neq_dec_false.
Qed.

(** What each outcome promises; [begun] is the connection after BEGIN, whose
    committed contents no other process can change before the end. *)
Definition outcome_spec (o o' : Owner) (begun c' : conn) (stage : StagedBlock) (next : Snapshot)
    (out : AppendOutcome) : Prop :=
  match out with
  | Committed position _ _ =>
      position = tip next /\ stored g (ow_snapshot o) (committed begun) /\
      stored g next (committed c') /\ transaction c' = None /\ o' = set_snapshot o next
  | Aborted e =>
      committed c' = committed begun /\ transaction c' = None /\
      (o' = o \/ (e = AppError.Stale /\ o' = set_poisoned o true))
  | RecoveryRequired _ =>
      (committed c' = committed begun \/
       stored g (ow_snapshot o) (committed begun) /\ stored g next (committed c')) /\
      o' = set_poisoned (set_attempt o (Some (mk_attempt (owner_base o) (sb_record stage)))) true
  end.

Lemma set_attempt_None o : ow_attempt o = None -> set_attempt o None = o.
Proof. destruct o; simpl. by intros ->. Qed.

Lemma autocommit_true c : is_autocommit c = true <-> transaction c = None.
Proof. unfold is_autocommit. by destruct (transaction c). Qed.

Lemma abort_spec o c0 c stage next e o' c' out :
  ow_attempt o = None -> committed c = committed c0 ->
  abort describe (set_attempt o (Some (mk_attempt (owner_base o) (sb_record stage)))) c e = (o', c', out) ->
  outcome_spec o o' c0 c' stage next out.
Proof.
  intros Hat Hc. unfold abort.
  assert (forall c1 r, (if is_autocommit c then (c, Ok ()) else sq_rollback c) = (c1, r) ->
    committed c1 = committed c0 /\ (r = Ok () -> transaction c1 = None)) as Hroll.
  { intros c1 r E. destruct (is_autocommit c) eqn:Hauto.
    - injection E as <- <-. split; [done|]. intros _. by apply autocommit_true.
    - destruct r as [[]|e'].
      + apply rollback_ok in E as [-> ->]. by rewrite Hc.
      + apply rollback_err in E as ->. by rewrite Hc. }
  destruct (if is_autocommit c then (c, Ok ()) else sq_rollback c) as [c1 r] eqn:E.
  destruct (Hroll c1 r eq_refl) as [Hc1 Ht]. destruct r as [[]|e'].
  - rewrite (proj2 (autocommit_true c1)) by auto. cbn [andb].
    destruct (verified _ c1); intros H; injection H as <- <- <-.
    + split_and!; [done|auto|left]. by destruct o; simpl in *; subst.
    + by split; [left|].
  - intros H. injection H as <- <- <-. by split; [left|].
Qed.

Lemma commit_spec o c stage next o' c' out :
  committable o stage next -> commit describe o c stage = (o', c', out) ->
  (sq_begin c).2 = Ok () /\ outcome_spec o o' (sq_begin c).1 c' stage next out \/
  o' = o /\ c' = (sq_begin c).1 /\ transaction c' = transaction c /\
    exists e, out = Aborted (sql_error e) /\ (sq_begin c).2 = Err e.
Proof.
  intros [Ho Hat Hbase Happ Hnext]. unfold commit. cbv zeta.
  rewrite Hbase, (check_owner_base o Ho), bind_of_Ok, Hnext. destruct (sq_begin c) as [c0 [[]|e]] eqn:Hbegin; cbn [fst snd].
  2:{ intros H. injection H as <- <- <-. right. split_and!; [done|done| |by eexists].
      by apply (begin_err _ _ _ Hbegin). }
  intros H. left. split; [done|]. pose proof (begin_ok _ _ Hbegin) as Hp.
  cbn [set_attempt ow_genesis] in H. rewrite (lo_genesis _ _ Ho) in H.
  cbn [owner_base bs_snapshot] in H.
  destruct (commit_writes _ _ _ _ c0) as [c1 w] eqn:Hw.
  destruct (commit_writes_stored run_id Hdist (ow_snapshot o) (sb_record stage) next _
    (lo_audited _ _ Ho) Happ Hnext _ _ _ Hp Hw) as [Hc1 Hok].
  destruct w as [[]|e].
  - destruct (Hok () eq_refl) as (p' & Hp' & Hs & Hs').
    destruct (sq_commit c1) as [c2 [[]|e]] eqn:Hcommit; injection H as <- <- <-; cbn [outcome_spec].
    + apply (commit_ok _ _ _ Hp') in Hcommit as [-> ->]. split_and!; try done.
      by destruct o; simpl in *; subst.
    + apply (commit_err _ _ _ _ Hp') in Hcommit as [-> | ->]; (split; [|done]); [left|right]; [done|].
      split; [done|done].
  - case_bool_decide as He.
    + destruct (sq_rollback c1) as [c2 rolled] eqn:Hroll.
      assert (committed c2 = committed c0) as Hc2.
      { destruct rolled as [[]|]; [apply rollback_ok in Hroll as [-> _]|apply rollback_err in Hroll as ->];
          by rewrite Hc1. }
      destruct (_ && is_autocommit c2)%bool eqn:Hb; injection H as <- <- <-.
      * apply andb_true_iff in Hb as [_ Hb%autocommit_true]. split_and!; [done..|right].
        split; [done|]. by destruct o; simpl in *; subst.
      * by split; [left|].
    + by eapply abort_spec.
Qed.
End Atomic.

(** ** Recovery *)

Section Extends.
  Context {KE : Keccak} {KC : K256}.

Lemma audited_insert_all g s : audited g s -> insert_all (Snapshot_initial g) (sn_records s) = Ok s.
Proof.
  intros H. destruct (audited_replay g s (length (sn_records s)) H) as (p & Hp & _ & _ & _ & Hall).
  rewrite take_ge in Hp by done. by rewrite Hall in Hp by done.
Qed.

(** An audited snapshot whose records start with another's extends it. *)
Lemma audited_extends g s l :
  audited g s -> audited g l -> take (length (sn_records s)) (sn_records l) = sn_records s ->
  insert_all s (drop (length (sn_records s)) (sn_records l)) = Ok l.
Proof.
  intros Hs Hl E. pose proof (audited_insert_all g l Hl) as H.
  rewrite <- (take_drop (length (sn_records s)) (sn_records l)), E, insert_all_app in H.
  by rewrite (audited_insert_all g s Hs), bind_of_Ok in H.
Qed.
End Extends.

Section Recovery.
  Context {SQ : Sqlite} {L : SqliteLaws SQ} {KE : Keccak} {KC : K256}.
  Context (describe : app_error -> string) (run_id : bytes) (Hdist : distinct_producers).

Let g := genesis_of run_id.

Lemma block_cell_width row : cells_ok block_widths 0 row = true -> (Z.of_nat (length (cell 5 row)) < U64)%Z.
Proof. unfold block_widths. cbn [cells_ok]. rewrite !andb_true_iff, !Z.leb_le. lia. Qed.

Lemma audit_ok c c' s : audit g c = (c', Ok s) -> audited g s /\ transaction c' = None.
Proof.
  unfold audit. destruct (sq_begin c) as [c0 [[]|e]]; [|by intros [= ]].
  destruct (audit_reads g c0) as [s'|] eqn:Hr; destruct (sq_rollback c0) as [c1 ended] eqn:Hroll;
    [|by intros [= ]]. rewrite bind_of_Ok. intros E. injection E as <- E.
  apply bind_Ok in E as ([] & Hend & E). injection E as ->. apply map_err_Ok in Hend as ->.
  apply rollback_ok in Hroll as [_ ->]. split; [|done].
  unfold audit_reads in Hr. apply bind_Ok in Hr as ([] & _ & Hr). apply bind_Ok in Hr as (n & _ & Hr).
  apply bind_Ok in Hr as ([] & _ & Hr). apply bind_Ok in Hr as (blocks & Hblocks & Hr).
  apply bind_Ok in Hr as (txs & _ & Hr). apply bind_Ok in Hr as (s1 & Hs1 & Hr).
  apply bind_Ok in Hr as ([] & _ & Hr). apply bind_Ok in Hr as ([] & _ & Hr). injection Hr as ->.
  apply rows_ok in Hblocks as [_ Hw].
  eapply replay_rows_ok; [exact Hdist| |constructor|exact Hs1].
  eapply Forall_impl; [exact Hw|]. intros row. apply block_cell_width.
Qed.

Lemma stored_barrier s p new old :
  length new = 8%nat -> stored g s p -> stored g s (apply_write (UpdateBarrier new old) p).1.
Proof.
  intros Hl [(m & Em & []) Hrows]. constructor; [|exact Hrows]. cbn. rewrite Em. cbn.
  eexists. split; [done|]. case_bool_decide; by constructor.
Qed.

Lemma barrier_ok sync s c c' :
  barrier describe sync g s c = (c', Ok ()) -> stored g s (committed c') /\ transaction c' = None.
Proof.
  unfold barrier. destruct (sq_begin c) as [c0 [[]|e]] eqn:Hb; [|by intros [= ]].
  pose proof (begin_ok _ _ Hb) as Hp. unfold mbind, sql_bind, sq_read, sq_lift.
  destruct (verify g s c0) as [[]|] eqn:Hv; [|by intros [= ]]. apply verify_stored in Hv.
  unfold visible in Hv. rewrite Hp in Hv. simpl in Hv.
  destruct (map_err sql_error (sq_metadata c0)) as [ms|]; [|by intros [= ]].
  destruct (ok_or (md_barrier <$> head ms) _) as [old|]; [|by intros [= ]].
  destruct (ok_or (checked_add U64 (be_val old) 1) _) as [nx|]; [|by intros [= ]].
  destruct (cas _ _ c0) as [c1 r1] eqn:Hcas.
  destruct (steps_cas _ _ _ _ _ _ Hp Hcas) as [_ Hok]. destruct r1 as [[]|]; [|by intros [= ]].
  destruct (Hok () eq_refl) as (p' & Hp' & -> & _). unfold sq_run.
  destruct (sq_commit c1) as [c2 [[]|]] eqn:Hc; [|by intros [= ]]. cbn [map_err].
  intros E. injection E as <- _. apply (commit_ok _ _ _ Hp') in Hc as [-> ->]. split; [|done].
  apply stored_barrier; [apply length_be_bytes|done].
Qed.

(** What the report says of the attempt. *)
Definition reconciled (a : option Attempt) (known loaded : Snapshot) (present : option bool) : Prop :=
  match a with
  | None => present = None /\ exists rest, insert_all known rest = Ok loaded
  | Some a =>
      (present = Some true /\ exists next rest,
         Snapshot_insert (bs_snapshot (at_base a)) (at_record a) = Ok next /\ insert_all next rest = Ok loaded) \/
      (present = Some false /\ loaded = bs_snapshot (at_base a))
  end.

Lemma reconcile_ok a known loaded present :
  audited g known -> audited g loaded ->
  (forall x, a = Some x -> audited g (bs_snapshot (at_base x))) ->
  reconcile_attempt a known loaded = Ok present -> reconciled a known loaded present.
Proof.
  intros Hk Hl Ha. unfold reconcile_attempt, reconciled. destruct a as [a|].
  - specialize (Ha a eq_refl). cbv zeta. intros ([] & Hf & H)%bind_Ok.
    assert (take (length (sn_records (bs_snapshot (at_base a)))) (sn_records loaded) =
      sn_records (bs_snapshot (at_base a))) as Ht by (by inv_ok).
    destruct (sn_records loaded !! length (sn_records (bs_snapshot (at_base a)))) as [r|] eqn:Hn.
    + left. apply bind_Ok in H as ([] & Hr & H). injection H as <-. inv_ok. subst r. split; [done|].
      pose proof (audited_extends g _ _ Ha Hl Ht) as Hx. rewrite (drop_S _ _ _ Hn) in Hx.
      cbn [insert_all] in Hx. apply bind_Ok in Hx as (nx & Hi & Hx). eauto.
    + right. case_bool_decide as E; [|done]. by injection H as <-.
  - intros ([] & Hf & H)%bind_Ok. injection H as <-. split; [done|]. eexists.
    apply (audited_extends g); [done..|]. unfold starts_with in Hf. inv_ok. by inv_ok.
Qed.

Lemma recover_spec o c generation opened sync o' c' res :
  ow_genesis o = g -> audited g (ow_snapshot o) ->
  (forall x, ow_attempt o = Some x -> audited g (bs_snapshot (at_base x))) ->
  recover describe o c generation opened sync = (o', c', res) ->
  match res with
  | Ok report => exists c1, c' = Some c1 /\ audited g (ow_snapshot o') /\
      stored g (ow_snapshot o') (committed c1) /\ transaction c1 = None /\
      ow_genesis o' = g /\ ow_poisoned o' = false /\ ow_attempt o' = None /\
      ow_halted o' = ow_halted o /\
      rp_position report = tip (ow_snapshot o') /\
      reconciled (ow_attempt o) (ow_snapshot o) (ow_snapshot o') (rp_attempted_present report)
  | Err _ => ow_genesis o' = g /\ ow_poisoned o' = true /\ ow_snapshot o' = ow_snapshot o /\
      ow_attempt o' = ow_attempt o /\ ow_halted o' = ow_halted o
  end.
Proof.
  intros Hg Hs Ha. unfold recover. destruct generation as [n|e]; [|intros [= <- <- <-]; done].
  destruct opened as [c0|e]; [|intros [= <- <- <-]; done].
  cbn [set_poisoned set_generation ow_genesis ow_attempt ow_snapshot]. rewrite Hg.
  destruct (audit g c0) as [c1 [s|e]] eqn:Hau; [|intros [= <- <- <-]; done]. rewrite bind_of_Ok.
  apply audit_ok in Hau as [Hau _].
  destruct (reconcile_attempt _ _ s) as [present|e] eqn:Hr; [|intros [= <- <- <-]; done]. rewrite bind_of_Ok.
  destruct (barrier describe sync g s c1) as [c2 [[]|e]] eqn:Hb; [|intros [= <- <- <-]; done].
  apply barrier_ok in Hb as [Hst Ht]. intros [= <- <- <-]. exists c2.
  split_and!; try done. by apply reconcile_ok.
Qed.
End Recovery.

(** ** The owner as a state machine *)

Section Machine.
  Context {SQ : Sqlite} {L : SqliteLaws SQ} {KE : Keccak} {KC : K256}.
  Context (describe : app_error -> string) (run_id : bytes) (Hdist : distinct_producers).

Let g := genesis_of run_id.

(** Staged blocks are only made by the two staging operations, on this or
    another owner of the run; preparations only by [prepare_next]. *)
Inductive issued : StagedBlock -> Prop :=
| issued_received o bs o' st :
    live_owner run_id o -> stage_received o bs = (o', Ok st) -> issued st
| issued_sealed o0 producer ticket body pb o bs o' st :
    live_owner run_id o0 -> prepare_next o0 producer ticket body = Ok pb ->
    live_owner run_id o -> seal_prepared o pb bs = (o', Ok st) -> issued st.

Lemma check_base_ok o b :
  check_base o b = Ok () -> ow_poisoned o = false /\ ow_halted o = false /\ b = owner_base o.
Proof.
  unfold check_base, work_ready, ready, owner_base. destruct b. intros. inv_ok. simpl in *. by subst.
Qed.

Lemma issued_appends st :
  issued st -> audited g (bs_snapshot (sb_base st)) /\ appends g (bs_snapshot (sb_base st)) (sb_record st).
Proof.
  intros [o bs o' st' Ho Hst|o0 producer ticket body pb o bs o' st' Ho0 Hp Ho Hst].
  - destruct (stage_received_ok _ _ _ _ _ Ho Hst) as (_ & -> & Ha & _). split; [apply Ho|done].
  - destruct (prepare_next_ok _ _ _ _ _ _ Ho0 Hp) as (Hb0 & view & sel & native & rec & P & _).
    unfold seal_prepared in Hst.
    destruct (check_base o (pb_base pb) ≫= _) as [proof|] eqn:E; [|done].
    apply bind_Ok in E as ([] & Hb & E). apply bind_Ok in E as (proof' & Hopen & E).
    apply bind_Ok in E as ([] & Hblk & E). injection E as ->. inv_ok.
    destruct (owner_admit o proof) as [o1 [[]|]] eqn:Hadm; [|done]. rewrite bind_of_Ok in Hst.
    injection Hst as <- <-. cbn [sb_base sb_record].
    apply check_base_ok in Hb as (_ & _ & Hbase). rewrite Hb0 in Hbase |- *.
    assert (ow_snapshot o0 = ow_snapshot o) as Hsame by (by injection Hbase).
    cbn [owner_base bs_snapshot]. split; [apply Ho0|].
    rewrite (lo_genesis _ _ Ho) in Hopen. pose proof (open_envelope_ok _ _ _ Hopen) as (Hw & Hsig & Hauth & _).
    apply (admit_ok run_id) in Hadm as (_ & view' & p & Hv' & Hplan); [|done]. rewrite <- Hsame in Hv'.
    destruct P as [Pv Ps Pn Pb _ Pc ->]. fold g in Pv, Hv'. rewrite Pv in Hv'. injection Hv' as <-.
    destruct (audited_has_prefix run_id Hdist _ (lo_audited _ _ Ho0)) as [px A].
    destruct (built_block _ _ _ _ _ _ _ (slot_view_prefix _ _ _ _ A Pv) Pn Ps) as (block & Eb & _ & _ & Htx).
    rewrite Pb in Eb. injection Eb as <-.
    match goal with H : ce_block _ = pb_block pb |- _ => rewrite <- H in * end.
    eapply appends_intro; try done. by rewrite Htx.
Qed.

Record node_ok (o : Owner) (c : option conn) : Prop := {
  no_genesis : ow_genesis o = g;
  no_audited : audited g (ow_snapshot o);
  no_attempt : forall a, ow_attempt o = Some a -> audited g (bs_snapshot (at_base a)) /\
    appends g (bs_snapshot (at_base a)) (at_record a);
  no_ready : ow_poisoned o = false -> ow_attempt o = None /\ exists c1, c = Some c1
}.

(** The operations that change an owner.  [generation], [opened] and [sync]
    are whatever the environment returns. *)
Inductive owner_step : Owner * option conn -> Owner * option conn -> Prop :=
| os_receive o c bs o' r : stage_received o bs = (o', r) -> owner_step (o, c) (o', c)
| os_seal o c pb bs o' r : seal_prepared o pb bs = (o', r) -> owner_step (o, c) (o', c)
| os_commit o c st o' c' out :
    issued st -> commit describe o c st = (o', c', out) -> owner_step (o, Some c) (o', Some c')
| os_view o c pb c' r : signing_view o pb c = (c', r) -> owner_step (o, Some c) (o, Some c')
| os_recover o c generation opened sync o' c' res :
    recover describe o c generation opened sync = (o', c', res) -> owner_step (o, c) (o', c').

Lemma admit_node_ok o c proof : node_ok o c -> node_ok (owner_admit o proof).1 c.
Proof.
  intros [H1 H2 H3 H4]. destruct (admit_keeps o proof) as (E1 & E2 & _ & E3 & E4 & _).
  by constructor; rewrite ?E1, ?E2, ?E3, ?E4.
Qed.

Lemma commit_node_ok o c st o' c' out :
  node_ok o (Some c) -> issued st -> commit describe o c st = (o', c', out) -> node_ok o' (Some c').
Proof.
  intros N Hiss H. destruct (issued_appends st Hiss) as [_ Happ].
  destruct (check_base o (sb_base st)) as [[]|e] eqn:Hb.
  2:{ unfold commit in H. rewrite Hb in H. by injection H as <- <- <-. }
  pose proof (check_base_ok _ _ Hb) as (Hp & Hh & Hbase).
  destruct (Snapshot_insert (ow_snapshot o) (sb_record st)) as [next|e] eqn:Hn.
  2:{ unfold commit in H. cbv zeta in H. rewrite Hb, bind_of_Ok, Hn in H. by injection H as <- <- <-. }
  destruct (no_ready _ _ N Hp) as (Hat & _). rewrite Hbase in Happ.
  assert (committable run_id o st next) as C by (constructor; try done; by destruct N).
  assert (audited g next) as Hnext by (eapply audited_append; [apply N|exact Happ|exact Hn]).
  destruct (commit_spec describe run_id Hdist _ _ _ _ _ _ _ C H)
    as [[_ Hout]|(-> & _ & Ht & _)]; [|constructor; try apply N; by eauto].
  destruct out; cbn [outcome_spec] in Hout.
  - destruct Hout as (_ & _ & _ & Ht & ->).
    constructor; cbn [set_snapshot ow_genesis ow_snapshot ow_attempt ow_poisoned]; try done; try apply N. by eauto.
  - destruct Hout as (_ & Ht & [-> |[_ ->]]); constructor; try apply N; by eauto.
  - destruct Hout as (_ & ->). constructor; try apply N; [|done].
    intros a [= <-]. split; [apply N|done].
Qed.

(** Reading through the connection leaves the owner as it was. *)
Lemma view_node_ok o c c' : node_ok o (Some c) -> node_ok o (Some c').
Proof. intros [H1 H2 H3 H4]. constructor; try done. intros Hp. destruct (H4 Hp). eauto. Qed.

Lemma recover_node_ok o c generation opened sync o' c' res :
  node_ok o c -> recover describe o c generation opened sync = (o', c', res) -> node_ok o' c'.
Proof.
  intros N H. apply (recover_spec describe run_id Hdist) in H; [|apply N..|intros x Hx; by apply (no_attempt _ _ N x Hx)].
  destruct res as [report|e].
  - destruct H as (c1 & -> & Hau & _ & Ht & Hg & Hp & Ha & _). constructor; try done; rewrite Ha; [done|by eauto].
  - destruct H as (Hg & Hp & Hs & Ha & _). constructor; rewrite ?Hs, ?Ha, ?Hp; try apply N; done.
Qed.

Lemma owner_step_ok n n' : owner_step n n' -> node_ok n.1 n.2 -> node_ok n'.1 n'.2.
Proof.
  intros [o c bs o' r H|o c pb bs o' r H|o c st o' c' out Hi H|o c pb c' r H|o c gn op sy o' c' res H] N; simpl in *.
  - unfold stage_received in H. destruct (_ ≫= _) as [proof|]; [|by injection H as <- _].
    destruct (owner_admit o proof) as [o1 x] eqn:E. injection H as <- _.
    pose proof (admit_node_ok o c proof N) as N'. by rewrite E in N'.
  - unfold seal_prepared in H. destruct (_ ≫= _) as [proof|]; [|by injection H as <- _].
    destruct (owner_admit o proof) as [o1 x] eqn:E. injection H as <- _.
    pose proof (admit_node_ok o c proof N) as N'. by rewrite E in N'.
  - by eapply commit_node_ok.
  - by eapply view_node_ok.
  - by eapply recover_node_ok.
Qed.
End Machine.

(** ** Creating and reopening *)

Section Start.
  Context {SQ : Sqlite} {L : SqliteLaws SQ} {KE : Keccak} {KC : K256}.
  Context (describe : app_error -> string) (run_id : bytes) (Hdist : distinct_producers).

Let g := genesis_of run_id.

(** The statements of [initialize] after the schema. *)
Definition initial_list (accounting : Row) : list write :=
  [InsertMetadata (mk_metadata (be_bytes 4 4) (str "native-poash-c1") (g_bytes g) (u64_cell 0) (u64_cell 0) 0);
   Insert TYearZero [year_bytes]] ++
  map (Upsert TAccounts) (map account_row (s_accounts (cs_data (g_initial g)))) ++
  [Upsert TAccounting accounting; Insert TStates (state_row (g_initial g));
   Insert TCanonicalTip [u64_cell 0; BlockHeader_hash genesis_anchor]; MarkInitialized].

Lemma steps_create p : steps (sq_run sq_create_schema) p (fun _ p' => p' = p).
Proof.
  intros c c' r Hp E. unfold sq_run in E. destruct (sq_create_schema c) as [c1 [[]|e]] eqn:E1;
    injection E as <- <-.
  - destruct (create_ok _ _ _ Hp E1) as [-> Ht]. split; [done|]. intros [] _. eauto.
  - rewrite (create_err _ _ _ _ Hp E1). split; [done|]. by intros a [=].
Qed.

Lemma initialize_exec p :
  steps (initialize g) p (fun _ p' => exists accounting, accounting_row (g_initial g) = Ok accounting /\
    p' = exec (initial_list accounting) p).
Proof.
  unfold initialize. eapply steps_bind; [apply steps_create|]. intros [] p0 ->.
  do 2 (eapply steps_bind; [apply steps_write|]; intros ? ? [-> _]).
  eapply steps_bind; [apply steps_write_accounts|]. intros [] p3 ->.
  eapply steps_bind; [apply steps_write_accounting|]. intros [] p4 (row & Hrow & ->).
  eapply steps_bind; [apply steps_for_each|]. intros [] p5 ->.
  do 2 (eapply steps_bind; [apply steps_write|]; intros ? ? [-> _]).
  eapply steps_weaken; [apply steps_ret|]. intros [] p8 [_ ->]. exists row. split; [done|].
  unfold initial_list. rewrite !exec_app. reflexivity.
Qed.

Lemma initial_list_stored accounting :
  accounting_row (g_initial g) = Ok accounting ->
  stored g (Snapshot_initial g) (exec (initial_list accounting) empty_contents).
Proof.
  intros Hacc. unfold initial_list. rewrite !exec_app.
  set (new := map account_row (s_accounts (cs_data (g_initial g)))).
  set (p1 := exec [InsertMetadata _; Insert TYearZero _] empty_contents).
  destruct (exec_upserts TAccounts new p1) as [M R]. set (p2 := exec (map (Upsert TAccounts) new) p1) in *.
  clearbody p2. constructor.
  - eexists. split; [cbn; rewrite M; reflexivity|]. by constructor.
  - exists accounting. split; [done|].
    assert (foldl (fun rs row => upsert_row TAccounts row rs) [] new = new) as Hup.
    { apply upsert_all; [split; constructor|apply (state_accounts_keyed run_id Hdist (Snapshot_initial g)); constructor|].
      by intros r Hr%not_elem_of_nil. }
    intros []; cbn; rewrite ?R; cbn; done.
Qed.

(** A store file just created holds exactly the genesis snapshot. *)
Lemma create_stored reserved c0 sync generation oc o :
  committed (sq_begin c0).1 = empty_contents ->
  create_inner describe g reserved (Ok c0) sync generation = (oc, Ok o) ->
  exists c, oc = Some c /\ node_ok run_id o (Some c) /\
    (exists n, generation = Ok n /\ o = fresh_owner g (Snapshot_initial g) n) /\
    stored g (Snapshot_initial g) (committed c).
Proof.
  intros He. unfold create_inner. destruct reserved as [[]|e]; [|done]. rewrite bind_of_Ok.
  destruct (sq_begin c0) as [c1 [[]|e]] eqn:Hb; [|done].
  pose proof (begin_ok _ _ Hb) as Hp. cbn [fst] in He. rewrite He in Hp.
  destruct (initialize g c1) as [c2 [[]|e]] eqn:Hi.
  2:{ destruct (if is_autocommit c2 then _ else _) as [c3 rolled]. intros H. injection H as _ H.
      by apply bind_Ok in H as ([] & _ & H). }
  destruct (initialize_exec _ _ _ _ Hp Hi) as [_ Hok].
  destruct (Hok () eq_refl) as (p' & Hp' & acc & Hacc & ->).
  destruct (sq_commit c2) as [c3 done'] eqn:Hc. intros H. injection H as <- H. apply bind_Ok in H as ([] & Hd & H).
  apply map_err_Ok in Hd as ->. apply bind_Ok in H as ([] & _ & H). apply bind_Ok in H as (n & Hgen & H).
  injection H as <-. destruct (commit_ok _ _ _ Hp' Hc) as [E Ht]. exists c3. rewrite E.
  split_and!; [done| |by exists n|by apply initial_list_stored].
  constructor; cbn [fresh_owner ow_genesis ow_snapshot ow_attempt ow_poisoned]; try done; [constructor|by eauto].
Qed.

(** Reopening audits the whole file first. *)
Lemma load_stored opened sync generation oc o :
  load describe g opened sync generation = (oc, Ok o) ->
  exists c, oc = Some c /\ node_ok run_id o (Some c) /\ ow_attempt o = None /\
    stored g (ow_snapshot o) (committed c).
Proof.
  unfold load. destruct opened as [c0|]; [|done]. destruct (audit g c0) as [c1 [s|e]] eqn:Hau; [|done].
  apply (audit_ok run_id Hdist) in Hau as [Hau _].
  destruct (barrier describe sync g s c1) as [c2 du] eqn:Hb. intros H. injection H as <- H.
  apply bind_Ok in H as ([] & -> & H). apply bind_Ok in H as (n & _ & H). injection H as <-.
  apply barrier_ok in Hb as [Hst Ht]. exists c2. split_and!; [done| |done|done].
  constructor; cbn [fresh_owner ow_genesis ow_snapshot ow_attempt ow_poisoned]; try done. by eauto.
Qed.

(** Owners the program can start with. *)
Inductive owner_start : Owner * option conn -> Prop :=
| start_created reserved c0 sync generation o c :
    committed (sq_begin c0).1 = empty_contents ->
    create_inner describe g reserved (Ok c0) sync generation = (Some c, Ok o) -> owner_start (o, Some c)
| start_loaded opened sync generation o c :
    load describe g opened sync generation = (Some c, Ok o) -> owner_start (o, Some c).

Lemma reachable_node_ok n0 n :
  owner_start n0 -> rtc (owner_step describe run_id) n0 n -> node_ok run_id n.1 n.2.
Proof.
  intros Hs Hr. assert (node_ok run_id n0.1 n0.2) as N0.
  { destruct Hs as [? ? ? ? o c He H|? ? ? o c H]; [by apply create_stored in H as (? & [= <-] & ? & _)|by apply load_stored in H as (? & [= <-] & ? & _)]. }
  clear Hs. induction Hr as [|x y z Hxy _ IH]; [done|]. apply IH. by eapply owner_step_ok.
Qed.
End Start.

(** ** Properties *)

Section CommitProperties.
  Context {SQ : Sqlite} {L : SqliteLaws SQ} {KE : Keccak} {KC : K256}.
  Context (describe : app_error -> string) (run_id : bytes).

Let g := genesis_of run_id.

(** C1: every owner the program can reach, from creating or reopening a file
    and through any sequence of staging, sealing, commits, signing views and recoveries with
    any I/O failures, holds an audited snapshot: its prefix is accepted and
    reached from genesis by valid block transitions.  A usable owner has
    nothing in flight, and an uncertain attempt is always a valid extension of
    an audited base. *)
Theorem owner_invariant n0 o c :
  distinct_producers -> owner_start describe run_id n0 ->
  rtc (owner_step describe run_id) n0 (o, c) ->
  node_ok run_id o c /\ exists px, Snapshot_prefix (ow_snapshot o) g = Ok px /\
    px_state px = sn_state (ow_snapshot o) /\
    exists px0, PrefixContext_initial g = Ok px0 /\ rtc chain_step px0 px.
Proof.
  intros Hd Hs Hr. pose proof (reachable_node_ok describe run_id Hd _ _ Hs Hr) as N. split; [done|].
  destruct (audited_has_prefix run_id Hd _ (no_audited _ _ _ N)) as [px A].
  exists px. split_and!; apply A.
Qed.

(** C7: a commit is all or nothing.  [Committed]: the exact old snapshot was
    stored, the exact next one now is, and the owner holds it.  [Aborted]: the
    stored contents are untouched and the owner is unchanged, or blocked when
    the file was not the expected base.  [RecoveryRequired]: the owner keeps
    its old snapshot, remembers the attempt and blocks all work; stored are
    the old contents or the complete next snapshot, never a mixture. *)
Theorem commit_atomic o c stage next o' c' out :
  distinct_producers -> committable run_id o stage next ->
  commit describe o c stage = (o', c', out) ->
  (sq_begin c).2 = Ok () /\ outcome_spec run_id o o' (sq_begin c).1 c' stage next out \/
  o' = o /\ c' = (sq_begin c).1 /\ transaction c' = transaction c /\
    exists e, out = Aborted (sql_error e) /\ (sq_begin c).2 = Err e.
Proof. intros Hd. by apply commit_spec. Qed.

(** C8: recovery never guesses.  When it succeeds, the owner holds an audited
    snapshot that is exactly what the file durably stores, and the report is
    true: present means the stored history continues with exactly the
    attempted record, absent means it is exactly the attempted base.  When it
    fails, the owner stays blocked with its snapshot and attempt unchanged. *)
Theorem recover_exact o c c0 generation opened sync o' c' res :
  distinct_producers -> node_ok run_id o c0 ->
  recover describe o c generation opened sync = (o', c', res) ->
  match res with
  | Ok report => exists c1, c' = Some c1 /\ audited g (ow_snapshot o') /\
      stored g (ow_snapshot o') (committed c1) /\ ow_poisoned o' = false /\ ow_attempt o' = None /\
      rp_position report = tip (ow_snapshot o') /\
      reconciled (ow_attempt o) (ow_snapshot o) (ow_snapshot o') (rp_attempted_present report)
  | Err _ => ow_poisoned o' = true /\ ow_snapshot o' = ow_snapshot o /\ ow_attempt o' = ow_attempt o
  end.
Proof.
  intros Hd N H. apply (recover_spec describe run_id Hd) in H;
    [|apply N..|intros x Hx; by apply (no_attempt _ _ _ N x Hx)].
  destruct res; [|by destruct H as (_ & ? & ? & ? & _)].
  destruct H as (c1 & ? & ? & ? & _ & _ & ? & ? & _ & ? & ?). exists c1. by split_and!.
Qed.
End CommitProperties.

(** ** A fault-free engine in memory *)

Definition mem_view (c : Contents * option Contents) : Contents := default c.1 c.2.

Definition mem_sqlite : Sqlite := {|
  conn := Contents * option Contents;
  committed := fst;
  transaction := snd;
  sq_begin c := ((c.1, Some c.1), Ok ());
  sq_commit c := ((mem_view c, None), Ok ());
  sq_rollback c := ((c.1, None), Ok ());
  sq_create_schema c := (c, Ok ());
  sq_write w c := ((c.1, Some (apply_write w (mem_view c)).1), Ok (apply_write w (mem_view c)).2);
  sq_metadata c := Ok (ct_metadata (mem_view c));
  sq_select t c := Ok (ct_rows (mem_view c) t);
  sq_schema c := Ok ()
|}.

Lemma mem_sqlite_laws : SqliteLaws mem_sqlite.
Proof.
  constructor; unfold visible; cbn; unfold mem_view.
  - by intros c c' [= <-].
  - by intros c c' e [=].
  - intros c c' p Hp [= <-]. by rewrite Hp.
  - by intros c c' p e _ [=].
  - by intros c c' [= <-].
  - by intros c c' e [=].
  - by intros c c' p Hp [= <-].
  - by intros c c' p e _ [=].
  - intros w c c' p n Hp [= <- <-]. by rewrite Hp.
  - by intros w c c' p e _ [=].
  - by intros c ms [= <-].
  - by intros t c rs [= <-].
Qed.

Definition toy_describe (e : app_error) : string := "error".
Definition mem_empty : @conn mem_sqlite := (empty_contents, None).
Definition toy_store : option (@conn mem_sqlite) * result app_error Owner :=
  @create_inner mem_sqlite toy_keccak toy_describe toy_genesis (Ok ()) (Ok mem_empty) (Ok ()) (Ok 1%Z).
Definition toy_created : result app_error (Owner * @conn mem_sqlite) :=
  o ← toy_store.2; c ← ok_or toy_store.1 AppError.Blocked; Ok (o, c).

Lemma toy_create : exists c, toy_store = (Some c, Ok toy_owner) /\ toy_created = Ok (toy_owner, c) /\
  @stored toy_keccak toy_genesis (Snapshot_initial toy_genesis) (@committed mem_sqlite c).
Proof.
  assert ((if toy_store.2 is Ok _ then true else false) = true) as H by (vm_compute; reflexivity).
  unfold toy_created. destruct toy_store as [oc [o|e]] eqn:E; [|discriminate H].
  destruct (@create_stored mem_sqlite mem_sqlite_laws toy_keccak toy_k256 toy_describe (str "run-1") toy_distinct
    (Ok ()) mem_empty (Ok ()) (Ok 1%Z) oc o eq_refl E) as (c & -> & N & (n & [= <-] & ->) & Hst).
  exists c. split_and!; [reflexivity|reflexivity|exact Hst].
Qed.

Lemma toy_committable : exists c st next bs,
  toy_store = (Some c, Ok toy_owner) /\
  @committable toy_keccak toy_k256 (str "run-1") toy_owner st next /\
  @stage_received toy_keccak toy_k256 toy_owner bs = (toy_owner, Ok st).
Proof.
  destruct toy_create as (c & Hc & _). destruct toy_staged as (_ & bs & _ & r & _ & _ & _ & Hr & Ha & Hb).
  destruct (toy_first_insert r Ha Hb) as (next & Hn).
  exists c, (mk_staged (owner_base toy_owner) r), next, bs. split; [exact Hc|]. split; [|exact Hr].
  constructor; [exact toy_live_owner|reflexivity|reflexivity|exact Ha|exact Hn].
Qed.

Lemma commit_atomic_witness : exists c stage next o' c' out,
  @commit mem_sqlite toy_keccak toy_describe toy_owner c stage = (o', c', out) /\
  @outcome_spec mem_sqlite toy_keccak (str "run-1") toy_owner o' (@sq_begin mem_sqlite c).1 c' stage next out.
Proof.
  destruct toy_committable as (c & st & next & _ & _ & C & _).
  destruct (@commit mem_sqlite toy_keccak toy_describe toy_owner c st) as [[o' c'] out] eqn:E.
  exists c, st, next, o', c', out. split; [exact E|].
  destruct (@commit_atomic mem_sqlite mem_sqlite_laws toy_keccak toy_k256 toy_describe (str "run-1")
    toy_owner c st next o' c' out toy_distinct C E) as [[_ H]|(_ & _ & _ & e & _ & H)]; [exact H|discriminate H].
Defined.

(** The owner after creating the file and one commit. *)
Lemma owner_invariant_witness : exists c stage o' c',
  @node_ok mem_sqlite toy_keccak toy_k256 (str "run-1") toy_owner (Some c) /\
  @node_ok mem_sqlite toy_keccak toy_k256 (str "run-1") o' (Some c') /\
  exists out, @commit mem_sqlite toy_keccak toy_describe toy_owner c stage = (o', c', out).
Proof.
  destruct toy_committable as (c & st & next & bs & Hc & _ & Hst).
  destruct (@commit mem_sqlite toy_keccak toy_describe toy_owner c st) as [[o' c'] out] eqn:E.
  pose proof (@start_created mem_sqlite toy_keccak toy_k256 toy_describe (str "run-1") (Ok ()) mem_empty (Ok ())
    (Ok 1%Z) toy_owner c eq_refl Hc) as S.
  exists c, st, o', c'. split; [|split; [|exists out; exact E]].
  - apply (@owner_invariant mem_sqlite mem_sqlite_laws toy_keccak toy_k256 toy_describe (str "run-1")
      _ toy_owner (Some c) toy_distinct S). apply rtc_refl.
  - apply (@owner_invariant mem_sqlite mem_sqlite_laws toy_keccak toy_k256 toy_describe (str "run-1")
      _ o' (Some c') toy_distinct S). eapply rtc_once, os_commit; [|exact E].
    eapply issued_received; [exact toy_live_owner|exact Hst].
Defined.

(** Recovery of an idle owner on the file just created. *)
Lemma recover_exact_witness : exists c o' c' res,
  @recover mem_sqlite toy_keccak toy_k256 toy_describe toy_owner (Some c) (Ok 2%Z) (Ok c) (Ok ()) = (o', c', res) /\
  (if res is Ok report then ow_poisoned o' = false /\ rp_position report = tip (ow_snapshot o')
   else ow_poisoned o' = true).
Proof.
  destruct toy_committable as (c & _ & _ & _ & Hc & _ & _).
  pose proof (@start_created mem_sqlite toy_keccak toy_k256 toy_describe (str "run-1") (Ok ()) mem_empty (Ok ())
    (Ok 1%Z) toy_owner c eq_refl Hc) as S.
  pose proof (@reachable_node_ok mem_sqlite mem_sqlite_laws toy_keccak toy_k256 toy_describe (str "run-1")
    toy_distinct _ _ S (rtc_refl _ _)) as N.
  destruct (@recover mem_sqlite toy_keccak toy_k256 toy_describe toy_owner (Some c) (Ok 2%Z) (Ok c) (Ok ()))
    as [[o' c'] res] eqn:E.
  exists c, o', c', res. split; [exact E|].
  pose proof (@recover_exact mem_sqlite mem_sqlite_laws toy_keccak toy_k256 toy_describe (str "run-1")
    toy_owner (Some c) _ _ _ _ o' c' res toy_distinct N E) as H.
  destruct res as [report|e]; [destruct H as (c1 & _ & _ & _ & Hp & _ & Ht & _); split; [exact Hp|exact Ht]|
    exact (proj1 H)].
Defined.
