(* ===== verification/PoashFile.v ===== *)
(** * The canonical file behind an owner

    What the operations of the owner do to the durable contents of its file
    when no other process writes it, which the process lock of the archive
    ensures: a file that stores a snapshot keeps storing it or an extension of
    it, and the owner's snapshot is never ahead of the file.

    Both facts hold through every failure of the engine; PoashDurable lifts
    them to the handlers of a process and PoashWorld to restarts. *)

From S2P Require Import Prelude Codec Crypto BlockCommitment NativeTransaction.
From S2P Require Import NativeTransfer NativeBlock BlockAuthentication LeaderSelection.
From S2P Require Import PoashBase PoashState PoashSelection PoashGenesis PoashClaim.
From S2P Require Import PoashHistory PoashAdmission PoashApplication PoashCompound PoashChain.
From S2P Require Import PoashSnapshot PoashOwner PoashReplay PoashSql PoashCommit.

(** The archive's process lock: nobody else commits between transactions. *)
Class Fenced (S : Sqlite) : Prop := begin_fenced : forall c, committed (sq_begin c).1 = committed c.

Section File.
  Context {SQ : Sqlite} {SL : SqliteLaws SQ} {FN : Fenced SQ} {KE : Keccak} {KC : K256}.
  Context (describe : app_error -> string) (run_id : bytes) (Hdist : distinct_producers).

Let g := genesis_of run_id.

(** A file determines the snapshot it stores. *)
Lemma stored_unique s s' p : audited g s -> audited g s' -> stored g s p -> stored g s' p -> s = s'.
Proof.
  intros Hs Hs' [_ (a & _ & Hr)] [_ (a' & _ & Hr')].
  pose proof (replay_stored run_id Hdist s Hs) as E. pose proof (replay_stored run_id Hdist s' Hs') as E'.
  pose proof (Hr TBlocks) as B. rewrite (Hr' TBlocks) in B. pose proof (Hr TTransactions) as T.
  rewrite (Hr' TTransactions) in T. cbn [expected] in B, T. rewrite B, T, E in E'. by injection E'.
Qed.

(** The file stores an audited snapshot that extends the records [rs]. *)
Definition holds (rs : list BlockRecord) (p : Contents) : Prop :=
  exists s, audited g s /\ stored g s p /\ rs `prefix_of` sn_records s.

(** What was held stays held. *)
Definition file_grows (p p' : Contents) : Prop := forall rs, holds rs p -> holds rs p'.

#[export] Instance file_grows_refl : Reflexive file_grows.
Proof. by intros p rs. Qed.
#[export] Instance file_grows_trans : Transitive file_grows.
Proof. intros p q r H1 H2 rs H. by apply H2, H1. Qed.

Lemma holds_stored s p : audited g s -> stored g s p -> holds (sn_records s) p.
Proof. intros Ha Hs. by exists s. Qed.

(** The stored snapshot extends whatever the file holds. *)
Lemma stored_holds s p rs : audited g s -> stored g s p -> holds rs p -> rs `prefix_of` sn_records s.
Proof. intros Ha Hs (s' & Ha' & Hs' & Hp). by rewrite (stored_unique s s' p). Qed.

Lemma grows_to s s' p p' :
  audited g s -> stored g s p -> audited g s' -> stored g s' p' -> sn_records s `prefix_of` sn_records s' ->
  file_grows p p'.
Proof.
  intros Ha Hs Ha' Hs' Hp rs H. exists s'. split_and!; [done..|]. etrans; [|exact Hp]. by eapply stored_holds.
Qed.

(** ** Committing *)

Lemma insert_grows s r s' : Snapshot_insert s r = Ok s' -> sn_records s `prefix_of` sn_records s'.
Proof. intros H. destruct (insert_shape _ _ _ H) as (_ & -> & _). by apply prefix_app_r. Qed.

Lemma commit_file o c stage o' c' out :
  node_ok run_id o (Some c) -> issued run_id stage -> ow_poisoned o = false ->
  holds (sn_records (ow_snapshot o)) (committed c) -> commit describe o c stage = (o', c', out) ->
  holds (sn_records (ow_snapshot o')) (committed c') /\ file_grows (committed c) (committed c').
Proof.
  intros N Hiss Hp Hh H. destruct (issued_appends run_id Hdist stage Hiss) as [_ Happ].
  destruct (no_ready _ _ _ N Hp) as (Hat & _).
  destruct (check_base o (sb_base stage)) as [[]|e] eqn:Hb.
  2:{ unfold commit in H. rewrite Hb in H. by injection H as <- <- <-. }
  pose proof (check_base_ok _ _ Hb) as (_ & Hhal & Hbase).
  destruct (Snapshot_insert (ow_snapshot o) (sb_record stage)) as [next|e] eqn:Hn.
  2:{ unfold commit in H. cbv zeta in H. rewrite Hb, bind_of_Ok, Hn in H. by injection H as <- <- <-. }
  rewrite Hbase in Happ.
  assert (committable run_id o stage next) as C by (constructor; try done; by destruct N).
  pose proof (no_audited _ _ _ N) as Hau. pose proof (audited_append g _ _ _ Hau Happ Hn) as Hnext.
  assert (forall p', stored g (ow_snapshot o) (committed c) -> stored g next p' ->
    holds (sn_records next) p' /\ file_grows (committed c) p') as Hgo.
  { intros p' Hs Hs'. split; [by apply holds_stored|]. eapply (grows_to (ow_snapshot o) next); try done. by eapply insert_grows. }
  pose proof (begin_fenced c) as Hf.
  destruct (commit_spec describe run_id Hdist _ _ _ _ _ _ _ C H) as [[_ Hout]|(-> & -> & _)]; [|by rewrite Hf].
  destruct out; cbn [outcome_spec] in Hout; rewrite Hf in Hout.
  - destruct Hout as (_ & Hs & Hs' & _ & ->). by apply Hgo.
  - destruct Hout as (-> & _ & [->|[_ ->]]); by split.
  - destruct Hout as ([->|[Hs Hs']] & ->); [by split|]. cbn [set_poisoned set_attempt ow_snapshot].
    destruct (Hgo _ Hs Hs') as [Hx G]. split; [by apply G|done].
Qed.

(** Reading the stored base for the signer leaves the file alone. *)
Lemma signing_view_file o pb c c' r : signing_view o pb c = (c', r) -> committed c' = committed c.
Proof.
  unfold signing_view. destruct (check_base _ _); [|by intros [= <- _]].
  pose proof (begin_fenced c) as Hf. destruct (sq_begin c) as [c1 [[]|e]]; [|by intros [= <- _]].
  cbv zeta. destruct (sq_rollback c1) as [c2 ended] eqn:Hr. intros [= <- _]. cbn [fst] in Hf. rewrite <- Hf.
  destruct ended as [[]|e]; [by apply rollback_ok in Hr as [-> _]|by apply rollback_err in Hr as ->].
Qed.

(** ** Auditing and recovering *)

Lemma audit_file c c' r :
  audit g c = (c', r) ->
  committed c' = committed c /\ (forall s, r = Ok s -> audited g s /\ stored g s (committed c)).
Proof.
  intros H. assert (forall s, r = Ok s -> audited g s) as Hau.
  { intros s ->. by apply (audit_ok run_id Hdist) in H as [? _]. }
  unfold audit in H. pose proof (begin_fenced c) as Hf.
  destruct (sq_begin c) as [c1 [[]|e]] eqn:Hb; cbn [fst] in Hf; [|injection H as <- <-; by split].
  destruct (sq_rollback c1) as [c2 ended] eqn:Hr. injection H as <- Er. split.
  - rewrite <- Hf. destruct ended as [[]|e]; [by apply rollback_ok in Hr as [-> _]|by apply rollback_err in Hr as ->].
  - intros s E. split; [by apply Hau|]. rewrite E in Er. apply bind_Ok in Er as (s' & Hs & Er).
    apply bind_Ok in Er as ([] & _ & Er). injection Er as ->. unfold audit_reads in Hs.
    apply bind_Ok in Hs as ([] & _ & Hs). apply bind_Ok in Hs as (n & _ & Hs). apply bind_Ok in Hs as ([] & _ & Hs).
    apply bind_Ok in Hs as (bl & _ & Hs). apply bind_Ok in Hs as (tx & _ & Hs). apply bind_Ok in Hs as (s1 & _ & Hs).
    apply bind_Ok in Hs as ([] & _ & Hs). apply bind_Ok in Hs as ([] & Hv & Hs). injection Hs as ->.
    apply verify_stored in Hv. unfold visible in Hv. rewrite (begin_ok _ _ Hb) in Hv. simpl in Hv. by rewrite <- Hf.
Qed.

(** The durability barrier only counts. *)
Lemma barrier_file sync s c c' r :
  stored g s (committed c) -> barrier describe sync g s c = (c', r) -> stored g s (committed c').
Proof.
  intros Hst. unfold barrier. pose proof (begin_fenced c) as Hf.
  destruct (sq_begin c) as [c0 [[]|e]] eqn:Hb; cbn [fst] in Hf; [|intros [= <- _]; by rewrite Hf].
  pose proof (begin_ok _ _ Hb) as Hp. unfold mbind, sql_bind, sq_read, sq_lift. rewrite <- Hf in Hst.
  destruct (verify g s c0) as [[]|]; [|by intros [= <- _]].
  destruct (map_err sql_error (sq_metadata c0)) as [ms|]; [|by intros [= <- _]].
  destruct (ok_or (md_barrier <$> head ms) _) as [old|]; [|by intros [= <- _]].
  destruct (ok_or (checked_add U64 (be_val old) 1) _) as [nx|]; [|by intros [= <- _]].
  destruct (cas _ _ c0) as [c1 r1] eqn:Hcas.
  destruct (steps_cas _ _ _ _ _ _ Hp Hcas) as [Hc Hok]. destruct r1 as [[]|]; [|intros [= <- _]; by rewrite Hc].
  destruct (Hok () eq_refl) as (p' & Hp' & -> & _). unfold sq_run.
  assert (stored g s (apply_write (UpdateBarrier (u64_cell nx) old) (committed c0)).1) as Hnew
    by (apply stored_barrier; [apply length_be_bytes|done]).
  destruct (sq_commit c1) as [c2 [[]|e]] eqn:Hcm; cbn [map_err]; intros [= <- _].
  - by apply (commit_ok _ _ _ Hp') in Hcm as [-> _].
  - apply (commit_err _ _ _ _ Hp') in Hcm as [-> | ->]; [by rewrite Hc|done].
Qed.

(** Auditing and the barrier together: reopening, in this process or a new
    one, leaves the stored snapshot what it was. *)
Lemma reopened_file c c1 r sync s c2 r2 :
  audit g c = (c1, r) -> r = Ok s -> barrier describe sync g s c1 = (c2, r2) ->
  audited g s /\ stored g s (committed c) /\ stored g s (committed c2) /\ file_grows (committed c) (committed c2).
Proof.
  intros Hau -> Hb. apply audit_file in Hau as [E Hs]. destruct (Hs s eq_refl) as [Ha Hst].
  assert (stored g s (committed c2)) as Hst2 by (eapply barrier_file; [|exact Hb]; by rewrite E).
  split_and!; [done..|]. by eapply grows_to.
Qed.

Lemma recover_file o c generation opened sync o' c' res p :
  node_ok run_id o c -> (forall c0, opened = Ok c0 -> committed c0 = p) -> (forall c0, c = Some c0 -> committed c0 = p) ->
  holds (sn_records (ow_snapshot o)) p -> recover describe o c generation opened sync = (o', c', res) ->
  let p' := if c' is Some c1 then committed c1 else p in
  holds (sn_records (ow_snapshot o')) p' /\ file_grows p p'.
Proof.
  intros N Hop Hc Hh. unfold recover. destruct generation as [n|e].
  2:{ intros [= <- <- <-]. destruct c as [c|]; cbn; [by rewrite (Hc c)|done]. }
  destruct opened as [c0|e]; [|by intros [= <- <- <-]]. specialize (Hop c0 eq_refl). subst p.
  cbn [set_poisoned set_generation ow_genesis ow_attempt ow_snapshot]. rewrite (no_genesis _ _ _ N). fold g.
  destruct (audit g c0) as [c1 r] eqn:Hau. pose proof (audit_file _ _ _ Hau) as [E _].
  destruct r as [loaded|e]; [|intros [= <- <- <-]; cbn; by rewrite E]; rewrite ?bind_of_Ok.
  destruct (reconcile_attempt _ _ loaded) as [present|e]; [|intros [= <- <- <-]; cbn; by rewrite E]; rewrite ?bind_of_Ok.
  destruct (barrier describe sync g loaded c1) as [c2 d] eqn:Hb.
  destruct (reopened_file _ _ _ _ _ _ _ Hau eq_refl Hb) as (Ha & Hs & Hs2 & G).
  destruct d as [[]|e]; intros [= <- <- <-]; cbn.
  - split; [by apply holds_stored|done].
  - split; [by apply G|done].
Qed.

(** ** Starting *)

(** A creation leaves an empty file or one that stores the initial snapshot. *)
Lemma create_file reserved c0 sync generation oc res :
  committed c0 = empty_contents -> create_inner describe g reserved (Ok c0) sync generation = (oc, res) ->
  forall c, oc = Some c -> committed c = empty_contents \/ stored g (Snapshot_initial g) (committed c).
Proof.
  intros He. unfold create_inner. destruct reserved as [[]|e]; [|by intros [= <- <-]]. rewrite bind_of_Ok.
  pose proof (begin_fenced c0) as Hf. rewrite He in Hf.
  destruct (sq_begin c0) as [c1 [[]|e]] eqn:Hb; cbn [fst] in Hf; [|intros [= <- <-] c [= <-]; by left].
  pose proof (begin_ok _ _ Hb) as Hp. rewrite Hf in Hp.
  destruct (initialize g c1) as [c2 w] eqn:Hi. destruct (initialize_exec run_id _ _ _ _ Hp Hi) as [Hc2 Hok].
  destruct w as [[]|e].
  - destruct (Hok () eq_refl) as (p' & Hp' & acc & Hacc & ->).
    destruct (sq_commit c2) as [c3 d] eqn:Hc. intros [= <- _] c [= <-].
    pose proof (initial_list_stored run_id Hdist acc Hacc) as Hs.
    destruct d as [[]|e]; [right; by apply (commit_ok _ _ _ Hp') in Hc as [-> _]|].
    apply (commit_err _ _ _ _ Hp') in Hc as [-> | ->]; [left; by rewrite Hc2|by right].
  - destruct (if is_autocommit c2 then _ else _) as [c3 d] eqn:Hr. intros [= <- _] c [= <-]. left. rewrite <- Hf, <- Hc2.
    destruct (is_autocommit c2); [by injection Hr as <- <-|].
    destruct d as [[]|x]; [by apply rollback_ok in Hr as [-> _]|by apply rollback_err in Hr as ->].
Qed.

(** Reopening keeps what the file stores; an owner it returns holds exactly that. *)
Lemma load_file c0 sync generation oc res :
  load describe g (Ok c0) sync generation = (oc, res) ->
  exists c, oc = Some c /\ file_grows (committed c0) (committed c) /\
    (forall o, res = Ok o -> forall rs, holds rs (committed c0) -> rs `prefix_of` sn_records (ow_snapshot o)).
Proof.
  unfold load. destruct (audit g c0) as [c1 r] eqn:Hau. pose proof (audit_file _ _ _ Hau) as [E _].
  destruct r as [s|e]; [|intros [= <- <-]; exists c1; by rewrite E].
  destruct (barrier describe sync g s c1) as [c2 d] eqn:Hb.
  destruct (reopened_file _ _ _ _ _ _ _ Hau eq_refl Hb) as (Ha & Hs & Hs2 & G). intros [= <- <-].
  exists c2. split_and!; [done..|]. intros o Ho rs Hrs. apply bind_Ok in Ho as ([] & _ & Ho).
  apply bind_Ok in Ho as (n & _ & Ho). injection Ho as <-. exact (stored_holds s _ rs Ha Hs Hrs).
Qed.

(** An empty file stores nothing. *)
Lemma empty_holds rs : ~ holds rs empty_contents.
Proof. intros (s & _ & [(m & E & _) _] & _). done. Qed.
End File.
