(* ===== verification/PoashSchema.v ===== *)
(** * The constraints of the schema (src/src/native_poash/storage/sql.rs, [TABLES], [triggers])

    The CHECK, PRIMARY KEY, UNIQUE and FOREIGN KEY clauses of the schema-4
    tables and the triggers on them, as the decision whether the engine
    accepts any statement ([run_sql]), one of the code's ([admissible]) or a
    COMMIT ([deferred_ok]).

    Whatever INSERT, REPLACE, upsert, UPDATE or DELETE succeeds keeps the
    constraints and never changes or drops a row of the history tables
    ([schema_append_only]).  The constraints never refuse
    what the owner writes: a stored snapshot satisfies all of them
    ([stored_enforced]), and the statements of an append and of a creation, in
    their order, pass every check, key, trigger and reference
    ([append_admitted], [initial_admitted]), unless two concrete messages have
    the same digest. *)

From S2P Require Import Prelude Codec Crypto BlockCommitment NativeTransaction.
From S2P Require Import NativeTransfer NativeBlock BlockAuthentication LeaderSelection.
From S2P Require Import PoashBase PoashState PoashSelection PoashGenesis PoashClaim.
From S2P Require Import PoashHistory PoashAdmission PoashApplication PoashCompound PoashChain.
From S2P Require Import PoashSnapshot PoashOwner PoashReplay PoashSql PoashCommit.

(** ** The table definitions *)

(** Columns with the length their CHECK allows; every one is a NOT NULL BLOB.
    The [id] column of a singleton table always holds 1 and is left out. *)
Definition columns (t : table) : list (string * (Z * Z)) :=
  match t with
  | TAccounts => [("address", (20, 20)); ("balance", (16, 16)); ("nonce", (8, 8))]
  | TAccounting => [("gas", (8, 8)); ("fees", (16, 16)); ("issuance", (16, 16)); ("supply", (16, 16));
                    ("participation", (8, 8)); ("eligible_fee_burn", (16, 16))]
  | TYearZero => [("record", (120, 120))]
  | TBlocks => [("slot", (8, 8)); ("hash", (32, 32)); ("parent", (32, 32)); ("header", (229, 229));
                ("producer", (7, 7)); ("protocol", (10, 10)); ("signature", (65, 65));
                ("envelope_id", (32, 32))]
  | TBodies => [("slot", (8, 8)); ("count", (8, 8)); ("gas", (8, 8)); ("fees", (8, 8))]
  | TTransactions => [("id", (32, 32)); ("slot", (8, 8)); ("position", (8, 8)); ("sender", (20, 20));
                      ("nonce", (8, 8)); ("signed", (199, 199))]
  | TRewards => [("slot", (8, 8)); ("validator", (7, 7)); ("amount", (16, 16));
                 ("earning_epoch", (8, 8)); ("hold_epochs", (8, 8))]
  | TStates => [("slot", (8, 8)); ("hash", (32, 32)); ("payload", (610, 200000)); ("state_id", (32, 32))]
  | TCanonicalTip => [("slot", (8, 8)); ("hash", (32, 32))]
  end%Z.

(** The column CHECKs of one row; a block's slot is also positive. *)
Definition row_ok (t : table) (row : Row) : bool :=
  (length row ==? length (columns t)) && cells_ok (map snd (columns t)) 0 row &&
  (if t is TBlocks then negb (bytes_leb (cell 0 row) (u64_cell 0)) else true).

(** PRIMARY KEY and UNIQUE, as column numbers; [[]] is the fixed [id]. *)
Definition unique_keys (t : table) : list (list nat) :=
  match t with
  | TAccounts | TBodies | TRewards => [[0]]
  | TAccounting | TYearZero | TCanonicalTip => [[]]
  | TBlocks => [[0]; [1]; [7]]
  | TStates => [[0]; [1]; [0; 1]]
  | TTransactions => [[0]; [1; 2]; [3; 4]]
  end%nat.

Definition project (ks : list nat) (row : Row) : list bytes := map (fun k => cell k row) ks.

(** Some row agrees with [row] on one of the keys. *)
Definition clashes (keys : list (list nat)) (row : Row) (rs : list Row) : bool :=
  existsb (fun ks => existsb (fun r => project ks r ==? project ks row) rs) keys.

Record foreign_key : Type := mk_foreign_key {
  fk_columns : list nat;
  fk_parent : table;
  fk_parent_columns : list nat;
  fk_deferred : bool
}.

Definition foreign_keys (t : table) : list foreign_key :=
  match t with
  | TBlocks => [mk_foreign_key [0] TBodies [0] true; mk_foreign_key [0; 1] TStates [0; 1] true]
  | TBodies => [mk_foreign_key [0] TBlocks [0] true]
  | TTransactions => [mk_foreign_key [1] TBodies [0] false]
  | TRewards => [mk_foreign_key [0] TBlocks [0] false]
  | TCanonicalTip => [mk_foreign_key [0; 1] TStates [0; 1] false]
  | _ => []
  end%nat.

(** The referenced row exists. *)
Definition refers (c : Contents) (row : Row) (fk : foreign_key) : bool :=
  existsb (fun p => project (fk_parent_columns fk) p ==? project (fk_columns fk) row)
    (ct_rows c (fk_parent fk)).

(** References checked at the end of the statement, and at COMMIT. *)
Definition immediate_ok (t : table) (row : Row) (c : Contents) : bool :=
  forallb (fun fk => fk_deferred fk || refers c row fk) (foreign_keys t).

Definition all_tables : list table :=
  [TAccounts; TAccounting; TYearZero; TBlocks; TBodies; TStates; TRewards; TCanonicalTip; TTransactions].

Definition deferred_ok (c : Contents) : bool :=
  forallb (fun t => forallb (fun row => forallb (refers c row) (foreign_keys t)) (ct_rows c t)) all_tables.

(** The CHECKs of the metadata table. *)
Definition metadata_check (m : Metadata) : bool :=
  (md_version m ==? be_bytes 4 4) && (md_mode m ==? str "native-poash-c1") &&
  (1 <=? Z.of_nat (length (md_genesis m)))%Z && (Z.of_nat (length (md_genesis m)) <=? 16384)%Z &&
  (length (md_revision m) ==? 8%nat) && (length (md_barrier m) ==? 8%nat) &&
  ((md_initialized m ==? 0)%Z || (md_initialized m ==? 1)%Z).

(** ** The triggers *)

(** The tables of the loop of [triggers]. *)
Definition immutable (t : table) : bool :=
  match t with
  | TBlocks | TBodies | TTransactions | TRewards | TStates | TYearZero => true
  | _ => false
  end.

(** [predicate]: what [no_replace_t] compares with the new row. *)
Definition no_replace_keys (t : table) : list (list nat) :=
  match t with
  | TBlocks => [[0]; [1]; [7]]
  | TStates => [[0]; [1]]
  | TTransactions => [[0]; [1; 2]; [3; 4]]
  | TYearZero => [[]]
  | TBodies | TRewards => [[0]]
  | _ => []
  end%nat.

Definition no_replace (t : table) (row : Row) (c : Contents) : bool :=
  negb (clashes (no_replace_keys t) row (ct_rows c t)).

(** [metadata_policy] lets the update from [old] to [new] pass. *)
Definition metadata_policy (old new : Metadata) : bool :=
  negb ((md_initialized old ==? 1)%Z &&
        ((md_version new !=? md_version old) || (md_mode new !=? md_mode old) ||
         (md_genesis new !=? md_genesis old) || (md_initialized new !=? 1)%Z)).

(** [metadata_delete] raises for every row, [metadata_replace] for an insertion
    into a table with a row. *)
Definition metadata_delete (m : Metadata) : bool := false.
Definition metadata_replace (c : Contents) : bool := length (ct_metadata c) ==? 0%nat.

Definition metadata_update (f : Metadata -> Metadata) (m : Metadata) : bool :=
  metadata_policy m (f m) && metadata_check (f m).

(** ** Accepted statements *)

(** Whether the engine accepts a statement of the code on these contents.  The
    code's upserts have an ON CONFLICT clause for the only key of their table.
    [run_sql] below is the decision for any statement. *)
Definition admissible (w : write) (c : Contents) : bool :=
  match w with
  | Insert t row =>
      no_replace t row c && row_ok t row && negb (clashes (unique_keys t) row (ct_rows c t)) &&
      immediate_ok t row (apply_write w c).1
  | Upsert t row => match t with TAccounts | TAccounting => negb (immutable t) && row_ok t row | _ => false end
  | InsertMetadata m => metadata_replace c && metadata_check m
  | MarkInitialized => forallb (metadata_update set_initialized) (ct_metadata c)
  | UpdateRevision new old =>
      forallb (fun m => if md_revision m ==? old then metadata_update (set_revision new) m else true)
        (ct_metadata c)
  | UpdateBarrier new old =>
      forallb (fun m => if md_barrier m ==? old then metadata_update (set_barrier new) m else true)
        (ct_metadata c)
  | UpdateTip new old =>
      forallb (fun r => if r ==? old then
          negb (immutable TCanonicalTip) && row_ok TCanonicalTip new && immediate_ok TCanonicalTip new (apply_write w c).1 else true)
        (ct_rows c TCanonicalTip)
  end.

(** A sequence of statements, each accepted where it is executed. *)
Fixpoint admitted (ws : list write) (c : Contents) : bool :=
  match ws with
  | [] => true
  | w :: rest => admissible w c && admitted rest (apply_write w c).1
  end.

(** ** Contents that satisfy the constraints *)

Definition keys_unique (t : table) (rs : list Row) : Prop :=
  Forall (fun ks => NoDup (map (project ks) rs)) (unique_keys t).

Record conforms (c : Contents) : Prop := {
  cf_metadata : Forall (fun m => metadata_check m = true) (ct_metadata c);
  cf_singleton : (length (ct_metadata c) <= 1)%nat;
  cf_rows : forall t, Forall (fun row => row_ok t row = true) (ct_rows c t);
  cf_unique : forall t, keys_unique t (ct_rows c t);
  cf_immediate : forall t, Forall (fun row => immediate_ok t row c = true) (ct_rows c t)
}.

(** What COMMIT leaves in the file. *)
Record enforced (c : Contents) : Prop := {
  ef_conforms : conforms c;
  ef_deferred : deferred_ok c = true
}.

(** The CHECK of every column is the bound its reader applies. *)
Lemma columns_widths t : map snd (columns t) = widths_of t.
Proof. by destruct t. Qed.

Lemma empty_conforms : conforms empty_contents.
Proof.
  constructor; try by constructor. intros t. unfold keys_unique. apply Forall_forall.
  intros ks _. constructor.
Qed.

(** ** Keys *)

Lemma clashes_false keys row rs :
  clashes keys row rs = false <-> Forall (fun ks => project ks row ∉ map (project ks) rs) keys.
Proof.
  unfold clashes. rewrite <- not_true_iff_false, existsb_exists, Forall_forall. split.
  - intros H ks Hks (r & E & Hr)%list_elem_of_fmap. apply H. exists ks. split; [by apply list_elem_of_In|].
    apply existsb_exists. exists r. split; [by apply list_elem_of_In|]. by apply bool_decide_eq_true.
  - intros H (ks & Hks%list_elem_of_In & (r & Hr%list_elem_of_In & E%bool_decide_eq_true)%existsb_exists).
    apply (H ks Hks). rewrite <- E. by apply list_elem_of_fmap_2.
Qed.

(** The triggers refuse no more than the keys do. *)
Lemma no_replace_implied t row c :
  clashes (unique_keys t) row (ct_rows c t) = false -> no_replace t row c = true.
Proof.
  intros H%clashes_false. unfold no_replace. apply negb_true_iff, clashes_false.
  destruct t; cbn [unique_keys no_replace_keys] in *; rewrite ?Forall_cons in *; destruct_and?; by repeat split.
Qed.

Lemma insert_row_perm t row rs : insert_row t row rs ≡ₚ row :: rs.
Proof. apply insert_sorted_perm. Qed.

Lemma keys_unique_perm t a b : a ≡ₚ b -> keys_unique t a -> keys_unique t b.
Proof.
  intros Hp H. eapply Forall_impl; [exact H|]. intros ks Hn. cbv beta in *.
  by rewrite <- Hp.
Qed.

Lemma keys_unique_cons t row rs :
  keys_unique t (row :: rs) <-> clashes (unique_keys t) row rs = false /\ keys_unique t rs.
Proof.
  rewrite clashes_false. unfold keys_unique. rewrite !Forall_forall. cbn [map]. setoid_rewrite NoDup_cons.
  naive_solver.
Qed.

(** ** Accepted statements keep the history and the constraints *)

Lemma admissible_keeps t row w c :
  immutable t = true -> admissible w c = true -> row ∈ ct_rows c t -> row ∈ ct_rows (apply_write w c).1 t.
Proof.
  intros Ht Ha Hr. destruct w as [t' r|t' r| | | | |]; cbn [apply_write fst ct_rows set_rows]; try done.
  - case_decide as E; [subst t'|done]. rewrite insert_row_perm. by right.
  - case_decide as E; [subst t'|done]. by destruct t.
  - case_decide as E; [subst t|done]. done.
Qed.

Lemma parents_immutable t fk : fk ∈ foreign_keys t -> immutable (fk_parent fk) = true.
Proof. intros H. destruct t; cbn in H; set_unfold in H; naive_solver. Qed.

Lemma refers_kept t row fk w c :
  fk ∈ foreign_keys t -> admissible w c = true -> refers c row fk = true ->
  refers (apply_write w c).1 row fk = true.
Proof.
  intros Hfk Ha (p & Hp%list_elem_of_In & E)%existsb_exists. apply existsb_exists. exists p.
  split; [|done]. apply list_elem_of_In. eapply admissible_keeps; [by eapply parents_immutable|done..].
Qed.

Lemma immediate_kept t row w c :
  admissible w c = true -> immediate_ok t row c = true -> immediate_ok t row (apply_write w c).1 = true.
Proof.
  unfold immediate_ok. rewrite !forallb_forall. intros Ha H fk Hfk. specialize (H fk Hfk).
  apply orb_true_iff in H as [->|H]; [done|]. apply orb_true_iff. right.
  eapply refers_kept; [by apply list_elem_of_In|done..].
Qed.

Lemma upsert_unique t row rs :
  t = TAccounts \/ t = TAccounting -> keys_unique t rs -> keys_unique t (upsert_row t row rs).
Proof.
  intros Ht Hu. unfold upsert_row.
  assert (forall a b ks, ks ∈ unique_keys t -> row_key t a = row_key t b <-> project ks a = project ks b) as Hkey.
  { intros a b ks Hks. destruct Ht as [-> | ->]; cbn in *; apply list_elem_of_singleton in Hks as ->; cbn; [|done].
    split; congruence. }
  destruct (existsb _ rs) eqn:Hex.
  - unfold keys_unique in *. rewrite !Forall_forall in *. intros ks Hks. rewrite map_map.
    rewrite (map_ext_Forall _ (project ks)); [by apply Hu|]. apply List.Forall_forall. intros r _.
    case_bool_decide as E; [|done]. symmetry. by apply Hkey.
  - eapply keys_unique_perm; [symmetry; apply insert_row_perm|]. apply keys_unique_cons. split; [|done].
    apply clashes_false, Forall_forall. intros ks Hks (r & E & Hr)%list_elem_of_fmap.
    apply not_true_iff_false in Hex. apply Hex, existsb_exists. exists r. split; [by apply list_elem_of_In|].
    apply bool_decide_eq_true. by apply (Hkey _ _ ks Hks).
Qed.

Lemma upsert_elem t row rs x : x ∈ upsert_row t row rs -> x = row \/ x ∈ rs.
Proof.
  unfold upsert_row. destruct (existsb _ rs).
  - intros (r & -> & Hr)%list_elem_of_fmap. case_bool_decide; auto.
  - rewrite insert_row_perm. by intros [->|?]%elem_of_cons; auto.
Qed.

Lemma metadata_kept (f : Metadata -> Metadata) (test : Metadata -> bool) ms :
  Forall (fun m => metadata_check m = true) ms ->
  forallb (fun m => if test m then metadata_update f m else true) ms = true ->
  Forall (fun m => metadata_check m = true) (map (fun m => if test m then f m else m) ms).
Proof.
  intros Hm H. rewrite forallb_forall in H. apply Forall_forall.
  intros m (m0 & -> & Hin)%list_elem_of_fmap. rewrite Forall_forall in Hm. specialize (Hm m0 Hin).
  apply list_elem_of_In, H in Hin. destruct (test m0); [|done].
  unfold metadata_update in Hin. by apply andb_true_iff in Hin as [_ ?].
Qed.

(** Statements on the metadata leave the tables alone. *)
Lemma conforms_metadata c ms :
  conforms c -> Forall (fun m => metadata_check m = true) ms -> (length ms <= 1)%nat ->
  conforms (mk_contents ms (ct_rows c)).
Proof. intros [] Hm Hl. by constructor. Qed.

(** Replacing the rows of one table. *)
Lemma conforms_rows t rs c :
  conforms c -> Forall (fun row => row_ok t row = true) rs -> keys_unique t rs ->
  (forall t' row, immediate_ok t' row c = true -> immediate_ok t' row (set_rows t rs c) = true) ->
  Forall (fun row => row ∈ ct_rows c t \/ immediate_ok t row (set_rows t rs c) = true) rs ->
  conforms (set_rows t rs c).
Proof.
  intros [Hm Hs Hr Hu Hi] Hrows Hkeys Hkeep Hnew. constructor; try done.
  - intros t'. cbn. by case_decide; subst.
  - intros t'. cbn. by case_decide; subst.
  - intros t'. cbn [set_rows ct_rows]. case_decide as E; [subst t'|].
    + eapply Forall_impl; [exact Hnew|]. intros row [Hold|?]; [|done]. apply Hkeep.
      specialize (Hi t). rewrite Forall_forall in Hi. by apply Hi.
    + eapply Forall_impl; [apply Hi|]. intros row. apply Hkeep.
Qed.

Lemma insert_conforms t row c :
  conforms c -> admissible (Insert t row) c = true -> conforms (apply_write (Insert t row) c).1.
Proof.
  intros C Ha. pose proof (fun t' r => immediate_kept t' r _ _ Ha) as Hkeep. cbn [admissible] in Ha.
  rewrite !andb_true_iff, negb_true_iff in Ha. destruct Ha as [[[_ Hok] Hcl] Him].
  cbn [apply_write fst] in *. apply conforms_rows; try done.
  - rewrite insert_row_perm. constructor; [done|apply C].
  - eapply keys_unique_perm; [symmetry; apply insert_row_perm|]. apply keys_unique_cons. split; [done|apply C].
  - rewrite insert_row_perm. constructor; [by right|]. apply Forall_forall. by left.
Qed.

Lemma upsert_conforms t row c :
  conforms c -> admissible (Upsert t row) c = true -> conforms (apply_write (Upsert t row) c).1.
Proof.
  intros C Ha. pose proof (fun t' r => immediate_kept t' r _ _ Ha) as Hkeep.
  assert ((t = TAccounts \/ t = TAccounting) /\ row_ok t row = true) as [Ht Hok]
    by (destruct t; cbn [admissible] in Ha; (done || auto)).
  cbn [apply_write fst] in *. apply conforms_rows; try done.
  - apply Forall_forall. intros x [->|Hx]%upsert_elem; [done|].
    pose proof (cf_rows _ C t) as H. rewrite Forall_forall in H. by apply H.
  - apply upsert_unique; [done|apply C].
  - apply Forall_forall. intros x [->|Hx]%upsert_elem; [right|by left]. by destruct Ht as [-> | ->].
Qed.

Lemma tip_conforms new old c :
  conforms c -> admissible (UpdateTip new old) c = true -> conforms (apply_write (UpdateTip new old) c).1.
Proof.
  intros C Ha. pose proof (fun t' r => immediate_kept t' r _ _ Ha) as Hkeep. cbn [admissible] in Ha.
  rewrite forallb_forall in Ha. setoid_rewrite <- list_elem_of_In in Ha.
  cbn [apply_write fst] in *.
  assert (forall x, x ∈ map (fun r => if r ==? old then new else r) (ct_rows c TCanonicalTip) ->
    x ∈ ct_rows c TCanonicalTip \/ (x = new /\ old ∈ ct_rows c TCanonicalTip)) as Helem.
  { intros x (r & -> & Hr)%list_elem_of_fmap. case_bool_decide as E; [right; by subst|by left]. }
  assert (old ∈ ct_rows c TCanonicalTip -> row_ok TCanonicalTip new = true /\
    immediate_ok TCanonicalTip new (apply_write (UpdateTip new old) c).1 = true) as Hnew.
  { intros Hin. specialize (Ha old Hin). rewrite bool_decide_eq_true_2 in Ha by done. by apply andb_true_iff. }
  apply conforms_rows; try done.
  - apply Forall_forall. intros x [Hx|[-> Hin]]%Helem; [|by apply Hnew].
    pose proof (cf_rows _ C TCanonicalTip) as H. rewrite Forall_forall in H. by apply H.
  - pose proof (cf_unique _ C TCanonicalTip) as H. unfold keys_unique in *. cbn [unique_keys] in *.
    rewrite !Forall_singleton in *. by rewrite map_map.
  - apply Forall_forall. intros x [Hx|[-> Hin]]%Helem; [by left|]. right. by apply Hnew.
Qed.

Lemma admissible_conforms w c : conforms c -> admissible w c = true -> conforms (apply_write w c).1.
Proof.
  intros C Ha. pose proof (cf_metadata _ C) as Hm. pose proof (cf_singleton _ C) as Hs.
  destruct w as [t row|t row|m| |new old|new old|new old].
  - by apply insert_conforms.
  - by apply upsert_conforms.
  - cbn [admissible] in Ha. apply andb_true_iff in Ha as [Hl%bool_decide_eq_true Hc].
    apply nil_length_inv in Hl. cbn [apply_write fst]. apply conforms_metadata; rewrite ?Hl; try done. by constructor.
  - apply conforms_metadata; [done| |by rewrite length_map].
    by apply (metadata_kept set_initialized (fun _ => true)).
  - apply conforms_metadata; [done| |by rewrite length_map]. by apply (metadata_kept (set_revision new)).
  - apply conforms_metadata; [done| |by rewrite length_map]. by apply (metadata_kept (set_barrier new)).
  - by apply tip_conforms.
Qed.

Lemma admitted_app a b c : admitted (a ++ b) c = admitted a c && admitted b (exec a c).
Proof.
  unfold exec. revert c. induction a as [|w a IH]; intros c; [done|]. cbn [admitted app foldl].
  by rewrite IH, andb_assoc.
Qed.

(** ** The rows of an audited snapshot pass the column checks *)

Lemma concat_bounds {A} (f : A -> bytes) (low high : Z) l :
  Forall (fun a => (low <= Z.of_nat (length (f a)) <= high)%Z) l ->
  (low * Z.of_nat (length l) <= Z.of_nat (length (concat (map f l))) <= high * Z.of_nat (length l))%Z.
Proof.
  induction 1 as [|a l Ha _ IH]; cbn [map concat length]; [lia|]. rewrite length_app. lia.
Qed.

Lemma optional_bounds n : (1 <= Z.of_nat (length (optional n)) <= 9)%Z.
Proof. destruct n; unfold optional; rewrite ?length_app, ?length_be_bytes; simpl; lia. Qed.

Lemma length_text s : length (text s) = (2 + length s)%nat.
Proof. unfold text. by rewrite length_app, length_be_bytes. Qed.

Section Widths.
  Context {KE : Keccak} {KC : K256} (run_id : bytes).

Lemma credit_width d c :
  valid_snapshot (genesis_policy run_id) d -> c ∈ s_credits d -> length (c_validator c) = 7%nat.
Proof.
  intros V Hc. pose proof (vs_credits _ _ V) as Hcr. rewrite Forall_forall in Hcr.
  destruct (Hcr c Hc) as (_ & _ & u & Hu & <-). cbn [genesis_policy pol_configs] in Hu.
  unfold approved_configs in Hu. repeat (apply elem_of_cons in Hu as [->|Hu]; [done|]).
  by apply not_elem_of_nil in Hu.
Qed.

(** The smallest payload is the genesis snapshot's; the largest one the
    experiment allows stays below the column's bound. *)
Lemma payload_bounds d :
  wf_rows d -> valid_snapshot (genesis_policy run_id) d ->
  (610 <= Z.of_nat (length (encode d)) <= 200000)%Z.
Proof.
  intros W V. pose proof (validate_eligibility_unique _ _ (vs_eligible _ _ V)) as (_ & _ & Hids & Howners).
  destruct (vs_sizes _ _ V) as (Hacc & Hlv & Hlt). destruct (vs_credit_slots _ _ V) as [_ Hcl].
  pose proof (vs_slot _ _ V) as Hslot. pose proof (wr_slot _ W) as Hw. unfold in_width in Hw.
  change MAX_ACCOUNTS with 3203%Z in *. unfold MAX_SLOTS in *.
  pose proof (concat_bounds encode_account 44 44 (s_accounts d)) as Ba.
  pose proof (concat_bounds encode_validator 59 67 (s_validators d)) as Bv.
  pose proof (concat_bounds encode_ticket 21 37 (s_tickets d)) as Bt.
  pose proof (concat_bounds encode_credit 49 49 (s_credits d)) as Bc.
  assert (length (YearZero_encode YearZero_approved) = 120%nat) as Hy by (vm_compute; reflexivity).
  unfold encode, encode_totals. rewrite !length_app, !length_be_bytes, (wr_hash _ W), length_zeros, Hy.
  cbn [map concat]. rewrite !length_app, !length_be_bytes. cbn [length].
  assert (forall id, id = str "trial-A" \/ id = str "trial-B" -> length id = 7%nat) as H7
    by (by intros id [-> | ->]).
  rewrite Hlv in Bv. rewrite Hlt in Bt. enough (_ /\ _ /\ _ /\ _) as (A1 & A2 & A3 & A4) by
    (specialize (Ba A1); specialize (Bv A2); specialize (Bt A3); specialize (Bc A4); lia).
  rewrite !Forall_forall. rewrite Forall_forall in Hids.
  rewrite Forall_forall in Howners. split_and!.
  - intros a Ha. pose proof (wr_accounts _ W) as Hr. rewrite Forall_forall in Hr. destruct (Hr a Ha) as [Hl _].
    unfold encode_account. rewrite !length_app, !length_be_bytes, Hl. lia.
  - intros v Hv. pose proof (H7 _ (Hids v Hv)) as Hl. pose proof (optional_bounds (v_cooldown_until v)).
    unfold encode_validator. rewrite !length_app, !length_be_bytes, length_text, Hl. lia.
  - intros t Ht. destruct (Howners t Ht) as (v & [Hin E]%find_validator_Some & _).
    pose proof (H7 _ (Hids v Hin)) as Hl. rewrite E in Hl.
    pose proof (optional_bounds (t_retire_start t)). pose proof (optional_bounds (t_retire_effective t)).
    unfold encode_ticket. rewrite !length_app, !length_be_bytes, length_text, Hl. lia.
  - intros c Hc. pose proof (credit_width d c V Hc) as Hl.
    unfold encode_credit. rewrite !length_app, !length_be_bytes, length_text, Hl. lia.
Qed.

Lemma state_row_ok st : live_state run_id st -> row_ok TStates (state_row st) = true.
Proof.
  intros Lv. pose proof (payload_bounds _ (lv_rows _ _ Lv) (lv_valid _ _ Lv)) as Hb.
  unfold row_ok, state_row. cbn [columns map snd cells_ok cell nth length].
  rewrite (wr_hash _ (lv_rows _ _ Lv)), (lv_closed _ _ Lv).
  cbn [closed_state cs_bytes cs_data cs_id]. unfold snapshot_id, hash_with_domain, u64_cell.
  rewrite keccak256_length, length_be_bytes.
  by rewrite (proj2 (Z.leb_le 610 _)), (proj2 (Z.leb_le _ 200000)) by lia.
Qed.

Lemma account_row_ok st a :
  live_state run_id st -> a ∈ s_accounts (cs_data st) -> row_ok TAccounts (account_row a) = true.
Proof.
  intros Lv Ha. pose proof (wr_accounts _ (lv_rows _ _ Lv)) as Hr. rewrite Forall_forall in Hr.
  destruct (Hr a Ha) as [Hl _]. unfold row_ok, account_row. cbn [columns map snd cells_ok cell nth length].
  by rewrite Hl.
Qed.

Lemma accounting_row_ok st row : accounting_row st = Ok row -> row_ok TAccounting row = true.
Proof. unfold accounting_row. intros (n & _ & H)%bind_Ok. by injection H as <-. Qed.

Lemma tip_row_ok st : live_state run_id st -> row_ok TCanonicalTip (tip_row (s_position (cs_data st))) = true.
Proof.
  intros Lv. unfold row_ok, tip_row. cbn [columns map snd cells_ok cell nth length].
  by rewrite (wr_hash _ (lv_rows _ _ Lv)).
Qed.

Lemma body_row_ok r : row_ok TBodies (body_row r) = true.
Proof. done. Qed.

Lemma block_row_ok r :
  wf_c1_block (br_block r) -> length (ce_signature (ae_envelope (br_proof r))) = 65%nat ->
  (0 < slot (hc_header (cb_claim (br_block r))))%Z -> row_ok TBlocks (block_row r) = true.
Proof.
  intros W Hs Hpos. pose proof (wb_header _ W) as Hh. pose proof (length_header_bytes _ Hh) as Hl.
  assert (length (ProtocolData_canonical_bytes (cb_protocol (br_block r))) = 10%nat) as Hp.
  { rewrite (protocol_data_none _ (cv_missed _ (wb_valid _ W))). apply length_protocol_data_none. }
  pose proof (length_c1_producer _ (wb_valid _ W)) as H7. unfold wf_header in Hh. destruct_and! Hh.
  unfold row_ok, block_row. cbv zeta. fold (br_block r). cbn [columns map snd cells_ok cell nth length].
  unfold C1Block_hash, HeaderClaim_hash, BlockHeader_hash, C1Envelope_id, hash_with_domain.
  rewrite bytes_leb_false; [|done|rewrite !u64_cell_val by (done || (unfold in_width in *; lia)); lia].
  rewrite !keccak256_length, Hl, Hs, H7, Hp. by match goal with H : length (parent_hash _) = _ |- _ => rewrite H end.
Qed.

Lemma reward_row_ok r c :
  live_state run_id (br_state r) -> last (s_credits (cs_data (br_state r))) = Some c ->
  row_ok TRewards (reward_row r) = true.
Proof.
  intros Lv Hc. unfold row_ok, reward_row. rewrite Hc. cbn [columns map snd cells_ok cell nth length].
  rewrite (credit_width _ c (lv_valid _ _ Lv)); [done|]. by apply last_Some_elem_of.
Qed.

Lemma transaction_rows_ok r :
  Forall (fun tx => length tx = SIGNED_LEN) (cb_transactions (br_block r)) ->
  transaction_ids (br_outcome r) = body_ids (cb_transactions (br_block r)) ->
  Forall (fun row => row_ok TTransactions row = true) (transaction_rows r).
Proof.
  intros Hl Hids. apply Forall_forall. intros row (i & p & -> & Hp)%elem_of_lookup_imap.
  unfold body_pairs in Hp. rewrite Hids in Hp.
  apply lookup_zip_with_Some in Hp as (b & id & -> & Hb & Hid).
  rewrite Forall_forall in Hl. specialize (Hl b (list_elem_of_lookup_2 _ _ _ Hb)).
  unfold body_ids in Hid. apply list_lookup_fmap_Some in Hid as (b' & -> & _).
  unfold row_ok, transaction_row, sender_nonce. cbn [columns map snd cells_ok cell nth length fst].
  change SIGNED_LEN with 199%nat in Hl. rewrite Hl, (length_slice 20 46 b) by lia.
  unfold hash_with_domain. by rewrite keccak256_length.
Qed.
End Widths.

(** ** Keys of the stored rows are unique *)

(** Images are distinct, or two positions share one. *)
Lemma NoDup_or_repeat {A B} `{EqDecision B} (f : A -> B) l :
  NoDup (map f l) \/ exists i j a b, i <> j /\ l !! i = Some a /\ l !! j = Some b /\ f a = f b.
Proof.
  induction l as [|a l [IH|(i & j & x & y & Hne & Hi & Hj & E)]].
  - left. constructor.
  - destruct (decide (f a ∈ map f l)) as [Hin|Hout]; [right|left; by constructor].
    apply list_elem_of_fmap in Hin as (b & E & [i Hi]%list_elem_of_lookup). exists 0%nat, (S i), a, b. done.
  - right. exists (S i), (S j), x, y. split_and!; try done. congruence.
Qed.

(** A finer key is distinct where a coarser one is. *)
Lemma NoDup_refine {A B C} (f : A -> B) (h : B -> C) l : NoDup (map (fun a => h (f a)) l) -> NoDup (map f l).
Proof. rewrite <- (map_map f h). apply NoDup_fmap_1. Qed.

(** Distinct numbers by position. *)
Lemma NoDup_numbered {A B} (f : A -> B) (h : B -> Z) (k : Z) l :
  (forall i a, l !! i = Some a -> h (f a) = (Z.of_nat i + k)%Z) -> NoDup (map f l).
Proof.
  intros H. apply (NoDup_refine f h). apply NoDup_alt. intros i j x Hi Hj.
  apply list_lookup_fmap_Some in Hi as (a & -> & Ha). apply list_lookup_fmap_Some in Hj as (b & E & Hb).
  rewrite (H i a Ha), (H j b Hb) in E. lia.
Qed.

(** What indexing a body says of its entries. *)
Lemma index_rows_entries pos i pairs txs nonces txs' nonces' :
  index_rows pos i pairs txs nonces = Ok (txs', nonces') ->
  NoDup (map snd pairs) /\ NoDup (map (fun p => sender_nonce p.1) pairs) /\
  Forall (fun p => txs !! p.2 = None /\ nonces !! sender_nonce p.1 = None) pairs /\
  (forall id, is_Some (txs' !! id) <-> is_Some (txs !! id) \/ id ∈ map snd pairs) /\
  (forall k, is_Some (nonces' !! k) <-> is_Some (nonces !! k) \/ k ∈ map (fun p => sender_nonce p.1) pairs).
Proof.
  revert i txs nonces. induction pairs as [|[b id] pairs IH]; intros i txs nonces H.
  { injection H as <- <-. split_and!; try constructor; set_solver. }
  cbn [index_rows] in H. apply bind_Ok in H as ([] & Hf & H).
  apply fail_if_Ok, orb_false_iff in Hf as [Hid Hk].
  assert (txs !! id = None) as Hid0 by (by destruct (txs !! id)).
  assert (nonces !! sender_nonce b = None) as Hk0 by (by destruct (nonces !! sender_nonce b)).
  apply IH in H as (N1 & N2 & Hfr & D1 & D2). cbn [map fst snd]. rewrite Forall_forall in Hfr.
  assert (forall p, p ∈ pairs -> p.2 <> id /\ sender_nonce p.1 <> sender_nonce b /\
    txs !! p.2 = None /\ nonces !! sender_nonce p.1 = None) as Hnew.
  { intros p Hp. destruct (Hfr p Hp) as [H1 H2].
    destruct (decide (p.2 = id)) as [E|Hn1]; [by rewrite E, lookup_insert_eq in H1|].
    destruct (decide (sender_nonce p.1 = sender_nonce b)) as [E|Hn2]; [by rewrite E, lookup_insert_eq in H2|].
    by rewrite !lookup_insert_ne in * by done. }
  split_and!.
  - constructor; [|done]. intros (p & E & Hp)%list_elem_of_fmap. by destruct (Hnew p Hp).
  - constructor; [|done]. intros (p & E & Hp)%list_elem_of_fmap. by destruct (Hnew p Hp) as (_ & ? & _).
  - constructor; [done|]. apply Forall_forall. intros p Hp. by destruct (Hnew p Hp) as (_ & _ & ?).
  - intros k. rewrite D1, lookup_insert_is_Some', elem_of_cons. naive_solver.
  - intros k. rewrite D2, lookup_insert_is_Some', elem_of_cons. naive_solver.
Qed.

Section Unique.
  Context {KE : Keccak} {KC : K256} (run_id : bytes) (Hdist : distinct_producers).

Let g := genesis_of run_id.

(** The two digests the unique columns hold, of two stored messages. *)
Definition envelope_collision (a b : C1Envelope) : Prop :=
  collides (ENVELOPE_ID_DOMAIN ++ C1Envelope_wire_bytes a) (ENVELOPE_ID_DOMAIN ++ C1Envelope_wire_bytes b).

Definition snapshot_headers (s : Snapshot) : list HistoricalHeader :=
  anchor_header :: map header_of (sn_records s).
Definition snapshot_envelopes (s : Snapshot) : list C1Envelope :=
  map (fun r => ae_envelope (br_proof r)) (sn_records s).

Definition digest_clash (s : Snapshot) : Prop :=
  (exists a b, a ∈ snapshot_headers s /\ b ∈ snapshot_headers s /\ header_collision a b) \/
  (exists a b, a ∈ snapshot_envelopes s /\ b ∈ snapshot_envelopes s /\ envelope_collision a b).

Lemma audited_live s : audited g s -> live_state run_id (sn_state s).
Proof.
  intros H. destruct (audited_has_prefix run_id Hdist s H) as [px A].
  rewrite <- (au_state _ _ _ A). apply (lp_live _ _ (au_live _ _ _ A)).
Qed.

(** Header [i] of an audited snapshot is checked and of slot [i]. *)
Lemma snapshot_header s i h :
  audited g s -> snapshot_headers s !! i = Some h -> checked_header h /\ slot (hh_header h) = Z.of_nat i.
Proof.
  intros H Hi. destruct (audited_has_prefix run_id Hdist s H) as [px A].
  pose proof (lp_headers _ _ (au_live _ _ _ A)) as Hc. rewrite (au_headers _ _ _ A) in Hc.
  split; [by apply (Forall_lookup_1 _ _ _ _ Hc Hi)|]. destruct i as [|i]; [by injection Hi as <-|].
  cbn in Hi. apply list_lookup_fmap_Some in Hi as (r & -> & Hr).
  destruct (audited_record run_id Hdist s i r H Hr) as (_ & _ & _ & _ & Hs). cbn. rewrite Hs. lia.
Qed.

Lemma header_hashes s : audited g s -> NoDup (map hh_hash (snapshot_headers s)) \/ digest_clash s.
Proof.
  intros H. destruct (NoDup_or_repeat hh_hash (snapshot_headers s)) as [?|(i & j & a & b & Hne & Hi & Hj & E)];
    [by left|right; left].
  destruct (snapshot_header s i a H Hi) as [Ca Sa]. destruct (snapshot_header s j b H Hj) as [Cb Sb].
  exists a, b. split_and!; [by eapply list_elem_of_lookup_2..|].
  destruct (same_hash_header a b Ca Cb E) as [->|?]; [lia|done].
Qed.

Lemma snapshot_envelope s i r :
  audited g s -> sn_records s !! i = Some r -> wf_c1_envelope (ae_envelope (br_proof r)).
Proof.
  intros H Hi. destruct (audited_record run_id Hdist s i r H Hi) as (prior & _ & _ & Ha & _).
  destruct Ha as [view proof p native applied st _ W Hs Hauth _ _ _]. cbn [br_proof].
  constructor; [done| |done]. unfold C1Envelope_authenticate in Hauth.
  apply bind_Ok in Hauth as (hd & Hhd & _). apply map_err_Ok, claim_authenticate_iff in Hhd.
  rewrite (at_network _ _ _ _ _ Hhd). apply keccak256_length.
Qed.

Lemma envelope_ids s : audited g s -> NoDup (map C1Envelope_id (snapshot_envelopes s)) \/ digest_clash s.
Proof.
  intros H. destruct (NoDup_or_repeat C1Envelope_id (snapshot_envelopes s)) as [?|(i & j & a & b & Hne & Hi & Hj & E)];
    [by left|right; right].
  exists a, b. split_and!; [by eapply list_elem_of_lookup_2..|].
  destruct (hash_with_domain_inj _ _ _ E) as [Hw|?]; [|done].
  apply list_lookup_fmap_Some in Hi as (r & -> & Hr). apply list_lookup_fmap_Some in Hj as (r' & -> & Hr').
  assert (ae_envelope (br_proof r) = ae_envelope (br_proof r')) as Ee.
  { pose proof (proj2 (c1_envelope_codec_iff _ _) (conj (snapshot_envelope s i r H Hr) Hw)) as E1.
    pose proof (proj2 (c1_envelope_codec_iff _ _) (conj (snapshot_envelope s j r' H Hr') eq_refl)) as E2.
    rewrite E1 in E2. by injection E2. }
  destruct (audited_record run_id Hdist s i r H Hr) as (_ & _ & _ & _ & S1).
  destruct (audited_record run_id Hdist s j r' H Hr') as (_ & _ & _ & _ & S2).
  unfold br_block in S1, S2. rewrite Ee, S2 in S1. lia.
Qed.
End Unique.

Section Tables.
  Context {KE : Keccak} {KC : K256} (run_id : bytes) (Hdist : distinct_producers).

Let g := genesis_of run_id.

(** Rows by record: the slot column numbers them. *)
Lemma slot_keys s (f : BlockRecord -> Row) :
  audited g s ->
  (forall i r, sn_records s !! i = Some r -> cell 0 (f r) = u64_cell (Z.of_nat i + 1)) ->
  NoDup (map (project [0%nat]) (map f (sn_records s))).
Proof.
  intros H Hk. pose proof (audited_length run_id Hdist s H) as Hl.
  rewrite map_map. apply (NoDup_numbered _ (fun l => be_val (hd [] l)) 1).
  intros i r Hi. cbn. rewrite (Hk i r Hi). apply u64_cell_val. apply lookup_lt_Some in Hi.
  unfold in_width. lia.
Qed.

Lemma sender_nonce_width b : in_width U64 (sender_nonce b).2.
Proof.
  unfold sender_nonce, in_width. cbn [snd]. pose proof (be_val_range (slice 8 66 b)) as Hr.
  assert (length (slice 8 66 b) <= 8)%nat as Hl by (unfold slice; rewrite length_take; lia).
  assert (256 ^ Z.of_nat (length (slice 8 66 b)) <= U64)%Z; [|lia].
  change U64 with (256 ^ 8)%Z. apply Z.pow_le_mono_r; lia.
Qed.

(** The two indexed keys of a transaction row. *)
Definition sender_key (row : Row) : bytes * Z := (cell 3 row, be_val (cell 4 row)).

Lemma transaction_row_keys n i p :
  cell 0 (transaction_row n i p) = p.2 /\ sender_key (transaction_row n i p) = sender_nonce p.1.
Proof.
  unfold sender_key, transaction_row. cbn [cell nth]. rewrite u64_cell_val by apply sender_nonce_width.
  split; [done|]. by destruct (sender_nonce p.1).
Qed.

(** Every stored transaction row is indexed, and their keys are distinct. *)
Record rows_indexed (s : Snapshot) : Prop := {
  ri_ids : Forall (fun row => is_Some (sn_transactions s !! cell 0 row)) (stored_transactions s);
  ri_senders : Forall (fun row => is_Some (sn_sender_nonces s !! sender_key row)) (stored_transactions s);
  ri_slots : Forall (fun row => (be_val (cell 1 row) <= pos_slot (tip s))%Z) (stored_transactions s);
  ri_unique_id : NoDup (map (cell 0) (stored_transactions s));
  ri_unique_sender : NoDup (map sender_key (stored_transactions s));
  ri_unique_position : NoDup (map (fun row => (be_val (cell 1 row), be_val (cell 2 row))) (stored_transactions s))
}.

Lemma imap_keys {A B} (f : nat -> A -> Row) (key : Row -> B) (h : A -> B) l :
  (forall i a, key (f i a) = h a) -> map key (imap f l) = map h l.
Proof.
  intros H. change (map key) with (fmap (M := list) key). rewrite fmap_imap. by apply imap_map.
Qed.

(** Keys of the rows of one body. *)
Lemma transaction_rows_keys r :
  in_width U64 (pos_slot (br_position r)) -> (Z.of_nat (length (cb_transactions (br_block r))) <= MAX_ENTRIES)%Z ->
  let pairs := body_pairs (br_block r) (br_outcome r) in
  map (cell 0) (transaction_rows r) = map snd pairs /\
  map sender_key (transaction_rows r) = map (fun p => sender_nonce p.1) pairs /\
  Forall (fun row => be_val (cell 1 row) = pos_slot (br_position r)) (transaction_rows r) /\
  NoDup (map (fun row => (be_val (cell 1 row), be_val (cell 2 row))) (transaction_rows r)).
Proof.
  intros Hw Hl. cbv zeta. unfold transaction_rows. split_and!.
  - apply imap_keys. intros. apply transaction_row_keys.
  - apply imap_keys. intros. apply transaction_row_keys.
  - apply Forall_forall. intros row (i & p & -> & _)%elem_of_lookup_imap. by apply u64_cell_val.
  - apply (NoDup_numbered _ snd 0). intros i row Hrow.
    apply list_lookup_imap_Some in Hrow as (p & Hp & ->). cbn [transaction_row cell nth snd].
    apply lookup_lt_Some in Hp. unfold body_pairs in Hp. rewrite length_zip in Hp. unfold MAX_ENTRIES in Hl.
    rewrite Z.add_0_r. apply u64_cell_val. unfold in_width. lia.
Qed.

(** Distinct keys stay distinct when indexed ones meet fresh ones. *)
Lemma NoDup_fresh {A} `{Countable K} {V} (m : gmap K V) (f : A -> K) (a b : list A) :
  NoDup (map f a) -> NoDup (map f b) -> Forall (fun x => is_Some (m !! f x)) a ->
  Forall (fun k => m !! k = None) (map f b) -> NoDup (map f (a ++ b)).
Proof.
  intros Ha Hb Hin Hout. rewrite map_app. apply NoDup_app. split_and!; [done| |done].
  intros k (x & -> & Hx)%list_elem_of_fmap Hk. rewrite Forall_forall in Hin. rewrite Forall_forall in Hout.
  destruct (Hin x Hx) as [v Hv]. by rewrite (Hout _ Hk) in Hv.
Qed.

Lemma append_rows_indexed s r s' :
  audited g s -> appends g s r -> Snapshot_insert s r = Ok s' -> rows_indexed s -> rows_indexed s'.
Proof.
  intros H Ha Hi [R1 R2 R3 U1 U2 U3]. assert (audited g s') as H' by (by eapply audited_append).
  pose proof (insert_shape _ _ _ Hi) as (Est & Er & Hix).
  destruct (index_rows_entries _ _ _ _ _ _ _ Hix) as (N1 & N2 & Hfr & D1 & D2).
  destruct (audited_slots run_id s H) as [Ht _]. destruct (audited_slots run_id s' H') as [Ht' _].
  pose proof (audited_length run_id Hdist s' H') as Hl. rewrite Er, length_app in Ht', Hl. simpl in Ht', Hl.
  assert (pos_slot (br_position r) = pos_slot (tip s'))%Z as Hr by (unfold tip; by rewrite Est).
  destruct (transaction_rows_keys r) as (K1 & K2 & K3 & K4);
    [rewrite Hr; unfold in_width; lia|apply (cv_bound _ (appends_valid _ _ _ Ha))|].
  rewrite <- K1 in N1, D1. rewrite <- K2 in N2, D2. rewrite Forall_forall in Hfr.
  assert (stored_transactions s' = stored_transactions s ++ transaction_rows r) as Etx.
  { unfold stored_transactions. rewrite Er, map_app, concat_app. cbn [map concat]. by rewrite app_nil_r. }
  constructor; rewrite Etx.
  - apply Forall_app. split; [eapply Forall_impl; [exact R1|]; intros row ?; apply D1; by left|].
    apply Forall_forall. intros row Hrow. apply D1. right. by apply list_elem_of_fmap_2.
  - apply Forall_app. split; [eapply Forall_impl; [exact R2|]; intros row ?; apply D2; by left|].
    apply Forall_forall. intros row Hrow. apply D2. right. by apply list_elem_of_fmap_2.
  - apply Forall_app. split; (eapply Forall_impl; [eassumption|]; intros row ?; cbv beta in *; lia).
  - apply (NoDup_fresh (sn_transactions s)); [done..|]. rewrite K1. apply Forall_forall.
    intros k (p & -> & Hp)%list_elem_of_fmap. by apply Hfr.
  - apply (NoDup_fresh (sn_sender_nonces s)); [done..|]. rewrite K2. apply Forall_forall.
    intros k (p & -> & Hp)%list_elem_of_fmap. by apply Hfr.
  - rewrite map_app. apply NoDup_app. split_and!; [done| |done].
    intros k (row & -> & Hrow)%list_elem_of_fmap (row' & E & Hrow')%list_elem_of_fmap.
    rewrite Forall_forall in R3. rewrite Forall_forall in K3. specialize (R3 row Hrow). cbv beta in R3.
    injection E as E _. rewrite (K3 row' Hrow') in E. lia.
Qed.

Lemma audited_rows_indexed s : audited g s -> rows_indexed s.
Proof.
  induction 1 as [|s r s' H IH Ha Hi]; [by repeat constructor|]. by eapply append_rows_indexed.
Qed.
End Tables.

(** ** A stored snapshot satisfies the schema *)

Section Enforced.
  Context {KE : Keccak} {KC : K256} (run_id : bytes) (Hdist : distinct_producers) (Hrun : label_ok run_id).

Let g := genesis_of run_id.

Record record_rows_ok (r : BlockRecord) : Prop := {
  rr_block : row_ok TBlocks (block_row r) = true;
  rr_reward : row_ok TRewards (reward_row r) = true;
  rr_state : row_ok TStates (state_row (br_state r)) = true;
  rr_transactions : Forall (fun row => row_ok TTransactions row = true) (transaction_rows r)
}.

Lemma audited_record_rows s : audited g s -> Forall record_rows_ok (sn_records s).
Proof.
  intros H. induction H as [|s r s' H IH Ha Hi]; [constructor|].
  assert (audited g s') as H' by (by eapply audited_append).
  pose proof (insert_shape _ _ _ Hi) as (Est & Er & _). pose proof (audited_live run_id Hdist s' H') as Lv.
  rewrite Est in Lv. destruct (audited_has_prefix run_id Hdist s H) as [px A].
  destruct (appends_facts _ _ _ _ A Ha) as (view & native & sel & _ & W & _ & _ & E & Hids & _).
  assert (sn_records s' !! length (sn_records s) = Some r) as Hr by (by rewrite Er, lookup_app_r, Nat.sub_diag).
  destruct (audited_record run_id Hdist s' _ r H' Hr) as (_ & _ & _ & _ & Hs).
  pose proof (we_signature _ (snapshot_envelope run_id Hdist s' _ r H' Hr)) as Hsig.
  rewrite Er. apply Forall_app. split; [done|]. constructor; [|constructor]. constructor.
  - apply block_row_ok; [done..|lia].
  - eapply (reward_row_ok run_id); [done|]. rewrite E. cbn [cs_data closed_state next_data s_credits].
    apply last_snoc.
  - by apply (state_row_ok run_id).
  - apply transaction_rows_ok; [apply W|done].
Qed.

Lemma initial_live : live_state run_id (g_initial g).
Proof. apply (audited_live run_id Hdist (Snapshot_initial g)). constructor. Qed.

Lemma expected_rows_ok s acc t :
  audited g s -> accounting_row (sn_state s) = Ok acc ->
  Forall (fun row => row_ok t row = true) (expected g s acc t).
Proof.
  intros H Hacc. pose proof (audited_live run_id Hdist s H) as Lv. pose proof (audited_record_rows s H) as Hrec.
  assert (forall (f : BlockRecord -> Row) t', (forall r, record_rows_ok r -> row_ok t' (f r) = true) ->
    Forall (fun row => row_ok t' row = true) (map f (sn_records s))) as Hmap.
  { intros f t' Hf. apply Forall_fmap. eapply Forall_impl; [exact Hrec|]. done. }
  destruct t; cbn [expected].
  - apply Forall_fmap, Forall_forall. intros a Ha. by apply (account_row_ok run_id (sn_state s)).
  - constructor; [by eapply accounting_row_ok|constructor].
  - constructor; [|constructor]. vm_compute. reflexivity.
  - apply Hmap. by intros r [].
  - apply Hmap. intros r _. apply body_row_ok.
  - constructor; [apply (state_row_ok run_id), initial_live|]. apply Hmap. by intros r [].
  - apply Hmap. by intros r [].
  - constructor; [by apply (tip_row_ok run_id)|constructor].
  - unfold stored_transactions. apply Forall_concat, Forall_fmap. eapply Forall_impl; [exact Hrec|]. by intros r [].
Qed.

Lemma singleton_keys t rs : unique_keys t = [[]] -> (length rs <= 1)%nat -> keys_unique t rs.
Proof.
  intros E Hl. unfold keys_unique. rewrite E. constructor; [|constructor].
  destruct rs as [|a [|]]; [constructor|apply NoDup_singleton|simpl in Hl; lia].
Qed.

Lemma state_keys s :
  audited g s -> NoDup (map hh_hash (snapshot_headers s)) ->
  keys_unique TStates (state_row (g_initial g) :: map (fun r => state_row (br_state r)) (sn_records s)).
Proof.
  intros H Hn. destruct (audited_slots run_id s H) as [_ Hpos].
  pose proof (audited_length run_id Hdist s H) as Hl.
  set (l := state_row (g_initial g) :: _).
  assert (forall i row, l !! i = Some row -> cell 0 row = u64_cell (Z.of_nat i)) as Hslot.
  { intros [|i] row; [by intros [= <-]|]. cbn. intros (r & -> & Hr)%list_lookup_fmap_Some.
    cbn. fold (br_position r). rewrite (Hpos i r Hr). f_equal. cbn [pos_slot]. lia. }
  assert (NoDup (map (project [0%nat]) l)) as N0.
  { apply (NoDup_numbered _ (fun x => be_val (hd [] x)) 0). intros i row Hi. cbn. rewrite (Hslot i row Hi).
    apply lookup_lt_Some in Hi. cbn in Hi. rewrite length_map in Hi. rewrite Z.add_0_r.
    apply u64_cell_val. unfold in_width. lia. }
  constructor; [done|]. constructor; [|constructor; [|constructor]].
  - apply (NoDup_refine _ (hd [])). replace (map _ l) with (map hh_hash (snapshot_headers s)); [done|].
    unfold l, snapshot_headers. cbn [map]. f_equal. rewrite !map_map. apply map_ext_Forall.
    apply List.Forall_forall. intros r [i Hi]%list_elem_of_In%list_elem_of_lookup. cbn.
    fold (br_position r). by rewrite (Hpos i r Hi).
  - apply (NoDup_refine _ (take 1)). done.
Qed.

(** Every key of every table is unique, or two digests collide. *)
Lemma expected_unique s acc :
  audited g s -> digest_clash s \/ forall t, keys_unique t (expected g s acc t).
Proof.
  intros H. destruct (header_hashes run_id Hdist s H) as [Hh|?]; [|by left].
  destruct (envelope_ids run_id Hdist s H) as [He|?]; [right|by left].
  pose proof (fun i r Hi => audited_row_keys run_id Hdist s i r H Hi) as Hk. cbv zeta in Hk.
  intros []; cbn [expected].
  - constructor; [|constructor]. apply (NoDup_refine _ (hd [])).
    destruct (state_accounts_keyed run_id Hdist s H) as [_ Hn]. done.
  - by apply singleton_keys.
  - by apply singleton_keys.
  - constructor; [|constructor; [|constructor; [|constructor]]].
    + apply (slot_keys run_id Hdist s block_row); [done|]. intros i r Hi. by destruct (Hk i r Hi).
    + apply (NoDup_refine _ (hd [])). unfold stored_blocks. rewrite map_map.
      unfold snapshot_headers in Hh. cbn [map] in Hh. apply NoDup_cons in Hh as [_ Hh]. by rewrite map_map in Hh.
    + apply (NoDup_refine _ (hd [])). unfold stored_blocks. rewrite map_map.
      unfold snapshot_envelopes in He. by rewrite map_map in He.
  - constructor; [|constructor]. apply (slot_keys run_id Hdist s body_row); [done|].
    intros i r Hi. by destruct (Hk i r Hi) as (_ & ? & _).
  - by apply state_keys.
  - constructor; [|constructor]. apply (slot_keys run_id Hdist s reward_row); [done|].
    intros i r Hi. by destruct (Hk i r Hi) as (_ & _ & _ & ?).
  - by apply singleton_keys.
  - destruct (audited_rows_indexed run_id Hdist s H) as [_ _ _ U1 U2 U3].
    constructor; [|constructor; [|constructor; [|constructor]]].
    + by apply (NoDup_refine _ (hd [])).
    + by apply (NoDup_refine _ (fun l => (be_val (hd [] l), be_val (hd [] (tl l))))).
    + by apply (NoDup_refine _ (fun l => (hd [] l, be_val (hd [] (tl l))))).
Qed.

(** The state is the last record's, or the initial one. *)
Lemma audited_state s :
  audited g s -> sn_state s = default (g_initial g) (br_state <$> last (sn_records s)).
Proof.
  intros [|s0 r s' _ _ Hi]; [done|]. apply insert_shape in Hi as (-> & -> & _). by rewrite last_snoc.
Qed.

Lemma refers_intro c row fk p :
  p ∈ ct_rows c (fk_parent fk) -> project (fk_parent_columns fk) p = project (fk_columns fk) row ->
  refers c row fk = true.
Proof.
  intros Hp E. apply existsb_exists. exists p. split; [by apply list_elem_of_In|].
  by apply bool_decide_eq_true.
Qed.

(** Every reference of every row is to a stored row. *)
Lemma expected_refers s acc p t row fk :
  audited g s -> (forall t, ct_rows p t = expected g s acc t) -> row ∈ expected g s acc t ->
  fk ∈ foreign_keys t -> refers p row fk = true.
Proof.
  intros H Hp Hrow Hfk. destruct (audited_slots run_id s H) as [Htip Hpos].
  pose proof (fun i r Hi => audited_row_keys run_id Hdist s i r H Hi) as Hk. cbv zeta in Hk.
  assert (forall i r, sn_records s !! i = Some r ->
    block_row r ∈ ct_rows p TBlocks /\ body_row r ∈ ct_rows p TBodies /\
    state_row (br_state r) ∈ ct_rows p TStates) as Hin.
  { intros i r Hi%list_elem_of_lookup_2. rewrite !Hp. cbn [expected]. split_and!.
    - by apply (list_elem_of_fmap_2 block_row).
    - by apply (list_elem_of_fmap_2 body_row).
    - right. by apply (list_elem_of_fmap_2 (fun r => state_row (br_state r))). }
  destruct t; cbn [expected foreign_keys] in *; try (by apply not_elem_of_nil in Hfk).
  - apply list_elem_of_fmap in Hrow as (r & -> & [i Hi]%list_elem_of_lookup).
    destruct (Hin i r Hi) as (_ & Hb & Hs). destruct (Hk i r Hi) as (K1 & K2 & K3 & _). cbn in K1, K2, K3.
    apply elem_of_cons in Hfk as [->|[->|Hfk]%elem_of_cons]; [..|by apply not_elem_of_nil in Hfk].
    + apply (refers_intro _ _ _ (body_row r)); [done|]. cbn. by rewrite K1, K2.
    + apply (refers_intro _ _ _ (state_row (br_state r))); [done|]. cbn. rewrite K1, K3.
      fold (br_position r). by rewrite (Hpos i r Hi).
  - apply list_elem_of_fmap in Hrow as (r & -> & [i Hi]%list_elem_of_lookup).
    destruct (Hin i r Hi) as (Hb & _). destruct (Hk i r Hi) as (K1 & K2 & _). cbn in K1, K2.
    apply list_elem_of_singleton in Hfk as ->. apply (refers_intro _ _ _ (block_row r)); [done|].
    cbn. by rewrite K1, K2.
  - apply list_elem_of_fmap in Hrow as (r & -> & [i Hi]%list_elem_of_lookup).
    destruct (Hin i r Hi) as (Hb & _). destruct (Hk i r Hi) as (K1 & _ & _ & K4). cbn in K1, K4.
    apply list_elem_of_singleton in Hfk as ->. apply (refers_intro _ _ _ (block_row r)); [done|].
    cbn. by rewrite K1, K4.
  - apply list_elem_of_singleton in Hrow as ->. apply list_elem_of_singleton in Hfk as ->.
    pose proof (audited_state s H) as Es. unfold tip. rewrite Es.
    destruct (last (sn_records s)) as [r|] eqn:El; cbn [fmap option_fmap option_map default].
    + rewrite last_lookup in El. destruct (Hin _ r El) as (_ & _ & Hs).
      by apply (refers_intro _ _ _ (state_row (br_state r))).
    + apply (refers_intro _ _ _ (state_row (g_initial g))); [rewrite Hp; left|done].
  - unfold stored_transactions in Hrow.
    apply list_elem_of_In, in_concat in Hrow as (rows & Hrows & Hrow%list_elem_of_In).
    apply in_map_iff in Hrows as (r & <- & Hr). apply list_elem_of_In, list_elem_of_lookup in Hr as [i Hi].
    destruct (Hin i r Hi) as (_ & Hb & _). apply list_elem_of_singleton in Hfk as ->.
    apply (refers_intro _ _ _ (body_row r)); [done|]. cbn. by rewrite (cell_slot _ _ Hrow).
Qed.

(** The supply of an audited state never overflows. *)
Lemma accounting_total s : audited g s -> exists row, accounting_row (sn_state s) = Ok row.
Proof.
  intros H. pose proof (lv_valid _ _ (audited_live run_id Hdist s H)) as V.
  pose proof (vs_slot _ _ V) as Hs. destruct (vs_gas _ _ V) as (Hg & _ & Hf & _).
  destruct (vs_produced _ _ V) as [_ Hb]. unfold MAX_SLOTS in Hs. unfold accounting_row. cbv zeta.
  unfold checked_add, checked_sub, INITIAL_SUPPLY. rewrite Hb, Hf.
  rewrite (proj2 (Z.ltb_lt _ _)) by lia. cbn [mbind option_bind].
  rewrite (proj2 (Z.leb_le _ _)).
  - rewrite ok_or_of_Some, bind_of_Ok. by eexists.
  - pose proof (wr_slot _ (lv_rows _ _ (audited_live run_id Hdist s H))) as Hw. unfold in_width in Hw. lia.
Qed.

Lemma policy_checked s m : policy_row g s m -> metadata_check m = true.
Proof.
  unfold metadata_check. intros [-> -> -> -> -> ->].
  pose proof (proj1 (length_genesis run_id (proj1 (proj2 Hrun)))) as Hl. unfold MAX_GENESIS_BYTES in Hl.
  cbn [g genesis_of g_bytes].
  assert (1 <= Z.of_nat (length (genesis_bytes run_id approved_configs approved_data)))%Z as H1.
  { unfold genesis_bytes. cbv zeta. rewrite length_app. change (length GENESIS_DESCRIPTOR) with 25%nat. lia. }
  rewrite (proj2 (Z.leb_le 1 _)), (proj2 (Z.leb_le _ 16384)) by lia. done.
Qed.

Lemma stored_enforced s p : audited g s -> stored g s p -> digest_clash s \/ enforced p.
Proof.
  intros H [(m & Em & Hm) (acc & Hacc & Hp)]. destruct (expected_unique s acc H) as [?|Hu]; [by left|right].
  constructor; [constructor|].
  - rewrite Em. constructor; [by eapply policy_checked|constructor].
  - by rewrite Em.
  - intros t. rewrite Hp. by apply expected_rows_ok.
  - intros t. rewrite Hp. apply Hu.
  - intros t. apply Forall_forall. intros row Hrow. unfold immediate_ok. apply forallb_forall.
    intros fk Hfk%list_elem_of_In. apply orb_true_iff. right. rewrite Hp in Hrow. by eapply expected_refers.
  - unfold deferred_ok. apply forallb_forall. intros t _. apply forallb_forall. intros row Hrow%list_elem_of_In.
    apply forallb_forall. intros fk Hfk%list_elem_of_In. rewrite Hp in Hrow. by eapply expected_refers.
Qed.
End Enforced.

(** ** The schema accepts the statements of the code *)

Lemma keys_unique_app_l t a b : keys_unique t (a ++ b) -> keys_unique t a.
Proof.
  unfold keys_unique. intros H. eapply Forall_impl; [exact H|]. intros ks Hn. cbv beta in *.
  rewrite map_app in Hn. by apply NoDup_app in Hn as [? _].
Qed.

Lemma refers_grow c c' row fk :
  (forall x, x ∈ ct_rows c (fk_parent fk) -> x ∈ ct_rows c' (fk_parent fk)) ->
  refers c row fk = true -> refers c' row fk = true.
Proof.
  intros H (p & Hp%list_elem_of_In & E%bool_decide_eq_true)%existsb_exists.
  by apply (refers_intro c' row fk p); [apply H|].
Qed.

Lemma immediate_insert t row t' row' c :
  immediate_ok t row c = true -> immediate_ok t row (apply_write (Insert t' row') c).1 = true.
Proof.
  unfold immediate_ok. rewrite !forallb_forall. intros H fk Hfk. specialize (H fk Hfk).
  apply orb_true_iff in H as [->|H]; [done|]. apply orb_true_iff. right. revert H. apply refers_grow.
  intros x Hx. cbn. case_decide as E; [|done]. rewrite insert_row_perm, <- E. by right.
Qed.

Lemma admissible_insert t row c :
  row_ok t row = true -> keys_unique t (ct_rows c t ++ [row]) -> immediate_ok t row c = true ->
  admissible (Insert t row) c = true.
Proof.
  intros Hr Hu Hi. apply (keys_unique_perm _ _ (row :: ct_rows c t)) in Hu;
    [|by rewrite Permutation_app_comm]. apply keys_unique_cons in Hu as [Hc _].
  cbn [admissible]. rewrite Hr, Hc, no_replace_implied by done. by apply immediate_insert.
Qed.

Lemma admitted_inserts t rs c :
  Forall (fun row => row_ok t row = true) rs -> keys_unique t (ct_rows c t ++ rs) ->
  Forall (fun row => immediate_ok t row c = true) rs -> admitted (map (Insert t) rs) c = true.
Proof.
  revert c. induction rs as [|row rs IH]; intros c Hr Hu Hi; [done|]. cbn [map admitted].
  apply Forall_cons in Hr as [Hr Hrs]. apply Forall_cons in Hi as [Hi His].
  rewrite cons_middle, app_assoc in Hu. apply andb_true_iff. split.
  - apply admissible_insert; [done| |done]. by eapply keys_unique_app_l.
  - apply IH; [done| |].
    + cbn. rewrite decide_True by done. revert Hu. apply keys_unique_perm.
      by rewrite insert_row_perm, (Permutation_app_comm (ct_rows c t)).
    + eapply Forall_impl; [exact His|]. intros x. apply immediate_insert.
Qed.

Lemma admitted_upserts rs c :
  Forall (fun row => row_ok TAccounts row = true) rs -> admitted (map (Upsert TAccounts) rs) c = true.
Proof.
  intros H. revert c. induction H as [|row rs Hr _ IH]; intros c; [done|].
  cbn [map admitted admissible]. by rewrite Hr, IH.
Qed.

Section Appending.
  Context {KE : Keccak} {KC : K256} (run_id : bytes) (Hdist : distinct_producers) (Hrun : label_ok run_id).

Let g := genesis_of run_id.

Lemma block_statements base next r accounting c :
  sn_records next = sn_records base ++ [r] -> record_rows_ok r -> row_ok TAccounting accounting = true ->
  (forall t, keys_unique t (expected g next accounting t)) ->
  ct_rows c TBlocks = stored_blocks base -> ct_rows c TBodies = map body_row (sn_records base) ->
  admitted [Upsert TAccounting accounting; Insert TBlocks (block_row r); Insert TBodies (body_row r)] c = true.
Proof.
  intros Er [Rb _ _ _] Ra Hu Hb Hd. cbn [admitted]. rewrite andb_true_r, !andb_true_iff. split_and!; [done|..].
  - apply admissible_insert; [done| |done]. cbn. rewrite Hb. specialize (Hu TBlocks). cbn [expected] in Hu.
    unfold stored_blocks in *. by rewrite Er, map_app in Hu.
  - apply admissible_insert; [apply body_row_ok| |done]. cbn. rewrite Hd. specialize (Hu TBodies).
    cbn [expected] in Hu. by rewrite Er, map_app in Hu.
Qed.

Lemma body_statements base next r accounting c :
  sn_records next = sn_records base ++ [r] -> record_rows_ok r ->
  keys_unique TTransactions (expected g next accounting TTransactions) ->
  ct_rows c TTransactions = stored_transactions base -> body_row r ∈ ct_rows c TBodies ->
  admitted (map (Insert TTransactions) (transaction_rows r)) c = true.
Proof.
  intros Er [_ _ _ Rt] Hu Ht Hb. apply admitted_inserts; [done| |].
  - rewrite Ht. cbn [expected] in Hu. unfold stored_transactions in *. rewrite Er, map_app, concat_app in Hu.
    cbn [map concat] in Hu. by rewrite app_nil_r in Hu.
  - apply Forall_forall. intros row Hrow. unfold immediate_ok. cbn [foreign_keys forallb fk_deferred orb].
    rewrite andb_true_r. apply (refers_intro _ _ _ (body_row r)); [done|]. cbn. by rewrite (cell_slot _ _ Hrow).
Qed.

Lemma tail_statements base next r accounting c m :
  audited g next -> sn_records next = sn_records base ++ [r] -> sn_state next = br_state r -> record_rows_ok r ->
  (forall t, keys_unique t (expected g next accounting t)) ->
  ct_metadata c = [m] -> policy_row g base m ->
  ct_rows c TRewards = map reward_row (sn_records base) ->
  ct_rows c TStates = state_row (g_initial g) :: map (fun r => state_row (br_state r)) (sn_records base) ->
  block_row r ∈ ct_rows c TBlocks ->
  admitted [Insert TRewards (reward_row r); Insert TStates (state_row (sn_state next));
    UpdateRevision (u64_cell (pos_slot (tip next))) (u64_cell (pos_slot (tip base)));
    UpdateTip (tip_row (tip next)) (tip_row (tip base))] c = true.
Proof.
  intros Hn Er Est [_ Rw Rs _] Hu Em Hm Hw Hs Hb. cbn [admitted].
  rewrite andb_true_r, !andb_true_iff. split_and!.
  - apply admissible_insert; [done| |].
    + rewrite Hw. specialize (Hu TRewards). cbn [expected] in Hu. by rewrite Er, map_app in Hu.
    + unfold immediate_ok. cbn [foreign_keys forallb fk_deferred orb]. rewrite andb_true_r.
      apply (refers_intro _ _ _ (block_row r)); [done|].
      assert (sn_records next !! length (sn_records base) = Some r) as Hr
        by (by rewrite Er, lookup_app_r, Nat.sub_diag).
      destruct (audited_row_keys run_id Hdist next _ r Hn Hr) as (K1 & _ & _ & K4). cbn in K1, K4 |- *.
      by rewrite K1, K4.
  - rewrite Est. apply admissible_insert; [done| |done]. cbn. rewrite Hs. specialize (Hu TStates).
    cbn [expected] in Hu. by rewrite Er, map_app in Hu.
  - cbn - [metadata_update]. rewrite Em. cbn - [metadata_update].
    rewrite bool_decide_eq_true_2 by apply Hm. rewrite andb_true_r. unfold metadata_update.
    apply andb_true_iff. split.
    + unfold metadata_policy. destruct m. cbn. rewrite !neq_dec_false by (done || apply Hm).
      by rewrite andb_false_r.
    + apply (policy_checked run_id Hrun next). destruct Hm. by constructor.
  - cbn [admissible]. apply forallb_forall. intros row _. case_bool_decide; [|done].
    apply andb_true_iff. split.
    + apply (tip_row_ok run_id). by apply audited_live.
    + unfold immediate_ok. cbn [foreign_keys forallb fk_deferred orb]. rewrite andb_true_r.
      apply (refers_intro _ _ _ (state_row (sn_state next))); [|done].
      change (state_row (sn_state next) ∈ insert_row TStates (state_row (sn_state next)) (ct_rows c TStates)).
      rewrite insert_row_perm. left.
Qed.

(** The statements of an append pass, and so does their COMMIT. *)
Lemma append_admitted base r next p accounting :
  audited g base -> appends g base r -> Snapshot_insert base r = Ok next -> stored g base p ->
  accounting_row (sn_state next) = Ok accounting ->
  digest_clash next \/
  admitted (append_list base next r accounting) p = true /\ enforced (exec (append_list base next r accounting) p).
Proof.
  intros Hb Ha Hi Hst Hacc. assert (audited g next) as Hn by (by eapply audited_append).
  pose proof (append_list_stored run_id Hdist base r next p accounting Hb Ha Hi Hst Hacc) as Hst'.
  destruct (stored_enforced run_id Hdist Hrun next _ Hn Hst') as [?|He]; [by left|].
  destruct (expected_unique run_id Hdist next accounting Hn) as [?|Hu]; [by left|right]. split; [|done].
  pose proof (insert_shape _ _ _ Hi) as (Est & Er & _). destruct Hst as [(m & Em & Hm) (acc & _ & Hrows)].
  pose proof (audited_record_rows run_id Hdist next Hn) as Hrec. rewrite Er in Hrec.
  apply Forall_app in Hrec as [_ Hrec]. apply Forall_cons in Hrec as [Hrec _].
  pose proof (expected_rows_ok run_id Hdist next accounting TAccounts Hn Hacc) as Hacs. cbn [expected] in Hacs.
  unfold append_list. rewrite !admitted_app, !andb_true_iff.
  set (new := map account_row (s_accounts (cs_data (sn_state next)))) in *.
  destruct (exec_upserts TAccounts new p) as [M1 R1]. set (p1 := exec (map (Upsert TAccounts) new) p) in *.
  set (blocks := [Upsert TAccounting accounting; Insert TBlocks (block_row r); Insert TBodies (body_row r)]).
  destruct (exec_inserts TTransactions (transaction_rows r) (exec blocks p1)) as [M3 R3].
  set (p3 := exec (map (Insert TTransactions) (transaction_rows r)) (exec blocks p1)) in *.
  assert (forall t, ct_rows (exec blocks p1) t = _) as R2 by (intros t; apply exec_blocks).
  split_and!.
  - by apply admitted_upserts.
  - apply (block_statements base next); try done; [by eapply accounting_row_ok|by rewrite R1, decide_False, Hrows..].
  - apply (body_statements base next r accounting); try done; rewrite R2.
    + by rewrite R1, decide_False, Hrows.
    + rewrite insert_row_perm. left.
  - assert (forall t, t <> TTransactions -> ct_rows p3 t = ct_rows (exec blocks p1) t) as R3'
      by (intros t Ht; by rewrite R3, decide_False).
    apply (tail_statements base next r accounting _ m); try done.
    + rewrite M3. unfold blocks. cbn. by rewrite M1.
    + by rewrite R3', R2, R1, decide_False, Hrows.
    + by rewrite R3', R2, R1, decide_False, Hrows.
    + rewrite R3', R2 by done. rewrite insert_row_perm. left.
Qed.
End Appending.

Section Creating.
  Context {KE : Keccak} {KC : K256} (run_id : bytes) (Hdist : distinct_producers) (Hrun : label_ok run_id).

Let g := genesis_of run_id.

(** One header and no envelope cannot clash. *)
Lemma initial_clash : ~ digest_clash (Snapshot_initial g).
Proof.
  intros [(a & b & Ha & Hb & [Hne _])|(a & b & Ha & _)]; [|by apply not_elem_of_nil in Ha].
  apply list_elem_of_singleton in Ha as ->. by apply list_elem_of_singleton in Hb as ->.
Qed.

Lemma clash_grows s r s' : Snapshot_insert s r = Ok s' -> digest_clash s -> digest_clash s'.
Proof.
  intros Hi. pose proof (insert_shape _ _ _ Hi) as (_ & Er & _).
  intros [(a & b & Ha & Hb & H)|(a & b & Ha & Hb & H)]; [left|right]; exists a, b;
    unfold snapshot_headers, snapshot_envelopes in *; rewrite Er, map_app; split_and!; try done; set_solver.
Qed.

Lemma keys_unique_singleton t row : keys_unique t [row].
Proof. apply Forall_forall. intros ks _. apply NoDup_singleton. Qed.

Lemma insert_into_empty t row c :
  row_ok t row = true -> ct_rows c t = [] -> immediate_ok t row c = true -> admissible (Insert t row) c = true.
Proof. intros Hr He Hi. apply admissible_insert; [done| |done]. rewrite He. apply keys_unique_singleton. Qed.

Lemma upsert_other t t' row c : t' <> t -> ct_rows (apply_write (Upsert t row) c).1 t' = ct_rows c t'.
Proof. intros H. cbn. by rewrite decide_False. Qed.
Lemma insert_other t t' row c : t' <> t -> ct_rows (apply_write (Insert t row) c).1 t' = ct_rows c t'.
Proof. intros H. cbn. by rewrite decide_False. Qed.

(** The last four statements of [initialize]. *)
Lemma final_statements accounting c m :
  row_ok TAccounting accounting = true -> ct_metadata c = [m] -> md_initialized m = 0%Z ->
  metadata_check (set_initialized m) = true -> ct_rows c TStates = [] -> ct_rows c TCanonicalTip = [] ->
  admitted [Upsert TAccounting accounting; Insert TStates (state_row (g_initial g));
    Insert TCanonicalTip [u64_cell 0; BlockHeader_hash genesis_anchor]; MarkInitialized] c = true.
Proof.
  intros Ra Em H0 Hm Hs Ht. pose proof (initial_live run_id Hdist) as Lv. cbn [admitted].
  rewrite andb_true_r, !andb_true_iff. split_and!; [done|..].
  - apply insert_into_empty; [by apply (state_row_ok run_id)|by rewrite upsert_other|done].
  - apply insert_into_empty; [by apply (tip_row_ok run_id (g_initial g))|by rewrite insert_other, upsert_other|].
    unfold immediate_ok. cbn [foreign_keys forallb fk_deferred orb]. rewrite andb_true_r.
    apply (refers_intro _ _ _ (state_row (g_initial g))); [|done].
    cbn [apply_write fst set_rows ct_rows fk_parent]. rewrite decide_True, insert_row_perm by done. left.
  - cbn [admissible apply_write fst set_rows ct_metadata]. rewrite Em. cbn [forallb]. rewrite andb_true_r.
    unfold metadata_update, metadata_policy. by rewrite H0, Hm.
Qed.

(** The statements that create a file pass on an empty database. *)
Lemma initial_admitted accounting :
  accounting_row (g_initial g) = Ok accounting ->
  admitted (initial_list run_id accounting) empty_contents = true /\
  enforced (exec (initial_list run_id accounting) empty_contents).
Proof.
  intros Hacc. assert (audited g (Snapshot_initial g)) as Hau by constructor.
  pose proof (initial_list_stored run_id Hdist accounting Hacc) as Hst.
  destruct (stored_enforced run_id Hdist Hrun _ _ Hau Hst) as [?|He]; [by destruct initial_clash|].
  split; [|done].
  pose proof (expected_rows_ok run_id Hdist _ accounting TAccounts Hau Hacc) as Hacs. cbn [expected] in Hacs.
  change (sn_state (Snapshot_initial g)) with (g_initial g) in Hacs. unfold initial_list. fold g in Hacs |- *.
  set (m := mk_metadata (be_bytes 4 4) _ _ _ _ _). set (new := map account_row _) in *. clearbody new.
  set (first := [InsertMetadata m; _]).
  pose proof (policy_checked run_id Hrun (Snapshot_initial g) (set_initialized m) ltac:(by constructor)) as Hm'.
  destruct (exec_upserts TAccounts new (exec first empty_contents)) as [M1 R1].
  rewrite !admitted_app, !andb_true_iff. split_and!.
  - cbn [admitted]. apply andb_true_iff. split.
    + change (metadata_check m = true). revert Hm'. unfold metadata_check. by rewrite !andb_true_iff.
    + cbn [admitted]. apply andb_true_iff. split; [|done]. by apply insert_into_empty; [vm_compute|..].
  - by apply admitted_upserts.
  - apply (final_statements _ _ m); [by eapply accounting_row_ok|by rewrite M1|done|done|by rewrite R1..].
Qed.

(** Raising the barrier of a stored file. *)
Lemma barrier_admissible s p new old :
  stored g s p -> length new = 8%nat -> admissible (UpdateBarrier new old) p = true.
Proof.
  intros [(m & Em & Hm) _] Hl. cbn [admissible]. rewrite Em. cbn - [metadata_update].
  rewrite andb_true_r. case_bool_decide; [|done]. unfold metadata_update. apply andb_true_iff. split.
  - unfold metadata_policy. destruct m. cbn. rewrite !neq_dec_false by (done || apply Hm).
    by rewrite andb_false_r.
  - apply (policy_checked run_id Hrun s). destruct Hm. by constructor.
Qed.
End Creating.

(** ** Any statement

    The INSERT, INSERT OR IGNORE, INSERT OR REPLACE, upsert, UPDATE and DELETE
    statements SQL can express on these tables, with arbitrary rows, WHERE
    conditions and assignments, whoever issues them. *)

Inductive conflict : Type := OrAbort | OrIgnore | OrReplace.

Inductive statement : Type :=
| SInsert (how : conflict) (t : table) (row : Row)
(** ON CONFLICT (the columns [target]) DO UPDATE *)
| SUpsert (t : table) (target : list nat) (row : Row) (f : Row -> Row)
| SUpdate (t : table) (test : Row -> bool) (f : Row -> Row)
| SDelete (t : table) (test : Row -> bool)
| SInsertMetadata (how : conflict) (m : Metadata)
| SUpdateMetadata (test : Metadata -> bool) (f : Metadata -> Metadata)
| SDeleteMetadata (test : Metadata -> bool).

(** References are checked when the statement ends. *)
Definition all_immediate (c : Contents) : bool :=
  forallb (fun t => forallb (fun row => immediate_ok t row c) (ct_rows c t)) all_tables.

Definition checked (c : Contents) : option Contents := if all_immediate c then Some c else None.

(** The row shares one of the keys with [row]. *)
Definition clashes_with (keys : list (list nat)) (row r : Row) : bool :=
  existsb (fun ks => project ks r ==? project ks row) keys.

Definition keys_distinct (t : table) (rs : list Row) : bool :=
  forallb (fun ks => bool_decide (NoDup (map (project ks) rs))) (unique_keys t).

Definition sort_rows (t : table) (rs : list Row) : list Row := foldr (insert_row t) [] rs.

(** BEFORE UPDATE triggers, CHECKs and keys of the changed rows. *)
Definition run_update (t : table) (test : Row -> bool) (f : Row -> Row) (c : Contents) : option Contents :=
  if immutable t && existsb test (ct_rows c t) then None else
  let rs := sort_rows t (map (fun r => if test r then f r else r) (ct_rows c t)) in
  if forallb (row_ok t) rs && keys_distinct t rs then checked (set_rows t rs c) else None.

(** A statement that succeeds and what it leaves; [None] is an error, which
    undoes it.  RAISE(ABORT) and CHECK failures are not subject to OR REPLACE,
    the rows REPLACE removes fire no DELETE trigger (recursive triggers are
    off), and uniqueness is compared at the end of an UPDATE, so the engine
    accepts no more than this. *)
Definition run_sql (s : statement) (c : Contents) : option Contents :=
  match s with
  | SInsert how t row =>
      if negb (no_replace t row c) then None
      else if negb (row_ok t row) then (if how is OrIgnore then Some c else None)
      else if clashes (unique_keys t) row (ct_rows c t) then
        match how with
        | OrAbort => None
        | OrIgnore => Some c
        | OrReplace =>
            checked (set_rows t (insert_row t row
              (filter (fun r => clashes_with (unique_keys t) row r = false) (ct_rows c t))) c)
        end
      else checked (set_rows t (insert_row t row (ct_rows c t)) c)
  | SUpsert t target row f =>
      if negb (no_replace t row c && row_ok t row && bool_decide (target ∈ unique_keys t)) then None
      else if clashes [target] row (ct_rows c t) then run_update t (clashes_with [target] row) f c
      else if clashes (unique_keys t) row (ct_rows c t) then None
      else checked (set_rows t (insert_row t row (ct_rows c t)) c)
  | SUpdate t test f => run_update t test f c
  | SDelete t test =>
      if immutable t && existsb test (ct_rows c t) then None
      else checked (set_rows t (filter (fun r => test r = false) (ct_rows c t)) c)
  | SInsertMetadata how m =>
      if negb (metadata_replace c) then None
      else if negb (metadata_check m) then (if how is OrIgnore then Some c else None)
      else Some (mk_contents (ct_metadata c ++ [m]) (ct_rows c))
  | SUpdateMetadata test f =>
      if forallb (fun m => if test m then metadata_update f m else true) (ct_metadata c)
      then Some (mk_contents (map (fun m => if test m then f m else m) (ct_metadata c)) (ct_rows c)) else None
  | SDeleteMetadata test =>
      if existsb (fun m => test m && negb (metadata_delete m)) (ct_metadata c) then None
      else Some (mk_contents (filter (fun m => test m = false) (ct_metadata c)) (ct_rows c))
  end.

Fixpoint run_all (ss : list statement) (c : Contents) : option Contents :=
  match ss with
  | [] => Some c
  | s :: rest => c' ← run_sql s c; run_all rest c'
  end.

(** The code's statements in this language. *)
Definition sql_of (w : write) : statement :=
  match w with
  | Insert t row => SInsert OrAbort t row
  | Upsert t row => SUpsert t (if t is TAccounts then [0%nat] else []) row (fun _ => row)
  | InsertMetadata m => SInsertMetadata OrAbort m
  | MarkInitialized => SUpdateMetadata (fun _ => true) set_initialized
  | UpdateRevision new old => SUpdateMetadata (fun m => md_revision m ==? old) (set_revision new)
  | UpdateBarrier new old => SUpdateMetadata (fun m => md_barrier m ==? old) (set_barrier new)
  | UpdateTip new old => SUpdate TCanonicalTip (fun r => r ==? old) (fun _ => new)
  end.

(** The code upserts accounts and the accounting row only. *)
Definition issued (w : write) : Prop :=
  if w is Upsert t _ then t = TAccounts \/ t = TAccounting else True.

(** The same rows, in whatever order. *)
Definition same_tables (a b : Contents) : Prop :=
  ct_metadata a = ct_metadata b /\ forall t, ct_rows a t ≡ₚ ct_rows b t.

(** What the store promises about its history, table by table. *)
Definition history_tables : list table := [TBlocks; TBodies; TTransactions; TRewards; TStates; TYearZero].

Record distinct_history (c : Contents) : Prop := {
  dh_block_slot : NoDup (map (cell 0) (ct_rows c TBlocks));
  dh_block_hash : NoDup (map (cell 1) (ct_rows c TBlocks));
  dh_envelope : NoDup (map (cell 7) (ct_rows c TBlocks));
  dh_body : NoDup (map (cell 0) (ct_rows c TBodies));
  dh_transaction : NoDup (map (cell 0) (ct_rows c TTransactions));
  dh_position : NoDup (map (fun r => (cell 1 r, cell 2 r)) (ct_rows c TTransactions));
  dh_sender_nonce : NoDup (map (fun r => (cell 3 r, cell 4 r)) (ct_rows c TTransactions));
  dh_reward : NoDup (map (cell 0) (ct_rows c TRewards));
  dh_state_slot : NoDup (map (cell 0) (ct_rows c TStates));
  dh_state_hash : NoDup (map (cell 1) (ct_rows c TStates));
  dh_account : NoDup (map (cell 0) (ct_rows c TAccounts));
  dh_year : (length (ct_rows c TYearZero) <= 1)%nat;
  dh_tip : (length (ct_rows c TCanonicalTip) <= 1)%nat
}.

(** After a COMMIT no row refers to a missing one. *)
Record linked_history (c : Contents) : Prop := {
  lh_block_body : forall b, b ∈ ct_rows c TBlocks -> exists d, d ∈ ct_rows c TBodies /\ cell 0 d = cell 0 b;
  lh_block_state : forall b, b ∈ ct_rows c TBlocks -> exists s, s ∈ ct_rows c TStates /\
    cell 0 s = cell 0 b /\ cell 1 s = cell 1 b;
  lh_body_block : forall d, d ∈ ct_rows c TBodies -> exists b, b ∈ ct_rows c TBlocks /\ cell 0 b = cell 0 d;
  lh_transaction : forall x, x ∈ ct_rows c TTransactions -> exists d, d ∈ ct_rows c TBodies /\ cell 0 d = cell 1 x;
  lh_reward : forall r, r ∈ ct_rows c TRewards -> exists b, b ∈ ct_rows c TBlocks /\ cell 0 b = cell 0 r;
  lh_tip : forall p, p ∈ ct_rows c TCanonicalTip -> exists s, s ∈ ct_rows c TStates /\
    cell 0 s = cell 0 p /\ cell 1 s = cell 1 p
}.

(** ** Statements on tables *)

Lemma sort_rows_perm t rs : sort_rows t rs ≡ₚ rs.
Proof. induction rs as [|r rs IH]; [done|]. cbn. by rewrite insert_row_perm, IH. Qed.

Lemma clashes_rows keys row rs : clashes keys row rs = existsb (clashes_with keys row) rs.
Proof.
  apply eq_bool_prop_intro. rewrite !Is_true_true. unfold clashes, clashes_with.
  rewrite !existsb_exists. setoid_rewrite existsb_exists. naive_solver.
Qed.

Lemma all_tables_elem t : t ∈ all_tables.
Proof. destruct t; set_solver. Qed.

Lemma all_immediate_iff c :
  all_immediate c = true <-> forall t, Forall (fun row => immediate_ok t row c = true) (ct_rows c t).
Proof.
  unfold all_immediate. rewrite forallb_forall. split.
  - intros H t. apply List.Forall_forall, forallb_forall, H, list_elem_of_In, all_tables_elem.
  - intros H t _. apply forallb_forall, List.Forall_forall, H.
Qed.

Lemma keys_distinct_iff t rs : keys_distinct t rs = true <-> keys_unique t rs.
Proof.
  unfold keys_distinct, keys_unique. rewrite forallb_forall, List.Forall_forall.
  by setoid_rewrite bool_decide_eq_true.
Qed.

Lemma checked_Some c c' : checked c = Some c' <-> all_immediate c = true /\ c' = c.
Proof. unfold checked. case_match; naive_solver. Qed.

(** Replacing the rows of one table by rows that pass their checks. *)
Lemma conforms_table t rs c c' :
  conforms c -> Forall (fun row => row_ok t row = true) rs -> keys_unique t rs ->
  checked (set_rows t rs c) = Some c' -> conforms c'.
Proof.
  intros C Hr Hk [Hi ->]%checked_Some. pose proof (proj1 (all_immediate_iff _) Hi) as Hall.
  constructor; try apply C; try done.
  - intros t'. cbn. case_decide; [by subst|apply C].
  - intros t'. cbn. case_decide; [by subst|apply C].
Qed.

Lemma NoDup_map_filter {A B} (f : A -> B) (P : A -> Prop) `{!forall x, Decision (P x)} l :
  NoDup (map f l) -> NoDup (map f (filter P l)).
Proof.
  induction l as [|x l IH]; [done|]. cbn [map]. rewrite NoDup_cons, filter_cons. intros [Hx Hl].
  case_decide; [|by apply IH]. cbn [map]. apply NoDup_cons. split; [|by apply IH].
  intros (y & E & [_ Hy]%list_elem_of_filter)%list_elem_of_fmap. apply Hx. rewrite E. by apply list_elem_of_fmap_2.
Qed.

(** Some of the rows of a table. *)
Lemma filter_table t (P : Row -> Prop) `{!forall x, Decision (P x)} c :
  conforms c -> Forall (fun row => row_ok t row = true) (filter P (ct_rows c t)) /\
    keys_unique t (filter P (ct_rows c t)).
Proof.
  intros C. split.
  - apply Forall_forall. intros r [_ Hr]%list_elem_of_filter. pose proof (cf_rows _ C t) as Hall.
    rewrite Forall_forall in Hall. by apply Hall.
  - eapply Forall_impl; [apply (cf_unique _ C t)|]. intros ks. apply NoDup_map_filter.
Qed.

Lemma insert_table t row rs c c' :
  conforms c -> row_ok t row = true -> clashes (unique_keys t) row rs = false ->
  Forall (fun row => row_ok t row = true) rs -> keys_unique t rs ->
  checked (set_rows t (insert_row t row rs) c) = Some c' -> conforms c'.
Proof.
  intros C Hok Hcl Hr Hk. apply conforms_table; [done| |].
  - rewrite insert_row_perm. by constructor.
  - eapply keys_unique_perm; [symmetry; apply insert_row_perm|]. by apply keys_unique_cons.
Qed.

Lemma run_update_inv t test f c c' :
  run_update t test f c = Some c' ->
  (immutable t = true -> existsb test (ct_rows c t) = false) /\
  exists rs, rs ≡ₚ map (fun r => if test r then f r else r) (ct_rows c t) /\
    Forall (fun row => row_ok t row = true) rs /\ keys_unique t rs /\ checked (set_rows t rs c) = Some c'.
Proof.
  unfold run_update. destruct (immutable t && _) eqn:E; [done|]. cbv zeta.
  destruct (forallb _ _ && _) eqn:Hr; [|done]. apply andb_true_iff in Hr as [Hr Hk%keys_distinct_iff].
  intros Hc. split; [by intros Ht; rewrite Ht in E|]. eexists. split; [apply sort_rows_perm|].
  split_and!; [|done|exact Hc]. by apply List.Forall_forall, forallb_forall.
Qed.

Lemma run_update_conforms t test f c c' : conforms c -> run_update t test f c = Some c' -> conforms c'.
Proof. intros C (_ & rs & _ & ? & ? & Hc)%run_update_inv. by eapply conforms_table. Qed.

Lemma filter_clashes t row rs :
  clashes (unique_keys t) row (filter (fun r => clashes_with (unique_keys t) row r = false) rs) = false.
Proof.
  rewrite clashes_rows. apply not_true_iff_false. rewrite existsb_exists.
  intros (r & [E _]%list_elem_of_In%list_elem_of_filter & Hr). congruence.
Qed.

(** Every statement that succeeds keeps the constraints. *)
Lemma run_conforms s c c' : conforms c -> run_sql s c = Some c' -> conforms c'.
Proof.
  intros C. destruct s as [how t row|t target row f|t test f|t test|how m|test f|test]; cbn [run_sql].
  - destruct (no_replace _ _ _), (row_ok t row) eqn:Hok; cbn [negb]; [|by destruct how; intros E; simplify_eq|done..].
    destruct (clashes _ _ _) eqn:Hcl; [destruct how; [done|by intros [= <-]|]|].
    + apply insert_table; [done|done|apply filter_clashes|by apply filter_table..].
    + apply insert_table; [done|done|done|apply C..].
  - destruct (_ && _) eqn:Hok; [|done]. cbn [negb]. rewrite !andb_true_iff in Hok. destruct Hok as [[_ Hok] _].
    destruct (clashes [target] _ _); [by apply run_update_conforms|].
    destruct (clashes _ _ _) eqn:Hcl; [done|]. apply insert_table; [done|done|done|apply C..].
  - by apply run_update_conforms.
  - destruct (_ && _); [done|]. apply conforms_table; [done|by apply filter_table..].
  - unfold metadata_replace. case_bool_decide as Hl; [|done]. apply nil_length_inv in Hl. cbn [negb].
    destruct (metadata_check m) eqn:Hm; cbn [negb]; [|by destruct how; intros E; simplify_eq]. intros [= <-]. rewrite Hl.
    apply conforms_metadata; [done| |done]. by constructor.
  - destruct (forallb _ _) eqn:Hf; [|done]. intros [= <-].
    apply conforms_metadata; [done|by apply metadata_kept, Hf; apply C|]. rewrite length_map. apply C.
  - destruct (existsb _ _); [done|]. intros [= <-]. pose proof (cf_metadata _ C) as Hm. rewrite Forall_forall in Hm.
    apply conforms_metadata; [done| |].
    + apply Forall_forall. intros m [_ Hin]%list_elem_of_filter. by apply Hm.
    + etrans; [apply length_filter|apply C].
Qed.

(** ** The triggers protect the history *)

Lemma history_immutable t : t ∈ history_tables -> immutable t = true.
Proof. intros H. unfold history_tables in H. set_unfold in H. naive_solver. Qed.

(** Where [no_replace] lets an insertion pass, no key is taken. *)
Lemma no_replace_complete t row c :
  t ∈ history_tables -> no_replace t row c = true -> clashes (unique_keys t) row (ct_rows c t) = false.
Proof.
  intros Ht H%negb_true_iff%clashes_false. apply clashes_false. unfold history_tables in Ht. set_unfold in Ht.
  destruct Ht as [-> |[-> |[-> |[-> |[-> |[-> |[]]]]]]]; cbn [unique_keys no_replace_keys] in *; try done.
  rewrite !Forall_cons in *. destruct H as (H0 & H1 & _). split_and!; [done..| |constructor].
  intros (r & E & Hr)%list_elem_of_fmap. apply H0, list_elem_of_fmap. exists r. cbn in *. by injection E as ->.
Qed.

Lemma update_keeps t test f c c' row :
  immutable t = true -> run_update t test f c = Some c' -> row ∈ ct_rows c t -> row ∈ ct_rows c' t.
Proof.
  intros Ht (Hno & rs & Hp & _ & _ & [_ ->]%checked_Some)%run_update_inv Hr. specialize (Hno Ht).
  cbn. rewrite decide_True, Hp by done. apply list_elem_of_fmap. exists row. split; [|done].
  destruct (test row) eqn:E; [|done]. exfalso. apply not_true_iff_false in Hno. apply Hno, existsb_exists.
  exists row. split; [by apply list_elem_of_In|done].
Qed.

Lemma insert_keeps t row rs c c' r :
  checked (set_rows t (insert_row t row rs) c) = Some c' -> r ∈ rs -> r ∈ ct_rows c' t.
Proof. intros [_ ->]%checked_Some Hr. cbn. rewrite decide_True, insert_row_perm by done. by right. Qed.

(** A statement changes the table it names. *)
Definition target (s : statement) : option table :=
  match s with
  | SInsert _ t _ | SUpsert t _ _ _ | SUpdate t _ _ | SDelete t _ => Some t
  | _ => None
  end.

Lemma run_frame s c c' t : run_sql s c = Some c' -> target s <> Some t -> ct_rows c' t = ct_rows c t.
Proof.
  assert (forall t' rs x, checked (set_rows t' rs c) = Some x -> t' <> t -> ct_rows x t = ct_rows c t) as Hset.
  { intros t' rs x [_ ->]%checked_Some Hne. cbn. by rewrite decide_False by congruence. }
  assert (forall t' test f x, run_update t' test f c = Some x -> t' <> t -> ct_rows x t = ct_rows c t) as Hup
    by (intros t' test f x (_ & rs & _ & _ & _ & E)%run_update_inv; by eapply Hset).
  destruct s as [how t' row|t' tg row f|t' test f|t' test|how m|test f|test]; cbn [run_sql target]; intros H Hne;
    repeat (case_match; try done); try (by injection H as <-);
    first [eapply Hset; [exact H|congruence] | eapply Hup; [exact H|congruence]].
Qed.

(** No row of a history table is changed or removed. *)
Lemma run_keeps s c c' t row :
  t ∈ history_tables -> run_sql s c = Some c' -> row ∈ ct_rows c t -> row ∈ ct_rows c' t.
Proof.
  intros Ht H Hr. destruct (decide (target s = Some t)) as [Es|Hne]; [|by rewrite (run_frame _ _ _ _ H Hne)].
  pose proof (history_immutable t Ht) as Hi.
  destruct s as [how t' r|t' tg r f|t' test f|t' test|how m|test f|test]; cbn [run_sql target] in *; try done;
    injection Es as ->.
  - destruct (no_replace t r c) eqn:Hn; [|done]. cbn [negb] in H. destruct (row_ok t r); cbn [negb] in H.
    + rewrite no_replace_complete in H by done. by eapply insert_keeps.
    + destruct how; by simplify_eq.
  - destruct (_ && _); [|done]. cbn [negb] in H. destruct (clashes [tg] _ _); [by eapply update_keeps|].
    destruct (clashes _ _ _); [done|]. by eapply insert_keeps.
  - by eapply update_keeps.
  - rewrite Hi in H. cbn [andb] in H. destruct (existsb test _) eqn:E; [done|]. apply checked_Some in H as [_ ->].
    cbn. rewrite decide_True by done. apply list_elem_of_filter. split; [|done].
    destruct (test row) eqn:Et; [|done]. apply not_true_iff_false in E. destruct E. apply existsb_exists.
    exists row. split; [by apply list_elem_of_In|done].
Qed.

(** The policy of an initialized file stays. *)
Definition same_policy (m m' : Metadata) : Prop :=
  md_version m' = md_version m /\ md_mode m' = md_mode m /\ md_genesis m' = md_genesis m /\ md_initialized m' = 1%Z.

Lemma policy_update m m' : metadata_policy m m' = true -> md_initialized m = 1%Z -> same_policy m m'.
Proof.
  unfold metadata_policy. intros H%negb_true_iff Hi. rewrite bool_decide_eq_true_2 in H by done. cbn [andb] in H.
  rewrite !orb_false_iff, !bool_decide_eq_false in H. unfold same_policy. destruct_and!. by split_and!; apply dec_stable.
Qed.

Lemma run_policy s c c' m :
  run_sql s c = Some c' -> ct_metadata c = [m] -> md_initialized m = 1%Z ->
  exists m', ct_metadata c' = [m'] /\ same_policy m m'.
Proof.
  intros H Em Hi. assert (same_policy m m) as Hself by done.
  assert (forall x, ct_metadata x = ct_metadata c -> exists m', ct_metadata x = [m'] /\ same_policy m m') as Hframe
    by (intros x ->; eauto).
  assert (forall t rs x, checked (set_rows t rs c) = Some x -> ct_metadata x = ct_metadata c) as Hset
    by (by intros t rs x [_ ->]%checked_Some).
  assert (forall t test f x, run_update t test f c = Some x -> ct_metadata x = ct_metadata c) as Hup
    by (intros t test f x (_ & rs & _ & _ & _ & E)%run_update_inv; by eapply Hset).
  destruct s as [how t row|t tg row f|t test f|t test|how m0|test f|test]; cbn [run_sql] in H.
  5: { unfold metadata_replace in H. by rewrite Em in H. }
  5: { rewrite Em in H. cbn in H. rewrite andb_true_r in H. destruct (test m); [|injection H as <-; eauto].
    unfold metadata_update in H. destruct (metadata_policy m (f m)) eqn:Hp; [|done]. cbn [andb] in H.
    case_match; [|done]. injection H as <-. eexists. split; [done|]. by apply policy_update. }
  5: { rewrite Em in H. unfold metadata_delete in H. cbn [existsb] in H. destruct (test m) eqn:Et; [done|].
    cbn [andb negb orb] in H. rewrite filter_cons, decide_True in H by done. injection H as <-. by exists m. }
  all: apply Hframe; repeat (case_match; try done); simplify_eq; try done; (by eapply Hset) || (by eapply Hup).
Qed.

(** ** The code's statements are among them *)

Lemma refers_mono c c1 row fk :
  (forall t, ct_rows c t ⊆ ct_rows c1 t) -> refers c row fk = true -> refers c1 row fk = true.
Proof.
  intros Hs (p & Hp%list_elem_of_In & E)%existsb_exists. apply existsb_exists. exists p. split; [|done].
  by apply list_elem_of_In, Hs.
Qed.

Lemma immediate_mono t row c c1 :
  (forall t, ct_rows c t ⊆ ct_rows c1 t) -> immediate_ok t row c = true -> immediate_ok t row c1 = true.
Proof.
  unfold immediate_ok. rewrite !forallb_forall. intros Hs H fk Hfk. specialize (H fk Hfk).
  apply orb_true_iff in H as [->|H]; [done|]. apply orb_true_iff. right. by eapply refers_mono.
Qed.

Lemma inserted_rows t row c t' : ct_rows c t' ⊆ ct_rows (set_rows t (insert_row t row (ct_rows c t)) c) t'.
Proof. cbn. case_decide; [subst t'|done]. intros r Hr. rewrite insert_row_perm. by right. Qed.

(** Only the new row can miss what it refers to. *)
Lemma insert_checked t row c :
  conforms c ->
  let c1 := set_rows t (insert_row t row (ct_rows c t)) c in
  checked c1 = if immediate_ok t row c1 then Some c1 else None.
Proof.
  intros C c1. unfold checked. assert (all_immediate c1 = immediate_ok t row c1) as ->; [|done].
  apply eq_bool_prop_intro. rewrite !Is_true_true, all_immediate_iff. split.
  - intros H. specialize (H t). rewrite Forall_forall in H. apply H. cbn.
    rewrite decide_True, insert_row_perm by done. by left.
  - intros H t'. apply Forall_forall. intros r Hr. cbn in Hr.
    assert (r ∈ ct_rows c t' \/ t' = t /\ r = row) as [Hold|[-> ->]]; [|..|done].
    + case_decide; [subst t'|by left]. rewrite insert_row_perm in Hr. apply elem_of_cons in Hr as [->|?]; auto.
    + eapply immediate_mono; [apply inserted_rows|]. pose proof (cf_immediate _ C t') as Hi.
      rewrite Forall_forall in Hi. by apply Hi.
Qed.

(** Nothing refers to these tables. *)
Definition leaf (t : table) : Prop := t = TAccounts \/ t = TAccounting \/ t = TCanonicalTip.

Lemma leaf_immediate t rs c t' row : leaf t -> immediate_ok t' row (set_rows t rs c) = immediate_ok t' row c.
Proof. intros [-> |[-> | ->]]; by destruct t'. Qed.

Lemma leaf_checked t rs c :
  leaf t -> conforms c ->
  checked (set_rows t rs c) = if forallb (fun r => immediate_ok t r c) rs then Some (set_rows t rs c) else None.
Proof.
  intros Hl C. unfold checked. assert (all_immediate (set_rows t rs c) = forallb (fun r => immediate_ok t r c) rs) as ->; [|done].
  apply eq_bool_prop_intro. rewrite !Is_true_true, all_immediate_iff, forallb_forall. split.
  - intros H r Hr%list_elem_of_In. specialize (H t). rewrite Forall_forall in H.
    rewrite <- (leaf_immediate t rs) by done. apply H. cbn. by rewrite decide_True.
  - intros H t'. apply Forall_forall. intros r Hr. rewrite leaf_immediate by done. cbn in Hr. case_decide.
    + subst t'. by apply H, list_elem_of_In.
    + pose proof (cf_immediate _ C t') as Hi. rewrite Forall_forall in Hi. by apply Hi.
Qed.

Lemma same_tables_refl c : same_tables c c.
Proof. done. Qed.

Lemma same_rows t rs rs' c : rs ≡ₚ rs' -> same_tables (set_rows t rs c) (set_rows t rs' c).
Proof. intros H. split; [done|]. intros t'. cbn. by case_decide. Qed.

(** The outcome of a statement of the code: [admissible] decides it and
    [apply_write] is its effect. *)
Definition decided (w : write) (c : Contents) (out : option Contents) : Prop :=
  match out with
  | Some c' => admissible w c = true /\ same_tables c' (apply_write w c).1
  | None => admissible w c = false
  end.

Lemma insert_decided t row c : conforms c -> decided (Insert t row) c (run_sql (SInsert OrAbort t row) c).
Proof.
  intros C. cbn [run_sql]. unfold decided. cbn [admissible apply_write fst].
  destruct (no_replace t row c); [|done]. destruct (row_ok t row); [|done].
  destruct (clashes _ _ _); [done|]. rewrite (insert_checked t row c C). cbn [negb andb].
  by destruct (immediate_ok _ _ _).
Qed.

Lemma upsert_decided t row c : issued (Upsert t row) -> conforms c -> decided (Upsert t row) c (run_sql (sql_of (Upsert t row)) c).
Proof.
  intros Ht C. cbn [sql_of run_sql]. set (tg := if t is TAccounts then [0%nat] else []).
  assert (leaf t) as Hl by (destruct Ht; by unfold leaf; auto).
  assert (admissible (Upsert t row) c = row_ok t row) as Had by (by destruct Ht as [-> | ->]).
  assert (no_replace t row c = true) as -> by (by destruct Ht as [-> | ->]).
  assert (unique_keys t = [tg]) as Huk by (by destruct Ht as [-> | ->]).
  assert (forall r, immediate_ok t r c = true) as Him by (by destruct Ht as [-> | ->]).
  assert (immutable t = false) as Himm by (by destruct Ht as [-> | ->]).
  assert (forall r, clashes_with [tg] row r = bool_decide (row_key t r = row_key t row)) as Hkey.
  { intros r. cbn. rewrite orb_false_r. apply bool_decide_ext. destruct Ht as [-> | ->]; cbn; [|done].
    split; congruence. }
  unfold decided. cbn [apply_write fst]. rewrite Had, Huk, (bool_decide_eq_true_2 (tg ∈ [tg])) by (by left).
  destruct (row_ok t row) eqn:Hok; [|done]. cbn [andb negb]. rewrite clashes_rows. unfold upsert_row.
  assert (forall rs, existsb (clashes_with [tg] row) rs = existsb (fun r => row_key t r ==? row_key t row) rs) as Hex.
  { induction rs as [|r rs IH]; [done|]. cbn [existsb]. by rewrite IH, Hkey. }
  rewrite Hex. destruct (existsb _ (ct_rows c t)) eqn:Hf.
  - unfold run_update. rewrite Himm. cbn [andb]. cbv zeta.
    assert (forall rs, map (fun r => if clashes_with [tg] row r then row else r) rs =
      map (fun r => if row_key t r ==? row_key t row then row else r) rs) as Hmap
      by (intros rs; apply map_ext; intros r; by rewrite Hkey).
    rewrite Hmap. set (rs := map _ _). assert (rs = upsert_row t row (ct_rows c t)) as Hrs
      by (unfold upsert_row; by rewrite Hf).
    rewrite (proj2 (forallb_forall _ _)); [|intros r Hr%list_elem_of_In].
    2:{ rewrite sort_rows_perm, Hrs in Hr. apply upsert_elem in Hr as [->|Hr]; [done|].
        pose proof (cf_rows _ C t) as H. rewrite Forall_forall in H. by apply H. }
    rewrite (proj2 (keys_distinct_iff _ _)).
    2:{ eapply keys_unique_perm; [symmetry; apply sort_rows_perm|]. rewrite Hrs. by apply upsert_unique; [|apply C]. }
    cbn [andb]. rewrite leaf_checked by done. rewrite (proj2 (forallb_forall _ _)) by auto.
    split; [done|]. apply same_rows, sort_rows_perm.
  - rewrite leaf_checked by done. by rewrite (proj2 (forallb_forall _ _)) by auto.
Qed.

Lemma tip_decided new old c : conforms c -> decided (UpdateTip new old) c (run_sql (sql_of (UpdateTip new old)) c).
Proof.
  intros C. cbn [sql_of run_sql]. unfold run_update. cbn [immutable andb]. cbv zeta. rewrite leaf_checked by (unfold leaf; auto).
  unfold decided. cbn [admissible apply_write fst].
  pose proof (cf_unique _ C TCanonicalTip) as Hu. pose proof (cf_rows _ C TCanonicalTip) as Hr.
  pose proof (cf_immediate _ C TCanonicalTip) as Hi. unfold keys_unique in Hu. cbn [unique_keys] in Hu.
  rewrite Forall_singleton in Hu. rewrite leaf_immediate by (unfold leaf; auto).
  destruct (ct_rows c TCanonicalTip) as [|r [|r' l]]; [done| |].
  - rewrite Forall_singleton in *. cbn [map sort_rows foldr insert_row insert_sorted forallb].
    rewrite !andb_true_r. unfold keys_distinct. cbn [unique_keys forallb map].
    case_bool_decide; [|by rewrite Hr, Hi].
    cbn [immutable negb andb]. by destruct (row_ok _ new), (immediate_ok _ new _).
  - exfalso. cbn in Hu. apply NoDup_cons in Hu as [Hu _]. apply Hu. left.
Qed.

Lemma sql_of_decided w c : issued w -> conforms c -> decided w c (run_sql (sql_of w) c).
Proof.
  intros Hw C. destruct w as [t row|t row|m| |new old|new old|new old].
  - by apply insert_decided.
  - by apply upsert_decided.
  - cbn [sql_of run_sql]. unfold decided. cbn [admissible apply_write fst].
    destruct (metadata_replace c), (metadata_check m); done.
  - cbn [sql_of run_sql]. unfold decided. cbn [admissible apply_write fst]. by destruct (forallb _ _).
  - cbn [sql_of run_sql]. unfold decided. cbn [admissible apply_write fst]. by destruct (forallb _ _).
  - cbn [sql_of run_sql]. unfold decided. cbn [admissible apply_write fst]. by destruct (forallb _ _).
  - by apply tip_decided.
Qed.

(** ** What the constraints mean *)

Lemma NoDup_via {A B C} (f : A -> B) (h : B -> C) (g : A -> C) l :
  (forall x, g x = h (f x)) -> NoDup (map g l) -> NoDup (map f l).
Proof. intros H. rewrite (map_ext _ _ H), <- (map_map f h). apply (NoDup_fmap_1 h). Qed.

Lemma single_key k rs : NoDup (map (project [k]) rs) -> NoDup (map (cell k) rs).
Proof. by apply (NoDup_via (cell k) (fun x => [x])). Qed.

Lemma pair_key j k rs : NoDup (map (project [j; k]) rs) -> NoDup (map (fun r => (cell j r, cell k r)) rs).
Proof. by apply (NoDup_via (fun r => (cell j r, cell k r)) (fun x => [x.1; x.2])). Qed.

Lemma fixed_key rs : NoDup (map (project []) rs) -> (length rs <= 1)%nat.
Proof. destruct rs as [|r [|r' rs]]; cbn; [lia..|]. intros [H _]%NoDup_cons. destruct H. left. Qed.

Lemma conforms_distinct c : conforms c -> distinct_history c.
Proof.
  intros C. pose proof (cf_unique _ C) as H. unfold keys_unique in H.
  pose proof (H TBlocks) as Hb. pose proof (H TBodies) as Hd. pose proof (H TTransactions) as Ht.
  pose proof (H TRewards) as Hw. pose proof (H TStates) as Hs. pose proof (H TAccounts) as Ha.
  pose proof (H TYearZero) as Hy. pose proof (H TCanonicalTip) as Hc. clear H. cbn [unique_keys] in *.
  rewrite !Forall_cons in *. destruct_and!.
  constructor; (by apply single_key) || (by apply pair_key) || (by apply fixed_key).
Qed.

Lemma deferred_refers c t row fk :
  deferred_ok c = true -> row ∈ ct_rows c t -> fk ∈ foreign_keys t ->
  exists p, p ∈ ct_rows c (fk_parent fk) /\ project (fk_parent_columns fk) p = project (fk_columns fk) row.
Proof.
  unfold deferred_ok. rewrite forallb_forall. intros H Hr Hfk.
  specialize (H t (proj1 (list_elem_of_In _ _) (all_tables_elem t))). rewrite forallb_forall in H.
  specialize (H row (proj1 (list_elem_of_In _ _) Hr)). rewrite forallb_forall in H.
  specialize (H fk (proj1 (list_elem_of_In _ _) Hfk)).
  apply existsb_exists in H as (p & Hp%list_elem_of_In & E%bool_decide_eq_true). eauto.
Qed.

Lemma deferred_linked c : deferred_ok c = true -> linked_history c.
Proof.
  intros Hd. constructor; intros row Hr.
  - destruct (deferred_refers c TBlocks row (mk_foreign_key [0] TBodies [0] true) Hd Hr) as (p & Hp & E); [left|].
    injection E as E. eauto.
  - destruct (deferred_refers c TBlocks row (mk_foreign_key [0; 1] TStates [0; 1] true) Hd Hr) as (p & Hp & E);
      [right; left|]. injection E as E E'. eauto.
  - destruct (deferred_refers c TBodies row (mk_foreign_key [0] TBlocks [0] true) Hd Hr) as (p & Hp & E); [left|].
    injection E as E. eauto.
  - destruct (deferred_refers c TTransactions row (mk_foreign_key [1] TBodies [0] false) Hd Hr) as (p & Hp & E);
      [left|]. injection E as E. eauto.
  - destruct (deferred_refers c TRewards row (mk_foreign_key [0] TBlocks [0] false) Hd Hr) as (p & Hp & E); [left|].
    injection E as E. eauto.
  - destruct (deferred_refers c TCanonicalTip row (mk_foreign_key [0; 1] TStates [0; 1] false) Hd Hr)
      as (p & Hp & E); [left|]. injection E as E E'. eauto.
Qed.

Lemma run_all_inv ss c c' :
  conforms c -> run_all ss c = Some c' ->
  conforms c' /\ (forall t row, t ∈ history_tables -> row ∈ ct_rows c t -> row ∈ ct_rows c' t) /\
  (forall m, ct_metadata c = [m] -> md_initialized m = 1%Z -> exists m', ct_metadata c' = [m'] /\ same_policy m m').
Proof.
  revert c. induction ss as [|s ss IH]; intros c C; cbn [run_all].
  - intros [= <-]. split_and!; [done..|]. intros m Em Hi. by exists m.
  - intros (c1 & H1 & H)%bind_Some. destruct (IH c1 (run_conforms _ _ _ C H1) H) as (C' & K & M).
    split_and!; [done| |].
    + intros t row Ht Hr. apply K; [done|]. by eapply run_keeps.
    + intros m Em Hi. destruct (run_policy _ _ _ _ H1 Em Hi) as (m1 & E1 & V1 & O1 & G1 & I1).
      destruct (M m1 E1 I1) as (m' & E' & V' & O' & G' & I'). exists m'. split; [done|]. by split_and!; congruence.
Qed.

(** ** Properties *)

(** C16: the schema makes the history append-only for whatever statements are
    issued, by the code or by anything else.  From contents that satisfy the
    constraints, any sequence of INSERT (OR IGNORE, OR REPLACE), upsert, UPDATE
    and DELETE statements that succeed leads to contents that satisfy them;
    every row of the blocks, bodies, transactions, rewards, states and year
    tables is still there unchanged; no two blocks, bodies, transactions,
    rewards, states or accounts share a key; after a COMMIT every reference
    has its row; and once the file is initialized its version, mode and
    genesis stay.  The code's own statements are such statements:
    [admissible] decides them and [apply_write] is their effect. *)
Theorem schema_append_only ss c c' :
  conforms c -> run_all ss c = Some c' ->
  conforms c' /\ distinct_history c' /\ (deferred_ok c' = true -> linked_history c') /\
  (forall t row, t ∈ [TBlocks; TBodies; TTransactions; TRewards; TStates; TYearZero] ->
     row ∈ ct_rows c t -> row ∈ ct_rows c' t) /\
  (forall m, ct_metadata c = [m] -> md_initialized m = 1%Z -> exists m', ct_metadata c' = [m'] /\
     md_version m' = md_version m /\ md_mode m' = md_mode m /\ md_genesis m' = md_genesis m /\
     md_initialized m' = 1%Z) /\
  (forall w, issued w -> match run_sql (sql_of w) c' with
     | Some c'' => admissible w c' = true /\ same_tables c'' (apply_write w c').1
     | None => admissible w c' = false
     end).
Proof.
  intros C H. destruct (run_all_inv _ _ _ C H) as (C' & K & M).
  split; [done|]. split; [by apply conforms_distinct|]. split; [apply deferred_linked|]. split; [exact K|].
  split; [exact M|]. intros w Hw. exact (sql_of_decided w c' Hw C').
Qed.

(** ** Examples *)

Lemma toy_label : label_ok (str "run-1").
Proof. split_and!; [done|vm_compute; discriminate|vm_compute; reflexivity]. Qed.

(** An empty database accepts the year record once, and then neither replaces,
    updates nor deletes it. *)
Lemma schema_append_only_witness :
  exists c, run_all [sql_of (Insert TYearZero [year_bytes]); SDelete TAccounts (fun _ => true)] empty_contents = Some c /\
    conforms c /\ [year_bytes] ∈ ct_rows c TYearZero /\
    run_sql (SInsert OrReplace TYearZero [year_bytes]) c = None /\
    run_sql (SUpdate TYearZero (fun _ => true) (fun _ => [zeros 120])) c = None /\
    run_sql (SDelete TYearZero (fun _ => true)) c = None.
Proof.
  eexists. split; [reflexivity|].
  destruct (schema_append_only [sql_of (Insert TYearZero [year_bytes]); SDelete TAccounts (fun _ => true)]
    empty_contents _ empty_conforms eq_refl) as [C _].
  split; [exact C|]. split; [left|]. split; [reflexivity|]. split; reflexivity.
Defined.
