(* ===== verification/PoashLive.v ===== *)
(** * The owner on an engine that works (src/src/native_poash/storage.rs, storage/sql.rs)

    [Faultless] describes SQLite on a healthy disk with no other process: it
    refuses only what the constraints of the schema refuse.  The theorems
    are the progress half of the owner's contract: creating a file, reopening
    it, committing a staged record and recovering an uncertain commit all
    succeed with exactly the snapshot they should, unless two concrete stored
    messages have the same digest.

    [strict_sqlite] is such an engine: it evaluates every statement against
    [admissible] and every COMMIT against [deferred_ok]. *)

From S2P Require Import Prelude Codec Crypto BlockCommitment NativeTransaction.
From S2P Require Import NativeTransfer NativeBlock BlockAuthentication LeaderSelection.
From S2P Require Import PoashBase PoashState PoashSelection PoashGenesis PoashClaim.
From S2P Require Import PoashHistory PoashAdmission PoashApplication PoashCompound PoashChain.
From S2P Require Import PoashSnapshot PoashOwner PoashReplay PoashSql PoashCommit PoashFile PoashSchema.

(** Documented behaviour when no I/O error occurs and nobody else has the
    file open: a transaction begins when none is open and sees the file,
    statements and COMMIT fail only on a constraint, and a file that holds
    metadata and satisfies the constraints passes the schema check. *)
Class Faultless (S : Sqlite) : Prop := {
  fl_begin : forall c, transaction c = None ->
    exists c', sq_begin c = (c', Ok ()) /\ committed c' = committed c;
  fl_write : forall w c p, transaction c = Some p -> admissible w p = true ->
    exists c' n, sq_write w c = (c', Ok n);
  fl_commit : forall c p, transaction c = Some p -> deferred_ok p = true ->
    exists c', sq_commit c = (c', Ok ());
  fl_rollback : forall c p, transaction c = Some p -> exists c', sq_rollback c = (c', Ok ());
  fl_create : forall c, transaction c = Some empty_contents ->
    exists c', sq_create_schema c = (c', Ok ());
  fl_metadata : forall c, ct_metadata (visible c) <> [] -> exists ms, sq_metadata c = Ok ms;
  fl_select : forall t c, ct_metadata (visible c) <> [] -> exists rs, sq_select t c = Ok rs;
  fl_schema : forall c, ct_metadata (visible c) <> [] -> enforced (visible c) -> sq_schema c = Ok ()
}.

Lemma fail_if_same {A E} (a b : A) (e : E) `{Decision (a <> b)} : a = b -> fail_if (a !=? b) e = Ok ().
Proof. intros ->. by rewrite neq_dec_false. Qed.

(** ** Statements that succeed *)

Section Performs.
  Context {SQ : Sqlite} {L : SqliteLaws SQ} {FL : Faultless SQ}.

Lemma visible_in c p : transaction c = Some p -> visible c = p.
Proof. unfold visible. by intros ->. Qed.

(** From a transaction that sees [p], [m] succeeds with [a] and the
    transaction then sees [p']. *)
Definition performs {A} (m : sql A) (p : Contents) (a : A) (p' : Contents) : Prop :=
  forall c, transaction c = Some p ->
    exists c', m c = (c', Ok a) /\ transaction c' = Some p' /\ committed c' = committed c.

Lemma performs_bind {A B} (m : sql A) (f : A -> sql B) p a q b r :
  performs m p a q -> performs (f a) q b r -> performs (m ≫= f) p b r.
Proof.
  intros Hm Hf c Hc. destruct (Hm c Hc) as (c1 & E1 & T1 & C1). destruct (Hf c1 T1) as (c2 & E2 & T2 & C2).
  exists c2. unfold mbind, sql_bind. rewrite E1. split_and!; [done..|]. by rewrite C2.
Qed.

Lemma performs_ret {A} (a : A) p : performs (mret a) p a p.
Proof. intros c Hc. by exists c. Qed.

Lemma performs_lift {A} (a : A) p : performs (sq_lift (Ok a)) p a p.
Proof. intros c Hc. by exists c. Qed.

Lemma performs_read {A} (f : conn -> result app_error A) a p :
  (forall c, transaction c = Some p -> f c = Ok a) -> performs (sq_read f) p a p.
Proof. intros Hf c Hc. exists c. unfold sq_read. by rewrite Hf. Qed.

Lemma performs_write w p :
  admissible w p = true -> performs (sq_run (sq_write w)) p (apply_write w p).2 (apply_write w p).1.
Proof.
  intros Ha c Hc. destruct (fl_write w c p Hc Ha) as (c' & n & E).
  destruct (write_ok _ _ _ _ _ Hc E) as (C & T & ->). exists c'. unfold sq_run. by rewrite E.
Qed.

Lemma performs_for_each ws p : admitted ws p = true -> performs (sq_for_each ws) p () (exec ws p).
Proof.
  revert p. induction ws as [|w ws IH]; intros p H; cbn [sq_for_each]; [apply performs_ret|].
  cbn [admitted] in H. apply andb_true_iff in H as [Hw H].
  eapply performs_bind; [by apply performs_write|]. apply (IH _ H).
Qed.

Lemma performs_cas w e p :
  admissible w p = true -> (apply_write w p).2 = 1%Z -> performs (cas w e) p () (apply_write w p).1.
Proof.
  intros Ha Hn. unfold cas. eapply performs_bind; [by apply performs_write|]. rewrite Hn.
  rewrite neq_dec_false by done. apply performs_lift.
Qed.

Lemma performs_create : performs (sq_run sq_create_schema) empty_contents () empty_contents.
Proof.
  intros c Hc. destruct (fl_create c Hc) as (c' & E). destruct (create_ok _ _ _ Hc E) as [C T].
  exists c'. unfold sq_run. by rewrite E.
Qed.

Lemma begins c :
  transaction c = None ->
  exists c', sq_begin c = (c', Ok ()) /\ committed c' = committed c /\ transaction c' = Some (committed c).
Proof.
  intros Hc. destruct (fl_begin c Hc) as (c' & E & C). exists c'. rewrite (begin_ok _ _ E), C. done.
Qed.

Lemma rolls_back c p :
  transaction c = Some p -> exists c', sq_rollback c = (c', Ok ()) /\ committed c' = committed c /\ transaction c' = None.
Proof.
  intros Hc. destruct (fl_rollback c p Hc) as (c' & E). exists c'. by apply rollback_ok in E as H.
Qed.

(** Ending the transaction: what holds of the connection afterwards. *)
Definition ends {A} (m : sql A) (p : Contents) (a : A) (Q : conn -> Prop) : Prop :=
  forall c, transaction c = Some p -> exists c', m c = (c', Ok a) /\ Q c'.

Lemma ends_bind {A B} (m : sql A) (f : A -> sql B) p a q b Q :
  performs m p a q -> ends (f a) q b Q -> ends (m ≫= f) p b Q.
Proof.
  intros Hm Hf c Hc. destruct (Hm c Hc) as (c1 & E1 & T1 & _). destruct (Hf c1 T1) as (c2 & E2 & HQ).
  exists c2. unfold mbind, sql_bind. by rewrite E1.
Qed.

Lemma commits c p :
  transaction c = Some p -> deferred_ok p = true ->
  exists c', sq_commit c = (c', Ok ()) /\ committed c' = p /\ transaction c' = None.
Proof.
  intros Hc Hd. destruct (fl_commit c p Hc Hd) as (c' & E). exists c'. by apply (commit_ok _ _ _ Hc) in E as H.
Qed.
End Performs.

(** ** Reading a stored file back *)

Section Reads.
  Context {SQ : Sqlite} {L : SqliteLaws SQ} {FL : Faultless SQ} {KE : Keccak} {KC : K256}.
  Context (run_id : bytes) (Hdist : distinct_producers) (Hrun : label_ok run_id).

Let g := genesis_of run_id.

Lemma row_cells t row : row_ok t row = true -> cells_ok (widths_of t) 0 row = true.
Proof. unfold row_ok. rewrite columns_widths, !andb_true_iff. by intros [[_ ?] _]. Qed.

Lemma bounded_rows_ok t limit n rs :
  Forall (fun row => row_ok t row = true) rs -> (n + Z.of_nat (length rs) <= limit)%Z ->
  bounded_rows t (widths_of t) limit n rs = Ok ().
Proof.
  intros H. revert n. induction H as [|row rs Hr _ IH]; intros n Hl; [done|]. cbn [bounded_rows length] in *.
  rewrite (proj2 (Z.leb_gt _ _)) by lia. rewrite row_cells by done. cbn [fail_if negb]. rewrite !bind_of_Ok.
  apply IH. lia.
Qed.

Lemma stored_transactions_length s : audited g s -> (length (stored_transactions s) <= 3200)%nat.
Proof.
  intros H. pose proof (audited_length run_id Hdist s H) as Hl. pose proof (audited_valid _ _ H) as Hv.
  unfold stored_transactions. transitivity (16 * length (sn_records s))%nat; [|lia]. clear Hl H.
  induction Hv as [|r rs Hr _ IH]; [done|]. cbn [map concat length]. rewrite length_app.
  pose proof (cv_bound _ Hr) as Hb. unfold MAX_ENTRIES in Hb.
  assert (length (transaction_rows r) <= 16)%nat; [|lia].
  unfold transaction_rows. rewrite length_imap. unfold body_pairs. rewrite length_zip. lia.
Qed.

(** No table of a stored snapshot exceeds its row bound. *)
Lemma expected_limit s acc t : audited g s -> (Z.of_nat (length (expected g s acc t)) <= limit_of t)%Z.
Proof.
  intros H. pose proof (audited_length run_id Hdist s H) as Hl. pose proof (audited_live run_id Hdist s H) as Lv.
  pose proof (stored_transactions_length s H) as Ht. destruct (vs_sizes _ _ (lv_valid _ _ Lv)) as [Ha _].
  destruct t; cbn [expected limit_of]; unfold stored_blocks, MAX_SLOTS, MAX_ENTRIES;
    cbn [length]; rewrite ?length_map; lia.
Qed.

Lemma stored_metadata s p : stored g s p -> ct_metadata p <> [].
Proof. intros [(m & -> & _) _]. done. Qed.

Lemma stored_rows s t c :
  audited g s -> stored g s (visible c) ->
  exists acc, accounting_row (sn_state s) = Ok acc /\
    rows t (widths_of t) (limit_of t) c = Ok (expected g s acc t).
Proof.
  intros H Hst. destruct (fl_select t c (stored_metadata _ _ Hst)) as (rs & E).
  destruct Hst as [_ (acc & Hacc & Hr)]. exists acc. split; [done|]. unfold rows. rewrite E. cbn [map_err].
  rewrite bind_of_Ok. apply select_ok in E as ->. rewrite Hr.
  rewrite bounded_rows_ok, bind_of_Ok; [done|by apply expected_rows_ok|].
  pose proof (expected_limit s acc t H). lia.
Qed.

Lemma stored_policy s c : audited g s -> stored g s (visible c) -> policy g c = Ok (pos_slot (tip s)).
Proof.
  intros H Hst. destruct (fl_metadata c (stored_metadata _ _ Hst)) as (ms & E).
  destruct Hst as [(m & Em & Hm) _]. unfold policy. rewrite E. cbn [map_err]. rewrite bind_of_Ok.
  apply metadata_ok in E as ->. rewrite Em. destruct Hm as [-> -> -> -> Hb ->].
  rewrite Hb. rewrite !neq_dec_false by done. cbn [orb fail_if]. rewrite !bind_of_Ok. f_equal.
  apply u64_cell_val. destruct (audited_slots run_id s H) as [-> _].
  pose proof (audited_length run_id Hdist s H). unfold in_width. lia.
Qed.

Lemma check_tables_stored s acc ts c :
  audited g s -> stored g s (visible c) -> accounting_row (sn_state s) = Ok acc ->
  check_tables g s acc ts c = Ok ().
Proof.
  intros H Hst Hacc. induction ts as [|t ts IH]; [done|]. cbn [check_tables].
  destruct (stored_rows s t c H Hst) as (acc' & Ha & ->). rewrite Hacc in Ha. injection Ha as <-.
  by rewrite bind_of_Ok, fail_if_same, bind_of_Ok.
Qed.

(** [verify] accepts the snapshot that is stored. *)
Lemma verify_complete s c :
  audited g s -> stored g s (visible c) -> enforced (visible c) -> verify g s c = Ok ().
Proof.
  intros H Hst He. unfold verify. rewrite (fl_schema c (stored_metadata _ _ Hst) He), bind_of_Ok.
  rewrite (stored_policy s c H Hst), bind_of_Ok, fail_if_same, bind_of_Ok by done.
  destruct (stored_rows s TTransactions c H Hst) as (acc & Hacc & Et).
  rewrite Hacc, bind_of_Ok, check_tables_stored, bind_of_Ok by done.
  cbn [widths_of limit_of expected] in Et. by rewrite Et, bind_of_Ok, fail_if_same.
Qed.

(** The audit reads back the snapshot that is stored. *)
Lemma audit_reads_stored s c :
  audited g s -> stored g s (visible c) -> enforced (visible c) -> audit_reads g c = Ok s.
Proof.
  intros H Hst He. unfold audit_reads. rewrite (fl_schema c (stored_metadata _ _ Hst) He), bind_of_Ok.
  rewrite (stored_policy s c H Hst), bind_of_Ok. pose proof (audited_length run_id Hdist s H) as Hl.
  destruct (audited_slots run_id s H) as [Ht _].
  rewrite (proj2 (Z.ltb_ge _ _)) by (unfold MAX_SLOTS; lia). cbn [fail_if]. rewrite bind_of_Ok.
  destruct (stored_rows s TBlocks c H Hst) as (acc & Hacc & Eb). cbn [widths_of limit_of expected] in Eb.
  destruct (stored_rows s TTransactions c H Hst) as (acc' & _ & Et). cbn [widths_of limit_of expected] in Et.
  pose proof (replay_stored run_id Hdist s H) as Hr. fold g in Hr.
  rewrite Eb, bind_of_Ok, Et, bind_of_Ok, Hr, bind_of_Ok.
  by rewrite fail_if_same, bind_of_Ok, verify_complete, bind_of_Ok.
Qed.

Lemma audit_stored s c :
  audited g s -> stored g s (committed c) -> enforced (committed c) -> transaction c = None ->
  exists c', audit g c = (c', Ok s) /\ committed c' = committed c /\ transaction c' = None.
Proof.
  intros H Hst He Hc. destruct (begins c Hc) as (c1 & E1 & C1 & T1).
  destruct (rolls_back c1 _ T1) as (c2 & E2 & C2 & T2). exists c2. unfold audit. rewrite E1.
  rewrite audit_reads_stored with (s := s); try done; [|by rewrite (visible_in _ _ T1)..].
  rewrite E2. cbn [map_err]. rewrite !bind_of_Ok. by rewrite C2, C1.
Qed.
End Reads.

(** ** Statements on other tables *)

(** The statement inserts into or upserts a table other than [t]. *)
Definition elsewhere (t : table) (w : write) : Prop :=
  match w with Insert t' _ | Upsert t' _ => t' <> t | _ => False end.

Lemma exec_elsewhere t ws p :
  Forall (elsewhere t) ws -> ct_metadata (exec ws p) = ct_metadata p /\ ct_rows (exec ws p) t = ct_rows p t.
Proof.
  intros H. revert p. induction H as [|w ws Hw _ IH]; intros p; [done|].
  destruct (IH (apply_write w p).1) as [E1 E2]. unfold exec in *. cbn [foldl]. rewrite E1, E2.
  destruct w; try done; cbn in *; by rewrite decide_False.
Qed.

Section Progress.
  Context {SQ : Sqlite} {L : SqliteLaws SQ} {FL : Faultless SQ} {KE : Keccak} {KC : K256}.
  Context (describe : app_error -> string) (run_id : bytes) (Hdist : distinct_producers) (Hrun : label_ok run_id).

Let g := genesis_of run_id.

Lemma performs_accounts st p :
  admitted (map (Upsert TAccounts) (map account_row (s_accounts (cs_data st)))) p = true ->
  performs (write_accounts st) p ()
    (exec (map (Upsert TAccounts) (map account_row (s_accounts (cs_data st)))) p).
Proof. rewrite map_map. apply performs_for_each. Qed.

Lemma performs_accounting st row p :
  accounting_row st = Ok row -> admissible (Upsert TAccounting row) p = true ->
  performs (write_accounting st) p () (apply_write (Upsert TAccounting row) p).1.
Proof.
  intros E Ha. unfold write_accounting. rewrite E. eapply performs_bind; [apply performs_lift|].
  eapply performs_bind; [by apply performs_write|]. apply performs_ret.
Qed.

Lemma performs_one w p : admissible w p = true -> performs (sq_for_each [w]) p () (apply_write w p).1.
Proof. intros H. apply (performs_for_each [w]). cbn [admitted]. by rewrite H. Qed.

(** The two compare-and-swaps of an append each change one row. *)
Lemma append_counts base next p ws :
  stored g base p -> Forall (elsewhere TCanonicalTip) ws ->
  let revision := UpdateRevision (u64_cell (pos_slot (tip next))) (u64_cell (pos_slot (tip base))) in
  (apply_write revision (exec ws p)).2 = 1%Z /\
  (apply_write (UpdateTip (tip_row (tip next)) (tip_row (tip base))) (apply_write revision (exec ws p)).1).2 = 1%Z.
Proof.
  intros [(m & Em & Hm) (acc & _ & Hr)] Hws. cbv zeta.
  destruct (exec_elsewhere TCanonicalTip ws p Hws) as [E1 E2].
  cbn [apply_write fst snd ct_rows]. rewrite E1, E2, Em, Hr. cbn [expected].
  rewrite !filter_cons_True by (done || apply Hm). done.
Qed.

(** The closure of [commit] runs to its end. *)
Lemma commit_writes_perform base r next p :
  audited g base -> appends g base r -> Snapshot_insert base r = Ok next -> stored g base p -> enforced p ->
  digest_clash next \/ exists p', performs (commit_writes g base next r) p () p' /\ enforced p' /\ stored g next p'.
Proof.
  intros Hb Ha Hi Hst He. assert (audited g next) as Hn by (by eapply audited_append).
  destruct (accounting_total run_id Hdist next Hn) as (acc & Hacc).
  destruct (append_admitted run_id Hdist Hrun base r next p acc Hb Ha Hi Hst Hacc) as [?|[Had He']]; [by left|right].
  exists (exec (append_list base next r acc) p). split_and!; [|done|by apply (append_list_stored run_id Hdist)].
  unfold append_list in *. rewrite !admitted_app, !andb_true_iff in Had. rewrite !exec_app.
  destruct Had as (A1 & A2 & A3 & A4). cbn [admitted] in A2, A4. rewrite !andb_true_iff in A2. rewrite !andb_true_iff in A4.
  destruct A2 as (B1 & B2 & B3 & _). destruct A4 as (D1 & D2 & D3 & D4 & _).
  unfold commit_writes.
  eapply performs_bind.
  { apply (performs_read _ ()). intros c Hc.
    assert (verify g base c = Ok ()) as ->; [|done].
    apply (verify_complete run_id Hdist); [done|by rewrite (visible_in _ _ Hc)..]. }
  eapply performs_bind; [by apply performs_accounts|]. eapply performs_bind; [by apply performs_accounting|].
  do 2 (eapply performs_bind; [by apply performs_one|]).
  eapply performs_bind; [by apply performs_for_each|].
  do 2 (eapply performs_bind; [by apply performs_one|]).
  set (ws := map (Upsert TAccounts) (map account_row (s_accounts (cs_data (sn_state next)))) ++
    [Upsert TAccounting acc; Insert TBlocks (block_row r); Insert TBodies (body_row r)] ++
    map (Insert TTransactions) (transaction_rows r) ++
    [Insert TRewards (reward_row r); Insert TStates (state_row (sn_state next))]).
  assert (Forall (elsewhere TCanonicalTip) ws) as Hws.
  { unfold ws. rewrite !Forall_app. split_and!; repeat constructor; try done;
      by apply Forall_fmap, Forall_forall. }
  destruct (append_counts base next p ws Hst Hws) as [C1 C2]. unfold ws in C1, C2. rewrite !exec_app in C1.
  rewrite !exec_app in C2. eapply performs_bind; [by apply performs_cas|]. by apply performs_cas.
Qed.

(** ** Committing *)

Lemma commit_progress o c stage next :
  committable run_id o stage next -> transaction c = None ->
  stored g (ow_snapshot o) (committed c) ->
  digest_clash next \/ exists c',
    commit describe o c stage = (set_snapshot o next, c',
      Committed (tip next) (C1Envelope_id (ae_envelope (br_proof (sb_record stage)))) (br_outcome (sb_record stage))) /\
    stored g next (committed c') /\ enforced (committed c') /\ transaction c' = None.
Proof.
  intros [Ho Hat Hbase Happ Hnext] Hc Hst.
  destruct (stored_enforced run_id Hdist Hrun _ _ (lo_audited _ _ Ho) Hst) as [Hcl|He];
    [left; by eapply clash_grows|].
  destruct (commit_writes_perform _ _ _ _ (lo_audited _ _ Ho) Happ Hnext Hst He) as [?|(p' & Hp & He' & Hst')];
    [by left|right].
  destruct (begins c Hc) as (c1 & E1 & C1 & T1). destruct (Hp c1 T1) as (c2 & E2 & T2 & C2).
  destruct (commits c2 p' T2 (ef_deferred _ He')) as (c3 & E3 & C3 & T3).
  exists c3. rewrite C3. split_and!; [|done..]. unfold commit. cbv zeta.
  rewrite Hbase, (check_owner_base run_id o Ho).
  rewrite bind_of_Ok, Hnext, E1. cbn [set_attempt ow_genesis]. rewrite (lo_genesis _ _ Ho).
  cbn [owner_base bs_snapshot]. fold g. rewrite E2, E3. by destruct o; simpl in *; subst.
Qed.

(** ** Creating *)

(** The durability counter can still be raised. *)
Definition barrier_below (p : Contents) : Prop :=
  Forall (fun m => (be_val (md_barrier m) < U64 - 1)%Z) (ct_metadata p).

Lemma initial_barrier acc : barrier_below (exec (initial_list run_id acc) empty_contents).
Proof.
  unfold initial_list. rewrite !exec_app. unfold barrier_below. cbn [exec foldl apply_write fst ct_metadata set_rows].
  match goal with |- context [exec (map (Upsert TAccounts) ?new) ?p] =>
    destruct (exec_upserts TAccounts new p) as [M _]; rewrite M end.
  constructor; [|constructor]. vm_compute. reflexivity.
Qed.

Lemma initialize_perform :
  exists p, performs (initialize g) empty_contents () p /\ enforced p /\ stored g (Snapshot_initial g) p /\
    barrier_below p.
Proof.
  destruct (accounting_total run_id Hdist (Snapshot_initial g) (audited_initial _)) as (acc & Hacc).
  destruct (initial_admitted run_id Hdist Hrun acc Hacc) as [Had He].
  exists (exec (initial_list run_id acc) empty_contents). split_and!; [|done|by apply initial_list_stored|apply initial_barrier].
  unfold initial_list in *. rewrite !admitted_app, !andb_true_iff in Had. rewrite !exec_app. fold g in Had |- *.
  destruct Had as (A1 & A2 & A3). cbn [admitted] in A1, A3. rewrite !andb_true_iff in A1.
  rewrite !andb_true_iff in A3. destruct A1 as (B1 & B2 & _). destruct A3 as (D1 & D2 & D3 & D4 & _).
  unfold initialize. eapply performs_bind; [apply performs_create|].
  do 2 (eapply performs_bind; [by apply performs_write|]).
  eapply performs_bind; [by apply performs_accounts|]. eapply performs_bind; [by apply performs_accounting|].
  eapply performs_bind; [by apply performs_one|].
  do 2 (eapply performs_bind; [by apply performs_write|]). apply performs_ret.
Qed.

Lemma create_progress c n :
  transaction c = None -> committed c = empty_contents ->
  exists c', create_inner describe g (Ok ()) (Ok c) (Ok ()) (Ok n) =
      (Some c', Ok (fresh_owner g (Snapshot_initial g) n)) /\
    stored g (Snapshot_initial g) (committed c') /\ barrier_below (committed c') /\ transaction c' = None.
Proof.
  intros Hc He. destruct initialize_perform as (p & Hp & Hep & Hst & Hlow).
  destruct (begins c Hc) as (c1 & E1 & C1 & T1). rewrite He in T1. destruct (Hp c1 T1) as (c2 & E2 & T2 & C2).
  destruct (commits c2 p T2 (ef_deferred _ Hep)) as (c3 & E3 & C3 & T3). exists c3. rewrite C3.
  split_and!; [|done..]. unfold create_inner. rewrite bind_of_Ok, E1, E2, E3. cbn [map_err]. by rewrite !bind_of_Ok.
Qed.

(** ** Reopening *)

Lemma barrier_perform s c :
  audited g s -> stored g s (committed c) -> enforced (committed c) -> barrier_below (committed c) ->
  transaction c = None ->
  exists c', barrier describe (Ok ()) g s c = (c', Ok ()) /\ stored g s (committed c') /\ transaction c' = None.
Proof.
  intros H Hst He Hlow Hc. destruct (begins c Hc) as (c1 & E1 & C1 & T1). unfold barrier. rewrite E1.
  generalize dependent (committed c). intros p Hst He Hlow C1 T1. destruct (so_policy _ _ _ Hst) as (m & Em & Hm).
  unfold barrier_below in Hlow. rewrite Em in Hlow. apply Forall_cons in Hlow as [Hlow _].
  set (w := UpdateBarrier (u64_cell (be_val (md_barrier m) + 1)) (md_barrier m)).
  assert (stored g s (apply_write w p).1) as Hst'
    by (apply (stored_barrier run_id); [apply length_be_bytes|done]).
  assert (enforced (apply_write w p).1) as He'.
  { constructor; [apply admissible_conforms; [apply He|]|apply (ef_deferred _ He)].
    apply (barrier_admissible run_id Hrun s); [done|apply length_be_bytes]. }
  match goal with |- context [let '(_, _) := ?body c1 in _] =>
    assert (ends body p () (fun c' => committed c' = (apply_write w p).1 /\ transaction c' = None)) as Hw end.
  { eapply ends_bind.
    { apply performs_read. intros c' Hc'. apply (verify_complete run_id Hdist); [done|by rewrite (visible_in _ _ Hc')..]. }
    eapply ends_bind.
    { apply (performs_read _ [m]). intros c' Hc'.
      destruct (fl_metadata c') as (ms & E); [by rewrite (visible_in _ _ Hc'), Em|]. rewrite E. cbn.
      apply metadata_ok in E. by rewrite E, (visible_in _ _ Hc'), Em. }
    cbn [head fmap option_fmap option_map]. rewrite ok_or_of_Some. eapply ends_bind; [apply performs_lift|].
    unfold checked_add. rewrite (proj2 (Z.ltb_lt _ _)) by lia. rewrite ok_or_of_Some.
    eapply ends_bind; [apply performs_lift|]. eapply ends_bind.
    { apply performs_cas.
      - apply (barrier_admissible run_id Hrun s); [done|apply length_be_bytes].
      - cbn. rewrite Em. by rewrite filter_cons_True. }
    intros c2 T2. destruct (commits c2 _ T2 (ef_deferred _ He')) as (c3 & E3 & C3 & T3). exists c3.
    unfold mbind, sql_bind, sq_run. by rewrite E3. }
  destruct (Hw c1 T1) as (c3 & E3 & C3 & T3). exists c3. rewrite E3, C3. done.
Qed.

(** A stored file that still counts its barriers is audited and made durable. *)
Lemma reopen_perform s c :
  audited g s -> stored g s (committed c) -> barrier_below (committed c) -> transaction c = None ->
  digest_clash s \/ exists c1 c2, audit g c = (c1, Ok s) /\ barrier describe (Ok ()) g s c1 = (c2, Ok ()) /\
    stored g s (committed c2) /\ transaction c2 = None.
Proof.
  intros H Hst Hlow Hc. destruct (stored_enforced run_id Hdist Hrun s _ H Hst) as [?|He]; [by left|right].
  destruct (audit_stored run_id Hdist s c H Hst He Hc) as (c1 & E1 & C1 & T1).
  destruct (barrier_perform s c1) as (c2 & E2 & S2 & T2); try done; [by rewrite C1..|]. by exists c1, c2.
Qed.

Lemma load_progress s c n :
  audited g s -> stored g s (committed c) -> barrier_below (committed c) -> transaction c = None ->
  digest_clash s \/ exists c', load describe g (Ok c) (Ok ()) (Ok n) = (Some c', Ok (fresh_owner g s n)) /\
    stored g s (committed c') /\ transaction c' = None.
Proof.
  intros H Hst Hlow Hc. destruct (reopen_perform s c H Hst Hlow Hc) as [?|(c1 & c2 & E1 & E2 & S2 & T2)];
    [by left|right]. exists c2. split_and!; [|done..]. unfold load. by rewrite E1, E2.
Qed.

(** ** Recovering *)

(** What the file may hold when an owner must recover, and what the report
    then says of the attempt. *)
Inductive recoverable (o : Owner) : Snapshot -> option bool -> Prop :=
| rc_idle : ow_attempt o = None -> recoverable o (ow_snapshot o) None
| rc_absent a : ow_attempt o = Some a -> recoverable o (bs_snapshot (at_base a)) (Some false)
| rc_present a next :
    ow_attempt o = Some a -> Snapshot_insert (bs_snapshot (at_base a)) (at_record a) = Ok next ->
    recoverable o next (Some true).

Lemma last_record_state s :
  audited g s -> (0 < length (sn_records s))%nat ->
  br_state <$> sn_records s !! (length (sn_records s) - 1)%nat = Some (sn_state s).
Proof.
  intros H Hl. pose proof (audited_state run_id s H) as E. rewrite last_lookup in E.
  replace (length (sn_records s) - 1)%nat with (pred (length (sn_records s))) by lia.
  destruct (sn_records s !! pred (length (sn_records s))) eqn:Er; [by rewrite E|].
  apply lookup_ge_None in Er. lia.
Qed.

(** The base of an attempt is found in any snapshot that continues it. *)
Lemma base_matches base (s : Snapshot) rest :
  audited g base -> sn_records s = sn_records base ++ rest ->
  ((length (sn_records s) <? length (sn_records base))%nat ||
   (take (length (sn_records base)) (sn_records s) !=? sn_records base) ||
   ((0 <? length (sn_records base))%nat &&
    ((br_state <$> sn_records s !! (length (sn_records base) - 1)%nat) !=? Some (sn_state base)))) = false.
Proof.
  intros H E. rewrite E, length_app, take_app_length, neq_dec_false by done.
  rewrite (proj2 (Nat.ltb_ge _ _)) by lia. cbn [orb]. apply andb_false_iff.
  destruct (Nat.ltb_spec 0 (length (sn_records base))) as [Hl|]; [right|by left].
  rewrite lookup_app_l by lia. apply neq_dec_false. by apply last_record_state.
Qed.

Lemma reconcile_progress o c0 s present :
  node_ok run_id o c0 -> recoverable o s present ->
  reconcile_attempt (ow_attempt o) (ow_snapshot o) s = Ok present.
Proof.
  intros N [Ha|a Ha|a next Ha Hi]; rewrite Ha; unfold reconcile_attempt, starts_with.
  - rewrite take_ge, bool_decide_eq_true_2 by done. rewrite (neq_dec_false (ow_snapshot o)) by done.
    by rewrite andb_false_r.
  - destruct (no_attempt _ _ _ N a Ha) as [Hb _]. cbv zeta.
    rewrite (base_matches _ _ []) by (done || by rewrite app_nil_r). cbn [fail_if]. rewrite bind_of_Ok.
    rewrite (proj2 (lookup_ge_None _ _)) by lia. by rewrite bool_decide_eq_true_2.
  - destruct (no_attempt _ _ _ N a Ha) as [Hb _]. pose proof (insert_shape _ _ _ Hi) as (_ & Er & _). cbv zeta.
    rewrite (base_matches _ _ _ Hb Er). cbn [fail_if]. rewrite bind_of_Ok, Er, lookup_app_r, Nat.sub_diag by lia.
    cbn. by rewrite fail_if_same, bind_of_Ok.
Qed.

Lemma recoverable_audited o c0 s present : node_ok run_id o c0 -> recoverable o s present -> audited g s.
Proof.
  intros N [Ha|a Ha|a next Ha Hi]; [apply N|by apply (no_attempt _ _ _ N a Ha)|].
  destruct (no_attempt _ _ _ N a Ha) as [Hb Happ]. by eapply audited_append.
Qed.

Lemma recover_progress o c0 s present c n :
  node_ok run_id o c0 -> recoverable o s present ->
  stored g s (committed c) -> barrier_below (committed c) -> transaction c = None ->
  digest_clash s \/ exists c',
    recover describe o c0 (Ok n) (Ok c) (Ok ()) =
      (mk_owner g s n false (ow_halted o) None, Some c', Ok (mk_report (tip s) present)) /\
    stored g s (committed c') /\ transaction c' = None.
Proof.
  intros N R Hst Hlow Hc. pose proof (recoverable_audited _ _ _ _ N R) as H.
  destruct (reopen_perform s c H Hst Hlow Hc) as [?|(c1 & c2 & E1 & E2 & S2 & T2)]; [by left|right].
  exists c2. split_and!; [|done..]. unfold recover.
  cbn [set_poisoned set_generation ow_genesis ow_attempt ow_snapshot]. rewrite (no_genesis _ _ _ N). fold g.
  rewrite E1, bind_of_Ok, (reconcile_progress o c0 s present N R), bind_of_Ok, E2.
  unfold set_poisoned, set_attempt, set_snapshot, set_generation. cbn. by rewrite (no_genesis _ _ _ N).
Qed.

(** ** The signing view *)

Lemma signing_view_progress o c pb :
  live_owner run_id o -> pb_base pb = owner_base o -> stored g (ow_snapshot o) (committed c) ->
  transaction c = None ->
  digest_clash (ow_snapshot o) \/ exists c',
    signing_view o pb c = (c', owner_slot_start o) /\ committed c' = committed c /\ transaction c' = None.
Proof.
  intros Ho Hb Hst Hc. pose proof (lo_audited _ _ Ho) as H.
  destruct (stored_enforced run_id Hdist Hrun _ _ H Hst) as [?|He]; [by left|right].
  destruct (begins c Hc) as (c1 & E1 & C1 & T1). destruct (rolls_back c1 _ T1) as (c2 & E2 & C2 & T2).
  exists c2. rewrite C2, C1. split_and!; [|done..]. unfold signing_view.
  rewrite Hb, (check_owner_base run_id o Ho), E1, E2, (lo_genesis _ _ Ho). cbv zeta. fold g.
  assert (verify g (ow_snapshot o) c1 = Ok ()) as ->; [|done].
  apply (verify_complete run_id Hdist); [done|by rewrite (visible_in _ _ T1)..].
Qed.
End Progress.

(** ** An engine that enforces the schema *)

(** The second component is the open transaction. *)
Definition strict_sqlite : Sqlite := {|
  conn := Contents * option Contents;
  committed := fst;
  transaction := snd;
  sq_begin c := match c.2 with
    | None => ((c.1, Some c.1), Ok ())
    | Some _ => (c, Err "cannot start a transaction within a transaction") end;
  sq_commit c := match c.2 with
    | None => (c, Err "no transaction is active")
    | Some p => if deferred_ok p then ((p, None), Ok ()) else (c, Err "FOREIGN KEY constraint failed") end;
  sq_rollback c := match c.2 with
    | None => (c, Err "no transaction is active")
    | Some _ => ((c.1, None), Ok ()) end;
  sq_create_schema c := match ct_metadata (mem_view c) with
    | [] => (c, Ok ())
    | _ => (c, Err "table metadata already exists") end;
  sq_write w c := match c.2 with
    | None => (c, Err "no transaction is active")
    | Some p => if admissible w p then ((c.1, Some (apply_write w p).1), Ok (apply_write w p).2)
                else (c, Err "constraint failed") end;
  sq_metadata c := Ok (ct_metadata (mem_view c));
  sq_select t c := Ok (ct_rows (mem_view c) t);
  sq_schema c := match ct_metadata (mem_view c) with
    | [] => Err (AppError.Storage StoreError.Uninitialized)
    | _ => Ok () end
|}.

#[export] Instance strict_sqlite_laws : SqliteLaws strict_sqlite.
Proof.
  constructor; unfold visible; cbn - [deferred_ok admissible apply_write]; unfold mem_view.
  - intros [p [q|]] c'; [by intros [=]|by intros [= <-]].
  - intros [p [q|]] c' e; [by intros [= <- _]|by intros [=]].
  - intros [p [q|]] c' r; cbn - [deferred_ok admissible apply_write]; [|done]. intros [= <-]. destruct (deferred_ok q); [by intros [= <-]|by intros [=]].
  - intros [p [q|]] c' r e; cbn - [deferred_ok admissible apply_write]; [|done]. intros [= <-]. destruct (deferred_ok q); [by intros [=]|].
    intros [= <- _]. by left.
  - intros [p [q|]] c'; [by intros [= <-]|by intros [=]].
  - intros [p [q|]] c' e; [by intros [=]|by intros [= <- _]].
  - intros [p [q|]] c' r; cbn - [deferred_ok admissible apply_write]; [|done]. intros [= <-]. destruct (ct_metadata q); [by intros [= <-]|by intros [=]].
  - intros [p [q|]] c' r e; cbn - [deferred_ok admissible apply_write]; [|done]. intros [= <-]. destruct (ct_metadata q); [by intros [=]|by intros [= <- _]].
  - intros w [p [q|]] c' r n; cbn - [deferred_ok admissible apply_write]; [|done]. intros [= <-].
    destruct (admissible w q); [by intros [= <- <-]|by intros [=]].
  - intros w [p [q|]] c' r e; cbn - [deferred_ok admissible apply_write]; [|done]. intros [= <-].
    destruct (admissible w q); [by intros [=]|]. intros [= <- _]. auto.
  - by intros c ms [= <-].
  - by intros t c rs [= <-].
Qed.

#[export] Instance strict_sqlite_faultless : Faultless strict_sqlite.
Proof.
  constructor; unfold visible; cbn - [deferred_ok admissible apply_write]; unfold mem_view.
  - intros [p [q|]]; [done|]. intros _. by eexists.
  - intros w [p [q|]] r; cbn - [deferred_ok admissible apply_write]; [|done]. intros [= <-] ->. by do 2 eexists.
  - intros [p [q|]] r; cbn - [deferred_ok admissible apply_write]; [|done]. intros [= <-] ->. by eexists.
  - intros [p [q|]] r; cbn - [deferred_ok admissible apply_write]; [|done]. intros _. by eexists.
  - intros [p [q|]]; cbn - [deferred_ok admissible apply_write]; [|done]. intros [= ->]. by eexists.
  - intros c _. by eexists.
  - intros t c _. by eexists.
  - intros [p [q|]]; cbn - [deferred_ok admissible apply_write]; destruct (ct_metadata _); done.
Qed.

Definition strict_empty : @conn strict_sqlite := (empty_contents, None).

(** ** Properties *)

(** A sealed record carries the prepared outcome. *)
Lemma seal_outcome `{Keccak} `{K256} o pb bs o' st :
  seal_prepared o pb bs = (o', Ok st) -> br_outcome (sb_record st) = pb_outcome pb.
Proof.
  unfold seal_prepared. destruct (_ ≫= _) as [proof|]; [|done].
  destruct (owner_admit o proof) as [o1 [[]|]]; [|done]. rewrite bind_of_Ok. by intros [= _ <-].
Qed.

Section LiveProperties.
  Context {SQ : Sqlite} {L : SqliteLaws SQ} {FL : Faultless SQ} {KE : Keccak} {KC : K256}.
  Context (describe : app_error -> string) (run_id : bytes).

Let g := genesis_of run_id.

(** C14: a staged block is committed.  When the engine refuses nothing but
    constraint violations and the file stores the owner's snapshot, [commit]
    of a staged record reports [Committed] with its position and evidence id,
    the owner moves to the next snapshot and the file stores exactly that
    snapshot, unless two messages of the new history have one digest.  No
    check of the base, of the schema or of the two compare-and-swaps fails. *)
Theorem commit_succeeds o c stage next :
  distinct_producers -> label_ok run_id -> committable run_id o stage next ->
  transaction c = None -> stored g (ow_snapshot o) (committed c) ->
  digest_clash next \/ exists c',
    commit describe o c stage = (set_snapshot o next, c',
      Committed (tip next) (C1Envelope_id (ae_envelope (br_proof (sb_record stage)))) (br_outcome (sb_record stage))) /\
    stored g next (committed c') /\ transaction c' = None.
Proof.
  intros Hd Hl Hcm Hc Hst.
  destruct (commit_progress describe run_id Hd Hl o c stage next Hcm Hc Hst) as [?|(c' & ? & ? & _ & ?)]; eauto.
Qed.

(** Recovery always finishes.  Whatever the failed commit left in the file
    (the attempted base, or the base with the whole attempt; the owner's own
    snapshot when nothing was attempted), [recover] on a working engine
    returns an owner that is no longer blocked, holds exactly the stored
    snapshot under the new generation, and reports truthfully whether the
    attempt is present. *)
Theorem recovery_succeeds o c0 s present c n :
  distinct_producers -> label_ok run_id -> node_ok run_id o c0 -> recoverable o s present ->
  stored g s (committed c) -> barrier_below (committed c) -> transaction c = None ->
  digest_clash s \/ exists c',
    recover describe o c0 (Ok n) (Ok c) (Ok ()) =
      (mk_owner g s n false (ow_halted o) None, Some c', Ok (mk_report (tip s) present)) /\
    stored g s (committed c') /\ transaction c' = None.
Proof. intros Hd Hl. by apply recover_progress. Qed.

(** C15: a file that is written can be read.  Creating a store in an empty file
    succeeds and stores the genesis snapshot; reopening any file that stores
    an audited snapshot audits and replays all of it and yields an owner with
    exactly that snapshot, as long as the durability counter can be raised. *)
Theorem reopen_exact s c e n :
  distinct_producers -> label_ok run_id -> audited g s ->
  stored g s (committed c) -> barrier_below (committed c) -> transaction c = None ->
  transaction e = None -> committed e = empty_contents ->
  (exists e', create_inner describe g (Ok ()) (Ok e) (Ok ()) (Ok n) =
      (Some e', Ok (fresh_owner g (Snapshot_initial g) n)) /\
    stored g (Snapshot_initial g) (committed e') /\ transaction e' = None) /\
  (digest_clash s \/ exists c',
    load describe g (Ok c) (Ok ()) (Ok n) = (Some c', Ok (fresh_owner g s n)) /\
    stored g s (committed c') /\ transaction c' = None).
Proof.
  intros Hd Hl H Hst Hlow Hc He Hemp. split; [|by apply load_progress].
  destruct (create_progress describe run_id Hd Hl e n He Hemp) as (e' & ? & ? & _ & ?). eauto.
Qed.
(** The digests that would have to collide for a prepared block not to be
    committed: its header's with a committed one's, or those of two messages of
    the extended history. *)
Definition block_clash (s : Snapshot) (block : C1Block) : Prop :=
  (exists r, r ∈ sn_records s /\ header_collision (header_of r)
     (mk_historical (hc_header (cb_claim block)) (C1Block_hash block))) \/
  (exists r next, br_block r = block /\ Snapshot_insert s r = Ok next /\ digest_clash next).

(** C13: a prepared block reaches every owner.  Take two owners at the same
    snapshot, each with a file that stores it: when one prepared a block and
    any packet carries that block under an authenticated signature, sealing
    and committing at the producer and staging and committing at the receiver
    all succeed, and both owners and both files end with the same next
    snapshot, unless digests of concrete messages collide. *)
Theorem block_replicated o c o2 c2 producer ticket body pb bs proof :
  distinct_producers -> label_ok run_id -> live_owner run_id o -> live_owner run_id o2 ->
  ow_snapshot o2 = ow_snapshot o -> ow_attempt o = None -> ow_attempt o2 = None ->
  transaction c = None -> transaction c2 = None ->
  stored g (ow_snapshot o) (committed c) -> stored g (ow_snapshot o) (committed c2) ->
  prepare_next o producer ticket body = Ok pb ->
  open_envelope g bs = Ok proof -> ce_block (ae_envelope proof) = pb_block pb ->
  block_clash (ow_snapshot o) (pb_block pb) \/
  exists r next c' c2', br_block r = pb_block pb /\ Snapshot_insert (ow_snapshot o) r = Ok next /\
    seal_prepared o pb bs = (o, Ok (mk_staged (owner_base o) r)) /\
    stage_received o2 bs = (o2, Ok (mk_staged (owner_base o2) r)) /\
    commit describe o c (mk_staged (owner_base o) r) = (set_snapshot o next, c',
      Committed (tip next) (C1Envelope_id (ae_envelope (br_proof r))) (br_outcome r)) /\
    commit describe o2 c2 (mk_staged (owner_base o2) r) = (set_snapshot o2 next, c2',
      Committed (tip next) (C1Envelope_id (ae_envelope (br_proof r))) (br_outcome r)) /\
    stored g next (committed c') /\ stored g next (committed c2').
Proof.
  intros Hd Hl Ho Ho2 Es Ha Ha2 Hc Hc2 Hst Hst2 Hp Hopen Hblk.
  destruct (prepared_agree run_id o producer ticket body pb bs proof Hd Ho Hp Hopen Hblk)
    as [?|(r & Hseal & Happ & Eb & Hrecv)]; [by left; left|].
  destruct (prepare_next_ok _ _ _ _ _ _ Ho Hp) as (_ & view & sel & native & rec & P & _).
  destruct (audited_has_prefix run_id Hd _ (lo_audited _ _ Ho)) as [px A].
  destruct (appends_facts _ _ _ _ A Happ) as (_ & _ & _ & _ & _ & _ & _ & _ & Hids & _).
  pose proof (pr_check _ _ _ _ _ _ _ _ P) as Hck. rewrite <- (pr_outcome _ _ _ _ _ _ _ _ P), <- Eb in Hck.
  pose proof (seal_outcome _ _ _ _ _ Hseal) as Eo. cbn [sb_record] in Eo. rewrite Eo in Hids.
  apply (checked_insert run_id Hd _ r _ (lo_audited _ _ Ho) Happ Hids) in Hck as (next & Hi).
  assert (committable run_id o (mk_staged (owner_base o) r) next) as C1 by (by constructor).
  assert (committable run_id o2 (mk_staged (owner_base o2) r) next) as C2 by (constructor; cbn; by rewrite ?Es).
  destruct (commit_progress describe run_id Hd Hl o c _ next C1 Hc Hst) as [Hcl|(c' & E1 & S1 & _)];
    [left; right; eauto|].
  destruct (commit_progress describe run_id Hd Hl o2 c2 _ next C2 Hc2) as [Hcl|(c2' & E2 & S2 & _)];
    [by rewrite Es|left; right; eauto|].
  right. exists r, next, c', c2'. split_and!; try done. by apply Hrecv.
Qed.
End LiveProperties.

(** ** Examples on the strict engine *)

Lemma strict_created : exists c,
  @create_inner strict_sqlite toy_keccak toy_describe toy_genesis (Ok ()) (Ok strict_empty) (Ok ()) (Ok 1%Z) =
    (Some c, Ok toy_owner) /\
  @stored toy_keccak toy_genesis (Snapshot_initial toy_genesis) (@committed strict_sqlite c) /\
  barrier_below (@committed strict_sqlite c) /\ @transaction strict_sqlite c = None.
Proof.
  destruct (@create_progress strict_sqlite _ _ toy_keccak toy_k256 toy_describe (str "run-1") toy_distinct toy_label
    strict_empty 1 eq_refl eq_refl) as (c & E & Hst & Hlow & Ht). exists c.
  split_and!; [exact E|exact Hst|exact Hlow|exact Ht].
Qed.

(** One record clashes with genesis only through its header hash. *)
Lemma first_clash `{Keccak} g r next :
  BlockHeader_hash genesis_anchor <> C1Block_hash (br_block r) ->
  Snapshot_insert (Snapshot_initial g) r = Ok next -> ~ digest_clash next.
Proof.
  intros Hne Hi. pose proof (insert_shape _ _ _ Hi) as (_ & Er & _).
  unfold digest_clash, snapshot_headers, snapshot_envelopes. rewrite Er. cbn [map app sn_records Snapshot_initial].
  intros [(a & b & Ha & Hb & [Hd E])|(a & b & Ha & Hb & [Hd E])].
  - set_unfold in Ha. set_unfold in Hb. destruct Ha as [-> |[-> |[]]], Hb as [-> |[-> |[]]]; try done.
  - apply list_elem_of_singleton in Ha as ->. by apply list_elem_of_singleton in Hb as ->.
Qed.

(** The first block of the example run. *)
Lemma toy_first_hash pb :
  @prepare_next toy_keccak toy_k256 toy_owner (str "trial-A") 1 [] = Ok pb ->
  @BlockHeader_hash toy_keccak (@genesis_anchor toy_keccak) <> @C1Block_hash toy_keccak (pb_block pb).
Proof.
  assert (match @prepare_next toy_keccak toy_k256 toy_owner (str "trial-A") 1 [] with
    | Ok pb => @BlockHeader_hash toy_keccak (@genesis_anchor toy_keccak) ==? @C1Block_hash toy_keccak (pb_block pb)
    | Err _ => true end = false) as H by (vm_compute; reflexivity).
  destruct (@prepare_next toy_keccak toy_k256 toy_owner (str "trial-A") 1 []) as [pb0|]; [|discriminate H].
  intros E. injection E as <-. by apply bool_decide_eq_false in H.
Qed.

Lemma toy_no_clash pb r next :
  @prepare_next toy_keccak toy_k256 toy_owner (str "trial-A") 1 [] = Ok pb -> br_block r = pb_block pb ->
  @Snapshot_insert toy_keccak (Snapshot_initial toy_genesis) r = Ok next -> ~ @digest_clash toy_keccak next.
Proof.
  intros Hp Eb. apply (@first_clash toy_keccak toy_genesis). rewrite Eb. exact (toy_first_hash pb Hp).
Qed.

Lemma commit_succeeds_witness :
  exists c st next c', @committable toy_keccak toy_k256 (str "run-1") toy_owner st next /\
    @commit strict_sqlite toy_keccak toy_describe toy_owner c st = (set_snapshot toy_owner next, c',
      Committed (tip next) (@C1Envelope_id toy_keccak (ae_envelope (br_proof (sb_record st))))
        (br_outcome (sb_record st))) /\
    @stored toy_keccak toy_genesis next (@committed strict_sqlite c') /\ @transaction strict_sqlite c' = None.
Proof.
  destruct strict_created as (c & _ & Hst & _ & Ht). destruct toy_prepared as (pb & Hp & Hw & Hprod & Hbody).
  destruct (@toy_opens (pb_block pb) Hw Hprod) as (bs & proof & Hopen & Hblk).
  destruct (@prepared_agree toy_keccak toy_k256 (str "run-1") toy_owner _ _ _ pb bs proof
    toy_distinct toy_live_owner Hp Hopen Hblk) as [(x & Hx & _)|(r & _ & Ha & Eb & _)];
    [apply not_elem_of_nil in Hx as []|].
  rewrite <- Eb in Hbody. destruct (toy_first_insert r Ha Hbody) as (next & Hi).
  assert (@committable toy_keccak toy_k256 (str "run-1") toy_owner (mk_staged (owner_base toy_owner) r) next) as C
    by (constructor; [exact toy_live_owner|reflexivity|reflexivity|exact Ha|exact Hi]).
  destruct (@commit_succeeds strict_sqlite strict_sqlite_laws strict_sqlite_faultless toy_keccak toy_k256 toy_describe
    (str "run-1") toy_owner c _ next toy_distinct toy_label C Ht Hst) as [Hcl|(c' & H)].
  - destruct (toy_no_clash pb r next Hp Eb Hi Hcl).
  - exists c, (mk_staged (owner_base toy_owner) r), next, c'. split; [exact C|exact H].
Defined.

(** The owner a lost COMMIT leaves behind. *)
Definition toy_attempted (r : BlockRecord) : Owner :=
  set_poisoned (set_attempt toy_owner (Some (mk_attempt (owner_base toy_owner) r))) true.

Lemma recovery_succeeds_witness :
  exists c r c', ow_poisoned (toy_attempted r) = true /\
    @recover strict_sqlite toy_keccak toy_k256 toy_describe (toy_attempted r) (Some c) (Ok 2%Z) (Ok c) (Ok ()) =
      (mk_owner toy_genesis (Snapshot_initial toy_genesis) 2 false false None, Some c',
       Ok (mk_report (tip (Snapshot_initial toy_genesis)) (Some false))) /\
    @stored toy_keccak toy_genesis (Snapshot_initial toy_genesis) (@committed strict_sqlite c') /\
    @transaction strict_sqlite c' = None.
Proof.
  destruct strict_created as (c & _ & Hst & Hlow & Ht). destruct toy_committable as (_ & st & next & _ & _ & C & _).
  set (a := mk_attempt (owner_base toy_owner) (sb_record st)).
  assert (@node_ok strict_sqlite toy_keccak toy_k256 (str "run-1") (toy_attempted (sb_record st)) (Some c)) as N.
  { constructor; [reflexivity|constructor| |discriminate].
    intros x E. injection E as <-. split; [constructor|exact (cm_appends _ _ _ _ C)]. }
  destruct (@recovery_succeeds strict_sqlite strict_sqlite_laws strict_sqlite_faultless toy_keccak toy_k256 toy_describe
    (str "run-1") (toy_attempted (sb_record st)) (Some c) (Snapshot_initial toy_genesis) (Some false) c 2
    toy_distinct toy_label N (rc_absent (toy_attempted (sb_record st)) a eq_refl) Hst Hlow Ht) as [Hcl|(c' & H)].
  - destruct (@initial_clash toy_keccak (str "run-1") Hcl).
  - exists c, (sb_record st), c'. split; [reflexivity|exact H].
Defined.

Lemma reopen_exact_witness :
  exists c c', @stored toy_keccak toy_genesis (Snapshot_initial toy_genesis) (@committed strict_sqlite c) /\
    @load strict_sqlite toy_keccak toy_k256 toy_describe toy_genesis (Ok c) (Ok ()) (Ok 1%Z) =
      (Some c', Ok (fresh_owner toy_genesis (Snapshot_initial toy_genesis) 1)) /\
    @stored toy_keccak toy_genesis (Snapshot_initial toy_genesis) (@committed strict_sqlite c') /\
    @transaction strict_sqlite c' = None.
Proof.
  destruct strict_created as (c & _ & Hst & Hlow & Ht).
  destruct (@reopen_exact strict_sqlite strict_sqlite_laws strict_sqlite_faultless toy_keccak toy_k256 toy_describe
    (str "run-1") (Snapshot_initial toy_genesis) c strict_empty 1 toy_distinct toy_label
    (audited_initial _) Hst Hlow Ht eq_refl eq_refl) as [_ [Hcl|(c' & H)]].
  - destruct (@initial_clash toy_keccak (str "run-1") Hcl).
  - exists c, c'. split; [exact Hst|exact H].
Defined.

(** The first block of the run, at its producer and at another owner. *)
Lemma block_replicated_witness :
  exists c pb bs r next c' c2', @prepare_next toy_keccak toy_k256 toy_owner (str "trial-A") 1 [] = Ok pb /\
    @seal_prepared toy_keccak toy_k256 toy_owner pb bs = (toy_owner, Ok (mk_staged (owner_base toy_owner) r)) /\
    @stage_received toy_keccak toy_k256 toy_owner bs = (toy_owner, Ok (mk_staged (owner_base toy_owner) r)) /\
    @commit strict_sqlite toy_keccak toy_describe toy_owner c (mk_staged (owner_base toy_owner) r) =
      (set_snapshot toy_owner next, c',
       Committed (tip next) (@C1Envelope_id toy_keccak (ae_envelope (br_proof r))) (br_outcome r)) /\
    @stored toy_keccak toy_genesis next (@committed strict_sqlite c') /\
    @stored toy_keccak toy_genesis next (@committed strict_sqlite c2').
Proof.
  destruct strict_created as (c & _ & Hst & _ & Ht).
  destruct toy_staged as (pb & bs & proof & _ & Hp & Hopen & Hblk & _).
  destruct (@block_replicated strict_sqlite strict_sqlite_laws strict_sqlite_faultless toy_keccak toy_k256 toy_describe
    (str "run-1") toy_owner c toy_owner c (str "trial-A") 1 [] pb bs proof toy_distinct toy_label toy_live_owner
    toy_live_owner eq_refl eq_refl eq_refl Ht Ht Hst Hst Hp Hopen Hblk)
    as [[(x & Hx & _)|(r & next & Eb & Hi & Hcl)]|(r & next & c' & c2' & Eb & Hi & Hs & Hr & Hc & _ & S1 & S2)].
  - apply not_elem_of_nil in Hx as [].
  - destruct (toy_no_clash pb r next Hp Eb Hi Hcl).
  - exists c, pb, bs, r, next, c', c2'. split_and!; assumption.
Defined.
