(* ===== verification/PoashJournal.v ===== *)
(** * The signing journal (src/src/native_poash/signing/journal.rs and the
      codec and persistence of src/src/native_poash/signing.rs)

    The protection store of one signing authority: one row per reserved slot
    and one per retained original envelope, never updated or deleted.
    [Journal] lists the statements the code executes on its SQLite file and
    [JournalLaws] the documented behaviour it relies on; the lock on the
    store excludes other writers, so [BEGIN] sees what was last committed.

    [jadmissible] states which statements the tables, keys, references and
    triggers of the store accept; [faultless] is an engine that refuses nothing
    else, and [faultless_transaction] that it accepts what the authority writes.

    The theorems show that a reservation has one reading and that the store
    only ever grows. *)

From stdpp Require Import sorting.
From S2P Require Import Prelude Codec Crypto BlockCommitment NativeTransaction.
From S2P Require Import NativeTransfer NativeBlock BlockAuthentication LeaderSelection.
From S2P Require Import PoashBase PoashState PoashSelection PoashGenesis PoashClaim.
From S2P Require Import PoashHistory PoashAdmission PoashApplication PoashCompound PoashChain.
From S2P Require Import PoashSnapshot PoashOwner PoashReplay PoashSql PoashSchema.

Definition RESERVATION_DOMAIN : bytes := str "ETERNIX_C1_SIGN_RESERVATION" ++ [x00].
Definition MAX_RESERVATION_BYTES : Z := C1_MAX_BLOCK_BYTES + 512.

Module SignError.
Inductive sign_error : Type :=
| Owned
| Missing
| Exists
| Blocked
| Incomplete (slot : Z)
| Conflict (slot : Z)
| Application (e : app_error)
| Signing (e : auth_error)
| Invalid (e : string).
End SignError.
Abbreviation sign_error := SignError.sign_error.

(** [From<app::Error>] *)
Definition application {A} (r : result app_error A) : result sign_error A :=
  map_err SignError.Application r.
(** [map_err(invalid)] *)
Definition sign_invalid {A} (r : result string A) : result sign_error A :=
  map_err SignError.Invalid r.

Record Intent : Type := mk_intent {
  in_reservation : bytes;
  in_original : option bytes
}.

#[export] Instance Intent_eq_dec : EqDecision Intent.
Proof. solve_decision. Defined.

(** [BTreeMap<u64, Intent>] in key order. *)
Abbreviation Intents := (list (Z * Intent)).

Definition intent_get (slot : Z) (m : Intents) : option Intent :=
  snd <$> head (filter (fun p => p.1 = slot) m).

(** [BTreeMap::insert] *)
Fixpoint intent_insert (slot : Z) (i : Intent) (m : Intents) : Intents :=
  match m with
  | [] => [(slot, i)]
  | p :: rest =>
      if (slot <? p.1)%Z then (slot, i) :: m
      else if (slot =? p.1)%Z then (slot, i) :: rest
      else p :: intent_insert slot i rest
  end.

(** ** The reservation codec *)

Definition a_text (max : Z) : parser app_error bytes := fun d => protocol (c_text max d).

(** [if a? != A { return Err(e) }] *)
Definition a_expect {A} `{EqDecision A} (p : parser app_error A) (want : A) (e : app_error) :
    parser app_error () :=
  v ← p; p_lift (fail_if (v !=? want) e).

(** The profile bytes shared by reservations and the store's identity. *)
Definition sign_profile (network key producer : bytes) : bytes :=
  be_bytes 4 1 ++ network ++ be_bytes 4 POASH_RULES ++ be_bytes 4 HEADER_PROFILE ++
  (be_bytes 1 INNER_WIRE ++ be_bytes 1 OUTER_WIRE ++ be_bytes 1 AUTH_ENCODING) ++
  be_bytes 4 AUTH_RULES ++ key ++ text producer.

Section Reservation.
  Context `{KE : Keccak} `{KC : K256}.

Definition reservation (view : SlotStartView) (evidence key : bytes) (block : C1Block)
    (candidate : bytes) : bytes :=
  let inner := C1Block_wire_bytes block in
  RESERVATION_DOMAIN ++
  sign_profile (pol_network (g_policy (view_genesis view))) key (hc_producer (cb_claim block)) ++
  be_bytes 8 (sv_slot view) ++ C1Block_hash block ++ pos_hash (view_parent view) ++
  cs_id (view_state view) ++ px_id (sv_prefix view) ++ sv_id view ++ evidence ++ candidate ++
  be_bytes 4 (Z.of_nat (length inner)) ++ inner.

Definition reservation_context (g : Genesis) (producer key : bytes) : parser app_error () :=
  let e := AppError.Codec "reservation context" in
  a_expect (a_take (Z.of_nat (length RESERVATION_DOMAIN))) RESERVATION_DOMAIN e;;
  a_expect (a_uint 4) 1%Z e;;
  a_expect (a_field 32) (pol_network (g_policy g)) e;;
  a_expect (a_uint 4) POASH_RULES e;;
  a_expect (a_uint 4) HEADER_PROFILE e;;
  a_expect (a_take 3) (be_bytes 1 INNER_WIRE ++ be_bytes 1 OUTER_WIRE ++ be_bytes 1 AUTH_ENCODING) e;;
  a_expect (a_uint 4) AUTH_RULES e;;
  a_expect (a_field 33) key e;;
  a_expect (a_text 7) producer e.

Definition reservation_fields (g : Genesis) (producer key : bytes) :
    parser app_error (Z * bytes * bytes * bytes * C1Block) :=
  reservation_context g producer key;;
  slot ← a_uint 8;
  hash ← a_field 32;
  parent ← a_field 32;
  _ ← a_take 128;
  candidate ← a_field 32;
  len ← a_uint 4;
  p_lift (fail_if (negb ((295 <=? len) && (len <=? C1_MAX_BLOCK_BYTES))%Z)
    (AppError.Codec "reserved block length"));;
  inner ← a_take len;
  block ← p_lift (C1Block_from_wire_bytes inner);
  mret (slot, hash, parent, candidate, block).

Definition decode_reservation (bs : bytes) (g : Genesis) (producer key : bytes) :
    result sign_error (C1Block * bytes) :=
  application
    (fail_if (MAX_RESERVATION_BYTES <? Z.of_nat (length bs))%Z (AppError.Codec "reservation bound");;
     '((s, hash, parent, candidate, block), d) ← reservation_fields g producer key (decoder bs);
     fail_if (negb (finished d) || (C1Block_hash block !=? hash) ||
              (slot (hc_header (cb_claim block)) !=? s) ||
              (parent_hash (hc_header (cb_claim block)) !=? parent) ||
              (hc_producer (cb_claim block) !=? producer)) (AppError.Codec "exact reserved block");;
     Ok (block, candidate)).

(** [journal::identity] *)
Definition identity (g : Genesis) (producer key : bytes) : bytes :=
  str "ETERNIX_C1_SIGN_AUTHORITY" ++ [x00] ++ sign_profile (pol_network (g_policy g)) key producer.
End Reservation.

(** ** Reservations have one reading *)

Section ReservationCodec.
  Context {KE : Keccak} {KC : K256}.

(** The bytes of a reservation; [ids] are the four opaque comparison ids. *)
Definition reservation_layout (network key : bytes) (block : C1Block) (ids candidate : bytes) : bytes :=
  let h := hc_header (cb_claim block) in
  RESERVATION_DOMAIN ++ sign_profile network key (hc_producer (cb_claim block)) ++
  be_bytes 8 (slot h) ++ C1Block_hash block ++ parent_hash h ++ ids ++ candidate ++
  be_bytes 4 (Z.of_nat (length (C1Block_wire_bytes block))) ++ C1Block_wire_bytes block.

Definition view_ids (view : SlotStartView) (evidence : bytes) : bytes :=
  cs_id (view_state view) ++ px_id (sv_prefix view) ++ sv_id view ++ evidence.

Lemma reservation_eq view evidence key block candidate :
  slot (hc_header (cb_claim block)) = sv_slot view ->
  parent_hash (hc_header (cb_claim block)) = pos_hash (view_parent view) ->
  reservation view evidence key block candidate =
  reservation_layout (pol_network (g_policy (view_genesis view))) key block (view_ids view evidence) candidate.
Proof.
  intros Hs Hp. unfold reservation, reservation_layout, view_ids. cbv zeta. rewrite Hs, Hp.
  by rewrite <- !app_assoc.
Qed.

(** The widths a reservation is built from. *)
Record reservable (network key producer ids candidate : bytes) (block : C1Block) : Prop := {
  rv_network : length network = 32%nat;
  rv_key : length key = 33%nat;
  rv_producer : hc_producer (cb_claim block) = producer;
  rv_ids : length ids = 128%nat;
  rv_candidate : length candidate = 32%nat;
  rv_block : wf_c1_block block
}.

Lemma c1_producer_utf8 b : c1_valid b -> utf8_valid (hc_producer (cb_claim b)) = true.
Proof. intros [_ _ [_ _ [[-> | ->] _] _ _ _] _ _ _]; vm_compute; reflexivity. Qed.

Lemma parses_map_err {E F A} (f : E -> F) (p : parser E A) bs a :
  parses p bs a -> parses (fun d => map_err f (p d)) bs a.
Proof. intros H d y Hd Hr. by rewrite (H d y Hd Hr). Qed.

Lemma parses_expect {A} `{EqDecision A} (p : parser app_error A) want e bs :
  parses p bs want -> parses (a_expect p want e) bs ().
Proof.
  intros H. unfold a_expect. rewrite <- (app_nil_r bs). eapply parses_bind; [exact H|].
  apply parses_lift. by rewrite neq_dec_false.
Qed.

Lemma reservation_context_parses g producer key :
  length (pol_network (g_policy g)) = 32%nat -> length key = 33%nat ->
  length producer = 7%nat -> utf8_valid producer = true ->
  parses (reservation_context g producer key)
    (RESERVATION_DOMAIN ++ sign_profile (pol_network (g_policy g)) key producer) ().
Proof.
  intros Hn Hk Hp Hu. unfold reservation_context, sign_profile. cbv zeta.
  unfold a_take, a_uint, a_field.
  eapply parses_bind; [by apply parses_expect, parses_take|].
  eapply parses_bind; [by apply parses_expect, parses_u32|].
  eapply parses_bind; [by apply parses_expect, parses_field|].
  eapply parses_bind; [by apply parses_expect, parses_u32|].
  eapply parses_bind; [by apply parses_expect, parses_u32|].
  eapply parses_bind; [by apply parses_expect, parses_take|].
  eapply parses_bind; [by apply parses_expect, parses_u32|].
  eapply parses_bind; [by apply parses_expect, parses_field|].
  apply parses_expect, parses_map_err, text_parses; [lia|lia|done].
Qed.

Lemma reservation_fields_parse g producer key block ids candidate :
  reservable (pol_network (g_policy g)) key producer ids candidate block ->
  parses_end (reservation_fields g producer key)
    (reservation_layout (pol_network (g_policy g)) key block ids candidate)
    (slot (hc_header (cb_claim block)), C1Block_hash block,
     parent_hash (hc_header (cb_claim block)), candidate, block).
Proof.
  intros [Hn Hk Hp Hi Hc Hb]. pose proof (wb_header _ Hb) as Hh.
  pose proof (wb_valid _ Hb) as Hv. pose proof (length_c1_wire _ Hb) as Hl.
  pose proof (cv_bound _ Hv) as Hm. unfold MAX_ENTRIES in Hm.
  unfold reservation_fields, reservation_layout, a_uint, a_field, a_take. cbv zeta. rewrite Hp.
  rewrite app_assoc. eapply parses_end_bind.
  { apply reservation_context_parses; [done..| |]; rewrite <- Hp;
      [by apply length_c1_producer|by apply c1_producer_utf8]. }
  eapply parses_end_bind; [apply parses_u64; apply Hh|].
  eapply parses_end_bind; [apply parses_field, header_hash_length|].
  eapply parses_end_bind; [apply parses_field; apply Hh|].
  eapply parses_end_bind; [apply parses_take; by rewrite Hi|].
  eapply parses_end_bind; [by apply parses_field|].
  eapply parses_end_bind; [apply parses_u32; unfold in_width; lia|].
  eapply parses_end_bind_lift.
  { unfold C1_MAX_BLOCK_BYTES, MAX_ENTRIES.
    by rewrite (proj2 (Z.leb_le 295 _)), (proj2 (Z.leb_le _ (288 + 7 + 203 * 16))) by lia. }
  apply parses_end_of. rewrite <- (app_nil_r (C1Block_wire_bytes block)) at 2.
  eapply parses_bind; [by apply parses_take|].
  eapply parses_bind_lift; [by apply c1_block_codec_iff|]. apply parses_ret.
Qed.

Lemma expect_inv {A} `{EqDecision A} (p : parser app_error A) want e d u d' :
  a_expect p want e d = Ok (u, d') -> p d = Ok (want, d').
Proof. unfold a_expect. intros H. inv_parse. inv_ok. by subst. Qed.

Lemma reservation_context_inv g producer key d u d' :
  reservation_context g producer key d = Ok (u, d') ->
  length (pol_network (g_policy g)) = 32%nat /\ length key = 33%nat /\
  consumes d (RESERVATION_DOMAIN ++ sign_profile (pol_network (g_policy g)) key producer) d'.
Proof.
  unfold reservation_context, a_take, a_uint, a_field. cbv zeta. intros H.
  repeat match goal with
  | H : (_ ≫= _) _ = Ok _ |- _ => apply p_bind_Ok in H as (? & ? & ? & H)
  | H : a_expect (a_text _) _ _ _ = Ok _ |- _ =>
      apply expect_inv, map_err_Ok, text_consumes in H as (_ & _ & _ & H)
  | H : a_expect _ _ _ _ = Ok _ |- _ => apply expect_inv in H
  end. inv_parse. split_and!; [done..|]. unfold sign_profile. glue.
Qed.

Lemma length_reservation network key producer ids candidate block :
  reservable network key producer ids candidate block ->
  Z.of_nat (length (reservation_layout network key block ids candidate)) =
  (357 + Z.of_nat (length (C1Block_wire_bytes block)))%Z.
Proof.
  intros [Hn Hk Hp Hi Hc Hb]. unfold reservation_layout, sign_profile, text. cbv zeta.
  rewrite !length_app, !length_be_bytes, Hn, Hk, Hi, Hc, (length_c1_producer _ (wb_valid _ Hb)).
  unfold C1Block_hash, HeaderClaim_hash. rewrite header_hash_length.
  assert (length (parent_hash (hc_header (cb_claim block))) = 32%nat) as -> by apply (wb_header _ Hb).
  replace (length RESERVATION_DOMAIN) with 28%nat by done. lia.
Qed.

Lemma decode_reservation_iff bs g producer key block candidate :
  decode_reservation bs g producer key = Ok (block, candidate) <->
  exists ids, reservable (pol_network (g_policy g)) key producer ids candidate block /\
    bs = reservation_layout (pol_network (g_policy g)) key block ids candidate.
Proof.
  unfold decode_reservation, application. rewrite map_err_Ok. split.
  - intros ([] & Hl & H)%bind_Ok.
    apply bind_Ok in H as ([[[[[s hash] parent] cand] b] d] & Hf & H).
    apply bind_Ok in H as ([] & He & H). injection H as -> ->. apply fail_if_Ok in He.
    unfold reservation_fields, a_uint, a_field, a_take in Hf.
    apply p_bind_Ok in Hf as ([] & d0 & Hctx & Hf).
    apply reservation_context_inv in Hctx as (Hn & Hk & Hctx). inv_parse. inv_ok. simplify_eq.
    match goal with H : C1Block_from_wire_bytes _ = Ok _ |- _ =>
      apply c1_block_codec_iff in H as [? <-] end.
    match goal with H : Z.of_nat (length ?ids) = 128%Z |- _ => exists ids;
      assert (length ids = 128%nat) by lia end.
    split; [by constructor|].
    match goal with |- bs = ?w => apply (consumes_finished bs w d); [|done];
      unfold reservation_layout; cbv zeta end.
    glue.
  - intros (ids & Hr & ->). pose proof (length_reservation _ _ _ _ _ _ Hr) as Hl.
    destruct Hr as [Hn Hk Hp Hi Hc Hb]. pose proof (length_c1_wire _ Hb).
    pose proof (cv_bound _ (wb_valid _ Hb)). unfold MAX_RESERVATION_BYTES, C1_MAX_BLOCK_BYTES, MAX_ENTRIES in *.
    rewrite (proj2 (Z.ltb_ge _ _)) by lia. simpl fail_if. rewrite bind_of_Ok.
    pose proof (reservation_fields_parse g producer key block ids candidate
      (Build_reservable _ _ _ _ _ _ Hn Hk Hp Hi Hc Hb)) as Hparse.
    rewrite (fun W => parses_end_all _ _ _ W Hparse), bind_of_Ok by lia.
    cbv beta iota. rewrite finished_end, !neq_dec_false by done. done.
Qed.

Lemma reservation_inj g producer key ids1 c1 b1 ids2 c2 b2 :
  let network := pol_network (g_policy g) in
  reservable network key producer ids1 c1 b1 -> reservable network key producer ids2 c2 b2 ->
  reservation_layout network key b1 ids1 c1 = reservation_layout network key b2 ids2 c2 ->
  ids1 = ids2 /\ c1 = c2 /\ b1 = b2.
Proof.
  cbv zeta. intros H1 H2 E.
  pose proof (proj2 (decode_reservation_iff _ g producer key b1 c1) (ex_intro _ _ (conj H1 eq_refl))) as D1.
  pose proof (proj2 (decode_reservation_iff _ g producer key b2 c2) (ex_intro _ _ (conj H2 eq_refl))) as D2.
  rewrite E, D2 in D1. injection D1 as <- <-. split_and!; try done.
  unfold reservation_layout in E. cbv zeta in E. do 5 apply app_inv_head in E.
  destruct H1, H2. by apply app_inj_1 in E as [-> _]; [|congruence].
Qed.
End ReservationCodec.

(** ** The journal's database *)

Record JournalMetadata : Type := mk_jmeta {
  jm_version : bytes;
  jm_mode : bytes;
  jm_identity : bytes;
  jm_barrier : bytes
}.

#[export] Instance JournalMetadata_eq_dec : EqDecision JournalMetadata.
Proof. solve_decision. Defined.

(** Rows in slot order: slot and reservation; slot, envelope, signature and
    envelope id. *)
Record JournalContents : Type := mk_jcontents {
  jc_metadata : list JournalMetadata;
  jc_reservations : list Row;
  jc_originals : list Row
}.

Definition empty_journal : JournalContents := mk_jcontents [] [] [].

Inductive journal_write : Type :=
| JMetadata (m : JournalMetadata)
| JReservation (row : Row)
| JOriginal (row : Row)
| JBarrier (new old : bytes).

Definition slot_leb (a b : Row) : bool := bytes_leb (cell 0 a) (cell 0 b).

Definition set_jbarrier (b : bytes) (m : JournalMetadata) : JournalMetadata :=
  mk_jmeta (jm_version m) (jm_mode m) (jm_identity m) b.

Definition journal_apply (w : journal_write) (p : JournalContents) : JournalContents * Z :=
  match w with
  | JMetadata m => (mk_jcontents (jc_metadata p ++ [m]) (jc_reservations p) (jc_originals p), 1%Z)
  | JReservation row =>
      (mk_jcontents (jc_metadata p) (insert_sorted slot_leb row (jc_reservations p)) (jc_originals p), 1%Z)
  | JOriginal row =>
      (mk_jcontents (jc_metadata p) (jc_reservations p) (insert_sorted slot_leb row (jc_originals p)), 1%Z)
  | JBarrier new old =>
      (mk_jcontents (map (fun m => if jm_barrier m ==? old then set_jbarrier new m else m) (jc_metadata p))
         (jc_reservations p) (jc_originals p),
       Z.of_nat (length (filter (fun m => jm_barrier m = old) (jc_metadata p))))
  end.

Class Journal : Type := {
  jconn : Type;
  (** what a later connection would read now *)
  jcommitted : jconn -> JournalContents;
  (** the contents the open transaction sees; [None] is autocommit mode *)
  jtransaction : jconn -> option JournalContents;
  j_begin : jconn -> jconn * result string ();
  j_commit : jconn -> jconn * result string ();
  j_rollback : jconn -> jconn * result string ();
  j_create_schema : jconn -> jconn * result string ();
  j_write : journal_write -> jconn -> jconn * result string Z;
  j_metadata : jconn -> result string (list JournalMetadata);
  j_reservations : jconn -> result string (list Row);
  j_originals : jconn -> result string (list Row);
  (** exact tables and triggers, [integrity_check] and [foreign_key_check] *)
  j_schema : jconn -> result sign_error ()
}.

Definition jvisible `{Journal} (c : jconn) : JournalContents := default (jcommitted c) (jtransaction c).

(** Every statement may fail; the lock on the store excludes other writers. *)
Class JournalLaws (J : Journal) : Prop := {
  j_begin_ok : forall c c', j_begin c = (c', Ok ()) ->
    jcommitted c' = jcommitted c /\ jtransaction c' = Some (jcommitted c);
  j_begin_err : forall c c' e, j_begin c = (c', Err e) -> jcommitted c' = jcommitted c;
  j_commit_ok : forall c c' p, jtransaction c = Some p -> j_commit c = (c', Ok ()) ->
    jcommitted c' = p /\ jtransaction c' = None;
  j_commit_err : forall c c' p e, jtransaction c = Some p -> j_commit c = (c', Err e) ->
    jcommitted c' = jcommitted c \/ jcommitted c' = p;
  j_rollback_keeps : forall c c' r, j_rollback c = (c', r) -> jcommitted c' = jcommitted c;
  j_rollback_ok : forall c c', j_rollback c = (c', Ok ()) -> jtransaction c' = None;
  j_create_keeps : forall c c' p r, jtransaction c = Some p -> j_create_schema c = (c', r) ->
    jcommitted c' = jcommitted c /\ (r = Ok () -> jtransaction c' = Some p);
  j_write_ok : forall w c c' p n, jtransaction c = Some p -> j_write w c = (c', Ok n) ->
    jcommitted c' = jcommitted c /\ jtransaction c' = Some (journal_apply w p).1 /\
    n = (journal_apply w p).2;
  j_write_err : forall w c c' p e, jtransaction c = Some p -> j_write w c = (c', Err e) ->
    jcommitted c' = jcommitted c;
  j_metadata_ok : forall c ms, j_metadata c = Ok ms -> ms = jc_metadata (jvisible c);
  j_reservations_ok : forall c rs, j_reservations c = Ok rs -> rs = jc_reservations (jvisible c);
  j_originals_ok : forall c rs, j_originals c = Ok rs -> rs = jc_originals (jvisible c)
}.

(** A computation on the journal connection: it keeps it when it fails. *)
Definition jsql `{Journal} (A : Type) : Type := jconn -> jconn * result sign_error A.

#[export] Instance jsql_ret `{Journal} : MRet jsql := fun A a c => (c, Ok a).
#[export] Instance jsql_bind `{Journal} : MBind jsql := fun A B f m c =>
  let '(c', r) := m c in match r with Ok a => f a c' | Err e => (c', Err e) end.

Section JournalOps.
  Context `{JN : Journal} `{KE : Keccak} `{KC : K256}.

Definition j_lift {A} (r : result sign_error A) : jsql A := fun c => (c, r).
Definition j_read {A} (f : jconn -> result sign_error A) : jsql A := fun c => (c, f c).
(** [execute(...).map_err(invalid)] *)
Definition j_run {A} (f : jconn -> jconn * result string A) : jsql A :=
  fun c => let '(c', r) := f c in (c', sign_invalid r).

(** [journal::blob] *)
Definition jblob (b : bytes) (low high : Z) : result sign_error bytes :=
  fail_if (negb ((low <=? Z.of_nat (length b)) && (Z.of_nat (length b) <=? high)))%Z
    (SignError.Invalid "bounded signing BLOB");;
  Ok b.

(** [journal::policy] *)
Definition jpolicy (g : Genesis) (producer key : bytes) (c : jconn) : result sign_error () :=
  ms ← sign_invalid (j_metadata c);
  match ms with
  | [m] =>
      version ← jblob (jm_version m) 4 4;
      fail_if (version !=? be_bytes 4 1) (SignError.Invalid "independent authority identity");;
      fail_if (jm_mode m !=? str "c1-signing-authority") (SignError.Invalid "independent authority identity");;
      id ← jblob (jm_identity m) 1 256;
      fail_if (id !=? identity g producer key) (SignError.Invalid "independent authority identity");;
      jblob (jm_barrier m) 8 8;;
      Ok ()
  | _ => Err (SignError.Invalid "signing identity singleton")
  end.

(** The cursor loop over [reservations]; [intents.len()] counts the rows. *)
Fixpoint read_reservations (g : Genesis) (producer key : bytes) (rows : list Row) (intents : Intents) :
    result sign_error Intents :=
  match rows with
  | [] => Ok intents
  | row :: rest =>
      fail_if (MAX_SLOTS <=? Z.of_nat (length intents))%Z (SignError.Invalid "reservation row bound");;
      s ← be_val <$> jblob (cell 0 row) 8 8;
      bs ← jblob (cell 1 row) 295 MAX_RESERVATION_BYTES;
      '(block, _) ← decode_reservation bs g producer key;
      fail_if (slot (hc_header (cb_claim block)) !=? s) (SignError.Invalid "reservation slot index");;
      read_reservations g producer key rest (intent_insert s (mk_intent bs None) intents)
  end.

(** The cursor loop over [originals]; [count] is the number of rows read. *)
Fixpoint read_originals (g : Genesis) (producer key : bytes) (authenticate : bool) (rows : list Row)
    (count : Z) (intents : Intents) : result sign_error Intents :=
  match rows with
  | [] => Ok intents
  | row :: rest =>
      let count := (count + 1)%Z in
      fail_if (MAX_SLOTS <? count)%Z (SignError.Invalid "original row bound");;
      s ← be_val <$> jblob (cell 0 row) 8 8;
      bs ← jblob (cell 1 row) 402 C1_MAX_ENVELOPE_BYTES;
      e ← application (C1Envelope_from_wire_bytes bs);
      i ← ok_or (intent_get s intents) (SignError.Invalid "original without reservation");
      '(reserved, _) ← decode_reservation (in_reservation i) g producer key;
      fail_if ((ce_block e !=? reserved) || (ce_network e !=? pol_network (g_policy g)))
        (SignError.Invalid "original exact reservation/S/E-ID");;
      signature ← jblob (cell 2 row) 65 65;
      fail_if (ce_signature e !=? signature) (SignError.Invalid "original exact reservation/S/E-ID");;
      id ← jblob (cell 3 row) 32 32;
      fail_if (C1Envelope_id e !=? id) (SignError.Invalid "original exact reservation/S/E-ID");;
      (if authenticate then application (C1Envelope_authenticate e g);; Ok () else Ok ());;
      read_originals g producer key authenticate rest count
        (intent_insert s (mk_intent (in_reservation i) (Some bs)) intents)
  end.

(** [journal::read] *)
Definition journal_read (g : Genesis) (producer key : bytes) (authenticate : bool) (c : jconn) :
    result sign_error Intents :=
  j_schema c;;
  jpolicy g producer key c;;
  rs ← sign_invalid (j_reservations c);
  intents ← read_reservations g producer key rs [];
  os ← sign_invalid (j_originals c);
  read_originals g producer key authenticate os 0 intents.

Definition journal_verify (g : Genesis) (producer key : bytes) (known : Intents) (c : jconn) :
    result sign_error () :=
  loaded ← journal_read g producer key false c;
  fail_if (loaded !=? known) (SignError.Invalid "exact known signing base").

Definition journal_load (g : Genesis) (producer key : bytes) : jsql Intents := fun c =>
  let '(c, began) := j_begin c in
  match began with
  | Err e => (c, Err (SignError.Invalid e))
  | Ok _ =>
      let result := journal_read g producer key true c in
      let '(c, ended) := j_rollback c in
      (c, v ← result; sign_invalid ended;; Ok v)
  end.

(** BEGIN IMMEDIATE, the statements, COMMIT; an error leaves the transaction
    open until the connection is dropped. *)
Definition j_transaction (m : jsql ()) : jsql () := j_run j_begin;; m;; j_run j_commit.

Definition journal_initialize (g : Genesis) (producer key : bytes) : jsql () :=
  j_transaction
    (j_run j_create_schema;;
     j_run (j_write (JMetadata (mk_jmeta (be_bytes 4 1) (str "c1-signing-authority")
       (identity g producer key) (u64_cell 0))));;
     mret ()).

(** [sync] is what syncing the file and its directory returns. *)
Definition journal_barrier (sync : result string ()) (g : Genesis) (producer key : bytes)
    (known : Intents) : jsql () :=
  j_transaction
    (j_read (journal_verify g producer key known);;
     ms ← j_read (fun c => sign_invalid (j_metadata c));
     old ← j_lift (ok_or (jm_barrier <$> head ms) (SignError.Invalid "barrier"));
     next ← j_lift (ok_or (checked_add U64 (be_val old) 1) (SignError.Invalid "signer barrier exhausted"));
     n ← j_run (j_write (JBarrier (u64_cell next) old));
     j_lift (fail_if (n !=? 1)%Z (SignError.Invalid "signer barrier CAS")));;
  j_lift (sign_invalid sync).
End JournalOps.

(** ** Intents as rows *)

(** Keys in increasing order, as a [BTreeMap] iterates. *)
Definition by_slot (m : Intents) : Prop := StronglySorted Z.lt (map fst m).

Lemma by_slot_cons p m : by_slot (p :: m) <-> by_slot m /\ Forall (fun q => (p.1 < q.1)%Z) m.
Proof.
  unfold by_slot. cbn [map]. split.
  - intros H. inversion_clear H as [|? ? Hs Hp]. by rewrite Forall_map in Hp.
  - intros [Hs Hp]. constructor; [done|]. by rewrite Forall_map.
Qed.

Lemma by_slot_app m1 m2 :
  by_slot (m1 ++ m2) -> by_slot m1 /\ by_slot m2 /\ forall p q, p ∈ m1 -> q ∈ m2 -> (p.1 < q.1)%Z.
Proof.
  unfold by_slot. rewrite map_app. intros (Hlt & H1 & H2)%StronglySorted_app. split_and!; [done..|].
  intros p q Hp Hq. apply Hlt; by apply list_elem_of_fmap_2.
Qed.

Definition strip (p : Z * Intent) : Z * Intent := (p.1, mk_intent (in_reservation p.2) None).

Lemma intent_get_app_r s m1 m2 :
  Forall (fun p => p.1 <> s) m1 -> intent_get s (m1 ++ m2) = intent_get s m2.
Proof.
  unfold intent_get. induction 1 as [|p m1 Hp _ IH]; [done|].
  cbn [app]. rewrite filter_cons. by rewrite decide_False.
Qed.

Lemma intent_get_skip s p m : p.1 <> s -> intent_get s (p :: m) = intent_get s m.
Proof. intros H. unfold intent_get. rewrite filter_cons. by rewrite decide_False. Qed.

Lemma intent_get_here s i m : intent_get s ((s, i) :: m) = Some i.
Proof. unfold intent_get. rewrite filter_cons. by rewrite decide_True. Qed.

Lemma intent_get_Some s m i : intent_get s m = Some i -> (s, i) ∈ m.
Proof.
  unfold intent_get. intros H. apply fmap_Some in H as ([k j] & H & ->).
  apply head_Some_elem_of, list_elem_of_filter in H as [Hk H]. simpl in *. by subst.
Qed.

Lemma intent_get_None s m : intent_get s m = None <-> Forall (fun p => p.1 <> s) m.
Proof.
  split.
  - unfold intent_get. intros H%fmap_None. apply Forall_forall. intros p Hp E.
    assert (p ∈ filter (fun p => p.1 = s) m) as Hin by (by apply list_elem_of_filter).
    destruct (filter _ m); [by apply not_elem_of_nil in Hin|done].
  - intros H. rewrite <- (app_nil_r m). by rewrite intent_get_app_r.
Qed.

Lemma intent_get_elem s i m : by_slot m -> (s, i) ∈ m -> intent_get s m = Some i.
Proof.
  induction m as [|p m IH]; intros Hs Hin; [by apply not_elem_of_nil in Hin|].
  apply by_slot_cons in Hs as [Hs Hp]. apply elem_of_cons in Hin as [<-|Hin]; [apply intent_get_here|].
  rewrite Forall_forall in Hp. pose proof (Hp _ Hin) as Hlt. simpl in Hlt.
  rewrite intent_get_skip by lia. by apply IH.
Qed.

Lemma intent_insert_last s i m : Forall (fun p => (p.1 < s)%Z) m -> intent_insert s i m = m ++ [(s, i)].
Proof.
  induction 1 as [|p m Hp _ IH]; [done|]. cbn [intent_insert app].
  rewrite (proj2 (Z.ltb_ge _ _)), (proj2 (Z.eqb_neq _ _)), IH by lia. done.
Qed.

Lemma intent_insert_replace s i j m1 m2 :
  Forall (fun p => (p.1 < s)%Z) m1 -> intent_insert s i (m1 ++ (s, j) :: m2) = m1 ++ (s, i) :: m2.
Proof.
  induction 1 as [|p m Hp _ IH]; cbn [intent_insert app fst].
  - by rewrite Z.ltb_irrefl, Z.eqb_refl.
  - rewrite (proj2 (Z.ltb_ge _ _)), (proj2 (Z.eqb_neq _ _)), IH by lia. done.
Qed.

Lemma intent_insert_elem s i m p :
  p ∈ intent_insert s i m -> p = (s, i) \/ p ∈ m.
Proof.
  induction m as [|q m IH]; cbn [intent_insert]; [rewrite elem_of_cons; tauto|].
  repeat case_match; rewrite !elem_of_cons; tauto.
Qed.

Lemma intent_get_insert s i m : intent_get s (intent_insert s i m) = Some i.
Proof.
  induction m as [|q m IH]; cbn [intent_insert]; [apply intent_get_here|].
  destruct (s <? q.1)%Z; [apply intent_get_here|].
  destruct (Z.eqb_spec s q.1) as [->|Hne]; [apply intent_get_here|].
  by rewrite intent_get_skip by done.
Qed.

Lemma intent_get_insert_ne s t i m : t <> s -> intent_get t (intent_insert s i m) = intent_get t m.
Proof.
  intros Hne. induction m as [|[k j] m IH]; cbn [intent_insert fst]; [by apply intent_get_skip|].
  destruct (s <? k)%Z; [by apply intent_get_skip|].
  destruct (Z.eqb_spec s k) as [->|Hk]; [by rewrite !intent_get_skip|].
  destruct (decide (k = t)) as [->|Ht]; [by rewrite !intent_get_here|by rewrite !intent_get_skip].
Qed.

Lemma intent_insert_by_slot s i m : by_slot m -> by_slot (intent_insert s i m).
Proof.
  induction m as [|p m IH]; intros Hs; cbn [intent_insert]; [by repeat constructor|].
  pose proof (proj1 (by_slot_cons p m) Hs) as [Hm Hp].
  destruct (Z.ltb_spec s p.1); [apply by_slot_cons; split; [done|]|].
  { constructor; [done|]. eapply Forall_impl; [exact Hp|]. simpl. lia. }
  destruct (Z.eqb_spec s p.1) as [->|Hne]; [by apply by_slot_cons|].
  apply by_slot_cons; split; [by apply IH|]. apply Forall_forall. intros q [->|Hq]%intent_insert_elem; [simpl; lia|].
  rewrite Forall_forall in Hp. by apply Hp.
Qed.

Section Rows.
  Context {KE : Keccak} {KC : K256} (g : Genesis) (producer key : bytes).

Let network := pol_network (g_policy g).

Definition reservation_row (p : Z * Intent) : Row := [u64_cell p.1; in_reservation p.2].

Definition original_row (s : Z) (bs : bytes) (e : C1Envelope) : Row :=
  [u64_cell s; bs; ce_signature e; C1Envelope_id e].

Definition stored_original (p : Z * Intent) : option Row :=
  bs ← in_original p.2; e ← ok (C1Envelope_from_wire_bytes bs); Some (original_row p.1 bs e).

(** An entry of the journal: the reservation decodes to a block of that slot,
    and an original is an envelope of exactly this block. *)
Record intent_ok (p : Z * Intent) : Prop := {
  io_slot : in_width U64 p.1;
  io_reserved : exists block candidate,
    decode_reservation (in_reservation p.2) g producer key = Ok (block, candidate) /\
    slot (hc_header (cb_claim block)) = p.1 /\
    forall bs, in_original p.2 = Some bs -> exists e, C1Envelope_from_wire_bytes bs = Ok e /\
      ce_block e = block /\ ce_network e = network
}.

Record intents_ok (m : Intents) : Prop := {
  is_sorted : by_slot m;
  is_entries : Forall intent_ok m
}.

(** The journal holds exactly these intents. *)
Record jstored (m : Intents) (p : JournalContents) : Prop := {
  js_intents : intents_ok m;
  js_reservations : jc_reservations p = map reservation_row m;
  js_originals : jc_originals p = omap stored_original m
}.

Lemma stored_original_None p : in_original p.2 = None -> stored_original p = None.
Proof. unfold stored_original. by intros ->. Qed.

Lemma stored_original_Some p bs e :
  in_original p.2 = Some bs -> C1Envelope_from_wire_bytes bs = Ok e ->
  stored_original p = Some (original_row p.1 bs e).
Proof. unfold stored_original. intros -> E. simpl. by rewrite E. Qed.

Lemma strip_none p : in_original p.2 = None -> strip p = p.
Proof. destruct p as [s [r o]]; simpl. by intros ->. Qed.

Lemma jblob_ok b low high :
  (low <= Z.of_nat (length b) <= high)%Z -> jblob b low high = Ok b.
Proof.
  intros H. unfold jblob. by rewrite (proj2 (Z.leb_le low _)), (proj2 (Z.leb_le _ high)) by lia.
Qed.

Lemma slot_cell_blob s : in_width U64 s -> be_val <$> jblob (u64_cell s) 8 8 = Ok s.
Proof.
  intros Hs. rewrite jblob_ok by (unfold u64_cell; rewrite length_be_bytes; lia). simpl.
  by rewrite u64_cell_val.
Qed.

Lemma reservation_length bs r :
  decode_reservation bs g producer key = Ok r ->
  (295 <= Z.of_nat (length bs) <= MAX_RESERVATION_BYTES)%Z.
Proof.
  destruct r as [b c]. intros (ids & Hr & ->)%decode_reservation_iff.
  rewrite (length_reservation _ _ _ _ _ _ Hr). pose proof (rv_block _ _ _ _ _ _ Hr) as Hb.
  rewrite (length_c1_wire _ Hb). pose proof (cv_bound _ (wb_valid _ Hb)).
  unfold MAX_RESERVATION_BYTES, C1_MAX_BLOCK_BYTES, MAX_ENTRIES in *. lia.
Qed.

(** Reading back the reservation rows gives the intents without originals. *)
Lemma read_reservations_rows m acc :
  Forall intent_ok m -> by_slot (acc ++ m) -> (Z.of_nat (length (acc ++ m)) <= MAX_SLOTS)%Z ->
  read_reservations g producer key (map reservation_row m) acc = Ok (acc ++ map strip m).
Proof.
  intros Hok. revert acc. induction Hok as [|p m Hp _ IH]; intros acc Hs Hl; [by rewrite app_nil_r|].
  cbn [map read_reservations reservation_row cell nth]. rewrite length_app in Hl. simpl in Hl.
  rewrite (proj2 (Z.leb_gt _ _)) by lia. simpl fail_if. rewrite bind_of_Ok.
  destruct Hp as [Hw (block & cand & Hd & Hslot & _)].
  rewrite slot_cell_blob, bind_of_Ok by done.
  rewrite jblob_ok, bind_of_Ok by (by eapply reservation_length). rewrite Hd, bind_of_Ok.
  rewrite neq_dec_false by done. simpl fail_if. rewrite bind_of_Ok.
  assert (Forall (fun q => (q.1 < p.1)%Z) acc) as Hacc.
  { apply Forall_forall. intros q Hq. apply (proj2 (proj2 (by_slot_app _ _ Hs))); [done|left]. }
  rewrite intent_insert_last by done. fold (strip p).
  rewrite (cons_middle (strip p) acc (map strip m)), app_assoc. apply IH.
  - unfold by_slot in *. rewrite <- app_assoc. by rewrite !map_app in *.
  - rewrite <- app_assoc, length_app. simpl. lia.
Qed.

Lemma envelope_length bs e :
  C1Envelope_from_wire_bytes bs = Ok e -> (402 <= Z.of_nat (length bs) <= C1_MAX_ENVELOPE_BYTES)%Z.
Proof.
  intros [Hw <-]%c1_envelope_codec_iff. rewrite (length_c1_envelope _ Hw).
  pose proof (we_block _ Hw) as Hb. rewrite (length_c1_wire _ Hb). pose proof (cv_bound _ (wb_valid _ Hb)).
  unfold C1_MAX_ENVELOPE_BYTES, C1_MAX_BLOCK_BYTES, MAX_ENTRIES in *. lia.
Qed.

(** The other column widths of an original's row. *)
Lemma original_blobs bs e :
  C1Envelope_from_wire_bytes bs = Ok e ->
  jblob (ce_signature e) 65 65 = Ok (ce_signature e) /\ jblob (C1Envelope_id e) 32 32 = Ok (C1Envelope_id e).
Proof.
  intros [Hw _]%c1_envelope_codec_iff. split; apply jblob_ok.
  - rewrite (we_signature _ Hw). lia.
  - unfold C1Envelope_id, hash_with_domain. rewrite keccak256_length. lia.
Qed.

(** The retained original, if any, carries the producer's signature. *)
Definition original_authentic (p : Z * Intent) : Prop :=
  forall bs e, in_original p.2 = Some bs -> C1Envelope_from_wire_bytes bs = Ok e ->
  exists proof, C1Envelope_authenticate e g = Ok proof.

(** Reading back the original rows over stripped intents restores them. *)
Lemma read_originals_rows auth m acc n :
  (auth = true -> Forall original_authentic m) -> Forall intent_ok m -> by_slot (acc ++ m) -> (0 <= n)%Z -> (n + Z.of_nat (length m) <= MAX_SLOTS)%Z ->
  read_originals g producer key auth (omap stored_original m) n (acc ++ map strip m) = Ok (acc ++ m).
Proof.
  intros Hauth Hok. revert acc n Hauth. induction Hok as [|p m Hp _ IH]; intros acc n Hauth Hs Hn Hl; [done|].
  assert (auth = true -> Forall original_authentic m) as Hauth'
    by (intros Ha; by apply (Forall_cons_1 _ _ _ (Hauth Ha))).
  assert (Forall (fun q => (q.1 < p.1)%Z) acc) as Hacc.
  { apply Forall_forall. intros q Hq. apply (proj2 (proj2 (by_slot_app _ _ Hs))); [done|left]. }
  simpl length in Hl. cbn [map omap list_omap].
  destruct (in_original p.2) as [bs|] eqn:Ho.
  2: { rewrite stored_original_None, (strip_none p) by done.
    rewrite (cons_middle p acc (map strip m)), (cons_middle p acc m), !app_assoc.
    apply IH; [done|by rewrite <- app_assoc|lia|lia]. }
  destruct Hp as [Hw (block & cand & Hd & Hslot & He)]. destruct (He _ Ho) as (e & Hwire & Hblk & Hnet).
  rewrite (stored_original_Some _ _ _ Ho Hwire).
  cbn [read_originals original_row cell nth]. rewrite (proj2 (Z.ltb_ge _ _)) by lia.
  simpl fail_if. rewrite bind_of_Ok, slot_cell_blob, bind_of_Ok by done.
  rewrite (jblob_ok bs), bind_of_Ok by (by eapply envelope_length).
  rewrite Hwire. cbn [application map_err]. rewrite bind_of_Ok.
  rewrite intent_get_app_r by (eapply Forall_impl; [exact Hacc|]; simpl; lia).
  change (strip p) with (p.1, mk_intent (in_reservation p.2) None). rewrite intent_get_here.
  cbn [ok_or]. rewrite bind_of_Ok. cbn [in_reservation].
  rewrite Hd, bind_of_Ok, Hnet, !neq_dec_false by done. simpl fail_if. rewrite bind_of_Ok.
  destruct (original_blobs _ _ Hwire) as [-> ->]. rewrite !bind_of_Ok, !neq_dec_false by done.
  simpl fail_if. rewrite !bind_of_Ok.
  assert ((if auth then application (C1Envelope_authenticate e g);; Ok () else Ok ()) = Ok ()) as ->.
  { destruct auth; [|done]. destruct (Forall_cons_1 _ _ _ (Hauth eq_refl)) as [Ha _].
    destruct (Ha _ _ Ho Hwire) as [proof ->]. done. }
  rewrite bind_of_Ok, intent_insert_replace by done.
  assert ((p.1, mk_intent (in_reservation p.2) (Some bs)) = p) as ->.
  { destruct p as [s' [r o]]; simpl in *. by subst. }
  rewrite (cons_middle p acc (map strip m)), (cons_middle p acc m), !app_assoc.
  apply IH; [done|by rewrite <- app_assoc|lia|lia].
Qed.

(** Authentication only rejects: whatever an authenticated read returns, the
    plain read returns. *)
Lemma read_originals_plain rows n acc m :
  read_originals g producer key true rows n acc = Ok m ->
  read_originals g producer key false rows n acc = Ok m.
Proof.
  revert n acc. induction rows as [|row rows IH]; intros n acc; [done|]. cbn [read_originals].
  repeat (first [intros (? & H & K)%bind_Ok; revert K; rewrite H, bind_of_Ok; clear H
    | match goal with |- (let '(_, _) := ?x in _) = _ -> _ => destruct x; cbv beta iota end]).
  intros ([] & _ & K)%bind_Ok. rewrite bind_of_Ok. by apply IH.
Qed.

Lemma slot_cells_leb a b x y :
  in_width U64 a -> in_width U64 b -> slot_leb (u64_cell a :: x) (u64_cell b :: y) = (a <=? b)%Z.
Proof.
  intros Ha Hb. unfold slot_leb, bytes_leb. cbn [cell nth].
  rewrite bytes_compare_val by (unfold u64_cell; by rewrite !length_be_bytes).
  by rewrite !u64_cell_val.
Qed.

Lemma insert_reservation_row s i m :
  in_width U64 s -> Forall (fun p => in_width U64 p.1) m -> intent_get s m = None ->
  insert_sorted slot_leb (reservation_row (s, i)) (map reservation_row m) =
  map reservation_row (intent_insert s i m).
Proof.
  intros Hs Hm Hg%intent_get_None. induction m as [|p m IH]; [done|].
  apply Forall_cons in Hm as [Hp Hm]. apply Forall_cons in Hg as [Hne Hg].
  cbn [map insert_sorted intent_insert]. unfold reservation_row at 1 2. rewrite slot_cells_leb by done.
  cbn [fst]. rewrite (proj2 (Z.eqb_neq s p.1)) by done.
  destruct (Z.leb_spec s p.1), (Z.ltb_spec s p.1); try lia; [done|]. cbn [map]. by rewrite IH.
Qed.

(** The rows of originals have keys among the intents. *)
Lemma stored_original_key p row :
  stored_original p = Some row -> exists x, row = u64_cell p.1 :: x.
Proof.
  unfold stored_original. destruct (in_original p.2); [|done]. simpl.
  destruct (ok _); [|done]. intros [= <-]. unfold original_row. eauto.
Qed.

Lemma insert_original_head s x m :
  in_width U64 s -> Forall (fun p => in_width U64 p.1) m -> Forall (fun p => (s < p.1)%Z) m ->
  insert_sorted slot_leb (u64_cell s :: x) (omap stored_original m) = (u64_cell s :: x) :: omap stored_original m.
Proof.
  intros Hs Hm Hlt. destruct (omap stored_original m) as [|row rows] eqn:E; [done|]. cbn [insert_sorted].
  assert (row ∈ omap stored_original m) as (p & Hp & Hrow)%list_elem_of_omap by (rewrite E; left).
  destruct (stored_original_key _ _ Hrow) as [y ->]. rewrite Forall_forall in Hm, Hlt.
  rewrite slot_cells_leb by (try done; by apply Hm).
  by rewrite (proj2 (Z.leb_le s p.1)) by (pose proof (Hlt _ Hp); lia).
Qed.

Lemma insert_original_row s r bs e m :
  by_slot m -> Forall (fun p => in_width U64 p.1) m -> intent_get s m = Some (mk_intent r None) ->
  C1Envelope_from_wire_bytes bs = Ok e ->
  insert_sorted slot_leb (original_row s bs e) (omap stored_original m) =
  omap stored_original (intent_insert s (mk_intent r (Some bs)) m).
Proof.
  intros Hsort Hm Hg Hw. induction m as [|p m IH]; [done|].
  apply by_slot_cons in Hsort as [Hsort Hlt]. apply Forall_cons in Hm as [Hp Hm]. cbn [intent_insert].
  destruct (decide (p.1 = s)) as [<-|Hne].
  - rewrite Z.ltb_irrefl, Z.eqb_refl. cbn [omap list_omap].
    rewrite (stored_original_Some (p.1, mk_intent r (Some bs)) bs e) by done.
    destruct p as [k i]. rewrite intent_get_here in Hg. injection Hg as ->.
    rewrite stored_original_None by done. unfold original_row. by apply insert_original_head.
  - rewrite intent_get_skip in Hg by done. pose proof (intent_get_Some _ _ _ Hg) as Hin.
    assert (p.1 < s)%Z as Hps by (rewrite Forall_forall in Hlt; apply (Hlt _ Hin)).
    rewrite (proj2 (Z.ltb_ge _ _)), (proj2 (Z.eqb_neq _ _)) by lia. cbn [omap list_omap].
    destruct (stored_original p) as [row|] eqn:Erow; [|by apply IH].
    destruct (stored_original_key _ _ Erow) as [y ->]. cbn [insert_sorted]. unfold original_row at 1.
    assert (in_width U64 s) by (rewrite Forall_forall in Hm; apply (Hm _ Hin)).
    rewrite slot_cells_leb, (proj2 (Z.leb_gt _ _)) by (done || lia). f_equal. by apply IH.
Qed.

Lemma intents_widths m : intents_ok m -> Forall (fun p => in_width U64 p.1) m.
Proof. intros [_ H]. eapply Forall_impl; [exact H|]. by intros p [Hw _]. Qed.

(** Reserved slots are slots of the experiment, so there are at most 200. *)
Lemma sorted_length (l : list Z) lo hi :
  StronglySorted Z.lt l -> Forall (fun z => lo <= z <= hi)%Z l -> (lo <= hi + 1)%Z ->
  (Z.of_nat (length l) <= hi + 1 - lo)%Z.
Proof.
  intros Hs. revert lo. induction Hs as [|z l _ IH Hz]; intros lo Hl Hlo; simpl length; [lia|].
  apply Forall_cons in Hl as [Hb Hl]. simpl in Hb.
  enough (Z.of_nat (length l) <= hi + 1 - (z + 1))%Z by lia. apply IH; [|lia].
  rewrite Forall_forall in *. intros x Hx. pose proof (Hz _ Hx). pose proof (Hl _ Hx). simpl in *. lia.
Qed.

Lemma intents_bound m : intents_ok m -> (Z.of_nat (length m) <= MAX_SLOTS)%Z.
Proof.
  intros [Hs H]. rewrite <- (length_map fst). replace MAX_SLOTS with (MAX_SLOTS + 1 - 1)%Z by done.
  apply sorted_length; [done| |done]. apply Forall_map. eapply Forall_impl; [exact H|].
  intros p [_ (block & cand & (ids & Hr & _)%decode_reservation_iff & <- & _)].
  apply (cl_limits _ _ _ (cv_claim _ (wb_valid _ (rv_block _ _ _ _ _ _ Hr)))).
Qed.

Lemma intents_ok_insert s i m : intents_ok m -> intent_ok (s, i) -> intents_ok (intent_insert s i m).
Proof.
  intros [Hs H] Hi. constructor; [by apply intent_insert_by_slot|]. apply Forall_forall.
  intros p [->|Hp]%intent_insert_elem; [done|]. rewrite Forall_forall in H. by apply H.
Qed.

Lemma intents_ok_get m s i : intents_ok m -> intent_get s m = Some i -> intent_ok (s, i).
Proof. intros [_ H] Hg%intent_get_Some. rewrite Forall_forall in H. by apply H. Qed.

(** ** Growing the journal *)

Lemma jstored_reserve m p s r :
  jstored m p -> intent_get s m = None -> intent_ok (s, mk_intent r None) ->
  jstored (intent_insert s (mk_intent r None) m)
    (journal_apply (JReservation (reservation_row (s, mk_intent r None))) p).1.
Proof.
  intros [Hm Hr Ho] Hg Hi. pose proof (intents_widths m Hm) as Hw.
  constructor; [by apply intents_ok_insert| |]; cbn [journal_apply fst jc_reservations jc_originals].
  - rewrite Hr. apply insert_reservation_row; [apply Hi|done|done].
  - rewrite Ho. clear -Hg. induction m as [|q m IH]; [done|].
    apply intent_get_None in Hg as [Hne Hg%intent_get_None]%Forall_cons. cbn [intent_insert].
    destruct (s <? q.1)%Z; [done|]. rewrite (proj2 (Z.eqb_neq _ _)) by done.
    cbn [omap list_omap]. by rewrite IH.
Qed.

Lemma jstored_complete m p s r bs e :
  jstored m p -> intent_get s m = Some (mk_intent r None) ->
  C1Envelope_from_wire_bytes bs = Ok e -> intent_ok (s, mk_intent r (Some bs)) ->
  jstored (intent_insert s (mk_intent r (Some bs)) m) (journal_apply (JOriginal (original_row s bs e)) p).1.
Proof.
  intros [Hm Hr Ho] Hg Hw Hi. pose proof (intents_widths m Hm) as Hws.
  constructor; [by apply intents_ok_insert| |]; cbn [journal_apply fst jc_reservations jc_originals].
  - rewrite Hr. clear -Hg Hm. destruct Hm as [Hs _]. induction m as [|q m IH]; [done|].
    apply by_slot_cons in Hs as [Hs Hlt]. cbn [intent_insert map].
    destruct (decide (q.1 = s)) as [<-|Hne].
    + rewrite Z.ltb_irrefl, Z.eqb_refl. cbn [map]. destruct q as [k i].
      rewrite intent_get_here in Hg. by injection Hg as ->.
    + rewrite intent_get_skip in Hg by done. pose proof (intent_get_Some _ _ _ Hg) as Hin.
      rewrite Forall_forall in Hlt. pose proof (Hlt _ Hin) as Hlt'. simpl in Hlt'.
      rewrite (proj2 (Z.ltb_ge _ _)), (proj2 (Z.eqb_neq _ _)) by lia. cbn [map]. f_equal. by apply IH.
  - rewrite Ho. apply insert_original_row; [apply Hm|done..].
Qed.
End Rows.

(** ** Statements under an open transaction *)

Section JournalSteps.
  Context {JN : Journal} {L : JournalLaws JN} {KE : Keccak} {KC : K256}.
  Context (g : Genesis) (producer key : bytes).

(** Run inside a transaction that sees [p], [m] leaves the committed contents
    alone; when it succeeds the transaction sees contents satisfying [Q]. *)
Definition jsteps {A} (m : jsql A) (p : JournalContents) (Q : A -> JournalContents -> Prop) : Prop :=
  forall c c' r, jtransaction c = Some p -> m c = (c', r) ->
    jcommitted c' = jcommitted c /\
    (forall a, r = Ok a -> exists p', jtransaction c' = Some p' /\ Q a p').

Lemma jsteps_bind {A B} (m : jsql A) (f : A -> jsql B) p R Q :
  jsteps m p R -> (forall a p', R a p' -> jsteps (f a) p' Q) -> jsteps (m ≫= f) p Q.
Proof.
  intros Hm Hf c c' r Hp E. unfold mbind, jsql_bind in E. destruct (m c) as [c1 r1] eqn:E1.
  destruct (Hm _ _ _ Hp E1) as [Hc Hr]. destruct r1 as [a|e].
  - destruct (Hr a eq_refl) as (p1 & Hp1 & HR). destruct (Hf a p1 HR _ _ _ Hp1 E) as [Hc' Hr'].
    split; [by rewrite Hc'|done].
  - injection E as <- <-. split; [done|]. by intros a [=].
Qed.

Lemma jsteps_lift {A} (x : result sign_error A) p (Q : A -> JournalContents -> Prop) :
  (forall a, x = Ok a -> Q a p) -> jsteps (j_lift x) p Q.
Proof. intros H c c' r Hp [= <- <-]. split; [done|]. intros b ->. eauto. Qed.

Lemma jsteps_read {A} (f : jconn -> result sign_error A) p (Q : A -> JournalContents -> Prop) :
  (forall c a, jvisible c = p -> f c = Ok a -> Q a p) -> jsteps (j_read f) p Q.
Proof.
  intros H c c' r Hp [= <- <-]. split; [done|]. intros a Ha. exists p. split; [done|].
  apply (H c); [|done]. unfold jvisible. by rewrite Hp.
Qed.

Lemma jsteps_write w p :
  jsteps (j_run (j_write w)) p (fun n p' => p' = (journal_apply w p).1 /\ n = (journal_apply w p).2).
Proof.
  intros c c' r Hp E. unfold j_run in E. destruct (j_write w c) as [c1 r1] eqn:E1. injection E as <- <-.
  destruct r1 as [n|e].
  - destruct (j_write_ok _ _ _ _ _ Hp E1) as (Hc & Ht & Hn). split; [done|]. intros a [= <-]. eauto.
  - pose proof (j_write_err _ _ _ _ _ Hp E1) as Hc. split; [done|]. by intros a [=].
Qed.

(** A whole transaction: nothing is published, or exactly what was written;
    after a success of all but [sync], it is published. *)
Lemma transaction_spec (m : jsql ()) c c' r (Q : JournalContents -> Prop) :
  j_transaction m c = (c', r) -> jsteps m (jcommitted c) (fun _ => Q) ->
  (jcommitted c' = jcommitted c \/ Q (jcommitted c')) /\
  (r = Ok () -> jtransaction c' = None /\ Q (jcommitted c')).
Proof.
  intros E Hm. unfold j_transaction, mbind, jsql_bind, j_run in E.
  destruct (j_begin c) as [c0 [[]|e0]] eqn:Eb; simpl in E.
  2: { injection E as <- <-. split; [left; by apply (j_begin_err _ _ _ Eb)|done]. }
  destruct (j_begin_ok _ _ Eb) as [Hc0 Ht0].
  destruct (m c0) as [c1 r1] eqn:E1. destruct (Hm _ _ _ Ht0 E1) as [Hc1 Hr1].
  destruct r1 as [[]|e]; [|injection E as <- <-; split; [left; congruence|done]].
  destruct (Hr1 () eq_refl) as (p & Hp & HQ).
  destruct (j_commit c1) as [c2 [[]|e2]] eqn:E2; simpl in E; injection E as <- <-.
  - destruct (j_commit_ok _ _ _ Hp E2) as [Hc2 Ht2]. rewrite Hc2. split; [by right|done].
  - split; [|done]. destruct (j_commit_err _ _ _ _ Hp E2) as [-> | ->]; [left; congruence|by right].
Qed.

(** Reading a stored journal gives the stored intents or an error. *)
Lemma journal_read_stored m auth c m' :
  jstored g producer key m (jvisible c) -> journal_read g producer key auth c = Ok m' -> m' = m.
Proof.
  intros [Hm Hr Ho] H. unfold journal_read in H. apply bind_Ok in H as ([] & _ & H).
  apply bind_Ok in H as ([] & _ & H). apply bind_Ok in H as (rs & Ers & H).
  apply bind_Ok in H as (i & Ei & H). apply bind_Ok in H as (os & Eos & H).
  apply map_err_Ok, j_reservations_ok in Ers as ->. apply map_err_Ok, j_originals_ok in Eos as ->.
  pose proof (intents_bound _ _ _ _ Hm) as Hb. destruct Hm as [Hs He].
  rewrite Hr, read_reservations_rows in Ei by done. injection Ei as <-.
  assert (read_originals g producer key false (omap stored_original m) 0 (map strip m) = Ok m) as Hplain
    by (by apply (read_originals_rows g producer key false m [] 0)).
  rewrite Ho in H. simpl in H. destruct auth; [apply read_originals_plain in H|]; congruence.
Qed.

(** Stored rows have one reading. *)
Lemma jstored_unique m m' p : jstored g producer key m p -> jstored g producer key m' p -> m = m'.
Proof.
  assert (forall m, jstored g producer key m p ->
    (i ← read_reservations g producer key (jc_reservations p) [];
     read_originals g producer key false (jc_originals p) 0 i) = Ok m) as Hread.
  { intros k [Hk -> ->]. pose proof (intents_bound _ _ _ _ Hk). destruct Hk.
    rewrite (read_reservations_rows g producer key k []), bind_of_Ok by done.
    by apply (read_originals_rows g producer key false k [] 0). }
  intros H1%Hread H2%Hread. congruence.
Qed.

Lemma jstored_metadata m p ms :
  jstored g producer key m p -> jstored g producer key m (mk_jcontents ms (jc_reservations p) (jc_originals p)).
Proof. by intros [? ? ?]. Qed.

Lemma journal_load_spec c c' r m :
  journal_load g producer key c = (c', r) -> jstored g producer key m (jcommitted c) ->
  jcommitted c' = jcommitted c /\ (forall m', r = Ok m' -> m' = m /\ jtransaction c' = None).
Proof.
  unfold journal_load. intros E Hm. destruct (j_begin c) as [c0 [[]|e0]] eqn:Eb.
  2: { injection E as <- <-. split; [by apply (j_begin_err _ _ _ Eb)|done]. }
  destruct (j_begin_ok _ _ Eb) as [Hc0 Ht0]. destruct (j_rollback c0) as [c1 r1] eqn:E1.
  injection E as <- <-. pose proof (j_rollback_keeps _ _ _ E1) as Hc1. split; [congruence|].
  intros m' (v & Hv & H)%bind_Ok. apply bind_Ok in H as ([] & He & H). injection H as <-.
  apply map_err_Ok in He as ->. split; [|by apply (j_rollback_ok _ _ E1)].
  eapply journal_read_stored; [|exact Hv]. unfold jvisible. by rewrite Ht0.
Qed.

(** Verifying inside a transaction over stored intents. *)
Lemma jsteps_verify m known p :
  jstored g producer key m p ->
  jsteps (j_read (journal_verify g producer key known)) p (fun _ p' => p' = p /\ known = m).
Proof.
  intros Hm. apply jsteps_read. intros c [] Hv (m' & Hr & H)%bind_Ok. split; [done|].
  rewrite <- Hv in Hm. apply (journal_read_stored _ _ _ _ Hm) in Hr as ->. by inv_ok.
Qed.

Lemma journal_barrier_spec sync known c c' r m :
  journal_barrier sync g producer key known c = (c', r) -> jstored g producer key m (jcommitted c) ->
  jstored g producer key m (jcommitted c') /\ (r = Ok () -> jtransaction c' = None).
Proof.
  intros E Hm. unfold journal_barrier, mbind at 1, jsql_bind in E.
  destruct (j_transaction _ c) as [c1 r1] eqn:Et.
  assert ((jcommitted c1 = jcommitted c \/ jstored g producer key m (jcommitted c1)) /\
    (r1 = Ok () -> jtransaction c1 = None /\ jstored g producer key m (jcommitted c1))) as [Hc Hr].
  { apply (transaction_spec _ _ _ _ _ Et).
    eapply jsteps_bind; [by apply jsteps_verify|]. intros [] p [-> _].
    eapply jsteps_bind; [by apply (jsteps_read _ _ (fun _ p => p = jcommitted c))|]. intros ms p ->.
    eapply jsteps_bind; [by apply (jsteps_lift _ _ (fun _ p => p = jcommitted c))|]. intros old p ->.
    eapply jsteps_bind; [by apply (jsteps_lift _ _ (fun _ p => p = jcommitted c))|]. intros next p ->.
    eapply jsteps_bind; [apply jsteps_write|]. intros n p [-> _]. apply jsteps_lift. intros _ _.
    by apply jstored_metadata. }
  destruct r1 as [[]|e]; injection E as <- <-.
  - destruct (Hr eq_refl) as [Ht Hs]. by split.
  - split; [|done]. destruct Hc as [-> | ?]; done.
Qed.

Lemma journal_initialize_keeps c c' r :
  journal_initialize g producer key c = (c', r) -> jcommitted c = empty_journal ->
  jstored g producer key [] (jcommitted c').
Proof.
  intros E Hc. assert (jstored g producer key [] empty_journal) as H0 by (by repeat constructor).
  apply (transaction_spec _ _ _ _ (jstored g producer key [])) in E as [[-> | ?] _]; [by rewrite Hc|done|].
  rewrite Hc. apply (jsteps_bind _ _ _ (fun _ p => p = empty_journal)).
  { intros c1 c2 r1 Hp E1. unfold j_run in E1. destruct (j_create_schema c1) as [c3 r3] eqn:E3.
    injection E1 as <- <-. destruct (j_create_keeps _ _ _ _ Hp E3) as [Hc3 Hr3]. split; [done|].
    intros [] Ha. apply map_err_Ok in Ha as ->. exists empty_journal. by rewrite Hr3. }
  intros [] p ->.
  eapply jsteps_bind; [apply jsteps_write|]. intros n p [-> _].
  apply (jsteps_lift (Ok ())). intros [] _. by repeat constructor.
Qed.
End JournalSteps.

(** ** The constraints of the store *)

(** The column CHECKs of the two row tables; a reserved slot is positive. *)
Definition reservation_check (row : Row) : bool :=
  (length row ==? 2%nat) && cells_ok [(8, 8); (295, 4055)]%Z 0 row &&
  negb (bytes_leb (cell 0 row) (u64_cell 0)).
Definition original_check (row : Row) : bool :=
  (length row ==? 4%nat) && cells_ok [(8, 8); (402, 3650); (65, 65); (32, 32)]%Z 0 row.

Definition jmetadata_check (m : JournalMetadata) : bool :=
  (jm_version m ==? be_bytes 4 1) && (jm_mode m ==? str "c1-signing-authority") &&
  (1 <=? Z.of_nat (length (jm_identity m)))%Z && (Z.of_nat (length (jm_identity m)) <=? 256)%Z &&
  (length (jm_barrier m) ==? 8%nat).

(** The trigger [metadata_policy] lets the update pass. *)
Definition jmetadata_policy (old new : JournalMetadata) : bool :=
  negb ((jm_version new !=? jm_version old) || (jm_mode new !=? jm_mode old) ||
        (jm_identity new !=? jm_identity old)).

(** Some row has the value in this column. *)
Definition taken (k : nat) (row : Row) (rows : list Row) : bool :=
  existsb (fun r => cell k r ==? cell k row) rows.

(** Whether the engine accepts the statement: column checks, the primary and
    unique keys (which the [no_replace] triggers repeat), the reference of an
    original to its reservation and the metadata triggers. *)
Definition jadmissible (w : journal_write) (p : JournalContents) : bool :=
  match w with
  | JMetadata m => (length (jc_metadata p) ==? 0%nat) && jmetadata_check m
  | JReservation row => reservation_check row && negb (taken 0 row (jc_reservations p))
  | JOriginal row =>
      original_check row && negb (taken 0 row (jc_originals p)) && negb (taken 3 row (jc_originals p)) &&
      taken 0 row (jc_reservations p)
  | JBarrier new old =>
      forallb (fun m => if jm_barrier m ==? old then
          jmetadata_policy m (set_jbarrier new m) && jmetadata_check (set_jbarrier new m) else true)
        (jc_metadata p)
  end.

Record jconforms (p : JournalContents) : Prop := {
  jf_metadata : Forall (fun m => jmetadata_check m = true) (jc_metadata p);
  jf_singleton : (length (jc_metadata p) <= 1)%nat;
  jf_reservations : Forall (fun row => reservation_check row = true) (jc_reservations p);
  jf_originals : Forall (fun row => original_check row = true) (jc_originals p);
  jf_slots : NoDup (map (cell 0) (jc_reservations p));
  jf_original_slots : NoDup (map (cell 0) (jc_originals p));
  jf_original_ids : NoDup (map (cell 3) (jc_originals p));
  jf_reserved : Forall (fun row => taken 0 row (jc_reservations p) = true) (jc_originals p)
}.

Lemma taken_true k row rows : taken k row rows = true <-> cell k row ∈ map (cell k) rows.
Proof.
  unfold taken. rewrite existsb_exists, list_elem_of_fmap. split.
  - intros (r & Hr%list_elem_of_In & E%bool_decide_eq_true). eauto.
  - intros (r & E & Hr%list_elem_of_In). exists r. split; [done|]. by apply bool_decide_eq_true.
Qed.

Lemma taken_fresh k row rows : NoDup (map (cell k) (row :: rows)) -> taken k row rows = false.
Proof. cbn [map]. intros [Hn _]%NoDup_cons. apply not_true_iff_false. by rewrite taken_true. Qed.

(** A row statement whose result satisfies the constraints is accepted. *)
Lemma jadmissible_result w p :
  match w with JReservation _ | JOriginal _ => True | _ => False end ->
  jconforms (journal_apply w p).1 -> jadmissible w p = true.
Proof.
  destruct w as [m|row|row|new old]; try done; intros _ [_ _ Hr Ho N1 N2 N3 Hk];
    cbn [journal_apply fst jc_metadata jc_reservations jc_originals jadmissible] in *.
  - rewrite insert_sorted_perm in Hr, N1. apply Forall_cons in Hr as [-> _]. by rewrite taken_fresh.
  - rewrite insert_sorted_perm in Ho, N2, N3, Hk. apply Forall_cons in Ho as [-> _].
    apply Forall_cons in Hk as [-> _]. by rewrite !taken_fresh.
Qed.

(** Two retained envelopes with one id. *)
Definition originals_clash `{Keccak} (l : list bytes) : Prop :=
  exists a b, a ∈ l /\ b ∈ l /\ collides (ENVELOPE_ID_DOMAIN ++ a) (ENVELOPE_ID_DOMAIN ++ b).

Definition journal_originals (m : Intents) : list bytes := omap (fun p => in_original p.2) m.

Lemma originals_clash_mono `{Keccak} l l' : l ⊆ l' -> originals_clash l -> originals_clash l'.
Proof. intros Hs (a & b & Ha & Hb & H'). exists a, b. split_and!; [by apply Hs..|done]. Qed.

(** ** A journal without faults *)

Section Faultless.
  Context {JN : Journal} {L : JournalLaws JN} {KE : Keccak} {KC : K256}.
  Context (g : Genesis) (producer key : bytes).

(** The engine refuses only what the constraints refuse; it opens no
    transaction inside another one. *)
Record faultless : Prop := {
  fl_begin : forall c, jtransaction c = None -> exists c', j_begin c = (c', Ok ());
  fl_commit : forall c p, jtransaction c = Some p -> exists c', j_commit c = (c', Ok ());
  fl_write : forall w c p, jtransaction c = Some p -> jadmissible w p = true ->
    exists c' n, j_write w c = (c', Ok n);
  fl_metadata : forall c, jc_metadata (jvisible c) <> [] -> exists ms, j_metadata c = Ok ms;
  fl_reservations : forall c, jc_metadata (jvisible c) <> [] -> exists rs, j_reservations c = Ok rs;
  fl_originals : forall c, jc_metadata (jvisible c) <> [] -> exists rs, j_originals c = Ok rs;
  fl_schema : forall c, jc_metadata (jvisible c) <> [] -> jconforms (jvisible c) -> j_schema c = Ok ()
}.

(** The store carries the identity of this authority. *)
Definition identified (p : JournalContents) : Prop :=
  exists b, jc_metadata p =
    [mk_jmeta (be_bytes 4 1) (str "c1-signing-authority") (identity g producer key) b] /\ length b = 8%nat.

Lemma identified_metadata p : identified p -> jc_metadata p <> [].
Proof. by intros (b & -> & _). Qed.

Lemma identity_nonempty : (1 <= Z.of_nat (length (identity g producer key)))%Z.
Proof. unfold identity. rewrite length_app. cbn. lia. Qed.

Lemma intent_reservation_check q : intent_ok g producer key q -> reservation_check (reservation_row q) = true.
Proof.
  intros [Hw (block & cand & Hd & Hs & _)]. pose proof (reservation_length _ _ _ _ _ Hd) as Hl.
  apply decode_reservation_iff in Hd as (ids & Hr & _).
  pose proof (cl_limits _ _ _ (cv_claim _ (wb_valid _ (rv_block _ _ _ _ _ _ Hr)))) as [Hpos _].
  rewrite Hs in Hpos. change MAX_RESERVATION_BYTES with 4055%Z in Hl. unfold reservation_check, reservation_row.
  cbn [cells_ok cell nth length]. rewrite bytes_leb_false; [|done|rewrite !u64_cell_val by done; lia].
  by rewrite (proj2 (Z.leb_le 295 _)), (proj2 (Z.leb_le _ 4055)) by lia.
Qed.

(** The row of a retained original and the envelope in it. *)
Lemma stored_original_inv q row :
  intent_ok g producer key q -> stored_original q = Some row ->
  exists bs e, in_original q.2 = Some bs /\ wf_c1_envelope e /\ C1Envelope_wire_bytes e = bs /\
    slot (hc_header (cb_claim (ce_block e))) = q.1 /\ row = original_row q.1 bs e.
Proof.
  intros [Hw (block & cand & _ & Hs & Ho)] E. unfold stored_original in E.
  destruct (in_original q.2) as [bs|]; [|done]. destruct (Ho bs eq_refl) as (e & He & Hb & _).
  simpl in E. rewrite He in E. simpl in E. injection E as <-. apply c1_envelope_codec_iff in He as [Hwe Hwire].
  exists bs, e. by rewrite Hb.
Qed.

Lemma original_row_check s bs e :
  wf_c1_envelope e -> C1Envelope_wire_bytes e = bs -> original_check (original_row s bs e) = true.
Proof.
  intros Hw E. pose proof (envelope_length bs e (proj2 (c1_envelope_codec_iff _ _) (conj Hw E))) as Hl.
  change C1_MAX_ENVELOPE_BYTES with 3650%Z in Hl. unfold original_check, original_row.
  cbn [cells_ok cell nth length]. rewrite (we_signature _ Hw). unfold C1Envelope_id, hash_with_domain.
  rewrite keccak256_length. by rewrite (proj2 (Z.leb_le 402 _)), (proj2 (Z.leb_le _ 3650)) by lia.
Qed.

Lemma original_slots m :
  intents_ok g producer key m -> NoDup (map (cell 0) (map reservation_row m)) /\
    NoDup (map (cell 0) (omap stored_original m)).
Proof.
  intros [Hs Hok]. induction Hok as [|q m Hq Hm IH]; [split; constructor|].
  apply by_slot_cons in Hs as [Hs Hlt]. destruct (IH Hs) as [N1 N2].
  assert (forall x, x ∈ m -> u64_cell q.1 <> u64_cell x.1) as Hne.
  { intros x Hx E. rewrite Forall_forall in Hlt. rewrite Forall_forall in Hm. specialize (Hlt x Hx).
    apply (be_bytes_inj 8 U64) in E; [lia|done|apply Hq|by apply (Hm x Hx)]. }
  split.
  - cbn [map]. constructor; [|done]. rewrite map_map.
    intros (x & E & Hx)%list_elem_of_fmap. by apply (Hne x Hx).
  - cbn [omap list_omap]. destruct (stored_original q) as [row|] eqn:Eq; [|done]. cbn [map]. constructor; [|done].
    destruct (stored_original_inv q row Hq Eq) as (bs & e & _ & _ & _ & _ & ->).
    intros (row' & E & (x & Hx & Ex)%list_elem_of_omap)%list_elem_of_fmap. rewrite Forall_forall in Hm.
    destruct (stored_original_inv x row' (Hm x Hx) Ex) as (? & ? & _ & _ & _ & _ & ->). by apply (Hne x Hx).
Qed.

Lemma original_ids m :
  intents_ok g producer key m ->
  originals_clash (journal_originals m) \/ NoDup (map (cell 3) (omap stored_original m)).
Proof.
  intros Hm. destruct (NoDup_or_repeat (cell 3) (omap stored_original m)) as [?|(i & j & a & b & Hne & Hi & Hj & E)];
    [by right|left]. destruct (original_slots m Hm) as [_ N0]. pose proof (is_entries _ _ _ _ Hm) as Hok.
  rewrite Forall_forall in Hok.
  pose proof (list_elem_of_lookup_2 _ _ _ Hi) as (p & Hp & Ep)%list_elem_of_omap.
  pose proof (list_elem_of_lookup_2 _ _ _ Hj) as (q & Hq & Eq)%list_elem_of_omap.
  destruct (stored_original_inv p a (Hok p Hp) Ep) as (bs & e & Op & We & Wp & Sp & ->).
  destruct (stored_original_inv q b (Hok q Hq) Eq) as (bs' & e' & Oq & We' & Wq & Sq & ->).
  exists bs, bs'. split_and!; [apply list_elem_of_omap; eauto..|]. subst bs bs'.
  destruct (hash_with_domain_inj _ _ _ E) as [Hw|?]; [|done]. exfalso. apply Hne.
  assert (e = e') as <-.
  { pose proof (proj2 (c1_envelope_codec_iff _ _) (conj We Hw)) as E1.
    pose proof (proj2 (c1_envelope_codec_iff _ _) (conj We' eq_refl)) as E2. rewrite E1 in E2. by injection E2. }
  rewrite NoDup_alt in N0. eapply N0; apply list_lookup_fmap_Some; eexists; (split; [|eassumption]); [reflexivity|].
  cbn. by rewrite <- Sp, <- Sq.
Qed.

(** A stored journal satisfies the constraints. *)
Lemma stored_jconforms m p :
  jstored g producer key m p -> identified p -> (Z.of_nat (length (identity g producer key)) <= 256)%Z ->
  originals_clash (journal_originals m) \/ jconforms p.
Proof.
  intros [Hm Hr Ho] (b & Em & Hb) Hl. destruct (original_ids m Hm) as [?|N3]; [by left|right].
  destruct (original_slots m Hm) as [N1 N2]. pose proof (is_entries _ _ _ _ Hm) as Hok.
  constructor; rewrite ?Em, ?Hr, ?Ho; try done.
  - constructor; [|constructor]. unfold jmetadata_check. cbn [jm_version jm_mode jm_identity jm_barrier]. rewrite Hb.
    pose proof identity_nonempty. by rewrite (proj2 (Z.leb_le 1 _)), (proj2 (Z.leb_le _ 256)) by lia.
  - apply Forall_fmap. eapply Forall_impl; [exact Hok|]. apply intent_reservation_check.
  - apply Forall_forall. intros row (q & Hq & E)%list_elem_of_omap. rewrite Forall_forall in Hok.
    destruct (stored_original_inv q row (Hok q Hq) E) as (bs & e & _ & We & Wq & _ & ->). by apply original_row_check.
  - apply Forall_forall. intros row (q & Hq & E)%list_elem_of_omap. rewrite Forall_forall in Hok.
    destruct (stored_original_inv q row (Hok q Hq) E) as (bs & e & _ & _ & _ & _ & ->). apply taken_true.
    rewrite map_map. by apply (list_elem_of_fmap_2 (fun x => u64_cell x.1)).
Qed.

Lemma identified_policy c :
  faultless -> identified (jvisible c) -> (Z.of_nat (length (identity g producer key)) <= 256)%Z ->
  jpolicy g producer key c = Ok ().
Proof.
  intros F Hi Hl. destruct (fl_metadata F c (identified_metadata _ Hi)) as [ms E].
  destruct Hi as (b & Hm & Hb). unfold jpolicy.
  pose proof (j_metadata_ok _ _ E) as Ems. rewrite E. unfold sign_invalid. cbn [map_err]. rewrite bind_of_Ok, Ems, Hm.
  cbn [jm_version jm_mode jm_identity jm_barrier]. pose proof identity_nonempty.
  rewrite (jblob_ok (be_bytes 4 1)), bind_of_Ok, neq_dec_false by done.
  simpl fail_if. rewrite bind_of_Ok, neq_dec_false by done. simpl fail_if. rewrite bind_of_Ok.
  rewrite (jblob_ok (identity g producer key)), bind_of_Ok, neq_dec_false by done.
  simpl fail_if. rewrite bind_of_Ok. by rewrite jblob_ok by (rewrite Hb; lia).
Qed.

Lemma faultless_verify m c :
  faultless -> jstored g producer key m (jvisible c) -> identified (jvisible c) -> jconforms (jvisible c) ->
  (Z.of_nat (length (identity g producer key)) <= 256)%Z ->
  journal_verify g producer key m c = Ok ().
Proof.
  intros F Hm Hi Hcf Hl. unfold journal_verify, journal_read. pose proof (identified_metadata _ Hi) as Hne.
  rewrite (fl_schema F c Hne Hcf), bind_of_Ok, (identified_policy c F Hi Hl), bind_of_Ok.
  destruct (fl_reservations F c Hne) as [rs Er], (fl_originals F c Hne) as [os Eo]. rewrite Er, Eo.
  pose proof (j_reservations_ok _ _ Er) as ->. pose proof (j_originals_ok _ _ Eo) as ->.
  destruct Hm as [Hk -> ->]. pose proof (intents_bound _ _ _ _ Hk). destruct Hk.
  unfold sign_invalid. cbn [map_err]. rewrite bind_of_Ok, (read_reservations_rows g producer key m []), !bind_of_Ok by done.
  pose proof (read_originals_rows g producer key false m [] 0) as Hread. cbn [app] in *.
  rewrite Hread, bind_of_Ok by (done || lia). by rewrite neq_dec_false.
Qed.

(** One verified row insertion succeeds, unless two retained ids collide. *)
Lemma faultless_transaction m m' w c :
  faultless -> jtransaction c = None -> jstored g producer key m (jcommitted c) -> identified (jcommitted c) ->
  (Z.of_nat (length (identity g producer key)) <= 256)%Z ->
  match w with JReservation _ | JOriginal _ => True | _ => False end ->
  jstored g producer key m' (journal_apply w (jcommitted c)).1 ->
  originals_clash (journal_originals m) \/ originals_clash (journal_originals m') \/
  exists c', j_transaction
      (j_read (journal_verify g producer key m);; x ← j_lift (Ok w); j_run (j_write x);; mret ()) c = (c', Ok ()) /\
    jcommitted c' = (journal_apply w (jcommitted c)).1 /\ jtransaction c' = None.
Proof.
  intros F Ht Hm Hi Hl Hw Hm'. destruct (stored_jconforms m _ Hm Hi Hl) as [?|Hcf]; [by left|right].
  destruct (stored_jconforms m' _ Hm') as [?|Hcf']; [by destruct w|done|by left|right].
  pose proof (jadmissible_result w _ Hw Hcf') as Had.
  destruct (fl_begin F c Ht) as [c0 E0]. destruct (j_begin_ok _ _ E0) as [Hc0 Ht0].
  destruct (fl_write F w c0 _ Ht0 Had) as (c1 & n & E1). destruct (j_write_ok _ _ _ _ _ Ht0 E1) as (Hc1 & Ht1 & _).
  destruct (fl_commit F c1 _ Ht1) as [c2 E2]. destruct (j_commit_ok _ _ _ Ht1 E2) as [Hc2 Ht2].
  exists c2. split; [|done]. unfold j_transaction, mbind, jsql_bind, j_run, j_read, j_lift. rewrite E0.
  cbn [sign_invalid map_err].
  rewrite (faultless_verify m c0 F); [|by unfold jvisible; rewrite Ht0..|done].
  rewrite E1. cbn [sign_invalid map_err]. unfold mret, jsql_ret. by rewrite E2.
Qed.
End Faultless.

(** ** A journal in memory

    It evaluates every statement against the constraints. *)

Definition mem_jview (c : JournalContents * option JournalContents) : JournalContents := default c.1 c.2.

Definition mem_journal : Journal := {|
  jconn := JournalContents * option JournalContents;
  jcommitted := fst;
  jtransaction := snd;
  j_begin c := if c.2 is None then ((c.1, Some c.1), Ok ()) else (c, Err "transaction within a transaction");
  j_commit c := if c.2 is Some p then ((p, None), Ok ()) else (c, Err "no transaction");
  j_rollback c := if c.2 is Some _ then ((c.1, None), Ok ()) else (c, Err "no transaction");
  j_create_schema c := (c, Ok ());
  j_write w c :=
    if jadmissible w (mem_jview c) then
      ((c.1, Some (journal_apply w (mem_jview c)).1), Ok (journal_apply w (mem_jview c)).2)
    else (c, Err "constraint failed");
  j_metadata c := Ok (jc_metadata (mem_jview c));
  j_reservations c := Ok (jc_reservations (mem_jview c));
  j_originals c := Ok (jc_originals (mem_jview c));
  j_schema c := Ok ()
|}.

Lemma mem_journal_laws : JournalLaws mem_journal.
Proof.
  constructor; unfold jvisible; cbn; unfold mem_jview.
  - intros [d [p|]] c' [=]; by simplify_eq/=.
  - intros [d [p|]] c' e [=]; by simplify_eq/=.
  - intros c c' p Hp. rewrite Hp. by intros [= <-].
  - intros c c' p e Hp. by rewrite Hp.
  - intros [d [p|]] c' r [= <- _]; done.
  - intros [d [p|]] c' [=]; by simplify_eq/=.
  - by intros c c' p r Hp [= <- <-].
  - intros w c c' p n Hp. rewrite Hp. cbn. case_match; [by intros [= <- <-]|done].
  - intros w c c' p e Hp. case_match; by intros [= <-].
  - by intros c ms [= <-].
  - by intros c rs [= <-].
  - by intros c rs [= <-].
Qed.

Lemma mem_journal_faultless : @faultless mem_journal.
Proof.
  constructor; cbn; eauto.
  - intros c Hc. rewrite Hc. eauto.
  - intros c p Hp. rewrite Hp. eauto.
  - intros w c p Hp Had. unfold mem_jview. rewrite Hp. cbn. rewrite Had. eauto.
Qed.

(** ** Properties *)

Section JournalProperties.
  Context {KE : Keccak} {KC : K256}.

(** A reservation has one reading.  The decoder accepts exactly the bytes that
    pin the network, the profile, the key and producer of this authority and a
    well-formed block with its slot, hash and parent, the four 32-byte ids of
    the signing base and the candidate id; no two different blocks, bases or
    candidates share a reservation. *)
Theorem reservation_codec bs g producer key block candidate :
  decode_reservation bs g producer key = Ok (block, candidate) <->
  exists ids, reservable (pol_network (g_policy g)) key producer ids candidate block /\
    bs = reservation_layout (pol_network (g_policy g)) key block ids candidate /\
    forall ids' block' candidate',
      reservable (pol_network (g_policy g)) key producer ids' candidate' block' ->
      bs = reservation_layout (pol_network (g_policy g)) key block' ids' candidate' ->
      ids' = ids /\ candidate' = candidate /\ block' = block.
Proof.
  rewrite decode_reservation_iff. split.
  - intros (ids & Hr & ->). exists ids. split_and!; [done..|]. intros ids' b' c' Hr' E.
    by apply (reservation_inj _ _ _ _ _ _ _ _ _ Hr' Hr).
  - intros (ids & Hr & -> & _). eauto.
Qed.
End JournalProperties.
