(* ===== verification/PoashSigning.v ===== *)
(** * The signing authority (src/src/native_poash/signing.rs)

    One secret-holding authority per network and key.  Before the key is used
    for a slot, the exact block is durably reserved; before the signature is
    returned, the complete original is durably retained; a reservation
    without an original is never signed again.  Any failure poisons the
    authority until [recover] has reopened and reconciled the journal.

    The theorems show that over the whole life of a protection store, with
    crashes, failed statements, recoveries and reopenings in any order, the
    key signs at most one block per slot, that the journal never changes an
    entry, and that a returned original is authentic and durable. *)

From S2P Require Import Prelude Codec Crypto BlockCommitment NativeTransaction.
From S2P Require Import NativeTransfer NativeBlock BlockAuthentication LeaderSelection.
From S2P Require Import PoashBase PoashState PoashSelection PoashGenesis PoashClaim.
From S2P Require Import PoashHistory PoashAdmission PoashApplication PoashCompound PoashChain.
From S2P Require Import PoashSnapshot PoashOwner PoashReplay PoashSql PoashCommit PoashJournal.

(** [Original] without its timings. *)
Record Original : Type := mk_original {
  og_bytes : bytes;
  og_id : bytes
}.

(** [signing::RecoveryReport] *)
Record SigningReport : Type := mk_signing_report {
  sr_committed : list Z;
  sr_pending : list Z;
  sr_incomplete : list Z;
  sr_attempted_present : option bool
}.

(** [signing::Attempt] *)
Record SigningAttempt : Type := mk_signing_attempt {
  sat_before : Intents;
  sat_after : Intents
}.

(** [SigningAuthority] without its path, lock and connection. *)
Record SigningAuthority `{K256} : Type := mk_authority {
  sa_genesis : Genesis;
  sa_producer : bytes;
  sa_public_key : bytes;
  sa_key : SigningKey;
  sa_intents : Intents;
  sa_poisoned : bool;
  sa_generation : Z;
  sa_signing_calls : Z;
  sa_attempt : option SigningAttempt
}.

Section Authority.
  Context `{JN : Journal} `{SQ : Sqlite} `{KE : Keccak} `{KC : K256}.

Definition set_sa_intents (a : SigningAuthority) (m : Intents) : SigningAuthority :=
  mk_authority _ (sa_genesis a) (sa_producer a) (sa_public_key a) (sa_key a) m (sa_poisoned a)
    (sa_generation a) (sa_signing_calls a) (sa_attempt a).
Definition set_sa_poisoned (a : SigningAuthority) (b : bool) : SigningAuthority :=
  mk_authority _ (sa_genesis a) (sa_producer a) (sa_public_key a) (sa_key a) (sa_intents a) b
    (sa_generation a) (sa_signing_calls a) (sa_attempt a).
Definition set_sa_generation (a : SigningAuthority) (n : Z) : SigningAuthority :=
  mk_authority _ (sa_genesis a) (sa_producer a) (sa_public_key a) (sa_key a) (sa_intents a)
    (sa_poisoned a) n (sa_signing_calls a) (sa_attempt a).
Definition set_sa_calls (a : SigningAuthority) (n : Z) : SigningAuthority :=
  mk_authority _ (sa_genesis a) (sa_producer a) (sa_public_key a) (sa_key a) (sa_intents a)
    (sa_poisoned a) (sa_generation a) n (sa_attempt a).
Definition set_sa_attempt (a : SigningAuthority) (t : option SigningAttempt) : SigningAuthority :=
  mk_authority _ (sa_genesis a) (sa_producer a) (sa_public_key a) (sa_key a) (sa_intents a)
    (sa_poisoned a) (sa_generation a) (sa_signing_calls a) t.

(** The free function [original]. *)
Definition retained_original (bs : bytes) : result sign_error Original :=
  e ← application (C1Envelope_from_wire_bytes bs);
  Ok (mk_original bs (C1Envelope_id e)).

(** ** Reconciliation with the canonical owner *)

(** One round of the loop over the intents. *)
Definition reconcile_intent (g : Genesis) (producer key : bytes) (o : Owner) (p : Z * Intent)
    (report : SigningReport) : result sign_error SigningReport :=
  '(view, evidence) ← application (signing_history o p.1);
  fail_if (view_genesis view !=? g) (SignError.Invalid "independent signer/owner genesis differs");;
  '(block, candidate) ← decode_reservation (in_reservation p.2) g producer key;
  selection ← application (protocol (view_select view));
  fail_if ((reservation view evidence key block candidate !=? in_reservation p.2) ||
           (sel_owner selection !=? producer) ||
           (sel_ticket selection !=? ticket_id (hc_header (cb_claim block)))) (SignError.Conflict p.1);;
  match in_original p.2, sn_records (ow_snapshot o) !! Z.to_nat (p.1 - 1) with
  | None, None =>
      Ok (mk_signing_report (sr_committed report) (sr_pending report) (sr_incomplete report ++ [p.1])
            (sr_attempted_present report))
  | Some bs, Some record =>
      fail_if ((bs !=? C1Envelope_wire_bytes (ae_envelope (br_proof record))) ||
               (candidate !=? cs_id (br_state record))) (SignError.Conflict p.1);;
      Ok (mk_signing_report (sr_committed report ++ [p.1]) (sr_pending report) (sr_incomplete report)
            (sr_attempted_present report))
  | Some _, None =>
      Ok (mk_signing_report (sr_committed report) (sr_pending report ++ [p.1]) (sr_incomplete report)
            (sr_attempted_present report))
  | None, Some _ => Err (SignError.Invalid "canonical signature absent from protection")
  end.

Fixpoint reconcile_intents (g : Genesis) (producer key : bytes) (o : Owner) (m : Intents)
    (report : SigningReport) : result sign_error SigningReport :=
  match m with
  | [] => Ok report
  | p :: rest =>
      report ← reconcile_intent g producer key o p report;
      reconcile_intents g producer key o rest report
  end.

(** The loop over the canonical records: own-key history must be retained. *)
Fixpoint retained_history (producer : bytes) (m : Intents) (rs : list BlockRecord) :
    result sign_error () :=
  match rs with
  | [] => Ok ()
  | r :: rest =>
      fail_if ((hc_producer (cb_claim (br_block r)) ==? producer) &&
               negb (contains (intent_get (pos_slot (br_position r)) m)))
        (SignError.Invalid "own-key canonical history lacks original signing protection");;
      retained_history producer m rest
  end.

Definition sign_reconcile (m : Intents) (g : Genesis) (producer key : bytes) (o : Owner) :
    result sign_error SigningReport :=
  snapshot ← application (owner_snapshot o);
  '(view, _) ← application (signing_history o 1);
  fail_if (view_genesis view !=? g) (SignError.Invalid "independent signer/owner genesis differs");;
  report ← reconcile_intents g producer key o m (mk_signing_report [] [] [] None);
  retained_history producer m (sn_records snapshot);;
  Ok report.

(** [SigningAuthority::ready] and [SigningAuthority::reconcile] *)
Definition sa_ready (a : SigningAuthority) (o : Owner) : result sign_error () :=
  fail_if (sa_poisoned a || ow_poisoned o || ow_halted o || (sa_generation a !=? ow_generation o))
    SignError.Blocked.
Definition sa_reconcile (a : SigningAuthority) (o : Owner) : result sign_error SigningReport :=
  sign_reconcile (sa_intents a) (sa_genesis a) (sa_producer a) (sa_public_key a) o.

(** ** Persisting an entry *)

(** The row [persist] inserts; indexing a missing slot is a panic no caller
    can reach. *)
Definition persist_row (next : Intents) (s : Z) (completed : bool) : result sign_error journal_write :=
  i ← ok_or (intent_get s next) (SignError.Invalid "no entry");
  if completed then
    bs ← ok_or (in_original i) (SignError.Invalid "complete original");
    e ← application (C1Envelope_from_wire_bytes bs);
    Ok (JOriginal (original_row s bs e))
  else Ok (JReservation (reservation_row (s, i))).

Definition persist (sync : result string ()) (a : SigningAuthority) (c : jconn) (next : Intents) (s : Z)
    (completed : bool) : SigningAuthority * jconn * result sign_error () :=
  let a := set_sa_attempt a (Some (mk_signing_attempt (sa_intents a) next)) in
  let '(c, r) :=
    (j_transaction
       (j_read (journal_verify (sa_genesis a) (sa_producer a) (sa_public_key a) (sa_intents a));;
        w ← j_lift (persist_row next s completed);
        j_run (j_write w);;
        mret ());;
     j_lift (sign_invalid sync)) c in
  match r with
  | Err e => (a, c, Err e)
  | Ok _ => (set_sa_attempt (set_sa_intents a next) None, c, Ok ())
  end.

(** [next.get_mut(&slot)...original = Some(bytes)] *)
Definition complete_intent (s : Z) (bs : bytes) (m : Intents) : Intents :=
  match intent_get s m with
  | Some i => intent_insert s (mk_intent (in_reservation i) (Some bs)) m
  | None => m
  end.

(** ** Signing *)

(** The closure of [sign_prepared] once the reservation is durable: sign, then
    retain.  [None] is a signature loop that is still running. *)
Definition sign_reserved (entropy : nat -> option Entropy) (fuel : nat) (sync : result string ())
    (a : SigningAuthority) (c : jconn) (block : C1Block) (s : Z) :
    SigningAuthority * jconn * option (result sign_error Original) :=
  match checked_add U64 (sa_signing_calls a) 1 with
  | None => (a, c, Some (Err (SignError.Invalid "signing diagnostic counter exhausted")))
  | Some n =>
      let a := set_sa_calls a n in
      let network := pol_network (g_policy (sa_genesis a)) in
      match sign_digest (sa_key a) (claim_signing_digest (cb_claim block) network) entropy fuel with
      | None => (a, c, None)
      | Some (Err e) => (a, c, Some (Err (SignError.Signing e)))
      | Some (Ok signature) =>
          let bs := C1Envelope_wire_bytes (C1Envelope_from_parts block network signature) in
          let '(a, c, retained) := persist sync a c (complete_intent s bs (sa_intents a)) s true in
          match retained with
          | Err e => (a, c, Some (Err e))
          | Ok _ => (a, c, Some (retained_original bs))
          end
      end
  end.

(** The whole closure; [sync1] and [sync2] are what the two path syncs return. *)
Definition sign_new (entropy : nat -> option Entropy) (fuel : nat) (sync1 sync2 : result string ())
    (a : SigningAuthority) (c : jconn) (block : C1Block) (s : Z) (r : bytes) :
    SigningAuthority * jconn * option (result sign_error Original) :=
  let '(a, c, reserved) := persist sync1 a c (intent_insert s (mk_intent r None) (sa_intents a)) s false in
  match reserved with
  | Err e => (a, c, Some (Err e))
  | Ok _ => sign_reserved entropy fuel sync2 a c block s
  end.

(** [intents.iter().find(|(_, i)| i.original.is_none())] *)
Definition first_incomplete (m : Intents) : option Z :=
  fst <$> head (filter (fun p => in_original p.2 = None) m).

(** The checks before the reservation, on the owner's verified base. *)
Definition sign_request (a : SigningAuthority) (o : Owner) (pb : PreparedBlock)
    (viewed : result app_error SlotStartView) : result sign_error (Z * bytes) :=
  view ← application viewed;
  sa_reconcile a o;;
  fail_if (hc_producer (cb_claim (pb_block pb)) !=? sa_producer a)
    (SignError.Invalid "not configured selected producer");;
  '(_, evidence) ← application (signing_history o (sv_slot view));
  Ok (sv_slot view,
      reservation view evidence (sa_public_key a) (pb_block pb) (cs_id (pb_candidate pb))).

Definition sign_prepared (entropy : nat -> option Entropy) (fuel : nat) (sync1 sync2 : result string ())
    (a : SigningAuthority) (c : jconn) (o : Owner) (oc : conn) (pb : PreparedBlock) :
    SigningAuthority * jconn * conn * option (result sign_error Original) :=
  match sa_ready a o with
  | Err e => (a, c, oc, Some (Err e))
  | Ok _ =>
      let '(oc, viewed) := signing_view o pb oc in
      match sign_request a o pb viewed with
      | Err e => (a, c, oc, Some (Err e))
      | Ok (s, r) =>
          match intent_get s (sa_intents a) with
          | Some old =>
              (a, c, oc,
               Some (fail_if (in_reservation old !=? r) (SignError.Conflict s);;
                     bs ← ok_or (in_original old) (SignError.Incomplete s);
                     retained_original bs))
          | None =>
              match first_incomplete (sa_intents a) with
              | Some k => (a, c, oc, Some (Err (SignError.Incomplete k)))
              | None =>
                  let '(a, c, res) := sign_new entropy fuel sync1 sync2 a c (pb_block pb) s r in
                  (if res is Some (Err _) then set_sa_poisoned a true else a, c, oc, res)
              end
          end
      end
  end.

(** [SigningAuthority::original], [check_application] and [status] *)
Definition sa_original (a : SigningAuthority) (o : Owner) (s : Z) : result sign_error Original :=
  sa_ready a o;;
  sa_reconcile a o;;
  i ← ok_or (intent_get s (sa_intents a)) (SignError.Invalid "no retained slot");
  bs ← ok_or (in_original i) (SignError.Incomplete s);
  retained_original bs.

Definition check_application (a : SigningAuthority) (o : Owner) (s : Z) (stage : StagedBlock) :
    result sign_error () :=
  sa_ready a o;;
  sa_reconcile a o;;
  i ← ok_or (intent_get s (sa_intents a)) (SignError.Invalid "unreserved application");
  '(_, candidate) ← decode_reservation (in_reservation i) (sa_genesis a) (sa_producer a) (sa_public_key a);
  let record := sb_record stage in
  fail_if ((in_original i !=? Some (C1Envelope_wire_bytes (ae_envelope (br_proof record)))) ||
           (cs_id (br_state record) !=? candidate)) (SignError.Conflict s).

Definition sa_status (a : SigningAuthority) (o : Owner) : result sign_error SigningReport :=
  sa_ready a o;; sa_reconcile a o.

(** ** Recovery and opening *)

Definition reconcile_loaded (a : SigningAuthority) (loaded : Intents) : result sign_error (option bool) :=
  match sa_attempt a with
  | Some t =>
      if loaded ==? sat_after t then Ok (Some true)
      else if loaded ==? sat_before t then Ok (Some false)
      else Err (SignError.Invalid "different exact signing attempt")
  | None =>
      fail_if (loaded !=? sa_intents a) (SignError.Invalid "known signing originals/reservations changed");;
      Ok None
  end.

(** [SigningAuthority::recover]; [opened] is the result of reopening and
    configuring the file after the old connection was dropped. *)
Definition sa_recover (a : SigningAuthority) (o : Owner) (opened : result sign_error jconn)
    (sync : result string ()) : SigningAuthority * option jconn * result sign_error SigningReport :=
  let a := set_sa_poisoned a true in
  let g := sa_genesis a in
  match opened with
  | Err e => (a, None, Err e)
  | Ok c =>
      let '(c, loading) := journal_load g (sa_producer a) (sa_public_key a) c in
      match (loaded ← loading; present ← reconcile_loaded a loaded;
             report ← sign_reconcile loaded g (sa_producer a) (sa_public_key a) o;
             Ok (loaded, present, report)) with
      | Err e => (a, Some c, Err e)
      | Ok (loaded, present, report) =>
          let '(c, durable) := journal_barrier sync g (sa_producer a) (sa_public_key a) loaded c in
          match durable with
          | Err e => (a, Some c, Err e)
          | Ok _ =>
              (set_sa_poisoned (set_sa_generation (set_sa_attempt (set_sa_intents a loaded) None)
                 (ow_generation o)) false, Some c,
               Ok (mk_signing_report (sr_committed report) (sr_pending report) (sr_incomplete report) present))
          end
      end
  end.

(** What the file system answers to [open_inner]: resolving the root and
    opening the lock file, taking the lock, creating the store exclusively or
    finding it, and opening it. *)
Record SigningFiles : Type := mk_signing_files {
  sf_lock_file : result sign_error ();
  sf_locked : bool;
  sf_created : result sign_error ();
  sf_present : result sign_error bool;
  sf_opened : result sign_error jconn;
  sf_create_sync : result string ();
  sf_barrier_sync : result string ()
}.

Definition open_checks (f : SigningFiles) (g : Genesis) (producer : bytes) (key : SigningKey) (o : Owner)
    (create : bool) : result sign_error (ValidatorConfig * jconn) :=
  configured ← ok_or (find_config (pol_configs (g_policy g)) producer) (SignError.Invalid "unknown signer");
  fail_if (encoded_point true (verifying_key key) !=? cfg_public_key configured)
    (SignError.Invalid "configured signer key mismatch");;
  sf_lock_file f;;
  fail_if (negb (sf_locked f)) SignError.Owned;;
  (if create then
     snapshot ← application (owner_snapshot o);
     fail_if (pos_slot (tip snapshot) !=? 0)%Z
       (SignError.Invalid "fresh signing protection requires independent slot0");;
     sf_created f
   else
     present ← sf_present f;
     fail_if (negb present) SignError.Missing);;
  c ← sf_opened f;
  Ok (configured, c).

Definition initialize_store (f : SigningFiles) (g : Genesis) (producer pk : bytes) (create : bool) : jsql () :=
  if create then journal_initialize g producer pk;; j_lift (sign_invalid (sf_create_sync f))
  else mret ().

(** The connection is the one that is open at the end, if any was opened. *)
Definition open_inner (f : SigningFiles) (g : Genesis) (producer : bytes) (key : SigningKey) (o : Owner)
    (create : bool) : option jconn * result sign_error SigningAuthority :=
  match open_checks f g producer key o create with
  | Err e => (None, Err e)
  | Ok (configured, c) =>
      let pk := cfg_public_key configured in
      let '(c, r) :=
        (initialize_store f g producer pk create;;
         m ← journal_load g producer pk;
         j_lift (sign_reconcile m g producer pk o);;
         journal_barrier (sf_barrier_sync f) g producer pk m;;
         mret m) c in
      (Some c, m ← r; Ok (mk_authority _ g producer pk key m false (ow_generation o) 0 None))
  end.
End Authority.

(** ** What a signing request pins *)

Section Requests.
  Context {JN : Journal} {L : JournalLaws JN} {SQ : Sqlite} {KE : Keccak} {KC : K256} {KL : K256Laws KC}.
  Context (run_id : bytes) (Hdist : distinct_producers) (producer : bytes).

Let g := genesis_of run_id.

(** An owner of this run with audited history; every reachable owner is one. *)
Definition audited_owner (o : Owner) : Prop := ow_genesis o = g /\ audited g (ow_snapshot o).

(** Prepared blocks only come from an owner of this run. *)
Definition issued_prepared (pb : PreparedBlock) : Prop :=
  exists o who ticket body, live_owner run_id o /\ prepare_next o who ticket body = Ok pb.

Definition signing_config (v : ValidatorConfig) : Prop := find_config approved_configs producer = Some v.

(** An authority configured for this producer's registered key. *)
Record authority_ok (pk : bytes) (a : SigningAuthority) : Prop := {
  ao_genesis : sa_genesis a = g;
  ao_producer : sa_producer a = producer;
  ao_public_key : sa_public_key a = pk;
  ao_key : encoded_point true (verifying_key (sa_key a)) = pk
}.

Lemma live_view_ids px view :
  live_view run_id px view -> length (cs_id (view_state view)) = 32%nat /\
  length (px_id (sv_prefix view)) = 32%nat /\ length (sv_id view) = 32%nat.
Proof.
  intros Hv. destruct (live_view_facts _ _ _ Hv) as (Epx & Est & _). destruct Hv as [Hp Hv].
  rewrite Epx, Est. split_and!.
  - rewrite (lv_closed _ _ (lp_live _ _ Hp)). apply keccak256_length.
  - pose proof (lp_accepted _ _ Hp) as [_ E]%prefix_sound. rewrite E. apply keccak256_length.
  - unfold slot_start in Hv. cbv zeta in Hv. apply bind_Ok in Hv as (s & _ & Hv).
    apply bind_Ok in Hv as ([] & _ & Hv). apply bind_Ok in Hv as (ref & _ & Hv).
    injection Hv as <-. apply keccak256_length.
Qed.

(** The reservation of a request decodes to exactly the prepared block. *)
Lemma request_ok a o oc oc' viewed pb v s r :
  signing_config v -> authority_ok (cfg_public_key v) a -> audited_owner o -> issued_prepared pb ->
  signing_view o pb oc = (oc', viewed) -> sign_request a o pb viewed = Ok (s, r) ->
  wf_c1_block (pb_block pb) /\ hc_producer (cb_claim (pb_block pb)) = producer /\
  slot (hc_header (cb_claim (pb_block pb))) = s /\
  decode_reservation r g producer (cfg_public_key v) = Ok (pb_block pb, cs_id (pb_candidate pb)).
Proof.
  intros Hcfg Ha [Hog Hau] (o0 & who & ticket & body & Ho0 & Hprep) Hsv Hreq.
  unfold sign_request in Hreq. apply bind_Ok in Hreq as (view & Hview & Hreq).
  apply map_err_Ok in Hview as ->. apply bind_Ok in Hreq as (rep & _ & Hreq).
  apply bind_Ok in Hreq as ([] & Hprod & Hreq). apply bind_Ok in Hreq as ([v0 ev] & Hhist & Hreq).
  injection Hreq as <- <-. rewrite (ao_producer _ _ Ha) in Hprod. inv_ok.
  unfold signing_view in Hsv. destruct (check_base o (pb_base pb)) as [[]|] eqn:Hb; [|done].
  apply check_base_ok in Hb as (_ & _ & Hb).
  destruct (prepare_next_ok _ _ _ _ _ _ Ho0 Hprep) as (Hb0 & view' & sel & native & rec & P & _).
  rewrite Hb in Hb0. unfold owner_base in Hb0. injection Hb0 as _ _ Hsn.
  destruct (sq_begin oc) as [c1 [[]|]]; [|done]. destruct (sq_rollback c1) as [c2 ended].
  injection Hsv as _ Hsv. apply bind_Ok in Hsv as ([] & _ & Hsv). apply bind_Ok in Hsv as ([] & _ & Hsv).
  unfold owner_slot_start in Hsv. apply bind_Ok in Hsv as ([] & _ & Hsv).
  rewrite Hog, Hsn in Hsv. pose proof (pr_view _ _ _ _ _ _ _ _ P) as Pv. fold g in Pv.
  rewrite Hsv in Pv. injection Pv as <-.
  destruct (audited_has_prefix run_id Hdist _ (lo_audited _ _ Ho0)) as [px A].
  pose proof (slot_view_prefix _ _ _ _ A Hsv) as Hv.
  destruct (built_block _ _ _ _ _ _ _ Hv (pr_stage _ _ _ _ _ _ _ _ P) (pr_select _ _ _ _ _ _ _ _ P))
    as (block & Eb & Hw & Hf & _).
  rewrite (pr_build _ _ _ _ _ _ _ _ P) in Eb. injection Eb as <-.
  destruct (live_view_ids _ _ Hv) as (L1 & L2 & L3).
  destruct (live_view_facts _ _ _ Hv) as (_ & _ & Hg & _).
  split_and!; [done..|by rewrite (bf_slot _ _ _ _ Hf)|].
  rewrite reservation_eq by apply Hf. rewrite Hg, (ao_public_key _ _ Ha).
  apply decode_reservation_iff. eexists. split; [|reflexivity].
  constructor; [apply keccak256_length| |done| | |done].
  - apply find_config_Some in Hcfg as [Hin _]. by apply approved_configs_ok.
  - unfold view_ids. rewrite !length_app, L1, L2, L3. unfold signing_history in Hhist.
    apply map_err_Ok in Hhist. apply bind_Ok in Hhist as ([] & _ & Hhist).
    apply bind_Ok in Hhist as ([] & _ & Hhist). apply bind_Ok in Hhist as (pr & _ & Hhist).
    apply bind_Ok in Hhist as (vw & _ & Hhist). injection Hhist as _ <-.
    unfold hash_with_domain. by rewrite keccak256_length.
  - pose proof (pr_compound _ _ _ _ _ _ _ _ P) as Hc.
    apply (compound_spec _ _ _ _ _ _ _ _ Hv (pr_stage _ _ _ _ _ _ _ _ P)) in Hc as (? & _ & ->).
    apply keccak256_length.
Qed.

(** ** Reserving, signing and retaining *)

Lemma authority_ok_ext pk a a' :
  authority_ok pk a -> sa_genesis a' = sa_genesis a -> sa_producer a' = sa_producer a ->
  sa_public_key a' = sa_public_key a -> sa_key a' = sa_key a -> authority_ok pk a'.
Proof. intros [? ? ? ?] ? ? ? E. constructor; rewrite ?E; congruence. Qed.

Lemma insert_insert t i j m : intent_insert t j (intent_insert t i m) = intent_insert t j m.
Proof.
  induction m as [|p m IH]; cbn [intent_insert fst]; [by rewrite Z.ltb_irrefl, Z.eqb_refl|].
  destruct (t <? p.1)%Z eqn:E1; [cbn [intent_insert fst]; by rewrite Z.ltb_irrefl, Z.eqb_refl|].
  destruct (t =? p.1)%Z eqn:E2; cbn [intent_insert fst]; [by rewrite Z.ltb_irrefl, Z.eqb_refl|].
  by rewrite E1, E2, IH.
Qed.

Lemma persist_spec pk sync a c next t completed a' c' r m :
  authority_ok pk a -> jstored g producer pk m (jcommitted c) ->
  (forall p w, jstored g producer pk m p -> sa_intents a = m -> persist_row next t completed = Ok w ->
     jstored g producer pk next (journal_apply w p).1) ->
  persist sync a c next t completed = (a', c', r) ->
  (jcommitted c' = jcommitted c \/ sa_intents a = m /\ jstored g producer pk next (jcommitted c')) /\
  match r with
  | Ok _ => sa_intents a = m /\ jstored g producer pk next (jcommitted c') /\ jtransaction c' = None /\
      a' = set_sa_attempt (set_sa_intents a next) None
  | Err _ => a' = set_sa_attempt a (Some (mk_signing_attempt (sa_intents a) next))
  end.
Proof.
  intros Ha Hm Hw H. unfold persist in H. cbn [sa_genesis sa_producer sa_public_key sa_intents set_sa_attempt] in H.
  rewrite (ao_genesis _ _ Ha), (ao_producer _ _ Ha), (ao_public_key _ _ Ha) in H.
  unfold mbind at 1, jsql_bind in H. destruct (j_transaction _ c) as [c1 r1] eqn:Et.
  apply (transaction_spec _ _ _ _ (fun p => sa_intents a = m /\ jstored g producer pk next p)) in Et as [Hc Hr].
  - destruct r1 as [[]|e].
    + destruct (Hr eq_refl) as (Ht & Em & Hn). unfold j_lift in H.
      destruct (sign_invalid sync) as [[]|]; injection H as <- <- <-; split; by auto.
    + injection H as <- <- <-. split; [done|done].
  - eapply jsteps_bind; [by apply jsteps_verify|]. intros [] p [-> Em].
    eapply jsteps_bind; [apply (jsteps_lift _ _ (fun w p => p = jcommitted c /\
      persist_row next t completed = Ok w)); by intros|]. intros w p [-> Erow].
    eapply jsteps_bind; [apply jsteps_write|]. intros n p [-> _].
    apply (jsteps_lift (Ok ())). intros [] _. split; [done|]. by apply Hw.
Qed.

(** What one signing call may leave in the journal, and whether it used the
    key: nothing, a reservation, or a reservation with its original. *)
Inductive signed (m : Intents) (t : Z) (r : bytes) (block : C1Block) : bool -> Intents -> Prop :=
| signed_nothing : signed m t r block false m
| signed_reserved used : signed m t r block used (intent_insert t (mk_intent r None) m)
| signed_retained bs proof :
    open_envelope g bs = Ok proof -> ce_block (ae_envelope proof) = block ->
    signed m t r block true (intent_insert t (mk_intent r (Some bs)) m).

Lemma signature_opens v a block fuel entropy signature :
  signing_config v -> authority_ok (cfg_public_key v) a -> wf_c1_block block ->
  hc_producer (cb_claim block) = producer ->
  sign_digest (sa_key a) (claim_signing_digest (cb_claim block) (pol_network (g_policy g))) entropy fuel =
    Some (Ok signature) ->
  let e := C1Envelope_from_parts block (pol_network (g_policy g)) signature in
  C1Envelope_from_wire_bytes (C1Envelope_wire_bytes e) = Ok e /\
  exists proof, open_envelope g (C1Envelope_wire_bytes e) = Ok proof /\ ae_envelope proof = e.
Proof.
  intros Hcfg Ha Hw Hp Hs e. apply sign_digest_Ok in Hs as [Hsig Hrec].
  assert (C1Envelope_from_wire_bytes (C1Envelope_wire_bytes e) = Ok e) as He.
  { apply c1_envelope_codec_iff. split; [|done]. constructor; [done|apply keccak256_length|].
    cbn [ce_signature e C1Envelope_from_parts]. by apply signature_from_bytes_id in Hsig as [? _]. }
  split; [done|]. unfold open_envelope. rewrite He, bind_of_Ok. unfold C1Envelope_authenticate.
  cbn [ce_block ce_network ce_signature e C1Envelope_from_parts].
  pose (h := mk_auth_header (cb_claim block) (pol_network (g_policy g)) (mk_native_signature signature)
    (claim_signing_digest (cb_claim block) (pol_network (g_policy g))) (cfg_public_key v)).
  assert (HeaderClaim_authenticate (cb_claim block) g (pol_network (g_policy g)) signature = Ok h) as ->.
  { apply claim_authenticate_iff. constructor; try done. exists v, (verifying_key (sa_key a)).
    rewrite Hp. split_and!; [exact Hcfg|done|exact Hrec|apply Ha]. }
  eexists. by split.
Qed.

(** The two entries a signing call writes are well formed. *)
Lemma entry_ok pk block r cand t o :
  decode_reservation r g producer pk = Ok (block, cand) -> slot (hc_header (cb_claim block)) = t ->
  wf_c1_block block ->
  (forall bs, o = Some bs -> exists e, C1Envelope_from_wire_bytes bs = Ok e /\ ce_block e = block /\
     ce_network e = pol_network (g_policy g)) ->
  intent_ok g producer pk (t, mk_intent r o).
Proof.
  intros Hd <- Hw Ho. constructor; [apply (wb_header _ Hw)|]. exists block, cand. by split_and!.
Qed.

Lemma reserve_writes pk m t r block cand :
  intent_get t m = None -> decode_reservation r g producer pk = Ok (block, cand) ->
  slot (hc_header (cb_claim block)) = t -> wf_c1_block block ->
  forall p w, jstored g producer pk m p ->
    persist_row (intent_insert t (mk_intent r None) m) t false = Ok w ->
    jstored g producer pk (intent_insert t (mk_intent r None) m) (journal_apply w p).1.
Proof.
  intros Hg Hd Hs Hw p w Hp E. unfold persist_row in E. rewrite intent_get_insert in E. cbn [ok_or] in E.
  rewrite bind_of_Ok in E. injection E as <-. apply jstored_reserve; [done|done|]. by eapply entry_ok.
Qed.

Lemma complete_writes pk m t r bs e block cand :
  intent_get t m = Some (mk_intent r None) -> decode_reservation r g producer pk = Ok (block, cand) ->
  slot (hc_header (cb_claim block)) = t -> wf_c1_block block ->
  C1Envelope_from_wire_bytes bs = Ok e -> ce_block e = block -> ce_network e = pol_network (g_policy g) ->
  forall p w, jstored g producer pk m p ->
    persist_row (intent_insert t (mk_intent r (Some bs)) m) t true = Ok w ->
    jstored g producer pk (intent_insert t (mk_intent r (Some bs)) m) (journal_apply w p).1.
Proof.
  intros Hg Hd Hs Hw He Hb Hn p w Hp E. unfold persist_row in E. rewrite intent_get_insert in E.
  cbn [ok_or] in E. rewrite bind_of_Ok in E. cbn [in_original ok_or] in E. rewrite bind_of_Ok, He in E.
  injection E as <-.
  eapply jstored_complete; [done..|]. eapply entry_ok; [done..|]. intros bs' [= <-]. eauto.
Qed.

(** What a signing call promises about authority and journal. *)
Record signing_outcome (pk : bytes) (a : SigningAuthority) (m : Intents) (t : Z) (r : bytes) (block : C1Block)
    (a' : SigningAuthority) (c' : jconn) (res : option (result sign_error Original)) (used : bool)
    (m' : Intents) : Prop := {
  so_signed : signed m t r block used m';
  so_stored : jstored g producer pk m' (jcommitted c');
  so_authority : authority_ok pk a';
  so_poisoned : sa_poisoned a' = sa_poisoned a;
  so_calls : sa_signing_calls a' = (sa_signing_calls a + Z.b2z used)%Z;
  so_original : forall og, res = Some (Ok og) -> sa_intents a' = m' /\ sa_attempt a' = None /\
    jtransaction c' = None /\
    exists proof, open_envelope g (og_bytes og) = Ok proof /\ ce_block (ae_envelope proof) = block /\
      og_id og = C1Envelope_id (ae_envelope proof) /\
      m' = intent_insert t (mk_intent r (Some (og_bytes og))) m
}.

Lemma sign_reserved_spec v entropy fuel sync a c block t r cand a' c' res m :
  let m1 := intent_insert t (mk_intent r None) m in
  signing_config v -> authority_ok (cfg_public_key v) a -> sa_intents a = m1 ->
  jstored g producer (cfg_public_key v) m1 (jcommitted c) ->
  decode_reservation r g producer (cfg_public_key v) = Ok (block, cand) ->
  slot (hc_header (cb_claim block)) = t -> wf_c1_block block -> hc_producer (cb_claim block) = producer ->
  sign_reserved entropy fuel sync a c block t = (a', c', res) ->
  exists used m', signing_outcome (cfg_public_key v) a m t r block a' c' res used m'.
Proof.
  intros m1 Hcfg Ha Em Hm1 Hd Hs Hw Hp H. unfold sign_reserved in H.
  destruct (checked_add U64 (sa_signing_calls a) 1) as [n|] eqn:En.
  2: { injection H as <- <- <-. exists false, m1. constructor; [constructor|done..|simpl; lia|done]. }
  apply checked_add_Some in En as [_ ->]. cbv zeta in H.
  cbn [sa_genesis sa_key sa_intents set_sa_calls] in H. rewrite (ao_genesis _ _ Ha), Em in H.
  destruct (sign_digest _ _ _ _) as [[signature|e]|] eqn:Hsig.
  2,3: injection H as <- <- <-; exists true, m1;
    constructor; [constructor|done|by eapply authority_ok_ext|done..].
  destruct (signature_opens v a block fuel entropy signature Hcfg Ha Hw Hp Hsig) as (Hwire & proof & Hop & Hpr).
  set (e := C1Envelope_from_parts block (pol_network (g_policy g)) signature) in *.
  set (bs := C1Envelope_wire_bytes e) in *.
  assert (intent_get t m1 = Some (mk_intent r None)) as Hg1 by apply intent_get_insert.
  unfold complete_intent in H. rewrite Hg1 in H. cbn [in_reservation] in H.
  destruct (persist sync _ _ _ _ _) as [[a2 c2] r2] eqn:E2.
  apply (persist_spec (cfg_public_key v) _ _ _ _ _ _ _ _ _ m1) in E2 as [Hc2 Hr2];
    [|by eapply authority_ok_ext|done|intros; by eapply complete_writes].
  assert (intent_insert t (mk_intent r (Some bs)) m1 = intent_insert t (mk_intent r (Some bs)) m) as Em2
    by apply insert_insert. rewrite Em2 in *.
  assert (signed m t r block true (intent_insert t (mk_intent r (Some bs)) m)) as Hret
    by (eapply signed_retained; [exact Hop|by rewrite Hpr]).
  destruct r2 as [[]|e2].
  - destruct Hr2 as (_ & Hm2 & Ht2 & ->). injection H as <- <- <-.
    eexists true, _. constructor; [exact Hret|done|by eapply authority_ok_ext|done|done|].
    intros og [= Hog]. unfold retained_original in Hog. rewrite Hwire in Hog. injection Hog as <-.
    split_and!; [done..|]. exists proof. rewrite Hpr. by split_and!.
  - injection H as <- <- <-. subst a2. destruct Hc2 as [Hc2|[_ Hc2]].
    + exists true, m1. constructor; [constructor|by rewrite Hc2|by eapply authority_ok_ext|done..].
    + eexists true, _. constructor; [exact Hret|done|by eapply authority_ok_ext|done..].
Qed.

Lemma sign_new_spec v entropy fuel sync1 sync2 a c block t r cand a' c' res m :
  signing_config v -> authority_ok (cfg_public_key v) a -> sa_intents a = m ->
  jstored g producer (cfg_public_key v) m (jcommitted c) -> intent_get t m = None ->
  decode_reservation r g producer (cfg_public_key v) = Ok (block, cand) ->
  slot (hc_header (cb_claim block)) = t -> wf_c1_block block -> hc_producer (cb_claim block) = producer ->
  sign_new entropy fuel sync1 sync2 a c block t r = (a', c', res) ->
  exists used m', signing_outcome (cfg_public_key v) a m t r block a' c' res used m'.
Proof.
  intros Hcfg Ha Em Hm Hg Hd Hs Hw Hp H. unfold sign_new in H. rewrite Em in H.
  destruct (persist sync1 _ _ _ _ _) as [[a1 c1] r1] eqn:E1.
  apply (persist_spec _ _ _ _ _ _ _ _ _ _ m Ha Hm) in E1 as [Hc1 Hr1];
    [|intros; by eapply reserve_writes].
  destruct r1 as [[]|e1].
  - destruct Hr1 as (_ & Hm1 & Ht1 & ->). eapply sign_reserved_spec in H as (used & m' & []); [|done|
      by eapply authority_ok_ext|done..]. by exists used, m'.
  - injection H as <- <- <-. subst a1. destruct Hc1 as [Hc1|[_ Hc1]].
    + exists false, m.
      constructor; [constructor|by rewrite Hc1|by eapply authority_ok_ext|done|simpl; lia|done].
    + eexists false, _. constructor; [apply signed_reserved|exact Hc1|by eapply authority_ok_ext|done|simpl; lia|done].
Qed.

(** A call either leaves authority and journal alone, perhaps returning what
    is already retained for exactly this block, or makes one fresh attempt. *)
Record fresh_attempt (pk : bytes) (a : SigningAuthority) (m : Intents) (pb : PreparedBlock)
    (a' : SigningAuthority) (c' : jconn) (res : option (result sign_error Original)) (used : bool)
    (m' : Intents) : Prop := {
  fa_reserved : exists r cand, decode_reservation r g producer pk = Ok (pb_block pb, cand) /\
    signed m (slot (hc_header (cb_claim (pb_block pb)))) r (pb_block pb) used m' /\
    (forall og, res = Some (Ok og) -> m' =
       intent_insert (slot (hc_header (cb_claim (pb_block pb)))) (mk_intent r (Some (og_bytes og))) m);
  fa_new : intent_get (slot (hc_header (cb_claim (pb_block pb)))) m = None;
  fa_complete : first_incomplete m = None;
  fa_stored : jstored g producer pk m' (jcommitted c');
  fa_authority : authority_ok pk a';
  fa_calls : sa_signing_calls a' = (sa_signing_calls a + Z.b2z used)%Z;
  fa_poisoned : forall e, res = Some (Err e) -> sa_poisoned a' = true;
  fa_ready : forall og, res = Some (Ok og) -> sa_poisoned a' = false /\ sa_intents a' = m' /\
    sa_attempt a' = None /\ jtransaction c' = None /\
    exists proof, open_envelope g (og_bytes og) = Ok proof /\ ce_block (ae_envelope proof) = pb_block pb /\
      og_id og = C1Envelope_id (ae_envelope proof)
}.

Lemma sign_prepared_spec v entropy fuel sync1 sync2 a c o oc pb a' c' oc' res m :
  signing_config v -> authority_ok (cfg_public_key v) a -> audited_owner o -> issued_prepared pb ->
  jstored g producer (cfg_public_key v) m (jcommitted c) -> (sa_poisoned a = false -> sa_intents a = m) ->
  sign_prepared entropy fuel sync1 sync2 a c o oc pb = (a', c', oc', res) ->
  (a' = a /\ c' = c /\ res <> None /\ forall og, res = Some (Ok og) -> exists i cand,
     intent_get (slot (hc_header (cb_claim (pb_block pb)))) m = Some i /\ in_original i = Some (og_bytes og) /\
     decode_reservation (in_reservation i) g producer (cfg_public_key v) = Ok (pb_block pb, cand) /\
     exists e, C1Envelope_from_wire_bytes (og_bytes og) = Ok e /\ og_id og = C1Envelope_id e) \/
  sa_poisoned a = false /\ exists used m', fresh_attempt (cfg_public_key v) a m pb a' c' res used m'.
Proof.
  intros Hcfg Ha Ho Hpb Hm Hpo H. unfold sign_prepared in H.
  destruct (sa_ready a o) as [[]|] eqn:Hready; [|injection H as <- <- <- <-; by left].
  assert (sa_poisoned a = false) as Hp0 by (unfold sa_ready in Hready; inv_ok; done).
  specialize (Hpo Hp0).
  destruct (signing_view o pb oc) as [oc1 viewed] eqn:Hsv.
  destruct (sign_request a o pb viewed) as [[t r]|] eqn:Hreq; [|injection H as <- <- <- <-; by left].
  destruct (request_ok _ _ _ _ _ _ _ _ _ Hcfg Ha Ho Hpb Hsv Hreq) as (Hw & Hprod & Hs & Hd).
  rewrite Hpo in H. destruct (intent_get t m) as [old|] eqn:Hg.
  - injection H as <- <- <- <-. left. split_and!; [done..|]. intros og [= H].
    apply bind_Ok in H as ([] & Hr & H). apply bind_Ok in H as (bs & Hor & H). apply ok_or_Ok in Hor. inv_ok.
    unfold retained_original in H. apply bind_Ok in H as (e & He & H). injection H as <-.
    apply map_err_Ok in He. rewrite Hs. exists old, (cs_id (pb_candidate pb)). split_and!; [done|done| |eauto].
    match goal with H : in_reservation old = r |- _ => by rewrite H end.
  - destruct (first_incomplete m) as [k|] eqn:Hf; [injection H as <- <- <- <-; by left|].
    right. split; [done|]. destruct (sign_new _ _ _ _ _ _ _ _ _) as [[a1 c1] res1] eqn:Hnew.
    destruct (sign_new_spec _ _ _ _ _ _ _ _ _ _ _ _ _ _ _ Hcfg Ha Hpo Hm Hg Hd Hs Hw Hprod Hnew)
      as (used & m' & [Hsg Hst Ha1 Hp1 Hcalls Hok]).
    exists used, m'. injection H as <- <- <- <-.
    assert (forall x : SigningAuthority, (if res1 is Some (Err _) then set_sa_poisoned x true else x) =
      set_sa_poisoned x (if res1 is Some (Err _) then true else sa_poisoned x)) as Epo
      by (intros []; by destruct res1 as [[]|]).
    rewrite Epo. constructor; rewrite ?Hs; try done.
    + exists r, (cs_id (pb_candidate pb)). split_and!; [done..|]. intros og Hog.
      by destruct (Hok og Hog) as (_ & _ & _ & proof & _ & _ & _ & E).
    + by eapply authority_ok_ext.
    + by intros e ->.
    + intros og Hog. destruct (Hok og Hog) as (Hi & Hat & Htr & proof & Hop & Hb & Hid & _).
      cbn [sa_poisoned sa_intents sa_attempt set_sa_poisoned]. rewrite Hog, Hp1. split_and!; [done..|]. eauto.
Qed.
End Requests.

(** ** The life of a protection store *)

Section Life.
  Context {JN : Journal} {L : JournalLaws JN} {SQ : Sqlite} {KE : Keccak} {KC : K256} {KL : K256Laws KC}.
  Context (run_id : bytes) (Hdist : distinct_producers) (producer : bytes) (v : ValidatorConfig).

Let g := genesis_of run_id.
Let pk := cfg_public_key v.

Definition block_slot (b : C1Block) : Z := slot (hc_header (cb_claim b)).

(** The authority that holds the lock, its connection, the durable contents
    of the store ([None] before it is created) and the history of blocks the
    key was used for. *)
Record signer : Type := mk_signer {
  sg_authority : option SigningAuthority;
  sg_conn : option jconn;
  sg_disk : option JournalContents;
  sg_log : list C1Block
}.

Definition after {A} (r : result sign_error A) (c : option jconn) : option jconn :=
  if r is Ok _ then c else None.

(** The operations that change authority or store, with whatever owner, I/O
    results and entropy the environment supplies.  The program may stop at
    any time ([ss_stop]); a statement that fails stands for a stop inside an
    operation.  A signature loop that never ends is stopped there. *)
Inductive sign_step : signer -> signer -> Prop :=
| ss_create f key o oc r d log :
    (forall c, sf_opened f = Ok c -> jcommitted c = empty_journal) ->
    d = None \/ d = Some empty_journal ->
    open_inner f g producer key o true = (oc, r) ->
    sign_step (mk_signer None None None log)
      (mk_signer (ok r) (after r oc) (if oc is Some c then Some (jcommitted c) else d) log)
| ss_reopen f key o oc r p log :
    (forall c, sf_opened f = Ok c -> jcommitted c = p) ->
    open_inner f g producer key o false = (oc, r) ->
    sign_step (mk_signer None None (Some p) log)
      (mk_signer (ok r) (after r oc) (Some (if oc is Some c then jcommitted c else p)) log)
| ss_sign entropy fuel sync1 sync2 a c o oc pb a' c' oc' res log :
    audited_owner run_id o -> issued_prepared run_id pb ->
    sign_prepared entropy fuel sync1 sync2 a c o oc pb = (a', c', oc', res) ->
    sign_step (mk_signer (Some a) (Some c) (Some (jcommitted c)) log)
      (mk_signer (if res is Some _ then Some a' else None) (if res is Some _ then Some c' else None)
         (Some (jcommitted c'))
         (if (sa_signing_calls a' =? sa_signing_calls a)%Z then log else log ++ [pb_block pb]))
| ss_recover a oc o opened sync a' oc' r p log :
    (forall c, opened = Ok c -> jcommitted c = p) ->
    sa_recover a o opened sync = (a', oc', r) ->
    sign_step (mk_signer (Some a) oc (Some p) log)
      (mk_signer (Some a') oc' (Some (if oc' is Some c then jcommitted c else p)) log)
| ss_stop a oc d log :
    sign_step (mk_signer (Some a) oc d log) (mk_signer None None d log).

(** The journal accounts for every use of the key. *)
Record logged (m : Intents) (log : list C1Block) : Prop := {
  lg_once : NoDup (map block_slot log);
  lg_reserved : forall b, b ∈ log -> exists i cand, intent_get (block_slot b) m = Some i /\
    decode_reservation (in_reservation i) g producer pk = Ok (b, cand);
  lg_originals : forall t i bs, intent_get t m = Some i -> in_original i = Some bs ->
    exists proof, open_envelope g bs = Ok proof /\ ce_block (ae_envelope proof) ∈ log
}.

(** A ready authority knows exactly the durable intents, and its connection
    has no transaction open. *)
Definition authority_knows (a : SigningAuthority) (c : option jconn) (m : Intents) (p : JournalContents) :
    Prop :=
  authority_ok run_id producer pk a /\
  (sa_poisoned a = false -> sa_intents a = m /\ sa_attempt a = None /\
     exists c0, c = Some c0 /\ jcommitted c0 = p /\ jtransaction c0 = None).

Definition signer_ok (n : signer) : Prop :=
  match sg_disk n with
  | None => sg_authority n = None /\ sg_log n = []
  | Some p => exists m, jstored g producer pk m p /\ logged m (sg_log n) /\
      forall a, sg_authority n = Some a -> authority_knows a (sg_conn n) m p
  end.

(** Opening: whatever happens, the journal keeps its intents. *)
Lemma open_inner_spec f key o (create : bool) oc r m :
  signing_config producer v ->
  (forall c, sf_opened f = Ok c -> if create then jcommitted c = empty_journal
     else jstored g producer pk m (jcommitted c)) ->
  (create = true -> m = []) ->
  open_inner f g producer key o create = (oc, r) ->
  (forall c, oc = Some c -> jstored g producer pk m (jcommitted c)) /\
  (forall a, r = Ok a -> exists c, oc = Some c /\ authority_ok run_id producer pk a /\
     sa_intents a = m /\ sa_attempt a = None /\ sa_poisoned a = false /\ jtransaction c = None).
Proof.
  intros Hcfg Hopen Hnil H. unfold open_inner in H.
  destruct (open_checks f g producer key o create) as [[v' c]|] eqn:Hch; [|by injection H as <- <-].
  assert (v' = v /\ encoded_point true (verifying_key key) = pk /\ sf_opened f = Ok c) as (-> & Hkey & Hf).
  { unfold open_checks in Hch. apply bind_Ok in Hch as (w & Hw & Hch). apply bind_Ok in Hch as ([] & Hk & Hch).
    apply bind_Ok in Hch as ([] & _ & Hch). apply bind_Ok in Hch as ([] & _ & Hch).
    apply bind_Ok in Hch as ([] & _ & Hch). apply bind_Ok in Hch as (c0 & Hc0 & Hch). injection Hch as -> ->.
    apply ok_or_Ok in Hw. unfold signing_config in Hcfg. change (pol_configs (g_policy g)) with approved_configs in Hw.
    rewrite Hcfg in Hw. injection Hw as <-. inv_ok. done. }
  fold pk in H. specialize (Hopen c Hf).
  unfold mbind at 1, jsql_bind in H. destruct (initialize_store f g producer pk create c) as [c1 r1] eqn:E1.
  assert (jstored g producer pk m (jcommitted c1)) as Hm1.
  { unfold initialize_store in E1. destruct create; [|by injection E1 as <- <-]. rewrite (Hnil eq_refl) in *.
    unfold mbind, jsql_bind in E1. destruct (journal_initialize g producer pk c) as [c0 r0] eqn:E0.
    pose proof (journal_initialize_keeps g producer pk _ _ _ E0 Hopen) as Hm0.
    destruct r0; injection E1 as <- <-; done. }
  destruct r1 as [[]|e1]; [|injection H as <- <-; split; [by intros ? [= <-]|done]].
  unfold mbind at 1, jsql_bind in H. destruct (journal_load g producer pk c1) as [c2 r2] eqn:E2.
  destruct (journal_load_spec _ _ _ _ _ _ _ E2 Hm1) as [Hc2 Hr2].
  destruct r2 as [m2|e2]; [|injection H as <- <-; split; [intros ? [= <-]; by rewrite Hc2|done]].
  destruct (Hr2 m2 eq_refl) as [-> _]. unfold mbind at 1, jsql_bind, j_lift in H.
  destruct (sign_reconcile m g producer pk o) as [rep|];
    [|injection H as <- <-; split; [intros ? [= <-]; by rewrite Hc2|done]].
  unfold mbind at 1, jsql_bind in H.
  destruct (journal_barrier _ _ _ _ _ c2) as [c3 r3] eqn:E3.
  apply (journal_barrier_spec _ _ _ _ _ _ _ _ m) in E3 as [Hm3 Ht3]; [|by rewrite Hc2].
  destruct r3 as [[]|e3]; injection H as <- <-; (split; [by intros ? [= <-]|]); [|done].
  intros a [= <-]. exists c3. specialize (Ht3 eq_refl). by split_and!.
Qed.

Lemma sa_recover_spec a o opened sync a' oc' r m :
  authority_ok run_id producer pk a ->
  (forall c, opened = Ok c -> jstored g producer pk m (jcommitted c)) ->
  sa_recover a o opened sync = (a', oc', r) ->
  authority_ok run_id producer pk a' /\ (forall c, oc' = Some c -> jstored g producer pk m (jcommitted c)) /\
  match r with
  | Ok rep => sa_poisoned a' = false /\ sa_intents a' = m /\ sa_attempt a' = None /\
      (exists c, oc' = Some c /\ jtransaction c = None) /\ sa_generation a' = ow_generation o /\
      exists rep0, sign_reconcile m g producer pk o = Ok rep0 /\
        reconcile_loaded a m = Ok (sr_attempted_present rep) /\
        sr_committed rep = sr_committed rep0 /\ sr_pending rep = sr_pending rep0 /\
        sr_incomplete rep = sr_incomplete rep0
  | Err _ => a' = set_sa_poisoned a true
  end.
Proof.
  intros Ha Hop H. unfold sa_recover in H.
  cbn [sa_genesis sa_producer sa_public_key set_sa_poisoned] in H.
  rewrite (ao_genesis _ _ _ _ Ha), (ao_producer _ _ _ _ Ha), (ao_public_key _ _ _ _ Ha) in H.
  assert (authority_ok run_id producer pk (set_sa_poisoned a true)) as Ha1 by (by eapply authority_ok_ext).
  destruct opened as [c|e]; [|by injection H as <- <- <-]. specialize (Hop c eq_refl). fold g in H.
  destruct (journal_load g producer pk c) as [c1 r1] eqn:E1.
  destruct (journal_load_spec _ _ _ _ _ _ _ E1 Hop) as [Hc1 Hr1].
  destruct (r1 ≫= _) as [[[loaded present] rep]|e] eqn:Hchk.
  2: { injection H as <- <- <-. split_and!; [done| |done]. intros c0 [= <-]. by rewrite Hc1. }
  apply bind_Ok in Hchk as (m1 & Hl & Hchk). destruct (Hr1 m1 Hl) as [-> _].
  apply bind_Ok in Hchk as (pr & Hp & Hchk). apply bind_Ok in Hchk as (rp & Hrp & Hchk).
  injection Hchk as <- <- <-.
  destruct (journal_barrier sync g producer pk m c1) as [c2 r2] eqn:E2.
  apply (journal_barrier_spec _ _ _ _ _ _ _ _ m) in E2 as [Hm2 Ht2]; [|by rewrite Hc1].
  destruct r2 as [[]|e2]; injection H as <- <- <-.
  - split_and!; [by eapply authority_ok_ext|by intros ? [= <-]|done..| |done|].
    + exists c2. by rewrite Ht2.
    + exists rp. by split_and!.
  - split_and!; [done|by intros ? [= <-]|done].
Qed.

(** Entries never change, and none disappears. *)
Definition frozen (m m' : Intents) : Prop := forall t i, intent_get t m = Some i -> intent_get t m' = Some i.

Lemma signed_frozen m t r b used m' :
  intent_get t m = None -> signed run_id m t r b used m' -> frozen m m'.
Proof.
  intros Hg [| |bs proof _ _] t' i Hi; [done|..]; rewrite intent_get_insert_ne; congruence.
Qed.

Lemma logged_signed m log b r cand used m' :
  logged m log -> intent_get (block_slot b) m = None ->
  decode_reservation r g producer pk = Ok (b, cand) -> signed run_id m (block_slot b) r b used m' ->
  logged m' (if used then log ++ [b] else log).
Proof.
  intros [Ho Hr Hor] Hg Hd Hs. pose proof (signed_frozen _ _ _ _ _ _ Hg Hs) as Hfr.
  assert (forall b', b' ∈ log -> exists i cand, intent_get (block_slot b') m' = Some i /\
    decode_reservation (in_reservation i) g producer pk = Ok (b', cand)) as Hr'.
  { intros b' Hb'. destruct (Hr b' Hb') as (i & cd & Hi & Hdi). exists i, cd. split; [by apply Hfr|done]. }
  assert (block_slot b ∉ map block_slot log) as Hnew.
  { intros (b' & E & Hb')%list_elem_of_fmap. destruct (Hr b' Hb') as (i & _ & Hi & _). congruence. }
  constructor.
  - destruct used; [|done]. rewrite map_app. apply NoDup_app. split_and!; [done| |apply NoDup_singleton].
    intros x Hx Hx'%list_elem_of_singleton. by subst.
  - destruct used; [|done]. intros b' [Hb'|Hb'%list_elem_of_singleton]%elem_of_app; [by apply Hr'|subst b'].
    inversion Hs; subst; eexists _, cand; (split; [apply intent_get_insert|done]).
  - intros t i bs Hi Hbs. assert (intent_get t m = Some i \/ t = block_slot b /\ used = true /\
      exists proof, open_envelope g bs = Ok proof /\ ce_block (ae_envelope proof) = b) as Hcase.
    { destruct Hs as [|used|bs' proof Hop Hb]; [by left|..];
        (destruct (decide (t = block_slot b)) as [->|Hne];
         [rewrite intent_get_insert in Hi; injection Hi as <-|
          rewrite intent_get_insert_ne in Hi by done; by left]); [done|].
      injection Hbs as <-. right. eauto. }
    destruct Hcase as [Hold|(-> & -> & proof & Hop & Hb)].
    + destruct (Hor t i bs Hold Hbs) as (proof & ? & ?). exists proof. split; [done|].
      destruct used; [apply elem_of_app; by left|done].
    + exists proof. split; [done|]. apply elem_of_app. right. rewrite Hb. left.
Qed.

(** The store after a step: its entries are frozen and the log only grows. *)
Definition advances (n n' : signer) : Prop :=
  forall p m, sg_disk n = Some p -> jstored g producer pk m p ->
  exists p' m', sg_disk n' = Some p' /\ jstored g producer pk m' p' /\ frozen m m' /\
    sg_log n `prefix_of` sg_log n'.

Lemma same_intents_advances n n' p p' m :
  sg_disk n = Some p -> sg_disk n' = Some p' -> sg_log n = sg_log n' ->
  jstored g producer pk m p -> jstored g producer pk m p' -> advances n n'.
Proof.
  intros E E' El Hm Hm' p0 m0 E0 Hm0. rewrite E in E0. injection E0 as <-. exists p', m.
  rewrite (jstored_unique _ _ _ _ _ _ Hm0 Hm), El. split_and!; [done|done|by intros t i|done].
Qed.

Lemma create_advances f key o oc r d log :
  signing_config producer v ->
  (forall c, sf_opened f = Ok c -> jcommitted c = empty_journal) -> d = None \/ d = Some empty_journal ->
  open_inner f g producer key o true = (oc, r) -> signer_ok (mk_signer None None None log) ->
  signer_ok (mk_signer (ok r) (after r oc) (if oc is Some c then Some (jcommitted c) else d) log).
Proof.
  intros Hcfg Hop Hd H [_ Hnil]. unfold signer_ok in *. cbn [sg_disk sg_authority sg_log sg_conn] in *. subst log.
  destruct (open_inner_spec f key o true oc r [] Hcfg Hop (fun _ => eq_refl) H) as [Hc Ha].
  assert (logged [] []) as Hlog by (constructor; [constructor|by intros b Hb%not_elem_of_nil|done]).
  destruct oc as [c|].
  - exists []. split_and!; [by apply Hc|done|]. intros a Hr%ok_Some. rewrite Hr.
    destruct (Ha a Hr) as (c0 & [= <-] & Hok & ? & ? & _ & ?). split; [done|]. intros _. split_and!; [done..|].
    by exists c.
  - assert (ok r = None) as Er by (destruct r as [a|]; [by destruct (Ha a eq_refl) as (? & ? & _)|done]).
    destruct Hd as [-> | ->]; [done|]. exists []. rewrite Er. split_and!; [by repeat constructor|done|done].
Qed.

Lemma reopen_advances f key o oc r p log :
  let n := mk_signer None None (Some p) log in
  let n' := mk_signer (ok r) (after r oc) (Some (if oc is Some c then jcommitted c else p)) log in
  signing_config producer v -> (forall c, sf_opened f = Ok c -> jcommitted c = p) ->
  open_inner f g producer key o false = (oc, r) -> signer_ok n -> signer_ok n' /\ advances n n'.
Proof.
  cbv zeta. intros Hcfg Hop H (m & Hm & Hlog & _). cbn [sg_disk sg_authority sg_log sg_conn] in *.
  destruct (open_inner_spec f key o false oc r m Hcfg) as [Hc Ha];
    [intros c Hc; by rewrite (Hop c Hc)|done|done|].
  assert (jstored g producer pk m (if oc is Some c then jcommitted c else p)) as Hm'
    by (destruct oc; [by apply Hc|done]).
  split; [|by eapply same_intents_advances].
  exists m. split_and!; [done|done|]. cbn [sg_authority sg_conn]. intros a Hr%ok_Some. rewrite Hr.
  destruct (Ha a Hr) as (c0 & -> & Hok & ? & ? & _ & ?). split; [done|]. intros _. split_and!; [done..|]. by exists c0.
Qed.

Lemma sign_advances entropy fuel sync1 sync2 a c o oc pb a' c' oc' res log :
  let n := mk_signer (Some a) (Some c) (Some (jcommitted c)) log in
  let n' := mk_signer (if res is Some _ then Some a' else None) (if res is Some _ then Some c' else None)
    (Some (jcommitted c'))
    (if (sa_signing_calls a' =? sa_signing_calls a)%Z then log else log ++ [pb_block pb]) in
  signing_config producer v -> audited_owner run_id o -> issued_prepared run_id pb ->
  sign_prepared entropy fuel sync1 sync2 a c o oc pb = (a', c', oc', res) ->
  signer_ok n -> signer_ok n' /\ advances n n'.
Proof.
  cbv zeta. intros Hcfg Ho Hpb H (m & Hm & Hlog & Hkn). cbn [sg_disk sg_authority sg_log sg_conn] in *.
  destruct (Hkn a eq_refl) as [Ha Hready].
  assert (sa_poisoned a = false -> sa_intents a = m) as Hint by (intros Hp; apply (Hready Hp)).
  destruct (sign_prepared_spec run_id Hdist producer v _ _ _ _ _ _ _ _ _ _ _ _ _ _ Hcfg Ha Ho Hpb Hm Hint H)
    as [(-> & -> & Hres & _)|(Hp0 & used & m' & F)].
  { rewrite Z.eqb_refl. destruct res as [res|]; [|done].
    split; [by exists m|by eapply same_intents_advances]. }
  destruct (fa_reserved _ _ _ _ _ _ _ _ _ _ _ F) as (r & cand & Hd & Hs & _).
  pose proof (fa_new _ _ _ _ _ _ _ _ _ _ _ F) as Hnew. pose proof (fa_stored _ _ _ _ _ _ _ _ _ _ _ F) as Hm'.
  assert ((if (sa_signing_calls a' =? sa_signing_calls a)%Z then log else log ++ [pb_block pb]) =
    (if used then log ++ [pb_block pb] else log)) as ->.
  { rewrite (fa_calls _ _ _ _ _ _ _ _ _ _ _ F). destruct used; simpl.
    - by rewrite (proj2 (Z.eqb_neq _ _)) by lia.
    - by rewrite (proj2 (Z.eqb_eq _ _)) by lia. }
  split.
  - exists m'. split_and!; [done|by eapply logged_signed|]. cbn [sg_authority sg_conn].
    destruct res as [[og|e]|]; [..|done]; intros a0 [= <-]; (split; [by apply F|]).
    + destruct (fa_ready _ _ _ _ _ _ _ _ _ _ _ F og eq_refl) as (_ & ? & ? & ? & _). intros _. split_and!; [done..|]. by exists c'.
    + intros Hp. by rewrite (fa_poisoned _ _ _ _ _ _ _ _ _ _ _ F e eq_refl) in Hp.
  - intros p0 m0 [= <-] Hm0. rewrite (jstored_unique _ _ _ _ _ _ Hm0 Hm). exists (jcommitted c'), m'.
    split_and!; [done|done|by eapply signed_frozen|]. destruct used; [by apply prefix_app_r|done].
Qed.

Lemma recover_advances a oc o opened sync a' oc' r p log :
  let n := mk_signer (Some a) oc (Some p) log in
  let n' := mk_signer (Some a') oc' (Some (if oc' is Some c then jcommitted c else p)) log in
  (forall c, opened = Ok c -> jcommitted c = p) -> sa_recover a o opened sync = (a', oc', r) ->
  signer_ok n -> signer_ok n' /\ advances n n'.
Proof.
  cbv zeta. intros Hop H (m & Hm & Hlog & Hkn). cbn [sg_disk sg_authority sg_log sg_conn] in *.
  destruct (Hkn a eq_refl) as [Ha _].
  destruct (sa_recover_spec a o opened sync a' oc' r m Ha) as (Ha' & Hc & Hr);
    [intros c Hc; by rewrite (Hop c Hc)|done|].
  assert (jstored g producer pk m (if oc' is Some c then jcommitted c else p)) as Hm'
    by (destruct oc'; [by apply Hc|done]).
  split; [|by eapply same_intents_advances].
  exists m. split_and!; [done|done|]. cbn [sg_authority sg_conn]. intros a0 [= <-]. split; [done|].
  intros Hp. destruct r as [rep|e]; [|by rewrite Hr in Hp].
  destruct Hr as (_ & ? & ? & (c & -> & ?) & _). split_and!; [done..|]. by exists c.
Qed.

(** Every step keeps the invariant and advances the store. *)
Lemma step_advances n n' :
  signing_config producer v -> sign_step n n' -> signer_ok n -> signer_ok n' /\ advances n n'.
Proof.
  intros Hcfg [] Hn.
  - split; [by eapply create_advances|]. by intros p m [=].
  - by eapply reopen_advances.
  - by eapply sign_advances.
  - by eapply recover_advances.
  - destruct d as [p|]; [|by destruct Hn]. destruct Hn as (m & Hm & Hlog & _).
    split; [by exists m; split_and!|by eapply same_intents_advances].
Qed.

Lemma run_advances n n' :
  signing_config producer v -> rtc sign_step n n' -> signer_ok n -> signer_ok n' /\ advances n n'.
Proof.
  intros Hcfg. induction 1 as [n|n n1 n' Hs _ IH]; intros Hn.
  - split; [done|]. intros p m E Hm. by apply (same_intents_advances n n p p m E E eq_refl Hm Hm p m).
  - destruct (step_advances _ _ Hcfg Hs Hn) as [Hn1 H1]. destruct (IH Hn1) as [Hn' H2].
    split; [done|]. intros p m E Hm. destruct (H1 p m E Hm) as (p1 & m1 & E1 & Hm1 & F1 & L1).
    destruct (H2 p1 m1 E1 Hm1) as (p2 & m2 & E2 & Hm2 & F2 & L2). exists p2, m2.
    split_and!; [done|done|intros t i Hi; by apply F2, F1|by etrans].
Qed.

(** A machine on which the store was never created. *)
Definition fresh_signer : signer := mk_signer None None None [].

Lemma fresh_signer_ok : signer_ok fresh_signer.
Proof. done. Qed.
End Life.

(** ** Reconciliation *)

Section Reconcile.
  Context {KE : Keccak} {KC : K256}.
  Context (g : Genesis) (producer key : bytes) (o : Owner).

(** Where an accepted entry stands against the canonical records. *)
Inductive standing (p : Z * Intent) : Prop :=
| standing_committed r bs :
    sn_records (ow_snapshot o) !! Z.to_nat (p.1 - 1) = Some r -> in_original p.2 = Some bs ->
    bs = C1Envelope_wire_bytes (ae_envelope (br_proof r)) -> standing p
| standing_pending bs :
    sn_records (ow_snapshot o) !! Z.to_nat (p.1 - 1) = None -> in_original p.2 = Some bs -> standing p
| standing_incomplete :
    sn_records (ow_snapshot o) !! Z.to_nat (p.1 - 1) = None -> in_original p.2 = None -> standing p.

Lemma reconcile_intent_ok p rep rep' :
  reconcile_intent g producer key o p rep = Ok rep' ->
  (1 <= p.1 <= pos_slot (tip (ow_snapshot o)) + 1)%Z /\ standing p /\
  sr_committed rep' ++ sr_pending rep' ++ sr_incomplete rep' ≡ₚ
    p.1 :: sr_committed rep ++ sr_pending rep ++ sr_incomplete rep /\
  (sr_incomplete rep' = if in_original p.2 is None then sr_incomplete rep ++ [p.1] else sr_incomplete rep).
Proof.
  unfold reconcile_intent. intros ([view ev] & Hh & H)%bind_Ok. apply bind_Ok in H as ([] & _ & H).
  apply bind_Ok in H as ([block cand] & _ & H). apply bind_Ok in H as (sel & _ & H).
  apply bind_Ok in H as ([] & _ & H). split.
  { apply map_err_Ok in Hh. unfold signing_history in Hh. apply bind_Ok in Hh as ([] & _ & Hh).
    apply bind_Ok in Hh as ([] & Hb & _). apply fail_if_Ok, orb_false_iff in Hb as [Hb1 Hb2].
    apply negb_false_iff, andb_true_iff in Hb1 as [Hb1 _]. apply Z.leb_le in Hb1. apply Z.ltb_ge in Hb2. lia. }
  destruct (in_original p.2) as [bs|] eqn:Ho, (sn_records (ow_snapshot o) !! Z.to_nat (p.1 - 1)) as [r|] eqn:Hr;
    [| | done|].
  - apply bind_Ok in H as ([] & Hc & H). injection H as <-. cbn [sr_committed sr_pending sr_incomplete].
    apply fail_if_Ok, orb_false_iff in Hc as [Hc _]. apply bool_decide_eq_false, dec_stable in Hc.
    split_and!; [by eapply standing_committed| |done].
    rewrite <- !app_assoc. symmetry. apply Permutation_middle.
  - injection H as <-. cbn [sr_committed sr_pending sr_incomplete].
    split_and!; [by eapply standing_pending| |done].
    rewrite <- (app_assoc (sr_pending rep)), !(app_assoc (sr_committed rep)). symmetry. apply Permutation_middle.
  - injection H as <-. cbn [sr_committed sr_pending sr_incomplete].
    split_and!; [by apply standing_incomplete| |done]. rewrite !app_assoc. symmetry.
    apply Permutation_cons_append.
Qed.

Lemma reconcile_intents_ok m rep rep' :
  reconcile_intents g producer key o m rep = Ok rep' ->
  Forall (fun p => (1 <= p.1 <= pos_slot (tip (ow_snapshot o)) + 1)%Z /\ standing p) m /\
  sr_committed rep' ++ sr_pending rep' ++ sr_incomplete rep' ≡ₚ
    map fst m ++ sr_committed rep ++ sr_pending rep ++ sr_incomplete rep /\
  (sr_incomplete rep' = sr_incomplete rep ++ map fst (filter (fun p => in_original p.2 = None) m)).
Proof.
  revert rep. induction m as [|p m IH]; intros rep; cbn [reconcile_intents map].
  - intros [= <-]. by rewrite app_nil_r.
  - intros (rep1 & H1 & H)%bind_Ok. apply reconcile_intent_ok in H1 as (Hb & Hst & Hp & Hi).
    apply IH in H as (Hm & Hperm & Hinc). split_and!; [by constructor| |].
    + rewrite Hperm, Hp. symmetry. apply Permutation_middle.
    + rewrite Hinc, Hi, filter_cons. destruct (in_original p.2) as [bs|].
      * by rewrite decide_False by done.
      * rewrite decide_True by done. cbn [map]. by rewrite <- app_assoc.
Qed.

Lemma reconcile_intents_present m rep rep' :
  reconcile_intents g producer key o m rep = Ok rep' ->
  sr_attempted_present rep' = sr_attempted_present rep.
Proof.
  revert rep. induction m as [|p m IH]; intros rep; cbn [reconcile_intents]; [by intros [= <-]|].
  intros (rep1 & H1 & H)%bind_Ok. rewrite (IH _ H). clear -H1. unfold reconcile_intent in H1.
  apply bind_Ok in H1 as ([view ev] & _ & H). apply bind_Ok in H as ([] & _ & H).
  apply bind_Ok in H as ([block cand] & _ & H). apply bind_Ok in H as (sel & _ & H).
  apply bind_Ok in H as ([] & _ & H). repeat case_match; inv_ok; by subst.
Qed.

Lemma retained_history_ok m rs r :
  retained_history producer m rs = Ok () -> r ∈ rs -> hc_producer (cb_claim (br_block r)) = producer ->
  exists i, intent_get (pos_slot (br_position r)) m = Some i.
Proof.
  induction rs as [|r' rs IH]; intros H Hr Hp; [by apply not_elem_of_nil in Hr|].
  cbn [retained_history] in H. apply bind_Ok in H as ([] & Hc & H). apply fail_if_Ok in Hc.
  apply elem_of_cons in Hr as [<-|Hr]; [|by apply IH].
  rewrite bool_decide_eq_true_2 in Hc by done. cbn [andb] in Hc. apply negb_false_iff in Hc.
  unfold contains in Hc. destruct (intent_get _ m) as [i|]; [eauto|done].
Qed.
End Reconcile.

(** ** Progress *)

Section Progress.
  Context {JN : Journal} {L : JournalLaws JN} {SQ : Sqlite} {KE : Keccak} {KC : K256} {KL : K256Laws KC}.
  Context (run_id : bytes) (Hdist : distinct_producers) (producer : bytes) (v : ValidatorConfig).
  Context (Hcfg : signing_config producer v) (F : @faultless JN).

Let g := genesis_of run_id.
Let pk := cfg_public_key v.

Lemma identity_length : (Z.of_nat (length (identity g producer pk)) <= 256)%Z.
Proof.
  pose proof (find_config_Some _ _ _ Hcfg) as [Hin Hid]. pose proof (approved_configs_ok _ Hin) as Hok.
  assert (length producer = 7%nat) as Hp.
  { rewrite <- Hid. apply elem_of_cons in Hin as [->|Hin]; [done|].
    apply elem_of_cons in Hin as [->|Hin]; [done|by apply not_elem_of_nil in Hin]. }
  unfold identity, sign_profile, text. rewrite !length_app, !length_be_bytes, Hp.
  assert (length (pol_network (g_policy g)) = 32%nat) as -> by apply keccak256_length.
  assert (length pk = 33%nat) as -> by apply Hok. vm_compute. discriminate.
Qed.

Lemma persist_row_kind next t completed w :
  persist_row next t completed = Ok w -> match w with JReservation _ | JOriginal _ => True | _ => False end.
Proof.
  unfold persist_row. intros (i & _ & H)%bind_Ok. destruct completed; [|by injection H as <-].
  apply bind_Ok in H as (bs & _ & (e & _ & [= <-])%bind_Ok). done.
Qed.

(** An entry adds at most its own original. *)
Lemma insert_originals t i m extra :
  (forall bs, in_original i = Some bs -> bs ∈ extra) ->
  journal_originals (intent_insert t i m) ⊆ journal_originals m ++ extra.
Proof.
  intros Hi bs (q & Hq & E)%list_elem_of_omap. apply elem_of_app.
  apply intent_insert_elem in Hq as [->|Hq]; [right; by apply Hi|left; apply list_elem_of_omap; eauto].
Qed.

Lemma persist_progress a c next t completed w :
  authority_ok run_id producer pk a -> jstored g producer pk (sa_intents a) (jcommitted c) ->
  identified g producer pk (jcommitted c) -> jtransaction c = None -> persist_row next t completed = Ok w ->
  jstored g producer pk next (journal_apply w (jcommitted c)).1 ->
  originals_clash (journal_originals (sa_intents a)) \/ originals_clash (journal_originals next) \/
  exists c', persist (Ok ()) a c next t completed = (set_sa_attempt (set_sa_intents a next) None, c', Ok ()) /\
    jcommitted c' = (journal_apply w (jcommitted c)).1 /\ jtransaction c' = None.
Proof.
  intros Ha Hm Hi Ht Hw Hn. unfold persist. cbn [sa_genesis sa_producer sa_public_key sa_intents set_sa_attempt].
  rewrite (ao_genesis _ _ _ _ Ha), (ao_producer _ _ _ _ Ha), (ao_public_key _ _ _ _ Ha), Hw.
  destruct (faultless_transaction g producer pk (sa_intents a) next w c F Ht Hm Hi identity_length)
    as [?|[?|(c' & E & Hc')]]; [by apply (persist_row_kind _ _ _ _ Hw)|done|by left|by right; left|right; right].
  exists c'. split; [|done]. fold g. unfold mbind at 1, jsql_bind at 1. by rewrite E.
Qed.

Lemma write_identified w p :
  (forall m, w <> JMetadata m) -> (forall n old, w <> JBarrier n old) ->
  identified g producer pk p -> identified g producer pk (journal_apply w p).1.
Proof. intros H1 H2 Hi. destruct w; [by destruct (H1 m)|done|done|by destruct (H2 new old)]. Qed.

(** The second half: count, sign, retain. *)
Lemma sign_reserved_progress entropy fuel a c block t r cand signature :
  authority_ok run_id producer pk a -> jstored g producer pk (sa_intents a) (jcommitted c) ->
  identified g producer pk (jcommitted c) -> jtransaction c = None ->
  intent_get t (sa_intents a) = Some (mk_intent r None) ->
  decode_reservation r g producer pk = Ok (block, cand) -> slot (hc_header (cb_claim block)) = t ->
  wf_c1_block block -> hc_producer (cb_claim block) = producer ->
  (0 <= sa_signing_calls a)%Z -> (sa_signing_calls a + 1 < U64)%Z ->
  sign_digest (sa_key a) (claim_signing_digest (cb_claim block) (pol_network (g_policy g))) entropy fuel =
    Some (Ok signature) ->
  originals_clash (journal_originals (sa_intents a) ++
    [C1Envelope_wire_bytes (C1Envelope_from_parts block (pol_network (g_policy g)) signature)]) \/
  exists a' c' og, sign_reserved entropy fuel (Ok ()) a c block t = (a', c', Some (Ok og)).
Proof.
  intros Ha Hm Hi Ht Hg Hd Hs Hw Hp H0 Hcalls Hsig.
  destruct (signature_opens run_id producer v a block fuel entropy signature Hcfg Ha Hw Hp Hsig) as (Hwire & _).
  fold g in Hwire. unfold sign_reserved, checked_add. rewrite (proj2 (Z.ltb_lt _ _)) by done. cbv zeta.
  cbn [sa_genesis sa_key sa_intents set_sa_calls]. rewrite (ao_genesis _ _ _ _ Ha). fold g. rewrite Hsig.
  set (e := C1Envelope_from_parts block (pol_network (g_policy g)) signature) in *.
  set (bs := C1Envelope_wire_bytes e) in *. set (a2 := set_sa_calls _ _).
  assert (complete_intent t bs (sa_intents a) = intent_insert t (mk_intent r (Some bs)) (sa_intents a)) as ->
    by (unfold complete_intent; by rewrite Hg).
  assert (persist_row (intent_insert t (mk_intent r (Some bs)) (sa_intents a)) t true =
    Ok (JOriginal (original_row t bs e))) as P.
  { unfold persist_row. rewrite intent_get_insert. cbn [ok_or]. rewrite bind_of_Ok.
    cbn [in_original ok_or]. by rewrite bind_of_Ok, Hwire. }
  destruct (persist_progress a2 c _ t true _ ltac:(by eapply authority_ok_ext) Hm Hi Ht P) as [Hc|[Hc|(c2 & E2 & _)]].
  - by eapply complete_writes.
  - left. eapply originals_clash_mono, Hc. by apply list_subseteq_app_l.
  - left. eapply originals_clash_mono, Hc. apply insert_originals. intros ? [= <-]. by apply list_elem_of_singleton.
  - right. rewrite E2. unfold retained_original. rewrite Hwire. eauto.
Qed.

Lemma sign_new_progress entropy fuel a c block t r cand signature :
  authority_ok run_id producer pk a -> jstored g producer pk (sa_intents a) (jcommitted c) ->
  identified g producer pk (jcommitted c) -> jtransaction c = None -> intent_get t (sa_intents a) = None ->
  decode_reservation r g producer pk = Ok (block, cand) -> slot (hc_header (cb_claim block)) = t ->
  wf_c1_block block -> hc_producer (cb_claim block) = producer ->
  (0 <= sa_signing_calls a)%Z -> (sa_signing_calls a + 1 < U64)%Z ->
  sign_digest (sa_key a) (claim_signing_digest (cb_claim block) (pol_network (g_policy g))) entropy fuel =
    Some (Ok signature) ->
  originals_clash (journal_originals (sa_intents a) ++
    [C1Envelope_wire_bytes (C1Envelope_from_parts block (pol_network (g_policy g)) signature)]) \/
  exists a' c' og, sign_new entropy fuel (Ok ()) (Ok ()) a c block t r = (a', c', Some (Ok og)).
Proof.
  intros Ha Hm Hi Ht Hg Hd Hs Hw Hp H0 Hcalls Hsig. unfold sign_new.
  set (m1 := intent_insert t (mk_intent r None) (sa_intents a)).
  assert (intent_get t m1 = Some (mk_intent r None)) as Hg1 by apply intent_get_insert.
  assert (persist_row m1 t false = Ok (JReservation (reservation_row (t, mk_intent r None)))) as P
    by (unfold persist_row; by rewrite Hg1).
  assert (jstored g producer pk m1 (journal_apply (JReservation (reservation_row (t, mk_intent r None))) (jcommitted c)).1)
    as M1 by (by eapply reserve_writes).
  assert (journal_originals m1 ⊆ journal_originals (sa_intents a)) as S1.
  { rewrite <- (app_nil_r (journal_originals (sa_intents a))). by apply insert_originals. }
  destruct (persist_progress a c m1 t false _ Ha Hm Hi Ht P M1) as [Hc|[Hc|(c1 & E1 & Hc1 & Ht1)]];
    [left; eapply originals_clash_mono, Hc; by apply list_subseteq_app_l..|]. rewrite E1.
  destruct (sign_reserved_progress entropy fuel (set_sa_attempt (set_sa_intents a m1) None) c1 block t r cand signature)
    as [Hc|?]; try done.
  - by eapply authority_ok_ext.
  - by rewrite Hc1.
  - rewrite Hc1. by apply write_identified.
  - left. eapply originals_clash_mono, Hc. intros x. rewrite !elem_of_app. intros [?|?]; [left; by apply S1|by right].
  - by right.
Qed.
End Progress.

(** ** Properties *)

Section SigningProperties.
  Context {JN : Journal} {L : JournalLaws JN} {SQ : Sqlite} {KE : Keccak} {KC : K256} {KL : K256Laws KC}.
  Context (run_id producer : bytes) (v : ValidatorConfig).

Let g := genesis_of run_id.
Let pk := cfg_public_key v.

Lemma reachable_signer n :
  distinct_producers -> signing_config producer v -> rtc (sign_step run_id producer) fresh_signer n ->
  signer_ok run_id producer v n.
Proof. intros Hd Hc H. apply (run_advances run_id Hd producer v _ _ Hc H), fresh_signer_ok. Qed.

(** C4: no block is signed twice and no two blocks are signed for one slot: over
    the whole life of a protection store, through crashes, failed statements,
    recoveries and reopenings in any order, the slots of the blocks the key
    was used for are distinct, and each such block is durably reserved. *)
Theorem never_double_signs n :
  distinct_producers -> signing_config producer v -> rtc (sign_step run_id producer) fresh_signer n ->
  NoDup (map block_slot (sg_log n)) /\
  forall b, b ∈ sg_log n -> exists p m i cand, sg_disk n = Some p /\ jstored g producer pk m p /\
    intent_get (block_slot b) m = Some i /\
    decode_reservation (in_reservation i) g producer pk = Ok (b, cand).
Proof.
  intros Hd Hc H. pose proof (reachable_signer n Hd Hc H) as Hn. unfold signer_ok in Hn.
  destruct (sg_disk n) as [p|].
  - destruct Hn as (m & Hm & [Ho Hr _] & _). split; [done|]. intros b Hb.
    destruct (Hr b Hb) as (i & cand & ? & ?). exists p, m, i, cand. by split_and!.
  - destruct Hn as [_ ->]. split; [constructor|]. by intros b Hb%not_elem_of_nil.
Qed.

(** C18: the journal is permanent: whatever happens after an operation has ended, an
    entry of the store stays exactly as it was, so a reservation left without
    an original is never completed, replaced or released. *)
Theorem journal_permanent n n' p m t i :
  distinct_producers -> signing_config producer v ->
  rtc (sign_step run_id producer) fresh_signer n -> rtc (sign_step run_id producer) n n' ->
  sg_disk n = Some p -> jstored g producer pk m p -> intent_get t m = Some i ->
  exists p' m', sg_disk n' = Some p' /\ jstored g producer pk m' p' /\ intent_get t m' = Some i.
Proof.
  intros Hd Hc H H' Ep Hm Hi. pose proof (reachable_signer n Hd Hc H) as Hn.
  destruct (run_advances run_id Hd producer v _ _ Hc H' Hn) as [_ Hadv].
  destruct (Hadv p m Ep Hm) as (p' & m' & ? & ? & Hfr & _). exists p', m'. split_and!; [done..|]. by apply Hfr.
Qed.

(** C17: a returned original is authentic and durable: it opens under the genesis
    to exactly the prepared block, its id is that of the envelope, the store
    already holds it for the slot, and the key was used for it in this call
    or it was retained by an earlier one. *)
Theorem original_durable a c log entropy fuel sync1 sync2 o oc pb a' c' oc' og :
  distinct_producers -> signing_config producer v ->
  rtc (sign_step run_id producer) fresh_signer (mk_signer (Some a) (Some c) (Some (jcommitted c)) log) ->
  audited_owner run_id o -> issued_prepared run_id pb ->
  sign_prepared entropy fuel sync1 sync2 a c o oc pb = (a', c', oc', Some (Ok og)) ->
  exists proof m' i, open_envelope g (og_bytes og) = Ok proof /\
    ce_block (ae_envelope proof) = pb_block pb /\ og_id og = C1Envelope_id (ae_envelope proof) /\
    jstored g producer pk m' (jcommitted c') /\ intent_get (block_slot (pb_block pb)) m' = Some i /\
    in_original i = Some (og_bytes og).
Proof.
  intros Hd Hc Hr Ho Hpb H. pose proof (reachable_signer _ Hd Hc Hr) as (m & Hm & Hlog & Hkn).
  destruct (Hkn a eq_refl) as [Ha Hready]. cbn [sg_disk sg_log] in *.
  destruct (sign_prepared_spec run_id Hd producer v _ _ _ _ _ _ _ _ _ _ _ _ _ m Hc Ha Ho Hpb Hm
    (fun Hp => proj1 (Hready Hp)) H) as [(-> & -> & _ & Hog)|(_ & used & m' & Fa)].
  - destruct (Hog og eq_refl) as (i & cand & Hi & Hor & Hdec & e & He & Hid).
    destruct (lg_originals _ _ _ _ _ Hlog _ _ _ Hi Hor) as (proof & Hop & _).
    pose proof (open_envelope_ok _ _ _ Hop) as (_ & _ & _ & _ & _ & Hw).
    assert (ae_envelope proof = e) as Epe by congruence.
    destruct (intents_ok_get _ _ _ _ _ _ (js_intents _ _ _ _ _ Hm) Hi) as [_ (b & cd & Hd' & _ & Hb)].
    cbn [in_reservation snd] in Hd', Hb. destruct (Hb _ Hor) as (e' & He' & Eb & _).
    exists proof, m, i. split_and!; [done| |congruence|done..]. rewrite Hdec in Hd'. congruence.
  - destruct (fa_ready _ _ _ _ _ _ _ _ _ _ _ Fa og eq_refl) as (_ & _ & _ & _ & proof & Hop & Hb & Hid).
    destruct (fa_reserved _ _ _ _ _ _ _ _ _ _ _ Fa) as (r & cand & _ & _ & Em).
    specialize (Em og eq_refl). exists proof, m', (mk_intent r (Some (og_bytes og))).
    split_and!; [done..|apply Fa|rewrite Em; apply intent_get_insert|done].
Qed.

Lemma incomplete_found m t i :
  intent_get t m = Some i -> in_original i = None -> first_incomplete m <> None.
Proof.
  intros Hi Ho. pose proof (intent_get_Some _ _ _ Hi) as Hin. unfold first_incomplete. intros E.
  apply fmap_None in E.
  assert ((t, i) ∈ filter (fun p => in_original p.2 = None) m) as Hf by (by apply list_elem_of_filter).
  destruct (filter _ m); [by apply not_elem_of_nil in Hf|done].
Qed.

(** An incomplete reservation fences the authority: while the store holds one,
    no signing request uses the key or changes authority or store, whatever
    the block, and a request for its slot returns no original. *)
Theorem incomplete_fence a c log m t r entropy fuel sync1 sync2 o oc pb a' c' oc' res :
  distinct_producers -> signing_config producer v ->
  rtc (sign_step run_id producer) fresh_signer (mk_signer (Some a) (Some c) (Some (jcommitted c)) log) ->
  jstored g producer pk m (jcommitted c) -> intent_get t m = Some (mk_intent r None) ->
  audited_owner run_id o -> issued_prepared run_id pb ->
  sign_prepared entropy fuel sync1 sync2 a c o oc pb = (a', c', oc', res) ->
  a' = a /\ c' = c /\ (block_slot (pb_block pb) = t -> exists e, res = Some (Err e)).
Proof.
  intros Hd Hc Hr Hm Hi Ho Hpb H. pose proof (reachable_signer _ Hd Hc Hr) as (m0 & Hm0 & _ & Hkn).
  destruct (Hkn a eq_refl) as [Ha Hready]. cbn [sg_disk] in *.
  pose proof (jstored_unique _ _ _ _ _ _ Hm0 Hm) as ->.
  destruct (sign_prepared_spec run_id Hd producer v _ _ _ _ _ _ _ _ _ _ _ _ _ m Hc Ha Ho Hpb Hm
    (fun Hp => proj1 (Hready Hp)) H) as [(-> & -> & Hres & Hog)|(_ & used & m' & Fa)].
  - split_and!; [done..|]. intros <-. destruct res as [[og|e]|]; [|eauto|done].
    destruct (Hog og eq_refl) as (i & cand & Hi' & Hor & _). unfold block_slot in Hi. rewrite Hi in Hi'.
    injection Hi' as <-. done.
  - by destruct (incomplete_found _ _ _ Hi eq_refl (fa_complete _ _ _ _ _ _ _ _ _ _ _ Fa)).
Qed.

(** Recovery of the signer never guesses: it succeeds only with the intents the
    store durably holds, which are exactly the attempted ones, the ones before
    the attempt or the known ones, as reported, and which reconcile with the
    canonical owner; a failed recovery leaves the authority blocked. *)
Theorem signer_recovery a oc p log o opened sync a' oc' res :
  distinct_producers -> signing_config producer v ->
  rtc (sign_step run_id producer) fresh_signer (mk_signer (Some a) oc (Some p) log) ->
  (forall c, opened = Ok c -> jcommitted c = p) -> sa_recover a o opened sync = (a', oc', res) ->
  match res with
  | Err _ => a' = set_sa_poisoned a true
  | Ok rep => exists c', oc' = Some c' /\ sa_poisoned a' = false /\ sa_attempt a' = None /\
      jstored g producer pk (sa_intents a') (jcommitted c') /\
      match sa_attempt a, sr_attempted_present rep with
      | Some t, Some true => sa_intents a' = sat_after t
      | Some t, Some false => sa_intents a' = sat_before t
      | None, None => sa_intents a' = sa_intents a
      | _, _ => False
      end /\
      sign_reconcile (sa_intents a') g producer pk o =
        Ok (mk_signing_report (sr_committed rep) (sr_pending rep) (sr_incomplete rep) None)
  end.
Proof.
  intros Hd Hc Hr Hop H. pose proof (reachable_signer _ Hd Hc Hr) as (m & Hm & _ & Hkn).
  destruct (Hkn a eq_refl) as [Ha _]. cbn [sg_disk] in *.
  destruct (sa_recover_spec run_id producer v a o opened sync a' oc' res m Ha) as (_ & Hst & Hres);
    [intros c Hc0; by rewrite (Hop c Hc0)|done|].
  destruct res as [rep|e]; [|done].
  destruct Hres as (Hp & Hi & Hat & (c' & -> & _) & _ & rep0 & Hrec & Hl & E1 & E2 & E3).
  exists c'. split_and!; [done|done|done|rewrite Hi; by apply Hst| |].
  - rewrite Hi. unfold reconcile_loaded in Hl. destruct (sa_attempt a) as [t|].
    + destruct (sr_attempted_present rep); repeat case_bool_decide; by simplify_eq.
    + apply bind_Ok in Hl as ([] & Hl & E). injection E as E. rewrite <- E. by inv_ok.
  - rewrite Hi, E1, E2, E3. fold g pk in Hrec |- *. rewrite Hrec. f_equal. destruct rep0 as [x y z w].
    cbn [sr_committed sr_pending sr_incomplete]. f_equal.
    unfold sign_reconcile in Hrec. apply bind_Ok in Hrec as (sn & _ & Hrec).
    apply bind_Ok in Hrec as ([vw ev] & _ & Hrec). apply bind_Ok in Hrec as ([] & _ & Hrec).
    apply bind_Ok in Hrec as (rp & Hrp & Hrec). apply bind_Ok in Hrec as ([] & _ & Hrec). injection Hrec as ->.
    by apply reconcile_intents_present in Hrp.
Qed.

Lemma reconcile_facts m key o report :
  audited_owner run_id o -> sign_reconcile m g producer key o = Ok report ->
  (forall k r, sn_records (ow_snapshot o) !! k = Some r -> hc_producer (cb_claim (br_block r)) = producer ->
     exists i, intent_get (Z.of_nat k + 1) m = Some i /\
       in_original i = Some (C1Envelope_wire_bytes (ae_envelope (br_proof r)))) /\
  Forall (fun p => (1 <= p.1 <= pos_slot (tip (ow_snapshot o)) + 1)%Z /\ standing o p) m /\
  sr_committed report ++ sr_pending report ++ sr_incomplete report ≡ₚ map fst m /\
  sr_incomplete report = map fst (filter (fun p => in_original p.2 = None) m).
Proof.
  intros [Hg Hau] H. unfold sign_reconcile in H. apply bind_Ok in H as (sn & Hsn & H).
  apply bind_Ok in H as ([view ev] & _ & H). apply bind_Ok in H as ([] & _ & H).
  apply bind_Ok in H as (rep & Hrep & H). apply bind_Ok in H as ([] & Hret & H). injection H as <-.
  apply map_err_Ok in Hsn. unfold owner_snapshot in Hsn. apply bind_Ok in Hsn as ([] & _ & Hsn). injection Hsn as <-.
  apply reconcile_intents_ok in Hrep as (Hm & Hperm & Hinc). cbn [sr_committed sr_pending sr_incomplete app] in *.
  rewrite app_nil_r in Hperm. split_and!; [|done..].
  intros k r Hk Hp. destruct (audited_slots run_id _ Hau) as [_ Hpos].
  destruct (retained_history_ok _ _ _ r Hret) as [i Hi]; [by eapply list_elem_of_lookup_2|done|].
  rewrite (Hpos k r Hk) in Hi. cbn [pos_slot] in Hi. exists i. split; [done|].
  pose proof (intent_get_Some _ _ _ Hi) as Hin. rewrite Forall_forall in Hm.
  destruct (Hm _ Hin) as [_ [r' bs Hr' Ho ->|bs Hr' Ho|Hr' Ho]]; cbn [fst snd] in *;
    replace (Z.to_nat (Z.of_nat k + 1 - 1)) with k in Hr' by lia; rewrite Hk in Hr'; [|done..].
  by injection Hr' as <-.
Qed.

(** Reconciliation accepts only a journal that covers the canonical history of
    its key: every committed block of this producer has its exact original
    envelope retained, every entry is committed with exactly the canonical
    bytes, pending or incomplete at the next slot, and the report lists each
    entry once. *)
Theorem reconcile_sound m key o report :
  audited_owner run_id o -> sign_reconcile m g producer key o = Ok report ->
  (forall k r, sn_records (ow_snapshot o) !! k = Some r -> hc_producer (cb_claim (br_block r)) = producer ->
     exists i, intent_get (Z.of_nat k + 1) m = Some i /\
       in_original i = Some (C1Envelope_wire_bytes (ae_envelope (br_proof r)))) /\
  Forall (fun p => (1 <= p.1 <= pos_slot (tip (ow_snapshot o)) + 1)%Z /\ standing o p) m /\
  sr_committed report ++ sr_pending report ++ sr_incomplete report ≡ₚ map fst m /\
  sr_incomplete report = map fst (filter (fun p => in_original p.2 = None) m).
Proof. apply reconcile_facts. Qed.

(** The owner hands the signer the evidence for the next slot. *)
Lemma signing_history_next o view :
  audited_owner run_id o -> work_ready o = Ok () -> distinct_producers ->
  slot_view (ow_snapshot o) g = Ok view -> exists ev, signing_history o (sv_slot view) = Ok (view, ev).
Proof.
  intros [Hg Hau] Hw Hd Hv. unfold signing_history. rewrite Hw, bind_of_Ok, Hg.
  destruct (audited_has_prefix run_id Hd _ Hau) as [px A]. pose proof (slot_view_prefix _ _ _ _ A Hv) as Hlv.
  destruct (live_view_facts _ _ _ Hlv) as (_ & _ & _ & Hs & Hb). rewrite (au_state _ _ _ A) in Hs, Hb.
  fold (tip (ow_snapshot o)) in Hs, Hb. destruct (audited_slots run_id _ Hau) as [Htip _]. rewrite Hs.
  rewrite (proj2 (Z.leb_le 1 _)), (proj2 (Z.leb_le _ MAX_SLOTS)), (proj2 (Z.ltb_ge _ _))
    by (unfold MAX_SLOTS; lia). simpl fail_if. rewrite bind_of_Ok.
  destruct (audited_replay g (ow_snapshot o) (Z.to_nat (pos_slot (tip (ow_snapshot o)) + 1 - 1)) Hau)
    as (prior & Hi & _ & _ & _ & Hall). rewrite Hall in Hi by lia. cbv zeta. fold g.
  rewrite Hi, bind_of_Ok, Hv, bind_of_Ok. eauto.
Qed.

Lemma signing_view_slot o pb oc oc' view :
  live_owner run_id o -> signing_view o pb oc = (oc', Ok view) -> slot_view (ow_snapshot o) g = Ok view.
Proof.
  intros Ho Hsv. unfold signing_view in Hsv. destruct (check_base o (pb_base pb)) as [[]|]; [|done].
  destruct (sq_begin oc) as [c1 [[]|]]; [|done]. destruct (sq_rollback c1) as [c2 ended].
  injection Hsv as _ Hsv. apply bind_Ok in Hsv as ([] & _ & Hsv). apply bind_Ok in Hsv as ([] & _ & Hsv).
  unfold owner_slot_start in Hsv. apply bind_Ok in Hsv as ([] & _ & Hsv). by rewrite (lo_genesis _ _ Ho) in Hsv.
Qed.

(** The checks of a request pass for the block the owner prepared. *)
Lemma request_progress a o oc oc' view ticket body pb rep :
  distinct_producers -> authority_ok run_id producer pk a -> live_owner run_id o ->
  prepare_next o producer ticket body = Ok pb -> signing_view o pb oc = (oc', Ok view) ->
  sa_reconcile a o = Ok rep -> exists r, sign_request a o pb (Ok view) = Ok (sv_slot view, r).
Proof.
  intros Hd Ha Ho Hpb Hsv Hrec. pose proof (signing_view_slot _ _ _ _ _ Ho Hsv) as Hview.
  assert (audited_owner run_id o) as Hao by (split; apply Ho).
  destruct (signing_history_next o view Hao (live_work_ready _ _ Ho) Hd Hview) as (ev & Hev).
  destruct (prepare_next_ok _ _ _ _ _ _ Ho Hpb) as (_ & view' & sel & native & rec & P & Hsel & _).
  pose proof (pr_view _ _ _ _ _ _ _ _ P) as Pv. fold g in Pv. rewrite Hview in Pv. injection Pv as <-.
  destruct (audited_has_prefix run_id Hd _ (lo_audited _ _ Ho)) as [px A].
  destruct (built_block _ _ _ _ _ _ _ (slot_view_prefix _ _ _ _ A Hview) (pr_stage _ _ _ _ _ _ _ _ P)
    (pr_select _ _ _ _ _ _ _ _ P)) as (block & Eb & _ & Hf & _).
  rewrite (pr_build _ _ _ _ _ _ _ _ P) in Eb. injection Eb as <-.
  unfold sign_request, application. cbn [map_err]. rewrite bind_of_Ok, Hrec, bind_of_Ok.
  rewrite neq_dec_false by (rewrite (ao_producer _ _ _ _ Ha), (bf_producer _ _ _ _ Hf); done).
  simpl fail_if. rewrite bind_of_Ok, Hev. cbn [map_err]. rewrite bind_of_Ok. eauto.
Qed.

(** C24: signing makes progress: on a store without faults, a ready authority whose
    journal reconciles with the owner and has no incomplete entry signs the
    block its owner prepared for a new slot, and the owner seals the returned
    original (unless the header collides with a committed one).  The store
    enforces the keys, checks and references of its schema and refuses a BEGIN
    inside an open transaction, which a ready authority never has; no statement
    of the call is refused unless the new envelope or two retained ones collide
    under the envelope-id hash. *)
Theorem signing_progress a c log o oc oc' view ticket body pb rep m entropy fuel signature :
  distinct_producers -> signing_config producer v -> @faultless JN ->
  rtc (sign_step run_id producer) fresh_signer (mk_signer (Some a) (Some c) (Some (jcommitted c)) log) ->
  sa_ready a o = Ok () -> live_owner run_id o -> prepare_next o producer ticket body = Ok pb ->
  signing_view o pb oc = (oc', Ok view) -> sa_reconcile a o = Ok rep ->
  jstored g producer pk m (jcommitted c) -> identified g producer pk (jcommitted c) ->
  first_incomplete m = None -> intent_get (sv_slot view) m = None ->
  (0 <= sa_signing_calls a)%Z -> (sa_signing_calls a + 1 < U64)%Z ->
  sign_digest (sa_key a) (claim_signing_digest (cb_claim (pb_block pb)) (pol_network (g_policy g))) entropy fuel =
    Some (Ok signature) ->
  originals_clash (journal_originals m ++
    [C1Envelope_wire_bytes (C1Envelope_from_parts (pb_block pb) (pol_network (g_policy g)) signature)]) \/
  exists a' c' og, sign_prepared entropy fuel (Ok ()) (Ok ()) a c o oc pb = (a', c', oc', Some (Ok og)) /\
    ((exists r, r ∈ sn_records (ow_snapshot o) /\ header_collision (header_of r)
        (mk_historical (hc_header (cb_claim (pb_block pb))) (C1Block_hash (pb_block pb)))) \/
     exists r, seal_prepared o pb (og_bytes og) = (o, Ok (mk_staged (owner_base o) r)) /\
       br_block r = pb_block pb).
Proof.
  intros Hd Hc F Hr Hready Ho Hpb Hsv Hrec Hm Hid Hinc Hnew H0 Hcalls Hsig.
  assert (audited_owner run_id o) as Hao by (split; apply Ho).
  assert (issued_prepared run_id pb) as Hiss by (do 4 eexists; split; [exact Ho|exact Hpb]).
  pose proof (reachable_signer _ Hd Hc Hr) as (m0 & Hm0 & _ & Hkn). cbn [sg_disk] in *.
  pose proof (jstored_unique _ _ _ _ _ _ Hm0 Hm) as ->. destruct (Hkn a eq_refl) as [Ha Hkn'].
  destruct Hkn' as (Em & _ & c0 & [= <-] & _ & Htx); [unfold sa_ready in Hready; inv_ok; done|].
  destruct (request_progress a o oc oc' view ticket body pb rep) as [r Hreq]; [done..|].
  destruct (request_ok _ Hd _ _ _ _ _ _ _ _ _ _ Hc Ha Hao Hiss Hsv Hreq) as (Hw & Hp & Hs & Hdec).
  destruct (sign_new_progress run_id producer v Hc F entropy fuel a c (pb_block pb) (sv_slot view) r
    (cs_id (pb_candidate pb)) signature) as [Hcl|(a1 & c1 & og & Hn)]; rewrite ?Em; try done;
    [left; by rewrite <- Em|right].
  assert (sign_prepared entropy fuel (Ok ()) (Ok ()) a c o oc pb = (a1, c1, oc', Some (Ok og))) as Hall
    by (unfold sign_prepared; by rewrite Hready, Hsv, Hreq, Em, Hnew, Hinc, Hn).
  exists a1, c1, og. split; [done|].
  destruct (sign_prepared_spec run_id Hd producer v _ _ _ _ _ _ _ _ _ _ _ _ _ m Hc Ha Hao Hiss Hm
    (fun _ => Em) Hall) as [(_ & _ & _ & Hog)|(_ & used & m' & Fa)].
  { destruct (Hog og eq_refl) as (i & cand & Hi & _). rewrite Hs, Hnew in Hi. done. }
  destruct (fa_ready _ _ _ _ _ _ _ _ _ _ _ Fa og eq_refl) as (_ & _ & _ & _ & proof & Hop & Hb & _).
  destruct (prepared_agree run_id o _ _ _ _ _ _ Hd Ho Hpb Hop Hb) as [?|(rr & Hseal & _ & Hbr & _)]; [by left|right].
  by exists rr.
Qed.
End SigningProperties.

(** ** An example run *)

Definition toy_config_A : ValidatorConfig := mk_config (str "trial-A") KEY_A ADDRESS_A ADDRESS_A INITIAL_VAULT.

Lemma toy_signing_config : signing_config (str "trial-A") toy_config_A.
Proof. reflexivity. Qed.

Definition mem_jempty : @jconn mem_journal := (empty_journal, None).

Definition toy_files (created : bool) (c : @jconn mem_journal) : @SigningFiles mem_journal :=
  @mk_signing_files mem_journal (Ok ()) true (Ok ()) (Ok created) (Ok c) (Ok ()) (Ok ()).

Definition toy_open (create : bool) (c : @jconn mem_journal) :
    option (@jconn mem_journal) * result sign_error (@SigningAuthority toy_k256) :=
  @open_inner mem_journal toy_keccak toy_k256 (toy_files (negb create) c) toy_genesis (str "trial-A")
    toy_key toy_owner create.

(** Sign with the opened signer, the created owner and the prepared block;
    [sync1] and [sync2] are the results of the two syncs. *)
Definition toy_sign_with (opened : option (@jconn mem_journal) * result sign_error (@SigningAuthority toy_k256))
    (created : result app_error (Owner * @conn mem_sqlite)) (prepared : result app_error PreparedBlock)
    (sync1 sync2 : result string ()) :=
  match opened, created, prepared with
  | (Some c, Ok a), Ok (o, oc), Ok pb =>
      Some (a, c, oc, pb,
            @sign_prepared mem_journal mem_sqlite toy_keccak toy_k256 (fun _ => None) 1 sync1 sync2 a c o oc pb)
  | _, _, _ => None
  end.

Abbreviation toy_outcome :=
  (option (@SigningAuthority toy_k256 * @jconn mem_journal * @conn mem_sqlite * PreparedBlock *
    (@SigningAuthority toy_k256 * @jconn mem_journal * @conn mem_sqlite * option (result sign_error Original)))).

Lemma toy_sign_with_ok opened created prepared sync1 sync2 x y :
  toy_sign_with opened created prepared sync1 sync2 = Some (x, y) ->
  exists a c o oc pb, x = (a, c, oc, pb) /\ opened = (Some c, Ok a) /\ created = Ok (o, oc) /\ prepared = Ok pb /\
    @sign_prepared mem_journal mem_sqlite toy_keccak toy_k256 (fun _ => None) 1 sync1 sync2 a c o oc pb = y.
Proof.
  destruct opened as [[c|] [a|]], created as [[o oc]|], prepared as [pb|]; try discriminate.
  intros [= <- <-]. exists a, c, o, oc, pb. by split_and!.
Qed.

Definition toy_prepare : result app_error PreparedBlock :=
  @prepare_next toy_keccak toy_k256 toy_owner (str "trial-A") 1 [].
Definition toy_first_sign (sync1 sync2 : result string ()) :=
  toy_sign_with (toy_open true mem_jempty) toy_created toy_prepare sync1 sync2.

Lemma toy_first_sign_ok sync1 sync2 a c oc pb a' c' oc' res :
  toy_first_sign sync1 sync2 = Some (a, c, oc, pb, (a', c', oc', res)) ->
  toy_open true mem_jempty = (Some c, Ok a) /\ toy_prepare = Ok pb /\
  @sign_prepared mem_journal mem_sqlite toy_keccak toy_k256 (fun _ => None) 1 sync1 sync2 a c toy_owner oc pb =
    (a', c', oc', res).
Proof.
  intros (a0 & c0 & o0 & oc0 & pb0 & E & Ho & Hc & Hp & H)%toy_sign_with_ok. injection E as -> -> -> ->.
  destruct toy_create as (c1 & _ & E & _). rewrite E in Hc. injection Hc as <- <-.
  split; [exact Ho|]. split; [exact Hp|exact H].
Qed.

Lemma toy_issued pb :
  toy_prepare = Ok pb ->
  @issued_prepared toy_keccak toy_k256 (str "run-1") pb.
Proof. intros H. exists toy_owner, (str "trial-A"), 1%Z, []. split; [exact toy_live_owner|exact H]. Qed.

Lemma toy_audited_owner : @audited_owner toy_keccak toy_k256 (str "run-1") toy_owner.
Proof. split; [apply toy_live_owner|apply toy_live_owner]. Qed.

Abbreviation toy_step := (@sign_step mem_journal mem_sqlite toy_keccak toy_k256 (str "run-1") (str "trial-A")).
Abbreviation toy_signer := (@mk_signer mem_journal toy_k256).

(** The signer after creating its store. *)
Lemma toy_started sync1 sync2 a c oc pb a' c' oc' res :
  toy_first_sign sync1 sync2 = Some (a, c, oc, pb, (a', c', oc', res)) ->
  rtc toy_step fresh_signer (toy_signer (Some a) (Some c) (Some (@jcommitted mem_journal c)) []).
Proof.
  intros (Ho & _ & _)%toy_first_sign_ok. apply rtc_once.
  refine (@ss_create mem_journal mem_sqlite toy_keccak toy_k256 (str "run-1") (str "trial-A")
    (toy_files false mem_jempty) toy_key toy_owner (Some c) (Ok a) None [] _ (or_introl eq_refl) Ho).
  intros c0 E. injection E as <-. reflexivity.
Qed.

(** The signer after one signing call that ended with [res]. *)
Lemma toy_signed sync1 sync2 a c oc pb a' c' oc' res :
  toy_first_sign sync1 sync2 = Some (a, c, oc, pb, (a', c', oc', Some res)) ->
  rtc toy_step fresh_signer (toy_signer (Some a') (Some c') (Some (@jcommitted mem_journal c'))
    (if (sa_signing_calls a' =? sa_signing_calls a)%Z then [] else [pb_block pb])).
Proof.
  intros H. pose proof (toy_started _ _ _ _ _ _ _ _ _ _ H) as Hs.
  apply toy_first_sign_ok in H as (_ & Hp & E). eapply rtc_r; [exact Hs|].
  exact (@ss_sign mem_journal mem_sqlite toy_keccak toy_k256 (str "run-1") (str "trial-A")
    _ _ _ _ a c toy_owner oc pb a' c' oc' (Some res) [] toy_audited_owner (toy_issued _ Hp) E).
Qed.

Definition signs (x : toy_outcome) : bool :=
  if x is Some (a, _, _, _, (a', _, _, Some (Ok _)))
  then negb (sa_signing_calls a' =? sa_signing_calls a)%Z else false.

Lemma toy_run : exists a c oc pb a' c' oc' og,
  toy_first_sign (Ok ()) (Ok ()) = Some (a, c, oc, pb, (a', c', oc', Some (Ok og))) /\
  (sa_signing_calls a' =? sa_signing_calls a)%Z = false.
Proof.
  assert (signs (toy_first_sign (Ok ()) (Ok ())) = true) as H by (vm_compute; reflexivity). unfold signs in H.
  destruct (toy_first_sign (Ok ()) (Ok ())) as [[[[[a c] oc] pb] [[[a' c'] oc'] [[og|e]|]]]|]; try discriminate.
  exists a, c, oc, pb, a', c', oc', og. split; [reflexivity|]. by apply negb_true_iff in H.
Qed.

Lemma never_double_signs_witness : exists n b,
  rtc toy_step fresh_signer n /\ sg_log n = [b] /\ NoDup (map block_slot (sg_log n)).
Proof.
  destruct toy_run as (a & c & oc & pb & a' & c' & oc' & og & H & Hcalls).
  pose proof (toy_signed _ _ _ _ _ _ _ _ _ _ H) as Hr. rewrite Hcalls in Hr. eexists _, (pb_block pb).
  split; [exact Hr|]. split; [reflexivity|].
  apply (@never_double_signs mem_journal mem_journal_laws mem_sqlite toy_keccak toy_k256 toy_k256_laws
    (str "run-1") (str "trial-A") toy_config_A _ toy_distinct toy_signing_config Hr).
Defined.

Lemma journal_permanent_witness : exists (n n' : @signer mem_journal toy_k256) m p' m' t i,
  rtc toy_step fresh_signer n /\ sg_authority n' = None /\
  intent_get t m = Some i /\ sg_disk n' = Some p' /\
  @jstored toy_keccak toy_genesis (str "trial-A") KEY_A m' p' /\ intent_get t m' = Some i.
Proof.
  destruct toy_run as (a & c & oc & pb & a' & c' & oc' & og & H & Hcalls).
  pose proof (toy_signed _ _ _ _ _ _ _ _ _ _ H) as Hr. rewrite Hcalls in Hr.
  destruct (@reachable_signer mem_journal mem_journal_laws mem_sqlite toy_keccak toy_k256 toy_k256_laws
    (str "run-1") (str "trial-A") toy_config_A _ toy_distinct toy_signing_config Hr) as (m & Hm & Hlog & _).
  destruct (lg_reserved _ _ _ _ _ Hlog (pb_block pb) (list_elem_of_here _ _)) as (i & cand & Hi & _).
  destruct (@journal_permanent mem_journal mem_journal_laws mem_sqlite toy_keccak toy_k256 toy_k256_laws
    (str "run-1") (str "trial-A") toy_config_A _ _ _ m _ i toy_distinct toy_signing_config Hr
    (rtc_once _ _ (@ss_stop mem_journal mem_sqlite toy_keccak toy_k256 _ _ a' (Some c') _ _)) eq_refl Hm Hi)
    as (p' & m' & Hp & Hm' & Hi').
  eexists _, _, m, p', m', _, i. split; [exact Hr|]. split; [|split; [exact Hi|split; [exact Hp|split; [exact Hm'|exact Hi']]]].
  reflexivity.
Defined.

Lemma original_durable_witness : exists pb og proof,
  @open_envelope toy_keccak toy_k256 toy_genesis (og_bytes og) = Ok proof /\
  ce_block (ae_envelope proof) = pb_block pb.
Proof.
  destruct toy_run as (a & c & oc & pb & a' & c' & oc' & og & H & _).
  pose proof (toy_started _ _ _ _ _ _ _ _ _ _ H) as Hs. apply toy_first_sign_ok in H as (_ & Hp & E).
  destruct (@original_durable mem_journal mem_journal_laws mem_sqlite toy_keccak toy_k256 toy_k256_laws
    (str "run-1") (str "trial-A") toy_config_A _ _ _ _ _ _ _ _ _ _ _ _ _ og toy_distinct toy_signing_config Hs
    toy_audited_owner (toy_issued _ Hp) E) as (proof & _ & _ & Hop & Hb & _).
  exists pb, og, proof. split; [exact Hop|exact Hb].
Defined.

(** A first sync that fails leaves a reservation without an original; the
    store is then closed and reopened. *)
Definition fenced (x : toy_outcome) : bool :=
  if x is Some (_, _, oc, pb, (_, c', _, Some _)) then
    if toy_open false (@jcommitted mem_journal c', None) is (Some c2, Ok a2) then
      (if intent_get (block_slot (pb_block pb)) (sa_intents a2) is Some (mk_intent _ None)
       then negb (sa_poisoned a2) else false)
    else false
  else false.

Lemma toy_fenced_run : exists a c (oc : @conn mem_sqlite) pb t r log,
  rtc toy_step fresh_signer (toy_signer (Some a) (Some c) (Some (@jcommitted mem_journal c)) log) /\
  sa_poisoned a = false /\ toy_prepare = Ok pb /\
  block_slot (pb_block pb) = t /\ intent_get t (sa_intents a) = Some (mk_intent r None).
Proof.
  assert (fenced (toy_first_sign (Err "sync") (Ok ())) = true) as H by (vm_compute; reflexivity). unfold fenced in H.
  destruct (toy_first_sign (Err "sync") (Ok ())) as [[[[[a c] oc] pb] [[[a' c'] oc'] [res|]]]|] eqn:E; try discriminate H.
  destruct (toy_open false _) as [[c2|] [a2|]] eqn:E2; try discriminate H.
  destruct (intent_get _ (sa_intents a2)) as [[r [bs|]]|] eqn:Ei; try discriminate H. apply negb_true_iff in H.
  exists a2, c2, oc, pb, (block_slot (pb_block pb)), r. eexists.
  split; [|split; [exact H|]].
  - eapply rtc_r; [eapply rtc_r; [exact (toy_signed _ _ _ _ _ _ _ _ _ _ E)|apply ss_stop]|].
    refine (@ss_reopen mem_journal mem_sqlite toy_keccak toy_k256 (str "run-1") (str "trial-A")
      (toy_files true (@jcommitted mem_journal c', None)) toy_key toy_owner (Some c2) (Ok a2) _ _ _ E2).
    intros c0 E0. injection E0 as <-. reflexivity.
  - apply toy_first_sign_ok in E as (_ & Hp & _). split; [exact Hp|]. split; [reflexivity|exact Ei].
Qed.

Lemma incomplete_fence_witness : exists a c oc pb e,
  sa_poisoned a = false /\ toy_prepare = Ok pb /\
  (@sign_prepared mem_journal mem_sqlite toy_keccak toy_k256 (fun _ => None) 1 (Ok ()) (Ok ()) a c toy_owner oc pb).2 =
    Some (Err e).
Proof.
  destruct toy_fenced_run as (a & c & oc & pb & t & r & log & Hr & Hp & Hpb & Ht & Hi).
  destruct (@sign_prepared mem_journal mem_sqlite toy_keccak toy_k256 (fun _ => None) 1 (Ok ()) (Ok ()) a c
    toy_owner oc pb) as [[[a' c'] oc'] res] eqn:E.
  destruct (@reachable_signer mem_journal mem_journal_laws mem_sqlite toy_keccak toy_k256 toy_k256_laws
    (str "run-1") (str "trial-A") toy_config_A _ toy_distinct toy_signing_config Hr) as (m & Hm & _ & Hkn).
  destruct (Hkn a eq_refl) as [_ Hk]. destruct (Hk Hp) as (Em & _). rewrite Em in Hi.
  destruct (@incomplete_fence mem_journal mem_journal_laws mem_sqlite toy_keccak toy_k256 toy_k256_laws
    (str "run-1") (str "trial-A") toy_config_A _ _ _ m t r _ _ _ _ _ _ _ _ _ _ res toy_distinct toy_signing_config
    Hr Hm Hi toy_audited_owner (toy_issued _ Hpb) E) as (_ & _ & Hres).
  destruct (Hres Ht) as [e He]. exists a, c, oc, pb, e. split; [exact Hp|]. split; [exact Hpb|].
  rewrite E. exact He.
Defined.

(** Recovery after a failed first sync: the attempted reservation is found. *)
Definition recovers_present (o : Owner) (x : toy_outcome) : bool :=
  if x is Some (_, _, _, _, (a', c', _, Some _)) then
    if (@sa_recover mem_journal toy_keccak toy_k256 a' o (Ok (@jcommitted mem_journal c', None)) (Ok ())).2
      is Ok rep then sr_attempted_present rep ==? Some true else false
  else false.

Lemma signer_recovery_witness : exists a c a' c' rep,
  @sa_recover mem_journal toy_keccak toy_k256 a toy_owner (Ok c) (Ok ()) = (a', Some c', Ok rep) /\
  sr_attempted_present rep = Some true /\ sa_poisoned a' = false /\
  @jstored toy_keccak toy_genesis (str "trial-A") KEY_A (sa_intents a') (@jcommitted mem_journal c').
Proof.
  assert (recovers_present toy_owner (toy_first_sign (Err "sync") (Ok ())) = true) as H by (vm_compute; reflexivity).
  unfold recovers_present in H.
  destruct (toy_first_sign (Err "sync") (Ok ())) as [[[[[a0 c0] oc] pb] [[[a c] oc'] [res|]]]|] eqn:E; try discriminate H.
  destruct (@sa_recover mem_journal toy_keccak toy_k256 a toy_owner _ _) as [[a' oc1] [rep|]] eqn:Er;
    [|discriminate H]. apply bool_decide_eq_true in H.
  pose proof (@signer_recovery mem_journal mem_journal_laws mem_sqlite toy_keccak toy_k256 toy_k256_laws
    (str "run-1") (str "trial-A") toy_config_A a (Some c) (@jcommitted mem_journal c) _ toy_owner
    (Ok (@jcommitted mem_journal c, None)) (Ok ()) a' oc1 (Ok rep) toy_distinct toy_signing_config
    (toy_signed _ _ _ _ _ _ _ _ _ _ E)) as Hrec.
  destruct Hrec as (c' & -> & Hp & _ & Hst & _).
  - intros c1 E1. injection E1 as <-. reflexivity.
  - exact Er.
  - eexists a, _, a', c', rep. split; [exact Er|]. split; [exact H|]. split; [exact Hp|exact Hst].
Defined.

(** After signing, the journal reconciles with the owner: slot 1 is pending. *)
Definition pending (g : Genesis) (o : Owner) (x : toy_outcome) : bool :=
  if x is Some (_, _, _, _, (a', _, _, _)) then
    if @sign_reconcile toy_keccak (sa_intents a') g (str "trial-A") KEY_A o is Ok rep then sr_pending rep ==? [1%Z] else false
  else false.

Lemma reconcile_sound_witness : exists m report,
  @sign_reconcile toy_keccak m toy_genesis (str "trial-A") KEY_A toy_owner = Ok report /\
  sr_pending report = [1%Z] /\
  sr_committed report ++ sr_pending report ++ sr_incomplete report ≡ₚ map fst m.
Proof.
  assert (pending toy_genesis toy_owner (toy_first_sign (Ok ()) (Ok ())) = true) as H by (vm_compute; reflexivity). unfold pending in H.
  destruct (toy_first_sign (Ok ()) (Ok ())) as [[[[[a0 c0] oc] pb] [[[a c] oc'] res]]|]; [|discriminate H].
  destruct (@sign_reconcile toy_keccak (sa_intents a) toy_genesis (str "trial-A") KEY_A toy_owner)
    as [rep|] eqn:Er; [|discriminate H]. apply bool_decide_eq_true in H.
  exists (sa_intents a), rep. split; [exact Er|]. split; [exact H|].
  apply (@reconcile_sound toy_keccak toy_k256 (str "run-1") (str "trial-A") (sa_intents a) KEY_A toy_owner
    rep toy_audited_owner Er).
Defined.

Lemma no_lone_clash (b : bytes) : ~ @originals_clash toy_keccak [b].
Proof. intros (x & y & ->%list_elem_of_singleton & ->%list_elem_of_singleton & [Hne _]). by apply Hne. Qed.

(** What [signing_progress] asks of the example. *)
Definition progress_inputs (g : Genesis) (o : Owner)
    (opened : option (@jconn mem_journal) * result sign_error (@SigningAuthority toy_k256))
    (created : result app_error (Owner * @conn mem_sqlite)) (prepared : result app_error PreparedBlock) : bool :=
  match opened, created, prepared with
  | (Some c, Ok a), Ok (_, oc), Ok pb =>
      ((if sa_ready a o is Ok _ then true else false) &&
       (if (@signing_view mem_sqlite toy_keccak o pb oc).2 is Ok _ then true else false) &&
       (if @sa_reconcile toy_keccak toy_k256 a o is Ok _ then true else false) &&
       (sa_intents a ==? []) && (sa_signing_calls a ==? 0%Z) &&
       (jc_metadata (@jcommitted mem_journal c) ==? [mk_jmeta (be_bytes 4 1) (str "c1-signing-authority")
          (identity g (str "trial-A") KEY_A) (u64_cell 1)]) &&
       (if @sign_digest toy_k256 (sa_key a) (@claim_signing_digest toy_keccak (cb_claim (pb_block pb))
          (pol_network (g_policy g))) (fun _ => None) 1 is Some (Ok _) then true else false))%bool
  | _, _, _ => false
  end.

Lemma toy_progress_inputs : exists a c oc pb,
  toy_open true mem_jempty = (Some c, Ok a) /\ toy_created = Ok (toy_owner, oc) /\ toy_prepare = Ok pb /\
  progress_inputs toy_genesis toy_owner (Some c, Ok a) (Ok (toy_owner, oc)) (Ok pb) = true.
Proof.
  assert (progress_inputs toy_genesis toy_owner (toy_open true mem_jempty) toy_created toy_prepare = true) as H
    by (vm_compute; reflexivity).
  destruct toy_create as (oc & _ & Ec & _). rewrite Ec in H. revert H.
  generalize (toy_open true mem_jempty) toy_prepare. intros [[c|] [a|]] [pb|] H; try discriminate H.
  exists a, c, oc, pb. split; [reflexivity|]. split; [exact Ec|]. split; [reflexivity|exact H].
Qed.

Lemma signing_progress_witness : exists a c oc pb a' c' oc' og r,
  @sign_prepared mem_journal mem_sqlite toy_keccak toy_k256 (fun _ => None) 1 (Ok ()) (Ok ()) a c toy_owner oc pb =
    (a', c', oc', Some (Ok og)) /\
  @seal_prepared toy_keccak toy_k256 toy_owner pb (og_bytes og) =
    (toy_owner, Ok (mk_staged (owner_base toy_owner) r)).
Proof.
  destruct toy_progress_inputs as (a & c & oc & pb & Ho & _ & Hpb & H).
  unfold progress_inputs in H.
  apply andb_true_iff in H as [H H7]. apply andb_true_iff in H as [H H6]. apply andb_true_iff in H as [H H5].
  apply andb_true_iff in H as [H H4]. apply andb_true_iff in H as [H H3]. apply andb_true_iff in H as [H1 H2].
  destruct (sa_ready a toy_owner) as [[]|] eqn:E1; [|discriminate H1].
  destruct (@signing_view mem_sqlite toy_keccak toy_owner pb oc) as [oc' [view|]] eqn:E2; [|discriminate H2].
  destruct (@sa_reconcile toy_keccak toy_k256 a toy_owner) as [rep|] eqn:E3; [|discriminate H3].
  apply bool_decide_eq_true in H4, H5, H6. destruct (sign_digest _ _ _ _) as [[sg|]|] eqn:E7; try discriminate H7.
  assert (rtc toy_step fresh_signer (toy_signer (Some a) (Some c) (Some (@jcommitted mem_journal c)) [])) as Hr.
  { apply rtc_once. refine (@ss_create mem_journal mem_sqlite toy_keccak toy_k256 (str "run-1") (str "trial-A")
      (toy_files false mem_jempty) toy_key toy_owner (Some c) (Ok a) None [] _ (or_introl eq_refl) Ho).
    intros c0 E. injection E as <-. reflexivity. }
  destruct (@reachable_signer mem_journal mem_journal_laws mem_sqlite toy_keccak toy_k256 toy_k256_laws
    (str "run-1") (str "trial-A") toy_config_A _ toy_distinct toy_signing_config Hr) as (m & Hm & _ & Hkn).
  destruct (Hkn a eq_refl) as [_ Hk].
  assert (sa_intents a = m) as Em by (apply Hk; unfold sa_ready in E1; inv_ok; done). rewrite H4 in Em. subst m.
  destruct (@signing_progress mem_journal mem_journal_laws mem_sqlite toy_keccak toy_k256 toy_k256_laws
    (str "run-1") (str "trial-A") toy_config_A a c [] toy_owner oc oc' view 1 [] pb rep [] (fun _ => None) 1 sg
    toy_distinct toy_signing_config mem_journal_faultless Hr E1 toy_live_owner Hpb E2 E3 Hm)
    as [Hcl|(a' & c' & og & Hs & [(r & Hin & _)|(r & Hseal & _)])];
    [exists (u64_cell 1); split; [exact H6|reflexivity]|reflexivity|reflexivity|lia|rewrite H5; reflexivity|exact E7| | |].
  - destruct (no_lone_clash _ Hcl).
  - apply not_elem_of_nil in Hin as [].
  - exists a, c, oc, pb, a', c', oc', og, r. split; [exact Hs|exact Hseal].
Defined.
