(* ===== verification/PoashNode.v ===== *)
(** * The trial process (src/src/native_poash/trial.rs)

    One node of the finite trial: the canonical owner, the optional signing
    authority, the configured peers, and the handlers of operator commands
    and peer messages that compose them.  JSON texts and time spans are left
    out: a command is a value of [Command], an answer a value of [Reply], a
    timing its slot, action and success.  What the operating system, the
    network and the entropy source return are arguments of the handlers.

    PoashProcess proves what the composition promises. *)

From S2P Require Import Prelude Codec Crypto BlockCommitment NativeTransaction.
From S2P Require Import NativeTransfer NativeBlock BlockAuthentication LeaderSelection.
From S2P Require Import PoashBase PoashState PoashSelection PoashGenesis PoashClaim.
From S2P Require Import PoashHistory PoashAdmission PoashApplication PoashCompound PoashChain.
From S2P Require Import PoashPeer PoashSnapshot PoashOwner PoashReplay PoashSql PoashCommit.
From S2P Require Import PoashJournal PoashSigning.

Definition MAX_JSON : Z := 65536.
Definition MAX_TIMINGS : nat := 1024.

(** ** Addresses, configuration, commands *)

(** [std::net::SocketAddr] *)
Inductive SocketAddr : Type :=
| SocketV4 (ip port : Z)
| SocketV6 (ip port flowinfo scope : Z).

#[export] Instance SocketAddr_eq_dec : EqDecision SocketAddr.
Proof. solve_decision. Defined.

(** [address.ip().is_loopback()]: 127.0.0.0/8 or ::1. *)
Definition is_loopback (a : SocketAddr) : bool :=
  match a with
  | SocketV4 ip _ => (Z.shiftr ip 24 =? 127)%Z
  | SocketV6 ip _ _ _ => (ip =? 1)%Z
  end.

Inductive Mode : Type := Create | Reopen.

Record PeerConfig : Type := mk_peer_config {
  pc_id : bytes;
  pc_address : SocketAddr
}.

#[export] Instance PeerConfig_eq_dec : EqDecision PeerConfig.
Proof. solve_decision. Defined.

Inductive Section_ : Type := Records | Transactions | SenderNonces.

Module Command.
Inductive command : Type :=
| Status
| Advance (slot : Z)
| ApplyOriginal (slot : Z)
| Publish (slot : Z)
| Catchup (source : bytes) (target_slot : Z) (target_hash : bytes)
| Recover
| Export (slot : Z)
| State (offset length : Z)
| Inspect (section : Section_) (offset limit : Z)
| Timings (offset limit : Z)
| Stop.
End Command.
Abbreviation command := Command.command.

(** [Timing] without its durations. *)
Record Timing : Type := mk_timing {
  tm_slot : Z;
  tm_action : string;
  tm_success : bool
}.

(** The rows [inspect] returns. *)
Inductive InspectRow : Type :=
| RecordRow (slot : Z) (hash state_id envelope envelope_id : bytes) (gas fees : Z) (ids : list bytes)
| TransactionRow (id : bytes) (slot : Z) (hash : bytes) (index : Z)
| NonceRow (sender : bytes) (nonce slot : Z) (hash : bytes) (index : Z).

Record StatusReply : Type := mk_status {
  st_id : bytes;
  st_network_id : bytes;
  st_slot : Z;
  st_hash : bytes;
  st_state_id : bytes;
  st_halted : bool;
  st_producer : option bytes;
  st_selected : option bytes;
  st_ticket : option Z;
  st_gas : Z;
  st_fees : Z;
  st_issuance : Z;
  st_records : nat;
  st_transactions : nat;
  st_sender_nonces : nat;
  st_snapshot_digest : bytes;
  st_signing_pending : option (list Z);
  st_signing_incomplete : option (list Z);
  st_signing_calls : option Z
}.

(** The [result] values of the operator's answers. *)
Module Reply.
Inductive reply : Type :=
| Status (s : StatusReply)
| RetainedCommitted (envelope envelope_id : bytes)
| NotSelected (selected : bytes)
| Committed (slot : Z) (hash envelope_id producer : bytes) (delivered : nat)
| Delivered (n : nat)
| CaughtUp (slot : Z) (hash : bytes)
| Reconciled (pending incomplete : option (list Z)) (halted : bool)
| Envelope (bs : bytes)
| StatePage (total : nat) (offset : Z) (page : bytes)
| Rows (total : nat) (rows : list InspectRow)
| TimingRows (total : nat) (rows : list Timing)
| Stopped.
End Reply.
Abbreviation reply := Reply.reply.

(** [iter().skip(offset).take(limit)] *)
Definition page {A} (offset limit : Z) (l : list A) : list A :=
  take (Z.to_nat limit) (drop (Z.to_nat offset) l).

(** Iteration order of the two membership maps of a snapshot. *)
Definition ordered_transactions (s : Snapshot) : list (bytes * Membership) :=
  sort_by (fun a b => bytes_leb a.1 b.1) (map_to_list (sn_transactions s)).
Definition nonce_leb (a b : bytes * Z) : bool :=
  if a.1 ==? b.1 then (a.2 <=? b.2)%Z else bytes_leb a.1 b.1.
Definition ordered_nonces (s : Snapshot) : list (bytes * Z * Membership) :=
  sort_by (fun a b => nonce_leb a.1 b.1) (map_to_list (sn_sender_nonces s)).

(** [text.len().min(256)] moved back to a character boundary: the text an
    error answer carries, as UTF-8 bytes. *)
Definition is_char_boundary (text : bytes) (n : nat) : bool :=
  match text !! n with
  | None => n ==? length text
  | Some b => negb (byte_in 128 191 b)
  end.
Fixpoint boundary_below (text : bytes) (n : nat) : nat :=
  match n with
  | O => O
  | S m => if is_char_boundary text n then n else boundary_below text m
  end.
Definition fail_text (text : bytes) : bytes := take (boundary_below text (Nat.min (length text) 256)) text.

(** The operator's frames: a big-endian length and a JSON text.  A stream is
    the bytes the input still holds; [Ok None] is its end. *)
Definition read_local (input : bytes) : result string (option (bytes * bytes)) :=
  match input with
  | [] => Ok None
  | _ =>
      fail_if (length input <? 4)%nat "failed to fill whole buffer"%string;;
      let len := be_val (take 4 input) in
      fail_if ((len ==? 0)%Z || (MAX_JSON <? len)%Z) "C1 operator frame bound"%string;;
      let rest := drop 4 input in
      fail_if (Z.of_nat (length rest) <? len)%Z "failed to fill whole buffer"%string;;
      Ok (Some (take (Z.to_nat len) rest, drop (Z.to_nat len) rest))
  end.
Definition write_local (text : bytes) : result string bytes :=
  fail_if (MAX_JSON <? Z.of_nat (length text))%Z "C1 operator response bound"%string;;
  Ok (be_bytes 4 (Z.of_nat (length text)) ++ text).

(** What opening a file finds: its declared length and the contents read. *)
Record FileRead : Type := mk_file_read {
  fr_len : Z;
  fr_contents : bytes
}.

Definition bounded_file (f : result string FileRead) (max : Z) : result string bytes :=
  f ← f;
  fail_if (max <? fr_len f)%Z "bounded C1 input file"%string;;
  let bs := take (Z.to_nat (max + 1)) (fr_contents f) in
  fail_if (max <? Z.of_nat (length bs))%Z "growing C1 input file"%string;;
  Ok bs.

(** How one connection of a peer behaves. *)
Record Wire : Type := mk_wire {
  wi_connect : result string ();
  wi_writes : list write_event;
  wi_reads : list read_event
}.

Record ProducerConfig : Type := mk_producer_config {
  pd_id : bytes;
  pd_mode : Mode
}.

(** The configuration without its paths. *)
Record Config : Type := mk_config_file {
  cf_id : bytes;
  cf_mode : Mode;
  cf_listen : SocketAddr;
  cf_peers : list PeerConfig;
  cf_producer : option ProducerConfig;
  cf_plan : bool
}.

(** Every exchange has its own request number; [net] gives its connection. *)
Abbreviation Network := (Z -> Wire).

(** [Display] of the three error types; only texts depend on them. *)
Class Describe : Type := {
  describe_app : app_error -> string;
  describe_sign : sign_error -> string;
  describe_protocol : poash_error -> string
}.

Definition encoded `{Hex} (s : bytes) (max : Z) : result string bytes :=
  fail_if ((max * 2 <? Z.of_nat (length s)) || negb (Z.of_nat (length s) mod 2 =? 0))%Z
    "bounded C1 hex"%string;;
  ok_or (hex_decode s) "C1 hex"%string.

(** serde_json: the body plan of a text. *)
Class Json : Type := parse_plan : bytes -> option (list (list bytes)).

(** [SigningKey::from_slice] *)
Class KeySlice `{K256} : Type := key_from_slice : bytes -> option SigningKey.

(** [meta]: whether the path is a regular file, and its permission bits. *)
Definition key_file `{KeySlice} (meta : result string (bool * Z)) (f : result string FileRead) :
    result string SigningKey :=
  '(is_file, mode) ← meta;
  fail_if (negb is_file || negb (Z.land mode 63 =? 0)%Z) "C1 external key must be a private regular file"%string;;
  bs ← bounded_file f 32;
  fail_if (negb (length bs =? 32)%nat) "C1 external key width"%string;;
  ok_or (key_from_slice bs) "invalid external signing key"%string.

Section Nodes.
  Context `{JN : Journal} `{SQ : Sqlite} `{KE : Keccak} `{KC : K256} `{DS : Describe} `{HX : Hex}.
  Context `{JS : Json} {KS : KeySlice}.

(** [Node] without its file fence; the two connections are kept beside the
    owner and the authority they belong to. *)
Record Node : Type := mk_node {
  nd_id : bytes;
  nd_g : Genesis;
  nd_store : Owner;
  nd_conn : option conn;
  nd_signer : option SigningAuthority;
  nd_jconn : option jconn;
  nd_plan : list (list bytes);
  nd_peers : list PeerConfig;
  nd_request : Z;
  nd_halted : bool;
  nd_available : bool;
  nd_timings : list Timing
}.

Definition set_nd_store (n : Node) (o : Owner) (c : option conn) : Node :=
  mk_node (nd_id n) (nd_g n) o c (nd_signer n) (nd_jconn n) (nd_plan n) (nd_peers n) (nd_request n)
    (nd_halted n) (nd_available n) (nd_timings n).
Definition set_nd_signer (n : Node) (a : option SigningAuthority) (c : option jconn) : Node :=
  mk_node (nd_id n) (nd_g n) (nd_store n) (nd_conn n) a c (nd_plan n) (nd_peers n) (nd_request n)
    (nd_halted n) (nd_available n) (nd_timings n).
Definition set_nd_request (n : Node) (r : Z) : Node :=
  mk_node (nd_id n) (nd_g n) (nd_store n) (nd_conn n) (nd_signer n) (nd_jconn n) (nd_plan n) (nd_peers n) r
    (nd_halted n) (nd_available n) (nd_timings n).
Definition set_nd_halted (n : Node) (b : bool) : Node :=
  mk_node (nd_id n) (nd_g n) (nd_store n) (nd_conn n) (nd_signer n) (nd_jconn n) (nd_plan n) (nd_peers n)
    (nd_request n) b (nd_available n) (nd_timings n).
Definition set_nd_available (n : Node) (b : bool) : Node :=
  mk_node (nd_id n) (nd_g n) (nd_store n) (nd_conn n) (nd_signer n) (nd_jconn n) (nd_plan n) (nd_peers n)
    (nd_request n) (nd_halted n) b (nd_timings n).
Definition set_nd_timings (n : Node) (t : list Timing) : Node :=
  mk_node (nd_id n) (nd_g n) (nd_store n) (nd_conn n) (nd_signer n) (nd_jconn n) (nd_plan n) (nd_peers n)
    (nd_request n) (nd_halted n) (nd_available n) t.

Definition as_app {A} (r : result app_error A) : result string A := map_err describe_app r.
Definition as_sign {A} (r : result sign_error A) : result string A := map_err describe_sign r.
Definition is_ok {E A} (r : result E A) : bool := if r is Ok _ then true else false.

(** [self.signer.as_ref().is_some_and(|s| !s.is_ready())] *)
Definition signer_unready (n : Node) : bool := if nd_signer n is Some a then sa_poisoned a else false.

(** [Node::ready], [Node::work] and [Node::log] *)
Definition node_ready (n : Node) : result string Snapshot :=
  fail_if (negb (nd_available n) || signer_unready n)
    "C1 process unavailable; explicit recover required"%string;;
  as_app (owner_snapshot (nd_store n)).
Definition node_work (n : Node) : result string () :=
  node_ready n;;
  fail_if (nd_halted n || ow_halted (nd_store n)) "C1 progress halted; no fallback outcome"%string.
Definition node_log (n : Node) (t : Timing) : Node :=
  let ts := nd_timings n in
  set_nd_timings n ((if length ts =? MAX_TIMINGS then drop 1 ts else ts) ++ [t])%nat.

(** The diagnostic digest of a whole snapshot. *)
Definition membership_bytes (m : Membership) : bytes :=
  be_bytes 8 (pos_slot (mb_position m)) ++ pos_hash (mb_position m) ++ be_bytes 8 (mb_index m).
Definition digest_preimage (g : Genesis) (s : Snapshot) : bytes :=
  pol_network (g_policy g) ++
  be_bytes 4 (Z.of_nat (length (cs_bytes (sn_state s)))) ++ cs_bytes (sn_state s) ++
  be_bytes 2 (Z.of_nat (length (sn_records s))) ++
  concat (map (fun r =>
    let e := C1Envelope_wire_bytes (ae_envelope (br_proof r)) in
    be_bytes 4 (Z.of_nat (length e)) ++ e ++ cs_id (br_state r)) (sn_records s)) ++
  be_bytes 4 (Z.of_nat (length (ordered_transactions s))) ++
  concat (map (fun p => p.1 ++ membership_bytes p.2) (ordered_transactions s)) ++
  be_bytes 4 (Z.of_nat (length (ordered_nonces s))) ++
  concat (map (fun p => p.1.1 ++ be_bytes 8 p.1.2 ++ membership_bytes p.2) (ordered_nonces s)).
Definition snapshot_digest (g : Genesis) (s : Snapshot) : bytes :=
  hash_with_domain (str "ETERNIX_C1_PROCESS_SNAPSHOT" ++ [x00]) (digest_preimage g s).

Definition node_status (n : Node) : result string StatusReply :=
  s ← node_ready n;
  let selected := ok (v ← owner_slot_start (nd_store n); protocol (view_select v)) in
  protection ← (if nd_signer n is Some a then Some <$> as_sign (sa_status a (nd_store n)) else Ok None);
  let d := cs_data (sn_state s) in
  Ok (mk_status (nd_id n) (pol_network (g_policy (nd_g n))) (pos_slot (tip s)) (pos_hash (tip s))
        (cs_id (sn_state s)) (nd_halted n || ow_halted (nd_store n)) (sa_producer <$> nd_signer n)
        (sel_owner <$> selected) (sel_ticket <$> selected) (s_gas_used d) (s_fees_burned d)
        (s_base_issuance d) (length (sn_records s)) (size (sn_transactions s)) (size (sn_sender_nonces s))
        (snapshot_digest (nd_g n) s) (sr_pending <$> protection) (sr_incomplete <$> protection)
        (sa_signing_calls <$> nd_signer n)).

(** ** Publishing *)

(** [Node::request] *)
Definition node_request (n : Node) (kind : peer_kind) (body : bytes) : Node * result string Message :=
  match checked_add U64 (nd_request n) 1 with
  | None => (n, Err "C1 request counter exhausted"%string)
  | Some r => (set_nd_request n r, Message_new kind r body)
  end.

(** [peer::exchange(address, &self.g, &request)] *)
Definition node_exchange (net : Network) (n : Node) (a : SocketAddr) (m : Message) : result string Message :=
  let w := net (msg_request m) in
  exchange (is_loopback a) (wi_connect w) (nd_g n) m (wi_writes w) (wi_reads w).

(** The acknowledgement names exactly the pushed block and envelope. *)
Definition confirms (s : Z) (e : C1Envelope) (r : Message) : bool :=
  (msg_kind r ==? PeerKind.Ack) && (slice 8 0 (msg_body r) ==? be_bytes 8 s) &&
  (slice 32 8 (msg_body r) ==? C1Block_hash (ce_block e)) && (slice 32 40 (msg_body r) ==? C1Envelope_id e).

Fixpoint push_all (net : Network) (n : Node) (s : Z) (bs : bytes) (e : C1Envelope) (peers : list PeerConfig)
    (delivered : nat) (error : option string) : Node * result string (nat * option string) :=
  match peers with
  | [] => (n, Ok (delivered, error))
  | p :: rest =>
      let '(n, made) := node_request n PeerKind.Push bs in
      match made with
      | Err x => (n, Err x)
      | Ok request =>
          let reply := node_exchange net n (pc_address p) request in
          if (if reply is Ok r then confirms s e r else false)
          then push_all net n s bs e rest (S delivered) error
          else push_all net n s bs e rest delivered
                 (Some ("C1 publication not confirmed: " +:+
                        (if reply is Err x then x else "peer rejected/different retained evidence"%string)))
      end
  end.

(** The retained bytes of a canonical record and their envelope. *)
Definition canonical_original (n : Node) (s : Z) : result string (bytes * C1Envelope) :=
  fail_if (negb ((1 <=? s) && (s <=? MAX_SLOTS)))%Z "C1 publication slot bound"%string;;
  sn ← node_ready n;
  i ← ok_or (checked_sub s 1) "unsigned anchor"%string;
  r ← ok_or (sn_records sn !! Z.to_nat i) "missing canonical original"%string;
  let bs := C1Envelope_wire_bytes (ae_envelope (br_proof r)) in
  e ← as_app (C1Envelope_from_wire_bytes bs);
  fail_if (bool_decide (nd_peers n = [])) "no configured publication recipients"%string;;
  Ok (bs, e).

Definition publish (net : Network) (n : Node) (s : Z) : Node * result string nat :=
  match canonical_original n s with
  | Err x => (n, Err x)
  | Ok (bs, e) =>
      let '(n, pushed) := push_all net n s bs e (nd_peers n) 0 None in
      match pushed with
      | Err x => (n, Err x)
      | Ok (delivered, Some x) => (set_nd_halted n true, Err x)
      | Ok (delivered, None) => (n, Ok delivered)
      end
  end.

(** ** Producing *)

(** What one advance is supplied with: entropy for the signature and fuel for
    its loop, the two path syncs of the journal, the network. *)
Record AdvanceEnv : Type := mk_advance_env {
  av_entropy : nat -> option Entropy;
  av_fuel : nat;
  av_sync1 : result string ();
  av_sync2 : result string ();
  av_net : Network
}.

(** The commit of a staged block and the publication after it. *)
Definition commit_publish (net : Network) (n : Node) (c : conn) (producer : bytes) (stage : StagedBlock) :
    Node * result string reply :=
  let '(o, c, outcome) := commit describe_app (nd_store n) c stage in
  let n := set_nd_store n o (Some c) in
  match outcome with
  | Committed position envelope_id _ =>
      let '(n, delivery) := publish net n (pos_slot position) in
      (n, delivered ← delivery;
          Ok (Reply.Committed (pos_slot position) (pos_hash position) envelope_id producer delivered))
  | Aborted e =>
      (set_nd_halted n true,
       Err ("canonical abort; original remains fenced: " +:+ describe_app e))
  | RecoveryRequired e =>
      (set_nd_available n false,
       Err ("canonical uncertainty; explicit separate recovery required: " +:+ describe_app e))
  end.

(** [apply_original]: stage the retained original of a pending slot. *)
Definition stage_original (n : Node) (a : SigningAuthority) (report : SigningReport) (s : Z) :
    Node * result string StagedBlock :=
  match (fail_if (negb (bool_decide (s ∈ sr_pending report)))
           "no exact pending original; never create/sign implicitly"%string;;
         as_sign (sa_original a (nd_store n) s)) with
  | Err x => (n, Err x)
  | Ok original =>
      let '(o, staged) := stage_received (nd_store n) (og_bytes original) in
      let n := set_nd_store n o (nd_conn n) in
      (n, stage ← as_app staged; as_sign (check_application a o s stage);; Ok stage)
  end.

(** The block the plan has for this slot. *)
Definition planned_block (n : Node) (sel : Selection) (s : Z) : result string PreparedBlock :=
  body ← ok_or (nd_plan n !! Z.to_nat (s - 1)) "missing explicit native body"%string;
  as_app (prepare_next (nd_store n) (sel_owner sel) (sel_ticket sel) body).

(** Sign a prepared block, seal it and check it against the protection.  A
    signature loop that has not ended is [None]. *)
Definition sign_seal (env : AdvanceEnv) (n : Node) (a : SigningAuthority) (jc : jconn) (c : conn)
    (pb : PreparedBlock) (s : Z) : Node * option (result string StagedBlock) :=
  let '(a, jc, c, signing) :=
    sign_prepared (av_entropy env) (av_fuel env) (av_sync1 env) (av_sync2 env) a jc (nd_store n) c pb in
  let n := set_nd_signer (set_nd_store n (nd_store n) (Some c)) (Some a) (Some jc) in
  match signing with
  | None => (n, None)
  | Some (Err e) => (n, Some (Err (describe_sign e)))
  | Some (Ok original) =>
      let '(o, sealed) := seal_prepared (nd_store n) pb (og_bytes original) in
      let n := set_nd_store n o (Some c) in
      (n, Some (stage ← as_app sealed; as_sign (check_application a o s stage);; Ok stage))
  end.

(** [advance]: prepare, sign and seal the planned block.  A ready authority
    and owner are connected; without a connection the source panics. *)
Definition stage_new (env : AdvanceEnv) (n : Node) (a : SigningAuthority) (sel : Selection)
    (report : SigningReport) (s : Z) : Node * option (result string StagedBlock) :=
  if bool_decide (sr_pending report <> []) then
    (n, Some (Err "explicit apply_original required; recovery/advance does not retry application"%string))
  else if bool_decide (sr_incomplete report <> []) then
    (set_nd_halted n true, Some (Err "incomplete signing reservation remains fenced"%string))
  else
    match planned_block n sel s, nd_jconn n, nd_conn n with
    | Err x, _, _ => (n, Some (Err x))
    | Ok pb, Some jc, Some c => sign_seal env n a jc c pb s
    | Ok pb, _, _ => (n, Some (Err "Ready/transaction owner connected"%string))
    end.

(** The closure of [advance]. *)
Definition advance_run (env : AdvanceEnv) (n : Node) (s : Z) (explicit_original : bool) :
    Node * option (result string reply) :=
  match (v ← as_app (owner_slot_start (nd_store n));
         sel ← map_err describe_protocol (view_select v);
         a ← ok_or (nd_signer n) "observer cannot produce"%string;
         Ok (sel, a)) with
  | Err x => (n, Some (Err x))
  | Ok (sel, a) =>
      if sa_producer a !=? sel_owner sel then (n, Some (Ok (Reply.NotSelected (sel_owner sel))))
      else
        match as_sign (sa_status a (nd_store n)) with
        | Err x => (n, Some (Err x))
        | Ok report =>
            let '(n, staged) :=
              if explicit_original then
                let '(n, r) := stage_original n a report s in (n, Some r)
              else stage_new env n a sel report s in
            match staged, nd_conn n with
            | None, _ => (n, None)
            | Some (Err x), _ => (n, Some (Err x))
            | Some (Ok stage), Some c =>
                let '(n, r) := commit_publish (av_net env) n c (sel_owner sel) stage in (n, Some r)
            | Some (Ok stage), None => (n, Some (Err "Ready/transaction owner connected"%string))
            end
        end
  end.

Definition node_advance (env : AdvanceEnv) (n : Node) (s : Z) (explicit_original : bool) :
    Node * option (result string reply) :=
  match (node_work n;; sn ← node_ready n; Ok (tip sn)) with
  | Err x => (n, Some (Err x))
  | Ok t =>
      if (s <=? pos_slot t)%Z then
        (n, Some (a ← ok_or (nd_signer n) "observer cannot produce"%string;
                  original ← as_sign (sa_original a (nd_store n) s);
                  Ok (Reply.RetainedCommitted (og_bytes original) (og_id original))))
      else if checked_add U64 (pos_slot t) 1 !=? Some s then
        (n, Some (Err "C1 pacing slot is only an exact-successor guard"%string))
      else
        let '(n, result) := advance_run env n s explicit_original in
        match result with
        | None => (n, None)
        | Some r =>
            let n := if signer_unready n then set_nd_available n false else n in
            (node_log n (mk_timing s (if explicit_original then "apply_original" else "advance") (is_ok r)),
             Some r)
        end
  end.

(** ** Receiving *)

Definition ack (position : Position) (id : bytes) (new : bool) : bytes :=
  be_bytes 8 (pos_slot position) ++ pos_hash position ++ id ++ be_bytes 1 (Z.b2z new).

(** A block of the node's own key that is not canonical yet must be the exact
    original its protection retained. *)
Definition own_original (n : Node) (e : C1Envelope) (bs : bytes) : result string () :=
  match nd_signer n with
  | Some a =>
      if sa_producer a ==? hc_producer (cb_claim (ce_block e)) then
        sn ← node_ready n;
        if contains (known_record (C1Block_hash (ce_block e)) (sn_records sn)) then Ok ()
        else
          original ← as_sign (sa_original a (nd_store n) (slot (hc_header (cb_claim (ce_block e)))));
          fail_if (og_bytes original !=? bs) "own-key incoming original differs from signing protection"%string
      else Ok ()
  | None => Ok ()
  end.

(** The application check of a staged block of the node's own key. *)
Definition own_application (n : Node) (stage : StagedBlock) : result string () :=
  match nd_signer n with
  | Some a =>
      if sa_producer a ==? hc_producer (cb_claim (br_block (sb_record stage))) then
        as_sign (check_application a (nd_store n) (pos_slot (br_position (sb_record stage))) stage)
      else Ok ()
  | None => Ok ()
  end.

(** Staging and committing received bytes; the slot is the timing's. *)
Definition receive_commit (n : Node) (s : Z) (bs : bytes) : Node * Z * result string bytes :=
  let '(o, staged) := stage_received (nd_store n) bs in
  let n := set_nd_store n o (nd_conn n) in
  match staged with
  | Err (AppError.AlreadyCommitted position retained _) => (n, s, Ok (ack position retained false))
  | Err e => (if ow_halted o then set_nd_halted n true else n, s, Err (describe_app e))
  | Ok stage =>
      let s := pos_slot (br_position (sb_record stage)) in
      match own_application n stage, nd_conn n with
      | Err x, _ => (n, s, Err x)
      | Ok _, None => (n, s, Err "Ready/transaction owner connected"%string)
      | Ok _, Some c =>
          let '(o, c, outcome) := commit describe_app o c stage in
          let n := set_nd_store n o (Some c) in
          match outcome with
          | Committed position envelope_id _ => (n, s, Ok (ack position envelope_id true))
          | Aborted e => (n, s, Err (describe_app e))
          | RecoveryRequired e => (set_nd_available n false, s, Err (describe_app e))
          end
      end
  end.

Definition receive (n : Node) (bs : bytes) (action : string) : Node * result string bytes :=
  match node_work n with
  | Err x => (n, Err x)
  | Ok _ =>
      let '(n, s, r) :=
        match as_app (C1Envelope_from_wire_bytes bs) with
        | Err x => (n, 0%Z, Err x)
        | Ok e =>
            let s := slot (hc_header (cb_claim (ce_block e))) in
            match own_original n e bs with
            | Err x => (n, s, Err x)
            | Ok _ => receive_commit n s bs
            end
        end in
      (node_log n (mk_timing s action (is_ok r)), r)
  end.

(** [Node::peer] *)
Definition peer_answer (n : Node) (m : Message) : Node * result string (peer_kind * bytes) :=
  match msg_kind m with
  | PeerKind.Status =>
      (n, s ← node_ready n;
          Ok (PeerKind.Tip, be_bytes 8 (pos_slot (tip s)) ++ pos_hash (tip s) ++ snapshot_digest (nd_g n) s))
  | PeerKind.Get =>
      (n, node_ready n;;
          b ← as_app (export_envelope (nd_store n) (be_val (msg_body m)));
          Ok (PeerKind.Envelope, b))
  | PeerKind.Push =>
      let '(n, r) := receive n (msg_body m) "peer_receive" in (n, b ← r; Ok (PeerKind.Ack, b))
  | _ => (n, Err "unsolicited C1 reply kind"%string)
  end.

Definition rejection (n : Node) : Z :=
  if negb (nd_available n) then 1 else if nd_halted n || ow_halted (nd_store n) then 2 else 3.

Definition node_peer (n : Node) (m : Message) : Node * result string Message :=
  let '(n, answer) := peer_answer n m in
  (n, match answer with
      | Ok (kind, b) => Message_new kind (msg_request m) b
      | Err _ => Message_new PeerKind.Reject (msg_request m) (be_bytes 1 (rejection n))
      end).

(** ** Catching up *)

(** One round of the loop: fetch the next slot's original and receive it. *)
Definition catchup_round (net : Network) (n : Node) (address : SocketAddr) (s : Z) : Node * result string () :=
  let '(n, made) := node_request n PeerKind.Get (be_bytes 8 s) in
  match (request ← made;
         response ← node_exchange net n address request;
         fail_if (msg_kind response !=? PeerKind.Envelope) "source did not return an original envelope"%string;;
         e ← as_app (C1Envelope_from_wire_bytes (msg_body response));
         fail_if (slot (hc_header (cb_claim (ce_block e))) !=? s) "retrieval returned another slot"%string;;
         Ok (msg_body response)) with
  | Err x => (n, Err x)
  | Ok bs => let '(n, r) := receive n bs "catchup_receive" in (n, r;; Ok ())
  end.

(** [while self.ready()?.tip().slot < target_slot]; [None] is out of fuel. *)
Fixpoint catchup_loop (fuel : nat) (net : Network) (n : Node) (address : SocketAddr) (target : Z) :
    Node * option (result string ()) :=
  match node_ready n with
  | Err x => (n, Some (Err x))
  | Ok sn =>
      if (pos_slot (tip sn) <? target)%Z then
        match fuel with
        | O => (n, None)
        | S fuel =>
            let '(n, r) := catchup_round net n address (pos_slot (tip sn) + 1) in
            match r with
            | Err x => (n, Some (Err x))
            | Ok _ => catchup_loop fuel net n address target
            end
        end
      else (n, Some (Ok ()))
  end.

(** The checks before the first request. *)
Definition catchup_start (n : Node) (source : bytes) (target_slot : Z) (target_hash : bytes) :
    result string (bytes * SocketAddr) :=
  node_work n;;
  fail_if (MAX_SLOTS <? target_slot)%Z "C1 catch-up domain"%string;;
  target ← encoded target_hash 32;
  fail_if (negb (length target =? 32)%nat) "target H width"%string;;
  p ← ok_or (head (filter (fun p => pc_id p = source) (nd_peers n))) "unconfigured retained source"%string;
  Ok (target, pc_address p).

Definition short_of (r : Message) (target_slot : Z) : bool :=
  (msg_kind r !=? PeerKind.Tip) || (be_val (slice 8 0 (msg_body r)) <? target_slot)%Z.

Definition catchup (net : Network) (n : Node) (source : bytes) (target_slot : Z) (target_hash : bytes) :
    Node * option (result string reply) :=
  match catchup_start n source target_slot target_hash with
  | Err x => (n, Some (Err x))
  | Ok (target, address) =>
      let '(n, made) := node_request n PeerKind.Status [] in
      match (status ← made;
             response ← node_exchange net n address status;
             fail_if (short_of response target_slot)
               "source unavailable/short of explicitly pinned target"%string) with
      | Err x => (n, Some (Err x))
      | Ok _ =>
          let '(n, looped) := catchup_loop (Z.to_nat target_slot) net n address target_slot in
          (n, match looped with
              | None => None
              | Some r =>
                  Some (r;;
                        sn ← node_ready n;
                        fail_if ((pos_slot (tip sn) !=? target_slot)%Z || (pos_hash (tip sn) !=? target))
                          "exact catch-up target differs; no rollback or newest-peer inference"%string;;
                        Ok (Reply.CaughtUp target_slot target))
              end)
      end
  end.

(** ** Recovery *)

(** What reopening the two files returns. *)
Record RecoverEnv : Type := mk_recover_env {
  rv_generation : result app_error Z;
  rv_opened : result app_error conn;
  rv_sync : result string ();
  rv_jopened : result sign_error jconn;
  rv_jsync : result string ()
}.

(** [self.signer.as_mut().map(|a| a.recover(&self.store)).transpose()] *)
Definition recover_signer (env : RecoverEnv) (n : Node) : Node * result string (option SigningReport) :=
  match nd_signer n with
  | None => (n, Ok None)
  | Some a =>
      let '(a, jc, r) := sa_recover a (nd_store n) (rv_jopened env) (rv_jsync env) in
      (set_nd_signer n (Some a) jc, Some <$> as_sign r)
  end.

Definition incomplete_report (report : option SigningReport) : bool :=
  if report is Some r then bool_decide (sr_incomplete r <> []) else false.

Definition node_recover (env : RecoverEnv) (n : Node) : Node * result string reply :=
  let n := set_nd_available n false in
  let '(o, c, recovered) :=
    recover describe_app (nd_store n) (nd_conn n) (rv_generation env) (rv_opened env) (rv_sync env) in
  let n := set_nd_store n o c in
  match recovered with
  | Err e => (n, Err (describe_app e))
  | Ok _ =>
      let '(n, reported) := recover_signer env n in
      match reported with
      | Err x => (n, Err x)
      | Ok report =>
          let n := set_nd_halted (set_nd_available n true)
                     (ow_halted (nd_store n) || incomplete_report report) in
          match node_ready n with
          | Err x => (n, Err x)
          | Ok sn =>
              (node_log n (mk_timing (pos_slot (tip sn)) "recovery" true),
               Ok (Reply.Reconciled (sr_pending <$> report) (sr_incomplete <$> report) (nd_halted n)))
          end
      end
  end.

(** ** The operator's commands *)

Definition record_row (r : BlockRecord) : InspectRow :=
  RecordRow (pos_slot (br_position r)) (pos_hash (br_position r)) (cs_id (br_state r))
    (C1Envelope_wire_bytes (ae_envelope (br_proof r))) (C1Envelope_id (ae_envelope (br_proof r)))
    (outcome_gas_used (br_outcome r)) (outcome_fees_burned (br_outcome r)) (transaction_ids (br_outcome r)).
Definition membership_row (p : bytes * Membership) : InspectRow :=
  TransactionRow p.1 (pos_slot (mb_position p.2)) (pos_hash (mb_position p.2)) (mb_index p.2).
Definition nonce_row (p : bytes * Z * Membership) : InspectRow :=
  NonceRow p.1.1 p.1.2 (pos_slot (mb_position p.2)) (pos_hash (mb_position p.2)) (mb_index p.2).

Definition inspect (n : Node) (section : Section_) (offset limit : Z) : result string reply :=
  fail_if ((limit =? 0) || (16 <? limit) ||
           (if section is Records then negb (limit =? 1) else false))%Z "C1 inspection page bound"%string;;
  s ← node_ready n;
  Ok (match section with
      | Records => Reply.Rows (length (sn_records s)) (map record_row (page offset limit (sn_records s)))
      | Transactions =>
          Reply.Rows (size (sn_transactions s)) (map membership_row (page offset limit (ordered_transactions s)))
      | SenderNonces =>
          Reply.Rows (size (sn_sender_nonces s)) (map nonce_row (page offset limit (ordered_nonces s)))
      end).

(** [&bytes[start..end]] with both ends cut to the length. *)
Definition state_page (n : Node) (offset len : Z) : result string reply :=
  fail_if ((len =? 0) || (1024 <? len))%Z "C1 state page bound"%string;;
  s ← node_ready n;
  let bs := cs_bytes (sn_state s) in
  let start := Nat.min (Z.to_nat offset) (length bs) in
  let stop := Nat.min (start + Z.to_nat len) (length bs) in
  Ok (Reply.StatePage (length bs) offset (take (stop - start) (drop start bs))).

(** [Node::handle]; [None] is a signature or catch-up loop still running. *)
Definition handle (env : AdvanceEnv) (renv : RecoverEnv) (n : Node) (c : command) :
    Node * option (result string reply) :=
  match c with
  | Command.Status => (n, Some (Reply.Status <$> node_status n))
  | Command.Advance s => node_advance env n s false
  | Command.ApplyOriginal s => node_advance env n s true
  | Command.Publish s =>
      let '(n, r) := publish (av_net env) n s in
      (node_log n (mk_timing s "explicit_publish" (is_ok r)), Some (Reply.Delivered <$> r))
  | Command.Catchup source target_slot target_hash =>
      let '(n, r) := catchup (av_net env) n source target_slot target_hash in
      (if r is Some (Err _) then set_nd_halted n true else n, r)
  | Command.Recover => let '(n, r) := node_recover renv n in (n, Some r)
  | Command.Export s =>
      (n, Some (node_ready n;; b ← as_app (export_envelope (nd_store n) s); Ok (Reply.Envelope b)))
  | Command.State offset len => (n, Some (state_page n offset len))
  | Command.Inspect section offset limit => (n, Some (inspect n section offset limit))
  | Command.Timings offset limit =>
      (n, Some (fail_if ((limit =? 0) || (16 <? limit))%Z "C1 timing page bound"%string;;
                Ok (Reply.TimingRows (length (nd_timings n)) (page offset limit (nd_timings n)))))
  | Command.Stop => (n, Some (Ok Reply.Stopped))
  end.

(** ** Starting *)

(** What the operating system returns while a node starts: the genesis file,
    the process lock, the canonical file, the key file, the protection store,
    the body plan and the listening socket. *)
Record LoadEnv : Type := mk_load_env {
  ld_genesis : result string FileRead;
  ld_fence : result string ();
  ld_reserved : result app_error ();
  ld_opened : result app_error conn;
  ld_sync : result string ();
  ld_generation : result app_error Z;
  ld_key_meta : result string (bool * Z);
  ld_key : result string FileRead;
  ld_files : SigningFiles;
  ld_plan : result string FileRead;
  ld_listen : result string SocketAddr
}.

(** [is_ascii_alphanumeric() || b == b'-'] *)
Definition id_byte (b : byte) : bool :=
  byte_in 48 57 b || byte_in 65 90 b || byte_in 97 122 b || byte_in 45 45 b.

(** The loop over the peers with the two sets of the source. *)
Fixpoint peers_fixed (id : bytes) (ids : list bytes) (addresses : list SocketAddr) (ps : list PeerConfig) : bool :=
  match ps with
  | [] => true
  | p :: rest =>
      (pc_id p !=? id) && negb (bool_decide (pc_id p ∈ ids)) &&
      negb (bool_decide (pc_address p ∈ addresses)) && is_loopback (pc_address p) &&
      peers_fixed id (pc_id p :: ids) (pc_address p :: addresses) rest
  end.

Definition config_checks (c : Config) : result string () :=
  fail_if (bool_decide (cf_id c = []) || (16 <? length (cf_id c))%nat || negb (forallb id_byte (cf_id c)) ||
           negb (is_loopback (cf_listen c)) || (2 <? length (cf_peers c))%nat)
    "C1 process identity/loopback/peer bound"%string;;
  fail_if (negb (peers_fixed (cf_id c) [] [] (cf_peers c))) "C1 fixed peer configuration"%string.

Definition open_store (env : LoadEnv) (g : Genesis) (m : Mode) : option conn * result app_error Owner :=
  match m with
  | Create => create_inner describe_app g (ld_reserved env) (ld_opened env) (ld_sync env) (ld_generation env)
  | Reopen => load describe_app g (ld_opened env) (ld_sync env) (ld_generation env)
  end.

(** The signer's connection is open even when opening it failed late. *)
Definition open_signer (env : LoadEnv) (g : Genesis) (o : Owner) (p : option ProducerConfig) :
    option jconn * result string (option SigningAuthority) :=
  match p with
  | None => (None, Ok None)
  | Some p =>
      match key_file (ld_key_meta env) (ld_key env) with
      | Err x => (None, Err x)
      | Ok key =>
          let '(jc, r) :=
            open_inner (ld_files env) g (pd_id p) key o (if pd_mode p is Create then true else false) in
          (jc, Some <$> as_sign r)
      end
  end.

Fixpoint decode_body (b : list bytes) : result string (list bytes) :=
  match b with
  | [] => Ok []
  | s :: rest =>
      bs ← encoded s 199;
      fail_if (negb (length bs =? 199)%nat) "C1 opaque native entry width"%string;;
      rest ← decode_body rest; Ok (bs :: rest)
  end.

Fixpoint decode_bodies (raw : list (list bytes)) : result string (list (list bytes)) :=
  match raw with
  | [] => Ok []
  | b :: rest => b ← decode_body b; rest ← decode_bodies rest; Ok (b :: rest)
  end.

Definition load_plan (env : LoadEnv) (given : bool) (signer : option SigningAuthority) :
    result string (list (list bytes)) :=
  if given then
    bs ← bounded_file (ld_plan env) 2000000;
    raw ← ok_or (parse_plan bs) "C1 body plan syntax"%string;
    fail_if (negb (Z.of_nat (length raw) =? MAX_SLOTS) ||
             existsb (fun b => (MAX_ENTRIES <? Z.of_nat (length b))) raw)%Z
      "C1 body plan requires explicit 200 bounded bodies"%string;;
    decode_bodies raw
  else if contains signer then Err "producer requires explicit native body plan"%string
  else Ok [].

(** What is checked once both stores are open. *)
Definition load_rest (env : LoadEnv) (c : Config) (o : Owner) (signer : option SigningAuthority) :
    result string (list (list bytes) * SocketAddr * Snapshot) :=
  plan ← load_plan env (cf_plan c) signer;
  fail_if (contains signer && bool_decide (cf_peers c = []))
    "producer requires explicit publication recipients"%string;;
  address ← ld_listen env;
  s ← as_app (owner_snapshot o);
  Ok (plan, address, s).

Definition startup_halted (o : Owner) (signer : option SigningAuthority) : bool :=
  if signer is Some a then
    if sa_status a o is Ok r then bool_decide (sr_incomplete r <> []) else true
  else false.

(** [Node::load]: the connections that were opened, and the node. *)
Definition node_load (env : LoadEnv) (c : Config) :
    option conn * option jconn * result string (Node * SocketAddr) :=
  match (config_checks c;;
         bs ← bounded_file (ld_genesis env) MAX_GENESIS_BYTES;
         g ← map_err describe_protocol (Genesis_from_bytes bs);
         ld_fence env;;
         Ok g) with
  | Err x => (None, None, Err x)
  | Ok g =>
      let '(oc, opened) := open_store env g (cf_mode c) in
      match as_app opened with
      | Err x => (oc, None, Err x)
      | Ok o =>
          let '(jc, opened) := open_signer env g o (cf_producer c) in
          (oc, jc,
           signer ← opened;
           '(plan, address, s) ← load_rest env c o signer;
           let t := mk_timing (pos_slot (tip s))
                      (if cf_mode c is Create then "startup_create" else "startup_reopen") true in
           Ok (mk_node (cf_id c) g o oc signer jc plan (cf_peers c) 0 (startup_halted o signer) true [t],
               address))
      end
  end.
End Nodes.
