(* ===== verification/PoashProcess.v ===== *)
(** * The invariant of a process

    A running process holds an owner, a signing authority and their
    connections; [process_ok] relates them to the durable contents of the
    protection store and to the blocks the key was used for.  Every handler of
    [PoashNode] keeps it, with any I/O results: history only grows, own-key
    blocks are retained, acknowledgements are true, catching up ends.
    PoashWorld states what follows for machines. *)

From S2P Require Import Prelude Codec Crypto BlockCommitment NativeTransaction.
From S2P Require Import NativeTransfer NativeBlock BlockAuthentication LeaderSelection.
From S2P Require Import PoashBase PoashState PoashSelection PoashGenesis PoashClaim.
From S2P Require Import PoashHistory PoashAdmission PoashApplication PoashCompound PoashChain.
From S2P Require Import PoashPeer PoashSnapshot PoashOwner PoashReplay PoashSql PoashCommit.
From S2P Require Import PoashJournal PoashSigning PoashNode.

(** ** The invariant of a process *)

Section Process.
  Context {JN : Journal} {JL : JournalLaws JN} {SQ : Sqlite} {SL : SqliteLaws SQ}.
  Context {KE : Keccak} {KC : K256} {KL : K256Laws KC} {DS : Describe} {HX : Hex}.
  Context {JS : Json} {KS : KeySlice}.
  Context (run_id : bytes) (Hdist : distinct_producers) (producer : bytes) (v : ValidatorConfig).
  Context (Hcfg : signing_config producer v).

Let g := genesis_of run_id.

Definition node_records (n : Node) : list BlockRecord := sn_records (ow_snapshot (nd_store n)).

(** Every canonical block of the authority's producer is retained with
    exactly the canonical bytes. *)
Definition covered (a : SigningAuthority) (rs : list BlockRecord) : Prop :=
  forall k r, rs !! k = Some r -> hc_producer (cb_claim (br_block r)) = sa_producer a ->
  exists i, intent_get (Z.of_nat k + 1) (sa_intents a) = Some i /\
    in_original i = Some (C1Envelope_wire_bytes (ae_envelope (br_proof r))).

Record process_ok (n : Node) (disk : option JournalContents) (log : list C1Block) : Prop := {
  po_genesis : nd_g n = g;
  po_request : (0 <= nd_request n)%Z;
  po_owner : node_ok run_id (nd_store n) (nd_conn n);
  po_base : forall a, ow_attempt (nd_store n) = Some a ->
    bs_snapshot (at_base a) = ow_snapshot (nd_store n);
  po_signer : signer_ok run_id producer v (mk_signer (nd_signer n) (nd_jconn n) disk log);
  po_disk : forall c, nd_jconn n = Some c -> disk = Some (jcommitted c);
  po_covered : nd_available n = true -> forall a, nd_signer n = Some a -> sa_poisoned a = false ->
    covered a (node_records n)
}.

(** Nothing durable changed; an unavailable process stays so. *)
Record quiet (n n' : Node) : Prop := {
  qu_fixed : nd_id n' = nd_id n /\ nd_g n' = nd_g n /\ nd_plan n' = nd_plan n /\ nd_peers n' = nd_peers n;
  qu_store : nd_store n' = nd_store n /\ nd_conn n' = nd_conn n;
  qu_signer : nd_signer n' = nd_signer n /\ nd_jconn n' = nd_jconn n;
  qu_request : (nd_request n <= nd_request n')%Z;
  qu_available : nd_available n' = true -> nd_available n = true
}.

#[local] Instance quiet_refl : Reflexive quiet.
Proof. intros n. by constructor; try reflexivity. Qed.
#[local] Instance quiet_trans : Transitive quiet.
Proof.
  intros x y z [(? & ? & ? & ?) [? ?] [? ?] ? ?] [(? & ? & ? & ?) [? ?] [? ?] ? ?].
  constructor; split_and?; try congruence; [lia|auto].
Qed.

Lemma quiet_ok n n' disk log : quiet n n' -> process_ok n disk log -> process_ok n' disk log.
Proof.
  intros [(_ & Eg & _) [Es Ec] [Ea Ej] Hr Hav] [H1 H0 H2 H3 H4 H6 H5]. unfold covered, node_records in *.
  constructor; unfold covered, node_records; rewrite ?Eg, ?Es, ?Ec, ?Ea, ?Ej; auto. lia.
Qed.

Lemma quiet_log n t : quiet n (node_log n t).
Proof. by constructor; try reflexivity. Qed.
Lemma quiet_halted n b : quiet n (set_nd_halted n b).
Proof. by constructor; try reflexivity. Qed.
Lemma quiet_unavailable n : quiet n (set_nd_available n false).
Proof. by constructor; try reflexivity. Qed.

Lemma request_quiet n kind body : quiet n (node_request n kind body).1.
Proof.
  unfold node_request. destruct (checked_add _ _ _) as [q|] eqn:E; [|done].
  apply checked_add_Some in E as [_ ->]. constructor; cbn; (done || lia).
Qed.

Lemma push_all_quiet net s bs e ps n k err : quiet n (push_all net n s bs e ps k err).1.
Proof.
  revert n k err. induction ps as [|p ps IH]; intros n k err; [done|]. cbn [push_all].
  pose proof (request_quiet n PeerKind.Push bs) as Hq.
  destruct (node_request n PeerKind.Push bs) as [n1 [m|x]]; [|done]. cbn [fst] in Hq. cbv zeta.
  destruct (if node_exchange net n1 (pc_address p) m is Ok r then confirms s e r else false); (etrans; [exact Hq|apply IH]).
Qed.

Lemma publish_quiet net n s : quiet n (publish net n s).1.
Proof.
  unfold publish. destruct (canonical_original n s) as [[bs e]|]; [|done].
  pose proof (push_all_quiet net s bs e (nd_peers n) n 0 None) as Hq.
  destruct (push_all _ _ _ _ _ _ _ _) as [n1 [[k [x|]]|x]]; [|done..]. by destruct Hq.
Qed.

Lemma node_ready_ok n sn :
  node_ready n = Ok sn -> nd_available n = true /\ signer_unready n = false /\
  ow_poisoned (nd_store n) = false /\ sn = ow_snapshot (nd_store n).
Proof.
  unfold node_ready, as_app, owner_snapshot, ready. intros ([] & H1 & H2)%bind_Ok.
  apply map_err_Ok in H2. inv_ok. subst. destruct (nd_available n), (signer_unready n); try done.
Qed.

(** A node that may work holds a live owner and a ready authority. *)
Lemma working n disk log :
  process_ok n disk log -> node_work n = Ok () ->
  live_owner run_id (nd_store n) /\ nd_available n = true /\ signer_unready n = false.
Proof.
  intros P. unfold node_work. intros (sn & (? & ? & ? & ->)%node_ready_ok & H2)%bind_Ok.
  inv_ok. split_and!; [|done..]. by constructor; try apply P.
Qed.

(** The connection of a live owner. *)
Lemma connected n disk log :
  process_ok n disk log -> ow_poisoned (nd_store n) = false ->
  ow_attempt (nd_store n) = None /\ exists c, nd_conn n = Some c.
Proof. intros P Hp. exact (no_ready _ _ _ (po_owner _ _ _ P) Hp). Qed.

(** ** Committing *)

(** What a commit does to the canonical history. *)
Lemma commit_grows o c stage o' c' out :
  node_ok run_id o (Some c) -> issued run_id stage -> ow_poisoned o = false ->
  commit describe_app o c stage = (o', c', out) ->
  node_ok run_id o' (Some c') /\
  (forall a, ow_attempt o' = Some a -> bs_snapshot (at_base a) = ow_snapshot o') /\
  match out with
  | Committed position id _ =>
      sn_records (ow_snapshot o') = sn_records (ow_snapshot o) ++ [sb_record stage] /\
      position = tip (ow_snapshot o') /\ position = br_position (sb_record stage) /\
      id = C1Envelope_id (ae_envelope (br_proof (sb_record stage))) /\
      stored g (ow_snapshot o') (committed c') /\ ow_poisoned o' = false /\ ow_halted o' = ow_halted o
  | _ => ow_snapshot o' = ow_snapshot o
  end.
Proof.
  intros N Hiss Hp H. pose proof (commit_node_ok describe_app run_id Hdist _ _ _ _ _ _ N Hiss H) as N'.
  split; [done|]. destruct (issued_appends run_id Hdist stage Hiss) as [_ Happ].
  destruct (no_ready _ _ _ N Hp) as (Hat & _).
  destruct (check_base o (sb_base stage)) as [[]|e] eqn:Hb.
  2:{ unfold commit in H. rewrite Hb in H. injection H as <- <- <-. by rewrite Hat. }
  pose proof (check_base_ok _ _ Hb) as (_ & Hh & Hbase).
  destruct (Snapshot_insert (ow_snapshot o) (sb_record stage)) as [next|e] eqn:Hn.
  2:{ unfold commit in H. cbv zeta in H. rewrite Hb, bind_of_Ok, Hn in H. injection H as <- <- <-.
      by rewrite Hat. }
  rewrite Hbase in Happ.
  assert (committable run_id o stage next) as C by (constructor; try done; by destruct N).
  pose proof H as Hid. unfold commit in Hid. cbv zeta in Hid. rewrite Hb, bind_of_Ok, Hn in Hid.
  destruct (commit_spec describe_app run_id Hdist _ _ _ _ _ _ _ C H)
    as [[_ Hout]|(-> & _ & Ht & e & -> & _)]; [|by rewrite Hat].
  destruct (insert_shape _ _ _ Hn) as (Est & Er & _). destruct out; cbn [outcome_spec] in Hout.
  - destruct Hout as (-> & _ & Hst & Ht & ->). cbn [set_snapshot ow_attempt ow_snapshot ow_poisoned ow_halted].
    split; [by rewrite Hat|]. split_and!; try done.
    + unfold tip, br_position. by rewrite Est.
    + destruct (sq_begin c) as [c0 [[]|]]; [|done].
      destruct (commit_writes _ _ _ _ c0) as [c2 [[]|e]].
      2:{ repeat case_match; simplify_eq. all: unfold poison, abort in *; repeat case_match; simplify_eq. }
      destruct (sq_commit c2) as [c3 [[]|]]; [|done]. by injection Hid.
  - destruct Hout as (_ & Ht & [-> |[_ ->]]); (split; [|done]); cbn [set_poisoned ow_attempt]; by rewrite Hat.
  - destruct Hout as (_ & ->). split; [|done]. by intros a [= <-].
Qed.

(** ** Staging *)

(** No error but admission's own says "already committed". *)
Definition not_known {A} (r : result app_error A) : Prop :=
  forall p i j, r <> Err (AppError.AlreadyCommitted p i j).

Lemma not_known_bind {A B} (m : result app_error A) (f : A -> result app_error B) :
  not_known m -> (forall a, not_known (f a)) -> not_known (m ≫= f).
Proof.
  intros Hm Hf p i j. destruct m as [a|e]; [apply Hf|]. intros E. apply (Hm p i j). by injection E as ->.
Qed.
Lemma not_known_Ok {A} (a : A) : not_known (Ok a).
Proof. by intros p i j. Qed.
Lemma not_known_fail b e : not_known (Err (A := ()) e) -> not_known (fail_if b e).
Proof. intros H. by destruct b. Qed.
Lemma not_known_ok_or {A} (o : option A) e : not_known (Err (A := A) e) -> not_known (ok_or o e).
Proof. intros H. by destruct o. Qed.
Lemma not_known_protocol {A} (r : result poash_error A) : not_known (protocol r).
Proof. destruct r; by intros p i j. Qed.
Lemma not_known_body {A} (r : result BodyError A) : not_known (map_err AppError.Body r).
Proof. destruct r; by intros p i j. Qed.
Lemma not_known_fmap {A B} (f : A -> B) (r : result app_error A) : not_known r -> not_known (f <$> r).
Proof. intros H p i j. destruct r as [a|e]; [done|]. intros E. apply (H p i j). by injection E as ->. Qed.

#[local] Hint Resolve @not_known_bind @not_known_Ok not_known_fail @not_known_ok_or @not_known_protocol
  @not_known_body @not_known_fmap : not_known.
#[local] Hint Extern 1 (not_known (Err _)) => intros ? ? ? ?; discriminate : not_known.
#[local] Hint Extern 1 (not_known (let '(_, _) := ?x in _)) => destruct x : not_known.

Lemma not_known_slot_view s h : not_known (slot_view s h).
Proof.
  unfold slot_view, Snapshot_prefix. repeat first [apply not_known_bind; [|intros ?]|apply not_known_protocol].
  induction (sn_records s) as [|r rs IH]; cbn [record_headers]; auto with not_known.
Qed.

Lemma not_known_stage view body : not_known (stage_native view body).
Proof. unfold stage_native, supported. auto 6 with not_known. Qed.

Lemma not_known_check s b o : not_known (check_transactions s b o).
Proof.
  unfold check_transactions. generalize (∅ : gset bytes) (∅ : gset (bytes * Z)) (body_pairs b o) 0%nat.
  intros ids ns rows. revert ids ns.
  induction rows as [|[x y] rows IH]; intros ids ns i; cbn [check_rows]; cbv zeta; auto with not_known.
Qed.

Lemma not_known_credit reward who vs : not_known (credit_producer reward who vs).
Proof.
  induction vs as [|w vs IH]; cbn [credit_producer]; [auto with not_known|].
  destruct (v_id w ==? who); auto 8 with not_known.
Qed.

Lemma not_known_compound view block native outcome : not_known (compound view block native outcome).
Proof.
  unfold compound, supported, C1Block_match_outcome. cbv zeta.
  repeat first [apply not_known_bind; [|intros ?]|apply not_known_credit|apply not_known_protocol];
    auto 6 with not_known.
Qed.

Lemma not_known_historical o s : not_known (historical_view o s).
Proof.
  unfold historical_view. apply not_known_bind; [|intros ?; apply not_known_slot_view].
  generalize (Snapshot_initial (ow_genesis o)). induction (take _ _) as [|r rs IH]; intros sn; cbn [insert_all];
    [auto with not_known|]. apply not_known_bind; [|done]. unfold Snapshot_insert. cbv zeta.
  apply not_known_bind; [auto with not_known|]. intros ?. apply not_known_bind; [auto with not_known|]. intros _.
  apply not_known_bind; [|intros []; auto with not_known].
  generalize (sn_transactions sn) (sn_sender_nonces sn) (body_pairs (br_block r) (br_outcome r)) 0%nat.
  intros txs ns rows. revert txs ns. induction rows as [|[b id] rows IH2]; intros txs ns i; cbn [index_rows];
    cbv zeta; auto with not_known.
Qed.

(** A duplicate is answered from the retained record of the same block. *)
Lemma stage_duplicate o bs o' p id id' e :
  live_owner run_id o -> C1Envelope_from_wire_bytes bs = Ok e ->
  stage_received o bs = (o', Err (AppError.AlreadyCommitted p id id')) ->
  o' = o /\ exists r, r ∈ sn_records (ow_snapshot o) /\ p = br_position r /\
    id = C1Envelope_id (ae_envelope (br_proof r)) /\ br_block r = ce_block e.
Proof.
  intros Ho He. unfold stage_received, open_envelope. rewrite (live_work_ready _ o Ho), bind_of_Ok, He, bind_of_Ok.
  unfold C1Envelope_authenticate. destruct (HeaderClaim_authenticate _ _ _ _) as [h|x]; [|done].
  unfold protocol at 1. cbn [map_err]. rewrite bind_of_Ok. unfold owner_admit. rewrite (live_work_ready _ o Ho).
  cbn [ae_envelope ae_header]. cbv zeta.
  destruct (known_record (C1Block_hash (ce_block e)) (sn_records (ow_snapshot o))) as [old|] eqn:Hk.
  { apply known_record_Some in Hk as [Hin _]. case_bool_decide as Hb; [done|]. intros [= <- <- <- <-].
    split; [done|]. exists old. by split_and!. }
  assert (forall (x : Owner) (r : result app_error ()) (y : Owner -> result app_error StagedBlock),
    (x, r;; y x) = (o', Err (AppError.AlreadyCommitted p id id')) ->
    not_known r -> (forall z, not_known (y z)) -> False) as Hno.
  { intros x r y E Hr Hy. injection E as _ E. by apply (not_known_bind r (fun _ => y x) Hr (fun _ => Hy x)) in E. }
  assert (forall z : Owner, not_known (
    view ← owner_slot_start z;
    '(native, applied) ← stage_native view (cb_transactions (ce_block e));
    check_transactions (ow_snapshot z) (ce_block e) (applied_outcome applied);;
    state ← compound view (ce_block e) native (applied_outcome applied);
    Ok (mk_staged (owner_base z) (mk_record (mk_auth_envelope e h) (applied_outcome applied) state)))) as Hrest.
  { intros z. apply not_known_bind.
    { unfold owner_slot_start, work_ready, ready. apply not_known_bind; [auto with not_known|].
      intros ?. apply not_known_slot_view. }
    intros view. apply not_known_bind; [apply not_known_stage|]. intros [native applied].
    apply not_known_bind; [apply not_known_check|]. intros _.
    apply not_known_bind; [apply not_known_compound|auto with not_known]. }
  destruct (_ <=? _)%Z.
  - pose proof (not_known_bind _ (fun view => protocol (plan view h))
      (not_known_historical o (slot (hc_header (cb_claim (ce_block e))))) (fun _ => not_known_protocol _)) as Hh.
    destruct (historical_view o _ ≫= _) as [x|x]; intros E; exfalso.
    + eapply (Hno _ _ _ E); [|exact Hrest]. auto with not_known.
    + eapply (Hno _ _ _ E); [|exact Hrest]. intros p1 i1 j1 [= ->]. by apply (Hh p1 i1 j1).
  - intros E. exfalso. eapply (Hno _ _ _ E); [|exact Hrest].
    apply not_known_bind; [|intros ?; auto with not_known].
    unfold owner_slot_start, work_ready, ready. apply not_known_bind; [auto with not_known|].
    intros ?. apply not_known_slot_view.
Qed.

(** An owner that only may have been halted. *)
Record staged_owner (o o' : Owner) : Prop := {
  sw_genesis : ow_genesis o' = ow_genesis o;
  sw_snapshot : ow_snapshot o' = ow_snapshot o;
  sw_generation : ow_generation o' = ow_generation o;
  sw_poisoned : ow_poisoned o' = ow_poisoned o;
  sw_attempt : ow_attempt o' = ow_attempt o
}.

Lemma admit_staged o proof : staged_owner o (owner_admit o proof).1.
Proof. destruct (admit_keeps o proof) as (? & ? & ? & ? & ? & _). by constructor. Qed.

Lemma stage_received_staged o bs o' r : stage_received o bs = (o', r) -> staged_owner o o'.
Proof.
  unfold stage_received. destruct (_ ≫= _) as [proof|]; [|by intros [= <- _]].
  pose proof (admit_staged o proof) as H. destruct (owner_admit o proof). by intros [= <- _].
Qed.

Lemma seal_prepared_staged o pb bs o' r : seal_prepared o pb bs = (o', r) -> staged_owner o o'.
Proof.
  unfold seal_prepared. destruct (_ ≫= _) as [proof|]; [|by intros [= <- _]].
  pose proof (admit_staged o proof) as H. destruct (owner_admit o proof). by intros [= <- _].
Qed.

Lemma staged_ok n o' disk log :
  staged_owner (nd_store n) o' -> process_ok n disk log -> process_ok (set_nd_store n o' (nd_conn n)) disk log.
Proof.
  intros [E1 E2 _ E3 E4] [H1 H0 [N1 N2 N3 N4] H3 H4 H6 H5].
  constructor; cbn [set_nd_store nd_g nd_store nd_conn nd_signer nd_jconn nd_available]; [done|done| | |done|done|].
  - constructor; by rewrite ?E1, ?E2, ?E3, ?E4.
  - by rewrite E4, E2.
  - unfold node_records in *. cbn [set_nd_store nd_store]. by rewrite E2.
Qed.

(** ** Retaining the own key's history *)

(** The protection holds exactly these bytes for a slot. *)
Definition retains (a : SigningAuthority) (s : Z) (r : BlockRecord) : Prop :=
  exists i, intent_get s (sa_intents a) = Some i /\
    in_original i = Some (C1Envelope_wire_bytes (ae_envelope (br_proof r))).

Lemma check_application_ok a o s stage :
  check_application a o s stage = Ok () -> retains a s (sb_record stage).
Proof.
  unfold check_application. intros ([] & _ & H)%bind_Ok. apply bind_Ok in H as (rep & _ & H).
  apply bind_Ok in H as (i & Hi & H). apply bind_Ok in H as ([b cand] & _ & H). inv_ok.
  exists i. by split.
Qed.

Lemma covered_snoc a rs r :
  covered a rs -> (hc_producer (cb_claim (br_block r)) = sa_producer a ->
    retains a (Z.of_nat (length rs) + 1) r) -> covered a (rs ++ [r]).
Proof.
  intros Hc Hr k x Hk Hx. apply lookup_app_Some in Hk as [Hk|[Hge Hk]]; [by apply (Hc k x)|].
  apply list_lookup_singleton_Some in Hk as [Hz <-]. replace k with (length rs) by lia. by apply Hr.
Qed.

(** Committing a block the protection covers keeps the invariant. *)
Lemma commit_process n disk log c stage o' c' out :
  process_ok n disk log -> nd_conn n = Some c -> ow_poisoned (nd_store n) = false -> issued run_id stage ->
  (forall a, nd_signer n = Some a -> hc_producer (cb_claim (br_block (sb_record stage))) = sa_producer a ->
     pos_slot (br_position (sb_record stage)) = (Z.of_nat (length (node_records n)) + 1)%Z ->
     retains a (Z.of_nat (length (node_records n)) + 1) (sb_record stage)) ->
  commit describe_app (nd_store n) c stage = (o', c', out) ->
  process_ok (set_nd_store n o' (Some c')) disk log /\
  match out with
  | Committed position id _ =>
      sn_records (ow_snapshot o') = node_records n ++ [sb_record stage] /\
      position = tip (ow_snapshot o') /\ position = br_position (sb_record stage) /\
      id = C1Envelope_id (ae_envelope (br_proof (sb_record stage))) /\
      stored g (ow_snapshot o') (committed c') /\ ow_poisoned o' = false /\ ow_halted o' = ow_halted (nd_store n)
  | _ => ow_snapshot o' = ow_snapshot (nd_store n)
  end.
Proof.
  intros P Hc Hp Hiss Hown H. pose proof (po_owner _ _ _ P) as N. rewrite Hc in N.
  destruct (commit_grows _ _ _ _ _ _ N Hiss Hp H) as (N' & Hb & Hout). split; [|done].
  constructor; cbn [set_nd_store nd_g nd_store nd_conn nd_signer nd_jconn nd_available]; try apply P; [done..|].
  intros Hav a Ha Hpo. pose proof (po_covered _ _ _ P Hav a Ha Hpo) as Hcov.
  unfold node_records in *. cbn [set_nd_store nd_store].
  destruct out; [|by rewrite Hout..]. destruct Hout as (Er & Etip & Epos & _). rewrite Er.
  apply covered_snoc; [done|]. intros Hpr. destruct (audited_slots run_id _ (no_audited _ _ _ N')) as [Ht _].
  rewrite <- Etip, Epos, Er, length_app in Ht. simpl in Ht.
  apply Hown; [done..|lia].
Qed.

(** ** Receiving *)

(** What a successful receipt acknowledges. *)
Record acknowledged (n n' : Node) (bs b : bytes) (r : BlockRecord) (new : bool) : Prop := {
  ac_bytes : b = ack (br_position r) (C1Envelope_id (ae_envelope (br_proof r))) new;
  ac_record : r ∈ node_records n';
  ac_block : (ce_block <$> C1Envelope_from_wire_bytes bs) = Ok (br_block r);
  ac_history : node_records n' = if new then node_records n ++ [r] else node_records n;
  ac_tip : new = true -> tip (ow_snapshot (nd_store n')) = br_position r;
  ac_original : new = true -> C1Envelope_wire_bytes (ae_envelope (br_proof r)) = bs;
  ac_durable : new = true -> exists c, nd_conn n' = Some c /\ stored g (ow_snapshot (nd_store n')) (committed c);
  ac_ready : ow_poisoned (nd_store n') = false /\ ow_halted (nd_store n') = false
}.

(** What every handler that does not use the signer keeps. *)
Record same_node (n n' : Node) : Prop := {
  sm_fixed : nd_id n' = nd_id n /\ nd_g n' = nd_g n /\ nd_plan n' = nd_plan n /\ nd_peers n' = nd_peers n;
  sm_signer : nd_signer n' = nd_signer n /\ nd_jconn n' = nd_jconn n;
  sm_history : node_records n `prefix_of` node_records n'
}.

#[local] Instance same_refl : Reflexive same_node.
Proof. intros n. by constructor. Qed.
#[local] Instance same_trans : Transitive same_node.
Proof.
  intros x y z [(? & ? & ? & ?) [? ?] ?] [(? & ? & ? & ?) [? ?] ?].
  constructor; split_and?; try congruence. by etrans.
Qed.

Lemma quiet_same n n' : quiet n n' -> same_node n n'.
Proof. intros [H1 [H2 _] H3 _ _]. constructor; [done..|]. unfold node_records. by rewrite H2. Qed.

Lemma own_application_ok n stage a :
  own_application n stage = Ok () -> nd_signer n = Some a ->
  hc_producer (cb_claim (br_block (sb_record stage))) = sa_producer a ->
  retains a (pos_slot (br_position (sb_record stage))) (sb_record stage).
Proof.
  unfold own_application. intros H Ha Hp. rewrite Ha, Hp in H. rewrite bool_decide_true in H by done.
  apply map_err_Ok in H. by eapply check_application_ok.
Qed.

Lemma receive_commit_ok n disk log s bs e n' s' res :
  process_ok n disk log -> live_owner run_id (nd_store n) -> C1Envelope_from_wire_bytes bs = Ok e ->
  receive_commit n s bs = (n', s', res) ->
  process_ok n' disk log /\ same_node n n' /\
  (forall b, res = Ok b -> exists r new, acknowledged n n' bs b r new /\ nd_available n' = nd_available n /\
     nd_halted n' = nd_halted n).
Proof.
  intros P Ho He H. unfold receive_commit in H.
  destruct (stage_received (nd_store n) bs) as [o1 staged] eqn:Hst.
  pose proof (stage_received_staged _ _ _ _ Hst) as Hso. pose proof (staged_ok n o1 disk log Hso P) as P1.
  set (n1 := set_nd_store n o1 (nd_conn n)) in *.
  assert (same_node n n1) as S1.
  { constructor; [done..|]. unfold node_records, n1. cbn [set_nd_store nd_store]. by rewrite (sw_snapshot _ _ Hso). }
  destruct staged as [stage|x].
  - destruct (stage_received_ok _ _ _ _ _ Ho Hst) as (-> & Hbase & Happ & Hwire).
    destruct (own_application n1 stage) as [[]|x] eqn:Hown; [|by injection H as <- <- <-].
    destruct (nd_conn n1) as [c|] eqn:Hc; [|by injection H as <- <- <-].
    destruct (commit describe_app (nd_store n) c stage) as [[o2 c2] out] eqn:Hcm.
    assert (issued run_id stage) as Hiss by (by eapply issued_received).
    destruct (commit_process n1 disk log c stage o2 c2 out P1 Hc (lo_poisoned _ _ Ho) Hiss) as [P2 Hout];
      [intros a Ha Hpr <-; by eapply own_application_ok|done|].
    change (set_nd_store n1 o2 (Some c2)) with (set_nd_store n o2 (Some c2)) in *.
    assert (same_node n (set_nd_store n o2 (Some c2))) as S2.
    { constructor; [done..|]. unfold node_records. cbn [set_nd_store nd_store].
      destruct out; [destruct Hout as (-> & _); by apply prefix_app_r|by rewrite Hout..]. }
    destruct out; injection H as <- <- <-; [|done|].
    + split_and!; [done..|]. intros b [= <-]. exists (sb_record stage), true. split; [|done].
      destruct Hout as (Er & Et & Ep & -> & Hs & Hp & Hh).
      constructor; cbn [set_nd_store nd_store nd_conn]; unfold node_records in *;
        cbn [set_nd_store nd_store]; try done.
      * by rewrite Ep.
      * rewrite Er. apply elem_of_app. right. left.
      * rewrite Hwire. done.
      * intros _. by rewrite <- Et, Ep.
      * intros _. by apply c1_envelope_codec_iff in Hwire as [_ ->].
      * eauto.
      * split; [done|]. rewrite Hh. apply Ho.
    + split_and!; [|by etrans; [exact S2|apply quiet_same, quiet_unavailable]|done].
      eapply quiet_ok; [apply quiet_unavailable|done].
  - assert (forall y : Node, y = n1 \/ y = set_nd_halted n1 true -> process_ok y disk log /\ same_node n y) as Hy.
    { intros y [-> | ->]; [done|]. split; [by eapply quiet_ok; [apply quiet_halted|]|].
      etrans; [exact S1|]. apply quiet_same, quiet_halted. }
    assert ((exists p i j, x = AppError.AlreadyCommitted p i j) \/
      (n', s', res) = (if ow_halted o1 then set_nd_halted n1 true else n1, s, Err (describe_app x))) as [(p & i & j & ->)|E]
      by (destruct x; eauto).
    + injection H as <- <- <-. split_and!; [by apply Hy; left..|]. intros b [= <-].
      destruct (stage_duplicate _ _ _ _ _ _ _ Ho He Hst) as (-> & r & Hr & -> & -> & Hb).
      exists r, false. split; [|done]. constructor; try done; [by rewrite He, Hb|].
      split; apply Ho.
    + injection E as -> -> ->. split_and!; [apply Hy; destruct (ow_halted o1); by auto..|done].
Qed.

Lemma receive_ok n disk log bs action n' res :
  process_ok n disk log -> receive n bs action = (n', res) ->
  process_ok n' disk log /\ same_node n n' /\
  (forall b, res = Ok b -> exists r new, acknowledged n n' bs b r new /\ node_work n' = Ok ()).
Proof.
  intros P H. unfold receive in H. destruct (node_work n) as [[]|] eqn:Hw; [|by injection H as <- <-].
  destruct (working _ _ _ P Hw) as (Ho & Hav & Hun).
  destruct (C1Envelope_from_wire_bytes bs) as [e|x] eqn:He; unfold as_app in H; cbn [map_err] in H.
  2:{ injection H as <- <-. split_and!; [by eapply quiet_ok; [apply quiet_log|]|apply quiet_same, quiet_log|done]. }
  destruct (own_original n e bs) as [[]|x].
  2:{ injection H as <- <-. split_and!; [by eapply quiet_ok; [apply quiet_log|]|apply quiet_same, quiet_log|done]. }
  destruct (receive_commit n _ bs) as [[n1 s1] r1] eqn:Hr.
  destruct (receive_commit_ok _ _ _ _ _ _ _ _ _ P Ho He Hr) as (P1 & S1 & Hack).
  injection H as <- <-. split_and!; [by eapply quiet_ok; [apply quiet_log|]|by etrans; [exact S1|apply quiet_same, quiet_log]|].
  intros b ->. destruct (Hack b eq_refl) as (r & new & [A1 A2 A3 A4 A5 A6 A7 [A8 A9]] & Hav1 & Hh1).
  exists r, new. split; [by constructor|].
  assert (nd_halted n = false) as Hh0.
  { unfold node_work in Hw. apply bind_Ok in Hw as (? & _ & Hw). by inv_ok. }
  unfold node_work, node_ready, as_app, owner_snapshot, ready, signer_unready in *.
  cbn [node_log set_nd_timings nd_available nd_signer nd_store nd_halted].
  by rewrite Hav1, Hav, (proj1 (sm_signer _ _ S1)), Hun, A8, Hh1, Hh0, A9.
Qed.

(** ** Answers to peers *)

Lemma network_length : length (pol_network (g_policy g)) = 32%nat.
Proof. apply keccak256_length. Qed.

Lemma audited_tip s :
  audited g s -> (0 <= pos_slot (tip s) <= MAX_SLOTS)%Z /\ length (pos_hash (tip s)) = 32%nat.
Proof.
  intros H. destruct (audited_has_prefix run_id Hdist s H) as [px A]. split.
  - pose proof (ap_bound _ _ _ (live_prefix_context _ _ (au_live _ _ _ A))) as Hb.
    by rewrite (au_state _ _ _ A) in Hb.
  - destruct H as [|s r s' H Ha Hi]; [apply keccak256_length|].
    pose proof (audited_append g s r s' H Ha Hi) as H'.
    destruct (insert_shape _ _ _ Hi) as (Est & Er & _). unfold tip. rewrite Est. fold (br_position r).
    destruct (audited_slots run_id _ H') as [_ Hpos].
    rewrite (Hpos (length (sn_records s)) r) by (rewrite Er; by apply list_lookup_middle).
    apply keccak256_length.
Qed.

(** A canonical record: its slot, its wire form and that form's size. *)
Lemma audited_envelope s r :
  audited g s -> r ∈ sn_records s ->
  (1 <= pos_slot (br_position r) <= pos_slot (tip s))%Z /\ length (pos_hash (br_position r)) = 32%nat /\
  pos_slot (br_position r) = slot (hc_header (cb_claim (br_block r))) /\
  C1Envelope_from_wire_bytes (C1Envelope_wire_bytes (ae_envelope (br_proof r))) = Ok (ae_envelope (br_proof r)) /\
  (402 <= Z.of_nat (length (C1Envelope_wire_bytes (ae_envelope (br_proof r)))) <= C1_MAX_ENVELOPE_BYTES)%Z.
Proof.
  intros H [i Hi]%list_elem_of_lookup. destruct (audited_slots run_id s H) as [Ht Hpos].
  destruct (audited_record run_id Hdist s i r H Hi) as (prior & _ & _ & Ha & Hslot).
  rewrite (Hpos i r Hi). cbn [pos_slot pos_hash]. pose proof (lookup_lt_Some _ _ _ Hi) as Hlt.
  inversion Ha as [view proof p native applied st Hv Hw Hsig Hauth Hp Hst Hco E]. subst r.
  cbn [br_proof]. unfold br_block in *. cbn [br_proof] in *.
  assert (wf_c1_envelope (ae_envelope proof)) as Hwf.
  { constructor; [done| |done]. unfold C1Envelope_authenticate in Hauth.
    apply bind_Ok in Hauth as (h & Hh & _). apply map_err_Ok, claim_authenticate_iff in Hh.
    rewrite (at_network _ _ _ _ _ Hh). apply keccak256_length. }
  split_and!; [lia|lia|apply keccak256_length|by symmetry|by apply c1_envelope_codec_iff| |].
  all: rewrite (length_c1_envelope _ Hwf), (length_c1_wire _ Hw); unfold C1_MAX_ENVELOPE_BYTES, C1_MAX_BLOCK_BYTES;
    pose proof (cv_bound _ (wb_valid _ Hw)); unfold MAX_ENTRIES in *; lia.
Qed.

Lemma byte_at_one z : (0 <= z < 256)%Z -> byte_at 0 (be_bytes 1 z) = z.
Proof.
  intros Hz. destruct (be_bytes 1 z) as [|b [|? ?]] eqn:E; pose proof (length_be_bytes 1 z) as Hl; rewrite E in Hl; try done.
  unfold byte_at. simpl. rewrite <- be_val_one, <- E. by apply (be_val_bytes_width 1 U8).
Qed.

Lemma ack_layout p id new :
  length (pos_hash p) = 32%nat -> length id = 32%nat -> in_width U64 (pos_slot p) ->
  length (ack p id new) = 73%nat /\ be_val (slice 8 0 (ack p id new)) = pos_slot p /\
  byte_at 72 (ack p id new) = Z.b2z new /\ slice 8 0 (ack p id new) = be_bytes 8 (pos_slot p) /\
  slice 32 8 (ack p id new) = pos_hash p /\ slice 32 40 (ack p id new) = id.
Proof.
  intros Hh Hi Hw. unfold ack. split_and!.
  - rewrite !length_app, !length_be_bytes. lia.
  - rewrite slice_app_here by apply length_be_bytes. by apply (be_val_bytes_width 8 U64).
  - unfold byte_at. rewrite !app_assoc, app_nth2 by (rewrite !length_app, length_be_bytes; lia).
    rewrite !length_app, length_be_bytes, Hh, Hi. change (72 - (8 + 32 + 32))%nat with 0%nat.
    apply (byte_at_one (Z.b2z new)). destruct new; simpl; lia.
  - apply slice_app_here, length_be_bytes.
  - rewrite slice_app_skip by (rewrite length_be_bytes; lia). rewrite length_be_bytes. by apply slice_app_here.
  - rewrite slice_app_skip by (rewrite length_be_bytes; lia). rewrite length_be_bytes.
    rewrite slice_app_skip by lia. rewrite Hh. by apply slice_app_here.
Qed.

Lemma message_new_sized k r body :
  r <> 0%Z -> kind_check k (Z.of_nat (length body)) = true ->
  (k = PeerKind.Get \/ k = PeerKind.Tip \/ k = PeerKind.Ack ->
     (be_val (slice 8 0 body) <= MAX_SLOTS)%Z /\ (k <> PeerKind.Tip -> be_val (slice 8 0 body) <> 0%Z)) ->
  (k = PeerKind.Ack -> (byte_at 72 body <= 1)%Z) ->
  (k = PeerKind.Reject -> (1 <= byte_at 0 body <= 4)%Z) ->
  Message_new k r body = Ok (mk_message k r body).
Proof.
  intros Hr Hk Hs Ha Hj. unfold Message_new. cbv zeta. rewrite Hk, (bool_decide_eq_false_2 (r = 0%Z)) by done. cbn [orb negb].
  rewrite (fail_if_false false _ eq_refl), bind_of_Ok.
  clear Hk. set (M := MAX_SLOTS) in *. clearbody M. set (x := be_val (slice 8 0 body)) in *. clearbody x.
  set (y := byte_at 72 body) in *. clearbody y. set (z := byte_at 0 body) in *. clearbody z.
  destruct k; try reflexivity; try (destruct Hs as [H1 H2]; [tauto|]; rewrite (proj2 (Z.ltb_ge M x)) by done).
  - reflexivity.
  - rewrite (bool_decide_eq_false_2 (x = 0%Z)) by auto. reflexivity.
  - rewrite (bool_decide_eq_false_2 (x = 0%Z)), (proj2 (Z.ltb_ge 1 y)) by auto. reflexivity.
  - specialize (Hj eq_refl). rewrite (proj2 (Z.leb_le 1 z)), (proj2 (Z.leb_le z 4)) by lia. reflexivity.
Qed.

Lemma rejection_new n r : r <> 0%Z ->
  Message_new PeerKind.Reject r (be_bytes 1 (rejection n)) = Ok (mk_message PeerKind.Reject r (be_bytes 1 (rejection n))).
Proof.
  intros Hr. apply message_new_sized; [done|by rewrite length_be_bytes|naive_solver|done|].
  intros _. assert (1 <= rejection n <= 3)%Z as Hj by (unfold rejection; repeat case_match; lia).
  rewrite byte_at_one; lia.
Qed.

(** What a receiver's answer to a pushed original says. *)
Definition truthful (n n' : Node) (m reply : Message) : Prop :=
  match msg_kind reply with
  | PeerKind.Ack => exists r new, acknowledged n n' (msg_body m) (msg_body reply) r new
  | PeerKind.Envelope => exists r, r ∈ node_records n /\ pos_slot (br_position r) = be_val (msg_body m) /\
      msg_body reply = C1Envelope_wire_bytes (ae_envelope (br_proof r)) /\ n' = n
  | PeerKind.Tip => n' = n /\ msg_body reply = be_bytes 8 (pos_slot (tip (ow_snapshot (nd_store n)))) ++
      pos_hash (tip (ow_snapshot (nd_store n))) ++ snapshot_digest g (ow_snapshot (nd_store n))
  | PeerKind.Reject => msg_body reply = be_bytes 1 (rejection n') /\ node_records n `prefix_of` node_records n'
  | _ => False
  end.

Lemma acknowledged_new n n' disk log bs b r new request :
  process_ok n' disk log -> acknowledged n n' bs b r new -> request <> 0%Z ->
  Message_new PeerKind.Ack request b = Ok (mk_message PeerKind.Ack request b).
Proof.
  intros P A Hr. pose proof (no_audited _ _ _ (po_owner _ _ _ P)) as Hau.
  destruct (audited_envelope _ r Hau (ac_record _ _ _ _ _ _ A)) as (Hs & Hh & _).
  destruct (audited_tip _ Hau) as [[_ Hb] _]. rewrite (ac_bytes _ _ _ _ _ _ A).
  destruct (ack_layout (br_position r) (C1Envelope_id (ae_envelope (br_proof r))) new) as (L1 & L2 & L3 & _);
    [done|apply keccak256_length|unfold in_width, MAX_SLOTS in *; lia|].
  apply message_new_sized; [done|by rewrite L1| |rewrite L3; intros _; destruct new; simpl; lia|done].
  rewrite L2. intros _. split; [lia|intros _; lia].
Qed.

Lemma node_peer_ok n disk log m n' res :
  process_ok n disk log -> message_ok m -> node_peer n m = (n', res) ->
  process_ok n' disk log /\ same_node n n' /\
  exists reply, res = Ok reply /\ msg_request reply = msg_request m /\ message_ok reply /\ truthful n n' m reply.
Proof.
  intros P [Hm Hw] H. pose proof (Message_new_fields _ _ _ _ Hm) as (_ & Hr & Hk). unfold node_peer in H.
  assert (forall x : Node, process_ok x disk log -> same_node n x ->
    Message_new PeerKind.Reject (msg_request m) (be_bytes 1 (rejection x)) = res -> x = n' ->
    process_ok n' disk log /\ same_node n n' /\
    exists reply, res = Ok reply /\ msg_request reply = msg_request m /\ message_ok reply /\ truthful n n' m reply) as Hrej.
  { intros x Px Sx E <-. rewrite rejection_new in E by done. subst res. split_and!; [done..|]. eexists.
    split_and!; [done..|split; [by apply rejection_new|done]|]. split; [done|apply Sx]. }
  destruct (peer_answer n m) as [n1 answer] eqn:Ha. injection H as <- Hres. unfold peer_answer in Ha.
  pose proof (no_audited _ _ _ (po_owner _ _ _ P)) as Hau.
  destruct (msg_kind m) eqn:Ekind; try (injection Ha as <- <-; by apply (Hrej n)).
  - injection Ha as <- <-. destruct (node_ready n) as [sn|] eqn:Hready; [|by apply (Hrej n)].
    rewrite bind_of_Ok in Hres. apply node_ready_ok in Hready as (_ & _ & _ & ->).
    destruct (audited_tip _ Hau) as [Hb Hl]. rewrite (po_genesis _ _ _ P) in Hres.
    set (body := be_bytes 8 _ ++ _ ++ _) in *.
    assert (Message_new PeerKind.Tip (msg_request m) body = Ok (mk_message PeerKind.Tip (msg_request m) body)) as E.
    { apply message_new_sized; try done; [|intros _].
      - unfold body, snapshot_digest, hash_with_domain. by rewrite !length_app, length_be_bytes, Hl, keccak256_length.
      - unfold body. rewrite slice_app_here by apply length_be_bytes.
        rewrite (be_val_bytes_width 8 U64) by (unfold in_width, MAX_SLOTS in *; done || lia). split; [lia|done]. }
    rewrite E in Hres. subst res. split_and!; [done..|]. eexists. split_and!; try done.
  - destruct (receive n (msg_body m) "peer_receive") as [n2 r2] eqn:Hrec.
    destruct (receive_ok _ _ _ _ _ _ _ P Hrec) as (P2 & S2 & Hack). injection Ha as <- <-.
    destruct r2 as [b|x]; [|by apply (Hrej n2)]. rewrite bind_of_Ok in Hres.
    destruct (Hack b eq_refl) as (r & new & A & _).
    rewrite (acknowledged_new _ _ _ _ _ _ _ _ _ P2 A Hr) in Hres. subst res. split_and!; [done..|]. eexists.
    split_and!; [done..|split; [by eapply acknowledged_new|done]|]. by exists r, new.
  - injection Ha as <- <-. destruct (node_ready n) as [sn|] eqn:Hready; [|by apply (Hrej n)].
    rewrite bind_of_Ok in Hres. unfold as_app in Hres.
    destruct (export_envelope (nd_store n) (be_val (msg_body m))) as [b|] eqn:Hex; [|by apply (Hrej n)].
    unfold export_envelope in Hex. apply bind_Ok in Hex as ([] & _ & Hex). apply bind_Ok in Hex as (i & Hi & Hex).
    destruct (sn_records (ow_snapshot (nd_store n)) !! Z.to_nat i) as [r|] eqn:Hr'; [|done].
    case_bool_decide as Hpos; [|done]. injection Hex as <-.
    assert (r ∈ node_records n) as Hin by (by eapply list_elem_of_lookup_2).
    destruct (audited_envelope _ r Hau Hin) as (_ & _ & _ & _ & Hlen).
    cbn [map_err] in Hres. rewrite bind_of_Ok in Hres.
    set (body := C1Envelope_wire_bytes _) in *.
    assert (Message_new PeerKind.Envelope (msg_request m) body =
      Ok (mk_message PeerKind.Envelope (msg_request m) body)) as E.
    { apply message_new_sized; try done; [|naive_solver]. cbn [kind_check].
      by rewrite (proj2 (Z.leb_le 402 _)), (proj2 (Z.leb_le _ C1_MAX_ENVELOPE_BYTES)) by lia. }
    rewrite E in Hres. subst res. split_and!; [done..|]. eexists. split_and!; try done.
    by exists r.
Qed.

(** ** Catching up *)

Definition node_tip (n : Node) : Position := tip (ow_snapshot (nd_store n)).

(** A successful round advances the tip by exactly one slot. *)
Lemma catchup_round_ok net n disk log address n' res :
  process_ok n disk log -> catchup_round net n address (pos_slot (node_tip n) + 1) = (n', res) ->
  process_ok n' disk log /\ same_node n n' /\
  (res = Ok () -> pos_slot (node_tip n') = (pos_slot (node_tip n) + 1)%Z /\ node_work n' = Ok ()).
Proof.
  intros P H. unfold catchup_round in H. set (s := (pos_slot (node_tip n) + 1)%Z) in *.
  pose proof (request_quiet n PeerKind.Get (be_bytes 8 s)) as Q.
  destruct (node_request n PeerKind.Get (be_bytes 8 s)) as [n1 made]. cbn [fst] in Q.
  pose proof (quiet_ok _ _ _ _ Q P) as P1.
  destruct (made ≫= _) as [bs|x] eqn:E; [|injection H as <- <-; by split_and!; [|by apply quiet_same|]].
  apply bind_Ok in E as (request & _ & E). apply bind_Ok in E as (response & _ & E).
  apply bind_Ok in E as ([] & _ & E). apply bind_Ok in E as (e & He & E). apply bind_Ok in E as ([] & Hs & E).
  injection E as <-. apply map_err_Ok in He. inv_ok.
  destruct (receive n1 (msg_body response) "catchup_receive") as [n2 r2] eqn:Hr.
  destruct (receive_ok _ _ _ _ _ _ _ P1 Hr) as (P2 & S2 & Hack). injection H as <- <-.
  split_and!; [done|by etrans; [apply quiet_same, Q|]|]. intros E. destruct r2 as [b|]; [|done].
  destruct (Hack b eq_refl) as (r & new & A & Hw). split; [|done].
  assert (br_block r = ce_block e) as Hb by (pose proof (ac_block _ _ _ _ _ _ A) as Hb; rewrite He in Hb; by injection Hb).
  pose proof (no_audited _ _ _ (po_owner _ _ _ P2)) as Hau.
  destruct (audited_envelope _ r Hau (ac_record _ _ _ _ _ _ A)) as (Hle & _ & Hsl & _).
  rewrite Hb in Hsl. assert (pos_slot (br_position r) = s) as Hps by congruence. fold (node_tip n2) in Hle.
  destruct new; [by unfold node_tip; rewrite (ac_tip _ _ _ _ _ _ A eq_refl)|exfalso].
  destruct (audited_slots run_id _ Hau) as [Ht2 _].
  destruct (audited_slots run_id _ (no_audited _ _ _ (po_owner _ _ _ P1))) as [Ht1 _].
  pose proof (ac_history _ _ _ _ _ _ A) as Hh. unfold node_records in Hh. rewrite Hh in Ht2.
  unfold node_tip in *. rewrite (proj1 (qu_store _ _ Q)) in *. subst s. lia.
Qed.

Lemma catchup_loop_ok fuel net n disk log address target n' res :
  process_ok n disk log -> catchup_loop fuel net n address target = (n', res) ->
  process_ok n' disk log /\ same_node n n' /\
  ((target - pos_slot (node_tip n) <= Z.of_nat fuel)%Z -> res <> None) /\
  (res = Some (Ok ()) -> (target <= pos_slot (node_tip n'))%Z).
Proof.
  revert n n' res. induction fuel as [|fuel IH]; intros n n' res P H; cbn [catchup_loop] in H.
  all: destruct (node_ready n) as [sn|x] eqn:Hready; [|injection H as <- <-; by split_and!].
  all: apply node_ready_ok in Hready as (_ & _ & _ & ->); fold (node_tip n) in H.
  all: destruct (Z.ltb_spec (pos_slot (node_tip n)) target) as [Hlt|Hge];
    [|injection H as <- <-; by split_and!].
  - injection H as <- <-. split_and!; [done..| |done]. lia.
  - destruct (catchup_round net n address _) as [n1 r1] eqn:Hr.
    destruct (catchup_round_ok _ _ _ _ _ _ _ P Hr) as (P1 & S1 & Hok).
    destruct r1 as [[]|x]; [|injection H as <- <-; by split_and!].
    destruct (Hok eq_refl) as [Ht _]. destruct (IH _ _ _ P1 H) as (P2 & S2 & Hf & Hd).
    split_and!; [done|by etrans| |done]. intros Hb. apply Hf. lia.
Qed.

Lemma catchup_ok net n disk log source target_slot target_hash n' res :
  process_ok n disk log -> catchup net n source target_slot target_hash = (n', res) ->
  process_ok n' disk log /\ same_node n n' /\ res <> None /\
  (forall x, res = Some (Ok x) -> exists target, hex_decode target_hash = Some target /\
     node_tip n' = mk_position target_slot target /\ x = Reply.CaughtUp target_slot target).
Proof.
  intros P H. unfold catchup in H.
  destruct (catchup_start n source target_slot target_hash) as [[target address]|x] eqn:Hs;
    [|injection H as <- <-; by split_and!].
  pose proof (request_quiet n PeerKind.Status []) as Q.
  destruct (node_request n PeerKind.Status []) as [n1 made]. cbn [fst] in Q.
  pose proof (quiet_ok _ _ _ _ Q P) as P1.
  destruct (made ≫= _) as [[]|x]; [|injection H as <- <-; by split_and!; [|by apply quiet_same|..]].
  destruct (catchup_loop _ net n1 address target_slot) as [n2 looped] eqn:Hl.
  destruct (catchup_loop_ok _ _ _ _ _ _ _ _ _ P1 Hl) as (P2 & S2 & Hf & _). injection H as <- <-.
  destruct (audited_tip _ (no_audited _ _ _ (po_owner _ _ _ P1))) as [[H0 _] _]. fold (node_tip n1) in H0.
  assert (looped <> None) as Hn by (apply Hf; lia). destruct looped as [r|]; [|done].
  split_and!; [done|by etrans; [apply quiet_same, Q|]|done|]. intros x [= E].
  apply bind_Ok in E as ([] & _ & E). apply bind_Ok in E as (sn & Hsn & E). apply bind_Ok in E as ([] & Ht & E).
  injection E as <-. apply node_ready_ok in Hsn as (_ & _ & _ & ->). exists target. fold (node_tip n2) in Ht.
  unfold catchup_start in Hs. apply bind_Ok in Hs as ([] & _ & Hs). apply bind_Ok in Hs as ([] & _ & Hs).
  apply bind_Ok in Hs as (t & Hhex & Hs). apply bind_Ok in Hs as ([] & _ & Hs).
  apply bind_Ok in Hs as (p & _ & Hs). injection Hs as -> _. unfold encoded in Hhex. inv_ok.
  split_and!; [done| |done]. destruct (node_tip n2); simpl in *; congruence.
Qed.

(** ** Producing *)

Lemma commit_publish_ok net n disk log c who stage n' res :
  process_ok n disk log -> nd_conn n = Some c -> ow_poisoned (nd_store n) = false -> issued run_id stage ->
  (forall a, nd_signer n = Some a -> retains a (Z.of_nat (length (node_records n)) + 1) (sb_record stage)) ->
  commit_publish net n c who stage = (n', res) ->
  process_ok n' disk log /\ same_node n n' /\
  (forall x, res = Ok x -> node_records n' = node_records n ++ [sb_record stage]).
Proof.
  intros P Hc Hp Hiss Hown H. unfold commit_publish in H.
  destruct (commit describe_app (nd_store n) c stage) as [[o1 c1] out] eqn:Hcm.
  destruct (commit_process n disk log c stage o1 c1 out P Hc Hp Hiss) as [P1 Hout]; [by auto|done|].
  set (n1 := set_nd_store n o1 (Some c1)) in *.
  assert (same_node n n1) as S1.
  { constructor; [done..|]. unfold node_records, n1. cbn [set_nd_store nd_store].
    destruct out; [destruct Hout as (-> & _); by apply prefix_app_r|by rewrite Hout..]. }
  destruct out.
  - pose proof (publish_quiet net n1 (pos_slot position)) as Q.
    destruct (publish net n1 (pos_slot position)) as [n2 d]. cbn [fst] in Q. injection H as <- <-.
    split_and!; [by eapply quiet_ok|by etrans; [exact S1|apply quiet_same]|]. intros _ _.
    unfold node_records. rewrite (proj1 (qu_store _ _ Q)). cbn [set_nd_store nd_store]. apply Hout.
  - injection H as <- <-. split_and!; [by eapply quiet_ok; [apply quiet_halted|]| |done].
    etrans; [exact S1|apply quiet_same, quiet_halted].
  - injection H as <- <-. split_and!; [by eapply quiet_ok; [apply quiet_unavailable|]| |done].
    etrans; [exact S1|apply quiet_same, quiet_unavailable].
Qed.

(** What any handler keeps: the configuration, and the history as a prefix. *)
Record grows (n n' : Node) : Prop := {
  gr_fixed : nd_id n' = nd_id n /\ nd_g n' = nd_g n /\ nd_plan n' = nd_plan n /\ nd_peers n' = nd_peers n;
  gr_history : node_records n `prefix_of` node_records n'
}.

#[local] Instance grows_refl : Reflexive grows.
Proof. intros n. by constructor. Qed.
#[local] Instance grows_trans : Transitive grows.
Proof.
  intros x y z [(? & ? & ? & ?) ?] [(? & ? & ? & ?) ?].
  constructor; split_and?; try congruence. by etrans.
Qed.
Lemma same_grows n n' : same_node n n' -> grows n n'.
Proof. intros [? _ ?]. by constructor. Qed.

(** The contents of the protection store and the history of the key after a
    handler: the connection shows the former, the authority's call counter
    whether the key was used for block [b]. *)
Definition disk_after (n : Node) (disk : option JournalContents) : option JournalContents :=
  if nd_jconn n is Some c then Some (jcommitted c) else disk.
Definition key_log (n n' : Node) (b : option C1Block) (log : list C1Block) : list C1Block :=
  if (sa_signing_calls <$> nd_signer n') ==? (sa_signing_calls <$> nd_signer n) then log
  else log ++ option_list b.

Lemma disk_after_same n n' disk log :
  process_ok n disk log -> nd_jconn n' = nd_jconn n -> disk_after n' disk = disk.
Proof.
  intros P E. unfold disk_after. rewrite E. destruct (nd_jconn n) eqn:Ej; [|done]. symmetry. by eapply po_disk.
Qed.
Lemma key_log_same n n' b log : nd_signer n' = nd_signer n -> key_log n n' b log = log.
Proof. intros E. unfold key_log. by rewrite E, bool_decide_true. Qed.

(** A handler that leaves the signer alone. *)
Lemma same_after n n' disk log b :
  process_ok n disk log -> process_ok n' disk log -> same_node n n' ->
  process_ok n' (disk_after n' disk) (key_log n n' b log).
Proof.
  intros P P' [_ [Ea Ej] _]. by rewrite (disk_after_same n n' disk log P Ej), key_log_same.
Qed.

(** The connection and the knowledge of a ready authority. *)
Lemma authority_ready n disk log a :
  process_ok n disk log -> nd_signer n = Some a -> sa_poisoned a = false ->
  exists jc m, nd_jconn n = Some jc /\ disk = Some (jcommitted jc) /\ sa_intents a = m /\
    jstored g producer (cfg_public_key v) m (jcommitted jc) /\
    authority_ok run_id producer (cfg_public_key v) a.
Proof.
  intros P Ha Hp. pose proof (po_signer _ _ _ P) as Hs. unfold signer_ok in Hs.
  cbn [sg_disk sg_authority sg_conn sg_log] in Hs. destruct disk as [p|]; [|by destruct Hs; congruence].
  destruct Hs as (m & Hm & _ & Hk). destruct (Hk a Ha) as [Hok Hr]. destruct (Hr Hp) as (Em & _ & jc & Hjc & Ejc & _).
  exists jc, m. subst p. by split_and!.
Qed.

(** One signing call inside the process. *)
Lemma sign_process env n disk log a jc c pb a' jc' c' res :
  process_ok n disk log -> audited_owner run_id (nd_store n) -> issued_prepared run_id pb ->
  nd_signer n = Some a -> sa_poisoned a = false -> nd_jconn n = Some jc -> nd_conn n = Some c ->
  sign_prepared (av_entropy env) (av_fuel env) (av_sync1 env) (av_sync2 env) a jc (nd_store n) c pb =
    (a', jc', c', res) ->
  let n' := set_nd_signer (set_nd_store n (nd_store n) (Some c')) (Some a') (Some jc') in
  let log' := key_log n n' (Some (pb_block pb)) log in
  signer_ok run_id producer v (mk_signer None None (Some (jcommitted jc')) log') /\
  (res <> None -> process_ok n' (Some (jcommitted jc')) log').
Proof.
  intros P Ho Hpb Ha Hpo Hjc Hc H n' log'.
  destruct (authority_ready _ _ _ _ P Ha Hpo) as (jc0 & m & E & -> & Em & Hm & Hok). rewrite Hjc in E. injection E as <-.
  pose proof (po_signer _ _ _ P) as Hs. rewrite Ha, Hjc in Hs.
  assert (log' = if (sa_signing_calls a' =? sa_signing_calls a)%Z then log else log ++ [pb_block pb]) as El.
  { unfold log', key_log, n'. cbn [set_nd_signer nd_signer]. rewrite Ha. cbn.
    destruct (Z.eqb_spec (sa_signing_calls a') (sa_signing_calls a)) as [->|Hne];
      [by rewrite bool_decide_true|]. rewrite bool_decide_false by congruence. done. }
  destruct (sign_advances run_id Hdist producer v _ _ _ _ _ _ _ _ _ _ _ _ _ _ Hcfg Ho Hpb H Hs) as [Hs' Hadv].
  rewrite <- El in Hs', Hadv. split.
  - destruct Hs' as (m' & Hm' & Hl' & _). exists m'. by split_and!.
  - intros Hres. destruct res as [res|]; [clear Hres|done].
    constructor; unfold n', node_records;
      cbn [set_nd_signer set_nd_store nd_g nd_store nd_conn nd_signer nd_jconn nd_available]; try apply P; try done.
    + eapply view_node_ok. rewrite <- Hc. apply P.
    + by intros ? [= <-].
    + intros Hav a0 [= <-] Hp'. pose proof (po_covered _ _ _ P Hav a Ha Hpo) as Hcov.
      destruct (Hadv _ m eq_refl Hm) as (p' & m' & [= <-] & Hm' & Hfr & _).
      destruct Hs' as (m1 & Hm1 & _ & Hk). destruct (Hk a' eq_refl) as [Hok' Hr]. destruct (Hr Hp') as (Em' & _).
      pose proof (jstored_unique _ _ _ _ _ _ Hm1 Hm') as ->.
      intros k r Hk' Hr'. rewrite (ao_producer _ _ _ _ Hok') in Hr'.
      destruct (Hcov k r Hk') as (i & Hi & Hor); [by rewrite (ao_producer _ _ _ _ Hok)|].
      exists i. split; [|done]. rewrite Em'. apply Hfr. by rewrite <- Em.
Qed.

(** A staged block this process may commit. *)
Record committable_stage (n : Node) (s : Z) (stage : StagedBlock) : Prop := {
  cs_issued : issued run_id stage;
  cs_ready : ow_poisoned (nd_store n) = false;
  cs_retained : forall a, nd_signer n = Some a -> retains a s (sb_record stage)
}.

Lemma stage_original_ok n disk log a report s n' res :
  process_ok n disk log -> live_owner run_id (nd_store n) -> nd_signer n = Some a ->
  stage_original n a report s = (n', res) ->
  process_ok n' disk log /\ same_node n n' /\ node_records n' = node_records n /\
  (forall stage, res = Ok stage -> committable_stage n' s stage).
Proof.
  intros P Ho Ha H. unfold stage_original in H. destruct (_ ≫= _) as [original|x]; [|by injection H as <- <-].
  destruct (stage_received (nd_store n) (og_bytes original)) as [o1 staged] eqn:Hst.
  pose proof (stage_received_staged _ _ _ _ Hst) as Hso. injection H as <- <-.
  assert (node_records (set_nd_store n o1 (nd_conn n)) = node_records n) as Er
    by (unfold node_records; cbn [set_nd_store nd_store]; by rewrite (sw_snapshot _ _ Hso)).
  split_and!; [by apply staged_ok|constructor; [done..|by rewrite Er]|done|].
  intros stage E. apply bind_Ok in E as (st & Hs & E). apply map_err_Ok in Hs as ->.
  apply bind_Ok in E as ([] & Hch & E). injection E as <-. apply map_err_Ok in Hch.
  constructor; cbn [set_nd_store nd_store nd_signer]; [by eapply issued_received|by rewrite (sw_poisoned _ _ Hso), (lo_poisoned _ _ Ho)|].
  intros a0. rewrite Ha. intros [= <-]. by eapply check_application_ok.
Qed.

Lemma sign_seal_ok env n disk log a jc c pb s who ticket body n' res :
  process_ok n disk log -> live_owner run_id (nd_store n) -> nd_signer n = Some a -> sa_poisoned a = false ->
  nd_jconn n = Some jc -> nd_conn n = Some c -> prepare_next (nd_store n) who ticket body = Ok pb ->
  sign_seal env n a jc c pb s = (n', res) ->
  let disk' := disk_after n' disk in
  let log' := key_log n n' (Some (pb_block pb)) log in
  grows n n' /\ node_records n' = node_records n /\ signer_ok run_id producer v (mk_signer None None disk' log') /\
  (res <> None -> process_ok n' disk' log') /\
  (forall stage, res = Some (Ok stage) -> committable_stage n' s stage).
Proof.
  intros P Ho Ha Hp Hjc Hc Hpb H. unfold sign_seal in H.
  destruct (sign_prepared _ _ _ _ a jc (nd_store n) c pb) as [[[a1 jc1] c1] signing] eqn:Hsg.
  assert (audited_owner run_id (nd_store n)) as Hao by (split; apply Ho).
  assert (issued_prepared run_id pb) as Hip by (by exists (nd_store n), who, ticket, body).
  destruct (sign_process env n disk log a jc c pb a1 jc1 c1 signing P Hao Hip Ha Hp Hjc Hc Hsg) as [Hs1 P1].
  set (n1 := set_nd_signer (set_nd_store n (nd_store n) (Some c1)) (Some a1) (Some jc1)) in *.
  assert (grows n n1) as G1 by (by constructor).
  destruct signing as [[original|e]|].
  2,3: injection H as <- <-; split_and!; try done; intros _; by apply P1.
  change (nd_store n1) with (nd_store n) in H.
  destruct (seal_prepared (nd_store n) pb (og_bytes original)) as [o1 sealed] eqn:Hse.
  pose proof (seal_prepared_staged _ _ _ _ _ Hse) as Hso. injection H as <- <-.
  assert (node_records (set_nd_store n1 o1 (Some c1)) = node_records n) as Er
    by (unfold node_records; cbn [set_nd_store nd_store]; by rewrite (sw_snapshot _ _ Hso)).
  split_and!.
  - etrans; [exact G1|]. constructor; [done|]. by rewrite Er.
  - done.
  - exact Hs1.
  - intros _. by apply (staged_ok n1 o1); [|apply P1].
  - intros stage [= E]. apply bind_Ok in E as (st & Hs & E). apply map_err_Ok in Hs as ->.
    apply bind_Ok in E as ([] & Hch & E). injection E as <-. apply map_err_Ok in Hch.
    constructor; cbn [set_nd_store nd_store nd_signer];
      [by eapply issued_sealed|by rewrite (sw_poisoned _ _ Hso), (lo_poisoned _ _ Ho)|].
    unfold n1. cbn [set_nd_signer nd_signer]. intros a0 [= <-]. by eapply check_application_ok.
Qed.

(** The block an advance to slot [s] would sign. *)
Definition planned (n : Node) (s : Z) : option C1Block :=
  pb_block <$> ok (sel ← as_app (view ← owner_slot_start (nd_store n); protocol (view_select view));
                   planned_block n sel s).

(** What a handler promises: the process, or what is left of it when it never
    returns, and the history of the key; [b] is the block the key may sign. *)
Definition handled (n n' : Node) (b : option C1Block) (disk : option JournalContents) (log : list C1Block)
    (returned : bool) : Prop :=
  let disk' := disk_after n' disk in
  let log' := key_log n n' b log in
  grows n n' /\
  (if returned then process_ok n' disk' log' else signer_ok run_id producer v (mk_signer None None disk' log')).

Lemma same_handled n n' b disk log :
  process_ok n disk log -> process_ok n' disk log -> same_node n n' -> handled n n' b disk log true.
Proof. intros P P' S. split; [by apply same_grows|by apply same_after]. Qed.

Lemma quiet_handled n n' b disk log :
  quiet n n' -> process_ok n disk log -> handled n n' b disk log true.
Proof. intros Q P. apply same_handled; [done|by eapply quiet_ok|by apply quiet_same]. Qed.

(** A quiet step after a handler. *)
Lemma handled_quiet n n1 n2 b disk log :
  handled n n1 b disk log true -> quiet n1 n2 -> handled n n2 b disk log true.
Proof.
  intros [G P] Q. destruct (qu_signer _ _ Q) as [Ea Ej]. split; [by etrans; [|apply same_grows, quiet_same]|].
  unfold disk_after, key_log. rewrite Ea, Ej. by eapply quiet_ok.
Qed.

(** Committing what a handler staged. *)
Lemma handled_commit env n n1 b disk log s who stage c n2 res :
  handled n n1 b disk log true -> committable_stage n1 s stage -> nd_conn n1 = Some c ->
  s = (Z.of_nat (length (node_records n1)) + 1)%Z ->
  commit_publish (av_net env) n1 c who stage = (n2, res) ->
  handled n n2 b disk log true /\
  (forall x, res = Ok x -> node_records n2 = node_records n1 ++ [sb_record stage]).
Proof.
  intros [G P] [Hiss Hp Hret] Hc -> H.
  destruct (commit_publish_ok _ _ _ _ _ _ _ _ _ P Hc Hp Hiss Hret H) as (P2 & [F [Ea Ej] Hh] & Hx).
  split; [|done]. split; [by etrans; [|constructor]|]. unfold disk_after, key_log in *. by rewrite Ea, Ej.
Qed.

Lemma stage_new_ok env n disk log a sel report s n' res :
  process_ok n disk log -> live_owner run_id (nd_store n) -> nd_signer n = Some a -> sa_poisoned a = false ->
  (v ← owner_slot_start (nd_store n); protocol (view_select v)) = Ok sel ->
  stage_new env n a sel report s = (n', res) ->
  handled n n' (planned n s) disk log (contains res) /\ node_records n' = node_records n /\
  (forall stage, res = Some (Ok stage) -> committable_stage n' s stage).
Proof.
  intros P Ho Ha Hp Hsel H. unfold stage_new in H.
  case_bool_decide; [injection H as <- <-; split_and!; [by apply quiet_handled|done|done]|].
  case_bool_decide; [injection H as <- <-; split_and!; [by apply quiet_handled; [apply quiet_halted|]|done|done]|].
  destruct (authority_ready _ _ _ _ P Ha Hp) as (jc & m & Hjc & _).
  destruct (connected _ _ _ P (lo_poisoned _ _ Ho)) as (_ & c & Hc). rewrite Hjc, Hc in H.
  destruct (planned_block n sel s) as [pb|x] eqn:Hpl; [|injection H as <- <-; split_and!; [by apply quiet_handled|done|done]].
  assert (planned n s = Some (pb_block pb)) as Epl by (unfold planned; by rewrite Hsel; cbn; rewrite Hpl).
  unfold planned_block in Hpl. apply bind_Ok in Hpl as (body & _ & Hpl). apply map_err_Ok in Hpl.
  destruct (sign_seal_ok _ _ _ _ _ _ _ _ _ _ _ _ _ _ P Ho Ha Hp Hjc Hc Hpl H) as (G & Er & Hs & P' & Hst).
  rewrite Epl. split_and!; [|done|done]. split; [done|]. destruct res; [by apply P'|done].
Qed.

Lemma advance_run_ok env n disk log s explicit n' res :
  process_ok n disk log -> node_work n = Ok () -> s = (Z.of_nat (length (node_records n)) + 1)%Z ->
  advance_run env n s explicit = (n', res) ->
  handled n n' (if explicit then None else planned n s) disk log (contains res).
Proof.
  intros P Hw Es H. destruct (working _ _ _ P Hw) as (Ho & Hav & Hun). unfold advance_run in H.
  set (b := if explicit then None else planned n s).
  destruct (_ ≫= _) as [[sel a]|x] eqn:E; [|injection H as <- <-; by apply quiet_handled].
  apply bind_Ok in E as (view & Hv & E). apply bind_Ok in E as (sel' & Hsel & E).
  apply bind_Ok in E as (a' & Ha & E). injection E as -> ->. apply map_err_Ok in Hv, Hsel. apply ok_or_Ok in Ha.
  assert ((v ← owner_slot_start (nd_store n); protocol (view_select v)) = Ok sel) as Hsl
    by (rewrite Hv, bind_of_Ok, Hsel; done).
  assert (sa_poisoned a = false) as Hp by (unfold signer_unready in Hun; by rewrite Ha in Hun).
  case_bool_decide; [injection H as <- <-; by apply quiet_handled|].
  destruct (as_sign (sa_status a (nd_store n))) as [report|x]; [|injection H as <- <-; by apply quiet_handled].
  destruct (if explicit then _ else _) as [n1 staged] eqn:Hst.
  assert (handled n n1 b disk log (contains staged) /\ node_records n1 = node_records n /\
    (forall stage, staged = Some (Ok stage) -> committable_stage n1 s stage)) as (H1 & Er & Hcm).
  { subst b. destruct explicit; [|by eapply stage_new_ok].
    destruct (stage_original n a report s) as [n2 r] eqn:Hor. injection Hst as <- <-.
    destruct (stage_original_ok _ _ _ _ _ _ _ _ P Ho Ha Hor) as (P1 & S1 & Er & Hc1).
    split_and!; [by apply same_handled|done|]. intros st [= ->]. by apply Hc1. }
  destruct staged as [[stage|x]|]; [|injection H as <- <-; done..].
  destruct (nd_conn n1) as [c|] eqn:Hc; [|injection H as <- <-; done].
  destruct (commit_publish (av_net env) n1 c (sel_owner sel) stage) as [n2 r] eqn:Hcp. injection H as <- <-.
  eapply handled_commit; [done|by apply Hcm|done|by rewrite Er|done].
Qed.

Lemma advance_ok env n disk log s explicit n' res :
  process_ok n disk log -> node_advance env n s explicit = (n', res) ->
  handled n n' (if explicit then None else planned n s) disk log (contains res).
Proof.
  intros P H. unfold node_advance in H. destruct (_ ≫= _) as [t|x] eqn:E; [|injection H as <- <-; by apply quiet_handled].
  apply bind_Ok in E as ([] & Hw & E). apply bind_Ok in E as (sn & Hr & E). injection E as <-.
  apply node_ready_ok in Hr as (_ & _ & _ & ->). destruct (_ <=? _)%Z; [injection H as <- <-; by apply quiet_handled|].
  case_bool_decide as Hs; [injection H as <- <-; by apply quiet_handled|].
  assert (s = (Z.of_nat (length (node_records n)) + 1)%Z) as Es.
  { apply checked_add_Some in Hs as [_ ->].
    destruct (audited_slots run_id _ (no_audited _ _ _ (po_owner _ _ _ P))) as [-> _]. done. }
  destruct (advance_run env n s explicit) as [n1 r] eqn:Hrun.
  pose proof (advance_run_ok _ _ _ _ _ _ _ _ P Hw Es Hrun) as Hh.
  destruct r as [r|]; [|by injection H as <- <-]. injection H as <- <-.
  eapply handled_quiet; [exact Hh|]. etrans; [|apply quiet_log].
  destruct (signer_unready n1); [apply quiet_unavailable|done].
Qed.

(** ** Recovering *)

Lemma insert_all_records s rs s' : insert_all s rs = Ok s' -> sn_records s' = sn_records s ++ rs.
Proof.
  revert s. induction rs as [|r rs IH]; intros s; cbn [insert_all]; [intros [= <-]; by rewrite app_nil_r|].
  intros (s1 & H1 & H)%bind_Ok. destruct (insert_shape _ _ _ H1) as (_ & Er & _).
  by rewrite (IH _ H), Er, <- app_assoc.
Qed.

(** What is recovered extends what was known. *)
Lemma reconciled_prefix a known loaded present :
  (forall x, a = Some x -> bs_snapshot (at_base x) = known) -> reconciled a known loaded present ->
  sn_records known `prefix_of` sn_records loaded.
Proof.
  intros Hb H. unfold reconciled in H. destruct a as [a|].
  - rewrite (Hb a eq_refl) in H. destruct H as [(_ & next & rest & Hn & H)|(_ & ->)]; [|done].
    destruct (insert_shape _ _ _ Hn) as (_ & Er & _). rewrite (insert_all_records _ _ _ H), Er, <- app_assoc.
    by apply prefix_app_r.
  - destruct H as (_ & rest & H). rewrite (insert_all_records _ _ _ H). by apply prefix_app_r.
Qed.

Lemma recover_owner_process env n disk log o' c' res :
  process_ok n disk log -> nd_available n = false ->
  recover describe_app (nd_store n) (nd_conn n) (rv_generation env) (rv_opened env) (rv_sync env) = (o', c', res) ->
  process_ok (set_nd_store n o' c') disk log /\ same_node n (set_nd_store n o' c') /\
  (is_ok res = true -> ow_poisoned o' = false).
Proof.
  intros P Hav H. pose proof (po_owner _ _ _ P) as N.
  pose proof (recover_node_ok describe_app run_id Hdist _ _ _ _ _ _ _ _ N H) as N'.
  apply (recover_spec describe_app run_id Hdist) in H; [|apply N..|intros x Hx; by apply (no_attempt _ _ _ N x Hx)].
  assert ((forall a, ow_attempt o' = Some a -> bs_snapshot (at_base a) = ow_snapshot o') /\
    sn_records (ow_snapshot (nd_store n)) `prefix_of` sn_records (ow_snapshot o') /\
    (is_ok res = true -> ow_poisoned o' = false)) as (Hb & Hpre & Hpo).
  { destruct res as [report|e].
    - destruct H as (c1 & _ & _ & _ & _ & _ & Hp & Ha & _ & _ & Hr). rewrite Ha. split_and!; [done| |done].
      by eapply reconciled_prefix, Hr; apply P.
    - destruct H as (_ & _ & Hs & Ha & _). rewrite Hs, Ha. split_and!; [apply P|done|done]. }
  split_and!; [|by constructor|done].
  constructor; unfold node_records; cbn [set_nd_store nd_g nd_store nd_conn nd_signer nd_jconn nd_available]; try apply P; try done.
  by rewrite Hav.
Qed.

Lemma recover_signer_process env n disk log n' res :
  process_ok n disk log -> (forall jc, rv_jopened env = Ok jc -> Some (jcommitted jc) = disk) ->
  recover_signer env n = (n', res) ->
  nd_store n' = nd_store n /\ grows n n' /\ nd_available n' = nd_available n /\
  (nd_available n = false -> process_ok n' (disk_after n' disk) log) /\
  (is_ok res = true -> forall a, nd_signer n' = Some a -> sa_poisoned a = false -> covered a (node_records n')).
Proof.
  intros P Hop H. unfold recover_signer in H. destruct (nd_signer n) as [a|] eqn:Ha.
  2:{ injection H as <- <-. split_and!; try done; [|by rewrite Ha]. intros _. by rewrite (disk_after_same n n disk log). }
  destruct (sa_recover a (nd_store n) (rv_jopened env) (rv_jsync env)) as [[a1 jc1] r] eqn:Hr. injection H as <- <-.
  pose proof (po_signer _ _ _ P) as Hs. rewrite Ha in Hs.
  assert (exists p, disk = Some p) as [p ->] by (destruct disk; [by eexists|by destruct Hs]).
  assert (forall c, rv_jopened env = Ok c -> jcommitted c = p) as Hop' by (intros c Hc; by injection (Hop c Hc)).
  destruct (recover_advances run_id producer v _ _ _ _ _ _ _ _ _ _ Hop' Hr Hs) as [Hs' _].
  split_and!; [done|by constructor|done| |].
  - intros Hav. constructor; unfold node_records, disk_after;
      cbn [set_nd_signer nd_g nd_store nd_conn nd_signer nd_jconn nd_available]; try apply P.
    + by destruct jc1.
    + by intros c ->.
    + by rewrite Hav.
  - intros Hok a0 [= <-] Hp. destruct Hs as (m & Hm & _ & Hk). destruct (Hk a eq_refl) as [Hao _].
    destruct (sa_recover_spec run_id producer v a (nd_store n) (rv_jopened env) (rv_jsync env) a1 jc1 r m Hao) as (Hao1 & _ & Hres);
      [intros c Hc; by rewrite (Hop' c Hc)|done|].
    destruct r as [rep|]; [|done]. destruct Hres as (_ & Ei & _ & _ & _ & rep0 & Hrec & _).
    assert (audited_owner run_id (nd_store n)) as Hau by (split; apply (po_owner _ _ _ P)).
    intros k r Hk' Hr'. rewrite Ei. rewrite (ao_producer _ _ _ _ Hao1) in Hr'.
    by apply (reconcile_facts run_id producer _ _ _ _ Hau Hrec).
Qed.

Lemma node_recover_ok env n disk log n' res :
  process_ok n disk log -> (forall jc, rv_jopened env = Ok jc -> Some (jcommitted jc) = disk) ->
  node_recover env n = (n', res) -> handled n n' None disk log true.
Proof.
  intros P Hop H. unfold node_recover in H.
  pose proof (quiet_unavailable n) as Q. pose proof (quiet_ok _ _ _ _ Q P) as P0.
  set (n0 := set_nd_available n false) in *.
  destruct (recover _ _ _ _ _ _) as [[o1 c1] r1] eqn:Hr.
  destruct (recover_owner_process _ _ _ _ _ _ _ P0 eq_refl Hr) as (P1 & S1 & Hpo).
  set (n1 := set_nd_store n0 o1 c1) in *.
  assert (forall x log', key_log n x None log' = log') as Elog
    by (intros x log'; unfold key_log; case_bool_decide; [done|by rewrite app_nil_r]).
  assert (grows n n1) as G1 by (etrans; [apply same_grows, quiet_same, Q|by apply same_grows]).
  assert (forall x, process_ok x (disk_after x disk) log -> grows n x -> handled n x None disk log true) as Hfin
    by (intros x Hx Gx; split; [done|by rewrite Elog]).
  destruct r1 as [rep|e].
  2:{ injection H as <- <-. apply Hfin; [|done]. rewrite (disk_after_same n1 n1 disk log P1 eq_refl). exact P1. }
  destruct (recover_signer env n1) as [n2 r2] eqn:Hr2.
  destruct (recover_signer_process _ _ _ _ _ _ P1 Hop Hr2) as (Es & G2 & Eav & P2 & Hcov).
  specialize (P2 eq_refl). assert (grows n n2) as G by (by etrans).
  destruct r2 as [report|x]; [|injection H as <- <-; by apply Hfin].
  set (n3 := set_nd_halted (set_nd_available n2 true) _) in *.
  assert (process_ok n3 (disk_after n3 disk) log) as P3.
  { change (disk_after n3 disk) with (disk_after n2 disk). destruct P2 as [? ? ? ? ? ?]. constructor; done. }
  assert (grows n n3) as G3 by (etrans; [exact G|by constructor]).
  destruct (node_ready n3) as [sn|x]; injection H as <- <-; [|by apply Hfin].
  apply Hfin; [|etrans; [exact G3|apply same_grows, quiet_same, quiet_log]].
  eapply quiet_ok; [apply quiet_log|]. exact P3.
Qed.

(** ** Every command *)

(** The block a command may use the key for. *)
Definition command_block (n : Node) (c : command) : option C1Block :=
  if c is Command.Advance s then planned n s else None.

Lemma handle_ok env renv n disk log c n' res :
  process_ok n disk log -> (forall jc, rv_jopened renv = Ok jc -> Some (jcommitted jc) = disk) ->
  handle env renv n c = (n', res) -> handled n n' (command_block n c) disk log (contains res).
Proof.
  intros P Hop H. unfold command_block. destruct c; cbn [handle] in H.
  1,7,8,9,10,11: injection H as <- <-; by apply quiet_handled.
  - by eapply (advance_ok _ _ _ _ _ false).
  - by eapply (advance_ok _ _ _ _ _ true).
  - pose proof (publish_quiet (av_net env) n slot) as Q. destruct (publish _ _ _) as [n1 r]. injection H as <- <-.
    apply quiet_handled; [|done]. by etrans; [|apply quiet_log].
  - destruct (catchup _ _ _ _ _) as [n1 r] eqn:Hc.
    destruct (catchup_ok _ _ _ _ _ _ _ _ _ P Hc) as (P1 & S1 & Hr & _). injection H as <- <-.
    destruct r as [r|]; [|done]. pose proof (same_handled _ _ None _ _ P P1 S1) as Hh.
    destruct r; [done|]. eapply handled_quiet; [exact Hh|apply quiet_halted].
  - destruct (node_recover renv n) as [n1 r] eqn:Hr. injection H as <- <-. by eapply node_recover_ok.
Qed.

(** ** Starting *)

(** The environment of a start, as far as the files decide it: the genesis
    file describes this run; the configured producer is the one of this
    protection store; of the canonical file and of the protection store, one
    just created is empty, a reopened one holds what is on disk, an existing
    one cannot be created again and a missing one cannot be reopened. *)
Record start_env (env : LoadEnv) (c : Config) (file : option Contents) (disk : option JournalContents) : Prop := {
  se_genesis : forall bs h, bounded_file (ld_genesis env) MAX_GENESIS_BYTES = Ok bs ->
    Genesis_from_bytes bs = Ok h -> h = g;
  se_created : cf_mode c = Create ->
    (file = None -> forall c0, ld_opened env = Ok c0 ->
       committed c0 = empty_contents /\ committed (sq_begin c0).1 = empty_contents) /\
    (file <> None -> exists e, ld_reserved env = Err e);
  se_loaded : cf_mode c = Reopen ->
    (forall p, file = Some p -> forall c0, ld_opened env = Ok c0 -> committed c0 = p) /\
    (file = None -> exists e, ld_opened env = Err e);
  se_producer : forall p, cf_producer c = Some p -> pd_id p = producer;
  se_create : forall p, cf_producer c = Some p -> pd_mode p = Create ->
    (disk = None -> forall jc, sf_opened (ld_files env) = Ok jc -> jcommitted jc = empty_journal) /\
    (disk <> None -> exists e, sf_created (ld_files env) = Err e);
  se_reopen : forall p, cf_producer c = Some p -> pd_mode p = Reopen ->
    (forall q, disk = Some q -> forall jc, sf_opened (ld_files env) = Ok jc -> jcommitted jc = q) /\
    (disk = None -> sf_present (ld_files env) <> Ok true)
}.

Lemma open_store_ok env c file disk oc o :
  start_env env c file disk -> open_store env g (cf_mode c) = (oc, Ok o) ->
  node_ok run_id o oc /\ ow_attempt o = None.
Proof.
  intros E H. destruct (cf_mode c) eqn:Em; cbn [open_store] in H.
  - destruct (se_created _ _ _ _ E Em) as [Hn Hs]. destruct file as [p|].
    { destruct (Hs ltac:(done)) as [e He]. by rewrite He in H. }
    destruct (ld_opened env) as [c0|e] eqn:Eo.
    2:{ unfold create_inner in H. by destruct (ld_reserved env). }
    destruct (create_stored describe_app run_id Hdist _ _ _ _ _ _ (proj2 (Hn eq_refl c0 eq_refl)) H)
      as (c1 & -> & N & (k & _ & ->) & _). done.
  - by destruct (load_stored describe_app run_id Hdist _ _ _ _ _ H) as (c1 & -> & N & Ha & _).
Qed.

(** Opening checks that end with an error open nothing. *)
Lemma open_refused f key o (create : bool) :
  (if create then exists e, sf_created f = Err e else sf_present f <> Ok true) ->
  exists e, open_inner f g producer key o create = (None, Err e).
Proof.
  intros H. unfold open_inner. destruct (open_checks f g producer key o create) as [[w c]|e] eqn:E; [|eauto].
  exfalso. unfold open_checks in E. apply bind_Ok in E as (w' & _ & E). apply bind_Ok in E as ([] & _ & E).
  apply bind_Ok in E as ([] & _ & E). apply bind_Ok in E as ([] & _ & E). apply bind_Ok in E as ([] & Hc & _).
  destruct create.
  - destruct H as [e H]. apply bind_Ok in Hc as (sn & _ & Hc). apply bind_Ok in Hc as ([] & _ & Hc). congruence.
  - apply bind_Ok in Hc as (present & Hp & Hc). destruct present; [by rewrite Hp in H|done].
Qed.

(** The file of a store whose creation failed before its contents were
    written may exist, empty. *)
Definition left_behind (disk disk' : option JournalContents) : Prop :=
  disk' = disk \/ disk = None /\ disk' = Some empty_journal.

Definition disk_opened (jc : option jconn) (disk : option JournalContents) : option JournalContents :=
  if jc is Some c then Some (jcommitted c) else disk.

(** Whatever opening a store ends with, an authority it returns covers the
    owner's history. *)
Lemma open_covered f key o create jc a :
  audited_owner run_id o -> open_inner f g producer key o create = (jc, Ok a) ->
  covered a (sn_records (ow_snapshot o)).
Proof.
  intros Hau H. unfold open_inner in H. destruct (open_checks f g producer key o create) as [[w c]|]; [|done].
  unfold mbind, jsql_bind, j_lift in H. destruct (initialize_store f g producer _ create c) as [c1 [[]|]]; [|by injection H].
  destruct (journal_load g producer (cfg_public_key w) c1) as [c2 [m|]]; [|by injection H].
  destruct (sign_reconcile m g producer (cfg_public_key w) o) as [rep|] eqn:Hrec; [|by injection H].
  destruct (journal_barrier _ _ _ _ _ c2) as [c3 [[]|]]; [|by injection H]. injection H as _ <-.
  intros k r Hk Hr. by apply (reconcile_facts run_id producer _ _ _ _ Hau Hrec).
Qed.

Lemma signer_ok_stopped a jc disk log :
  signer_ok run_id producer v (mk_signer a jc disk log) -> signer_ok run_id producer v (mk_signer None None disk log).
Proof.
  unfold signer_ok. cbn [sg_disk sg_authority sg_log sg_conn]. destruct disk as [p|]; [|by intros [_ ->]].
  intros (m & Hm & Hl & _). exists m. by split_and!.
Qed.

(** Opening the store of the configured producer. *)
Lemma open_inner_process env c file disk disk' log key o p jc r :
  start_env env c file disk -> left_behind disk disk' -> cf_producer c = Some p ->
  signer_ok run_id producer v (mk_signer None None disk log) ->
  signer_ok run_id producer v (mk_signer None None disk' log) ->
  open_inner (ld_files env) g producer key o (if pd_mode p is Create then true else false) = (jc, r) ->
  signer_ok run_id producer v (mk_signer (ok r) (after r jc) (disk_opened jc disk') log).
Proof.
  intros E Hleft Ep Hs Hs' H. destruct (pd_mode p) eqn:Em.
  - destruct (se_create _ _ _ _ E p Ep Em) as [Hn Hx]. destruct disk as [q|].
    + destruct (open_refused (ld_files env) key o true) as [e Er]; [by apply Hx|].
      rewrite Er in H. by injection H as <- <-.
    + eapply create_advances; [done|by apply Hn| |exact H|done]. destruct Hleft as [->|[_ ->]]; auto.
  - destruct (se_reopen _ _ _ _ E p Ep Em) as [Hq Hx]. destruct disk as [q|].
    + destruct Hleft as [->|[[=] _]]. unfold disk_opened.
      replace (if jc is Some c0 then Some (jcommitted c0) else Some q)
        with (Some (if jc is Some c0 then jcommitted c0 else q)) by (by destruct jc).
      eapply reopen_advances; [done|by apply Hq|exact H|done].
    + destruct (open_refused (ld_files env) key o false) as [e Er]; [by apply Hx|].
      rewrite Er in H. by injection H as <- <-.
Qed.

(** A store whose creation left an empty file is as good as none. *)
Lemma left_behind_ok disk disk' log :
  left_behind disk disk' -> signer_ok run_id producer v (mk_signer None None disk log) ->
  signer_ok run_id producer v (mk_signer None None disk' log).
Proof.
  intros [->|[-> ->]] Hs; [done|]. destruct Hs as [_ Hlog]. cbn [sg_log] in Hlog. subst log.
  exists []. split_and!; [by repeat constructor| |done].
  constructor; [constructor|by intros b Hb%not_elem_of_nil|done].
Qed.

Lemma open_signer_process env c file disk disk' log o jc res :
  start_env env c file disk -> left_behind disk disk' ->
  audited_owner run_id o -> signer_ok run_id producer v (mk_signer None None disk log) ->
  open_signer env g o (cf_producer c) = (jc, res) ->
  signer_ok run_id producer v (mk_signer None None (disk_opened jc disk') log) /\
  (forall a, res = Ok a -> signer_ok run_id producer v (mk_signer a jc (disk_opened jc disk') log) /\
     (forall x, a = Some x -> covered x (sn_records (ow_snapshot o)))).
Proof.
  intros E Hleft Hau Hs H.
  pose proof (left_behind_ok _ _ _ Hleft Hs) as Hs'.
  unfold open_signer in H. destruct (cf_producer c) as [p|] eqn:Ep.
  2:{ injection H as <- <-. split; [done|]. by intros a [= <-]. }
  destruct (key_file _ _) as [key|x]; [|by injection H as <- <-]. rewrite (se_producer _ _ _ _ E p Ep) in H.
  destruct (open_inner _ g producer key o _) as [jc1 r] eqn:Hop. injection H as <- <-.
  pose proof (open_inner_process _ _ _ _ _ _ _ _ _ _ _ E Hleft Ep Hs Hs' Hop) as Hsig.
  split; [by eapply signer_ok_stopped|]. intros a Ha. apply fmap_Ok in Ha as (x & Hx & <-).
  apply map_err_Ok in Hx as ->. split; [exact Hsig|]. intros y [= <-]. by eapply open_covered.
Qed.

Lemma node_load_ok env c file disk disk' log oc jc res :
  start_env env c file disk -> left_behind disk disk' ->
  signer_ok run_id producer v (mk_signer None None disk log) -> node_load env c = (oc, jc, res) ->
  signer_ok run_id producer v (mk_signer None None (disk_opened jc disk') log) /\
  (forall n address, res = Ok (n, address) -> process_ok n (disk_opened jc disk') log).
Proof.
  intros E Hleft Hs H. unfold node_load in H. pose proof (left_behind_ok _ _ _ Hleft Hs) as Hs'.
  destruct (_ ≫= _) as [h|x] eqn:Hpre; [|by injection H as <- <- <-].
  apply bind_Ok in Hpre as ([] & _ & Hpre). apply bind_Ok in Hpre as (bs & Hbs & Hpre).
  apply bind_Ok in Hpre as (h' & Hg & Hpre). apply bind_Ok in Hpre as ([] & _ & Hpre).
  injection Hpre as ->. apply map_err_Ok in Hg. pose proof (se_genesis _ _ _ _ E _ _ Hbs Hg) as ->.
  destruct (open_store env g (cf_mode c)) as [oc1 opened] eqn:Ho. destruct opened as [o|x]; cbn [as_app map_err] in H;
    [|by injection H as <- <- <-].
  destruct (open_store_ok env c file disk oc1 o E Ho) as [N Hat].
  destruct (open_signer env g o (cf_producer c)) as [jc1 r] eqn:Hop.
  assert (audited_owner run_id o) as Hau by (split; apply N).
  destruct (open_signer_process _ _ _ _ _ _ _ _ _ E Hleft Hau Hs Hop) as [Hs1 Hsig]. injection H as <- <- <-.
  split; [done|]. intros n address Hn. apply bind_Ok in Hn as (signer & -> & Hn).
  apply bind_Ok in Hn as ([[plan ad] sn] & _ & Hn). injection Hn as <- _.
  destruct (Hsig signer eq_refl) as [Hs2 Hcov].
  constructor; unfold node_records; cbn [nd_g nd_store nd_conn nd_signer nd_jconn nd_available]; try done.
  - by rewrite Hat.
  - by intros c0 ->.
  - intros _ a Ha _. by apply Hcov.
Qed.
End Process.
