(* ===== verification/PoashDurable.v ===== *)
(** * Durability of the process's history

    Every handler of the trial process, whatever the network, the engine and
    the operator do, leaves the canonical file storing an audited snapshot
    that extends what it stored before, and never lets the history in memory
    get ahead of it. *)

From S2P Require Import Prelude Codec Crypto BlockCommitment NativeTransaction.
From S2P Require Import NativeTransfer NativeBlock BlockAuthentication LeaderSelection.
From S2P Require Import PoashBase PoashState PoashSelection PoashGenesis PoashClaim.
From S2P Require Import PoashHistory PoashAdmission PoashApplication PoashCompound PoashChain.
From S2P Require Import PoashPeer PoashSnapshot PoashOwner PoashReplay PoashSql PoashCommit PoashFile.
From S2P Require Import PoashJournal PoashSigning PoashNode PoashProcess.

Section Durable.
  Context {JN : Journal} {JL : JournalLaws JN} {SQ : Sqlite} {SL : SqliteLaws SQ} {FN : Fenced SQ}.
  Context {KE : Keccak} {KC : K256} {KL : K256Laws KC} {DS : Describe} {HX : Hex}.
  Context {JS : Json} {KS : KeySlice}.
  Context (run_id : bytes) (Hdist : distinct_producers) (producer : bytes) (v : ValidatorConfig).
  Context (Hcfg : signing_config producer v).

Let g := genesis_of run_id.
Abbreviation process_ok := (process_ok run_id producer v).
Abbreviation holds := (holds run_id).
Abbreviation file_grows := (file_grows run_id).

(** The file behind a node: its connection shows it, and it holds the
    history in memory. *)
Record filed (n : Node) (p : Contents) : Prop := {
  fi_holds : holds (node_records n) p;
  fi_conn : forall c, nd_conn n = Some c -> committed c = p
}.

Definition file_after (n : Node) (p : Contents) : Contents :=
  if nd_conn n is Some c then committed c else p.

(** What a handler does to the file. *)
Record durable (n n' : Node) (p : Contents) : Prop := {
  du_filed : filed n' (file_after n' p);
  du_grows : file_grows p (file_after n' p);
  du_open : nd_conn n' = None -> nd_conn n = None
}.

Lemma file_after_filed n p : filed n p -> file_after n p = p.
Proof. intros [_ H]. unfold file_after. destruct (nd_conn n) as [c|]; [by apply H|done]. Qed.

(** The history and the committed contents are what they were. *)
Lemma durable_same n n' p :
  filed n p -> node_records n' = node_records n ->
  (committed <$> nd_conn n') = (committed <$> nd_conn n) -> durable n n' p.
Proof.
  intros F Er Ec. assert (file_after n' p = p) as Ef.
  { rewrite <- (file_after_filed n p F) at 2. unfold file_after.
    destruct (nd_conn n'), (nd_conn n); simpl in Ec; try done. by injection Ec. }
  constructor; rewrite ?Ef; [|done|].
  - constructor; [rewrite Er; apply F|]. intros c Hc. rewrite <- Ef. unfold file_after. by rewrite Hc.
  - intros Hn. rewrite Hn in Ec. by destruct (nd_conn n).
Qed.

Lemma durable_quiet n n' p : filed n p -> quiet n n' -> durable n n' p.
Proof.
  intros F [_ [Es Ec] _ _ _]. apply durable_same; [done| |by rewrite Ec]. unfold node_records. by rewrite Es.
Qed.

Lemma durable_staged n o p :
  filed n p -> staged_owner (nd_store n) o -> durable n (set_nd_store n o (nd_conn n)) p.
Proof.
  intros F S. apply durable_same; [done| |done]. unfold node_records. cbn [set_nd_store nd_store].
  by rewrite (sw_snapshot _ _ S).
Qed.

Lemma durable_trans n n1 n2 p : durable n n1 p -> durable n1 n2 (file_after n1 p) -> durable n n2 p.
Proof.
  intros [F1 G1 O1] [F2 G2 O2]. assert (file_after n2 (file_after n1 p) = file_after n2 p) as E.
  { unfold file_after. destruct (nd_conn n2); [done|]. by rewrite (O2 eq_refl). }
  rewrite E in *. constructor; [done|by etrans|auto].
Qed.

Lemma durable_then n n1 n2 p : durable n n1 p -> quiet n1 n2 -> durable n n2 p.
Proof. intros D Q. eapply durable_trans; [exact D|]. apply durable_quiet; [apply D|done]. Qed.

(** ** Receiving *)

Lemma commit_durable n disk log c stage o' c' out p :
  process_ok n disk log -> nd_conn n = Some c -> ow_poisoned (nd_store n) = false -> issued run_id stage ->
  filed n p -> commit describe_app (nd_store n) c stage = (o', c', out) ->
  durable n (set_nd_store n o' (Some c')) p.
Proof.
  intros P Hc Hp Hiss F H. pose proof (po_owner _ _ _ _ _ _ P) as N. rewrite Hc in N.
  pose proof (fi_conn _ _ F c Hc) as <-.
  destruct (commit_file describe_app run_id Hdist _ _ _ _ _ _ N Hiss Hp (fi_holds _ _ F) H) as [Hh G].
  constructor; unfold file_after; cbn [set_nd_store nd_conn]; [|done|done].
  constructor; [exact Hh|]. by intros c0 [= <-].
Qed.

Lemma receive_commit_durable n disk log s bs n' s' res p :
  process_ok n disk log -> live_owner run_id (nd_store n) -> filed n p ->
  receive_commit n s bs = (n', s', res) -> durable n n' p.
Proof.
  intros P Ho F H. unfold receive_commit in H. destruct (stage_received (nd_store n) bs) as [o1 staged] eqn:Hst.
  pose proof (stage_received_staged _ _ _ _ Hst) as So. set (n1 := set_nd_store n o1 (nd_conn n)) in *.
  pose proof (durable_staged n o1 p F So) as D1. fold n1 in D1. cbv zeta in H.
  assert (process_ok n1 disk log) as P1 by (by apply staged_ok).
  destruct staged as [stage|x].
  - destruct (own_application n1 stage) as [[]|]; [|by injection H as <- _ _].
    destruct (nd_conn n1) as [c|] eqn:Hc; [|by injection H as <- _ _].
    destruct (commit describe_app o1 c stage) as [[o2 c2] out] eqn:Hcm.
    assert (durable n (set_nd_store n1 o2 (Some c2)) p) as D2.
    { eapply durable_trans; [exact D1|]. eapply commit_durable; [exact P1|exact Hc| | |apply D1|exact Hcm].
      - change (nd_store n1) with o1. rewrite (sw_poisoned _ _ So). apply Ho.
      - by eapply issued_received. }
    change (set_nd_store n1 o2 (Some c2)) with (set_nd_store n o2 (Some c2)) in D2.
    destruct out; injection H as <- _ _; [done..|]. by eapply durable_then, quiet_unavailable.
  - destruct x; injection H as <- _ _; try done;
      (destruct (ow_halted o1); [|done]; by eapply durable_then, quiet_halted).
Qed.

Lemma receive_durable n disk log bs action n' res p :
  process_ok n disk log -> filed n p -> receive n bs action = (n', res) -> durable n n' p.
Proof.
  intros P F H. unfold receive in H. pose proof (durable_quiet n n p F) as D0.
  destruct (node_work n) as [[]|] eqn:Hw; [|injection H as <- _; by apply durable_same].
  destruct (working _ _ _ _ _ _ P Hw) as (Ho & _).
  destruct (as_app _) as [e|x]; [|injection H as <- _; apply durable_quiet; [done|apply quiet_log]].
  destruct (own_original n e bs) as [[]|x]; [|injection H as <- _; apply durable_quiet; [done|apply quiet_log]].
  destruct (receive_commit n _ bs) as [[n1 s1] r1] eqn:Hr. injection H as <- _.
  eapply durable_then; [by eapply receive_commit_durable|apply quiet_log].
Qed.

Lemma node_peer_durable n disk log m n' res p :
  process_ok n disk log -> filed n p -> node_peer n m = (n', res) -> durable n n' p.
Proof.
  intros P F H. unfold node_peer in H. destruct (peer_answer n m) as [n1 answer] eqn:Ha. injection H as <- _.
  unfold peer_answer in Ha. destruct (msg_kind m); try (injection Ha as <- _; by apply durable_same).
  destruct (receive n (msg_body m) "peer_receive") as [n2 r2] eqn:Hr. injection Ha as <- _. by eapply receive_durable.
Qed.

(** ** Catching up *)

Lemma catchup_round_durable net n disk log address s n' res p :
  process_ok n disk log -> filed n p -> catchup_round net n address s = (n', res) -> durable n n' p.
Proof.
  intros P F H. unfold catchup_round in H. pose proof (request_quiet n PeerKind.Get (be_bytes 8 s)) as Q.
  destruct (node_request n PeerKind.Get (be_bytes 8 s)) as [n1 made]. cbn [fst] in Q.
  pose proof (durable_quiet _ _ _ F Q) as D1.
  destruct (made ≫= _) as [bs|x]; [|by injection H as <- _].
  destruct (receive n1 bs "catchup_receive") as [n2 r2] eqn:Hr. injection H as <- _.
  eapply durable_trans; [exact D1|]. eapply receive_durable; [by eapply quiet_ok|apply D1|exact Hr].
Qed.

Lemma catchup_loop_durable fuel net n disk log address target n' res p :
  process_ok n disk log -> filed n p -> catchup_loop fuel net n address target = (n', res) -> durable n n' p.
Proof.
  revert n n' res p. induction fuel as [|fuel IH]; intros n n' res p P F H; cbn [catchup_loop] in H.
  all: destruct (node_ready n) as [sn|x] eqn:Hready; [|injection H as <- _; by apply durable_same].
  all: destruct (_ <? _)%Z; [|injection H as <- _; by apply durable_same].
  { injection H as <- _. by apply durable_same. }
  apply node_ready_ok in Hready as (_ & _ & _ & ->).
  destruct (catchup_round net n address _) as [n1 r1] eqn:Hr.
  pose proof (catchup_round_durable _ _ _ _ _ _ _ _ _ P F Hr) as D1.
  destruct (catchup_round_ok run_id Hdist producer v _ _ _ _ _ _ _ P Hr) as (P1 & _).
  destruct r1 as [[]|x]; [|by injection H as <- _]. eapply durable_trans; [exact D1|].
  eapply IH; [exact P1|apply D1|exact H].
Qed.

Lemma catchup_durable net n disk log source target_slot target_hash n' res p :
  process_ok n disk log -> filed n p -> catchup net n source target_slot target_hash = (n', res) -> durable n n' p.
Proof.
  intros P F H. unfold catchup in H.
  destruct (catchup_start n source target_slot target_hash) as [[target address]|x];
    [|injection H as <- _; by apply durable_same].
  pose proof (request_quiet n PeerKind.Status []) as Q.
  destruct (node_request n PeerKind.Status []) as [n1 made]. cbn [fst] in Q.
  pose proof (durable_quiet _ _ _ F Q) as D1.
  destruct (made ≫= _) as [[]|x]; [|by injection H as <- _].
  destruct (catchup_loop _ net n1 address target_slot) as [n2 looped] eqn:Hl. injection H as <- _.
  eapply durable_trans; [exact D1|]. eapply catchup_loop_durable; [by eapply quiet_ok|apply D1|exact Hl].
Qed.

(** ** Producing *)

Lemma commit_publish_durable net n disk log c who stage n' res p :
  process_ok n disk log -> nd_conn n = Some c -> ow_poisoned (nd_store n) = false -> issued run_id stage ->
  filed n p -> commit_publish net n c who stage = (n', res) -> durable n n' p.
Proof.
  intros P Hc Hp Hiss F H. unfold commit_publish in H.
  destruct (commit describe_app (nd_store n) c stage) as [[o1 c1] out] eqn:Hcm.
  pose proof (commit_durable _ _ _ _ _ _ _ _ _ P Hc Hp Hiss F Hcm) as D1.
  set (n1 := set_nd_store n o1 (Some c1)) in *. destruct out.
  - pose proof (publish_quiet net n1 (pos_slot position)) as Q.
    destruct (publish net n1 (pos_slot position)) as [n2 d]. injection H as <- _. by eapply durable_then.
  - injection H as <- _. by eapply durable_then, quiet_halted.
  - injection H as <- _. by eapply durable_then, quiet_unavailable.
Qed.

Lemma stage_original_durable n a report s n' res p :
  filed n p -> stage_original n a report s = (n', res) -> durable n n' p.
Proof.
  intros F H. unfold stage_original in H. destruct (_ ≫= _) as [original|x]; [|injection H as <- _; by apply durable_same].
  destruct (stage_received (nd_store n) (og_bytes original)) as [o1 staged] eqn:Hst. injection H as <- _.
  apply durable_staged; [done|]. by eapply stage_received_staged.
Qed.

Lemma sign_prepared_file entropy fuel sync1 sync2 a jc o c pb a' jc' c' res :
  sign_prepared entropy fuel sync1 sync2 a jc o c pb = (a', jc', c', res) -> committed c' = committed c.
Proof.
  unfold sign_prepared. destruct (sa_ready a o); [|by intros [= _ _ <- _]].
  destruct (signing_view o pb c) as [c1 viewed] eqn:Hv. apply signing_view_file in Hv as <-.
  destruct (sign_request a o pb viewed) as [[s r]|]; [|by intros [= _ _ <- _]].
  destruct (intent_get s (sa_intents a)); [by intros [= _ _ <- _]|].
  destruct (first_incomplete (sa_intents a)); [by intros [= _ _ <- _]|].
  destruct (sign_new _ _ _ _ a jc _ s r) as [[a1 jc1] res1]. by intros [= _ _ <- _].
Qed.

Lemma sign_seal_durable env n a jc c pb s n' res p :
  nd_conn n = Some c -> filed n p -> sign_seal env n a jc c pb s = (n', res) -> durable n n' p.
Proof.
  intros Hc F H. unfold sign_seal in H.
  destruct (sign_prepared _ _ _ _ a jc (nd_store n) c pb) as [[[a1 jc1] c1] signing] eqn:Hsg.
  apply sign_prepared_file in Hsg. set (n1 := set_nd_signer (set_nd_store n (nd_store n) (Some c1)) (Some a1) (Some jc1)) in *.
  assert (durable n n1 p) as D1.
  { apply durable_same; [done|done|]. unfold n1. cbn [set_nd_signer set_nd_store nd_conn]. rewrite Hc. cbn. by rewrite Hsg. }
  destruct signing as [[original|e]|]; [|by injection H as <- _..].
  change (nd_store n1) with (nd_store n) in H.
  destruct (seal_prepared (nd_store n) pb (og_bytes original)) as [o1 sealed] eqn:Hse. injection H as <- _.
  eapply durable_trans; [exact D1|]. apply (durable_staged n1 o1); [apply D1|]. by eapply seal_prepared_staged.
Qed.

Lemma stage_new_durable env n a sel report s n' res p :
  filed n p -> stage_new env n a sel report s = (n', res) -> durable n n' p.
Proof.
  intros F H. unfold stage_new in H. case_bool_decide; [injection H as <- _; by apply durable_same|].
  case_bool_decide; [injection H as <- _; by apply durable_quiet, quiet_halted|].
  destruct (planned_block n sel s) as [pb|x]; [|injection H as <- _; by apply durable_same].
  destruct (nd_jconn n) as [jc|]; [|injection H as <- _; by apply durable_same].
  destruct (nd_conn n) as [c|] eqn:Hc; [|injection H as <- _; by apply durable_same].
  by eapply sign_seal_durable.
Qed.

Lemma advance_run_durable env n disk log s explicit n' res p :
  process_ok n disk log -> node_work n = Ok () -> filed n p -> advance_run env n s explicit = (n', res) ->
  durable n n' p.
Proof.
  intros P Hw F H. destruct (working _ _ _ _ _ _ P Hw) as (Ho & _ & Hun). unfold advance_run in H.
  pose proof (durable_same n n p F eq_refl eq_refl) as D0.
  destruct (_ ≫= _) as [[sel a]|x] eqn:E; [|by injection H as <- _].
  apply bind_Ok in E as (view & Hv & E). apply bind_Ok in E as (sel' & Hsel & E).
  apply bind_Ok in E as (a' & Ha & E). injection E as -> ->. apply map_err_Ok in Hv, Hsel. apply ok_or_Ok in Ha.
  assert ((v ← owner_slot_start (nd_store n); protocol (view_select v)) = Ok sel) as Hsl
    by (rewrite Hv, bind_of_Ok, Hsel; done).
  assert (sa_poisoned a = false) as Hp by (unfold signer_unready in Hun; by rewrite Ha in Hun).
  case_bool_decide; [by injection H as <- _|].
  destruct (as_sign (sa_status a (nd_store n))) as [report|x]; [|by injection H as <- _].
  destruct (if explicit then _ else _) as [n1 staged] eqn:Hst.
  assert (durable n n1 p /\ (forall stage, staged = Some (Ok stage) -> committable_stage run_id n1 s stage /\
    exists disk' log', process_ok n1 disk' log')) as (D1 & Hcm).
  { destruct explicit.
    - destruct (stage_original n a report s) as [n2 r] eqn:Hor. injection Hst as <- <-.
      destruct (stage_original_ok run_id producer v _ _ _ _ _ _ _ _ P Ho Ha Hor) as (P1 & _ & _ & Hc1).
      split; [by eapply stage_original_durable|]. intros st [= ->]. split; [by apply Hc1|by exists disk, log].
    - split; [by eapply stage_new_durable|]. intros st ->.
      destruct (stage_new_ok run_id Hdist producer v Hcfg _ _ _ _ _ _ _ _ _ _ P Ho Ha Hp Hsl Hst) as ([_ P1] & _ & Hc1).
      split; [by apply Hc1|eexists _, _; exact P1]. }
  destruct staged as [[stage|x]|]; [|by injection H as <- _..].
  destruct (nd_conn n1) as [c|] eqn:Hc; [|by injection H as <- _].
  destruct (commit_publish (av_net env) n1 c (sel_owner sel) stage) as [n2 r] eqn:Hcp. injection H as <- _.
  destruct (Hcm stage eq_refl) as ([Hiss Hpo _] & disk' & log' & P1).
  eapply durable_trans; [exact D1|]. eapply commit_publish_durable; [exact P1|exact Hc|done|done|apply D1|exact Hcp].
Qed.

Lemma advance_durable env n disk log s explicit n' res p :
  process_ok n disk log -> filed n p -> node_advance env n s explicit = (n', res) -> durable n n' p.
Proof.
  intros P F H. unfold node_advance in H. pose proof (durable_same n n p F eq_refl eq_refl) as D0.
  destruct (_ ≫= _) as [t|x] eqn:E; [|by injection H as <- _].
  apply bind_Ok in E as ([] & Hw & _). destruct (_ <=? _)%Z; [by injection H as <- _|].
  case_bool_decide; [by injection H as <- _|].
  destruct (advance_run env n s explicit) as [n1 r] eqn:Hrun.
  pose proof (advance_run_durable _ _ _ _ _ _ _ _ _ P Hw F Hrun) as D1.
  destruct r as [r|]; [|by injection H as <- _]. injection H as <- _. eapply durable_then; [|apply quiet_log].
  destruct (signer_unready n1); [by eapply durable_then, quiet_unavailable|done].
Qed.

(** ** Every command *)

Lemma node_recover_durable env n disk log n' res p :
  process_ok n disk log -> filed n p -> (forall c0, rv_opened env = Ok c0 -> committed c0 = p) ->
  node_recover env n = (n', res) -> filed n' (file_after n' p) /\ file_grows p (file_after n' p).
Proof.
  intros P [Hh Hc] Hop H. unfold node_recover in H.
  destruct (recover _ _ _ _ _ _) as [[o1 c1] r1] eqn:Hr.
  destruct (recover_file describe_app run_id Hdist _ _ _ _ _ _ _ _ p (po_owner _ _ _ _ _ _ P) Hop Hc Hh Hr) as [Hh1 G1].
  set (p1 := if c1 is Some c0 then committed c0 else p) in *.
  assert (forall x : Node, nd_store x = o1 -> nd_conn x = c1 ->
    filed x (file_after x p) /\ file_grows p (file_after x p)) as Hfin.
  { intros x Es Ec. assert (file_after x p = p1) as -> by (unfold file_after; by rewrite Ec).
    split; [|done]. constructor; [unfold node_records; by rewrite Es|]. intros c0. rewrite Ec. unfold p1.
    by intros ->. }
  destruct r1 as [rep|e]; [|injection H as <- _; by apply Hfin].
  destruct (recover_signer env _) as [n2 r2] eqn:Hr2.
  assert (nd_store n2 = o1 /\ nd_conn n2 = c1) as [Es Ec].
  { unfold recover_signer in Hr2. destruct (nd_signer _); [|by injection Hr2 as <- _].
    destruct (sa_recover _ _ _ _) as [[a1 jc1] r]. by injection Hr2 as <- _. }
  destruct r2 as [report|x]; [|injection H as <- _; by apply Hfin].
  destruct (node_ready _); injection H as <- _; by apply Hfin.
Qed.

Lemma handle_durable env renv n disk log c n' res p :
  process_ok n disk log -> filed n p -> (forall c0, rv_opened renv = Ok c0 -> committed c0 = p) ->
  handle env renv n c = (n', res) -> filed n' (file_after n' p) /\ file_grows p (file_after n' p).
Proof.
  intros P F Hop H. assert (forall x, durable n x p -> filed x (file_after x p) /\ file_grows p (file_after x p)) as Hd
    by (intros x []; by split).
  destruct c; cbn [handle] in H.
  1,7,8,9,10,11: injection H as <- _; by apply Hd, durable_same.
  - by eapply Hd, advance_durable.
  - by eapply Hd, advance_durable.
  - pose proof (publish_quiet (av_net env) n slot) as Q. destruct (publish _ _ _) as [n1 r]. injection H as <- _.
    apply Hd. eapply durable_then; [by apply durable_quiet|apply quiet_log].
  - destruct (catchup _ _ _ _ _) as [n1 r] eqn:Hc. pose proof (catchup_durable _ _ _ _ _ _ _ _ _ _ P F Hc) as D.
    injection H as <- _. apply Hd. destruct r as [[]|]; [done| |done]. by eapply durable_then, quiet_halted.
  - destruct (node_recover renv n) as [n1 r] eqn:Hr. injection H as <- _. by eapply node_recover_durable.
Qed.

(** ** Starting *)

(** A canonical file whose creation failed early may exist, empty. *)
Definition left_file (file file' : option Contents) : Prop :=
  file' = file \/ file = None /\ file' = Some empty_contents.

Definition file_opened (oc : option conn) (file : option Contents) : option Contents :=
  if oc is Some c then Some (committed c) else file.

(** Starting keeps what the file holds, and a process that starts knows all
    of it. *)
Lemma node_load_durable env c file file' disk oc jc res :
  start_env run_id producer env c file disk -> left_file file file' -> node_load env c = (oc, jc, res) ->
  (forall p, file = Some p -> exists p', file_opened oc file' = Some p' /\ file_grows p p') /\
  (forall n address, res = Ok (n, address) ->
     (exists p, file_opened oc file' = Some p /\ filed n p) /\
     (forall p rs, file = Some p -> holds rs p -> rs `prefix_of` node_records n)).
Proof.
  intros E Hl H. unfold node_load in H.
  assert (forall p, file = Some p -> exists p', file_opened None file' = Some p' /\ file_grows p p') as Hnone.
  { intros p ->. destruct Hl as [->|[[=] _]]. exists p. by split. }
  destruct (_ ≫= _) as [h|x] eqn:Hpre; [|injection H as <- <- <-; by split].
  apply bind_Ok in Hpre as ([] & _ & Hpre). apply bind_Ok in Hpre as (bs & Hbs & Hpre).
  apply bind_Ok in Hpre as (h' & Hg & Hpre). apply bind_Ok in Hpre as ([] & _ & Hpre).
  injection Hpre as ->. apply map_err_Ok in Hg. pose proof (se_genesis _ _ _ _ _ _ E _ _ Hbs Hg) as ->. fold g in H.
  destruct (open_store env g (cf_mode c)) as [oc1 opened] eqn:Ho.
  assert ((forall p, file = Some p -> exists p', file_opened oc1 file' = Some p' /\ file_grows p p') /\
    (forall o, opened = Ok o -> (exists c1, oc1 = Some c1 /\ holds (sn_records (ow_snapshot o)) (committed c1)) /\
      (forall p rs, file = Some p -> holds rs p -> rs `prefix_of` sn_records (ow_snapshot o)))) as [Hkeep Hown].
  { destruct (cf_mode c) eqn:Em; cbn [open_store] in Ho.
    - destruct (se_created _ _ _ _ _ _ E Em) as [Hn Hs]. destruct file as [p|].
      { destruct (Hs ltac:(done)) as [e He]. rewrite He in Ho. injection Ho as <- <-. by split. }
      split; [done|]. intros o ->. split; [|done]. destruct (ld_opened env) as [c0|e] eqn:Eo.
      2:{ unfold create_inner in Ho. by destruct (ld_reserved env). }
      destruct (create_stored describe_app run_id Hdist _ _ _ _ _ _ (proj2 (Hn eq_refl c0 eq_refl)) Ho)
        as (c1 & -> & N & (k & _ & ->) & Hst).
      exists c1. split; [done|]. apply holds_stored; [apply N|done].
    - destruct (se_loaded _ _ _ _ _ _ E Em) as [Hp Hn]. destruct (ld_opened env) as [c0|e] eqn:Eo.
      2:{ injection Ho as <- <-. split; [exact Hnone|done]. }
      destruct file as [p|]; [|by destruct (Hn eq_refl)]. specialize (Hp p eq_refl c0 eq_refl). subst p.
      destruct (load_file describe_app run_id Hdist _ _ _ _ _ Ho) as (c1 & -> & G & Hx). split.
      + intros p [= <-]. by exists (committed c1).
      + intros o ->. split; [|intros p rs [= <-]; by apply Hx].
        destruct (load_stored describe_app run_id Hdist _ _ _ _ _ Ho) as (c2 & [= <-] & N & _ & Hst).
        exists c1. split; [done|]. apply holds_stored; [apply N|done]. }
  destruct opened as [o|x]; cbn [as_app map_err] in H; [|injection H as <- <- <-; by split].
  destruct (open_signer env g o (cf_producer c)) as [jc1 r]. injection H as <- <- <-. split; [done|].
  intros n address Hn. apply bind_Ok in Hn as (signer & -> & Hn).
  apply bind_Ok in Hn as ([[plan ad] sn] & _ & Hn). injection Hn as <- _.
  destruct (Hown o eq_refl) as ((c1 & -> & Hh) & Hall). split; [|exact Hall].
  exists (committed c1). split; [done|]. constructor; [exact Hh|]. cbn [nd_conn]. by intros c0 [= <-].
Qed.
End Durable.
