(* ===== verification/PoashWorld.v ===== *)
(** * Worlds: machines that run the trial process

    The steps of a machine (start, command, peer message, stop) and what
    holds in every world they reach, across any number of restarts and with
    any I/O results.  The theorems on publishing compose two processes over
    the peer protocol. *)

From S2P Require Import Prelude Codec Crypto BlockCommitment NativeTransaction.
From S2P Require Import NativeTransfer NativeBlock BlockAuthentication LeaderSelection.
From S2P Require Import PoashBase PoashState PoashSelection PoashGenesis PoashClaim.
From S2P Require Import PoashHistory PoashAdmission PoashApplication PoashCompound PoashChain.
From S2P Require Import PoashPeer PoashSnapshot PoashOwner PoashReplay PoashSql PoashCommit PoashFile.
From S2P Require Import PoashJournal PoashSigning PoashNode PoashProcess PoashDurable.

(** ** Worlds *)

Section World.
  Context {JN : Journal} {SQ : Sqlite} {KE : Keccak} {KC : K256} {DS : Describe} {HX : Hex}.
  Context {JS : Json} {KS : KeySlice}.
  Context (run_id producer : bytes).

(** A machine: the running process, the durable contents of its canonical file
    and of its protection store ([None] before they are created), and the
    blocks its key was used for. *)
Record world : Type := mk_world {
  w_node : option Node;
  w_file : option Contents;
  w_disk : option JournalContents;
  w_log : list C1Block
}.

(** A step: the process starts, serves an operator command or a peer message,
    or stops.  A handler that never returns is a stop inside it; a crash
    inside a handler is one whose remaining statements all fail, and a stop.
    Reopening in a recovery finds the files as they are. *)
Inductive world_step : world -> world -> Prop :=
| ws_start env c file file' disk disk' log oc jc res :
    start_env run_id producer env c file disk -> left_file file file' -> left_behind disk disk' ->
    node_load env c = (oc, jc, res) ->
    world_step (mk_world None file disk log)
      (mk_world (fst <$> ok res) (file_opened oc file') (disk_opened jc disk') log)
| ws_command env renv n c p disk log n' res :
    (forall c0, rv_opened renv = Ok c0 -> committed c0 = p) ->
    (forall jc, rv_jopened renv = Ok jc -> Some (jcommitted jc) = disk) ->
    handle env renv n c = (n', res) ->
    world_step (mk_world (Some n) (Some p) disk log)
      (mk_world (if res is Some _ then Some n' else None) (Some (file_after n' p)) (disk_after n' disk)
         (key_log n n' (command_block n c) log))
| ws_peer n m p disk log n' res :
    message_ok m -> node_peer n m = (n', res) ->
    world_step (mk_world (Some n) (Some p) disk log) (mk_world (Some n') (Some (file_after n' p)) disk log)
| ws_stop n file disk log : world_step (mk_world (Some n) file disk log) (mk_world None file disk log).

Definition fresh_world : world := mk_world None None None [].

(** A process of a reachable machine. *)
Definition running (w : world) (n : Node) : Prop :=
  rtc world_step fresh_world w /\ w_node w = Some n.
End World.

Section WorldInvariant.
  Context {JN : Journal} {JL : JournalLaws JN} {SQ : Sqlite} {SL : SqliteLaws SQ}.
  Context {KE : Keccak} {KC : K256} {KL : K256Laws KC} {DS : Describe} {HX : Hex}.
  Context {JS : Json} {KS : KeySlice}.
  Context (run_id : bytes) (Hdist : distinct_producers) (producer : bytes) (v : ValidatorConfig).
  Context (Hcfg : signing_config producer v).

Definition world_ok (w : world) : Prop :=
  match w_node w with
  | Some n => process_ok run_id producer v n (w_disk w) (w_log w)
  | None => signer_ok run_id producer v (mk_signer None None (w_disk w) (w_log w))
  end.

(** While one process runs, its canonical history only grows. *)
Definition same_process_grows (w w' : world) : Prop :=
  forall n n', w_node w = Some n -> w_node w' = Some n' -> grows n n'.

Lemma world_step_ok w w' :
  world_step run_id producer w w' -> world_ok w -> world_ok w' /\ same_process_grows w w'.
Proof.
  intros [env c file file' disk disk' log oc jc res He Hf Hl H|env renv n c p disk log n' res _ Hop H|n m p disk log n' res Hm H|n file disk log] Hw;
    unfold world_ok, same_process_grows in *; cbn [w_node w_disk w_log] in *.
  - split; [|done]. destruct (node_load_ok run_id Hdist producer v Hcfg _ _ _ _ _ _ _ _ _ He Hl Hw H) as [Hs Hp].
    destruct res as [[n address]|]; [by apply (Hp n address)|exact Hs].
  - destruct (handle_ok run_id Hdist producer v Hcfg _ _ _ _ _ _ _ _ Hw Hop H) as [G P].
    destruct res; [|by split]. split; [done|]. by intros ? ? [= <-] [= <-].
  - destruct (node_peer_ok run_id Hdist producer v _ _ _ _ _ _ Hw Hm H) as (P & S & _).
    split; [done|]. intros ? ? [= <-] [= <-]. by apply same_grows.
  - split; [|done]. eapply signer_ok_stopped, (po_signer _ _ _ _ _ _ Hw).
Qed.

Lemma reachable_world w : rtc (world_step run_id producer) fresh_world w -> world_ok w.
Proof.
  intros H. assert (world_ok fresh_world) as H0 by done. revert H0.
  induction H as [|x y z Hxy _ IH]; [done|]. intros Hx. by apply IH, (world_step_ok x).
Qed.
End WorldInvariant.

(** ** What a machine keeps *)

Section WorldFile.
  Context {JN : Journal} {JL : JournalLaws JN} {SQ : Sqlite} {SL : SqliteLaws SQ} {FN : Fenced SQ}.
  Context {KE : Keccak} {KC : K256} {KL : K256Laws KC} {DS : Describe} {HX : Hex}.
  Context {JS : Json} {KS : KeySlice}.
  Context (run_id : bytes) (Hdist : distinct_producers) (producer : bytes) (v : ValidatorConfig).
  Context (Hcfg : signing_config producer v).

Definition file_ok (w : world) : Prop :=
  forall n, w_node w = Some n -> exists p, w_file w = Some p /\ filed run_id n p.

(** The file holds the records, and a running process knows them. *)
Definition kept (rs : list BlockRecord) (w : world) : Prop :=
  (exists p, w_file w = Some p /\ holds run_id rs p) /\
  (forall n, w_node w = Some n -> rs `prefix_of` node_records n).

Lemma file_step_ok w w' :
  world_step run_id producer w w' -> world_ok run_id producer v w -> file_ok w ->
  file_ok w' /\ forall rs, kept rs w -> kept rs w'.
Proof.
  intros Hst Hw F. pose proof (world_step_ok run_id Hdist producer v Hcfg _ _ Hst Hw) as [_ Hg].
  destruct Hst as [env c file file' disk disk' log oc jc res He Hf Hl H|env renv n c p disk log n' res Hrv Hop H
    |n m p disk log n' res Hm H|n file disk log];
    unfold world_ok, file_ok, kept, same_process_grows in *; cbn [w_node w_file w_disk w_log] in *.
  - destruct (node_load_durable run_id Hdist producer env c _ _ _ _ _ _ He Hf H) as [Hkeep Hown]. split.
    + intros n Hn. destruct res as [[n1 ad]|]; [|done]. injection Hn as <-. by apply (Hown n1 ad).
    + intros rs [(p & -> & Hh) _]. destruct (Hkeep p eq_refl) as (p' & -> & G). split; [exists p'; split; [done|by apply G]|].
      intros n Hn. destruct res as [[n1 ad]|]; [|done]. injection Hn as <-. by eapply (Hown n1 ad).
  - destruct (F n eq_refl) as (q & [= <-] & Fn).
    destruct (handle_durable run_id Hdist producer v Hcfg _ _ _ _ _ _ _ _ _ Hw Fn Hrv H) as [Fn' G]. split.
    + intros n1 Hn. destruct res; [|done]. injection Hn as <-. by eexists.
    + intros rs [(q & [= <-] & Hh) Hk]. split; [eexists; split; [done|by apply G]|].
      intros n1 Hn. destruct res; [|done]. injection Hn as <-. etrans; [by apply Hk|]. by apply (Hg n n').
  - destruct (F n eq_refl) as (q & [= <-] & Fn).
    destruct (node_peer_durable run_id Hdist producer v _ _ _ _ _ _ _ Hw Fn H) as [Fn' G _]. split.
    + intros n1 [= <-]. by eexists.
    + intros rs [(q & [= <-] & Hh) Hk]. split; [eexists; split; [done|by apply G]|].
      intros n1 [= <-]. etrans; [by apply Hk|]. by apply (Hg n n').
  - split; [done|]. by intros rs [Hh _].
Qed.

Lemma reachable_file w : rtc (world_step run_id producer) fresh_world w -> file_ok w.
Proof.
  intros H. assert (world_ok run_id producer v fresh_world) as H0 by done.
  assert (file_ok fresh_world) as F0 by done. revert H0 F0.
  induction H as [|x y z Hxy _ IH]; [done|]. intros Hx Fx. apply IH.
  - by apply (world_step_ok run_id Hdist producer v Hcfg x).
  - by apply (file_step_ok x).
Qed.
End WorldFile.

(** ** Pushing to every peer *)

Section Publishing.
  Context {JN : Journal} {JL : JournalLaws JN} {SQ : Sqlite} {SL : SqliteLaws SQ}.
  Context {KE : Keccak} {KC : K256} {KL : K256Laws KC} {DS : Describe} {HX : Hex}.
  Context {JS : Json} {KS : KeySlice}.
  Context (run_id : bytes) (Hdist : distinct_producers).

Let g := genesis_of run_id.

(** The [i]-th push of a publication that starts at request [q]. *)
Definition push_message (q : Z) (i : nat) (bs : bytes) : Message := mk_message PeerKind.Push (q + Z.of_nat i + 1) bs.

(** A push that was confirmed: it went out, and the reply to it names exactly
    the pushed block and envelope. *)
Definition confirmed (net : Network) (h : Genesis) (p : PeerConfig) (s : Z) (e : C1Envelope) (m : Message) : Prop :=
  message_ok m /\ exists r, confirms s e r = true /\
    exchange (is_loopback (pc_address p)) (wi_connect (net (msg_request m))) h m
      (wi_writes (net (msg_request m))) (wi_reads (net (msg_request m))) = Ok r.

Lemma push_all_confirmed net s bs e ps n k err n' k' err' :
  (0 <= nd_request n)%Z -> push_all net n s bs e ps k err = (n', Ok (k', err')) ->
  (k' <= k + length ps)%nat /\ (err' = None -> err = None) /\
  (err' = None -> k' = (k + length ps)%nat /\ forall i p, ps !! i = Some p ->
     confirmed net (nd_g n) p s e (push_message (nd_request n) i bs)).
Proof.
  revert n k err. induction ps as [|p ps IH]; intros n k err; cbn [push_all].
  { intros _ [= <- <- <-]. split_and!; [simpl; lia|done|]. intros _. split; [simpl; lia|done]. }
  intros H0.
  unfold node_request. destruct (checked_add U64 (nd_request n) 1) as [q|] eqn:Eq; [|done].
  destruct (Message_new PeerKind.Push q bs) as [m|] eqn:Hm; [|done]. cbv zeta.
  apply checked_add_Some in Eq as [Hw ->]. set (n1 := set_nd_request n (nd_request n + 1)) in *.
  unfold node_exchange. set (ex := exchange _ _ _ _ _ _).
  destruct (if ex is Ok r then confirms s e r else false) eqn:Ec; intros (Hk & He & Hn)%IH; try (unfold n1; cbn; lia); (split_and!; [simpl; lia|..]).
  - done.
  - intros E. destruct (Hn E) as [-> Hall]. split; [simpl; lia|]. intros [|i] p' Hi; cbn [lookup list_lookup] in Hi.
    + injection Hi as <-. pose proof (Message_new_fields _ _ _ _ Hm) as (-> & Hq & _).
      assert (push_message (nd_request n) 0 bs = mk_message PeerKind.Push (nd_request n + 1) bs) as ->
        by (unfold push_message; f_equal; lia).
      split.
      * split; [exact Hm|]. cbn [msg_request]. unfold in_width. lia.
      * cbn [msg_request]. unfold ex in Ec. cbn [msg_request] in Ec.
        destruct (exchange _ _ _ _ _ _) as [r|]; [by exists r|done].
    + replace (push_message (nd_request n) (S i) bs) with (push_message (nd_request n1) i bs)
        by (unfold push_message, n1; cbn [set_nd_request nd_request]; f_equal; lia).
      by apply Hall.
  - intros E. discriminate (He E).
  - intros E. discriminate (He E).
Qed.

Lemma publish_confirmed producer v net n disk log s n' k :
  process_ok run_id producer v n disk log -> publish net n s = (n', Ok k) ->
  exists r, node_records n !! Z.to_nat (s - 1) = Some r /\
    let e := ae_envelope (br_proof r) in
    C1Envelope_from_wire_bytes (C1Envelope_wire_bytes e) = Ok e /\
    k = length (nd_peers n) /\ (0 < k)%nat /\
    forall i p, nd_peers n !! i = Some p ->
      confirmed net g p s e (push_message (nd_request n) i (C1Envelope_wire_bytes e)).
Proof.
  intros P H. unfold publish in H. destruct (canonical_original n s) as [[bs e]|] eqn:Hc; [|done].
  unfold canonical_original in Hc. apply bind_Ok in Hc as ([] & _ & Hc). apply bind_Ok in Hc as (sn & Hsn & Hc).
  apply bind_Ok in Hc as (i & Hi & Hc). apply bind_Ok in Hc as (r & Hr & Hc). apply bind_Ok in Hc as (e' & He & Hc).
  apply bind_Ok in Hc as ([] & Hp & Hc). injection Hc as <- ->. apply node_ready_ok in Hsn as (_ & _ & _ & ->).
  apply ok_or_Ok in Hi, Hr. apply map_err_Ok in He. apply checked_sub_Some in Hi as [_ ->].
  assert (r ∈ node_records n) as Hin by (by eapply list_elem_of_lookup_2).
  destruct (audited_envelope run_id Hdist _ r (no_audited _ _ _ (po_owner _ _ _ _ _ _ P)) Hin) as (_ & _ & _ & Hw & _).
  rewrite Hw in He. injection He as <-.
  destruct (push_all net n s _ _ (nd_peers n) 0 None) as [n1 [[k1 err]|]] eqn:Hpush; [|done].
  destruct err; [done|]. injection H as <- <-.
  destruct (push_all_confirmed _ _ _ _ _ _ _ _ _ _ _ (po_request _ _ _ _ _ _ P) Hpush) as (_ & _ & Hall).
  destruct (Hall eq_refl) as [-> Hcf]. rewrite (po_genesis _ _ _ _ _ _ P) in Hcf.
  exists r. cbv zeta. split_and!; try done. apply fail_if_Ok, bool_decide_eq_false in Hp.
  destruct (nd_peers n); [done|simpl; lia].
Qed.

(** A peer process whose answer reached the publisher and confirmed a push
    holds the pushed block with evidence of the same id. *)
Lemma confirmed_peer producer v net p s e m n disk log n' reply tl :
  process_ok run_id producer v n disk log -> confirmed net g p s e m ->
  C1Envelope_from_wire_bytes (msg_body m) = Ok e -> node_peer n m = (n', Ok reply) ->
  delivered (wi_reads (net (msg_request m))) = Message_bytes reply g ++ tl ->
  exists r, r ∈ node_records n' /\ br_block r = ce_block e /\
    C1Envelope_id (ae_envelope (br_proof r)) = C1Envelope_id e.
Proof.
  intros P [Hm (r & Hconf & Hex)] He Hpeer Hd.
  destruct (node_peer_ok run_id Hdist producer v _ _ _ _ _ _ P Hm Hpeer) as (P' & _ & y & [= <-] & _ & Hok & Htrue).
  assert (r = reply) as ->.
  { unfold exchange in Hex. apply bind_Ok in Hex as ([] & _ & Hex). apply bind_Ok in Hex as ([] & _ & Hex).
    apply bind_Ok in Hex as ([] & _ & Hex). apply bind_Ok in Hex as ([r' rest] & Hread & Hex).
    apply bind_Ok in Hex as ([] & _ & Hex). injection Hex as ->.
    destruct (peer_read_complete _ _ _ _ (network_length run_id) Hok Hd) as (s' & Hread' & _).
    fold g in Hread'. rewrite Hread in Hread'. by injection Hread'. }
  unfold confirms in Hconf. rewrite !andb_true_iff, !bool_decide_eq_true in Hconf.
  destruct Hconf as [[[Hk Hs] Hh] Hid]. unfold truthful in Htrue. rewrite Hk in Htrue.
  destruct Htrue as (r & new & A). exists r. pose proof (ac_record _ _ _ _ _ _ _ A) as Hin.
  pose proof (no_audited _ _ _ (po_owner _ _ _ _ _ _ P')) as Hau.
  destruct (audited_envelope run_id Hdist _ r Hau Hin) as (Hb & Hl & _).
  destruct (audited_tip run_id Hdist _ Hau) as [[_ Ht] _].
  pose proof (ac_block _ _ _ _ _ _ _ A) as Hblk. rewrite He in Hblk. injection Hblk as Hblk.
  destruct (ack_layout (br_position r) (C1Envelope_id (ae_envelope (br_proof r))) new) as (_ & _ & _ & _ & _ & L6);
    [done|apply keccak256_length|unfold in_width, MAX_SLOTS in *; lia|].
  rewrite (ac_bytes _ _ _ _ _ _ _ A) in Hid. rewrite L6 in Hid. by split_and!.
Qed.
End Publishing.

(** ** Properties *)

Section WorldProperties.
  Context {JN : Journal} {JL : JournalLaws JN} {SQ : Sqlite} {SL : SqliteLaws SQ}.
  Context {KE : Keccak} {KC : K256} {KL : K256Laws KC} {DS : Describe} {HX : Hex}.
  Context {JS : Json} {KS : KeySlice}.

Lemma running_ok run_id producer v w n :
  distinct_producers -> signing_config producer v -> running run_id producer w n ->
  process_ok run_id producer v n (w_disk w) (w_log w).
Proof.
  intros Hd Hc [H E]. pose proof (reachable_world run_id Hd producer v Hc w H) as Hw.
  unfold world_ok in Hw. by rewrite E in Hw.
Qed.

  Context (run_id producer : bytes) (v : ValidatorConfig).

Let g := genesis_of run_id.
Let pk := cfg_public_key v.

(** The original of a retained slot was signed by this machine's key. *)
Lemma retained_logged n disk log a r s :
  process_ok run_id producer v n disk log -> nd_signer n = Some a -> sa_poisoned a = false ->
  audited g (ow_snapshot (nd_store n)) -> distinct_producers -> r ∈ node_records n -> retains a s r ->
  br_block r ∈ log.
Proof.
  intros P Ha Hp Hau Hd Hin (i & Hi & Hor).
  pose proof (po_signer _ _ _ _ _ _ P) as Hs. unfold signer_ok in Hs. cbn [sg_disk sg_authority sg_conn sg_log] in Hs.
  destruct disk as [p|]; [|by destruct Hs; congruence]. destruct Hs as (m & _ & Hl & Hk).
  destruct (Hk a Ha) as [_ Hr]. destruct (Hr Hp) as (Em & _). rewrite Em in Hi.
  destruct (lg_originals _ _ _ _ _ Hl _ _ _ Hi Hor) as (proof & Hop & Hlog).
  pose proof (open_envelope_ok _ _ _ Hop) as (_ & _ & _ & _ & _ & Hw).
  destruct (audited_envelope run_id Hd _ r Hau Hin) as (_ & _ & _ & Hw' & _). rewrite Hw in Hw'.
  injection Hw' as E. unfold br_block. by rewrite <- E.
Qed.

(** C2: a producer's canonical history is exactly its own signing: in every world a
    machine can reach, through any commands, peer messages, crashes and
    restarts, the key was used for at most one block per slot, and every
    canonical block of the key that a ready process holds is one of them, with
    exactly its canonical bytes retained in the signing journal.  No peer can
    make a node extend its chain with a block of its own key it did not sign. *)
Theorem own_history_signed w n a k r :
  distinct_producers -> signing_config producer v -> running run_id producer w n ->
  nd_available n = true -> nd_signer n = Some a -> sa_poisoned a = false ->
  node_records n !! k = Some r -> hc_producer (cb_claim (br_block r)) = producer ->
  NoDup (map block_slot (w_log w)) /\ br_block r ∈ w_log w /\
  exists i, intent_get (Z.of_nat k + 1) (sa_intents a) = Some i /\
    in_original i = Some (C1Envelope_wire_bytes (ae_envelope (br_proof r))).
Proof.
  intros Hd Hc Hr Hav Ha Hp Hk Hpr. pose proof (running_ok _ _ _ _ _ Hd Hc Hr) as P.
  destruct (authority_ready run_id producer v _ _ _ _ P Ha Hp) as (jc & m & _ & Ed & _ & _ & Hao).
  destruct (po_covered _ _ _ _ _ _ P Hav a Ha Hp k r Hk) as (i & Hi & Hor);
    [by rewrite (ao_producer _ _ _ _ Hao)|].
  split_and!; [| |by exists i].
  - pose proof (po_signer _ _ _ _ _ _ P) as Hs. unfold signer_ok in Hs. cbn [sg_disk sg_log] in Hs. rewrite Ed in Hs.
    by destruct Hs as (m' & _ & [Ho _ _] & _).
  - eapply retained_logged; [exact P|done..|apply (po_owner _ _ _ _ _ _ P)|done|
      by eapply list_elem_of_lookup_2|by exists i].
Qed.

(** The invariants of the components hold together in every running process:
    the owner's snapshot is audited and what is stored is known, an uncertain
    attempt extends exactly that snapshot, and the authority knows exactly the
    durable journal unless it is blocked. *)
Theorem process_invariant w n :
  distinct_producers -> signing_config producer v -> running run_id producer w n ->
  nd_g n = g /\ node_ok run_id (nd_store n) (nd_conn n) /\
  (forall a, ow_attempt (nd_store n) = Some a -> bs_snapshot (at_base a) = ow_snapshot (nd_store n)) /\
  (forall a, nd_signer n = Some a -> exists p m, w_disk w = Some p /\ jstored g producer pk m p /\
     (sa_poisoned a = false -> sa_intents a = m)).
Proof.
  intros Hd Hc Hr. pose proof (running_ok _ _ _ _ _ Hd Hc Hr) as P. split_and!; try apply P.
  intros a Ha. pose proof (po_signer _ _ _ _ _ _ P) as Hs. unfold signer_ok in Hs.
  cbn [sg_disk sg_authority sg_conn sg_log] in Hs. destruct (w_disk w) as [p|]; [|by destruct Hs; congruence].
  destruct Hs as (m & Hm & _ & Hk). exists p, m. split_and!; [done..|]. intros Hp.
  destruct (Hk a Ha) as [_ Hkn]. by apply Hkn.
Qed.

(** C3: canonical history is durable and append-only for the life of a machine:
    whatever commands, peer messages, failed and uncertain commits, recoveries,
    stops and restarts follow, the canonical file holds every record a process
    ever had in its history, and every later process has them, in the same
    order, at the beginning of its own. *)
Theorem history_durable w w' n :
  Fenced SQ -> distinct_producers -> signing_config producer v -> running run_id producer w n ->
  rtc (world_step run_id producer) w w' ->
  (exists p, w_file w' = Some p /\ holds run_id (node_records n) p) /\
  (forall n', w_node w' = Some n' -> node_records n `prefix_of` node_records n').
Proof.
  intros FN Hd Hc [Hr En] Hs. change (kept run_id (node_records n) w').
  assert (kept run_id (node_records n) w) as Hk.
  { destruct (reachable_file run_id Hd producer v Hc w Hr n En) as (p & Hp & F).
    split; [exists p; split; [done|apply F]|]. intros n1. rewrite En. by intros [= <-]. }
  clear En. induction Hs as [w|w w1 w' Hst _ IH]; [done|]. apply IH; [by eapply rtc_r|].
  eapply (file_step_ok run_id Hd producer v Hc w w1 Hst); [by apply reachable_world|
    by eapply reachable_file|done].
Qed.

(** Every peer message is answered, with a well-formed reply of the same
    request, and the reply is true: an acknowledgement names a record of the
    receiver's history with exactly the pushed block, committed and stored
    when it is flagged new; an envelope is the retained original of the asked
    slot; a tip is the receiver's tip; a rejection changed no record. *)
Theorem peer_answered w n m n' res :
  distinct_producers -> signing_config producer v -> running run_id producer w n -> message_ok m -> node_peer n m = (n', res) ->
  exists reply, res = Ok reply /\ msg_request reply = msg_request m /\ message_ok reply /\
    truthful run_id n n' m reply.
Proof.
  intros Hd Hc Hr Hm H.
  by destruct (node_peer_ok run_id Hd producer v _ _ _ _ _ _ (running_ok _ _ _ _ _ Hd Hc Hr) Hm H) as (_ & _ & Hx).
Qed.

(** C20: catching up terminates, keeps every record it had, and succeeds only with
    the tip at exactly the pinned slot and hash, whatever the source sends. *)
Theorem catchup_exact w n net source target_slot target_hash n' res :
  distinct_producers -> signing_config producer v -> running run_id producer w n ->
  catchup net n source target_slot target_hash = (n', res) ->
  exists r, res = Some r /\ node_records n `prefix_of` node_records n' /\
    audited g (ow_snapshot (nd_store n')) /\
    (forall x, r = Ok x -> exists target, hex_decode target_hash = Some target /\
       node_tip n' = mk_position target_slot target /\ x = Reply.CaughtUp target_slot target).
Proof.
  intros Hd Hc Hr H.
  destruct (catchup_ok run_id Hd producer v _ _ _ _ _ _ _ _ _ (running_ok _ _ _ _ _ Hd Hc Hr) H) as (P & S & Hn & Hx).
  destruct res as [r|]; [|done]. exists r.
  split_and!; [done|apply S|apply (po_owner _ _ _ _ _ _ P)|]. intros x ->. by apply Hx.
Qed.

(** C19: a successful publication reached every configured peer: each push was
    confirmed, and a peer process of the run whose answer confirmed it holds
    exactly the published block, with retained evidence of the same id. *)
Theorem published_everywhere w n net s n' k :
  distinct_producers -> signing_config producer v -> running run_id producer w n -> publish net n s = (n', Ok k) ->
  exists r, node_records n !! Z.to_nat (s - 1) = Some r /\ k = length (nd_peers n) /\ (0 < k)%nat /\
    forall i p, nd_peers n !! i = Some p ->
      let m := push_message (nd_request n) i (C1Envelope_wire_bytes (ae_envelope (br_proof r))) in
      confirmed net g p s (ae_envelope (br_proof r)) m /\
      forall producer2 v2 w2 n2 n2' reply tl,
        signing_config producer2 v2 -> running run_id producer2 w2 n2 -> node_peer n2 m = (n2', Ok reply) ->
        delivered (wi_reads (net (msg_request m))) = Message_bytes reply g ++ tl ->
        exists r2, r2 ∈ node_records n2' /\ br_block r2 = br_block r /\
          C1Envelope_id (ae_envelope (br_proof r2)) = C1Envelope_id (ae_envelope (br_proof r)).
Proof.
  intros Hd Hc Hr H.
  destruct (publish_confirmed run_id Hd producer v _ _ _ _ _ _ _ (running_ok _ _ _ _ _ Hd Hc Hr) H)
    as (r & Hk & Hw & Ek & Hpos & Hall). exists r. split_and!; [done..|]. intros i p Hp. cbv zeta.
  split; [by apply Hall|]. intros producer2 v2 w2 n2 n2' reply tl Hc2 Hr2 Hpeer Hd2.
  exact (confirmed_peer run_id Hd producer2 v2 net p s _ _ n2 _ _ n2' reply tl
    (running_ok _ _ _ _ _ Hd Hc2 Hr2) (Hall i p Hp) Hw Hpeer Hd2).
Qed.
End WorldProperties.

(** ** Witnesses *)

Definition toy_texts : Describe := {|
  describe_app := toy_describe;
  describe_sign := fun _ => "signer"%string;
  describe_protocol := fun _ => "protocol"%string
|}.

(** Lower-case hex. *)
Definition nibble (b : byte) : option Z :=
  if byte_in 48 57 b then Some (byte_val b - 48)%Z
  else if byte_in 97 102 b then Some (byte_val b - 87)%Z else None.
Fixpoint toy_hex (s : bytes) : option bytes :=
  match s with
  | [] => Some []
  | [_] => None
  | a :: b :: rest =>
      x ← nibble a; y ← nibble b; bs ← toy_hex rest; Some (byte_of (16 * x + y) :: bs)
  end.
Definition hex_text (bs : bytes) : bytes :=
  let digit z := byte_of (if (z <? 10)%Z then 48 + z else 87 + z)%Z in
  concat (map (fun b => [digit (byte_val b / 16)%Z; digit (byte_val b mod 16)%Z]) bs).

#[local] Existing Instance mem_journal.
#[local] Existing Instance mem_journal_laws.
#[local] Existing Instance mem_sqlite.
#[local] Existing Instance mem_sqlite_laws.
#[local] Existing Instance toy_keccak.
#[local] Existing Instance toy_k256.
#[local] Existing Instance toy_k256_laws.
#[local] Existing Instance toy_texts.
#[local] Instance toy_hex_instance : Hex := toy_hex.
#[local] Instance toy_json : Json := fun _ => Some (replicate 200 []).
#[local] Instance toy_key_slice : KeySlice := to_b32.
#[local] Instance toy_fenced : Fenced mem_sqlite.
Proof. done. Qed.

Definition loopback (port : Z) : SocketAddr := SocketV4 (127 * 2 ^ 24 + 1) port.
(** A producer and an observer that know each other. *)
Definition toy_config_a : Config :=
  mk_config_file (str "node-a") Create (loopback 1) [mk_peer_config (str "node-b") (loopback 2)]
    (Some (mk_producer_config (str "trial-A") Create)) true.
Definition toy_config_b : Config :=
  mk_config_file (str "node-b") Create (loopback 2) [mk_peer_config (str "node-a") (loopback 1)] None false.
(** The producer again, on the files it left. *)
Definition toy_config_again : Config :=
  mk_config_file (str "node-a") Reopen (loopback 1) [mk_peer_config (str "node-b") (loopback 2)]
    (Some (mk_producer_config (str "trial-A") Reopen)) true.

Definition toy_file (bs : bytes) : result string FileRead := Ok (mk_file_read (Z.of_nat (length bs)) bs).
Definition toy_env_with (c : conn) (files : SigningFiles) : LoadEnv :=
  mk_load_env (toy_file (g_bytes toy_genesis)) (Ok ()) (Ok ()) (Ok c) (Ok ()) (Ok 1%Z)
    (Ok (true, 384%Z)) (toy_file (b32_bytes toy_key)) files (toy_file []) (Ok (loopback 1)).
Definition toy_start : LoadEnv := toy_env_with mem_empty (toy_files false mem_jempty).
Definition toy_restart (p : Contents) (q : JournalContents) : LoadEnv :=
  toy_env_with (p, None) (toy_files true (q, None)).

Abbreviation loaded := (option conn * option jconn * result string (Node * SocketAddr))%type.
Definition toy_node_a : loaded := node_load toy_start toy_config_a.
Definition toy_node_b : loaded := node_load toy_start toy_config_b.

Definition dead_net : Network := fun _ => mk_wire (Err "down"%string) [] [].
Definition toy_env : AdvanceEnv := mk_advance_env (fun _ => None) 1 (Ok ()) (Ok ()) dead_net.
Definition toy_renv : RecoverEnv :=
  mk_recover_env (Err AppError.Blocked) (Err AppError.Blocked) (Ok ()) (Err SignError.Blocked) (Ok ()).


Lemma toy_genesis_file c files bs h :
  bounded_file (ld_genesis (toy_env_with c files)) MAX_GENESIS_BYTES = Ok bs ->
  Genesis_from_bytes bs = Ok h -> h = genesis_of (str "run-1").
Proof.
  assert (bounded_file (toy_file (g_bytes toy_genesis)) MAX_GENESIS_BYTES = Ok (g_bytes toy_genesis)) as Hf
    by (vm_compute; reflexivity).
  intros E H. unfold toy_env_with in E. cbn [ld_genesis] in E. rewrite Hf in E.
  assert (bs = g_bytes toy_genesis) as -> by congruence.
  assert (Genesis_from_bytes (g_bytes toy_genesis) = Ok toy_genesis) as E'.
  { apply genesis_decode; [exact toy_keys_accepted|].
    split; [discriminate|]. split; [vm_compute; discriminate|reflexivity]. }
  rewrite E' in H. by injection H as <-.
Qed.

Lemma toy_start_a : start_env (str "run-1") (str "trial-A") toy_start toy_config_a None None.
Proof.
  constructor; [intros bs h; apply toy_genesis_file| |done|by intros p [= <-]|intros p [= <-] _|by intros p [= <-]].
  - intros _. split; [by intros _ c0 [= <-]|done].
  - split; [by intros _ jc [= <-]|done].
Qed.

Lemma toy_start_b : start_env (str "run-1") (str "trial-A") toy_start toy_config_b None None.
Proof.
  constructor; [intros bs h; apply toy_genesis_file| |done..]. intros _. split; [by intros _ c0 [= <-]|done].
Qed.

Lemma toy_start_again p q :
  start_env (str "run-1") (str "trial-A") (toy_restart p q) toy_config_again (Some p) (Some q).
Proof.
  constructor; [intros bs h; apply toy_genesis_file|done| |by intros x [= <-]|by intros x [= <-]|intros x [= <-] _].
  - intros _. split; [by intros p' [= <-] c0 [= <-]|done].
  - split; [by intros q' [= <-] jc [= <-]|done].
Qed.

Abbreviation toy_running := (running (str "run-1") (str "trial-A")).

Lemma toy_runs c oc jc n address :
  start_env (str "run-1") (str "trial-A") toy_start c None None -> node_load toy_start c = (oc, jc, Ok (n, address)) ->
  toy_running (mk_world (Some n) (file_opened oc None) (disk_opened jc None) []) n.
Proof.
  intros Hs H. split; [|reflexivity]. apply rtc_once.
  exact (ws_start _ _ toy_start c None None None None [] oc jc (Ok (n, address)) Hs (or_introl eq_refl)
    (or_introl eq_refl) H).
Qed.

(** The producer's first advance commits its block, although nobody answers,
    and a new process starts on what it left. *)
Definition restarts (n : Node) : bool :=
  match nd_conn n, nd_jconn n with
  | Some c, Some jc => is_ok (node_load (toy_restart (committed c) (jcommitted jc)) toy_config_again).2
  | _, _ => false
  end.
Definition advances_once (x : loaded) : bool :=
  if x is (Some _, _, Ok (n, _)) then
    if handle toy_env toy_renv n (Command.Advance 1) is (n', Some _) then
      if node_records n' is [r] then
        (hc_producer (cb_claim (br_block r)) ==? str "trial-A") && nd_available n' && negb (signer_unready n') &&
        contains (nd_signer n') && restarts n'
      else false
    else false
  else false.

Lemma toy_advanced : exists p disk log n a r,
  toy_running (mk_world (Some n) (Some (file_after n p)) (disk_after n disk) log) n /\
  nd_available n = true /\ nd_signer n = Some a /\ sa_poisoned a = false /\
  node_records n = [r] /\ hc_producer (cb_claim (br_block r)) = str "trial-A" /\ restarts n = true.
Proof.
  assert (advances_once toy_node_a = true) as H by (vm_compute; reflexivity).
  destruct toy_node_a as [[[oc|] jc] [[n address]|]] eqn:E; [|discriminate H..]. unfold advances_once in H.
  destruct (handle toy_env toy_renv n (Command.Advance 1)) as [n' [res|]] eqn:Eh; [|discriminate H].
  destruct (node_records n') as [|r [|]] eqn:Er; try discriminate H.
  apply andb_true_iff in H as [H H5]. apply andb_true_iff in H as [H H4]. apply andb_true_iff in H as [H H3].
  apply andb_true_iff in H as [H1 H2].
  apply bool_decide_eq_true in H1. apply negb_true_iff in H3. unfold signer_unready in H3.
  destruct (nd_signer n') as [a|] eqn:Ea; [|discriminate H4].
  destruct (toy_runs _ _ _ _ _ toy_start_a E) as [Hr _].
  eexists _, _, _, n', a, r. split; [split; [eapply rtc_r; [exact Hr|]|]|
    split_and!; [exact H2|exact Ea|exact H3|exact Er|exact H1|exact H5]].
  - refine (ws_command _ _ toy_env toy_renv n (Command.Advance 1) _ _ _ n' (Some res) _ _ Eh); intros c Ec; discriminate Ec.
  - reflexivity.
Qed.

Lemma own_history_signed_witness : exists w n a r,
  toy_running w n /\ nd_signer n = Some a /\ node_records n = [r] /\ br_block r ∈ w_log w.
Proof.
  destruct toy_advanced as (p & disk & log & n & a & r & Hr & Hav & Ha & Hp & Er & Hpr & _). eexists _, n, a, r.
  split; [exact Hr|]. split; [exact Ha|]. split; [exact Er|].
  assert (node_records n !! 0%nat = Some r) as Hk by (rewrite Er; reflexivity).
  apply (own_history_signed (str "run-1") (str "trial-A") toy_config_A _ n a 0 r toy_distinct toy_signing_config
    Hr Hav Ha Hp Hk Hpr).
Defined.

Lemma process_invariant_witness : exists w n a p m,
  toy_running w n /\ nd_signer n = Some a /\ w_disk w = Some p /\
  jstored toy_genesis (str "trial-A") KEY_A m p /\ sa_intents a = m.
Proof.
  destruct toy_advanced as (p0 & disk & log & n & a & r & Hr & Hav & Ha & Hp & Er & Hpr & _).
  destruct (process_invariant (str "run-1") (str "trial-A") toy_config_A _ n toy_distinct toy_signing_config Hr)
    as (_ & _ & _ & Hj). destruct (Hj a Ha) as (p & m & Hd & Hm & Hi).
  eexists _, n, a, p, m. split; [exact Hr|]. split; [exact Ha|]. split; [exact Hd|]. split; [exact Hm|exact (Hi Hp)].
Defined.

(** The process stops; the next one starts on its files. *)
Lemma history_durable_witness : exists w n w' n',
  toy_running w n /\ length (node_records n) = 1%nat /\ rtc (world_step (str "run-1") (str "trial-A")) w w' /\
  w_node w' = Some n' /\ nd_timings n' <> [] /\ node_records n `prefix_of` node_records n'.
Proof.
  destruct toy_advanced as (p & disk & log & n & a & r & Hr & Hav & Ha & Hp & Er & Hpr & Hre).
  unfold restarts in Hre. destruct (nd_conn n) as [c|] eqn:Ec; [|discriminate Hre].
  destruct (nd_jconn n) as [jc|] eqn:Ej; [|discriminate Hre].
  destruct (node_load _ toy_config_again) as [[oc' jc'] [[n' ad]|]] eqn:El; [|discriminate Hre].
  assert (file_after n p = committed c) as Ef by (unfold file_after; rewrite Ec; reflexivity).
  assert (disk_after n disk = Some (jcommitted jc)) as Ed by (unfold disk_after; rewrite Ej; reflexivity).
  rewrite Ef, Ed in Hr. set (w := mk_world _ _ _ _) in Hr.
  pose proof (ws_start _ _ _ _ _ _ _ _ log oc' jc' _ (toy_start_again _ _) (or_introl eq_refl) (or_introl eq_refl) El) as St.
  set (w' := mk_world _ _ _ _) in St at 2.
  assert (rtc (world_step (str "run-1") (str "trial-A")) w w') as Hs.
  { eapply rtc_l; [apply ws_stop|]. apply rtc_once. exact St. }
  exists w, n, w', n'. split; [exact Hr|]. split; [rewrite Er; reflexivity|]. split; [exact Hs|].
  split; [reflexivity|]. split.
  { unfold node_load in El. destruct (_ ≫= _) as [g|] in El; [|discriminate El].
    destruct (open_store _ g _) as [oc1 [o|]] in El; [|discriminate El]. cbn [as_app map_err] in El.
    destruct (open_signer _ g o _) as [jc1 r1] in El. injection El as _ _ El. apply bind_Ok in El as (sg & _ & El).
    apply bind_Ok in El as ([[pl ad'] sn] & _ & El). injection El as <- _. discriminate. }
  exact (proj2 (history_durable (str "run-1") (str "trial-A") toy_config_A w w' n toy_fenced toy_distinct
    toy_signing_config Hr Hs) n' eq_refl).
Defined.

(** ** Two processes talking *)

(** A connection that carries [m] to node [n] and its answer back. *)
Definition answered (n : Node) (m : Message) : Wire :=
  if (node_peer n m).2 is Ok reply
  then mk_wire (Ok ()) [Accepted 5000] [Chunk (Message_bytes reply toy_genesis)]
  else mk_wire (Err "down"%string) [] [].

Definition is_kind (k : peer_kind) (r : result string Message) : bool :=
  if r is Ok reply then msg_kind reply ==? k else false.

(** [a] advances, then [b] receives its block; [b] catches up from [a]. *)
Definition toy_push (a : Node) : Message :=
  push_message (nd_request a) 0
    (if node_records a !! 0%nat is Some r then C1Envelope_wire_bytes (ae_envelope (br_proof r)) else []).
Definition serving (a : Node) : Network := fun q =>
  answered a (if (q =? 1)%Z then mk_message PeerKind.Status q [] else mk_message PeerKind.Get q (be_bytes 8 1)).

#[local] Instance message_ok_dec m : Decision (message_ok m).
Proof. unfold message_ok. apply _. Defined.

Definition talks (xa xb : loaded) : bool :=
  match xa, xb with
  | (Some _, _, Ok (a, _)), (Some _, _, Ok (b, _)) =>
      if handle toy_env toy_renv a (Command.Advance 1) is (a', Some _) then
        is_kind PeerKind.Ack (node_peer b (toy_push a')).2 &&
        bool_decide (message_ok (toy_push a')) &&
        (if publish (fun _ => answered b (toy_push a')) a' 1 is (_, Ok 1%nat) then true else false) &&
        (if catchup (serving a') b (str "node-a") 1 (hex_text (pos_hash (node_tip a'))) is (_, Some (Ok _))
         then true else false)
      else false
  | _, _ => false
  end.

Lemma toy_pair : exists wa a wb b,
  toy_running wa a /\ toy_running wb b /\ message_ok (toy_push a) /\
  is_kind PeerKind.Ack (node_peer b (toy_push a)).2 = true /\
  (if publish (fun _ => answered b (toy_push a)) a 1 is (_, Ok 1%nat) then true else false) = true /\
  (if catchup (serving a) b (str "node-a") 1 (hex_text (pos_hash (node_tip a))) is (_, Some (Ok _))
   then true else false) = true.
Proof.
  assert (talks toy_node_a toy_node_b = true) as H by (vm_compute; reflexivity).
  destruct toy_node_a as [[[oa|] ja] [[a0 pa]|]] eqn:Ea; [|discriminate H..].
  destruct toy_node_b as [[[ob|] jb] [[b pb]|]] eqn:Eb; [|discriminate H..]. unfold talks in H.
  destruct (handle toy_env toy_renv a0 (Command.Advance 1)) as [a [res|]] eqn:Eh; [|discriminate H].
  apply andb_true_iff in H as [H H5]. apply andb_true_iff in H as [H H4]. apply andb_true_iff in H as [H1 H3].
  apply bool_decide_eq_true in H3.
  pose proof (toy_runs _ _ _ _ _ toy_start_a Ea) as [Hr _]. pose proof (toy_runs _ _ _ _ _ toy_start_b Eb) as Hb.
  eexists _, a, _, b. split; [|split; [exact Hb|split_and!; [exact H3|exact H1|exact H4|exact H5]]].
  split; [eapply rtc_r; [exact Hr|]|].
  - refine (ws_command _ _ toy_env toy_renv a0 (Command.Advance 1) _ _ _ a (Some res) _ _ Eh); intros c Ec; discriminate Ec.
  - reflexivity.
Qed.

Lemma peer_answered_witness : exists wb b m b' reply r,
  toy_running wb b /\ node_peer b m = (b', Ok reply) /\ msg_kind reply = PeerKind.Ack /\ r ∈ node_records b'.
Proof.
  destruct toy_pair as (wa & a & wb & b & _ & Hb & Hm & Hk & _).
  destruct (node_peer b (toy_push a)) as [b' res] eqn:E. cbn [snd] in Hk.
  destruct (peer_answered (str "run-1") (str "trial-A") toy_config_A wb b _ b' res toy_distinct toy_signing_config
    Hb Hm E) as (reply & Er & _ & _ & Ht). subst res. cbn [is_kind] in Hk. apply bool_decide_eq_true in Hk.
  unfold truthful in Ht. rewrite Hk in Ht. destruct Ht as (r & new & A).
  exists wb, b, (toy_push a), b', reply, r.
  split; [exact Hb|]. split; [exact E|]. split; [exact Hk|exact (ac_record _ _ _ _ _ _ _ A)].
Defined.

Lemma catchup_exact_witness : exists wb b net h b' target,
  toy_running wb b /\ (catchup net b (str "node-a") 1 h).1 = b' /\ hex_decode h = Some target /\
  node_tip b' = mk_position 1 target.
Proof.
  destruct toy_pair as (wa & a & wb & b & _ & Hb & _ & _ & _ & Hc).
  destruct (catchup (serving a) b (str "node-a") 1 (hex_text (pos_hash (node_tip a)))) as [b' [[x|]|]] eqn:E;
    try discriminate Hc.
  destruct (catchup_exact (str "run-1") (str "trial-A") toy_config_A wb b _ _ _ _ b' _ toy_distinct toy_signing_config
    Hb E) as (r & Er & _ & _ & Hx). injection Er as <-. destruct (Hx x eq_refl) as (target & Hh & Ht & _).
  eexists wb, b, _, _, b', target. split; [exact Hb|]. rewrite E. split; [reflexivity|]. split; [exact Hh|exact Ht].
Defined.

(** The producer's block reached the observer. *)
Lemma delivered_chunk (m : Message) :
  delivered [Chunk (Message_bytes m toy_genesis)] = Message_bytes m toy_genesis ++ [].
Proof.
  assert (length (Message_bytes m toy_genesis) <> 0)%nat as Hl.
  { unfold Message_bytes. rewrite length_app, (length_header toy_genesis) by apply keccak256_length. discriminate. }
  destruct (Message_bytes m toy_genesis); [by destruct Hl|]. reflexivity.
Qed.

Lemma published_everywhere_witness : exists wa a wb b b' r r2,
  toy_running wa a /\ toy_running wb b /\ node_records a !! 0%nat = Some r /\
  b' = (node_peer b (toy_push a)).1 /\ r2 ∈ node_records b' /\ br_block r2 = br_block r.
Proof.
  destruct toy_pair as (wa & a & wb & b & Ha & Hb & Hm & Hk & Hp & _).
  destruct (publish (fun _ => answered b (toy_push a)) a 1) as [a' [k|]] eqn:E; [|discriminate Hp].
  destruct (published_everywhere (str "run-1") (str "trial-A") toy_config_A wa a _ 1 a' k toy_distinct
    toy_signing_config Ha E) as (r & Hr & Ek & Hpos & Hall).
  destruct (nd_peers a) as [|p ps] eqn:Eps; [rewrite Ek in Hpos; inversion Hpos|].
  destruct (Hall 0%nat p eq_refl) as [[Hok (rep & Hcf & Hex)] Hpeer].
  assert (toy_push a = push_message (nd_request a) 0 (C1Envelope_wire_bytes (ae_envelope (br_proof r)))) as Em.
  { unfold toy_push. change (Z.to_nat (1 - 1)) with 0%nat in Hr. rewrite Hr. reflexivity. }
  cbv zeta in Hpeer. rewrite <- Em in Hpeer.
  destruct (node_peer b (toy_push a)) as [b' res] eqn:Eb. destruct res as [reply|]; [|discriminate Hk].
  destruct (Hpeer (str "trial-A") toy_config_A wb b b' reply [] toy_signing_config Hb Eb) as (r2 & Hin & Hblk & _).
  { unfold answered. rewrite Eb. cbn [snd wi_reads]. exact (delivered_chunk _). }
  exists wa, a, wb, b, b', r, r2. rewrite Eb.
  split; [exact Ha|]. split; [exact Hb|]. split; [exact Hr|]. split; [reflexivity|]. split; [exact Hin|exact Hblk].
Defined.
