(* ===== verification/PoashRun.v ===== *)
(** * The event loop of the trial process (src/src/native_poash/trial.rs,
      [Operator] and [run])

    Three threads share two standard streams: a reader that cuts standard
    input into frames, the main thread that polls the operator channels and
    the listening socket, and a writer that prints one answer at a time.
    They talk over three bounded channels of capacity one.  A state of the
    loop is a world of PoashWorld with the channels, the position of each
    thread and the bytes printed so far; a step is one channel operation or
    one request served, so that the threads interleave in every way.

    The theorems show that the two streams are those of a sequential server
    that reads a request, serves it and prints the answer before the next one
    ([run_refines_server]), that handing an answer to the writer never fails,
    that answers are printed in the order of the requests, one per request,
    and that the frames of both streams are read back as written. *)

From S2P Require Import Prelude Codec Crypto BlockCommitment NativeTransaction.
From S2P Require Import NativeTransfer NativeBlock BlockAuthentication LeaderSelection.
From S2P Require Import PoashBase PoashState PoashSelection PoashGenesis PoashClaim.
From S2P Require Import PoashHistory PoashAdmission PoashApplication PoashCompound PoashChain.
From S2P Require Import PoashPeer PoashSnapshot PoashOwner PoashReplay PoashSql PoashCommit PoashFile.
From S2P Require Import PoashJournal PoashSigning PoashNode PoashProcess PoashDurable PoashWorld.

(** ** Channels of capacity one ([std::sync::mpsc::sync_channel(1)]) *)

Record Channel (A : Type) : Type := mk_channel {
  ch_items : list A;
  ch_sender : bool;
  ch_receiver : bool
}.
Arguments mk_channel {A} _ _ _.
Arguments ch_items {A} _.
Arguments ch_sender {A} _.
Arguments ch_receiver {A} _.

Inductive received (A : Type) : Type :=
| Item (a : A) (rest : list A)
| Empty
| Disconnected.
Arguments Item {A} _ _.
Arguments Empty {A}.
Arguments Disconnected {A}.

Definition sync_channel {A} : Channel A := mk_channel [] true true.
Definition set_items {A} (c : Channel A) (l : list A) : Channel A := mk_channel l (ch_sender c) (ch_receiver c).
Definition drop_sender {A} (c : Channel A) : Channel A := mk_channel (ch_items c) false (ch_receiver c).
Definition drop_receiver {A} (c : Channel A) : Channel A := mk_channel (ch_items c) (ch_sender c) false.

(** A send finds room, or blocks; [try_send] fails where it would block. *)
Definition has_room {A} (c : Channel A) : bool := (length (ch_items c) <? 1)%nat.
Definition try_send {A} (c : Channel A) (a : A) : option (Channel A) :=
  if ch_receiver c && has_room c then Some (set_items c (ch_items c ++ [a])) else None.
Definition try_recv {A} (c : Channel A) : received A :=
  match ch_items c with
  | a :: rest => Item a rest
  | [] => if ch_sender c then Empty else Disconnected
  end.

(** ** The operator's side of the process *)

(** serde_json: requests, and the texts of answers. *)
Class OperatorJson : Type := {
  parse_command : bytes -> option command;
  parse_config : bytes -> option Config;
  json_ok : reply -> bytes;
  json_fail : bytes -> bytes;
  json_ready : bytes -> SocketAddr -> bytes -> bytes
}.

Record Operator : Type := mk_operator {
  op_input : Channel (result string (option bytes));
  op_output : Channel bytes;
  op_ack : Channel (result string ());
  op_busy : bool
}.

(** [Operator::start], [send] and [poll] *)
Definition operator_start : Operator := mk_operator sync_channel sync_channel sync_channel false.
Definition operator_send (o : Operator) (text : bytes) : result string Operator :=
  output ← ok_or (try_send (op_output o) text) "C1 bounded operator writer"%string;
  Ok (mk_operator (op_input o) output (op_ack o) true).
Definition operator_poll (o : Operator) : result string Operator :=
  if op_busy o then
    match try_recv (op_ack o) with
    | Item r rest => r;; Ok (mk_operator (op_input o) (op_output o) (set_items (op_ack o) rest) false)
    | Empty => Ok o
    | Disconnected => Err "C1 operator writer stopped"%string
    end
  else Ok o.

(** [ok] and [fail] *)
Definition answer_text `{OperatorJson} (r : result string reply) : bytes :=
  match r with
  | Ok v => json_ok v
  | Err e => json_fail (fail_text (str e))
  end.

(** What [run] does before the node is loaded. *)
Definition run_config `{OperatorJson} (args : nat) (f : result string FileRead) : result string Config :=
  fail_if (negb (args =? 1)%nat) "usage: native_poash_node CONFIG.json"%string;;
  bs ← bounded_file f 16384;
  ok_or (parse_config bs) "strict C1 configuration"%string.

(** The frame of a text, as both streams carry it. *)
Definition local_frame (text : bytes) : bytes := be_bytes 4 (Z.of_nat (length text)) ++ text.

(** ** The three threads *)

(** Where the writer is: waiting, printing, reporting, or gone. *)
Inductive Writer : Type :=
| WIdle
| WPrinting (text : bytes)
| WReporting (r : result string ())
| WGone.

(** Where the main thread is in its loop; [MDrain] is the wait after a stop. *)
Inductive Main : Type :=
| MPoll
| MInput
| MAccept
| MDrain
| MExit (r : result string ()).

Section Run.
  Context {JN : Journal} {SQ : Sqlite} {KE : Keccak} {KC : K256} {DS : Describe} {HX : Hex}.
  Context {JS : Json} {KS : KeySlice} {OJ : OperatorJson}.
  Context (run_id producer : bytes).

(** [rs_log]: the requests taken so far, each with the text it was answered
    with; [rs_ready] is the first text.  [rs_stdin] is what the reader has not
    read yet, [None] once it ended. *)
Record RunState : Type := mk_run {
  rs_world : world;
  rs_main : Main;
  rs_op : Operator;
  rs_stdin : option bytes;
  rs_writer : Writer;
  rs_stdout : bytes;
  rs_ready : bytes;
  rs_log : list (bytes * bytes)
}.

(** The reader: one frame, the end or a failure, sent when there is room. *)
Definition reader_sends (r : RunState) (value : result string (option bytes)) (rest : option bytes) : RunState :=
  let input := op_input (rs_op r) in
  let input := set_items input (ch_items input ++ [value]) in
  let input := if rest is Some _ then input else drop_sender input in
  mk_run (rs_world r) (rs_main r)
    (mk_operator input (op_output (rs_op r)) (op_ack (rs_op r)) (op_busy (rs_op r)))
    rest (rs_writer r) (rs_stdout r) (rs_ready r) (rs_log r).

Definition reader_value (stream : bytes) : result string (option bytes) * option bytes :=
  match read_local stream with
  | Ok (Some (frame, rest)) => (Ok (Some frame), Some rest)
  | Ok None => (Ok None, None)
  | Err e => (Err e, None)
  end.

(** The writer and the main thread move. *)
Definition writer_moves (r : RunState) (op : Operator) (w : Writer) (out : bytes) : RunState :=
  mk_run (rs_world r) (rs_main r) op (rs_stdin r) w (rs_stdout r ++ out) (rs_ready r) (rs_log r).
Definition main_moves (r : RunState) (m : Main) (op : Operator) : RunState :=
  mk_run (rs_world r) m op (rs_stdin r) (rs_writer r) (rs_stdout r) (rs_ready r) (rs_log r).
Definition main_serves (r : RunState) (w : world) (m : Main) (op : Operator) (log : list (bytes * bytes)) : RunState :=
  mk_run w m op (rs_stdin r) (rs_writer r) (rs_stdout r) (rs_ready r) (rs_log r ++ log).

(** Taking the next item of the input. *)
Definition take_input (o : Operator) (rest : list (result string (option bytes))) : Operator :=
  mk_operator (set_items (op_input o) rest) (op_output o) (op_ack o) (op_busy o).

(** What the main thread does with the operator after [send]. *)
Definition after_send (o : Operator) (text : bytes) (stop : bool) : Main * Operator :=
  match operator_send o text with
  | Ok o => (if stop then MDrain else MAccept, o)
  | Err e => (MExit (Err e), o)
  end.

Definition is_stop (c : command) : bool := if c is Command.Stop then true else false.

(** Serving one request: the answer, and the world after it. *)
Inductive serves : world -> bytes -> bytes -> bool -> world -> Prop :=
| sv_schema w bs :
    parse_command bs = None -> serves w bs (json_fail (fail_text (str "strict C1 command schema"))) false w
| sv_command env renv n p disk log c n' res bs :
    parse_command bs = Some c ->
    (forall c0, rv_opened renv = Ok c0 -> committed c0 = p) ->
    (forall jc, rv_jopened renv = Ok jc -> Some (jcommitted jc) = disk) ->
    handle env renv n c = (n', Some res) ->
    serves (mk_world (Some n) (Some p) disk log) bs (answer_text res) (is_stop c)
      (mk_world (Some n') (Some (file_after n' p)) (disk_after n' disk) (key_log n n' (command_block n c) log)).

(** One accepted connection: a peer whose frame is complete is answered, and
    nobody waits for the answer to arrive. *)
Inductive accepts : world -> world -> Prop :=
| ac_ignored w : accepts w w
| ac_refused w n address reads e :
    w_node w = Some n -> is_loopback address = true -> peer_read reads (nd_g n) = Err e -> accepts w w
| ac_answered n p disk log address reads m rest n' res :
    is_loopback address = true -> peer_read reads (nd_g n) = Ok (m, rest) -> node_peer n m = (n', res) ->
    accepts (mk_world (Some n) (Some p) disk log) (mk_world (Some n') (Some (file_after n' p)) disk log).

Inductive run_step : RunState -> RunState -> Prop :=
| rn_read r stream :
    rs_stdin r = Some stream -> has_room (op_input (rs_op r)) = true ->
    run_step r (reader_sends r (reader_value stream).1 (reader_value stream).2)
| rn_read_failed r stream e :
    rs_stdin r = Some stream -> has_room (op_input (rs_op r)) = true -> run_step r (reader_sends r (Err e) None)
| rn_print r text rest :
    rs_writer r = WIdle -> try_recv (op_output (rs_op r)) = Item text rest ->
    run_step r (writer_moves r (mk_operator (op_input (rs_op r)) (set_items (op_output (rs_op r)) rest)
                                  (op_ack (rs_op r)) (op_busy (rs_op r))) (WPrinting text) [])
| rn_printed r text frame :
    rs_writer r = WPrinting text -> write_local text = Ok frame ->
    run_step r (writer_moves r (rs_op r) (WReporting (Ok ())) frame)
| rn_not_printed r text e sent rest :
    rs_writer r = WPrinting text -> (if write_local text is Ok frame then frame = sent ++ rest else sent = []) ->
    run_step r (writer_moves r (rs_op r) (WReporting (Err e)) sent)
| rn_report r x :
    rs_writer r = WReporting x -> has_room (op_ack (rs_op r)) = true ->
    let ack := set_items (op_ack (rs_op r)) (ch_items (op_ack (rs_op r)) ++ [x]) in
    run_step r (writer_moves r
      (mk_operator (op_input (rs_op r)) (if x is Ok _ then op_output (rs_op r) else drop_receiver (op_output (rs_op r)))
         (if x is Ok _ then ack else drop_sender ack) (op_busy (rs_op r)))
      (if x is Ok _ then WIdle else WGone) [])
| rn_poll r :
    rs_main r = MPoll ->
    run_step r (match operator_poll (rs_op r) with
                | Ok o => main_moves r (if op_busy o then MAccept else MInput) o
                | Err e => main_moves r (MExit (Err e)) (rs_op r)
                end)
| rn_command r bs rest text stop w m o :
    rs_main r = MInput -> try_recv (op_input (rs_op r)) = Item (Ok (Some bs)) rest ->
    serves (rs_world r) bs text stop w -> after_send (take_input (rs_op r) rest) text stop = (m, o) ->
    run_step r (main_serves r w m o [(bs, text)])
| rn_input r :
    rs_main r = MInput ->
    (if try_recv (op_input (rs_op r)) is Item (Ok (Some _)) _ then False else True) ->
    run_step r (match try_recv (op_input (rs_op r)) with
                | Item (Err e) _ => main_moves r (MExit (Err e)) (rs_op r)
                | Empty => main_moves r MAccept (rs_op r)
                | _ => main_moves r (MExit (Ok ())) (rs_op r)
                end)
| rn_accept r w : rs_main r = MAccept -> accepts (rs_world r) w -> run_step r (main_serves r w MPoll (rs_op r) [])
| rn_listener r e : rs_main r = MAccept -> run_step r (main_moves r (MExit (Err e)) (rs_op r))
| rn_drain r :
    rs_main r = MDrain -> op_busy (rs_op r) = true ->
    run_step r (match operator_poll (rs_op r) with
                | Ok o => main_moves r MDrain o
                | Err e => main_moves r (MExit (Err e)) (rs_op r)
                end)
| rn_stop r : rs_main r = MDrain -> run_step r (main_moves r (MExit (Ok ())) (rs_op r)).

(** The loop starts on a loaded node with the ready text handed over. *)
Definition run_start (w : world) (n : Node) (address : SocketAddr) (stdin : bytes) (r : RunState) : Prop :=
  let text := json_ready (nd_id n) address (pol_network (g_policy (nd_g n))) in
  running run_id producer w n /\
  exists o, operator_send operator_start text = Ok o /\
    r = mk_run w MPoll o (Some stdin) WIdle [] text [].

(** A state some start leads to. *)
Definition run_reaches (w : world) (stdin : bytes) (r : RunState) : Prop :=
  exists n address r0, run_start w n address stdin r0 /\ rtc run_step r0 r.

(** ** The sequential server

    One thread and no channels: requests are served one after the other, each
    by the node as the previous ones and the peers' messages left it, and
    nothing after a stop.  The list pairs every request with its answer. *)

Definition stops (bs : bytes) : bool := if parse_command bs is Some c then is_stop c else false.
Definition stopped (session : list (bytes * bytes)) : bool := existsb (fun x => stops x.1) session.

Inductive server (w0 : world) : list (bytes * bytes) -> world -> Prop :=
| sr_start : server w0 [] w0
| sr_unreadable session w bs :
    server w0 session w -> stopped session = false -> parse_command bs = None ->
    server w0 (session ++ [(bs, json_fail (fail_text (str "strict C1 command schema")))]) w
| sr_command session env renv n p disk log c n' res bs :
    server w0 session (mk_world (Some n) (Some p) disk log) -> stopped session = false ->
    parse_command bs = Some c ->
    (forall c0, rv_opened renv = Ok c0 -> committed c0 = p) ->
    (forall jc, rv_jopened renv = Ok jc -> Some (jcommitted jc) = disk) ->
    handle env renv n c = (n', Some res) ->
    server w0 (session ++ [(bs, match res with Ok v => json_ok v | Err e => json_fail (fail_text (str e)) end)])
      (mk_world (Some n') (Some (file_after n' p)) (disk_after n' disk) (key_log n n' (command_block n c) log))
| sr_peer session n p disk log m n' res :
    server w0 session (mk_world (Some n) (Some p) disk log) -> stopped session = false ->
    message_ok m -> node_peer n m = (n', res) ->
    server w0 session (mk_world (Some n') (Some (file_after n' p)) disk log).
End Run.

(** ** The frames of the two streams *)

Lemma local_frame_width (text : bytes) :
  (Z.of_nat (length text) <= MAX_JSON)%Z ->
  be_val (be_bytes 4 (Z.of_nat (length text))) = Z.of_nat (length text).
Proof. intros H. apply (be_val_bytes_width 4 U32); [done|]. unfold in_width, MAX_JSON in *. lia. Qed.

Lemma read_local_frame text rest :
  text <> [] -> (Z.of_nat (length text) <= MAX_JSON)%Z ->
  read_local (local_frame text ++ rest) = Ok (Some (text, rest)).
Proof.
  intros Hn Hb. unfold local_frame. rewrite <- app_assoc.
  set (s := be_bytes 4 (Z.of_nat (length text)) ++ text ++ rest).
  assert (take 4 s = be_bytes 4 (Z.of_nat (length text))) as Et by (by apply take_app_length'; rewrite length_be_bytes).
  assert (drop 4 s = text ++ rest) as Ed by (by apply drop_app_length'; rewrite length_be_bytes).
  assert (4 <= length s)%nat as Hl by (unfold s; rewrite length_app, length_be_bytes; lia).
  assert (0 < length text)%nat as Hp by (destruct text; [done|simpl; lia]).
  unfold read_local. destruct s as [|b s']; [simpl in Hl; lia|].
  rewrite (proj2 (Nat.ltb_ge _ 4)) by done. cbn [fail_if]. rewrite bind_of_Ok. cbv zeta.
  rewrite Et, Ed, local_frame_width by done.
  rewrite (bool_decide_eq_false_2 (Z.of_nat (length text) = 0)%Z) by lia.
  rewrite (proj2 (Z.ltb_ge MAX_JSON _)) by done. cbn [orb fail_if]. rewrite bind_of_Ok.
  rewrite (proj2 (Z.ltb_ge _ (Z.of_nat (length text)))) by (rewrite length_app; lia).
  cbn [fail_if]. rewrite bind_of_Ok, Nat2Z.id, take_app_length, drop_app_length. done.
Qed.

Lemma read_local_ok s text rest :
  read_local s = Ok (Some (text, rest)) ->
  s = local_frame text ++ rest /\ text <> [] /\ (Z.of_nat (length text) <= MAX_JSON)%Z.
Proof.
  destruct s as [|b s']; [done|]. unfold read_local. remember (b :: s') as s eqn:Es. clear Es b s'. cbv zeta.
  intros ([] & H1 & H)%bind_Ok. apply bind_Ok in H as ([] & H2 & H). apply bind_Ok in H as ([] & H3 & H).
  injection H as <- <-. apply fail_if_Ok in H1, H2, H3. apply Nat.ltb_ge in H1. apply Z.ltb_ge in H3.
  apply orb_false_iff in H2 as [H2 H2']. apply bool_decide_eq_false in H2. apply Z.ltb_ge in H2'.
  set (len := be_val (take 4 s)) in *. pose proof (be_val_range (take 4 s)) as Hr. fold len in Hr.
  assert (length (take (Z.to_nat len) (drop 4 s)) = Z.to_nat len) as El by (rewrite length_take; lia).
  split_and!.
  - unfold local_frame. rewrite El, Z2Nat.id by lia. unfold len.
    assert (be_bytes 4 (be_val (take 4 s)) = take 4 s) as ->.
    { apply be_bytes_val. by rewrite length_take_le by lia. }
    by rewrite <- app_assoc, !take_drop.
  - intros E. rewrite E in El. simpl in El. lia.
  - rewrite El, Z2Nat.id by lia. done.
Qed.

Lemma write_local_ok text frame :
  write_local text = Ok frame -> frame = local_frame text /\ (Z.of_nat (length text) <= MAX_JSON)%Z.
Proof.
  unfold write_local. intros ([] & H & E)%bind_Ok. injection E as <-. apply fail_if_Ok, Z.ltb_ge in H. done.
Qed.

(** ** The channels *)

Definition printed (texts : list bytes) : bytes := concat (map local_frame texts).

Lemma printed_app a b : printed (a ++ b) = printed a ++ printed b.
Proof. unfold printed. by rewrite map_app, concat_app. Qed.

(** Where the one answer in flight is: queued, being printed, printed or
    failed, reported.  [texts] are the answers handed over so far, [out] what
    is printed, [alive] whether the writer still runs. *)
Inductive phase : bool -> list bytes -> Writer -> list (result string ()) -> list bytes -> bytes -> bool -> Prop :=
| ph_idle ts : phase false [] WIdle [] ts (printed ts) true
| ph_queued ts t : phase true [t] WIdle [] (ts ++ [t]) (printed ts) true
| ph_printing ts t : phase true [] (WPrinting t) [] (ts ++ [t]) (printed ts) true
| ph_printed ts : phase true [] (WReporting (Ok ())) [] ts (printed ts) true
| ph_failed ts t e sent rest :
    local_frame t = sent ++ rest -> phase true [] (WReporting (Err e)) [] (ts ++ [t]) (printed ts ++ sent) true
| ph_reported ts : phase true [] WIdle [Ok ()] ts (printed ts) true
| ph_gone ts t e sent rest :
    local_frame t = sent ++ rest -> phase true [] WGone [Err e] (ts ++ [t]) (printed ts ++ sent) false.

(** The frames still queued for the main thread. *)
Definition queued (items : list (result string (option bytes))) : list bytes :=
  omap (fun x => if x is Ok (Some f) then Some f else None) items.

Section RunInvariant.
  Context {JN : Journal} {SQ : Sqlite} {KE : Keccak} {KC : K256} {DS : Describe} {HX : Hex}.
  Context {JS : Json} {KS : KeySlice} {OJ : OperatorJson}.

Definition texts (r : RunState) : list bytes := rs_ready r :: map snd (rs_log r).

(** The operator side of a state, [stdin] being the whole input. *)
Record operator_ok (stdin : bytes) (r : RunState) : Prop := {
  ok_phase : phase (op_busy (rs_op r)) (ch_items (op_output (rs_op r))) (rs_writer r) (ch_items (op_ack (rs_op r)))
    (texts r) (rs_stdout r) (ch_receiver (op_output (rs_op r)));
  ok_alive : ch_sender (op_ack (rs_op r)) = ch_receiver (op_output (rs_op r));
  ok_input : rs_main r = MInput -> op_busy (rs_op r) = false;
  ok_taken : exists tail,
    stdin = printed (map fst (rs_log r)) ++ printed (queued (ch_items (op_input (rs_op r)))) ++ tail /\
    (forall rest, rs_stdin r = Some rest -> tail = rest)
}.

Lemma queued_app a b : queued (a ++ b) = queued a ++ queued b.
Proof. unfold queued. apply omap_app. Qed.

(** Handing over an answer when nothing is in flight. *)
Lemma send_idle o text :
  ch_items (op_output o) = [] -> ch_receiver (op_output o) = true ->
  operator_send o text = Ok (mk_operator (op_input o) (set_items (op_output o) [text]) (op_ack o) true).
Proof. intros Hi Hr. unfold operator_send, try_send, has_room. by rewrite Hi, Hr. Qed.

Lemma phase_idle out w ack ts s alive : phase false out w ack ts s alive ->
  out = [] /\ w = WIdle /\ ack = [] /\ s = printed ts /\ alive = true.
Proof. inversion 1. done. Qed.

(** Polling. *)
Lemma poll_ok stdin r :
  operator_ok stdin r ->
  match operator_poll (rs_op r) with
  | Ok o => op_input o = op_input (rs_op r) /\
      phase (op_busy o) (ch_items (op_output o)) (rs_writer r) (ch_items (op_ack o)) (texts r) (rs_stdout r)
        (ch_receiver (op_output o)) /\
      ch_sender (op_ack o) = ch_receiver (op_output o)
  | Err e => ch_items (op_ack (rs_op r)) = [Err e]
  end.
Proof.
  intros [Hp Ha _ _]. revert Hp. generalize (texts r). intros ts Hp. unfold operator_poll, try_recv.
  destruct r as [w m [inp [out os alive] [ack as_ ar] busy] si wr so rd lg]. simpl in *. subst as_.
  inversion Hp; subst; simpl; split_and?; done || by econstructor.
Qed.

Lemma reader_ok stdin r stream v rest :
  operator_ok stdin r -> rs_stdin r = Some stream ->
  (forall s, rest = Some s -> exists f, v = Ok (Some f) /\ stream = local_frame f ++ s) ->
  (rest = None -> queued [v] = []) ->
  operator_ok stdin (reader_sends r v rest).
Proof.
  intros [Hp Ha Hi (tail & Ht & Hs)] Hstdin Hv Hn. pose proof (Hs stream Hstdin) as ->.
  constructor; unfold texts in *; cbn [reader_sends rs_op rs_main rs_writer rs_stdout rs_stdin rs_ready rs_log op_busy op_output op_ack op_input]; [done..|].
  assert (ch_items (if rest is Some _ then set_items (op_input (rs_op r)) (ch_items (op_input (rs_op r)) ++ [v])
    else drop_sender (set_items (op_input (rs_op r)) (ch_items (op_input (rs_op r)) ++ [v]))) =
    ch_items (op_input (rs_op r)) ++ [v]) as -> by (by destruct rest).
  rewrite queued_app, printed_app. destruct rest as [s|].
  - destruct (Hv s eq_refl) as (f & -> & ->). exists s. split; [|by intros ? [= <-]].
    rewrite Ht, <- !app_assoc. unfold printed at 4. cbn. by rewrite app_nil_r.
  - rewrite (Hn eq_refl). exists stream. split; [|done]. by rewrite Ht, app_nil_r.
Qed.

Lemma texts_serves r w m o log : texts (main_serves r w m o log) = texts r ++ map snd log.
Proof. unfold texts. cbn. by rewrite map_app. Qed.

Lemma command_ok stdin r bs rest text stop w m o :
  operator_ok stdin r -> rs_main r = MInput -> try_recv (op_input (rs_op r)) = Item (Ok (Some bs)) rest ->
  after_send (take_input (rs_op r) rest) text stop = (m, o) ->
  operator_ok stdin (main_serves r w m o [(bs, text)]).
Proof.
  intros [Hp Ha Hi (tail & Ht & Hs)] Hm Hin Hsend. rewrite (Hi Hm) in Hp.
  apply phase_idle in Hp as (Eo & Ew & Ek & Est & Eal).
  unfold after_send in Hsend. rewrite send_idle in Hsend by done. injection Hsend as <- <-.
  constructor.
  - rewrite texts_serves. cbn. rewrite Eal, Ew, Ek, Est. exact (ph_queued (texts r) text).
  - exact Ha.
  - by destruct stop.
  - exists tail. cbn [main_serves rs_log rs_op rs_stdin op_input take_input set_items ch_items].
    split; [|done]. unfold try_recv in Hin.
    destruct (ch_items (op_input (rs_op r))) as [|x items] eqn:Eit; [by destruct (ch_sender (op_input (rs_op r)))|]. injection Hin as -> ->.
    rewrite Ht, map_app, printed_app, <- app_assoc. f_equal.
    change (queued (Ok (Some bs) :: rest)) with ([bs] ++ queued rest). by rewrite printed_app, <- app_assoc.
Qed.

Lemma run_step_operator stdin r r' : run_step r r' -> operator_ok stdin r -> operator_ok stdin r'.
Proof.
  intros Hst I. destruct Hst as [r stream Hs Hroom|r stream e Hs Hroom|r text rest Hw Hin|r text frame Hw Hf
    |r text e sent rest Hw Hf|r x Hw Hroom ack|r Hm|r bs rest text stop w m o Hm Hin Hsv Hsend|r Hm Hin
    |r w Hm Hac|r e Hm|r Hm Hb|r Hm].
  - apply (reader_ok stdin r stream); [done..| |]; unfold reader_value;
      destruct (read_local stream) as [[[f s]|]|e] eqn:E; cbn; try done.
    intros s' [= <-]. exists f. split; [done|]. by apply read_local_ok in E as [? _].
  - by apply (reader_ok stdin r stream).
  - destruct I as [Hp Ha Hi Ht]. constructor; cbn; try done. unfold texts in *. cbn. rewrite app_nil_r.
    unfold try_recv in Hin. rewrite Hw in Hp. destruct (ch_items (op_output (rs_op r))) as [|t out] eqn:Eit; [by destruct (ch_sender (op_output (rs_op r)))|].
    injection Hin as -> ->. inversion Hp; subst. constructor.
  - destruct I as [Hp Ha Hi Ht]. constructor; cbn; try done. unfold texts in *. cbn. rewrite Hw in Hp.
    apply write_local_ok in Hf as [-> _]. inversion Hp; subst.
    replace (printed ts ++ local_frame text) with (printed (ts ++ [text]))
      by (rewrite printed_app; unfold printed at 2; cbn; by rewrite app_nil_r).
    constructor.
  - destruct I as [Hp Ha Hi Ht]. constructor; cbn; try done. unfold texts in *. cbn. rewrite Hw in Hp.
    inversion Hp; subst. destruct (write_local text) as [frame|] eqn:E.
    + apply write_local_ok in E as [-> _]. by eapply ph_failed.
    + subst sent. eapply ph_failed. reflexivity.
  - subst ack. destruct I as [Hp Ha Hi Ht]. remember (texts r) as ts0 eqn:Ets.
    destruct r as [w m [inp [out os alive] [ack as_ ar] busy] si wr so rd lg]. unfold texts in Ets. simpl in *. subst as_ wr.
    inversion Hp; subst; constructor; unfold texts; simpl; rewrite ?app_nil_r; try done;
      [apply ph_reported|]. match goal with E : _ = _ :: map _ _ |- _ => rewrite <- E end. by eapply ph_gone.
  - pose proof (poll_ok stdin r I) as P. destruct I as [Hp Ha Hi Ht]. destruct (operator_poll (rs_op r)) as [o|e].
    + destruct P as (Ei & Hp' & Ha'). constructor; unfold texts in *; cbn; [done..| |by rewrite Ei].
      by destruct (op_busy o).
    + by constructor.
  - by eapply command_ok.
  - destruct I as [Hp Ha Hi Ht]. destruct (try_recv _) as [[[?|]|]| |]; by constructor.
  - destruct I as [Hp Ha Hi Ht]. constructor; rewrite ?texts_serves; cbn; rewrite ?app_nil_r; done.
  - destruct I as [Hp Ha Hi Ht]. by constructor.
  - pose proof (poll_ok stdin r I) as P. destruct I as [Hp Ha Hi Ht]. destruct (operator_poll (rs_op r)) as [o|e].
    + destruct P as (Ei & Hp' & Ha'). constructor; unfold texts in *; cbn; [done..|by rewrite Ei].
    + by constructor.
  - destruct I as [Hp Ha Hi Ht]. by constructor.
Qed.

End RunInvariant.

(** ** Properties *)

Section RunProperties.
  Context {JN : Journal} {JL : JournalLaws JN} {SQ : Sqlite} {SL : SqliteLaws SQ}.
  Context {KE : Keccak} {KC : K256} {KL : K256Laws KC} {DS : Describe} {HX : Hex}.
  Context {JS : Json} {KS : KeySlice} {OJ : OperatorJson}.
  Context (run_id producer : bytes) (v : ValidatorConfig).

Abbreviation steps := (rtc (world_step run_id producer)).

Lemma serves_step w bs text stop w' : serves w bs text stop w' -> steps w w' /\ (w_node w <> None -> w_node w' <> None).
Proof.
  intros [|env renv n p disk log c n' res bs0 _ Ho Hj H]; [by split|]. split; [|done].
  apply rtc_once. exact (ws_command _ _ env renv n c p disk log n' (Some res) Ho Hj H).
Qed.

Lemma accepts_step w w' :
  world_ok run_id producer v w -> accepts w w' -> steps w w' /\ (w_node w <> None -> w_node w' <> None).
Proof.
  intros Hw H. revert Hw.
  destruct H as [w0|w0 n address reads e|n p disk log address reads m rest n' res Hl Hr Hp]; intros Hw; [by split..|].
  split; [|done]. eapply rtc_once, ws_peer; [|exact Hp]. unfold world_ok in Hw. cbn in Hw.
  eapply peer_read_ok, Hr. rewrite (po_genesis _ _ _ _ _ _ Hw). apply (network_length run_id).
Qed.

(** The first state, and what every step keeps. *)
Lemma start_operator w n address stdin r : run_start run_id producer w n address stdin r -> operator_ok stdin r.
Proof.
  intros [_ (o & [= <-] & ->)]. constructor; cbn; [|done..|].
  - exact (ph_queued [] _).
  - exists stdin. split; [done|]. by intros rest [= <-].
Qed.

Lemma reaches_operator w stdin r : run_reaches run_id producer w stdin r -> operator_ok stdin r.
Proof.
  intros (n & address & r0 & Hs & Hr). apply start_operator in Hs.
  induction Hr as [|x y z Hxy _ IH]; [done|]. apply IH. by eapply run_step_operator.
Qed.

(** The loop up to now: [w] is the world it started in. *)
Record loop_ok (w : world) (r : RunState) : Prop := {
  lp_start : steps fresh_world w;
  lp_world : steps w (rs_world r);
  lp_node : w_node (rs_world r) <> None;
  lp_log : forall bs text, (bs, text) ∈ rs_log r ->
    exists w1 w2 stop, steps w w1 /\ serves w1 bs text stop w2 /\ steps w2 (rs_world r)
}.

(** A step of the loop that serves nothing. *)
Lemma loop_same w r r' : loop_ok w r -> rs_world r' = rs_world r -> rs_log r' = rs_log r -> loop_ok w r'.
Proof. intros [H0 H1 H2 H3] Ew El. constructor; rewrite ?Ew, ?El; done. Qed.

Lemma loop_serves w r r' w' log :
  loop_ok w r -> rs_world r' = w' -> rs_log r' = rs_log r ++ log -> steps (rs_world r) w' -> w_node w' <> None ->
  (forall bs text, (bs, text) ∈ log -> exists stop, serves (rs_world r) bs text stop w') -> loop_ok w r'.
Proof.
  intros [H0 H1 H2 H3] Ew El Hs Hn Hl. constructor; rewrite ?Ew, ?El; [done|by etrans|done|].
  intros bs text [Hin|Hin]%elem_of_app.
  - destruct (H3 _ _ Hin) as (w1 & w2 & stop & ? & ? & ?). exists w1, w2, stop. split_and!; [done..|by etrans].
  - destruct (Hl _ _ Hin) as [stop Hsv]. exists (rs_world r), w', stop. by split_and!.
Qed.

Lemma run_step_loop w r r' :
  distinct_producers -> signing_config producer v -> run_step r r' -> loop_ok w r -> loop_ok w r'.
Proof.
  intros Hd Hc Hst L. assert (world_ok run_id producer v (rs_world r)) as Hw
    by (apply (reachable_world run_id Hd producer v Hc); etrans; apply L).
  destruct Hst as [| | | | | |r Hm|r bs rest text stop w' m o Hm Hin Hsv Hsend|r Hm Hin|r w' Hm Hac|r e Hm|r Hm Hb|r Hm];
    try (by eapply loop_same).
  - destruct (operator_poll (rs_op r)); by eapply loop_same.
  - pose proof (serves_step _ _ _ _ _ Hsv) as [Hs Hn]. eapply (loop_serves _ _ _ w' [(bs, text)]); [done..|by apply Hn, L|].
    intros b t Hx%list_elem_of_singleton. injection Hx as -> ->. by exists stop.
  - destruct (try_recv _) as [[[?|]|]| |]; by eapply loop_same.
  - pose proof (accepts_step _ _ Hw Hac) as [Hs Hn]. eapply (loop_serves _ _ _ w' []); [done..|by apply Hn, L|].
    by intros b t Hx%not_elem_of_nil.
  - destruct (operator_poll (rs_op r)); by eapply loop_same.
Qed.

Lemma reaches_loop w stdin r :
  distinct_producers -> signing_config producer v -> run_reaches run_id producer w stdin r -> loop_ok w r.
Proof.
  intros Hd Hc (n & address & r0 & Hs & Hr).
  assert (loop_ok w r0) as L.
  { destruct Hs as [[Hw Hn] (o & _ & ->)]. constructor; cbn; [done|done|by rewrite Hn|by intros b t Hx%not_elem_of_nil]. }
  clear Hs. induction Hr as [|x y z Hxy _ IH]; [done|]. by apply IH, (run_step_loop w x).
Qed.

(** The session so far is one of the sequential server, and a stop ends it. *)
Record serial_ok (w : world) (r : RunState) : Prop := {
  so_server : server w (rs_log r) (rs_world r);
  so_stop : stopped (rs_log r) = true -> rs_main r = MDrain \/ exists e, rs_main r = MExit e
}.

Lemma stopped_app a b : stopped (a ++ b) = stopped a || stopped b.
Proof. apply existsb_app. Qed.

(** A thread other than main moves, or main moves without serving. *)
Lemma serial_same w r r' :
  serial_ok w r -> rs_world r' = rs_world r -> rs_log r' = rs_log r ->
  rs_main r' = rs_main r \/ rs_main r' = MDrain \/ (exists e, rs_main r' = MExit e) \/
    rs_main r = MPoll \/ rs_main r = MInput \/ rs_main r = MAccept ->
  serial_ok w r'.
Proof.
  intros [Hs Hp] Ew El Hm. constructor; rewrite ?Ew, ?El; [done|]. intros Hst. specialize (Hp Hst).
  destruct Hm as [-> |[-> |[[e ->]|Hm]]]; [done|by left|by right; eexists|].
  exfalso. destruct Hm as [E|[E|E]]; rewrite E in Hp; destruct Hp as [?|[e ?]]; congruence.
Qed.

Lemma serial_running w r :
  serial_ok w r -> rs_main r = MInput \/ rs_main r = MAccept -> stopped (rs_log r) = false.
Proof.
  intros [_ Hp] Hm. destruct (stopped (rs_log r)); [|done]. exfalso.
  destruct (Hp eq_refl) as [E|[e E]], Hm as [E'|E']; congruence.
Qed.

Lemma serves_server w0 session w bs text stop w' :
  server w0 session w -> stopped session = false -> serves w bs text stop w' ->
  server w0 (session ++ [(bs, text)]) w' /\ stop = stops bs.
Proof.
  intros Hs Hn Hv. unfold stops. revert Hs.
  destruct Hv as [w bs0 E|env renv n p disk log c n' res bs0 E Ho Hj H]; intros Hs; rewrite E; split; try done.
  - by apply sr_unreadable.
  - by eapply sr_command.
Qed.

Lemma accepts_server w0 session w w' :
  world_ok run_id producer v w -> server w0 session w -> stopped session = false -> accepts w w' ->
  server w0 session w'.
Proof.
  intros Hw Hs Hn H. revert Hw Hs.
  destruct H as [w1|w1 n address reads e|n p disk log address reads m rest n' res Hl Hr Hp]; intros Hw Hs; [done..|].
  eapply sr_peer; [exact Hs|done| |exact Hp]. unfold world_ok in Hw. cbn in Hw.
  eapply peer_read_ok, Hr. rewrite (po_genesis _ _ _ _ _ _ Hw). apply (network_length run_id).
Qed.

Lemma run_step_serial w r r' :
  distinct_producers -> signing_config producer v -> loop_ok w r -> run_step r r' -> serial_ok w r -> serial_ok w r'.
Proof.
  intros Hd Hc L Hst S. assert (world_ok run_id producer v (rs_world r)) as Hw
    by (apply (reachable_world run_id Hd producer v Hc); etrans; apply L).
  destruct Hst as [| | | | | |r Hm|r bs rest text stop w' m o Hm Hin Hsv Hsend|r Hm Hin|r w' Hm Hac|r e Hm|r Hm Hb|r Hm];
    try (by eapply serial_same; [done..|left]).
  - destruct (operator_poll (rs_op r)); eapply serial_same; eauto 10.
  - pose proof (serial_running _ _ S (or_introl Hm)) as Hn.
    destruct (serves_server _ _ _ _ _ _ _ (so_server _ _ S) Hn Hsv) as [Hs' ->]. constructor; [done|].
    cbn [main_serves rs_log rs_main]. rewrite stopped_app, Hn. cbn [stopped existsb orb fst]. rewrite orb_false_r.
    intros Hst. rewrite Hst in Hsend. unfold after_send in Hsend. destruct (operator_send _ _); injection Hsend as <- _; eauto.
  - destruct (try_recv _) as [[[?|]|]| |]; eapply serial_same; eauto 10.
  - pose proof (serial_running _ _ S (or_intror Hm)) as Hn.
    constructor; cbn [main_serves rs_log rs_main rs_world]; rewrite app_nil_r; [exact (accepts_server _ _ _ _ Hw (so_server _ _ S) Hn Hac)|].
    by rewrite Hn.
  - eapply serial_same; eauto 10.
  - destruct (operator_poll (rs_op r)); eapply serial_same; eauto 10.
  - eapply serial_same; eauto 10.
Qed.

Lemma reaches_serial w stdin r :
  distinct_producers -> signing_config producer v -> run_reaches run_id producer w stdin r -> serial_ok w r.
Proof.
  intros Hd Hc (n & address & r0 & Hs & Hr).
  assert (serial_ok w r0) as S by (destruct Hs as [_ (o & _ & ->)]; constructor; [apply sr_start|done]).
  assert (loop_ok w r0) as L by (eapply (reaches_loop w stdin r0); [done..|]; exists n, address, r0; by split).
  clear Hs. induction Hr as [|x y z Hxy _ IH]; [done|].
  apply IH; [by apply (run_step_serial w x)|by apply (run_step_loop w x)].
Qed.

(** An answer in flight can be printed to its end. *)
Lemma answer_completes stdin r :
  operator_ok stdin r -> Forall (fun t => (Z.of_nat (length t) <= MAX_JSON)%Z) (texts r) ->
  rs_writer r <> WGone -> (forall e, rs_writer r <> WReporting (Err e)) ->
  exists r', rtc run_step r r' /\ rs_world r' = rs_world r /\ rs_log r' = rs_log r /\
    rs_stdout r' = printed (texts r).
Proof.
  intros [Hp _ _ _] Hb Hg He. remember (texts r) as ts0 eqn:Ets.
  assert (forall t, t ∈ ts0 -> write_local t = Ok (local_frame t)) as Hw.
  { intros t Ht. rewrite Forall_forall in Hb. unfold write_local.
    by rewrite (proj2 (Z.ltb_ge MAX_JSON _)) by (by apply Hb). }
  assert (forall ts t, printed ts ++ local_frame t = printed (ts ++ [t])) as Hpr
    by (intros ts t; rewrite printed_app; unfold printed at 3; cbn; by rewrite app_nil_r).
  clear Ets Hb. destruct r as [w m [inp [out os alive] [ack as_ ar] busy] si wr so rd lg]. simpl in *.
  inversion Hp; subst; try done; try (by eexists; split; [apply rtc_refl|]).
  - eexists. split; [eapply rtc_l; [by eapply rn_print|]; apply rtc_once; eapply rn_printed;
      [reflexivity|apply Hw, elem_of_app; right; left]|]. cbn. by rewrite app_nil_r, Hpr.
  - eexists. split; [apply rtc_once; eapply rn_printed; [reflexivity|apply Hw, elem_of_app; right; left]|].
    cbn. by rewrite Hpr.
  - by destruct (He e).
Qed.

(** C21: the event loop refines a sequential server: however its three threads
    interleave, there is a session of the server from the same world such
    that the requests it served are exactly the frames consumed from standard
    input, in their order, standard output is its ready text and its answers
    frame by frame, in the order of the requests, up to a suffix of the last
    frame, the process has reached the server's world (one the machine
    reaches, with the node running), and nothing follows a stop.  A request is taken only when every
    earlier answer is completely printed; and unless the writer failed or an
    answer exceeds the frame limit, the answer in flight can be printed to its
    end. *)
Theorem run_refines_server w stdin r :
  distinct_producers -> signing_config producer v -> run_reaches run_id producer w stdin r ->
  exists session tail missing,
    server w session (rs_world r) /\ stdin = printed (map fst session) ++ tail /\
    printed (rs_ready r :: map snd session) = rs_stdout r ++ missing /\
    (missing = [] \/ exists earlier answer sent, rs_ready r :: map snd session = earlier ++ [answer] /\
       local_frame answer = sent ++ missing) /\
    (rs_main r = MInput -> missing = [] /\ stopped session = false) /\
    (Forall (fun t => (Z.of_nat (length t) <= MAX_JSON)%Z) (rs_ready r :: map snd session) ->
     rs_writer r <> WGone -> (forall e, rs_writer r <> WReporting (Err e)) ->
     exists r', rtc run_step r r' /\ rs_world r' = rs_world r /\ rs_stdout r' = rs_stdout r ++ missing) /\
    rtc (world_step run_id producer) w (rs_world r) /\ exists n, running run_id producer (rs_world r) n.
Proof.
  intros Hd Hc H. pose proof (reaches_operator w stdin r H) as I. pose proof (reaches_serial w stdin r Hd Hc H) as S.
  destruct (reaches_loop w stdin r Hd Hc H) as [H0 H1 H2 _]. destruct (ok_taken _ _ I) as (tail & Ht & _).
  assert (exists missing, printed (texts r) = rs_stdout r ++ missing /\
    (missing = [] \/ exists earlier answer sent, texts r = earlier ++ [answer] /\ local_frame answer = sent ++ missing) /\
    (op_busy (rs_op r) = false -> missing = [])) as (missing & E & Hm & Hi).
  { pose proof (ok_phase _ _ I) as Hp.
    assert (forall ts t, printed (ts ++ [t]) = printed ts ++ local_frame t) as Hpr
      by (intros ts t; rewrite printed_app; unfold printed at 2; cbn; by rewrite app_nil_r).
    inversion Hp as [ts|ts t|ts t|ts|ts t e sent rest Hf|ts|ts t e sent rest Hf]; subst.
    1,4,6: exists []; rewrite app_nil_r; by split_and!; [|left|].
    1,2: exists (local_frame t); split_and!; [by rewrite Hpr|right; by exists ts, t, []|done].
    all: exists rest; split_and!; [by rewrite Hpr, Hf, app_assoc|right; by exists ts, t, sent|done]. }
  exists (rs_log r), (printed (queued (ch_items (op_input (rs_op r)))) ++ tail), missing.
  split_and!; [apply (so_server _ _ S)|done|done|done| | |done|].
  - intros Hmi. split; [by apply Hi, (ok_input _ _ I)|]. exact (serial_running _ _ S (or_introl Hmi)).
  - intros Hb Hg He. destruct (answer_completes stdin r I Hb Hg He) as (r' & Hr & Ew & _ & Eo).
    exists r'. split_and!; [done..|]. by rewrite Eo.
  - destruct (w_node (rs_world r)) as [n|] eqn:En; [|done]. exists n. split; [by etrans|done].
Qed.

(** Handing over an answer never fails: whenever the main thread takes a
    request, nothing is in flight and the writer is waiting, so the bounded
    channel accepts the answer; and a poll fails only with an error the
    writer itself reported, never because the writer is gone. *)
Theorem operator_never_refused w stdin r :
  run_reaches run_id producer w stdin r ->
  (rs_main r = MInput -> rs_writer r = WIdle /\ forall text, exists o, operator_send (rs_op r) text = Ok o) /\
  (forall e, operator_poll (rs_op r) = Err e -> ch_items (op_ack (rs_op r)) = [Err e]).
Proof.
  intros H. pose proof (reaches_operator w stdin r H) as I. split.
  - intros Hm. pose proof (ok_phase _ _ I) as Hp. rewrite (ok_input _ _ I Hm) in Hp.
    apply phase_idle in Hp as (Eo & Ew & _ & _ & Eal). split; [done|]. intros text.
    rewrite send_idle by done. by eexists.
  - intros e He. pose proof (poll_ok stdin r I) as P. by rewrite He in P.
Qed.

End RunProperties.

(** Framing of the operator's streams: what [write_local] prints for a
    non-empty text, [read_local] reads back, whatever follows; a frame that is
    read is exactly such a frame; an empty stream is the end of the input. *)
Theorem local_framing stream text rest :
  (read_local stream = Ok (Some (text, rest)) <->
   text <> [] /\ exists frame, write_local text = Ok frame /\ stream = frame ++ rest) /\
  (read_local stream = Ok None <-> stream = []).
Proof.
  split; split.
  - intros (-> & Hn & Hb)%read_local_ok. split; [done|]. exists (local_frame text). split; [|done].
    unfold write_local. by rewrite (proj2 (Z.ltb_ge MAX_JSON _)).
  - intros (Hn & frame & (-> & Hb)%write_local_ok & ->). by apply read_local_frame.
  - destruct stream as [|b s]; [done|]. unfold read_local. remember (b :: s) as l. clear.
    intros H. apply bind_Ok in H as ([] & _ & H). cbv zeta in H. apply bind_Ok in H as ([] & _ & H).
    apply bind_Ok in H as ([] & _ & H). discriminate H.
  - by intros ->.
Qed.

(** ** Witnesses *)

#[local] Existing Instance mem_journal.
#[local] Existing Instance mem_journal_laws.
#[local] Existing Instance mem_sqlite.
#[local] Existing Instance mem_sqlite_laws.
#[local] Existing Instance toy_keccak.
#[local] Existing Instance toy_k256.
#[local] Existing Instance toy_k256_laws.
#[local] Existing Instance toy_texts.
#[local] Existing Instance toy_hex_instance.
#[local] Existing Instance toy_json.
#[local] Existing Instance toy_key_slice.

(** A one-byte request stops the process. *)
#[local] Instance toy_operator_json : OperatorJson := {|
  parse_command bs := if (length bs =? 1)%nat then Some Command.Stop else None;
  parse_config _ := None;
  json_ok _ := str "ok";
  json_fail e := str "fail " ++ e;
  json_ready _ _ _ := str "ready"
|}.

Abbreviation toy_reaches := (run_reaches (str "run-1") (str "trial-A")).

(** The ready text is printed and reported, then a stop is read and answered. *)
Lemma toy_loop p disk log n :
  toy_running (mk_world (Some n) (Some p) disk log) n ->
  let w := mk_world (Some n) (Some p) disk log in
  let stdin := local_frame [x53] in
  (exists r, toy_reaches w stdin r /\ rs_main r = MInput) /\
  (exists r, toy_reaches w stdin r /\ rs_main r = MExit (Ok ()) /\ rs_log r = [([x53], str "ok")] /\
     rs_stdout r = printed [str "ready"; str "ok"]).
Proof.
  intros Hr w stdin.
  pose (o1 := mk_operator sync_channel (set_items sync_channel [str "ready"]) sync_channel true).
  pose (r0 := mk_run w MPoll o1 (Some stdin) WIdle [] (str "ready") []).
  assert (run_start (str "run-1") (str "trial-A") w n (loopback 1) stdin r0) as Hs by (split; [exact Hr|by exists o1]).
  assert (exists r, rtc run_step r0 r /\ r = mk_run w MInput operator_start (Some stdin) WIdle
    (local_frame (str "ready")) (str "ready") []) as (r & Hsteps & Er).
  { eexists. split.
    - eapply rtc_l; [by eapply rn_print|]. eapply rtc_l; [by eapply rn_printed|].
      eapply rtc_l; [by eapply rn_report|]. eapply rtc_l; [by eapply rn_poll|]. apply rtc_refl.
    - reflexivity. }
  split; [exists r; split; [by exists n, (loopback 1), r0|by subst r]|].
  assert (exists r2, rtc run_step r r2 /\ rs_main r2 = MExit (Ok ()) /\ rs_log r2 = [([x53], str "ok")] /\
    rs_stdout r2 = printed [str "ready"; str "ok"]) as (r2 & Hsteps2 & Hr2).
  { assert (serves w [x53] (str "ok") true (mk_world (Some n) (Some (file_after n p)) (disk_after n disk)
      (key_log n n (command_block n Command.Stop) log))) as Hserve.
    { refine (sv_command toy_env toy_renv n p disk log Command.Stop n (Ok Reply.Stopped) [x53] eq_refl _ _ eq_refl);
        intros c Ec; discriminate Ec. }
    subst r. eexists. split.
    - eapply rtc_l; [by eapply rn_read|].
      eapply rtc_l; [eapply rn_command; [reflexivity|reflexivity|exact Hserve|reflexivity]|].
      eapply rtc_l; [by eapply rn_print|]. eapply rtc_l; [by eapply rn_printed|].
      eapply rtc_l; [by eapply rn_report|]. eapply rtc_l; [by eapply rn_drain|].
      eapply rtc_l; [by eapply rn_stop|]. apply rtc_refl.
    - split_and!; reflexivity. }
  exists r2. split; [|exact Hr2]. exists n, (loopback 1), r0. split; [exact Hs|]. by etrans.
Qed.

(** The whole session of the example: one request, its answer, and the end. *)
Lemma run_refines_server_witness : exists w r session missing n,
  toy_reaches w (local_frame [x53]) r /\ rs_main r = MExit (Ok ()) /\ server w session (rs_world r) /\
  printed (rs_ready r :: map snd session) = printed [str "ready"; str "ok"] ++ missing /\ toy_running (rs_world r) n.
Proof.
  destruct toy_advanced as (p & disk & log & n & a & r & Hr & _).
  destruct (toy_loop _ _ _ _ Hr) as [_ (r2 & H2 & Hm & Hl & Ho)].
  destruct (run_refines_server (str "run-1") (str "trial-A") toy_config_A _ _ _ toy_distinct toy_signing_config H2)
    as (session & tail & missing & Hs & Ht & E & _ & _ & _ & _ & [n2 Hn2]).
  eexists _, r2, session, missing, n2. split; [exact H2|]. split; [exact Hm|]. split; [exact Hs|].
  split; [rewrite E, Ho; reflexivity|exact Hn2].
Defined.

Lemma operator_never_refused_witness : exists w stdin r,
  toy_reaches w stdin r /\ rs_main r = MInput /\ rs_writer r = WIdle.
Proof.
  destruct toy_advanced as (p & disk & log & n & a & r & Hr & _).
  destruct (toy_loop _ _ _ _ Hr) as [(r1 & H1 & Hm) _].
  eexists _, _, r1. split; [exact H1|]. split; [exact Hm|].
  exact (proj1 (proj1 (operator_never_refused (str "run-1") (str "trial-A") _ _ _ H1) Hm)).
Defined.

